(* ===== verification/_CoqProject ===== *)
-Q . S2P
Prelude.v
SortBy.v
BTree.v
Types.v
Placement.v
Reconcile.v
Config.v
Codec.v
SearchDef.v
Query.v
Coordinator.v
CoordinatorProofs.v
Envelope.v
Security.v
Keyspace.v
Outbox.v
MetaTypes.v
Moves.v
ApplyDurability.v
Aio.v
Rocks.v
Durability.v
DurabilityProofs.v
Storage.v
Maintenance.v
Startup.v
DataSM.v
PartitionNode.v
Api.v
Gateway.v
Client.v
SearchStore.v
SearchWorker.v
SearchWorkerProofs.v
SearchShard.v
SearchValue.v
SearchService.v
SearchServiceProofs.v
SearchEndToEnd.v
ApplyRaft.v
LogStore.v
Snapshot.v
Install.v
DataSpec.v
Bincode.v
Oracles.v
Demo.v
DataProofs.v
Service.v
NodeProofs.v
GatewayProofs.v
WireBincode.v
StorageDemo.v
SearchServiceDemo.v
SearchValueDemo.v
Linearizability.v
ClientProofs.v
Cluster.v
ApplyRaftProofs.v
LogStoreProofs.v
InstallProofs.v
RaftStorageDemo.v
MetaSM.v
MetaSpec.v
MetaReads.v
MetaHandlers.v
MetaInv.v
MetaProofs.v
Failure.v
Planner.v
Bootstrap.v
BootstrapProofs.v
Backup.v
BackupProofs.v
MovesProofs.v
MetaRaft.v
MetaDemo.v
BackupDemo.v
MovesDemo.v
