(* ===== verification/Prelude.v ===== *)
(** * A verification development for dal-service

    dal-service (the crate under src/src/) is a replicated, versioned key-value
    store with full-text search: P data partitions, each a Raft group of R
    replicas over RocksDB, and one meta group that holds the directory of nodes,
    the placement of partitions, maintenance operations and the search catalog.
    This library translates the code into Gallina definitions that compute, and
    proves what the parts promise and what they promise together.

    ** The program and its model

    A client ([Client::put], [delete], [get] of api/client.rs) sends a frame
    (transport/codec.rs) to a gateway (api/gateway.rs), which checks it against
    the trust policy (transport/security.rs) and the maintenance gate
    (runtime/maintenance.rs) and hands it to the node of the partition
    (partition/node.rs). openraft replicates it; the state machine adapter
    (partition/sm.rs) decides committed entries with the data state machine
    (partition/state_machine.rs) and writes each chunk in one batch
    (storage/batch.rs) through the write worker (storage/durability.rs), while
    the registry (storage/apply_durability.rs) tracks what is visible and what
    is durable. The same batch leaves dirty keys in a journal (storage/rocks.rs)
    that the projection worker (search/worker.rs) turns into an index
    (search/index.rs, search/value.rs); the search service of a node
    (search/service.rs) answers the shards of a search and a coordinator
    (search/coordinator.rs) merges them. The meta group
    (meta/state_machine.rs, meta/sm.rs) is driven by the seeding of a new
    cluster (meta/bootstrap.rs), the failure detector (meta/failure.rs) and the
    rebalancer (runtime/rebalance.rs, placement.rs, meta/reconcile.rs).

    Files, by layer. The theorems about a component follow its definitions or
    are in a file [XProofs] beside [X]; a file [XDemo] holds concrete runs, which
    also show that the hypotheses of the theorems can be met.

    - Prelude: results and the error type of error.rs, the I/O monad [io] with
      its notation, machine integers, byte strings, tactics and generic lemmas.
      SortBy, BTree: the sorting and ordered collections of the standard
      library. Aio: async computations, [Ready] or [Pending], with a weakest
      precondition.
    - Types, Config, Keyspace, Outbox, SearchDef, Query, MetaTypes, Api: types.rs,
      config.rs, keyspace.rs, search/outbox.rs, search/definition.rs, the
      commands of the meta group, api/ops.rs.
    - Codec: codec.rs as an interface with its round trip. Bincode, WireBincode:
      instances that follow the documented bincode format.
    - Envelope, Security: transport/codec.rs, transport/security.rs.
    - Rocks: the database as an interface with its laws. Storage, Startup,
      SearchStore: the operations of storage/rocks.rs (identity, column families,
      state, opening after a crash, search journal). ApplyDurability,
      Durability: the registry and the write worker.
    - DataSM, DataSpec, DataProofs: the data state machine, its abstract
      specification and the refinement. ApplyRaft, LogStore, Snapshot, Install:
      partition/sm.rs, storage/batch.rs,
      partition/log_store.rs, snapshot.rs and the installer of storage/rocks.rs.
    - PartitionNode, NodeProofs, Gateway, GatewayProofs, Client, ClientProofs,
      Service, Cluster: the serving path. [Service] states
      what a client relies on as a class; GatewayProofs shows that gateways over
      Raft handles provide it and ClientProofs what follows from it.
    - MetaSM, MetaSpec, MetaReads, MetaHandlers, MetaInv, MetaProofs, MetaRaft:
      the meta state machine, its abstract state and rules, the representation,
      handler by handler refinement, the invariant, its Raft adapter.
      Bootstrap: the creation of a cluster.
    - Placement, Reconcile, Failure, Planner, Moves, MovesProofs: the balancer,
      the move gate, the detector, the leader's planner and the driver of moves.
    - Maintenance: the admission gate and the process lifecycle.
    - Backup: backup/mod.rs and the epoch a restore installs (storage/rocks.rs),
      over a map from paths to file trees.
    - SearchWorker, SearchShard, SearchValue, SearchService, Coordinator,
      SearchEndToEnd: projection, querying one commit, extraction of documents,
      the service, the coordinator and all of them together.
    - Oracles, Linearizability: verify/oracles.rs, verify/linearizability.rs.

    ** Conventions

    A Rust function becomes a Gallina function of the same name, with a prefix
    where a name is used twice ([Client::put] is [client_put]); [Enum::Case] is
    [Enum_Case]. Unsigned integers are [N] with the wrapping, saturating or
    checked operation the source uses written out, and [wf] states the range of
    a type; a float is its bit pattern. [Result] is [result], fallible
    state-changing code [io S A]: a new state with every outcome, the failing
    ones included. A critical section is one function. Code that interleaves is
    split at its awaits, locks or atomic accesses and run by a step relation
    ([producer_step], [worker_step], [gate_step], [genesis_step], the steps of
    Moves, SearchService and Coordinator). Not every await is such a point: the
    gate of a search, with its barrier and its projection pass, is one step, in
    which what other tasks do is the argument [PassEnv]. Failures of the world (a
    lost frame, a clock, a crash, the failing calls of the log store, the write
    worker, an apply, an installation, a projection, a backup) are arguments or
    steps. Elsewhere a database call succeeds: the errors of single local records
    only end the operation that meets them. The text [format!] builds from values
    is shortened to its constant part.

    ** What is proved

    - Data groups: applying an entry refines a versioned map with compare-and-set
      and an exactly-once stream per client; any log is applied exactly once;
      coalesced and per-entry application agree; whatever fails during an apply
      the store holds a clean prefix and an error fences it.
    - Raft storage: each operation of the log store refines an abstract log and
      is completed by a retry after a failure; entries are purged only when the
      state is durable; a snapshot moves the whole state and an installation is
      all or nothing, whichever of its calls fails; the write worker acknowledges only what is flushed and
      answers everything it accepted; opening a crashed store recovers it.
    - Serving: every mutation a client reports is in the log exactly once over a
      network that loses, delays, duplicates and reorders; reads see a prefix
      that their consistency demands; the calls return.
    - Meta group: each command refines one rule of an abstract control plane
      whose invariant every log preserves; incarnations, plans and maintenance
      fences are respected; an interrupted creation of a cluster can always be
      finished and never goes wrong.
    - Balancing and failure: the balancer converges; the detector raises no false
      alarm while its clock is monotone; every planner command is accepted; the record of a move agrees with
      the group and a move completes. [stale_pass_splits_record] exhibits the
      schedule in which it does not, when a leader returns to a suspended pass.
    - Search: pruning loses nothing a consumer needs; a pass makes the index
      exact; a strict search sees every write before it; sessions are executed
      once and accounted for; the page returned is the page of the ranking of all
      pinned documents under one set of statistics; stored fields come back as
      they are in the record. [failed_rebuild_not_retried] shows how an index comes
      to report itself caught up when it is not.
    - Backup: a package that verifies is one consistent recovery point of the
      whole cluster; restoring a node publishes all or nothing, and what it
      publishes starts with the packaged state under the new recovery epoch, only
      with a trust policy newer than the package's that keeps none of its keys.
    - Checkers: the linearizability checker decides linearizability.

    ** Parameters

    Code from other crates is a class with the laws its documentation gives:
    RocksDB ([Rocks], [RocksOk]), bincode ([Codec]), the hashes ([Hashes]),
    openraft's handle ([Raft], [RaftOk]), Tantivy ([Tantivy], [TantivyQuery],
    [TantivyDocument] with their [Ok] classes), FlatBuffers and FlexBuffers
    ([FlexReader]), the network ([Transport]), JSON documents ([Json]) and the
    files of a database ([DbFiles], [DbFilesOk]). Each has an instance on which the
    theorems are applied. Raft's own safety is part of [RaftOk] and not proved.

    ** Bounds and fuel

    Every recursion is structural except these. The decoder of snapshots takes
    the length of the file plus one, and [decode_terminates] shows that it never
    runs out. The retry loop of the client takes its fuel as an argument;
    [client_calls_return] shows that 96 rounds always suffice, by its two bounds,
    and that more change nothing. [wait_learner_caught_up] polls until a deadline;
    fuel stands for the number of polls and [Pending] for running out of it.
    [get_many] of Bincode and [unseal] of BackupDemo take the length of their
    input. [hex_digits] takes the
    number of digits. Constants of the source (limits of frames, sessions,
    chunks, terms) keep their values.

    ** Not modelled

    - Sockets, queues and timers: transport/router.rs, dealer.rs, raft_net.rs and
      the ZeroMQ authentication of security.rs. They are I/O around ZeroMQ; what
      is relied on is the class [Transport].
    - partition/network.rs, raft_types.rs: in-process channels and openraft type
      declarations.
    - The assembly of a node, its background tasks and endpoints:
      runtime/node.rs (except the detector round), dispatch.rs (except the
      heartbeat handler), http.rs, admin.rs, search.rs, directory.rs, main.rs;
      they wire the modelled parts to sockets and files. Parsing of
      configuration files (runtime/config_file.rs) other than the init file.
    - Files: temporary snapshot files, index directories and their quarantine,
      the format marker of a store; in backup/mod.rs, the checks that one path is
      not inside another, syncs of single files and the platform calls.
    - Drivers used by tests only: meta/rebalancer.rs, [seed_cluster] and
      [admit_and_promote] of meta/bootstrap.rs, verify/rng.rs.
    - perf.rs and every metric; log output; fail points, compiled out of a
      production build. *)

From stdpp Require Export base tactics numbers option countable strings pretty sorting gmap list.
From Stdlib Require Export Strings.Byte.
From stdpp Require Export list.


(** ** Results and the crate-wide error type *)

(** [Result<T, E>]: success or a typed error. *)
Inductive result (E A : Type) : Type :=
| Ok (a : A)
| Err (e : E).
Arguments Ok {E A} _.
Arguments Err {E A} _.

#[global] Instance result_eq_dec `{EqDecision E, EqDecision A} : EqDecision (result E A).
Proof. solve_decision. Defined.

#[global] Instance result_ret E : MRet (result E) := fun A a => Ok a.
(** The [?] operator. *)
Definition rbind {E A B} (m : result E A) (f : A → result E B) : result E B :=
  match m with Ok a => f a | Err e => Err e end.
#[global] Instance result_bind E : MBind (result E) := fun A B f m => rbind m f.
Notation "'let!' x := m 'in' k" := (rbind m (λ x, k))
  (at level 200, x binder, m at level 200, k at level 200).
#[global] Instance result_fmap E : FMap (result E) := fun A B f m =>
  match m with Ok a => Ok (f a) | Err e => Err e end.

(** [Option::ok_or_else]. *)
Definition ok_or {E A} (o : option A) (e : E) : result E A :=
  match o with Some a => Ok a | None => Err e end.

Definition is_ok {E A} (r : result E A) : bool :=
  match r with Ok _ => true | Err _ => false end.

(** The crate error enum of src/src/error.rs, one constructor per variant. The
    payload of [Error::Rocks] and of [Error::Io] is the displayed text. *)
Inductive Error : Type :=
| Error_Config (s : string)
| Error_Rocks (s : string)
| Error_Codec (s : string)
| Error_IdentityMismatch (found_cluster found_node want_cluster want_node : N)
| Error_Corrupt (what detail : string)
| Error_Raft (s : string)
| Error_Search (s : string)
| Error_Io (s : string).

#[global] Instance Error_eq_dec : EqDecision Error.
Proof. solve_decision. Defined.

Abbreviation Result := (result Error).

(** [{:#x}]: lower-case hexadecimal. *)
Definition hex_digit (n : N) : string :=
  match n with
  | 0 => "0" | 1 => "1" | 2 => "2" | 3 => "3" | 4 => "4" | 5 => "5" | 6 => "6" | 7 => "7"
  | 8 => "8" | 9 => "9" | 10 => "a" | 11 => "b" | 12 => "c" | 13 => "d" | 14 => "e" | _ => "f"
  end%N.
Fixpoint hex_digits (fuel : nat) (n : N) : string :=
  match fuel with
  | O => ""
  | S fuel => (if (n <? 16)%N then "" else hex_digits fuel (n / 16)) +:+ hex_digit (n mod 16)
  end.
Definition hex_u128 (n : N) : string := "0x" +:+ hex_digits 32 n.

(** [impl Display for Error] (the [#[error(..)]] attributes). *)
Definition error_display (e : Error) : string :=
  match e with
  | Error_Config s => "configuration invalid: " +:+ s
  | Error_Rocks s => "storage: " +:+ s
  | Error_Codec s => "codec: " +:+ s
  | Error_IdentityMismatch fc fn wc wn =>
      "identity mismatch: data dir holds cluster " +:+ hex_u128 fc +:+ " node " +:+ pretty fn +:+
      ", config expects cluster " +:+ hex_u128 wc +:+ " node " +:+ pretty wn
  | Error_Corrupt what detail => "corrupt on-disk record in " +:+ what +:+ ": " +:+ detail
  | Error_Raft s => "raft: " +:+ s
  | Error_Search s => "search: " +:+ s
  | Error_Io s => "io: " +:+ s
  end.

Lemma bind_ok {E A B} (m : result E A) (f : A → result E B) b :
  m ≫= f = Ok b ↔ ∃ a, m = Ok a ∧ f a = Ok b.
Proof. destruct m; simpl; naive_solver. Qed.

Lemma rbind_ok {E A B} (m : result E A) (f : A → result E B) b :
  rbind m f = Ok b ↔ ∃ a, m = Ok a ∧ f a = Ok b.
Proof. destruct m; simpl; naive_solver. Qed.

Lemma ok_or_ok {E A} (o : option A) (e : E) a : ok_or o e = Ok a ↔ o = Some a.
Proof. destruct o; simpl; naive_solver. Qed.

(** Sequence a fallible computation over a list, left to right, as
    [collect::<Result<Vec<_>>>] does. *)
Fixpoint mapR {E A B} (f : A → result E B) (l : list A) : result E (list B) :=
  match l with
  | [] => Ok []
  | x :: l => y ← f x; ys ← mapR f l; Ok (y :: ys)
  end.

Lemma mapR_ok {E A B} (f : A → result E B) l l' :
  mapR f l = Ok l' ↔ Forall2 (λ x y, f x = Ok y) l l'.
Proof.
  revert l'. induction l as [|x l IH]; intros l'; simpl.
  - split; [intros [= <-]; constructor|by inversion 1].
  - rewrite bind_ok. split.
    + intros (y & Hy & (ys & Hys & [= <-])%bind_ok). constructor; [done|by apply IH].
    + inversion 1 as [|? y ? ys Hy Hys]; subst. exists y. split; [done|].
      apply IH in Hys. by rewrite Hys.
Qed.

(** ** State and errors

    A handler that mutates shared state and may return early with an error: the
    mutations made before the error stay. *)
Definition io (S A : Type) : Type := S → S * Result A.
Definition io_ret {S A} (a : A) : io S A := λ s, (s, Ok a).
Definition io_err {S A} (e : Error) : io S A := λ s, (s, Err e).
Definition io_bind {S A B} (m : io S A) (k : A → io S B) : io S B :=
  λ s, match m s with (s, Ok a) => k a s | (s, Err e) => (s, Err e) end.
(** Read the state, or fail; and an infallible update. *)
Definition io_read {S A} (f : S → Result A) : io S A := λ s, (s, f s).
Definition io_modify {S} (f : S → S) : io S unit := λ s, (f s, Ok tt).

Declare Scope io_scope.
Delimit Scope io_scope with io.
Notation "'let?' x := m 'in' k" := (io_bind m (λ x, k))
  (at level 200, x binder, m at level 200, k at level 200) : io_scope.
Notation "m ;;? k" := (io_bind m (λ _, k)) (at level 100, right associativity) : io_scope.
Open Scope io_scope.

Lemma io_bind_ok {S A B} (m : io S A) (k : A → io S B) s s' b :
  io_bind m k s = (s', Ok b) ↔ ∃ s1 a, m s = (s1, Ok a) ∧ k a s1 = (s', Ok b).
Proof. unfold io_bind. destruct (m s) as [s1 [a|e]]; naive_solver. Qed.

(** A computation whose result is known. *)
Lemma pair_of {A B} (x : A * B) (b : B) : x.2 = b → x = (x.1, b).
Proof. intros <-. apply surjective_pairing. Qed.

(** ** Machine integers

    Unsigned integers are [N]; every operation that can leave its width is
    written with the Rust operator the source uses. *)

Definition u8_max : N := 255.
Definition u16_max : N := 65535.
Definition u32_max : N := 4294967295.
Definition u64_max : N := 18446744073709551615.
(** [usize] on the 64-bit targets the crate builds for. *)
Definition usize_max : N := u64_max.
Definition u128_max : N := 340282366920938463463374607431768211455.

Definition checked_add (max a b : N) : option N :=
  if (a + b <=? max)%N then Some (a + b)%N else None.
Definition checked_mul (max a b : N) : option N :=
  if (a * b <=? max)%N then Some (a * b)%N else None.
Definition saturating_add (max a b : N) : N := N.min (a + b) max.
(** [a.saturating_sub(b)]: subtraction of [N] truncates at zero. *)
Definition saturating_sub (a b : N) : N := (a - b)%N.
Definition wrapping_add (max a b : N) : N := ((a + b) mod (max + 1))%N.
Definition wrapping_mul (max a b : N) : N := ((a * b) mod (max + 1))%N.

Lemma checked_add_Some max a b c : checked_add max a b = Some c ↔ c = (a + b)%N ∧ (a + b ≤ max)%N.
Proof. unfold checked_add. destruct (N.leb_spec (a + b) max); naive_solver lia. Qed.

Lemma checked_add_None max a b : checked_add max a b = None ↔ (max < a + b)%N.
Proof. unfold checked_add. destruct (N.leb_spec (a + b) max); naive_solver lia. Qed.

(** ** Bytes *)

#[global] Instance byte_eq_decision : EqDecision byte := byte_eq_dec.
#[global] Instance byte_countable : Countable byte.
Proof. apply (inj_countable Byte.to_N Byte.of_N). intros b. apply Byte.of_to_N. Defined.
#[global] Instance byte_inhabited : Inhabited byte := populate x00.

Abbreviation bytes := (list byte).

(** Truncating conversion [n as u8]. *)
Definition byte_of_N (n : N) : byte := default x00 (Byte.of_N (n mod 256)).

Lemma to_N_byte_of_N n : Byte.to_N (byte_of_N n) = (n mod 256)%N.
Proof.
  unfold byte_of_N. destruct (Byte.of_N (n mod 256)) as [b|] eqn:E; simpl.
  - by apply Byte.to_of_N.
  - apply Byte.of_N_None_iff in E. pose proof (N.mod_upper_bound n 256). lia.
Qed.

Lemma byte_of_to_N b : byte_of_N (Byte.to_N b) = b.
Proof.
  unfold byte_of_N. pose proof (Byte.to_N_bounded b).
  rewrite N.mod_small by lia. by rewrite Byte.of_to_N.
Qed.

Lemma to_N_lt b : (Byte.to_N b < 256)%N.
Proof. pose proof (Byte.to_N_bounded b). lia. Qed.

Lemma to_N_inj b c : Byte.to_N b = Byte.to_N c → b = c.
Proof. intros E. by rewrite <-(byte_of_to_N b), <-(byte_of_to_N c), E. Qed.

(** [to_le_bytes] and [from_le_bytes] at a width of [n] bytes. *)
Fixpoint le_bytes (n : nat) (v : N) : bytes :=
  match n with
  | O => []
  | S n => byte_of_N v :: le_bytes n (v / 256)
  end.

Fixpoint le_value (l : bytes) : N :=
  match l with
  | [] => 0
  | b :: l => Byte.to_N b + 256 * le_value l
  end%N.

(** [to_be_bytes] and [from_be_bytes]. *)
Definition be_bytes (n : nat) (v : N) : bytes := reverse (le_bytes n v).
Definition be_value (l : bytes) : N := le_value (reverse l).

Lemma length_le_bytes n v : length (le_bytes n v) = n.
Proof. revert v; induction n; simpl; auto. Qed.

Lemma length_be_bytes n v : length (be_bytes n v) = n.
Proof. unfold be_bytes. by rewrite length_reverse, length_le_bytes. Qed.

Lemma le_value_le_bytes n v : le_value (le_bytes n v) = (v mod 256 ^ N.of_nat n)%N.
Proof.
  revert v. induction n as [|n IH]; intros v; cbn [le_bytes le_value].
  - by rewrite N.mod_1_r.
  - rewrite IH, to_N_byte_of_N, Nat2N.inj_succ, N.pow_succ_r by lia.
    rewrite N.Div0.mod_mul_r. lia.
Qed.

Lemma le_value_le_bytes_small n v :
  (v < 256 ^ N.of_nat n)%N → le_value (le_bytes n v) = v.
Proof. intros. by rewrite le_value_le_bytes, N.mod_small. Qed.

Lemma le_value_bound l : (le_value l < 256 ^ N.of_nat (length l))%N.
Proof.
  induction l as [|b l IH]; cbn [le_value length]; [done|].
  rewrite Nat2N.inj_succ, N.pow_succ_r by lia. pose proof (to_N_lt b). lia.
Qed.

Lemma le_bytes_le_value l : le_bytes (length l) (le_value l) = l.
Proof.
  induction l as [|b l IH]; cbn [le_value length le_bytes]; [done|].
  pose proof (to_N_lt b). f_equal.
  - apply to_N_inj. rewrite to_N_byte_of_N.
    rewrite (N.mul_comm 256), N.Div0.mod_add. by apply N.mod_small.
  - rewrite (N.mul_comm 256), N.div_add, N.div_small by lia. by rewrite N.add_0_l.
Qed.

Lemma le_bytes_inj n v w :
  (v < 256 ^ N.of_nat n)%N → (w < 256 ^ N.of_nat n)%N → le_bytes n v = le_bytes n w → v = w.
Proof.
  intros Hv Hw E. by rewrite <-(le_value_le_bytes_small n v), <-(le_value_le_bytes_small n w), E.
Qed.

Lemma be_value_be_bytes_small n v :
  (v < 256 ^ N.of_nat n)%N → be_value (be_bytes n v) = v.
Proof. intros. unfold be_value, be_bytes. rewrite reverse_involutive. by apply le_value_le_bytes_small. Qed.

Lemma be_bytes_be_value l : be_bytes (length l) (be_value l) = l.
Proof.
  unfold be_bytes, be_value. rewrite <-(length_reverse l), le_bytes_le_value.
  apply reverse_involutive.
Qed.

Lemma be_bytes_inj n v w :
  (v < 256 ^ N.of_nat n)%N → (w < 256 ^ N.of_nat n)%N → be_bytes n v = be_bytes n w → v = w.
Proof.
  intros Hv Hw E. by rewrite <-(be_value_be_bytes_small n v), <-(be_value_be_bytes_small n w), E.
Qed.

Lemma be_value_app l k :
  be_value (l ++ k) = (be_value l * 256 ^ N.of_nat (length k) + be_value k)%N.
Proof.
  unfold be_value. rewrite reverse_app.
  assert (∀ a b, le_value (a ++ b) = le_value a + 256 ^ N.of_nat (length a) * le_value b)%N as Happ.
  { induction a as [|x a IH]; intros b; cbn [app le_value length].
    - by rewrite N.pow_0_r, N.mul_1_l.
    - rewrite IH, Nat2N.inj_succ, N.pow_succ_r by lia. lia. }
  rewrite Happ, length_reverse. lia.
Qed.

(** ** Slices *)

Definition starts_with (prefix l : bytes) : bool := bool_decide (take (length prefix) l = prefix).

(** [<[u8]>::strip_prefix]. *)
Fixpoint strip_prefix {A} `{EqDecision A} (prefix l : list A) : option (list A) :=
  match prefix, l with
  | [], _ => Some l
  | x :: p, y :: l => if decide (x = y) then strip_prefix p l else None
  | _ :: _, [] => None
  end.

Lemma strip_prefix_Some {A} `{EqDecision A} (p l r : list A) : strip_prefix p l = Some r ↔ l = p ++ r.
Proof.
  revert l. induction p as [|x p IH]; intros [|y l]; simpl; try naive_solver.
  destruct (decide (x = y)) as [->|Hne]; [rewrite IH|]; naive_solver.
Qed.

Lemma strip_prefix_app {A} `{EqDecision A} (p r : list A) : strip_prefix p (p ++ r) = Some r.
Proof. by apply strip_prefix_Some. Qed.

Lemma starts_with_spec p l : starts_with p l = true ↔ p `prefix_of` l.
Proof.
  unfold starts_with. rewrite bool_decide_eq_true. split.
  - intros <-. exists (drop (length p) l). by rewrite take_drop.
  - intros [k ->]. by rewrite take_app_length.
Qed.

(** [bytes.get(a..b)]: the slice, or [None] when it runs out of range. *)
Definition slice {A} (a b : N) (l : list A) : option (list A) :=
  if (a <=? b)%N && (b <=? N.of_nat (length l))%N
  then Some (take (N.to_nat (b - a)) (drop (N.to_nat a) l)) else None.

Lemma slice_app {A} (p m q : list A) a b :
  a = N.of_nat (length p) → b = (a + N.of_nat (length m))%N → slice a b (p ++ m ++ q) = Some m.
Proof.
  intros -> ->. unfold slice. rewrite !length_app.
  rewrite (proj2 (N.leb_le _ _)), (proj2 (N.leb_le _ _)) by lia. simpl.
  rewrite Nat2N.id, drop_app_length. f_equal. by rewrite take_app_length' by lia.
Qed.

(** Equality of two concatenations whose heads have equal length. *)
Lemma app_inj_length {A} (a b c d : list A) :
  length a = length b → a ++ c = b ++ d → a = b ∧ c = d.
Proof. intros. by apply app_inj_1. Qed.

(** Lexicographic byte order, the order RocksDB iterates keys in. *)
Fixpoint bytes_leb (a b : bytes) : bool :=
  match a, b with
  | [], _ => true
  | _ :: _, [] => false
  | x :: a, y :: b =>
      if (Byte.to_N x <? Byte.to_N y)%N then true
      else if (Byte.to_N x =? Byte.to_N y)%N then bytes_leb a b else false
  end.

Definition bytes_le (a b : bytes) : Prop := Is_true (bytes_leb a b).
Definition bytes_lt (a b : bytes) : Prop := bytes_le a b ∧ a ≠ b.

#[global] Instance bytes_le_dec a b : Decision (bytes_le a b).
Proof. unfold bytes_le. apply _. Defined.

Lemma bytes_le_cons x y a b :
  bytes_le (x :: a) (y :: b) ↔
  (Byte.to_N x < Byte.to_N y)%N ∨ (Byte.to_N x = Byte.to_N y ∧ bytes_le a b).
Proof.
  unfold bytes_le; cbn [bytes_leb].
  destruct (N.ltb_spec (Byte.to_N x) (Byte.to_N y)); simpl; [naive_solver|].
  destruct (N.eqb_spec (Byte.to_N x) (Byte.to_N y)); simpl; naive_solver lia.
Qed.

#[global] Instance bytes_le_total : Total bytes_le.
Proof.
  intros a. induction a as [|x a IH]; intros b; [by left|].
  destruct b as [|y b]; [by right|].
  rewrite !bytes_le_cons. destruct (N.lt_trichotomy (Byte.to_N x) (Byte.to_N y)) as [?|[E|?]]; [by auto| |by auto].
  rewrite E. destruct (IH b); auto.
Qed.

#[global] Instance bytes_le_trans : Transitive bytes_le.
Proof.
  intros a. induction a as [|x a IH]; intros b c; [done|].
  destruct b as [|y b], c as [|z c]; try done.
  rewrite !bytes_le_cons. intros [H1|[H1 H1']] [H2|[H2 H2']];
    [left; lia|left; lia|left; lia|right; split; [lia|by eapply IH]].
Qed.

#[global] Instance bytes_le_refl : Reflexive bytes_le.
Proof. intros a. by destruct (bytes_le_total a a). Qed.

#[global] Instance bytes_le_antisymm : AntiSymm eq bytes_le.
Proof.
  intros a. induction a as [|x a IH]; intros [|y b]; try done.
  rewrite !bytes_le_cons. intros [H1|[H1 H1']] [H2|[H2 H2']]; try lia.
  f_equal; [by apply to_N_inj|auto].
Qed.

Lemma bytes_le_app_l p a b : bytes_le (p ++ a) (p ++ b) ↔ bytes_le a b.
Proof. induction p as [|x p IH]; simpl; [done|]. rewrite bytes_le_cons. naive_solver lia. Qed.

(** Big-endian images compare like the numbers they encode: two equally long
    heads decide the order unless they are equal. *)
Lemma bytes_le_be_app a b c d :
  length a = length b →
  bytes_le (a ++ c) (b ++ d) ↔ (be_value a < be_value b)%N ∨ (a = b ∧ bytes_le c d).
Proof.
  revert b. induction a as [|x a IH]; intros [|y b]; simpl; intros Hlen; try done.
  { unfold be_value; simpl. naive_solver lia. }
  injection Hlen as Hlen. rewrite bytes_le_cons, IH by done.
  change (x :: a) with ([x] ++ a). change (y :: b) with ([y] ++ b).
  rewrite !be_value_app, Hlen.
  unfold be_value at 3 5; unfold reverse; cbn [rev_append le_value].
  pose proof (le_value_bound (reverse a)) as Ha. pose proof (le_value_bound (reverse b)) as Hb.
  fold (be_value a) in Ha. fold (be_value b) in Hb.
  rewrite length_reverse in Ha, Hb. rewrite Hlen in Ha.
  set (q := (256 ^ N.of_nat (length b))%N) in *. set (u := Byte.to_N x). set (v := Byte.to_N y).
  rewrite !N.mul_0_r, !N.add_0_r. split.
  - intros [H|[H [H'|[-> H']]]].
    + left. apply N.lt_le_trans with ((u + 1) * q)%N; [lia|].
      apply N.le_trans with (v * q)%N; [apply N.mul_le_mono_r; lia|lia].
    + left. rewrite H. lia.
    + right. split; [|done]. by rewrite (to_N_inj x y).
  - intros [H|[[= -> ->] H]].
    + destruct (N.lt_trichotomy u v) as [?|[E|Hgt]]; [by left| |].
      * right. split; [done|]. left. rewrite E in H. lia.
      * exfalso. assert ((v + 1) * q ≤ u * q)%N by (apply N.mul_le_mono_r; lia). lia.
    + right. naive_solver.
Qed.

Create HintDb bset.

(** ** UTF-8

    A Rust [String] is a sequence of bytes that decodes as UTF-8; it is a Rocq
    [string] here (one [ascii] per byte), and [String.length] is [str::len]. *)

Definition utf8_cont (b : byte) : option N :=
  let n := Byte.to_N b in
  if (128 <=? n)%N && (n <=? 191)%N then Some (n - 128)%N else None.

(** Decode to scalar values, rejecting overlong forms and surrogates. *)
Fixpoint utf8_chars (l : bytes) : option (list N) :=
  match l with
  | [] => Some []
  | b0 :: l0 =>
      let n := Byte.to_N b0 in
      if (n <? 128)%N then cs ← utf8_chars l0; Some (n :: cs)
      else if (194 <=? n)%N && (n <=? 223)%N then
        match l0 with
        | b1 :: l1 => c1 ← utf8_cont b1; cs ← utf8_chars l1; Some (((n - 192) * 64 + c1)%N :: cs)
        | _ => None
        end
      else if (224 <=? n)%N && (n <=? 239)%N then
        match l0 with
        | b1 :: b2 :: l2 =>
            c1 ← utf8_cont b1; c2 ← utf8_cont b2; cs ← utf8_chars l2;
            let c := ((n - 224) * 4096 + c1 * 64 + c2)%N in
            if (c <? 2048)%N || ((55296 <=? c)%N && (c <=? 57343)%N) then None else Some (c :: cs)
        | _ => None
        end
      else if (240 <=? n)%N && (n <=? 244)%N then
        match l0 with
        | b1 :: b2 :: b3 :: l3 =>
            c1 ← utf8_cont b1; c2 ← utf8_cont b2; c3 ← utf8_cont b3; cs ← utf8_chars l3;
            let c := ((n - 240) * 262144 + c1 * 4096 + c2 * 64 + c3)%N in
            if (c <? 65536)%N || (1114111 <? c)%N then None else Some (c :: cs)
        | _ => None
        end
      else None
  end.

Definition utf8_valid (l : bytes) : bool := bool_decide (is_Some (utf8_chars l)).

(** [str::as_bytes] and [String::from_utf8]. *)
Definition as_bytes (s : string) : bytes := String.list_byte_of_string s.
Definition from_utf8 (l : bytes) : option string :=
  if utf8_valid l then Some (String.string_of_list_byte l) else None.
Definition utf8_string (s : string) : Prop := utf8_valid (as_bytes s) = true.

Lemma from_utf8_as_bytes s : utf8_string s → from_utf8 (as_bytes s) = Some s.
Proof.
  intros H. unfold from_utf8. rewrite H. unfold as_bytes.
  by rewrite String.string_of_list_byte_of_string.
Qed.

Lemma as_bytes_inj s t : as_bytes s = as_bytes t → s = t.
Proof.
  intros E. rewrite <-(String.string_of_list_byte_of_string s), <-(String.string_of_list_byte_of_string t).
  unfold as_bytes in E. by rewrite E.
Qed.

Lemma length_as_bytes s : length (as_bytes s) = String.length s.
Proof.
  unfold as_bytes, String.list_byte_of_string. rewrite length_map.
  induction s; simpl; congruence.
Qed.

Lemma as_bytes_app s t : as_bytes (s +:+ t) = as_bytes s ++ as_bytes t.
Proof.
  unfold as_bytes, String.list_byte_of_string. rewrite <-map_app. f_equal.
  induction s as [|c s IH]; [done|]. cbn. by rewrite <-IH.
Qed.

(** ** Reasoning about the boolean tests of the source *)

Ltac bools :=
  repeat match goal with
  | H : (_ && _) = true |- _ => apply andb_true_iff in H; destruct H
  | H : (_ || _) = false |- _ => apply orb_false_iff in H; destruct H
  | H : negb _ = true |- _ => apply negb_true_iff in H
  | H : negb _ = false |- _ => apply negb_false_iff in H
  | H : bool_decide _ = true |- _ => apply bool_decide_eq_true in H
  | H : bool_decide _ = false |- _ => apply bool_decide_eq_false in H
  | H : (_ =? _)%N = true |- _ => apply N.eqb_eq in H
  | H : (_ =? _)%N = false |- _ => apply N.eqb_neq in H
  | H : (_ <? _)%N = true |- _ => apply N.ltb_lt in H
  | H : (_ <? _)%N = false |- _ => apply N.ltb_ge in H
  | H : (_ <=? _)%N = true |- _ => apply N.leb_le in H
  | H : (_ <=? _)%N = false |- _ => apply N.leb_gt in H
  | H : (_ =? _)%nat = true |- _ => apply Nat.eqb_eq in H
  | H : (_ =? _)%nat = false |- _ => apply Nat.eqb_neq in H
  | H : (_ <? _)%nat = true |- _ => apply Nat.ltb_lt in H
  | H : (_ <? _)%nat = false |- _ => apply Nat.ltb_ge in H
  | H : (_ <=? _)%nat = true |- _ => apply Nat.leb_le in H
  | H : (_ <=? _)%nat = false |- _ => apply Nat.leb_gt in H
  end.

Lemma mapR_fmap {E A B C} (f : B → result E C) (h : A → B) (g : A → C) l :
  (∀ x, x ∈ l → f (h x) = Ok (g x)) → mapR f (h <$> l) = Ok (g <$> l).
Proof.
  intros Hf. apply mapR_ok. rewrite Forall2_fmap_l, Forall2_fmap_r. apply Forall_Forall2_diag.
  apply Forall_forall. exact Hf.
Qed.

(** Sequencing over a permutation of a mapped list permutes the results. *)
Lemma mapR_perm {E A B C} (f : B → result E C) (h : A → B) (g : A → C) l xs :
  l ≡ₚ h <$> xs → (∀ x, x ∈ xs → f (h x) = Ok (g x)) → ∃ ys, mapR f l = Ok ys ∧ ys ≡ₚ g <$> xs.
Proof.
  intros (xs' & -> & Hp)%Permutation_map_inv Hf. exists (g <$> xs'). split; [|by rewrite Hp].
  apply mapR_fmap. intros x Hx. apply Hf. by rewrite Hp.
Qed.

Lemma mapR_total {E A B} (f : A → result E B) l :
  (∀ x, x ∈ l → ∃ y, f x = Ok y) →
  ∃ ys, mapR f l = Ok ys ∧ ∀ y, y ∈ ys ↔ ∃ x, x ∈ l ∧ f x = Ok y.
Proof.
  intros Hf. assert (∃ ys, Forall2 (λ x y, f x = Ok y) l ys) as [ys Hys].
  { induction l as [|x l IH]; [by exists []|]. destruct (Hf x) as [y Hy]; [left|].
    destruct IH as [ys Hys]; [intros z Hz; apply Hf; by right|]. exists (y :: ys). by constructor. }
  exists ys. split; [by apply mapR_ok|]. intros y. split.
  - intros (i & Hi)%list_elem_of_lookup. destruct (Forall2_lookup_r _ _ _ _ _ Hys Hi) as (x & Hx & Hxy).
    exists x. split; [by eapply list_elem_of_lookup_2|done].
  - intros (x & (i & Hi)%list_elem_of_lookup & Hxy).
    destruct (Forall2_lookup_l _ _ _ _ _ Hys Hi) as (y' & Hy & Hxy'). assert (y = y') as -> by congruence.
    by eapply list_elem_of_lookup_2.
Qed.

Lemma filter_id {A} (P : A → Prop) `{∀ x, Decision (P x)} (l : list A) : (∀ x, x ∈ l → P x) → filter P l = l.
Proof.
  induction l as [|x l IH]; intros HP; [done|]. rewrite filter_cons_True by (apply HP; left).
  f_equal. apply IH. intros y Hy. apply HP. by right.
Qed.

Lemma filter_none {A} (P : A → Prop) `{∀ x, Decision (P x)} (l : list A) : (∀ x, x ∈ l → ¬ P x) → filter P l = [].
Proof.
  induction l as [|x l IH]; intros HP; [done|]. rewrite filter_cons_False by (apply HP; left).
  apply IH. intros y Hy. apply HP. by right.
Qed.

Lemma StronglySorted_filter {A} (R : A → A → Prop) (P : A → Prop) `{∀ x, Decision (P x)} (l : list A) :
  StronglySorted R l → StronglySorted R (filter P l).
Proof.
  induction 1 as [|x l Hs IH Hx]; [constructor|]. rewrite filter_cons. case_decide; [|done].
  constructor; [done|]. rewrite Forall_forall in Hx |- *. intros y [_ Hy]%list_elem_of_filter. by apply Hx.
Qed.

Lemma Forall_filter {A} (Q P : A → Prop) `{∀ x, Decision (P x)} (l : list A) : Forall Q l → Forall Q (filter P l).
Proof. rewrite !Forall_forall. intros HQ y [_ Hy]%list_elem_of_filter. by apply HQ. Qed.

Lemma filter_ext {A} (P Q : A → Prop) `{∀ x, Decision (P x), ∀ x, Decision (Q x)} (l : list A) :
  (∀ x, x ∈ l → P x ↔ Q x) → filter P l = filter Q l.
Proof.
  induction l as [|x l IH]; intros HP; [done|]. rewrite !filter_cons.
  assert (filter P l = filter Q l) as -> by (apply IH; intros; apply HP; by right).
  assert (P x ↔ Q x) by (apply HP; left). repeat case_decide; tauto.
Qed.
