(* ===== verification/SortBy.v ===== *)
(** * Comparators and stable sorting of the standard library

    [Ordering::then], [Iterator::min_by]/[max_by] and the stable
    [slice::sort_by], as an insertion sort that puts an element before its
    equals. The laws of a comparator are the class [Comparator]; sorting
    followed by a cut at [k] may be done in rounds ([sort_by_cut]). *)

From S2P Require Import Prelude.

(** [Ordering::then]. *)
Definition ordering_then (c d : comparison) : comparison := match c with Eq => d | _ => c end.

(** [Iterator::min_by] returns the first minimum, [Iterator::max_by] the last maximum. *)
Definition min_by {A} (cmp : A → A → comparison) (l : list A) : option A :=
  match l with
  | [] => None
  | x :: l => Some (foldl (λ a b, match cmp a b with Gt => b | _ => a end) x l)
  end.
Definition max_by {A} (cmp : A → A → comparison) (l : list A) : option A :=
  match l with
  | [] => None
  | x :: l => Some (foldl (λ a b, match cmp a b with Gt => a | _ => b end) x l)
  end.

Fixpoint insert_by {A} (cmp : A → A → comparison) (x : A) (l : list A) : list A :=
  match l with
  | [] => [x]
  | y :: l' => match cmp x y with Gt => y :: insert_by cmp x l' | _ => x :: l end
  end.
(** [slice::sort_by]. *)
Definition sort_by {A} (cmp : A → A → comparison) (l : list A) : list A := foldr (insert_by cmp) [] l.

(** A comparator of a total preorder. *)
Class Comparator {A} (cmp : A → A → comparison) : Prop := {
  cmp_opp x y : cmp y x = CompOpp (cmp x y);
  cmp_le_trans x y z : cmp x y ≠ Gt → cmp y z ≠ Gt → cmp x z ≠ Gt;
}.
Arguments cmp_opp {A} cmp {_} x y.
Arguments cmp_le_trans {A} cmp {_} x y z.
Definition cmp_le {A} (cmp : A → A → comparison) (x y : A) : Prop := cmp x y ≠ Gt.
#[global] Instance cmp_le_dec {A} (cmp : A → A → comparison) : RelDecision (cmp_le cmp).
Proof. unfold cmp_le. solve_decision. Defined.

Lemma comparator_le {A} (cmp : A → A → comparison) `{!Comparator cmp} x y : cmp x y = Gt → cmp_le cmp y x.
Proof. unfold cmp_le. rewrite (cmp_opp cmp x y). by intros ->. Qed.
Lemma cmp_le_total {A} (cmp : A → A → comparison) `{!Comparator cmp} x y : cmp_le cmp x y ∨ cmp_le cmp y x.
Proof. destruct (cmp x y) eqn:E; [left|left|right; by apply comparator_le]; unfold cmp_le; by rewrite E. Qed.

(** ** Comparators built from others *)

Lemma comparator_then {A} (c d : A → A → comparison) `{!Comparator c, !Comparator d} :
  Comparator (λ x y, ordering_then (c x y) (d x y)).
Proof.
  split.
  - intros x y. rewrite (cmp_opp c x y), (cmp_opp d x y). by destruct (c x y).
  - intros x y z. pose proof (cmp_le_trans c x y z) as Hc. pose proof (cmp_le_trans d x y z) as Hd.
    pose proof (cmp_le_trans c z x y) as Hzx. pose proof (cmp_le_trans c y z x) as Hyz.
    rewrite (cmp_opp c x z), (cmp_opp c y z) in Hzx. rewrite (cmp_opp c x y), (cmp_opp c x z) in Hyz.
    destruct (c x y), (c y z), (c x z); cbn in *; try done; try (by apply Hd);
      first [exfalso; by apply Hc | exfalso; by apply Hzx | exfalso; by apply Hyz].
Qed.
Lemma comparator_key {A B} (f : A → B) (c : B → B → comparison) `{!Comparator c} :
  Comparator (λ x y, c (f x) (f y)).
Proof. split; intros *; [apply (cmp_opp c)|exact (cmp_le_trans c _ _ _)]. Qed.
#[global] Instance comparator_N : Comparator N.compare.
Proof. split; [intros *; by rewrite N.compare_antisym|intros *; rewrite !N.compare_le_iff; lia]. Qed.
#[global] Instance comparator_Z : Comparator Z.compare.
Proof. split; [intros *; by rewrite Z.compare_antisym|intros *; rewrite !Z.compare_le_iff; lia]. Qed.
(** The lexicographic order of byte strings. *)
Definition bytes_compare (a b : bytes) : comparison :=
  if bytes_leb a b then if bytes_leb b a then Eq else Lt else Gt.
Lemma bytes_compare_le a b : cmp_le bytes_compare a b ↔ bytes_le a b.
Proof. unfold cmp_le, bytes_compare, bytes_le. destruct (bytes_leb a b), (bytes_leb b a); cbn; by split. Qed.
Lemma bytes_compare_eq a b : bytes_compare a b = Eq ↔ a = b.
Proof.
  unfold bytes_compare. split; [|intros ->; destruct (bytes_leb b b) eqn:E; [done|]].
  - destruct (bytes_leb a b) eqn:E1, (bytes_leb b a) eqn:E2; try done. intros _.
    apply (anti_symm bytes_le); unfold bytes_le; by rewrite ?E1, ?E2.
  - pose proof (reflexivity (R := bytes_le) b) as H. unfold bytes_le in H. by rewrite E in H.
Qed.
#[global] Instance comparator_bytes : Comparator bytes_compare.
Proof.
  split.
  - intros a b. unfold bytes_compare. pose proof (total bytes_le a b) as Ht. unfold bytes_le in Ht.
    destruct (bytes_leb a b), (bytes_leb b a); cbn in *; try done. by destruct Ht.
  - intros a b c H1%bytes_compare_le H2%bytes_compare_le. apply bytes_compare_le. by trans b.
Qed.

(** ** Sorting *)

Section sort.
Context {A : Type} (cmp : A → A → comparison).
Implicit Types (x y : A) (l k : list A).

Lemma insert_by_perm x l : insert_by cmp x l ≡ₚ x :: l.
Proof. induction l as [|y l IH]; cbn; [done|]. destruct (cmp x y); try done. rewrite IH. apply Permutation_swap. Qed.
Lemma sort_by_perm l : sort_by cmp l ≡ₚ l.
Proof. induction l as [|x l IH]; cbn; [done|]. by rewrite insert_by_perm, IH. Qed.
Lemma sort_by_app l k : sort_by cmp (l ++ k) = foldr (insert_by cmp) (sort_by cmp k) l.
Proof. apply foldr_app. Qed.

(** A cut at [n] does not depend on what lies behind the cut. *)
Lemma insert_by_cut n x l k : take n l = take n k → take n (insert_by cmp x l) = take n (insert_by cmp x k).
Proof.
  revert l k. induction n as [|n IH]; intros l k E; [done|].
  destruct l as [|y l], k as [|z k]; cbn in *; try done. injection E as <- E.
  destruct (cmp x y); cbn; try (f_equal; by apply IH).
  all: f_equal; destruct n; cbn in *; [done|]; f_equal.
  all: assert (take n (take (S n) l) = take n (take (S n) k)) as E' by (by rewrite E); rewrite !take_take in E'.
  all: by replace (n `min` S n) with n in E' by lia.
Qed.
Lemma insert_all_cut n l k k' : take n k = take n k' →
  take n (foldr (insert_by cmp) k l) = take n (foldr (insert_by cmp) k' l).
Proof. intros E. induction l as [|x l IH]; cbn; [done|]. by apply insert_by_cut. Qed.

Context `{!Comparator cmp}.
Notation R := (cmp_le cmp).

Lemma insert_by_sorted x l : StronglySorted R l → StronglySorted R (insert_by cmp x l).
Proof.
  intros Hl. induction Hl as [|y l Hl IH Hy]; cbn; [repeat constructor|].
  destruct (cmp x y) eqn:E.
  3: { constructor; [done|]. rewrite insert_by_perm. constructor; [by apply comparator_le|done]. }
  all: assert (R x y) as Hxy by (unfold cmp_le; by rewrite E).
  all: constructor; [by constructor|]; constructor; [done|].
  all: eapply Forall_impl; [exact Hy|]; intros z Hz; by apply (cmp_le_trans cmp x y z).
Qed.
Lemma sort_by_sorted l : StronglySorted R (sort_by cmp l).
Proof. induction l as [|x l IH]; cbn; [constructor|]. by apply insert_by_sorted. Qed.

(** On lists whose elements are equal when they compare equal, the order of the
    input does not matter. *)
Definition cmp_strict l : Prop := ∀ x y, x ∈ l → y ∈ l → cmp x y = Eq → x = y.
Lemma cmp_strict_perm l k : l ≡ₚ k → cmp_strict l → cmp_strict k.
Proof. intros Hp Hl x y. rewrite <-Hp. apply Hl. Qed.
Lemma cmp_strict_sub l k : (∀ x, x ∈ k → x ∈ l) → cmp_strict l → cmp_strict k.
Proof. intros Hs Hl x y Hx Hy. apply Hl; auto. Qed.

Lemma sorted_unique l k : cmp_strict l → StronglySorted R l → StronglySorted R k → l ≡ₚ k → l = k.
Proof.
  intros Hs Hl Hk Hp. apply (StronglySorted_unique_strong R); [|done..].
  intros x y Hx Hy Hxy Hyx. apply Hs; [done|by rewrite Hp|].
  unfold cmp_le in *. rewrite (cmp_opp cmp x y) in Hyx. by destruct (cmp x y).
Qed.
Lemma sort_by_unique l k : cmp_strict l → l ≡ₚ k → sort_by cmp l = sort_by cmp k.
Proof.
  intros Hs Hp. apply sorted_unique; [|apply sort_by_sorted..|].
  - eapply cmp_strict_perm; [|done]. by rewrite sort_by_perm.
  - by rewrite !sort_by_perm.
Qed.
Lemma sort_by_id l : cmp_strict l → StronglySorted R l → sort_by cmp l = l.
Proof.
  intros Hs Hl. symmetry. apply sorted_unique; [done..|apply sort_by_sorted|by rewrite sort_by_perm].
Qed.

(** Sorting and cutting in rounds gives the cut of the whole. *)
Lemma sort_by_cut n l k : cmp_strict (l ++ k) →
  take n (sort_by cmp (take n (sort_by cmp l) ++ k)) = take n (sort_by cmp (l ++ k)).
Proof.
  intros Hs. set (t := take n (sort_by cmp l)).
  assert (∀ x, x ∈ t → x ∈ l) as Ht.
  { intros x Hx%subseteq_take. by rewrite sort_by_perm in Hx. }
  rewrite (sort_by_unique (t ++ k) (k ++ t)); [|eapply cmp_strict_sub; [|done]; set_solver|by rewrite Permutation_app_comm].
  rewrite (sort_by_unique (l ++ k) (k ++ l)) by (done || by rewrite Permutation_app_comm).
  rewrite !sort_by_app. apply insert_all_cut. unfold t. rewrite sort_by_id.
  - rewrite take_take. f_equal. lia.
  - eapply cmp_strict_sub; [|exact Hs]. set_solver.
  - pose proof (sort_by_sorted l) as Hso. rewrite <-(take_drop n (sort_by cmp l)) in Hso.
    by apply StronglySorted_app_1_l in Hso.
Qed.
End sort.
