(* ===== verification/BTree.v ===== *)
(** * Ordered collections of the Rust standard library

    [BTreeSet<NodeId>] is the strictly ascending list of its elements, so that
    iteration order and equality are those of the Rust set; [sort_unstable] on a
    [Vec<u64>], [slice::binary_search] and [binary_search_by_key] are the
    functions the replicated records use. *)

From S2P Require Import Prelude.

(** ** BTreeSet *)

Fixpoint bset_insert (x : N) (s : list N) : list N :=
  match s with
  | [] => [x]
  | y :: s' => if (x <? y)%N then x :: s else if (x =? y)%N then s else y :: bset_insert x s'
  end.

(** [iter.collect::<BTreeSet<_>>()]. *)
Definition bset_of_list (l : list N) : list N := foldr bset_insert [] l.

(** [a.difference(&b)] and [a.union(&b)], in ascending order. *)
Definition bset_difference (a b : list N) : list N := filter (λ x, x ∉ b) a.
Definition bset_union (a b : list N) : list N := bset_of_list (a ++ b).

(** A value of type [BTreeSet<u64>]. *)
Abbreviation bset_sorted := (StronglySorted N.lt).

Lemma elem_of_bset_insert x y s : x ∈ bset_insert y s ↔ x = y ∨ x ∈ s.
Proof.
  induction s as [|z s IH]; simpl; [set_solver|].
  destruct (N.ltb_spec y z); [set_solver|].
  destruct (N.eqb_spec y z); set_solver.
Qed.

Lemma elem_of_bset x l : x ∈ bset_of_list l ↔ x ∈ l.
Proof.
  induction l as [|y l IH]; simpl; [set_solver|].
  rewrite elem_of_bset_insert, IH. set_solver.
Qed.

Lemma bset_insert_sorted x s : bset_sorted s → bset_sorted (bset_insert x s).
Proof.
  induction 1 as [|y s Hs IH Hy]; simpl; [repeat constructor|].
  destruct (N.ltb_spec x y).
  - constructor; [by constructor|]. constructor; [done|].
    eapply Forall_impl; [exact Hy|]. simpl; intros; lia.
  - destruct (N.eqb_spec x y); [by constructor|].
    constructor; [done|]. apply Forall_forall. intros z [->|Hz]%elem_of_bset_insert; [lia|].
    by eapply Forall_forall in Hy.
Qed.

Lemma bset_of_list_sorted l : bset_sorted (bset_of_list l).
Proof. induction l; simpl; [constructor|by apply bset_insert_sorted]. Qed.

Lemma bset_sorted_nodup s : bset_sorted s → NoDup s.
Proof.
  induction 1 as [|y s Hs IH Hy]; constructor; [|done].
  intros Hin. eapply Forall_forall in Hin; [|done]. simpl in Hin. lia.
Qed.

Lemma bset_ext s t : bset_sorted s → bset_sorted t → (∀ x, x ∈ s ↔ x ∈ t) → s = t.
Proof.
  intros Hs. revert t. induction Hs as [|x s Hs IH Hx]; intros t Ht E.
  - destruct t as [|y t]; [done|]. exfalso. specialize (E y). set_solver.
  - destruct Ht as [|y t Ht Hy]; [exfalso; specialize (E x); set_solver|].
    assert (x = y) as <-.
    { assert (x ∈ y :: t) as Hxin by (apply E; set_solver).
      assert (y ∈ x :: s) as Hyin by (apply E; set_solver).
      apply elem_of_cons in Hxin as [?|Hxin]; [done|].
      apply elem_of_cons in Hyin as [?|Hyin]; [done|].
      eapply Forall_forall in Hx; [|done]. eapply Forall_forall in Hy; [|done]. simpl in *. lia. }
    f_equal. apply IH; [done|]. intros z. specialize (E z).
    rewrite !elem_of_cons in E. split; intros Hz.
    + assert (z ≠ x). { intros ->. eapply Forall_forall in Hx; [|done]. simpl in Hx. lia. } naive_solver.
    + assert (z ≠ x). { intros ->. eapply Forall_forall in Hy; [|done]. simpl in Hy. lia. } naive_solver.
Qed.

(** Two lists give the same set exactly when they have the same members. *)
Lemma bset_of_list_eq l k : bset_of_list l = bset_of_list k ↔ (∀ x, x ∈ l ↔ x ∈ k).
Proof.
  split.
  - intros E x. by rewrite <-elem_of_bset, E, elem_of_bset.
  - intros E. apply bset_ext; [apply bset_of_list_sorted..|]. intros x. by rewrite !elem_of_bset.
Qed.

Lemma bset_of_list_id s : bset_sorted s → bset_of_list s = s.
Proof. intros Hs. apply bset_ext; [apply bset_of_list_sorted|done|]. intros x. apply elem_of_bset. Qed.

Lemma bset_of_list_perm l : NoDup l → bset_of_list l ≡ₚ l.
Proof.
  intros Hl. apply NoDup_Permutation; [apply bset_sorted_nodup, bset_of_list_sorted|done|].
  intros x. apply elem_of_bset.
Qed.

(** [set.len() == list.len()] is the duplicate test of the source. *)
Lemma length_bset_nodup l : length (bset_of_list l) = length l ↔ NoDup l.
Proof.
  split; [|intros H; by rewrite (bset_of_list_perm l H)].
  induction l as [|x l IH]; simpl; [constructor|].
  assert (∀ y s, length (bset_insert y s) ≤ S (length s)) as Hle.
  { intros y s. induction s as [|z s IH']; simpl; [lia|].
    destruct (y <? z)%N, (y =? z)%N; simpl; lia. }
  assert (∀ k, length (bset_of_list k) ≤ length k) as Hle'.
  { induction k as [|y k IH']; simpl; [lia|]. specialize (Hle y (bset_of_list k)). lia. }
  assert (∀ y s, y ∈ s → bset_sorted s → length (bset_insert y s) = length s) as Hmem.
  { intros y s Hin. induction 1 as [|z s Hs IH' Hz]; simpl; [set_solver|].
    destruct (N.ltb_spec y z).
    - exfalso. apply elem_of_cons in Hin as [->|Hin]; [lia|].
      eapply Forall_forall in Hz; [|done]. simpl in Hz; lia.
    - destruct (N.eqb_spec y z); [done|]. simpl. f_equal. apply IH'. set_solver. }
  intros E. pose proof (Hle' l). pose proof (Hle x (bset_of_list l)).
  constructor; [|apply IH; lia].
  intros Hin. rewrite Hmem in E; [lia|by rewrite elem_of_bset|apply bset_of_list_sorted].
Qed.

Lemma elem_of_bset_difference x a b : x ∈ bset_difference a b ↔ x ∈ a ∧ x ∉ b.
Proof. unfold bset_difference. rewrite list_elem_of_filter. naive_solver. Qed.

Lemma elem_of_bset_union x a b : x ∈ bset_union a b ↔ x ∈ a ∨ x ∈ b.
Proof. unfold bset_union. rewrite elem_of_bset, elem_of_app. done. Qed.

Lemma bset_union_sorted a b : bset_sorted (bset_union a b).
Proof. apply bset_of_list_sorted. Qed.

(** ** Sorting a vector of node ids *)

Definition sort_unstable (l : list N) : list N := merge_sort N.le l.

#[global] Instance N_le_total : Total N.le.
Proof. intros a b. lia. Qed.

Lemma sort_unstable_perm l : sort_unstable l ≡ₚ l.
Proof. apply merge_sort_Permutation. Qed.

Lemma sort_unstable_sorted l : NoDup l → bset_sorted (sort_unstable l).
Proof.
  intros Hl. assert (NoDup (sort_unstable l)) as Hnd by (by rewrite sort_unstable_perm).
  assert (StronglySorted N.le (sort_unstable l)) as Hs by (apply (StronglySorted_merge_sort N.le)).
  revert Hnd Hs. generalize (sort_unstable l) as s.
  induction s as [|x s IH]; [constructor|].
  intros [Hx Hnd]%NoDup_cons [Hs Hf]%StronglySorted_inv. constructor; [by apply IH|].
  apply Forall_forall. intros y Hy. eapply Forall_forall in Hf; [|done]. simpl in Hf.
  assert (x ≠ y) by (intros ->; done). lia.
Qed.

Lemma sort_unstable_bset l : NoDup l → sort_unstable l = bset_of_list l.
Proof.
  intros Hl. apply bset_ext; [by apply sort_unstable_sorted|apply bset_of_list_sorted|].
  intros x. by rewrite elem_of_bset, sort_unstable_perm.
Qed.

Lemma sort_unstable_id s : bset_sorted s → sort_unstable s = s.
Proof. intros Hs. rewrite sort_unstable_bset by (by apply bset_sorted_nodup). by apply bset_of_list_id. Qed.

(** ** Binary search

    [slice::binary_search] is specified on sorted input: [inl i] is [Ok(i)] (the
    position of the key), [inr i] is [Err(i)], the position that keeps the slice
    sorted. On a strictly ascending slice both are unique. *)

Fixpoint binary_search_by_key {A} (key : A → N) (x : N) (l : list A) : nat + nat :=
  match l with
  | [] => inr 0
  | y :: l =>
      if (key y <? x)%N then
        match binary_search_by_key key x l with inl i => inl (S i) | inr i => inr (S i) end
      else if (key y =? x)%N then inl 0 else inr 0
  end.

Definition binary_search (x : N) (l : list N) : nat + nat := binary_search_by_key id x l.

(** [Vec::insert(index, element)] for an index within [0..=len]. *)
Definition vec_insert {A} (i : nat) (x : A) (l : list A) : list A := take i l ++ x :: drop i l.

(** Strict ascent of the keys of a vector of records. *)
Definition keys_sorted {A} (key : A → N) (l : list A) : Prop := bset_sorted (key <$> l).

Lemma binary_search_found {A} (key : A → N) x l i :
  binary_search_by_key key x l = inl i → ∃ y, l !! i = Some y ∧ key y = x.
Proof.
  revert i. induction l as [|y l IH]; intros i; simpl; [done|].
  destruct (N.ltb_spec (key y) x).
  - destruct (binary_search_by_key key x l); [|done]. intros [= <-]. by apply IH.
  - destruct (N.eqb_spec (key y) x); [|done]. intros [= <-]. by exists y.
Qed.

Lemma binary_search_absent {A} (key : A → N) x l i :
  keys_sorted key l → binary_search_by_key key x l = inr i →
  x ∉ key <$> l ∧ i ≤ length l ∧
  Forall (λ y, key y < x)%N (take i l) ∧ Forall (λ y, x < key y)%N (drop i l).
Proof.
  unfold keys_sorted. revert i. induction l as [|y l IH]; intros i Hs; simpl.
  { intros [= <-]. split_and!; [set_solver|done|constructor..]. }
  apply StronglySorted_inv in Hs as [Hs Hf].
  destruct (N.ltb_spec (key y) x).
  - destruct (binary_search_by_key key x l) as [j|j] eqn:E; [done|]. intros [= <-].
    destruct (IH j Hs eq_refl) as (H1 & H2 & H3 & H4). simpl.
    split_and!; [|lia|by constructor|done].
    rewrite elem_of_cons. naive_solver lia.
  - destruct (N.eqb_spec (key y) x); [done|]. intros [= <-]. simpl.
    assert (Forall (λ z, x < key z)%N l) as Hgt.
    { apply Forall_forall. intros z Hz. apply (proj1 (Forall_fmap _ _ _)) in Hf.
      eapply Forall_forall in Hf; [|done]. simpl in Hf. lia. }
    split_and!; [|lia|constructor|constructor; [lia|done]].
    rewrite elem_of_cons. intros [->|(z & -> & Hz)%list_elem_of_fmap]; [lia|].
    eapply Forall_forall in Hgt; [|done]. simpl in Hgt. lia.
Qed.

Lemma binary_search_mem x l :
  bset_sorted l → (∃ i, binary_search x l = inl i) ↔ x ∈ l.
Proof.
  intros Hs. unfold binary_search. split.
  - intros [i (y & Hy & <-)%binary_search_found]. by eapply list_elem_of_lookup_2.
  - intros Hx. destruct (binary_search_by_key id x l) as [i|i] eqn:E; [by eauto|].
    apply binary_search_absent in E as [E _]; [|by unfold keys_sorted; rewrite list_fmap_id].
    by rewrite list_fmap_id in E.
Qed.

Lemma vec_insert_keys_sorted {A} (key : A → N) x l i :
  keys_sorted key l → binary_search_by_key key (key x) l = inr i →
  keys_sorted key (vec_insert i x l).
Proof.
  intros Hs E. apply binary_search_absent in E as (_ & _ & Hlt & Hgt); [|done].
  unfold keys_sorted, vec_insert in *. rewrite fmap_app. simpl.
  rewrite <-(take_drop i l), fmap_app in Hs.
  revert Hs Hlt. generalize (take i l) as a. intros a.
  induction a as [|y a IH]; simpl; intros Hs Hlt.
  - constructor; [done|]. by apply Forall_fmap.
  - apply StronglySorted_inv in Hs as [Hs Hf]. apply Forall_cons in Hlt as [Hy Hlt].
    constructor; [by apply IH|]. rewrite Forall_app in Hf |- *. destruct Hf as [Hf1 Hf2].
    split; [done|]. constructor; [done|done].
Qed.

Lemma elem_of_vec_insert {A} i (x y : A) l : y ∈ vec_insert i x l ↔ y = x ∨ y ∈ l.
Proof.
  unfold vec_insert. rewrite elem_of_app, elem_of_cons.
  rewrite <-(take_drop i l) at 3. rewrite elem_of_app. naive_solver.
Qed.

#[export] Hint Resolve bset_of_list_sorted bset_insert_sorted bset_union_sorted : bset.
#[export] Hint Resolve sort_unstable_sorted bset_sorted_nodup : bset.
