(* ===== verification/Types.v ===== *)
(** * Core wire and state types (src/src/types.rs)

    Every enum and struct of types.rs that the modelled components exchange,
    with the Rust constructor names prefixed by the type ([GroupId::Meta] is
    [GroupId_Meta]), the constants, and the pure helpers: group tokens and
    column-family names, key partitioning, voter sets and the maintenance
    topology digest. Unsigned integers are [N]; [wf] records the ranges the
    Rust types enforce. *)

From S2P Require Import Prelude BTree.
From Stdlib Require Import Strings.Ascii.
From stdpp Require Import strings pretty list.

(** ** Hash functions of third-party crates (xxhash-rust, sha2) *)

Class Hashes := {
  xxh64 : bytes → N → N;
  xxh3_128 : bytes → N;
  sha256 : bytes → bytes;
}.

(** The ranges documented for them. *)
Class HashesOk `{Hashes} : Prop := {
  xxh64_range l seed : (xxh64 l seed ≤ u64_max)%N;
  xxh3_128_range l : (xxh3_128 l ≤ u128_max)%N;
  sha256_length l : length (sha256 l) = 32;
}.

(** ** Constants *)

Definition PROTOCOL_VERSION : N := 7.
Definition MAX_ROUTING_PAYLOAD_BYTES : N := 4 * 1024 * 1024.
Definition MAX_CLUSTER_NODES : nat := 8.
Definition MAX_ENDPOINT_BYTES : nat := 256.
Definition MAX_VALUE_BYTES : N := 1024 * 1024.

(** Well-formedness: the ranges of the Rust integer types and lengths. *)
Class Wf (A : Type) := wf : A → Prop.

(** Integers whose width matters to the codec carry the width in their type. *)
Definition U8 := N.
Definition U16 := N.
Definition U32 := N.
Definition U64 := N.
Definition U128 := N.
#[global] Typeclasses Opaque U8 U16 U32 U64 U128.
#[global] Instance U8_wf : Wf U8 := λ n, (n ≤ u8_max)%N.
#[global] Instance U16_wf : Wf U16 := λ n, (n ≤ u16_max)%N.
#[global] Instance U32_wf : Wf U32 := λ n, (n ≤ u32_max)%N.
#[global] Instance U64_wf : Wf U64 := λ n, (n ≤ u64_max)%N.
#[global] Instance U128_wf : Wf U128 := λ n, (n ≤ u128_max)%N.

Abbreviation NodeId := N.
Definition vec_len_ok {A} (l : list A) : Prop := (N.of_nat (length l) ≤ u64_max)%N.
Definition str_ok (s : string) : Prop := (N.of_nat (String.length s) ≤ u64_max)%N ∧ utf8_string s.

#[global] Instance byte_wf : Wf byte := λ _, True.
#[global] Instance bool_wf : Wf bool := λ _, True.
#[global] Instance prod_wf `{Wf A, Wf B} : Wf (A * B) := λ p, wf p.1 ∧ wf p.2.
#[global] Instance option_wf `{Wf A} : Wf (option A) := λ o, from_option wf True o.
#[global] Instance list_wf `{Wf A} : Wf (list A) := λ l, vec_len_ok l ∧ Forall wf l.
#[global] Instance string_wf : Wf string := str_ok.

(** ** Read consistency *)

Inductive Consistency :=
| Consistency_Linearizable
| Consistency_Stale (min_version : option N).

(** ** Group identity *)

Inductive GroupId :=
| GroupId_Meta
| GroupId_Data (p : N).

#[global] Instance GroupId_eq_dec : EqDecision GroupId.
Proof. solve_decision. Defined.
#[global] Instance GroupId_countable : Countable GroupId.
Proof.
  refine (inj_countable'
    (λ g, match g with GroupId_Meta => None | GroupId_Data p => Some p end)
    (λ o, match o with None => GroupId_Meta | Some p => GroupId_Data p end) _).
  by intros [].
Defined.
#[global] Instance GroupId_wf : Wf GroupId := λ g,
  match g with GroupId_Meta => True | GroupId_Data p => (p ≤ u16_max)%N end.

(** The derived [Ord]: [Meta] sorts before any [Data]. *)
Definition group_leb (a b : GroupId) : bool :=
  match a, b with
  | GroupId_Meta, _ => true
  | GroupId_Data _, GroupId_Meta => false
  | GroupId_Data p, GroupId_Data q => (p <=? q)%N
  end.

Definition is_data (g : GroupId) : bool :=
  match g with GroupId_Data _ => true | GroupId_Meta => false end.

(** [GroupId::token]. *)
Definition token (g : GroupId) : string :=
  match g with
  | GroupId_Meta => "meta"
  | GroupId_Data p => "data_" +:+ pretty p
  end.

Definition digit_value (c : ascii) : option N :=
  let n := N_of_ascii c in
  if (48 <=? n)%N && (n <=? 57)%N then Some (n - 48)%N else None.

Fixpoint parse_digits (acc : N) (s : string) : option N :=
  match s with
  | EmptyString => Some acc
  | String c s => d ← digit_value c; parse_digits (acc * 10 + d) s
  end.

(** [str::parse::<u16>]: an optional ['+'], then at least one digit, in range. *)
Definition parse_u16 (s : string) : option N :=
  let body := match s with String "+"%char t => t | _ => s end in
  match body with
  | EmptyString => None
  | _ => v ← parse_digits 0 body; if (v <=? u16_max)%N then Some v else None
  end.

Fixpoint string_strip_prefix (p s : string) : option string :=
  match p, s with
  | EmptyString, _ => Some s
  | String a p, String b s => if decide (a = b) then string_strip_prefix p s else None
  | String _ _, EmptyString => None
  end.

(** [GroupId::from_token]. *)
Definition from_token (t : string) : option GroupId :=
  if decide (t = "meta") then Some GroupId_Meta
  else rest ← string_strip_prefix "data_" t; p ← parse_u16 rest; Some (GroupId_Data p).

Definition cf_log (g : GroupId) : string := "cf_log_" +:+ token g.
Definition cf_state (g : GroupId) : string := "cf_state_" +:+ token g.

(** ** Log ids *)

Record LogId := mkLogId { log_term : N; log_index : N }.
#[global] Instance LogId_eq_dec : EqDecision LogId.
Proof. solve_decision. Defined.
#[global] Instance LogId_wf : Wf LogId := λ l, (log_term l ≤ u64_max)%N ∧ (log_index l ≤ u64_max)%N.

(** openraft's [LogId<u64>]: committed leader (term, node) and index. *)
Record RaftLogId := mkRaftLogId { rl_term : N; rl_node : N; rl_index : N }.
#[global] Instance RaftLogId_eq_dec : EqDecision RaftLogId.
Proof. solve_decision. Defined.
#[global] Instance RaftLogId_wf : Wf RaftLogId := λ l,
  (rl_term l ≤ u64_max)%N ∧ (rl_node l ≤ u64_max)%N ∧ (rl_index l ≤ u64_max)%N.

(** ** Client data operations *)

Inductive IfVersion :=
| IfVersion_Number (v : N)
| IfVersion_Absent.
#[global] Instance IfVersion_eq_dec : EqDecision IfVersion.
Proof. solve_decision. Defined.
#[global] Instance IfVersion_wf : Wf IfVersion := λ i,
  match i with IfVersion_Number v => (v ≤ u64_max)%N | IfVersion_Absent => True end.

Inductive DataOp :=
| DataOp_Put (key value : bytes) (if_version : option IfVersion)
| DataOp_Delete (key : bytes) (if_version : option IfVersion).
#[global] Instance DataOp_eq_dec : EqDecision DataOp.
Proof. solve_decision. Defined.
#[global] Instance DataOp_wf : Wf DataOp := λ op,
  match op with
  | DataOp_Put k v i => vec_len_ok k ∧ vec_len_ok v ∧ from_option wf True i
  | DataOp_Delete k i => vec_len_ok k ∧ from_option wf True i
  end.

(** [DataOp::key]. *)
Definition op_key (op : DataOp) : bytes :=
  match op with DataOp_Put k _ _ => k | DataOp_Delete k _ => k end.

Record DataRequest := mkDataRequest {
  req_recovery_epoch : N;
  req_client_id : N;
  req_sequence : N;
  req_op : DataOp;
}.
#[global] Instance DataRequest_eq_dec : EqDecision DataRequest.
Proof. solve_decision. Defined.
#[global] Instance DataRequest_wf : Wf DataRequest := λ r,
  (req_recovery_epoch r ≤ u128_max)%N ∧ (req_client_id r ≤ u128_max)%N ∧
  (req_sequence r ≤ u64_max)%N ∧ wf (req_op r).

Inductive KeyPresence :=
| KeyPresence_Absent
| KeyPresence_Present (version : N).
#[global] Instance KeyPresence_eq_dec : EqDecision KeyPresence.
Proof. solve_decision. Defined.
#[global] Instance KeyPresence_wf : Wf KeyPresence := λ k,
  match k with KeyPresence_Absent => True | KeyPresence_Present v => (v ≤ u64_max)%N end.

Inductive MutationResult :=
| MutationResult_Applied (version : N)
| MutationResult_ConditionFailed (current : KeyPresence).
#[global] Instance MutationResult_eq_dec : EqDecision MutationResult.
Proof. solve_decision. Defined.
#[global] Instance MutationResult_wf : Wf MutationResult := λ m,
  match m with
  | MutationResult_Applied v => (v ≤ u64_max)%N
  | MutationResult_ConditionFailed c => wf c
  end.

(** ** Cluster configuration *)

Inductive HashAlgo := HashAlgo_Xxh64.
#[global] Instance HashAlgo_eq_dec : EqDecision HashAlgo.
Proof. solve_decision. Defined.
#[global] Instance HashAlgo_wf : Wf HashAlgo := λ _, True.

Record HashSpec := mkHashSpec { hs_algo : HashAlgo; hs_seed : N }.
#[global] Instance HashSpec_eq_dec : EqDecision HashSpec.
Proof. solve_decision. Defined.
#[global] Instance HashSpec_wf : Wf HashSpec := λ h, wf (hs_algo h) ∧ (hs_seed h ≤ u64_max)%N.

Definition HashSpec_CANONICAL : HashSpec := mkHashSpec HashAlgo_Xxh64 0.

(** [HashSpec::partition_of]: the hash modulo [p], truncated to [u16]. *)
Definition partition_of `{Hashes} (spec : HashSpec) (key : bytes) (p : N) : N :=
  let h := match hs_algo spec with HashAlgo_Xxh64 => xxh64 key (hs_seed spec) end in
  ((h mod p) mod 65536)%N.

Record ClusterConfig := mkClusterConfig {
  cc_cluster_id : N;
  cc_protocol_version : N;
  cc_p : N;
  cc_r : N;
  cc_hash_spec : HashSpec;
}.
#[global] Instance ClusterConfig_eq_dec : EqDecision ClusterConfig.
Proof. solve_decision. Defined.
#[global] Instance ClusterConfig_wf : Wf ClusterConfig := λ c,
  (cc_cluster_id c ≤ u128_max)%N ∧ (cc_protocol_version c ≤ u32_max)%N ∧
  (cc_p c ≤ u16_max)%N ∧ (cc_r c ≤ u8_max)%N ∧ wf (cc_hash_spec c).

(** ** Placement and plans *)

Record MovePlan := mkMovePlan {
  mp_plan_id : N;
  mp_target_voters : list NodeId;
  mp_aborting : bool;
}.
#[global] Instance MovePlan_eq_dec : EqDecision MovePlan.
Proof. solve_decision. Defined.

Record Placement := mkPlacement {
  pl_voters : list NodeId;
  pl_voters_log_id : LogId;
  pl_move : option MovePlan;
}.
#[global] Instance Placement_eq_dec : EqDecision Placement.
Proof. solve_decision. Defined.

Definition node_ids_ok (l : list NodeId) : Prop := vec_len_ok l ∧ Forall (λ n, n ≤ u64_max)%N l.
#[global] Instance MovePlan_wf : Wf MovePlan := λ m,
  (mp_plan_id m ≤ u64_max)%N ∧ node_ids_ok (mp_target_voters m).
#[global] Instance Placement_wf : Wf Placement := λ p,
  node_ids_ok (pl_voters p) ∧ wf (pl_voters_log_id p) ∧ from_option wf True (pl_move p).

(** [Placement::references_node]. *)
Definition references_node (p : Placement) (n : NodeId) : bool :=
  bool_decide (n ∈ pl_voters p) ||
  match pl_move p with Some plan => bool_decide (n ∈ mp_target_voters plan) | None => false end.

(** [voter_set]: the comparable set of a voter list. *)
Definition voter_set (voters : list NodeId) : list NodeId := bset_of_list voters.

(** A stable insertion sort by group, as [sort_by_key(|(group, _)| *group)]. *)
Fixpoint insert_by_group {A} (x : GroupId * A) (l : list (GroupId * A)) : list (GroupId * A) :=
  match l with
  | [] => [x]
  | y :: l' => if group_leb x.1 y.1 then x :: l else y :: insert_by_group x l'
  end.
Definition sort_by_group {A} (l : list (GroupId * A)) : list (GroupId * A) :=
  foldr insert_by_group [] l.

(** The bytes fed to the digest for one group: tag, partition, set size, voters. *)
Definition topology_group_bytes (gv : GroupId * list NodeId) : bytes :=
  let vs := voter_set gv.2 in
  match gv.1 with
  | GroupId_Meta => [x00; x00; x00]
  | GroupId_Data partition => [x01] ++ be_bytes 2 partition
  end ++ be_bytes 2 (N.of_nat (length vs)) ++ concat (be_bytes 8 <$> vs).

Definition topology_preimage (groups : list (GroupId * list NodeId)) : bytes :=
  let canonical := sort_by_group groups in
  as_bytes "dal-maintenance-topology-v1" ++ be_bytes 4 (N.of_nat (length canonical)) ++
  concat (topology_group_bytes <$> canonical).

(** [maintenance_topology_digest]: SHA-256 over the concatenated updates. *)
Definition maintenance_topology_digest `{Hashes} (groups : list (GroupId * list NodeId)) : bytes :=
  sha256 (topology_preimage groups).

(** ** Node directory *)

Inductive NodeState :=
| NodeState_Active | NodeState_Suspect | NodeState_Down | NodeState_Draining.
#[global] Instance NodeState_eq_dec : EqDecision NodeState.
Proof. solve_decision. Defined.
#[global] Instance NodeState_wf : Wf NodeState := λ _, True.

Record NodeDirectoryEntry := mkNodeEntry {
  nd_node_id : NodeId;
  nd_control_addr : string;
  nd_bulk_addr : string;
  nd_state : NodeState;
  nd_incarnation : N;
}.
#[global] Instance NodeDirectoryEntry_eq_dec : EqDecision NodeDirectoryEntry.
Proof. solve_decision. Defined.
#[global] Instance NodeDirectoryEntry_wf : Wf NodeDirectoryEntry := λ e,
  (nd_node_id e ≤ u64_max)%N ∧ str_ok (nd_control_addr e) ∧ str_ok (nd_bulk_addr e) ∧
  (nd_incarnation e ≤ u64_max)%N.

Record DirectoryState := mkDirectoryState {
  ds_directory : list NodeDirectoryEntry;
  ds_recovery_epoch : N;
  ds_bootstrap_complete : bool;
}.

(** ** Maintenance *)

Inductive MaintenanceStage :=
| MaintenanceStage_Preparing | MaintenanceStage_Quiesced
| MaintenanceStage_Verifying | MaintenanceStage_Released.
#[global] Instance MaintenanceStage_eq_dec : EqDecision MaintenanceStage.
Proof. solve_decision. Defined.
#[global] Instance MaintenanceStage_wf : Wf MaintenanceStage := λ _, True.

Record MaintenanceRecord := mkMaintenance {
  mr_operation_id : N;
  mr_generation : N;
  mr_participants : list NodeId;
  mr_acknowledged : list NodeId;
  mr_recovered : list NodeId;
  mr_recovery_processes : list (NodeId * N);
  mr_recovery_policy_digests : list (NodeId * bytes);
  mr_verification_policy_digest : option bytes;
  mr_verification_recovery_epoch : option N;
  mr_stage : MaintenanceStage;
}.
#[global] Instance MaintenanceRecord_eq_dec : EqDecision MaintenanceRecord.
Proof. solve_decision. Defined.
#[global] Instance MaintenanceRecord_wf : Wf MaintenanceRecord := λ r,
  (mr_operation_id r ≤ u128_max)%N ∧ (mr_generation r ≤ u64_max)%N ∧
  node_ids_ok (mr_participants r) ∧ node_ids_ok (mr_acknowledged r) ∧ node_ids_ok (mr_recovered r) ∧
  vec_len_ok (mr_recovery_processes r) ∧
  Forall (λ x, x.1 ≤ u64_max ∧ x.2 ≤ u64_max)%N (mr_recovery_processes r) ∧
  vec_len_ok (mr_recovery_policy_digests r) ∧
  Forall (λ x, (x.1 ≤ u64_max)%N ∧ length x.2 = 32) (mr_recovery_policy_digests r) ∧
  from_option (λ d, length d = 32) True (mr_verification_policy_digest r) ∧
  from_option (λ e, (e ≤ u128_max)%N) True (mr_verification_recovery_epoch r).

(** ** Node-local control records *)

Record BootstrapGroup := mkBootstrapGroup {
  bg_cluster_id : N; bg_group : GroupId; bg_members : list NodeId;
}.
#[global] Instance BootstrapGroup_eq_dec : EqDecision BootstrapGroup.
Proof. solve_decision. Defined.
#[global] Instance BootstrapGroup_wf : Wf BootstrapGroup := λ b,
  (bg_cluster_id b ≤ u128_max)%N ∧ wf (bg_group b) ∧ node_ids_ok (bg_members b).

Record LearnerAdmission := mkLearnerAdmission {
  la_cluster_id : N; la_group : GroupId; la_plan_id : N;
}.
#[global] Instance LearnerAdmission_eq_dec : EqDecision LearnerAdmission.
Proof. solve_decision. Defined.
#[global] Instance LearnerAdmission_wf : Wf LearnerAdmission := λ l,
  (la_cluster_id l ≤ u128_max)%N ∧ wf (la_group l) ∧ (la_plan_id l ≤ u64_max)%N.

Record RegistrationBinding := mkRegistrationBinding {
  rb_cluster_id : N;
  rb_node_id : NodeId;
  rb_control_addr : string;
  rb_bulk_addr : string;
  rb_directory_incarnation : N;
}.
#[global] Instance RegistrationBinding_eq_dec : EqDecision RegistrationBinding.
Proof. solve_decision. Defined.
#[global] Instance RegistrationBinding_wf : Wf RegistrationBinding := λ b,
  (rb_cluster_id b ≤ u128_max)%N ∧ (rb_node_id b ≤ u64_max)%N ∧
  str_ok (rb_control_addr b) ∧ str_ok (rb_bulk_addr b) ∧ (rb_directory_incarnation b ≤ u64_max)%N.

(** [RegistrationBinding::matches_endpoints]. *)
Definition matches_endpoints (b : RegistrationBinding) (control bulk : string) : bool :=
  bool_decide (rb_control_addr b = control) && bool_decide (rb_bulk_addr b = bulk).

Record DataConfigObservation := mkObservation {
  ob_group : GroupId;
  ob_plan_id : N;
  ob_voter_set : list NodeId;
  ob_config_log_id : LogId;
}.
#[global] Instance DataConfigObservation_eq_dec : EqDecision DataConfigObservation.
Proof. solve_decision. Defined.
#[global] Instance DataConfigObservation_wf : Wf DataConfigObservation := λ o,
  wf (ob_group o) ∧ (ob_plan_id o ≤ u64_max)%N ∧ node_ids_ok (ob_voter_set o) ∧ wf (ob_config_log_id o).

Inductive ServingState := ServingState_Serving | ServingState_NonServing.
#[global] Instance ServingState_eq_dec : EqDecision ServingState.
Proof. solve_decision. Defined.
#[global] Instance ServingState_wf : Wf ServingState := λ _, True.

(** ** Group tokens *)

Lemma parse_digits_pretty_go x acc s :
  ∃ k, parse_digits acc (pretty_N_go x s) = parse_digits (acc * 10 ^ k + x) s.
Proof.
  revert acc s. induction (N.lt_wf_0 x) as [x _ IH]; intros acc s.
  destruct (decide (0 < x)%N) as [Hx|Hx].
  - rewrite pretty_N_go_step by done.
    destruct (IH (x / 10)%N) with (acc := acc) (s := String (pretty_N_char (x mod 10)) s) as [k ->].
    { apply N.div_lt; lia. }
    exists (k + 1)%N. cbn [parse_digits].
    assert (digit_value (pretty_N_char (x mod 10)) = Some (x mod 10)%N) as ->.
    { assert (x mod 10 < 10)%N as Hd by (by apply N.mod_upper_bound).
      destruct (x mod 10)%N as [|[[[[]|[]|]|[[]|[]|]|]|[[[]|[]|]|[[]|[]|]|]|]] eqn:E; try reflexivity;
        exfalso; lia. }
    simpl. f_equal. rewrite N.pow_add_r, N.pow_1_r.
    pose proof (N.div_mod x 10). lia.
  - assert (x = 0)%N as -> by lia. exists 0%N. rewrite pretty_N_go_0. f_equal. lia.
Qed.

Lemma parse_digits_pretty n : parse_digits 0 (pretty n) = Some n.
Proof.
  destruct (decide (n = 0)%N) as [->|Hn]; [reflexivity|].
  unfold pretty, pretty_N. rewrite decide_False by done.
  destruct (parse_digits_pretty_go n 0 "") as [k ->]. simpl. f_equal.
Qed.

Lemma parse_u16_pretty n : (n ≤ u16_max)%N → parse_u16 (pretty n) = Some n.
Proof.
  intros Hn. pose proof (parse_digits_pretty n) as Hp. unfold parse_u16.
  destruct (pretty n) as [|c t] eqn:E.
  { exfalso. destruct (decide (n = 0)%N) as [->|Hn0]; [done|].
    simpl in Hp. congruence. }
  destruct (decide (c = "+"%char)) as [->|Hc]; [by simpl in Hp|].
  assert (match String c t with String "+"%char t' => t' | _ => String c t end = String c t) as ->.
  { destruct c as [[] [] [] [] [] [] [] []]; try reflexivity. by destruct Hc. }
  rewrite Hp. simpl. destruct (N.leb_spec n u16_max); [done|lia].
Qed.

Lemma from_token_token g : wf g → from_token (token g) = Some g.
Proof.
  destruct g as [|p]; intros Hp; [reflexivity|].
  unfold from_token. rewrite decide_False by done.
  change (string_strip_prefix "data_" (token (GroupId_Data p))) with (Some (pretty p)).
  simpl. by rewrite parse_u16_pretty.
Qed.

Lemma token_inj g h : token g = token h → g = h.
Proof.
  destruct g as [|p], h as [|q]; cbn; try done.
  intros [= E]. f_equal. by apply (inj pretty).
Qed.
