(* ===== verification/Placement.v ===== *)
(** * The placement balancer (src/src/placement.rs)

    A pure function of the node directory and the placement map that proposes
    at most one single-voter replacement: it first evacuates voters that are
    Down, Draining or unknown, then evens out replica counts. A
    [BTreeMap<u16, Placement>] is the list of its entries in iteration order,
    a [BTreeSet<NodeId>] the ascending list of its elements. Carrying proposals out converges
    ([balancer_converges]). *)

From S2P Require Import Prelude SortBy BTree Types.

Record PlanProposal := mkProposal {
  pp_group : GroupId;
  pp_target_voters : list NodeId;
}.

(** ** Eligibility *)

Definition eligible_nodes (directory : list NodeDirectoryEntry) : list NodeId :=
  bset_of_list (nd_node_id <$> filter (λ e, nd_state e = NodeState_Active) directory).

(** The filter of [evacuating_voters]. *)
Definition must_evacuate (directory : list NodeDirectoryEntry) (voter : NodeId) : bool :=
  match list_find (λ e, nd_node_id e = voter) directory with
  | Some (_, entry) => bool_decide (nd_state entry = NodeState_Down) || bool_decide (nd_state entry = NodeState_Draining)
  | None => true
  end.

Definition evacuating_voters (directory : list NodeDirectoryEntry) (voters : list NodeId) : list NodeId :=
  bset_of_list (filter (λ v, must_evacuate directory v = true) voters).

(** ** Load *)

(** The voters a placement reserves capacity for. *)
Definition anticipated (p : Placement) : list NodeId :=
  match pl_move p with
  | Some plan => if mp_aborting plan then pl_voters p else mp_target_voters plan
  | None => pl_voters p
  end.

(** [*load.entry(v).or_insert(0) += 1]. *)
Definition bump (load : gmap N nat) (v : NodeId) : gmap N nat := <[v := default 0 (load !! v) + 1]> load.

Definition load_map (placements : list (N * Placement)) : gmap N nat :=
  foldl (λ load kv, foldl bump load (anticipated kv.2)) ∅ placements.

Definition load_get (load : gmap N nat) (n : NodeId) : nat := default 0 (load !! n).

(** ** Choosing one move *)

Definition least_loaded_non_replica (eligible voters : list NodeId) (load_of : NodeId → nat) : option NodeId :=
  min_by (λ a b, ordering_then (load_of a ?= load_of b) (a ?= b)%N) (filter (λ n, n ∉ voters) eligible).

(** [better_rebalance] on (source, dest, partition): [key(cand) < key(cur)]. *)
Definition better_rebalance (cur cand : NodeId * NodeId * N) (load_of : NodeId → nat) : NodeId * NodeId * N :=
  let '(cs, cd, cp) := cur in
  let '(ns, nd, np) := cand in
  match ordering_then (load_of cs ?= load_of ns) (ordering_then (np ?= cp)%N (ordering_then (ns ?= cs)%N (nd ?= cd)%N)) with
  | Lt => cand
  | _ => cur
  end.

Definition replacement (group : GroupId) (voters : list NodeId) (drop add : NodeId) : PlanProposal :=
  mkProposal group (sort_unstable (filter (λ v, v ≠ drop) voters ++ [add])).

Section propose.
Context (directory : list NodeDirectoryEntry) (eligible : list NodeId) (load_of : NodeId → nat).

(** Priority 1: the first partition with a voter to evacuate and a destination. *)
Fixpoint drain_pass (placements : list (N * Placement)) : option PlanProposal :=
  match placements with
  | [] => None
  | (partition, placement) :: rest =>
      if negb (bool_decide (pl_move placement = None)) then drain_pass rest
      else
      match head (evacuating_voters directory (pl_voters placement)),
            least_loaded_non_replica eligible (voter_set (pl_voters placement)) load_of with
      | Some drop, Some dest => Some (replacement (GroupId_Data partition) (pl_voters placement) drop dest)
      | _, _ => drain_pass rest
      end
  end.

(** Priority 2: the worthwhile move of one partition. *)
Definition rebalance_candidate (partition : N) (placement : Placement) : option (NodeId * NodeId * N) :=
  if negb (bool_decide (pl_move placement = None)) then None
  else
  match max_by (λ a b, ordering_then (load_of a ?= load_of b) (b ?= a)%N)
               (filter (λ v, v ∈ eligible) (pl_voters placement)),
        least_loaded_non_replica eligible (voter_set (pl_voters placement)) load_of with
  | Some source, Some dest => if load_of source <? load_of dest + 2 then None else Some (source, dest, partition)
  | _, _ => None
  end.

Fixpoint rebalance_pass (best : option (NodeId * NodeId * N)) (placements : list (N * Placement))
    : option (NodeId * NodeId * N) :=
  match placements with
  | [] => best
  | (partition, placement) :: rest =>
      rebalance_pass
        (match rebalance_candidate partition placement with
         | None => best
         | Some cand => Some (match best with None => cand | Some cur => better_rebalance cur cand load_of end)
         end) rest
  end.
End propose.

(** [placements.get(&partition)]. *)
Definition placement_at (placements : list (N * Placement)) (partition : N) : option Placement :=
  match list_find (λ kv, kv.1 = partition) placements with Some (_, kv) => Some kv.2 | None => None end.

(** [propose]. The index [placements[&partition]] cannot miss: the partition was
    met in the loop. *)
Definition propose (directory : list NodeDirectoryEntry) (placements : list (N * Placement)) (r : nat)
    : option PlanProposal :=
  let eligible := eligible_nodes directory in
  if length eligible <? r then None
  else if existsb (λ kv, match pl_move kv.2 with Some plan => mp_aborting plan | None => false end) placements then None
  else
  let load_of := load_get (load_map placements) in
  match drain_pass directory eligible load_of placements with
  | Some proposal => Some proposal
  | None =>
      match rebalance_pass eligible load_of None placements with
      | Some (source, dest, partition) =>
          match placement_at placements partition with
          | Some p => Some (replacement (GroupId_Data partition) (pl_voters p) source dest)
          | None => None
          end
      | None => None
      end
  end.

(** ** The balancer converges

    Every proposal replaces one voter of a quiet partition by an eligible node
    ([propose_sound]). Carrying proposals out one after another ends, with no
    voter left to evacuate and all eligible nodes within one replica slot of
    each other. The measure is lexicographic: slots to evacuate, then the sum
    of the squared loads of the eligible nodes. *)
(** ** Extrema *)

Section extrema.
Context {A : Type} (cmp : A → A → comparison) (f : A → nat).
Hypothesis cmp_gt : ∀ a b, cmp a b = Gt → f b ≤ f a.
Hypothesis cmp_le : ∀ a b, cmp a b ≠ Gt → f a ≤ f b.

Lemma min_by_spec l x : min_by cmp l = Some x → x ∈ l ∧ ∀ y, y ∈ l → f x ≤ f y.
Proof.
  destruct l as [|a l]; [done|]. intros [= <-]. revert a. induction l as [|b l IH]; intros a; cbn [foldl].
  { split; [by left|]. by intros y ->%list_elem_of_singleton. }
  destruct (IH (match cmp a b with Gt => b | _ => a end)) as [Hin Hle].
  assert (f (match cmp a b with Gt => b | _ => a end) ≤ f a ∧ f (match cmp a b with Gt => b | _ => a end) ≤ f b)
    as [Ha Hb] by (destruct (cmp a b) eqn:E; split; auto; apply cmp_le; congruence).
  split.
  - apply elem_of_cons in Hin as [Hin|Hin]; [|by do 2 right]. destruct (cmp a b); set_solver.
  - intros y Hy. specialize (Hle _ ltac:(by left)) as Hx.
    apply elem_of_cons in Hy as [->|[->|Hy]%elem_of_cons]; [lia|lia|]. apply Hle. by right.
Qed.

Lemma max_by_spec l x : max_by cmp l = Some x → x ∈ l ∧ ∀ y, y ∈ l → f y ≤ f x.
Proof.
  destruct l as [|a l]; [done|]. intros [= <-]. revert a. induction l as [|b l IH]; intros a; cbn [foldl].
  { split; [by left|]. by intros y ->%list_elem_of_singleton. }
  destruct (IH (match cmp a b with Gt => a | _ => b end)) as [Hin Hle].
  assert (f a ≤ f (match cmp a b with Gt => a | _ => b end) ∧ f b ≤ f (match cmp a b with Gt => a | _ => b end))
    as [Ha Hb] by (destruct (cmp a b) eqn:E; split; auto; apply cmp_le; congruence).
  split.
  - apply elem_of_cons in Hin as [Hin|Hin]; [|by do 2 right]. destruct (cmp a b); set_solver.
  - intros y Hy. specialize (Hle _ ltac:(by left)) as Hx.
    apply elem_of_cons in Hy as [->|[->|Hy]%elem_of_cons]; [lia|lia|]. apply Hle. by right.
Qed.
End extrema.

Lemma min_by_none {A} (cmp : A → A → comparison) l : min_by cmp l = None → l = [].
Proof. by destruct l. Qed.
Lemma max_by_none {A} (cmp : A → A → comparison) l : max_by cmp l = None → l = [].
Proof. by destruct l. Qed.

(** Comparing by [f] first. *)
Lemma ordering_then_gt {A} (f : A → nat) a b o : ordering_then (f a ?= f b) o = Gt → f b ≤ f a.
Proof. destruct (Nat.compare_spec (f a) (f b)); cbn; intros; try done; lia. Qed.
Lemma ordering_then_le {A} (f : A → nat) a b o : ordering_then (f a ?= f b) o ≠ Gt → f a ≤ f b.
Proof. destruct (Nat.compare_spec (f a) (f b)); cbn; intros; try done; lia. Qed.

Lemma least_loaded_spec eligible voters load_of dest :
  least_loaded_non_replica eligible voters load_of = Some dest →
  dest ∈ eligible ∧ dest ∉ voters ∧ ∀ n, n ∈ eligible → n ∉ voters → load_of dest ≤ load_of n.
Proof.
  intros Hd. unfold least_loaded_non_replica in Hd.
  apply (min_by_spec _ load_of) in Hd as [[Hn He]%list_elem_of_filter Hle];
    [|intros *; apply ordering_then_gt|intros *; apply ordering_then_le].
  split_and!; [done..|]. intros n He' Hv'. apply Hle. by apply list_elem_of_filter.
Qed.

Lemma least_loaded_none eligible voters load_of :
  least_loaded_non_replica eligible voters load_of = None → eligible ⊆ voters.
Proof.
  intros Hd%min_by_none n Hn. destruct (decide (n ∈ voters)) as [|Hv]; [done|].
  assert (n ∈ filter (λ n, n ∉ voters) eligible) as Hx by (by apply list_elem_of_filter).
  rewrite Hd in Hx. by apply not_elem_of_nil in Hx.
Qed.

(** ** Loads *)

(** The replica slots the placements reserve, and how many a node holds. *)
Definition slots (placements : list (N * Placement)) : list NodeId := mjoin ((λ kv, anticipated kv.2) <$> placements).
Definition tally (placements : list (N * Placement)) (n : NodeId) : nat := count_occ N.eq_dec (slots placements) n.

Lemma count_occ_step (x n : N) l : count_occ N.eq_dec (x :: l) n = (if decide (n = x) then 1 else 0) + count_occ N.eq_dec l n.
Proof. case_decide; [by rewrite count_occ_cons_eq|]. by rewrite count_occ_cons_neq. Qed.

Lemma tally_cons kv placements n :
  tally (kv :: placements) n = count_occ N.eq_dec (anticipated kv.2) n + tally placements n.
Proof. unfold tally, slots. cbn [fmap list_fmap mjoin list_join]. by rewrite count_occ_app. Qed.

Lemma bump_get load v n : load_get (bump load v) n = load_get load n + (if decide (v = n) then 1 else 0).
Proof.
  unfold load_get, bump. case_decide as E; [subst; by rewrite lookup_insert_eq|].
  rewrite lookup_insert_ne by done. lia.
Qed.

Lemma bumps_get vs load n : load_get (foldl bump load vs) n = load_get load n + count_occ N.eq_dec vs n.
Proof.
  revert load. induction vs as [|v vs IH]; intros load; [cbn; lia|]. cbn [foldl].
  rewrite IH, bump_get, count_occ_step. repeat case_decide; try congruence; lia.
Qed.

Lemma load_map_get placements n : load_get (load_map placements) n = tally placements n.
Proof.
  unfold load_map, tally, slots. transitivity (load_get (∅ : gmap N nat) n + tally placements n); [|done].
  generalize (∅ : gmap N nat) as load.
  induction placements as [|[k p] ps IH]; intros load; [cbn; lia|].
  rewrite tally_cons. cbn [foldl snd]. rewrite IH, bumps_get. lia.
Qed.

Lemma anticipated_quiet p : pl_move p = None → anticipated p = pl_voters p.
Proof. unfold anticipated. by intros ->. Qed.

(** A node that holds more slots than another has a partition to itself. *)
Lemma tally_lt placements a b :
  Forall (λ kv, NoDup (anticipated kv.2)) placements → tally placements b < tally placements a →
  ∃ kv, kv ∈ placements ∧ a ∈ anticipated kv.2 ∧ b ∉ anticipated kv.2.
Proof.
  induction 1 as [|[k p] ps Hp Hps IH]; [unfold tally; cbn; lia|]. rewrite !tally_cons. cbn [snd] in *. intros Hlt.
  destruct (decide (a ∈ anticipated p ∧ b ∉ anticipated p)) as [[]|Hn].
  { exists (k, p). split_and!; [by left|done..]. }
  destruct IH as (kv & Hkv & Ha & Hb); [|exists kv; split_and!; [by right|done..]].
  assert (count_occ N.eq_dec (anticipated p) a ≤ count_occ N.eq_dec (anticipated p) b); [|lia].
  pose proof (proj1 (NoDup_count_occ N.eq_dec _) (proj1 (NoDup_ListNoDup _) Hp) a).
  destruct (decide (a ∈ anticipated p)) as [Ha|Ha].
  - assert (b ∈ anticipated p) as Hb by (destruct (decide (b ∈ anticipated p)); naive_solver).
    apply list_elem_of_In, (count_occ_In N.eq_dec) in Hb. lia.
  - rewrite (proj1 (count_occ_not_In N.eq_dec _ a)); [lia|]. by rewrite <-list_elem_of_In.
Qed.

(** ** Soundness of one proposal *)

(** The parts of a replacement: a partition without a move, one of its voters,
    and an eligible node that is not one. *)
Record replaces (directory : list NodeDirectoryEntry) (placements : list (N * Placement)) (pr : PlanProposal)
    (partition : N) (p : Placement) (drop dest : NodeId) : Prop := {
  rp_in : (partition, p) ∈ placements;
  rp_quiet : pl_move p = None;
  rp_drop : drop ∈ pl_voters p;
  rp_dest : dest ∈ eligible_nodes directory;
  rp_new : dest ∉ pl_voters p;
  rp_plan : pr = replacement (GroupId_Data partition) (pl_voters p) drop dest;
}.

Lemma elem_of_evacuating directory voters v :
  v ∈ evacuating_voters directory voters ↔ v ∈ voters ∧ must_evacuate directory v = true.
Proof. unfold evacuating_voters. rewrite elem_of_bset, list_elem_of_filter. naive_solver. Qed.

Lemma head_some {A} (l : list A) x : head l = Some x → x ∈ l.
Proof. destruct l; [done|]. intros [= ->]. by left. Qed.

Lemma drain_pass_sound directory load_of placements pr :
  drain_pass directory (eligible_nodes directory) load_of placements = Some pr →
  ∃ partition p drop dest, replaces directory placements pr partition p drop dest ∧ must_evacuate directory drop = true.
Proof.
  induction placements as [|[k p] ps IH]; cbn [drain_pass]; [done|]. intros Hd.
  assert (drain_pass directory (eligible_nodes directory) load_of ps = Some pr →
    ∃ partition p0 drop dest, replaces directory ((k, p) :: ps) pr partition p0 drop dest ∧
      must_evacuate directory drop = true) as Hrec.
  { intros (partition & p0 & drop & dest & [Hin ? ? ? ? ?] & He)%IH.
    exists partition, p0, drop, dest. split; [|done]. constructor; [by right|done..]. }
  destruct (bool_decide (pl_move p = None)) eqn:Em; cbn in Hd; [|by apply Hrec]. apply bool_decide_eq_true in Em.
  destruct (head _) as [drop|] eqn:Eh; [|by apply Hrec].
  destruct (least_loaded_non_replica _ _ _) as [dest|] eqn:El; [|by apply Hrec]. injection Hd as <-.
  apply head_some, elem_of_evacuating in Eh as [Hv He].
  apply least_loaded_spec in El as (Hel & Hn & _). unfold voter_set in Hn. rewrite elem_of_bset in Hn.
  exists k, p, drop, dest. split; [|done]. constructor; try done. by left.
Qed.

(** A worthwhile move: it relieves a node at least two slots above its destination. *)
Definition worthwhile (directory : list NodeDirectoryEntry) (load_of : NodeId → nat)
    (placements : list (N * Placement)) (c : NodeId * NodeId * N) : Prop :=
  let '(source, dest, partition) := c in
  ∃ p, (partition, p) ∈ placements ∧ pl_move p = None ∧ source ∈ pl_voters p ∧ source ∈ eligible_nodes directory ∧
    dest ∈ eligible_nodes directory ∧ dest ∉ pl_voters p ∧ load_of dest + 2 ≤ load_of source.

Lemma rebalance_candidate_sound directory load_of placements partition p c :
  (partition, p) ∈ placements → rebalance_candidate (eligible_nodes directory) load_of partition p = Some c →
  worthwhile directory load_of placements c.
Proof.
  unfold rebalance_candidate. intros Hin Hc.
  destruct (bool_decide (pl_move p = None)) eqn:Em; cbn [negb] in Hc; [|done]. apply bool_decide_eq_true in Em.
  destruct (max_by _ _) as [source|] eqn:Es; [|done]. destruct (least_loaded_non_replica _ _ _) as [dest|] eqn:El; [|done].
  destruct (_ <? _) eqn:Elt in Hc; [done|]. injection Hc as <-. apply Nat.ltb_ge in Elt.
  apply (max_by_spec _ load_of) in Es as [[Hel Hv]%list_elem_of_filter _];
    [|intros *; apply ordering_then_gt|intros *; apply ordering_then_le].
  apply least_loaded_spec in El as (Hd & Hn & _). unfold voter_set in Hn. rewrite elem_of_bset in Hn. by exists p.
Qed.

Lemma better_rebalance_choice cur cand load_of :
  better_rebalance cur cand load_of = cur ∨ better_rebalance cur cand load_of = cand.
Proof. destruct cur as [[cs cd] cp], cand as [[ns nd] np]. cbn. destruct (ordering_then _ _); auto. Qed.

Lemma rebalance_pass_sound directory load_of placements best ps c :
  ps ⊆ placements → (∀ b, best = Some b → worthwhile directory load_of placements b) →
  rebalance_pass (eligible_nodes directory) load_of best ps = Some c → worthwhile directory load_of placements c.
Proof.
  revert best. induction ps as [|[k p] ps IH]; intros best Hsub Hb; cbn [rebalance_pass]; [by apply Hb|].
  apply IH; [set_solver|]. intros b. destruct (rebalance_candidate _ _ _ _) as [cand|] eqn:Ec; [|apply Hb].
  apply (rebalance_candidate_sound directory load_of placements) in Ec; [|apply Hsub; by left]. intros [= <-].
  destruct best as [cur|]; [|done]. destruct (better_rebalance_choice cur cand load_of) as [->| ->]; auto.
Qed.

(** A pass that finds nothing has no candidate. *)
Lemma rebalance_pass_none eligible load_of best ps :
  rebalance_pass eligible load_of best ps = None →
  best = None ∧ ∀ k p, (k, p) ∈ ps → rebalance_candidate eligible load_of k p = None.
Proof.
  revert best. induction ps as [|[k p] ps IH]; intros best; cbn [rebalance_pass].
  { intros ->. split; [done|]. by intros k p ?%not_elem_of_nil. }
  intros [Hb Hps]%IH. destruct (rebalance_candidate eligible load_of k p) eqn:Ec; [done|]. split; [done|].
  intros k' p' [[= -> ->]|Hin]%elem_of_cons; [done|by apply Hps].
Qed.

Lemma placement_at_in placements k p : NoDup placements.*1 → (k, p) ∈ placements → placement_at placements k = Some p.
Proof.
  unfold placement_at. induction placements as [|[j q] ps IH]; [by intros _ ?%not_elem_of_nil|].
  cbn [fmap list_fmap fst list_find]. intros [Hj Hnd]%NoDup_cons Hin. case_decide as E.
  - subst k. apply elem_of_cons in Hin as [[= ->]|Hin]; [done|]. by apply (list_elem_of_fmap_2 fst) in Hin.
  - apply elem_of_cons in Hin as [[= -> ->]|Hin]; [done|]. specialize (IH Hnd Hin).
    destruct (list_find _ ps) as [[i kv]|]; [|done]. exact IH.
Qed.

Lemma propose_sound directory placements r pr : NoDup placements.*1 → propose directory placements r = Some pr →
  ∃ partition p drop dest, replaces directory placements pr partition p drop dest ∧
    (must_evacuate directory drop = true ∨
     drop ∈ eligible_nodes directory ∧ tally placements dest + 2 ≤ tally placements drop).
Proof.
  unfold propose. intros Hk Hp. destruct (_ <? _); [done|]. destruct (existsb _ _); [done|].
  destruct (drain_pass _ _ _ _) as [pr'|] eqn:Ed.
  { injection Hp as ->. apply drain_pass_sound in Ed as (k & p & drop & dest & Hr & He). eauto 10. }
  destruct (rebalance_pass _ _ _ _) as [[[source dest] k]|] eqn:Er; [|done].
  apply (rebalance_pass_sound directory _ placements) in Er as (p & Hin & Hm & Hs & Hse & Hd & Hn & Hw); [|done..].
  rewrite (placement_at_in _ _ _ Hk Hin) in Hp. injection Hp as <-. rewrite !load_map_get in Hw.
  exists k, p, source, dest. split; [by constructor|]. by right.
Qed.

Lemma replacement_perm g voters drop add : NoDup voters → drop ∈ voters →
  drop :: pp_target_voters (replacement g voters drop add) ≡ₚ add :: voters.
Proof.
  intros Hnd Hin. cbn. rewrite sort_unstable_perm, Permutation_app_comm. cbn. rewrite Permutation_swap. f_equiv.
  apply NoDup_Permutation; [|done|].
  - apply NoDup_cons. split; [|by apply NoDup_filter]. by intros [? _]%list_elem_of_filter.
  - intros x. rewrite elem_of_cons, list_elem_of_filter. destruct (decide (x = drop)); naive_solver.
Qed.

(** ** Carrying a proposal out *)

(** The group's placement once the plan has been created and finalized. *)
Definition settle (pr : PlanProposal) (placements : list (N * Placement)) : list (N * Placement) :=
  (λ kv, if bool_decide (GroupId_Data kv.1 = pp_group pr)
         then (kv.1, mkPlacement (pp_target_voters pr) (pl_voters_log_id kv.2) None) else kv) <$> placements.

(** Propose and carry out, [n] times or until nothing is proposed. *)
Fixpoint balance (n : nat) (directory : list NodeDirectoryEntry) (r : nat) (placements : list (N * Placement))
    : list (N * Placement) :=
  match n with
  | 0 => placements
  | S n =>
      match propose directory placements r with
      | None => placements
      | Some pr => balance n directory r (settle pr placements)
      end
  end.

Record balancer_input (directory : list NodeDirectoryEntry) (r : nat) (placements : list (N * Placement)) : Prop := {
  bi_directory : NoDup (nd_node_id <$> directory);
  bi_keys : NoDup placements.*1;
  bi_quiet : Forall (λ kv, pl_move kv.2 = None) placements;
  bi_voters : Forall (λ kv, NoDup (pl_voters kv.2) ∧ length (pl_voters kv.2) = r) placements;
  bi_capacity : r ≤ length (eligible_nodes directory);
}.

Lemma settle_keys pr placements : (settle pr placements).*1 = placements.*1.
Proof.
  unfold settle. rewrite <-list_fmap_compose. apply list_fmap_ext. intros i [k p] _. cbn. by case_bool_decide.
Qed.

Lemma settle_other g target placements k : g = GroupId_Data k → k ∉ placements.*1 →
  settle (mkProposal g target) placements = placements.
Proof.
  intros -> Hk. unfold settle. rewrite <-(list_fmap_id placements) at 2. apply list_fmap_ext. intros i kv Hi. cbn.
  rewrite bool_decide_false; [done|]. intros [= E]. apply Hk. rewrite <-E.
  by eapply list_elem_of_fmap_2, list_elem_of_lookup_2.
Qed.

(** The slots before and after differ by the replaced voter. *)
Lemma settle_slots directory placements pr k p drop dest :
  NoDup placements.*1 → Forall (λ kv, NoDup (pl_voters kv.2)) placements →
  replaces directory placements pr k p drop dest → drop :: slots (settle pr placements) ≡ₚ dest :: slots placements.
Proof.
  intros Hk Hnd [Hin Hq Hdrop _ _ ->]. apply list_elem_of_split in Hin as (l1 & l2 & ->).
  rewrite fmap_app in Hk. apply NoDup_app in Hk as (_ & Hdis & [Hk2 _]%NoDup_cons).
  rewrite Forall_app, Forall_cons in Hnd. destruct Hnd as (_ & Hnd & _). cbn [snd] in Hnd.
  unfold replacement, settle. rewrite fmap_app. cbn [fmap list_fmap]. rewrite !bool_decide_true by done.
  fold (settle (mkProposal (GroupId_Data k) (sort_unstable (filter (λ v, v ≠ drop) (pl_voters p) ++ [dest]))) l1).
  fold (settle (mkProposal (GroupId_Data k) (sort_unstable (filter (λ v, v ≠ drop) (pl_voters p) ++ [dest]))) l2).
  rewrite !(settle_other _ _ _ k) by (done || (intros Hx; apply (Hdis k); [done|by left])).
  unfold slots. rewrite !fmap_app, !join_app. cbn [fmap list_fmap mjoin list_join fst snd].
  rewrite (anticipated_quiet p) by done. rewrite (anticipated_quiet (mkPlacement _ _ None)) by done. cbn [pl_voters].
  pose proof (replacement_perm (GroupId_Data k) (pl_voters p) drop dest Hnd Hdrop) as Hr. cbn in Hr.
  cbn [pp_target_voters]. rewrite (Permutation_middle _ _ drop), (Permutation_middle _ _ dest). f_equiv.
  rewrite !app_comm_cons. by rewrite Hr.
Qed.

(** ** The measure *)

Definition evacuations (directory : list NodeDirectoryEntry) (placements : list (N * Placement)) : nat :=
  length (filter (λ v, must_evacuate directory v = true) (slots placements)).
Definition spread (directory : list NodeDirectoryEntry) (placements : list (N * Placement)) : nat :=
  sum_list ((λ n, tally placements n * tally placements n) <$> eligible_nodes directory).

Lemma sum_list_perm l k : l ≡ₚ k → sum_list l = sum_list k.
Proof. induction 1; cbn in *; lia. Qed.

Lemma sum_list_le {A} (f g : A → nat) l : (∀ x, x ∈ l → f x ≤ g x) → sum_list (f <$> l) ≤ sum_list (g <$> l).
Proof.
  induction l as [|x l IH]; intros Hle; cbn; [done|]. pose proof (Hle x ltac:(by left)).
  assert (sum_list (f <$> l) ≤ sum_list (g <$> l)); [apply IH; set_solver|cbn in *; lia].
Qed.

(** Moving one unit from [s] to the smaller [d] lowers the sum of squares. *)
Lemma squares_decrease (f g : N → nat) l s d :
  NoDup l → s ∈ l → d ∈ l → f d + 2 ≤ f s → g s + 1 = f s → g d = f d + 1 →
  (∀ n, n ≠ s → n ≠ d → g n = f n) → sum_list ((λ n, g n * g n) <$> l) < sum_list ((λ n, f n * f n) <$> l).
Proof.
  intros Hnd Hs Hd Hle Hgs Hgd Hother. assert (s ≠ d) by (intros ->; lia).
  apply elem_of_Permutation in Hs as [l1 Hs]. rewrite Hs in Hd, Hnd.
  apply elem_of_cons in Hd as [|Hd]; [done|]. apply elem_of_Permutation in Hd as [l2 Hd].
  rewrite Hd in Hs, Hnd. apply NoDup_cons in Hnd as [Hs1 [Hd1 _]%NoDup_cons].
  assert (sum_list ((λ n, g n * g n) <$> l2) ≤ sum_list ((λ n, f n * f n) <$> l2)) as Hl2.
  { apply sum_list_le. intros n Hn. rewrite Hother; [done|set_solver..]. }
  rewrite !(sum_list_perm _ _ (fmap_Permutation _ _ _ Hs)). cbn in *. nia.
Qed.

Lemma eligible_stays directory n : NoDup (nd_node_id <$> directory) → n ∈ eligible_nodes directory →
  must_evacuate directory n = false.
Proof.
  unfold eligible_nodes, must_evacuate. rewrite elem_of_bset, list_elem_of_fmap. intros Hnd (e & -> & [Ha Hin]%list_elem_of_filter).
  destruct (list_find _ directory) as [[i e']|] eqn:Ef.
  - apply list_find_Some in Ef as (He' & Hid & _). apply list_elem_of_lookup in Hin as [j Hj].
    assert (i = j) as ->.
    { eapply (NoDup_lookup (nd_node_id <$> directory)); [done|rewrite list_lookup_fmap, He'; cbn; by rewrite Hid|].
      by rewrite list_lookup_fmap, Hj. }
    rewrite Hj in He'. injection He' as <-. by rewrite Ha.
  - apply list_find_None in Ef. rewrite Forall_forall in Ef. by destruct (Ef e Hin).
Qed.

Lemma settle_tally directory placements pr k p drop dest n :
  NoDup placements.*1 → Forall (λ kv, NoDup (pl_voters kv.2)) placements →
  replaces directory placements pr k p drop dest →
  tally (settle pr placements) n + (if decide (n = drop) then 1 else 0) =
  tally placements n + (if decide (n = dest) then 1 else 0).
Proof.
  intros Hk Hnd Hr. pose proof (settle_slots directory placements pr k p drop dest Hk Hnd Hr) as Hp.
  apply (proj1 (Permutation_count_occ N.eq_dec _ _)) with (x := n) in Hp. unfold tally.
  rewrite !count_occ_step in Hp. lia.
Qed.

(** Each step decreases the measure. *)
Lemma settle_decreases directory r placements pr :
  balancer_input directory r placements → propose directory placements r = Some pr →
  evacuations directory (settle pr placements) < evacuations directory placements ∨
  evacuations directory (settle pr placements) = evacuations directory placements ∧
  spread directory (settle pr placements) < spread directory placements.
Proof.
  intros [Hd Hk _ Hv _] (k & p & drop & dest & Hr & Hcase)%propose_sound; [|done].
  assert (Forall (λ kv, NoDup (pl_voters kv.2)) placements) as Hnd by (eapply Forall_impl; [exact Hv|tauto]).
  pose proof (settle_slots directory placements pr k p drop dest Hk Hnd Hr) as Hs.
  apply (filter_Permutation (λ v, must_evacuate directory v = true)), Permutation_length in Hs.
  rewrite !filter_cons in Hs. rewrite (eligible_stays directory dest Hd (rp_dest _ _ _ _ _ _ _ Hr)) in Hs.
  rewrite (decide_False (P := false = true)) in Hs by done. unfold evacuations.
  destruct Hcase as [He|[Hel Hw]].
  { left. rewrite He, decide_True in Hs by done. cbn in Hs. lia. }
  right. rewrite (eligible_stays directory drop Hd Hel), decide_False in Hs by done. split; [done|].
  assert (drop ≠ dest) by (intros ->; lia).
  assert (∀ n, _) as Ht by exact (λ n, settle_tally directory placements pr k p drop dest n Hk Hnd Hr).
  apply (squares_decrease (tally placements) (tally (settle pr placements)) (eligible_nodes directory) drop dest);
    [apply bset_sorted_nodup, bset_of_list_sorted|done|apply Hr|done|..].
  - specialize (Ht drop). rewrite decide_True, decide_False in Ht by done. lia.
  - specialize (Ht dest). rewrite decide_False, decide_True in Ht by done. lia.
  - intros n Hn1 Hn2. specialize (Ht n). rewrite !decide_False in Ht by done. lia.
Qed.

Lemma replacement_target g voters drop add : NoDup voters → drop ∈ voters → add ∉ voters →
  NoDup (pp_target_voters (replacement g voters drop add)) ∧
  length (pp_target_voters (replacement g voters drop add)) = length voters.
Proof.
  intros Hnd Hd Ha. pose proof (replacement_perm g voters drop add Hnd Hd) as Hp.
  assert (NoDup (drop :: pp_target_voters (replacement g voters drop add))) as [_ Hn]%NoDup_cons
    by (rewrite Hp; by apply NoDup_cons).
  split; [done|]. apply Permutation_length in Hp. cbn in *. lia.
Qed.

Lemma settle_input directory r placements pr :
  balancer_input directory r placements → propose directory placements r = Some pr →
  balancer_input directory r (settle pr placements).
Proof.
  intros [Hd Hk Hq Hv Hc] (k & p & drop & dest & [Hin Hm Hdrop He Hnew ->] & _)%propose_sound; [|done].
  rewrite Forall_forall in Hq, Hv. destruct (Hv _ Hin) as [Hnd Hlen]. cbn [snd] in *.
  destruct (replacement_target (GroupId_Data k) (pl_voters p) drop dest Hnd Hdrop Hnew) as [Hn Hl].
  constructor; [done|by rewrite settle_keys|..|done].
  all: unfold settle; apply Forall_fmap, Forall_forall; intros kv Hkv; cbn [compose]; case_bool_decide; [|by auto].
  - done.
  - split; [exact Hn|]. by rewrite <-Hlen, <-Hl.
Qed.

(** ** Where it stops *)

Lemma drain_pass_none directory eligible load_of placements :
  drain_pass directory eligible load_of placements = None →
  ∀ k p, (k, p) ∈ placements → pl_move p = None →
    evacuating_voters directory (pl_voters p) = [] ∨ eligible ⊆ pl_voters p.
Proof.
  induction placements as [|[j q] ps IH]; cbn [drain_pass]; [by intros _ k p ?%not_elem_of_nil|].
  intros Hd k p [[= -> ->]|Hin]%elem_of_cons Hm.
  - rewrite bool_decide_true in Hd by done. cbn [negb] in Hd.
    destruct (evacuating_voters directory (pl_voters q)) as [|v vs]; [by left|]. cbn [head] in Hd.
    destruct (least_loaded_non_replica _ _ _) eqn:El; [done|]. right. intros n Hn.
    apply least_loaded_none in El. apply El in Hn. unfold voter_set in Hn. by rewrite elem_of_bset in Hn.
  - apply (IH ltac:(destruct (negb _); [done|]; by repeat case_match) k p Hin Hm).
Qed.

(** With at least [r] eligible nodes there is room for every voter to evacuate. *)
Lemma evacuation_room directory voters : NoDup (nd_node_id <$> directory) →
  length voters ≤ length (eligible_nodes directory) → eligible_nodes directory ⊆ voters →
  ∀ v, v ∈ voters → must_evacuate directory v = false.
Proof.
  intros Hd Hlen Hsub v Hv. destruct (must_evacuate directory v) eqn:He; [|done].
  assert (v :: eligible_nodes directory ⊆+ voters) as Hle%submseteq_length.
  { apply NoDup_submseteq; [|set_solver]. apply NoDup_cons. split; [|apply bset_sorted_nodup, bset_of_list_sorted].
    intros Hel. apply (eligible_stays directory v Hd) in Hel. congruence. }
  cbn in Hle. lia.
Qed.

Lemma propose_none directory r placements :
  balancer_input directory r placements → propose directory placements r = None →
  drain_pass directory (eligible_nodes directory) (load_get (load_map placements)) placements = None ∧
  rebalance_pass (eligible_nodes directory) (load_get (load_map placements)) None placements = None.
Proof.
  intros [Hd Hk Hq Hv Hc] Hp. unfold propose in Hp. rewrite (proj2 (Nat.ltb_ge _ _)) in Hp by done.
  destruct (existsb _ _) eqn:Eab.
  { apply existsb_exists in Eab as (kv & Hkv%list_elem_of_In & Hab). rewrite Forall_forall in Hq.
    by rewrite (Hq _ Hkv) in Hab. }
  destruct (drain_pass _ _ _ _) eqn:Ed; [done|]. split; [done|].
  destruct (rebalance_pass _ _ _ _) as [[[source dest] j]|] eqn:Er; [|done].
  apply (rebalance_pass_sound directory _ placements) in Er as (q & Hq' & _); [|done..].
  by rewrite (placement_at_in _ _ _ Hk Hq') in Hp.
Qed.

Lemma propose_none_drained directory r placements k p v :
  balancer_input directory r placements → propose directory placements r = None →
  (k, p) ∈ placements → v ∈ pl_voters p → must_evacuate directory v = false.
Proof.
  intros Hi [Ed _]%(propose_none directory r placements Hi) Hin Hvin. pose proof Hi as [Hd _ Hq Hv Hc].
  rewrite Forall_forall in Hq, Hv. destruct (Hv _ Hin) as [_ Hlen]. cbn [snd] in *.
  destruct (drain_pass_none _ _ _ _ Ed k p Hin (Hq _ Hin)) as [He|Hsub].
  - destruct (must_evacuate directory v) eqn:Em; [|done].
    assert (v ∈ evacuating_voters directory (pl_voters p)) as Hx by (by apply elem_of_evacuating).
    rewrite He in Hx. by apply not_elem_of_nil in Hx.
  - by eapply evacuation_room; [|rewrite Hlen| |].
Qed.

(** Two eligible nodes two slots apart give a candidate. *)
Lemma propose_none_balanced directory r placements a b :
  balancer_input directory r placements → propose directory placements r = None →
  a ∈ eligible_nodes directory → b ∈ eligible_nodes directory → tally placements a ≤ tally placements b + 1.
Proof.
  intros Hi Hp Ha Hb. destruct (decide (tally placements a ≤ tally placements b + 1)) as [|Hgt]; [done|].
  pose proof Hi as [_ _ Hq Hv _]. rewrite Forall_forall in Hq, Hv.
  destruct (tally_lt placements a b) as ([k p] & Hin & Hva & Hvb); [|lia|].
  { apply Forall_forall. intros kv Hkv. rewrite (anticipated_quiet _ (Hq _ Hkv)). by apply Hv. }
  cbn [snd] in *. pose proof (Hq _ Hin) as Hm. cbn [snd] in Hm. rewrite (anticipated_quiet p Hm) in Hva, Hvb.
  apply (propose_none directory r placements Hi) in Hp as [_ [_ Hc]%rebalance_pass_none].
  specialize (Hc k p Hin). unfold rebalance_candidate in Hc.
  rewrite bool_decide_true in Hc by done. cbn [negb] in Hc.
  destruct (max_by _ _) as [source|] eqn:Es.
  2: { apply max_by_none in Es. assert (a ∈ filter (λ v, v ∈ eligible_nodes directory) (pl_voters p)) as Hx
         by (by apply list_elem_of_filter). rewrite Es in Hx. by apply not_elem_of_nil in Hx. }
  apply (max_by_spec _ (load_get (load_map placements))) in Es as [_ Es];
    [|intros *; apply ordering_then_gt|intros *; apply ordering_then_le].
  specialize (Es a ltac:(by apply list_elem_of_filter)).
  destruct (least_loaded_non_replica _ _ _) as [dest|] eqn:El.
  2: { apply least_loaded_none in El. apply El in Hb. unfold voter_set in Hb. by rewrite elem_of_bset in Hb. }
  apply least_loaded_spec in El as (_ & _ & El). specialize (El b Hb).
  unfold voter_set in El. rewrite elem_of_bset in El. specialize (El Hvb).
  destruct (_ <? _) eqn:Elt in Hc; [|done]. apply Nat.ltb_lt in Elt. rewrite !load_map_get in *. lia.
Qed.

(** Enough rounds to stop. *)
Lemma balance_stops directory r e w placements :
  balancer_input directory r placements → evacuations directory placements = e → spread directory placements = w →
  ∃ n, balancer_input directory r (balance n directory r placements) ∧
    propose directory (balance n directory r placements) r = None ∧ (balance n directory r placements).*1 = placements.*1.
Proof.
  revert w placements. induction e as [e IHe] using lt_wf_ind. intros w. induction w as [w IHw] using lt_wf_ind.
  intros placements Hi He Hw. destruct (propose directory placements r) as [pr|] eqn:Ep; [|by exists 0].
  pose proof (settle_input directory r placements pr Hi Ep) as Hi'.
  assert (∃ n, balancer_input directory r (balance n directory r (settle pr placements)) ∧
    propose directory (balance n directory r (settle pr placements)) r = None ∧
    (balance n directory r (settle pr placements)).*1 = (settle pr placements).*1) as (n & ? & ? & Hk).
  { destruct (settle_decreases directory r placements pr Hi Ep) as [Hlt|[Heq Hlt]].
    - eapply (IHe (evacuations directory (settle pr placements))); [lia|done..].
    - eapply (IHw (spread directory (settle pr placements))); [lia|done|congruence|done]. }
  exists (S n). cbn [balance]. rewrite Ep. by rewrite Hk, settle_keys.
Qed.

(** C22: the balancer converges. From any quiet placement map with as many
    eligible nodes as a partition has replicas, carrying out the proposals of
    [propose] one after another ends after finitely many moves in a map for
    which nothing more is proposed. There no partition has a voter that is
    Down, Draining or unknown, every partition still has [r] distinct voters,
    and the replica counts of any two eligible nodes differ by at most one. *)
Theorem balancer_converges directory r placements : balancer_input directory r placements →
  ∃ n, let placements' := balance n directory r placements in
    propose directory placements' r = None ∧ placements'.*1 = placements.*1 ∧
    Forall (λ kv, NoDup (pl_voters kv.2) ∧ length (pl_voters kv.2) = r ∧
                  Forall (λ v, must_evacuate directory v = false) (pl_voters kv.2)) placements' ∧
    ∀ a b, a ∈ eligible_nodes directory → b ∈ eligible_nodes directory →
      load_get (load_map placements') a ≤ load_get (load_map placements') b + 1.
Proof.
  intros Hi. destruct (balance_stops directory r _ _ placements Hi eq_refl eq_refl) as (n & Hi' & Hp & Hk).
  exists n. cbn zeta. split_and!; [done..| |].
  - apply Forall_forall. intros [k p] Hin. destruct (proj1 (Forall_forall _ _) (bi_voters _ _ _ Hi') _ Hin) as [Hnd Hl].
    split_and!; [done..|]. apply Forall_forall. intros v Hv. by eapply propose_none_drained.
  - intros a b Ha Hb. rewrite !load_map_get. by eapply propose_none_balanced.
Qed.

(** Five nodes, one of them draining and one Suspect; three partitions crowded
    on the first three nodes. *)
Definition sample_directory : list NodeDirectoryEntry :=
  [mkNodeEntry 1 "c1" "b1" NodeState_Active 1; mkNodeEntry 2 "c2" "b2" NodeState_Active 1;
   mkNodeEntry 3 "c3" "b3" NodeState_Draining 2; mkNodeEntry 4 "c4" "b4" NodeState_Active 1;
   mkNodeEntry 5 "c5" "b5" NodeState_Suspect 1; mkNodeEntry 6 "c6" "b6" NodeState_Active 1].
Definition sample_placements : list (N * Placement) :=
  (λ k, (k, mkPlacement [1; 2; 3]%N (mkLogId 1 (k + 1)) None)) <$> [0; 1; 2]%N.

Lemma balancer_converges_witness : ∃ n, let placements' := balance n sample_directory 3 sample_placements in
  propose sample_directory placements' 3 = None ∧ placements'.*1 = sample_placements.*1 ∧
  Forall (λ kv, NoDup (pl_voters kv.2) ∧ length (pl_voters kv.2) = 3 ∧
                Forall (λ v, must_evacuate sample_directory v = false) (pl_voters kv.2)) placements' ∧
  ∀ a b, a ∈ eligible_nodes sample_directory → b ∈ eligible_nodes sample_directory →
    load_get (load_map placements') a ≤ load_get (load_map placements') b + 1.
Proof.
  apply (balancer_converges sample_directory 3 sample_placements).
  constructor; [apply (bool_decide_unpack _); vm_compute; exact I..|vm_compute; lia].
Defined.
