(* ===== verification/Reconcile.v ===== *)
(** * The move gate and startup reconciliation (src/src/meta/reconcile.rs)

    Pure over the meta placement record and the data group's committed voter
    set, a [BTreeSet] given as the ascending list of its elements. *)

From S2P Require Import Prelude BTree Types.

Inductive GateDecision :=
| GateDecision_Accept | GateDecision_NoPlan | GateDecision_RejectAborting
| GateDecision_RejectConfigMismatch | GateDecision_RejectNotSingleVoter.
#[global] Instance GateDecision_eq_dec : EqDecision GateDecision.
Proof. solve_decision. Defined.

Definition gate (placement : Placement) (committed_voters : list NodeId) : GateDecision :=
  match pl_move placement with
  | None => GateDecision_NoPlan
  | Some plan =>
      if mp_aborting plan then GateDecision_RejectAborting
      else
      let voters := voter_set (pl_voters placement) in
      if negb (bool_decide (voters = committed_voters)) then GateDecision_RejectConfigMismatch
      else
      let target := voter_set (mp_target_voters plan) in
      let added := length (bset_difference target voters) in
      let removed := length (bset_difference voters target) in
      if negb (added =? 1) || negb (removed =? 1) then GateDecision_RejectNotSingleVoter
      else GateDecision_Accept
  end.

Inductive ReconcileAction :=
| ReconcileAction_NoPlan | ReconcileAction_ResumePlan | ReconcileAction_CompleteJoint
| ReconcileAction_Finalize | ReconcileAction_Error.
#[global] Instance ReconcileAction_eq_dec : EqDecision ReconcileAction.
Proof. solve_decision. Defined.

Definition reconcile (placement : Placement) (committed_voters : list NodeId) : ReconcileAction :=
  match pl_move placement with
  | None => ReconcileAction_NoPlan
  | Some plan =>
      let voters := voter_set (pl_voters placement) in
      let target := voter_set (mp_target_voters plan) in
      let union := bset_union voters target in
      if bool_decide (committed_voters = voters) then ReconcileAction_ResumePlan
      else if bool_decide (committed_voters = target) then ReconcileAction_Finalize
      else if bool_decide (committed_voters = union) then ReconcileAction_CompleteJoint
      else ReconcileAction_Error
  end.
