(* ===== verification/Config.v ===== *)
(** * Static configuration (src/src/config.rs)

    Timeouts, Raft timing, the cluster-creation input and its validation.
    Durations are nanoseconds. Values quoted inside error messages are not
    formatted. *)

From S2P Require Import Prelude BTree Types.

Record Timeouts := mkTimeouts { to_suspect : N; to_down : N; to_request : N; to_shutdown : N }.

Definition secs (n : N) : N := (n * 1000000000)%N.
Definition Timeouts_default : Timeouts := mkTimeouts (secs 3) (secs 15) (secs 5) (secs 60).

(** [Timeouts::validate]. *)
Definition Timeouts_validate (t : Timeouts) : Result unit :=
  if (to_suspect t =? 0)%N then Err (Error_Config "suspect_timeout must be > 0")
  else if (to_down t <? to_suspect t)%N then Err (Error_Config "down_timeout must be >= suspect_timeout")
  else if (to_request t =? 0)%N then Err (Error_Config "request_timeout must be > 0")
  else if (to_shutdown t =? 0)%N then Err (Error_Config "shutdown_timeout must be > 0")
  else Ok tt.

(** Raft timing in milliseconds. *)
Record RaftTuning := mkRaftTuning {
  rt_election_timeout_min : N; rt_election_timeout_max : N; rt_heartbeat_interval : N;
}.
Definition RaftTuning_default : RaftTuning := mkRaftTuning 750 1500 250.
Definition RaftTuning_durable_tcp : RaftTuning := mkRaftTuning 3000 6000 1000.
Definition RAFT_MAX_PAYLOAD_ENTRIES : N := 1.

Definition MIN_REPLICATION : N := 3.
Definition MIN_META_VOTERS : nat := 3.

Record InitConfig := mkInitConfig {
  ic_p : N;
  ic_r : N;
  ic_bootstrap_nodes : list NodeId;
  ic_meta_voters : list NodeId;
  ic_hash_spec : HashSpec;
}.

(** [parse_partition_count]. *)
Definition parse_partition_count (n : N) : Result N :=
  if (n =? 0)%N then Err (Error_Config "P must be > 0")
  else if (u16_max <? n)%N then Err (Error_Config "P must be <= 65535 (u16 bound)")
  else Ok n.

Definition ROUTING_FIXED_HEADROOM : N := 64 * 1024.
Definition DIRECTORY_ENTRY_BUDGET : N := 64 + 2 * N.of_nat MAX_ENDPOINT_BYTES.
Definition PLACEMENT_FIXED_BUDGET : N := 64.
Definition size_of_NodeId : N := 8.

(** [validate_routing_shape]: a bound on the encoded routing snapshot. *)
Definition validate_routing_shape (p r : N) : Result unit :=
  if (N.of_nat MAX_CLUSTER_NODES <? r)%N then Err (Error_Config "R must be <= 8")
  else
  let! directory := ok_or (checked_mul usize_max (N.of_nat MAX_CLUSTER_NODES) DIRECTORY_ENTRY_BUDGET)
    (Error_Config "routing directory size overflow") in
  let! placement := ok_or (checked_mul usize_max p (PLACEMENT_FIXED_BUDGET + 2 * r * size_of_NodeId))
    (Error_Config "routing placement size overflow") in
  let! estimate := ok_or (checked_add usize_max ROUTING_FIXED_HEADROOM directory ≫=
                          λ b, checked_add usize_max b placement)
    (Error_Config "routing snapshot size overflow") in
  if (MAX_ROUTING_PAYLOAD_BYTES <? estimate)%N
  then Err (Error_Config "P and R can produce a routing snapshot larger than 4194304 bytes")
  else Ok tt.

(** [BTreeSet::is_subset]. *)
Definition bset_subset (a b : list N) : bool := forallb (λ x, bool_decide (x ∈ b)) a.

(** [InitConfig::validate]. *)
Definition InitConfig_validate (c : InitConfig) : Result unit :=
  if (ic_p c =? 0)%N then Err (Error_Config "P must be > 0")
  else if (ic_r c <? MIN_REPLICATION)%N then Err (Error_Config "R must be >= 3")
  else
  let! _ := validate_routing_shape (ic_p c) (ic_r c) in
  let bootstrap := bset_of_list (ic_bootstrap_nodes c) in
  if negb (length bootstrap =? length (ic_bootstrap_nodes c))
  then Err (Error_Config "bootstrap_nodes must be distinct")
  else if MAX_CLUSTER_NODES <? length bootstrap then Err (Error_Config "bootstrap node count must be <= 8")
  else if bool_decide (0%N ∈ bootstrap) then Err (Error_Config "node ids must be non-zero")
  else if (N.of_nat (length bootstrap) <? ic_r c)%N
  then Err (Error_Config "need at least R distinct bootstrap nodes")
  else
  let meta := bset_of_list (ic_meta_voters c) in
  if negb (length meta =? length (ic_meta_voters c)) then Err (Error_Config "meta_voters must be distinct")
  else if length meta <? MIN_META_VOTERS
  then Err (Error_Config "meta voter set must have >= 3 distinct nodes")
  else if Nat.even (length meta) then Err (Error_Config "meta voter set must be odd")
  else if negb (bset_subset meta bootstrap) then Err (Error_Config "every meta voter must be a bootstrap node")
  else Ok tt.

(** No arithmetic of the estimate can overflow: the checked operations never fail. *)
Lemma validate_routing_shape_ok p r :
  (p ≤ u16_max)%N → (r ≤ u8_max)%N →
  is_ok (validate_routing_shape p r) =
    (r <=? 8)%N && (65536 + 8 * 576 + p * (64 + 16 * r) <=? 4194304)%N.
Proof.
  intros Hp Hr. unfold validate_routing_shape.
  change (N.of_nat MAX_CLUSTER_NODES) with 8%N. change DIRECTORY_ENTRY_BUDGET with 576%N.
  destruct (N.ltb_spec 8 r) as [H8|H8]; destruct (N.leb_spec r 8) as [H8'|H8']; try lia; [done|].
  assert (p * (64 + 16 * r) ≤ 65535 * 192)%N as Hb by (unfold u16_max in Hp; nia).
  unfold checked_mul at 1. change (8 * 576)%N with 4608%N. change (4608 <=? usize_max)%N with true. cbn [ok_or rbind].
  unfold checked_mul, PLACEMENT_FIXED_BUDGET, size_of_NodeId.
  replace (p * (64 + 2 * r * 8))%N with (p * (64 + 16 * r))%N by lia.
  destruct (N.leb_spec (p * (64 + 16 * r)) usize_max) as [_|Hx]; [|unfold usize_max, u64_max in Hx; lia].
  cbn [ok_or rbind]. unfold ROUTING_FIXED_HEADROOM. change (64 * 1024)%N with 65536%N.
  unfold checked_add. change (65536 + 4608 <=? usize_max)%N with true. cbn [mbind option_bind].
  change (65536 + 4608)%N with 70144%N.
  destruct (N.leb_spec (70144 + p * (64 + 16 * r)) usize_max) as [_|Hx]; [|unfold usize_max, u64_max in Hx; lia].
  cbn [ok_or rbind]. change MAX_ROUTING_PAYLOAD_BYTES with 4194304%N.
  change (65536 + 8 * 576)%N with 70144%N. rewrite N.ltb_antisym.
  by destruct (70144 + p * (64 + 16 * r) <=? 4194304)%N.
Qed.
