(* ===== verification/Codec.v ===== *)
(** * Serialization of records (src/src/codec.rs)

    codec.rs delegates to the third-party bincode crate. [Codec] is the
    interface the rest of the library is proved against: encoding is a
    function, and decoding an encoded value of the Rust type returns it. The
    file Bincode.v builds an instance from bincode's documented format. *)

From S2P Require Import Prelude BTree Types.

(** [codec::encode] and [codec::decode] at one type. *)
Class Codec (A : Type) `{Wf A} := {
  encode : A → bytes;
  decode : bytes → result Error A;
  decode_encode x : wf x → decode (encode x) = Ok x;
}.

(** [codec::encoded_len]. *)
Definition encoded_len `{Codec A} (x : A) : N := N.of_nat (length (encode x)).

(** Encoding is injective on values of the Rust type. *)
Lemma encode_inj `{Codec A} (x y : A) : wf x → wf y → encode x = encode y → x = y.
Proof.
  intros Hx Hy E. apply decode_encode in Hx. apply decode_encode in Hy. congruence.
Qed.

#[export] Hint Rewrite @decode_encode using (first [assumption | done]) : codec.
