(* ===== verification/SearchDef.v ===== *)
(** * Search index definitions and statistics (src/src/search/definition.rs, mod.rs)

    The catalog types the meta state machine stores, their validation, the
    definition hash, and the merging of shard statistics. Names quoted inside
    error messages are not formatted. *)

From S2P Require Import Prelude BTree Types Codec.
From Stdlib Require Import Strings.Ascii.
From stdpp Require Import strings list.

Definition SEARCH_ENGINE_REVISION : N := 2.
Definition SEARCH_MAX_FIELDS : N := 64.
Definition SEARCH_MAX_NAME_BYTES : N := 128.
Definition SEARCH_MAX_PATH_SEGMENTS : N := 16.
Definition SEARCH_MAX_DEFINITION_BYTES : N := 64 * 1024.
Definition SEARCH_MAX_INDEXES : N := 64.
Definition SEARCH_MAX_CATALOG_BYTES : N := 256 * 1024.
Definition SEARCH_MAX_RETIRING_GENERATIONS : N := 4096.
Definition SEARCH_MAX_QUERY_TERMS : N := 1024.
Definition SEARCH_MAX_TERM_KEY_BYTES : N := 4 * 1024.
Definition SEARCH_MAX_STATISTICS_BYTES : N := 60 * 1024.

Definition str_len (s : string) : N := N.of_nat (String.length s).
Definition vec_len {A} (l : list A) : N := N.of_nat (length l).

(** [name.chars().any(char::is_control)] on the UTF-8 bytes: U+0000..U+001F,
    U+007F and U+0080..U+009F (encoded as C2 80 .. C2 9F). *)
Fixpoint has_control (b : bytes) : bool :=
  match b with
  | [] => false
  | c :: rest =>
      let n := Byte.to_N c in
      (n <? 32)%N || (n =? 127)%N ||
      match rest with
      | d :: _ => (n =? 194)%N && (128 <=? Byte.to_N d)%N && (Byte.to_N d <=? 159)%N
      | [] => false
      end || has_control rest
  end.

(** [validate_name]. *)
Definition validate_name (kind name : string) : Result unit :=
  if (str_len name =? 0)%N || (SEARCH_MAX_NAME_BYTES <? str_len name)%N
  then Err (Error_Search (kind +:+ " must be 1..=128 bytes"))
  else if has_control (as_bytes name) then Err (Error_Search (kind +:+ " contains a control character"))
  else Ok tt.

Definition is_ascii_alphanumeric (c : byte) : bool :=
  let n := Byte.to_N c in
  ((48 <=? n) && (n <=? 57) || (65 <=? n) && (n <=? 90) || (97 <=? n) && (n <=? 122))%N.

(** [validate_index_name]. *)
Definition validate_index_name (name : string) : Result unit :=
  validate_name "index name" name ≫= λ _,
  if negb (forallb (λ c, is_ascii_alphanumeric c || bool_decide (c ∈ [x2d; x5f; x2e])) (as_bytes name))
  then Err (Error_Search "index name may contain only ASCII letters, digits, '-', '_', and '.'")
  else if forallb (λ c, bool_decide (c = x2e)) (as_bytes name)
  then Err (Error_Search "index name may not consist only of '.' characters")
  else Ok tt.

Inductive PathSegment :=
| PathSegment_Key (key : string)
| PathSegment_Index (i : N).
#[global] Instance PathSegment_eq_dec : EqDecision PathSegment.
Proof. solve_decision. Defined.

Inductive FieldKind :=
| FieldKind_Text (tokenizer : string) (positions : bool)
| FieldKind_Keyword | FieldKind_U64 | FieldKind_I64 | FieldKind_F64 | FieldKind_Bool
| FieldKind_Date | FieldKind_Facet.
#[global] Instance FieldKind_eq_dec : EqDecision FieldKind.
Proof. solve_decision. Defined.

Record SearchField := mkSearchField {
  sf_name : string;
  sf_source_path : list PathSegment;
  sf_kind : FieldKind;
  sf_required : bool;
  sf_multi_valued : bool;
  sf_indexed : bool;
  sf_stored : bool;
  sf_fast : bool;
}.
#[global] Instance SearchField_eq_dec : EqDecision SearchField.
Proof. solve_decision. Defined.

Record SearchIndexDefinition := mkSearchDefinition {
  sd_document_type : string;
  sd_fields : list SearchField;
  sd_default_search_fields : list string;
}.
#[global] Instance SearchIndexDefinition_eq_dec : EqDecision SearchIndexDefinition.
Proof. solve_decision. Defined.

#[global] Instance PathSegment_wf : Wf PathSegment := λ p,
  match p with PathSegment_Key k => str_ok k | PathSegment_Index i => (i ≤ u32_max)%N end.
#[global] Instance FieldKind_wf : Wf FieldKind := λ k,
  match k with FieldKind_Text t _ => str_ok t | _ => True end.
#[global] Instance SearchField_wf : Wf SearchField := λ f,
  str_ok (sf_name f) ∧ (vec_len_ok (sf_source_path f) ∧ Forall wf (sf_source_path f)) ∧ wf (sf_kind f).
#[global] Instance SearchIndexDefinition_wf : Wf SearchIndexDefinition := λ d,
  str_ok (sd_document_type d) ∧ (vec_len_ok (sd_fields d) ∧ Forall wf (sd_fields d)) ∧
  (vec_len_ok (sd_default_search_fields d) ∧ Forall str_ok (sd_default_search_fields d)).

Definition is_text (k : FieldKind) : bool := match k with FieldKind_Text _ _ => true | _ => false end.
Definition is_facet (k : FieldKind) : bool := match k with FieldKind_Facet => true | _ => false end.
Definition is_keyword (k : FieldKind) : bool := match k with FieldKind_Keyword => true | _ => false end.

(** Run a unit check over a list, stopping at the first error. *)
Fixpoint forR {A} (f : A → Result unit) (l : list A) : Result unit :=
  match l with [] => Ok tt | x :: l => f x ≫= λ _, forR f l end.

Definition check (b : bool) (msg : string) : Result unit := if b then Ok tt else Err (Error_Search msg).

(** The body of the loop over [self.fields], [names] the names seen so far. *)
Definition validate_field (names : list string) (field : SearchField) : Result unit :=
  validate_name "field" (sf_name field) ≫= λ _,
  check (negb (String.prefix "_" (sf_name field))) "field name is reserved" ≫= λ _,
  check (negb (bool_decide (sf_name field ∈ names))) "duplicate field name" ≫= λ _,
  check (negb ((vec_len (sf_source_path field) =? 0)%N ||
               (SEARCH_MAX_PATH_SEGMENTS <? vec_len (sf_source_path field))%N))
    "field path must have 1..=16 segments" ≫= λ _,
  forR (λ seg, match seg with
               | PathSegment_Key key => validate_name "path key" key
               | PathSegment_Index _ => Ok tt
               end) (sf_source_path field) ≫= λ _,
  check (negb (negb (sf_indexed field) && negb (sf_stored field) && negb (sf_fast field)))
    "field has no index, store, or fast option" ≫= λ _,
  check (negb (sf_fast field && is_text (sf_kind field))) "text field cannot be fast" ≫= λ _,
  check (negb (is_facet (sf_kind field) && (negb (sf_indexed field) || negb (sf_fast field))))
    "facet field must be indexed and fast" ≫= λ _,
  match sf_kind field with
  | FieldKind_Text tokenizer _ =>
      validate_name "tokenizer" tokenizer ≫= λ _,
      check (bool_decide (tokenizer ∈ ["default"; "raw"; "en_stem"; "whitespace"]))
        "field uses unsupported tokenizer"
  | _ => Ok tt
  end.

Fixpoint validate_fields (names : list string) (fields : list SearchField) : Result unit :=
  match fields with
  | [] => Ok tt
  | field :: fields =>
      validate_field names field ≫= λ _, validate_fields (sf_name field :: names) fields
  end.

(** The loop over [default_search_fields], [defaults] those seen so far. *)
Fixpoint validate_defaults (fields : list SearchField) (defaults : list string) (l : list string) : Result unit :=
  match l with
  | [] => Ok tt
  | name :: l =>
      check (negb (bool_decide (name ∈ defaults))) "duplicate default search field" ≫= λ _,
      match list_find (λ f, sf_name f = name) fields with
      | None => Err (Error_Search "unknown default search field")
      | Some (_, field) =>
          check (sf_indexed field && (is_text (sf_kind field) || is_keyword (sf_kind field)))
            "default search field must be indexed text or keyword" ≫= λ _,
          validate_defaults fields (name :: defaults) l
      end
  end.

Section definitions.
Context `{!Codec SearchIndexDefinition} `{Hashes}.

(** [SearchIndexDefinition::validate]. *)
Definition SearchIndexDefinition_validate (d : SearchIndexDefinition) : Result unit :=
  validate_name "document type" (sd_document_type d) ≫= λ _,
  check (negb ((vec_len (sd_fields d) =? 0)%N || (SEARCH_MAX_FIELDS <? vec_len (sd_fields d))%N))
    "an index must define 1..=64 fields" ≫= λ _,
  validate_fields [] (sd_fields d) ≫= λ _,
  validate_defaults (sd_fields d) [] (sd_default_search_fields d) ≫= λ _,
  check (encoded_len d <=? SEARCH_MAX_DEFINITION_BYTES)%N "encoded index definition exceeds 65536 bytes".

(** [SearchIndexDefinition::definition_hash]. *)
Definition definition_hash (d : SearchIndexDefinition) : Result bytes :=
  SearchIndexDefinition_validate d ≫= λ _, Ok (sha256 (encode d)).
End definitions.

Record SearchIndexGeneration := mkSearchGeneration {
  sg_id : N;
  sg_definition_hash : bytes;
  sg_engine_revision : N;
  sg_definition : SearchIndexDefinition;
}.
#[global] Instance SearchIndexGeneration_eq_dec : EqDecision SearchIndexGeneration.
Proof. solve_decision. Defined.
#[global] Instance SearchIndexGeneration_wf : Wf SearchIndexGeneration := λ g,
  (sg_id g ≤ u64_max)%N ∧ length (sg_definition_hash g) = 32 ∧ (sg_engine_revision g ≤ u32_max)%N ∧
  wf (sg_definition g).

Record SearchIndexRecord := mkSearchRecord {
  sr_name : string;
  sr_active : option SearchIndexGeneration;
  sr_building : option SearchIndexGeneration;
  sr_retiring : list N;
}.
#[global] Instance SearchIndexRecord_eq_dec : EqDecision SearchIndexRecord.
Proof. solve_decision. Defined.
#[global] Instance SearchIndexRecord_wf : Wf SearchIndexRecord := λ r,
  str_ok (sr_name r) ∧ from_option wf True (sr_active r) ∧ from_option wf True (sr_building r) ∧
  node_ids_ok (sr_retiring r).

Record SearchIndexReady := mkSearchReady {
  ry_generation : N;
  ry_definition_hash : bytes;
  ry_engine_revision : N;
  ry_group : GroupId;
  ry_node_id : NodeId;
  ry_voters_log_id : LogId;
  ry_projection_epoch : N;
  ry_source_log_id : LogId;
}.
#[global] Instance SearchIndexReady_eq_dec : EqDecision SearchIndexReady.
Proof. solve_decision. Defined.
#[global] Instance SearchIndexReady_wf : Wf SearchIndexReady := λ r,
  (ry_generation r ≤ u64_max)%N ∧ length (ry_definition_hash r) = 32 ∧ (ry_engine_revision r ≤ u32_max)%N ∧
  wf (ry_group r) ∧ (ry_node_id r ≤ u64_max)%N ∧ wf (ry_voters_log_id r) ∧
  (ry_projection_epoch r ≤ u64_max)%N ∧ wf (ry_source_log_id r).

Section generations.
Context `{!Codec SearchIndexDefinition, !Codec SearchIndexRecord} `{Hashes}.

(** [SearchIndexGeneration::with_revision]. *)
Definition with_revision (id engine_revision : N) (definition : SearchIndexDefinition)
    : Result SearchIndexGeneration :=
  if (id =? 0)%N then Err (Error_Search "index generation must be non-zero")
  else if (engine_revision =? 0)%N then Err (Error_Search "index engine revision must be non-zero")
  else hash ← definition_hash definition; Ok (mkSearchGeneration id hash engine_revision definition).

(** [SearchIndexGeneration::new]. *)
Definition SearchIndexGeneration_new (id : N) (definition : SearchIndexDefinition) : Result SearchIndexGeneration :=
  with_revision id SEARCH_ENGINE_REVISION definition.

(** [SearchIndexGeneration::validate_integrity]. *)
Definition validate_integrity (g : SearchIndexGeneration) : Result unit :=
  if (sg_id g =? 0)%N then Err (Error_Search "index generation must be non-zero")
  else if (sg_engine_revision g =? 0)%N then Err (Error_Search "index engine revision must be non-zero")
  else hash ← definition_hash (sg_definition g);
       check (bool_decide (sg_definition_hash g = hash)) "index definition hash mismatch".

(** [SearchIndexGeneration::validate_identity]. *)
Definition validate_identity (g : SearchIndexGeneration) : Result unit :=
  validate_integrity g ≫= λ _,
  check (sg_engine_revision g =? SEARCH_ENGINE_REVISION)%N "index engine revision is not supported".

(** [SearchIndexRecord::validate]. *)
Definition SearchIndexRecord_validate (r : SearchIndexRecord) : Result unit :=
  validate_index_name (sr_name r) ≫= λ _,
  check (vec_len (sr_retiring r) <=? SEARCH_MAX_RETIRING_GENERATIONS)%N
    "search index has more than 4096 retiring generations" ≫= λ _,
  match sr_active r with Some active => validate_integrity active | None => Ok tt end ≫= λ _,
  match sr_building r with Some building => validate_integrity building | None => Ok tt end ≫= λ _,
  check (encoded_len r <=? SEARCH_MAX_CATALOG_BYTES)%N "encoded search catalog record exceeds 262144 bytes".
End generations.
