(* ===== verification/Query.v ===== *)
(** * Search requests, replies and statistics (src/src/search/definition.rs)

    The query, request, hit and reply types, the statistics that make scores
    comparable across shards, and their validation. A float is its bit pattern;
    [total_cmp] is the standard library's order on it. *)

From S2P Require Import Prelude SortBy BTree Types Codec SearchDef.

Definition SEARCH_REPLY_BODY_BUDGET : N := 31 * 1024 * 1024.
Definition SEARCH_MAX_FAILURE_REASON_BYTES : N := 512.
Definition SEARCH_MAX_SESSIONS : nat := 256.
Definition SEARCH_SESSION_TTL_MS : N := 60000.
Definition SEARCH_MAX_CONCURRENT_GLOBAL : nat := 8.
Definition SEARCH_MAX_CONCURRENT_SHARD : nat := 64.
Definition SEARCH_MAX_FAN_OUT_CONCURRENCY : nat := 64.
Definition SEARCH_MAX_LIMIT : N := 1000.
Definition SEARCH_MAX_WINDOW : N := 1000.

(** ** Requests *)

Inductive GenerationSelection := GenerationSelection_Active | GenerationSelection_Exact (generation : N).

Inductive SearchQuery :=
| SearchQuery_Text (query : string) (fields : list string)
| SearchQuery_MatchAll.

(** The characters of the disabled query syntax. *)
Definition is_query_syntax (b : byte) : bool :=
  existsb (λ c, bool_decide (b = c)) (as_bytes "*?~/[]{}:").

Fixpoint validate_query_fields (unique : list string) (fields : list string) : Result unit :=
  match fields with
  | [] => Ok tt
  | field :: fields =>
      let! _ := validate_name "query field" field in
      let! _ := check (negb (bool_decide (field ∈ unique))) "duplicate query field" in
      validate_query_fields (field :: unique) fields
  end.

(** [SearchQuery::validate]. *)
Definition SearchQuery_validate (q : SearchQuery) : Result unit :=
  match q with
  | SearchQuery_MatchAll => Ok tt
  | SearchQuery_Text query fields =>
      let! _ := check (negb (str_len query =? 0) && (str_len query <=? 4 * 1024))%N "text query must be 1..=4096 bytes" in
      let! _ := check (negb (existsb is_query_syntax (as_bytes query)))
                  "wildcard, fuzzy, regex, range, and field-override syntax is disabled" in
      let! _ := check (vec_len fields <=? SEARCH_MAX_FIELDS)%N "query fields exceed the 64 field limit" in
      validate_query_fields [] fields
  end.

Inductive ScoringMode := ScoringMode_GlobalBm25 | ScoringMode_LocalBm25.
Inductive SearchConsistency := SearchConsistency_Strict | SearchConsistency_Eventual.

Record SortField := mkSortField { so_field : string; so_descending : bool }.

Record SearchRequest := mkSearchRequest {
  sq_index : string;
  sq_generation : GenerationSelection;
  sq_query : SearchQuery;
  sq_limit : N;
  sq_offset : N;
  sq_sort : list SortField;
  sq_scoring : ScoringMode;
  sq_consistency : SearchConsistency;
  sq_allow_partial : bool;
  sq_deadline_ms : N;
}.

(** ** Hits and replies *)

(** A float by its bits. *)
Definition F32 := N.
Definition F64 := N.

(** [f32::total_cmp]: the bits as a signed integer, with the magnitude of a
    negative number inverted. *)
Definition f32_key (bits : F32) : Z :=
  if (bits <? 2147483648)%N then Z.of_N bits else (-1 - (Z.of_N bits - 2147483648))%Z.
Definition total_cmp (a b : F32) : comparison := (f32_key a ?= f32_key b)%Z.

Inductive SortValue :=
| SortValue_U64 (v : N) | SortValue_I64 (v : Z) | SortValue_F64 (v : F64) | SortValue_Bool (v : bool)
| SortValue_String (v : string).

Record StoredField := mkStoredField { fd_name : string; fd_values : list SortValue }.

Record SearchHit := mkSearchHit {
  hit_partition : N;
  hit_key : bytes;
  hit_version : N;
  hit_score : option F32;
  hit_sort_values : list SortValue;
  hit_stored_fields : list StoredField;
}.

Record PartitionFailure := mkPartitionFailure { pf_partition : N; pf_reason : string }.

Record SearchReply := mkSearchReply {
  rp_generation : N;
  rp_definition_hash : bytes;
  rp_hits : list SearchHit;
  rp_total_hits : N;
  rp_partial : bool;
  rp_failed_partitions : list PartitionFailure;
}.

#[global] Instance SortValue_wf : Wf SortValue := λ v,
  match v with
  | SortValue_U64 n => (n ≤ u64_max)%N
  | SortValue_I64 z => (-9223372036854775808 ≤ z < 9223372036854775808)%Z
  | SortValue_F64 b => (b ≤ u64_max)%N
  | SortValue_Bool _ => True
  | SortValue_String s => str_ok s
  end.
#[global] Instance StoredField_wf : Wf StoredField := λ f, str_ok (fd_name f) ∧ vec_len_ok (fd_values f) ∧ Forall wf (fd_values f).
#[global] Instance SearchHit_wf : Wf SearchHit := λ h,
  (hit_partition h ≤ u16_max)%N ∧ vec_len_ok (hit_key h) ∧ (hit_version h ≤ u64_max)%N ∧
  from_option (λ b, (b ≤ u32_max)%N) True (hit_score h) ∧
  (vec_len_ok (hit_sort_values h) ∧ Forall wf (hit_sort_values h)) ∧
  (vec_len_ok (hit_stored_fields h) ∧ Forall wf (hit_stored_fields h)).
#[global] Instance PartitionFailure_wf : Wf PartitionFailure := λ f, (pf_partition f ≤ u16_max)%N ∧ str_ok (pf_reason f).
#[global] Instance SearchReply_wf : Wf SearchReply := λ r,
  (rp_generation r ≤ u64_max)%N ∧ length (rp_definition_hash r) = 32 ∧
  (vec_len_ok (rp_hits r) ∧ Forall wf (rp_hits r)) ∧ (rp_total_hits r ≤ u64_max)%N ∧
  (vec_len_ok (rp_failed_partitions r) ∧ Forall wf (rp_failed_partitions r)).

(** [SearchReply::validate_wire_size]. *)
Definition validate_wire_size `{!Codec SearchReply} (r : SearchReply) : Result unit :=
  check (encoded_len r <=? SEARCH_REPLY_BODY_BUDGET)%N "search reply exceeds the response budget".

(** ** Statistics *)

Record ShardStatistics := mkShardStatistics {
  ss_total_docs : N;
  ss_field_tokens : list (string * N);
  ss_term_doc_freq : list (bytes * N);
}.
#[global] Instance ShardStatistics_wf : Wf ShardStatistics := λ s,
  (ss_total_docs s ≤ u64_max)%N ∧
  (vec_len_ok (ss_field_tokens s) ∧ Forall (λ kv, str_ok kv.1 ∧ (kv.2 ≤ u64_max)%N) (ss_field_tokens s)) ∧
  (vec_len_ok (ss_term_doc_freq s) ∧ Forall (λ kv, vec_len_ok kv.1 ∧ (kv.2 ≤ u64_max)%N) (ss_term_doc_freq s)).
Definition ShardStatistics_default : ShardStatistics := mkShardStatistics 0 [] [].

(** [ShardStatistics::validate]. *)
Definition ShardStatistics_validate `{!Codec ShardStatistics} (s : ShardStatistics) : Result unit :=
  let! _ := check (negb ((SEARCH_MAX_QUERY_TERMS <? vec_len (ss_term_doc_freq s)) ||
                         (SEARCH_MAX_FIELDS + 3 <? vec_len (ss_field_tokens s)))%N)
              "shard statistics exceed the query term or field limit" in
  let! _ := forR (λ kv, validate_name "statistics field" kv.1) (ss_field_tokens s) in
  let! _ := forR (λ kv, check (vec_len kv.1 <=? SEARCH_MAX_TERM_KEY_BYTES)%N "statistics term key is too long")
              (ss_term_doc_freq s) in
  check (encoded_len s <=? SEARCH_MAX_STATISTICS_BYTES)%N "shard statistics exceed the byte limit".

(** [slice::binary_search_by] on a slice sorted by the comparator. *)
Fixpoint binary_search_by {A} (f : A → comparison) (l : list A) : nat + nat :=
  match l with
  | [] => inr 0
  | y :: l =>
      match f y with
      | Lt => match binary_search_by f l with inl i => inl (S i) | inr i => inr (S i) end
      | Eq => inl 0
      | Gt => inr 0
      end
  end.

(** One round of the loop of [merge_sums]. *)
Definition merge_sum {K} (cmp : K → K → comparison) (into : list (K * N)) (kv : K * N) : list (K * N) :=
  match binary_search_by (λ existing, cmp existing.1 kv.1) into with
  | inl at_ => alter (λ e, (e.1, saturating_add u64_max e.2 kv.2)) at_ into
  | inr at_ => vec_insert at_ kv into
  end.
Definition merge_sums {K} (cmp : K → K → comparison) (into from : list (K * N)) : list (K * N) :=
  foldl (merge_sum cmp) into from.

(** [String]'s order is that of its bytes. *)
Definition string_compare (a b : string) : comparison := bytes_compare (as_bytes a) (as_bytes b).

(** [ShardStatistics::merge]. *)
Definition ShardStatistics_merge (s other : ShardStatistics) : ShardStatistics :=
  mkShardStatistics (saturating_add u64_max (ss_total_docs s) (ss_total_docs other))
    (merge_sums string_compare (ss_field_tokens s) (ss_field_tokens other))
    (merge_sums bytes_compare (ss_term_doc_freq s) (ss_term_doc_freq other)).

(** ** Two-phase shard messages *)

Record SearchSessionId := mkSessionId { si_incarnation : N; si_sequence : N }.
#[global] Instance SearchSessionId_eq_dec : EqDecision SearchSessionId.
Proof. solve_decision. Defined.
#[global] Instance SearchSessionId_countable : Countable SearchSessionId.
Proof.
  apply (inj_countable' (λ i, (si_incarnation i, si_sequence i)) (λ p, mkSessionId p.1 p.2)). by intros [].
Defined.

Record ShardPrepareRequest := mkShardPrepareRequest {
  pq_index : string;
  pq_generation : N;
  pq_definition_hash : bytes;
  pq_query : SearchQuery;
  pq_consistency : SearchConsistency;
  pq_window : N;
}.
Record ShardPrepared := mkShardPrepared {
  sp_session_id : SearchSessionId;
  sp_checkpoint_index : N;
  sp_statistics : ShardStatistics;
}.
Inductive ShardPrepareReply :=
| ShardPrepareReply_Prepared (prepared : ShardPrepared)
| ShardPrepareReply_NotLeader (leader : option NodeId)
| ShardPrepareReply_Error (message : string).
Record ShardExecuteRequest := mkShardExecuteRequest { xq_session_id : SearchSessionId; xq_statistics : ShardStatistics }.
Inductive ShardExecuteBody :=
| ShardExecuteBody_Execute (request : ShardExecuteRequest)
| ShardExecuteBody_Release (session_id : SearchSessionId).
Inductive ShardExecuteReply :=
| ShardExecuteReply_Result (reply : SearchReply)
| ShardExecuteReply_UnknownSession
| ShardExecuteReply_Error (message : string).
