(* ===== verification/Coordinator.v ===== *)
(** * The search coordinator (src/src/search/coordinator.rs)

    Scatter/gather over every partition. The shards answer in an order of their
    own and a phase ends at its deadline: an [arrivals] list holds the answers
    of one phase in the order they came in before it. Which lists are possible
    is the step relation [fan_step], the [buffer_unordered] stream with its
    bound on the calls in flight. The coordinator's own code is a function of
    the arrivals, and also returns the sessions it hands to [release_all]. *)

From S2P Require Import Prelude SortBy BTree Types Codec SearchDef Query.

(** ** Merging *)

Definition score_descending (l r : option F32) : comparison :=
  match l, r with
  | Some l, Some r => total_cmp r l
  | Some _, None => Lt
  | None, Some _ => Gt
  | None, None => Eq
  end.

Definition hit_order (l r : SearchHit) : comparison :=
  ordering_then (score_descending (hit_score l) (hit_score r))
    (ordering_then (hit_partition l ?= hit_partition r)%N (bytes_compare (hit_key l) (hit_key r))).

Record ReplyAccumulator := mkAccumulator {
  ra_window : nat;
  ra_total_hits : N;
  ra_hits : list SearchHit;
}.

Definition ReplyAccumulator_new (window : N) : ReplyAccumulator := mkAccumulator (N.to_nat window) 0 [].

(** [ReplyAccumulator::add]. *)
Definition ReplyAccumulator_add (a : ReplyAccumulator) (reply : SearchReply) : ReplyAccumulator :=
  mkAccumulator (ra_window a) (saturating_add u64_max (ra_total_hits a) (rp_total_hits reply))
    (take (ra_window a) (sort_by hit_order (ra_hits a ++ rp_hits reply))).

(** ** Failures *)

(** [Vec::is_empty]. *)
Definition is_empty {A} (l : list A) : bool := match l with [] => true | _ => false end.

(** [str::is_char_boundary]. *)
Definition is_char_boundary (s : bytes) (i : nat) : bool :=
  (i =? 0) || (i =? length s) ||
  match s !! i with Some b => negb (N.leb 128 (Byte.to_N b) && N.ltb (Byte.to_N b) 192) | None => false end.
Fixpoint floor_char_boundary (s : bytes) (i : nat) : nat :=
  if is_char_boundary s i then i else match i with O => O | S i => floor_char_boundary s i end.

Definition bounded_failure_reason (reason : string) : string :=
  let limit := SEARCH_MAX_FAILURE_REASON_BYTES in
  if (str_len reason <=? limit)%N then reason
  else
  let b := as_bytes reason in
  String.string_of_list_byte (take (floor_char_boundary b (N.to_nat (saturating_sub limit 3))) b) +:+ "...".

Definition check_identity (generation : SearchIndexGeneration) (partition : N) (reply : SearchReply)
    : result PartitionFailure unit :=
  if (rp_generation reply =? sg_id generation)%N && bool_decide (rp_definition_hash reply = sg_definition_hash generation)
  then Ok tt
  else Err (mkPartitionFailure partition "shard index identity mismatch").

(** [failures.sort_by_key(|failure| failure.partition)]. *)
Definition sort_failures (failures : list PartitionFailure) : list PartitionFailure :=
  sort_by (λ a b, pf_partition a ?= pf_partition b)%N failures.

(** [shard_failure]; the message abbreviates the list. *)
Definition shard_failure (partitions : N) (failures : list PartitionFailure) : Error :=
  Error_Search (pretty (vec_len failures) +:+ " of " +:+ pretty partitions +:+ " partitions failed").

(** ** One phase *)

Inductive Contribution (T : Type) :=
| Contribution_Value (partition : N) (value : T)
| Contribution_Failed (failure : PartitionFailure).
Arguments Contribution_Value {T} partition value.
Arguments Contribution_Failed {T} failure.

(** [buffer_unordered]: items not yet called, calls in flight, answers so far. *)
Record FanOut (I T : Type) := mkFanOut {
  fo_queue : list I;
  fo_in_flight : list I;
  fo_arrivals : list (I * Result T);
}.
Arguments mkFanOut {I T}.
Arguments fo_queue {I T}.
Arguments fo_in_flight {I T}.
Arguments fo_arrivals {I T}.

Inductive fan_step {I T} (answers : I → Result T → Prop) : FanOut I T → FanOut I T → Prop :=
| fan_call i queue in_flight arrivals : length in_flight < SEARCH_MAX_FAN_OUT_CONCURRENCY →
    fan_step answers (mkFanOut (i :: queue) in_flight arrivals) (mkFanOut queue (i :: in_flight) arrivals)
| fan_answer i queue before after arrivals r : answers i r →
    fan_step answers (mkFanOut queue (before ++ i :: after) arrivals)
      (mkFanOut queue (before ++ after) (arrivals ++ [(i, r)])).

(** The answers one phase over [items] may have received when it ends. *)
Definition schedule {I T} (answers : I → Result T → Prop) (items : list I) (arrivals : list (I * Result T)) : Prop :=
  ∃ queue in_flight, rtc (fan_step answers) (mkFanOut items [] []) (mkFanOut queue in_flight arrivals).

(** [fan_out_over]: a partition that has not answered is reported as a timeout.
    When every item has answered none is outstanding and the deadline did not
    strike. *)
Definition fan_out_over {I T A} (partition : I → N) (items : list I) (arrivals : list (I * Result T))
    (state : A) (consume : A → Contribution T → A) : A :=
  let collect '(outstanding, state) '(item, result) :=
    (bset_difference outstanding [partition item],
     consume state
       match result with
       | Ok value => Contribution_Value (partition item) value
       | Err error => Contribution_Failed (mkPartitionFailure (partition item) (bounded_failure_reason (error_display error)))
       end) in
  let '(outstanding, state) := foldl collect (bset_of_list (partition <$> items), state) arrivals in
  foldl (λ state partition, consume state (Contribution_Failed (mkPartitionFailure partition "search deadline exceeded")))
    state outstanding.

(** The partitions of a coordinator. *)
Definition all_partitions (partitions : N) : list N := N.of_nat <$> seq 0 (N.to_nat partitions).

(** What the shards answer in the phases of one search; the answers of the
    second phase depend on its sessions and statistics. *)
Record Answers := mkAnswers {
  an_search : list (N * Result SearchReply);
  an_prepare : list (N * Result ShardPrepared);
  an_execute : list (N * SearchSessionId) → ShardStatistics → list ((N * SearchSessionId) * Result SearchReply);
}.

Section coordinator.
Context `{!Codec SearchIndexDefinition, !Codec SearchReply, !Codec ShardStatistics} `{Hashes}.
Context (partitions : N) (generation : SearchIndexGeneration).

(** The consumer of shard replies. *)
Definition consume_reply (state : ReplyAccumulator * list PartitionFailure) (outcome : Contribution SearchReply)
    : ReplyAccumulator * list PartitionFailure :=
  let '(replies, failures) := state in
  match outcome with
  | Contribution_Value partition reply =>
      match check_identity generation partition reply with
      | Ok _ => (ReplyAccumulator_add replies reply, failures)
      | Err failure => (replies, failures ++ [failure])
      end
  | Contribution_Failed failure => (replies, failures ++ [failure])
  end.

Definition fan_out_one_shot (window : N) (answers : Answers) : ReplyAccumulator * list PartitionFailure :=
  fan_out_over id (all_partitions partitions) (an_search answers) (ReplyAccumulator_new window, []) consume_reply.

(** The consumer of preparations. *)
Record Prepares := mkPrepares {
  pr_sessions : list (N * SearchSessionId);
  pr_rejected : list (N * SearchSessionId);
  pr_failures : list PartitionFailure;
  pr_global : ShardStatistics;
}.
Definition consume_prepared (st : Prepares) (outcome : Contribution ShardPrepared) : Prepares :=
  match outcome with
  | Contribution_Value partition prepared =>
      match ShardStatistics_validate (sp_statistics prepared) with
      | Err error =>
          mkPrepares (pr_sessions st) (pr_rejected st ++ [(partition, sp_session_id prepared)])
            (pr_failures st ++ [mkPartitionFailure partition (bounded_failure_reason (error_display error))]) (pr_global st)
      | Ok _ =>
          mkPrepares (pr_sessions st ++ [(partition, sp_session_id prepared)]) (pr_rejected st) (pr_failures st)
            (ShardStatistics_merge (pr_global st) (sp_statistics prepared))
      end
  | Contribution_Failed failure =>
      mkPrepares (pr_sessions st) (pr_rejected st) (pr_failures st ++ [failure]) (pr_global st)
  end.

(** The consumer of phase two also collects the sessions that may not have been
    consumed. *)
Definition consume_executed (state : ReplyAccumulator * list PartitionFailure * list N) (outcome : Contribution SearchReply)
    : ReplyAccumulator * list PartitionFailure * list N :=
  let '(rf, unconsumed) := state in
  (consume_reply rf outcome,
   match outcome with
   | Contribution_Value _ _ => unconsumed
   | Contribution_Failed failure => bset_insert (pf_partition failure) unconsumed
   end).

Definition prepare_phase (answers : Answers) : Prepares :=
  fan_out_over id (all_partitions partitions) (an_prepare answers) (mkPrepares [] [] [] ShardStatistics_default) consume_prepared.

(** [fan_out_two_phase], with the sessions it releases. *)
Definition fan_out_two_phase (allow_partial : bool) (window : N) (answers : Answers)
    : Result (ReplyAccumulator * list PartitionFailure) * list (N * SearchSessionId) :=
  let prepared := prepare_phase answers in
  if negb (is_empty (pr_failures prepared)) && negb allow_partial
  then (Err (shard_failure partitions (pr_failures prepared)), pr_rejected prepared ++ pr_sessions prepared)
  else
  let sessions := pr_sessions prepared in
  let '((replies, failures), unconsumed) :=
    fan_out_over fst sessions (an_execute answers sessions (pr_global prepared))
      ((ReplyAccumulator_new window, pr_failures prepared), []) consume_executed in
  let leftover := filter (λ s, s.1 ∈ unconsumed) sessions in
  (Ok (replies, failures), pr_rejected prepared ++ leftover).

(** [SearchCoordinator::merge]. *)
Definition merge (request : SearchRequest) (replies : ReplyAccumulator) (failures : list PartitionFailure)
    : Result SearchReply :=
  let failures := sort_failures failures in
  if negb (is_empty failures) && negb (sq_allow_partial request)
  then Err (shard_failure partitions failures)
  else
  let hits := take (N.to_nat (sq_limit request)) (drop (N.to_nat (sq_offset request)) (ra_hits replies)) in
  let reply := mkSearchReply (sg_id generation) (sg_definition_hash generation) hits (ra_total_hits replies)
                 (negb (is_empty failures)) failures in
  let! _ := validate_wire_size reply in
  Ok reply.

(** The checks of [search_until] before the first call. *)
Definition validate_search (request : SearchRequest) : Result unit :=
  let! _ := validate_identity generation in
  let! _ := check (negb (sq_deadline_ms request =? 0) && (sq_deadline_ms request <=? 60000))%N
              "deadline_ms must be in 1..=60000" in
  let! _ := check (is_empty (sq_sort request)) "field sorting is not implemented" in
  let! _ := SearchQuery_validate (sq_query request) in
  check ((sq_limit request <=? SEARCH_MAX_LIMIT)%N &&
         match checked_add u32_max (sq_offset request) (sq_limit request) with
         | Some window => (window <=? SEARCH_MAX_WINDOW)%N | None => false end)
    "search page exceeds limit or result window".

(** [search_until], with the sessions handed to [release_all]. *)
Definition search_until (request : SearchRequest) (answers : Answers) : Result SearchReply * list (N * SearchSessionId) :=
  match validate_search request with
  | Err error => (Err error, [])
  | Ok _ =>
      let window := (sq_offset request + sq_limit request)%N in
      let '(outcome, released) :=
        match sq_scoring request with
        | ScoringMode_LocalBm25 => (Ok (fan_out_one_shot window answers), [])
        | ScoringMode_GlobalBm25 => fan_out_two_phase (sq_allow_partial request) window answers
        end in
      (let! rf := outcome in merge request rf.1 rf.2, released)
  end.
End coordinator.
