(* ===== verification/CoordinatorProofs.v ===== *)
(** * Correctness of the search coordinator

    A phase folds its consumer over one contribution per partition; keeping the
    best window while replies arrive equals sorting everything at the end; so
    the page a search returns is the page of the ranking over all partitions
    that answered, whatever the order of the answers. *)

From S2P Require Import Prelude SortBy BTree Types Codec SearchDef Query Coordinator.

Lemma nodup_key_inj {A B} (f : A → B) (l : list A) x y : NoDup (f <$> l) → x ∈ l → y ∈ l → f x = f y → x = y.
Proof.
  intros Hnd Hx Hy E. apply list_elem_of_lookup in Hx as [i Hi], Hy as [j Hj].
  assert (i = j) as ->; [|congruence].
  apply (NoDup_lookup _ i j (f x) Hnd); rewrite list_lookup_fmap; [by rewrite Hi|by rewrite Hj, E].
Qed.
(** Collecting a distinguished part of the values of distinct keys. *)
Lemma nodup_omap_key {I T B} (f : T → option B) (l : list (I * T)) : NoDup l.*1 →
  NoDup (omap (λ a, (λ b, (a.1, b)) <$> f a.2) l).*1.
Proof.
  induction l as [|[i r] l IH]; cbn; [constructor|]. intros [Hn Hnd]%NoDup_cons.
  destruct (f r) as [b|]; cbn; [|by apply IH]. constructor; [|by apply IH].
  intros ([i' b'] & -> & Hx)%list_elem_of_fmap. apply list_elem_of_omap in Hx as ([i'' r'] & Hl & E). cbn in E.
  destruct (f r'); cbn in E; [|done]. injection E as <- _. apply Hn. by apply (list_elem_of_fmap_2 fst) in Hl.
Qed.

(** ** Schedules *)

Section schedules.
Context {I T : Type} (answers : I → Result T → Prop).

Lemma fan_reach items (σ : FanOut I T) : rtc (fan_step answers) (mkFanOut items [] []) σ →
  fo_queue σ ++ fo_in_flight σ ++ (fo_arrivals σ).*1 ≡ₚ items ∧
  length (fo_in_flight σ) ≤ SEARCH_MAX_FAN_OUT_CONCURRENCY ∧
  Forall (λ a, answers a.1 a.2) (fo_arrivals σ).
Proof.
  intros Hr. remember (mkFanOut items [] []) as σ0 eqn:E.
  assert (fo_queue σ0 ++ fo_in_flight σ0 ++ (fo_arrivals σ0).*1 ≡ₚ items ∧
    length (fo_in_flight σ0) ≤ SEARCH_MAX_FAN_OUT_CONCURRENCY ∧ Forall (λ a, answers a.1 a.2) (fo_arrivals σ0)) as H0.
  { subst. cbn. rewrite app_nil_r. split_and!; [done|lia|constructor]. }
  clear E. revert H0. induction Hr as [|σ1 σ2 σ3 Hst _ IH]; [done|]. intros (Hp & Hl & Ha). apply IH.
  destruct Hst as [i q f a Hlt|i q bf af a r Hr]; cbn in *.
  - split_and!; [|lia|done]. rewrite <-Hp. by rewrite <-Permutation_middle.
  - rewrite length_app in *. cbn in Hl. rewrite Forall_app, Forall_singleton. split_and!; [|lia|done|done].
    rewrite <-Hp, fmap_app. cbn. solve_Permutation.
Qed.

Lemma schedule_impl (answers' : I → Result T → Prop) items arrivals :
  (∀ i r, i ∈ items → answers i r → answers' i r) → schedule answers items arrivals → schedule answers' items arrivals.
Proof.
  intros Himp (q & f & Hr). exists q, f. revert Hr. generalize (mkFanOut q f arrivals) as σ.
  apply (rtc_ind_r (λ σ, rtc (fan_step answers') (mkFanOut items [] []) σ)); [done|].
  intros σ1 σ2 Hr Hst IH. eapply rtc_r; [exact IH|].
  destruct (fan_reach items σ1 Hr) as [Hp _].
  destruct Hst as [i q' f' a Hlt|i q' bf af a r Ha]; constructor; [done|]. apply Himp; [|done]. cbn in Hp. rewrite <-Hp. set_solver.
Qed.
Lemma schedule_arrivals items arrivals : schedule answers items arrivals →
  arrivals.*1 ⊆+ items ∧ Forall (λ a, answers a.1 a.2) arrivals.
Proof.
  intros (q & f & (Hp & _ & Ha)%fan_reach). cbn in *. split; [|done].
  rewrite <-Hp, app_assoc. apply submseteq_inserts_l, reflexivity.
Qed.
End schedules.

(** ** A phase as a fold *)

Section phase.
Context {I T A : Type} (partition : I → N).

Definition contribution (a : I * Result T) : Contribution T :=
  match a.2 with
  | Ok value => Contribution_Value (partition a.1) value
  | Err error => Contribution_Failed (mkPartitionFailure (partition a.1) (bounded_failure_reason (error_display error)))
  end.
Definition timeout (p : N) : Contribution T := Contribution_Failed (mkPartitionFailure p "search deadline exceeded").
Definition outstanding (items : list I) (arrivals : list (I * Result T)) : list N :=
  filter (λ p, p ∉ partition <$> arrivals.*1) (bset_of_list (partition <$> items)).
Definition contributions (items : list I) (arrivals : list (I * Result T)) : list (Contribution T) :=
  (contribution <$> arrivals) ++ (timeout <$> outstanding items arrivals).

Lemma fan_out_over_fold items arrivals (state : A) (consume : A → Contribution T → A) :
  fan_out_over partition items arrivals state consume = foldl consume state (contributions items arrivals).
Proof.
  unfold fan_out_over, contributions. rewrite foldl_app.
  assert (∀ out st, foldl (λ '(outstanding, state) '(item, result),
      (bset_difference outstanding [partition item], consume state (contribution (item, result)))) (out, st) arrivals =
    (filter (λ p, p ∉ partition <$> arrivals.*1) out, foldl consume st (contribution <$> arrivals))) as Hf.
  { induction arrivals as [|[i r] l IH]; intros out st; cbn [foldl fmap list_fmap].
    - cbn. rewrite filter_id by set_solver. done.
    - rewrite IH. cbn. f_equal. unfold bset_difference. rewrite list_filter_filter. apply filter_ext. set_solver. }
  etrans; [exact (f_equal (λ c : list N * A, let '(o, st) := c in foldl (λ st p, consume st (timeout p)) st o)
                    (Hf (bset_of_list (partition <$> items)) state))|].
  cbn beta iota. fold (outstanding items arrivals). generalize (foldl consume state (contribution <$> arrivals)).
  induction (outstanding items arrivals) as [|p l IH]; intros st; cbn; [done|]. apply IH.
Qed.

(** Every partition contributes exactly once. *)
Definition contributor (c : Contribution T) : N :=
  match c with Contribution_Value p _ => p | Contribution_Failed f => pf_partition f end.
Lemma contributors items arrivals : NoDup (partition <$> items) → arrivals.*1 ⊆+ items →
  contributor <$> contributions items arrivals ≡ₚ partition <$> items.
Proof.
  intros Hnd Hsub. unfold contributions. rewrite fmap_app, <-!list_fmap_compose.
  rewrite (list_fmap_ext (contributor ∘ contribution) (partition ∘ fst)).
  2: { intros ? [i [v|e]] _; done. }
  rewrite (list_fmap_ext (contributor ∘ timeout) id), list_fmap_id by done.
  rewrite list_fmap_compose. unfold outstanding.
  apply (fmap_submseteq partition) in Hsub. revert Hnd Hsub. generalize (partition <$> items) as ps.
  generalize (partition <$> arrivals.*1) as as_. clear. intros arr ps Hnd Hsub.
  apply NoDup_Permutation; [|done|].
  - apply NoDup_app. split_and!.
    + apply submseteq_Permutation in Hsub as [k Hk]. rewrite Hk in Hnd. by apply NoDup_app in Hnd as [? _].
    + intros x Hx Hf. apply list_elem_of_filter in Hf as [? _]. done.
    + apply NoDup_filter, bset_sorted_nodup, bset_of_list_sorted.
  - intros x. rewrite elem_of_app, list_elem_of_filter, elem_of_bset.
    pose proof (elem_of_submseteq arr ps x) as Hx. destruct (decide (x ∈ arr)); naive_solver.
Qed.
End phase.

(** ** The order of hits *)

#[global] Instance comparator_score : Comparator score_descending.
Proof.
  split.
  - intros [a|] [b|]; cbn; try done. unfold total_cmp. by rewrite Z.compare_antisym.
  - intros [a|] [b|] [c|]; cbn; try done. unfold total_cmp. rewrite !Z.compare_le_iff. lia.
Qed.
#[global] Instance comparator_hit : Comparator hit_order.
Proof.
  pose proof (comparator_key hit_score score_descending). pose proof (comparator_key hit_partition N.compare).
  pose proof (comparator_key hit_key bytes_compare).
  pose proof (comparator_then (λ l r, hit_partition l ?= hit_partition r)%N (λ l r, bytes_compare (hit_key l) (hit_key r))).
  apply (comparator_then (λ l r, score_descending (hit_score l) (hit_score r))
    (λ l r, ordering_then (hit_partition l ?= hit_partition r)%N (bytes_compare (hit_key l) (hit_key r)))).
Qed.
Lemma hit_order_eq l r : hit_order l r = Eq → hit_partition l = hit_partition r ∧ hit_key l = hit_key r.
Proof.
  unfold hit_order. destruct (score_descending _ _); cbn; try done.
  destruct (N.compare_spec (hit_partition l) (hit_partition r)); cbn; try done. by intros ?%bytes_compare_eq.
Qed.

(** The hits of one partition, best first. *)
Record ranking (p : N) (hits : list SearchHit) : Prop := {
  rk_sorted : StronglySorted (cmp_le hit_order) hits;
  rk_partition : Forall (λ h, hit_partition h = p) hits;
  rk_keys : NoDup (hit_key <$> hits);
}.

Lemma ranking_unique p hits h h' : ranking p hits → h ∈ hits → h' ∈ hits → hit_key h = hit_key h' → h = h'.
Proof.
  intros [_ _ Hnd] Hh Hh' E. by eapply nodup_key_inj.
Qed.

Section rank.
Context (rank : N → list SearchHit) (Hrank : ∀ p, ranking p (rank p)).

Lemma rank_strict ps : cmp_strict hit_order (ps ≫= rank).
Proof.
  intros h h' (p & Hp & _)%list_elem_of_bind (p' & Hp' & _)%list_elem_of_bind [Ep Ek]%hit_order_eq.
  assert (hit_partition h = p) as <- by (by eapply (proj1 (Forall_forall _ _) (rk_partition _ _ (Hrank p)))).
  assert (hit_partition h' = p') as <- by (by eapply (proj1 (Forall_forall _ _) (rk_partition _ _ (Hrank p')))).
  rewrite <-Ep in Hp'. by eapply ranking_unique.
Qed.

(** The best [n] hits over some partitions. *)
Definition best (n : nat) (ps : list N) : list SearchHit := take n (sort_by hit_order (ps ≫= rank)).

Lemma best_perm n ps qs : ps ≡ₚ qs → best n ps = best n qs.
Proof. intros Hp. unfold best. f_equal. apply (sort_by_unique hit_order); [apply rank_strict|by rewrite Hp]. Qed.

(** Adding the first [n] hits of one more partition to the best [n]. *)
Lemma best_add n ps p : take n (sort_by hit_order (best n ps ++ take n (rank p))) = best n (ps ++ [p]).
Proof.
  assert (∀ x, x ∈ best n ps → x ∈ ps ≫= rank) as Hb.
  { intros x Hx%subseteq_take. by rewrite sort_by_perm in Hx. }
  assert (∀ x, x ∈ take n (rank p) → x ∈ rank p) as Ht by apply subseteq_take.
  pose proof (rank_strict (ps ++ [p])) as Hs. rewrite bind_app in Hs. cbn in Hs. rewrite app_nil_r in Hs.
  rewrite (sort_by_unique hit_order _ (take n (rank p) ++ best n ps)).
  2: { eapply cmp_strict_sub; [|exact Hs]. set_solver. }
  2: { by rewrite Permutation_app_comm. }
  replace (take n (rank p)) with (take n (sort_by hit_order (rank p))).
  2: { f_equal. apply (sort_by_id hit_order); [|apply Hrank]. eapply cmp_strict_sub; [|exact Hs]. set_solver. }
  rewrite (sort_by_cut hit_order); [|eapply cmp_strict_sub; [|exact Hs]; set_solver].
  rewrite (sort_by_unique hit_order (rank p ++ best n ps) (best n ps ++ rank p)).
  2: { eapply cmp_strict_sub; [|exact Hs]. set_solver. }
  2: { by rewrite Permutation_app_comm. }
  unfold best. rewrite (sort_by_cut hit_order); [|done]. rewrite bind_app. cbn. by rewrite app_nil_r.
Qed.
End rank.

(** ** Folding replies *)

Section replies.
Context (generation : SearchIndexGeneration).

Definition identity_ok (reply : SearchReply) : bool :=
  (rp_generation reply =? sg_id generation)%N && bool_decide (rp_definition_hash reply = sg_definition_hash generation).
Definition accepted (cs : list (Contribution SearchReply)) : list (N * SearchReply) :=
  omap (λ c, match c with
             | Contribution_Value p reply => if identity_ok reply then Some (p, reply) else None
             | Contribution_Failed _ => None
             end) cs.
Definition failed (cs : list (Contribution SearchReply)) : list PartitionFailure :=
  omap (λ c, match c with
             | Contribution_Value p reply =>
                 if identity_ok reply then None else Some (mkPartitionFailure p "shard index identity mismatch")
             | Contribution_Failed f => Some f
             end) cs.

Lemma consume_replies cs acc fs :
  foldl (consume_reply generation) (acc, fs) cs = (foldl ReplyAccumulator_add acc (accepted cs).*2, fs ++ failed cs).
Proof.
  revert acc fs. induction cs as [|[p reply|f] cs IH]; intros acc fs; cbn [foldl accepted failed omap list_omap].
  - by rewrite app_nil_r.
  - unfold consume_reply at 2, check_identity. fold (identity_ok reply). destruct (identity_ok reply); rewrite IH; [done|].
    by rewrite <-app_assoc.
  - unfold consume_reply at 2. rewrite IH. by rewrite <-app_assoc.
Qed.
Lemma accepted_failed cs : (accepted cs).*1 ++ (pf_partition <$> failed cs) ≡ₚ contributor <$> cs.
Proof.
  induction cs as [|[p reply|f] cs IH]; cbn; [done|..].
  - destruct (identity_ok reply); cbn; [by f_equiv|]. rewrite <-Permutation_middle. by f_equiv.
  - rewrite <-Permutation_middle. by f_equiv.
Qed.
Lemma elem_of_accepted cs p reply : (p, reply) ∈ accepted cs → Contribution_Value p reply ∈ cs ∧ identity_ok reply = true.
Proof.
  intros (c & Hc & E)%list_elem_of_omap. destruct c as [p' reply'|f]; [|done].
  destruct (identity_ok reply') eqn:Ei; [|done]. by injection E as -> ->.
Qed.

(** The shard's promise about a reply with the right identity: the first
    [window] hits of its partition and the number of all of them. *)
Definition shard_answer (window : N) (hits : list SearchHit) (r : Result SearchReply) : Prop :=
  match r with
  | Ok reply => identity_ok reply = true →
      rp_hits reply = take (N.to_nat window) hits ∧ rp_total_hits reply = N.of_nat (length hits)
  | Err _ => True
  end.

Context (window : N) (rank : N → list SearchHit) (Hrank : ∀ p, ranking p (rank p)).

(** The number of hits of some partitions, at most [u64::MAX]. *)
Definition hits_total (ps : list N) : N := N.min (foldr N.add 0%N ((λ p, N.of_nat (length (rank p))) <$> ps)) u64_max.
Definition answered_acc (ps : list N) : ReplyAccumulator :=
  mkAccumulator (N.to_nat window) (hits_total ps) (best rank (N.to_nat window) ps).

Lemma accumulator_new : ReplyAccumulator_new window = answered_acc [].
Proof. unfold ReplyAccumulator_new, answered_acc, best. cbn. by rewrite take_nil. Qed.
Lemma hits_total_snoc ps p : hits_total (ps ++ [p]) = saturating_add u64_max (hits_total ps) (N.of_nat (length (rank p))).
Proof.
  unfold hits_total, saturating_add. rewrite fmap_app, foldr_app. cbn. rewrite N.add_0_r.
  assert (∀ l a, foldr N.add a l = foldr N.add 0 l + a)%N as Hf.
  { intros l a. induction l as [|x l IH]; cbn; [lia|]. rewrite IH. lia. }
  rewrite Hf. lia.
Qed.
Lemma add_replies replies ps :
  Forall (λ a, shard_answer window (rank a.1) (Ok a.2) ∧ identity_ok a.2 = true) replies →
  foldl ReplyAccumulator_add (answered_acc ps) replies.*2 = answered_acc (ps ++ replies.*1).
Proof.
  revert ps. induction replies as [|[p reply] l IH]; intros ps Hf; rewrite ?fmap_cons; cbn [foldl fst snd].
  { by rewrite app_nil_r. }
  apply Forall_cons in Hf as [[Ha Hi] Hf]. cbn in Ha, Hi. destruct (Ha Hi) as [Eh Et].
  replace (ReplyAccumulator_add (answered_acc ps) reply) with (answered_acc (ps ++ [p])).
  { rewrite IH by done. by rewrite <-app_assoc. }
  unfold ReplyAccumulator_add, answered_acc. cbn [ra_window ra_total_hits ra_hits]. by rewrite Eh, Et, hits_total_snoc, best_add.
Qed.
Lemma answered_perm ps qs : ps ≡ₚ qs → answered_acc ps = answered_acc qs.
Proof.
  intros Hp. unfold answered_acc. f_equal; [|by apply best_perm]. unfold hits_total. f_equal.
  induction Hp; cbn in *; lia.
Qed.

(** A phase of replies, in any order, ends with the best hits of the partitions
    it accepted. *)
Lemma replies_phase {I} (partition : I → N) items arrivals fs :
  NoDup (partition <$> items) → schedule (λ i r, shard_answer window (rank (partition i)) r) items arrivals →
  ∃ answered failures,
    foldl (consume_reply generation) (answered_acc [], fs) (contributions partition items arrivals) =
      (answered_acc answered, fs ++ failures) ∧
    answered ++ (pf_partition <$> failures) ≡ₚ partition <$> items.
Proof.
  intros Hnd [Hsub Ha]%schedule_arrivals. set (cs := contributions partition items arrivals).
  exists (accepted cs).*1, (failed cs). rewrite consume_replies, add_replies. split; [done|].
  - rewrite accepted_failed. by apply contributors.
  - apply Forall_forall. intros [p reply] [Hin Hi]%elem_of_accepted. split; [|done].
    unfold cs, contributions in Hin. rewrite elem_of_app, !list_elem_of_fmap in Hin.
    destruct Hin as [([i [v|e]] & E & Hin)|(? & E & _)]; cbn in E; try done. injection E as -> ->.
    by apply (proj1 (Forall_forall _ _) Ha) in Hin.
Qed.
End replies.

(** ** Summing statistics *)

Section sums.
Context {K : Type} `{Countable K} (cmp : K → K → comparison) `{!Comparator cmp} (cmp_eq : ∀ x y, cmp x y = Eq ↔ x = y).
Implicit Types (l : list (K * N)) (m : gmap K N).

(** [merge_sum] by recursion. *)
Fixpoint sum_into l (kv : K * N) : list (K * N) :=
  match l with
  | [] => [kv]
  | e :: l => match cmp e.1 kv.1 with
              | Lt => e :: sum_into l kv
              | Eq => (e.1, saturating_add u64_max e.2 kv.2) :: l
              | Gt => kv :: e :: l
              end
  end.
Lemma merge_sum_into l kv : merge_sum cmp l kv = sum_into l kv.
Proof.
  unfold merge_sum. induction l as [|e l IH]; cbn; [done|].
  destruct (cmp e.1 kv.1); [done| |done].
  rewrite <-IH. by destruct (binary_search_by _ l).
Qed.

Definition sums_sorted l : Prop := StronglySorted (λ a b, cmp a.1 b.1 = Lt) l.
Definition sum_at m (kv : K * N) : gmap K N :=
  <[kv.1 := match m !! kv.1 with Some v => saturating_add u64_max v kv.2 | None => kv.2 end]> m.

Lemma sum_into_keys l kv x : x ∈ sum_into l kv → x.1 = kv.1 ∨ ∃ y, y ∈ l ∧ y.1 = x.1.
Proof.
  induction l as [|e l IH]; cbn.
  - intros ->%list_elem_of_singleton. by left.
  - destruct (cmp e.1 kv.1); rewrite ?elem_of_cons; intros [->|Hx]; cbn; try (right; exists e; set_solver).
    + right. exists x. set_solver.
    + destruct (IH Hx) as [?|(y & Hy & E)]; [by left|right; exists y; set_solver].
    + by left.
    + right. exists x. set_solver.
Qed.
Lemma cmp_lt_trans x y z : cmp x y = Lt → cmp y z = Lt → cmp x z = Lt.
Proof.
  intros H1 H2. pose proof (cmp_le_trans cmp x y z) as Ht. rewrite H1, H2 in Ht.
  destruct (cmp x z) eqn:E; [|done|by exfalso; apply Ht]. apply cmp_eq in E as ->.
  rewrite (cmp_opp cmp z y), H1 in H2. done.
Qed.
Lemma sum_into_sorted l kv : sums_sorted l → sums_sorted (sum_into l kv).
Proof.
  intros Hl. induction Hl as [|e l Hl IH He]; cbn; [repeat constructor|].
  destruct (cmp e.1 kv.1) eqn:E.
  - constructor; [done|]. by eapply Forall_impl.
  - constructor; [done|]. apply Forall_forall. intros x [->|(y & Hy & <-)]%sum_into_keys; [done|].
    by apply (proj1 (Forall_forall _ _) He).
  - assert (cmp kv.1 e.1 = Lt) as Hlt by (by rewrite (cmp_opp cmp e.1 kv.1), E).
    constructor; [by constructor|]. constructor; [done|].
    eapply Forall_impl; [exact He|]. intros x Hx. by eapply cmp_lt_trans.
Qed.
Lemma sums_sorted_nodup l : sums_sorted l → NoDup l.*1.
Proof.
  intros Hl. induction Hl as [|e l Hl IH He]; cbn; constructor; [|done].
  intros (y & Ey & Hy)%list_elem_of_fmap. apply (proj1 (Forall_forall _ _) He) in Hy. rewrite Ey in Hy.
  by rewrite (proj2 (cmp_eq _ _) eq_refl) in Hy.
Qed.
Lemma sum_into_map l kv : sums_sorted l → list_to_map (sum_into l kv) = sum_at (list_to_map l) kv.
Proof.
  intros Hl. induction Hl as [|e l Hl IH He]; cbn.
  { destruct kv as [k v]. by unfold sum_at. }
  destruct e as [ke ve], kv as [k v]. cbn [fst snd] in *. destruct (cmp ke k) eqn:E.
  - apply cmp_eq in E as ->. unfold sum_at. cbn. rewrite lookup_insert_eq. by rewrite insert_insert_eq.
  - assert (ke ≠ k) as Hne by (intros ->; by rewrite (proj2 (cmp_eq k k) eq_refl) in E).
    cbn. rewrite IH. unfold sum_at. cbn. rewrite lookup_insert_ne by done. by rewrite insert_insert_ne by done.
  - assert ((list_to_map ((ke, ve) :: l) : gmap K N) !! k = None) as Hn.
    { apply not_elem_of_list_to_map. rewrite fmap_cons, elem_of_cons. cbn. intros [->|(y & Ey & Hy)%list_elem_of_fmap].
      - by rewrite (proj2 (cmp_eq _ _) eq_refl) in E.
      - apply (proj1 (Forall_forall _ _) He) in Hy. cbn in Hy. subst k. by rewrite Hy in E. }
    unfold sum_at. cbn. cbn in Hn. by rewrite Hn.
Qed.
Lemma sums_ext l l' : sums_sorted l → sums_sorted l' → (list_to_map l : gmap K N) = list_to_map l' → l = l'.
Proof.
  intros Hl Hl' E. apply (StronglySorted_unique_strong (λ a b, cmp a.1 b.1 = Lt)); [|done..|].
  - intros x y _ _ H1 H2. rewrite (cmp_opp cmp x.1 y.1), H1 in H2. done.
  - rewrite <-(map_to_list_to_map (M := gmap K) l), <-(map_to_list_to_map (M := gmap K) l') by (by apply sums_sorted_nodup).
    by rewrite E.
Qed.
Lemma merge_sums_map from l : sums_sorted l →
  sums_sorted (merge_sums cmp l from) ∧ list_to_map (merge_sums cmp l from) = foldl sum_at (list_to_map l) from.
Proof.
  unfold merge_sums. revert l. induction from as [|kv from IH]; intros l Hl; cbn; [done|].
  rewrite merge_sum_into. rewrite <-(sum_into_map l kv Hl). by apply IH, sum_into_sorted.
Qed.
Lemma sum_at_comm m x y : sum_at (sum_at m x) y = sum_at (sum_at m y) x.
Proof.
  destruct x as [kx vx], y as [ky vy]. unfold sum_at. cbn. destruct (decide (kx = ky)) as [->|Hne].
  - rewrite !lookup_insert_eq, !insert_insert_eq. f_equal. unfold saturating_add. destruct (m !! ky); lia.
  - rewrite !lookup_insert_ne by done. by rewrite insert_insert_ne by done.
Qed.
Lemma merge_sums_perm l from from' : sums_sorted l → from ≡ₚ from' → merge_sums cmp l from = merge_sums cmp l from'.
Proof.
  intros Hl Hp. apply sums_ext; [by apply merge_sums_map..|].
  rewrite !(proj2 (merge_sums_map _ l Hl)). generalize (list_to_map l : gmap K N) as m. clear l Hl.
  induction Hp as [|x a b _ IH|x y a|a b c _ IH1 _ IH2]; intros m; cbn; [done|apply IH|by rewrite sum_at_comm|].
  by rewrite IH1.
Qed.
End sums.

#[global] Instance comparator_string : Comparator string_compare.
Proof. apply (comparator_key as_bytes bytes_compare). Qed.
Lemma string_compare_eq a b : string_compare a b = Eq ↔ a = b.
Proof. unfold string_compare. rewrite bytes_compare_eq. split; [apply as_bytes_inj|by intros ->]. Qed.

Definition stats_sorted (s : ShardStatistics) : Prop :=
  sums_sorted string_compare (ss_field_tokens s) ∧ sums_sorted bytes_compare (ss_term_doc_freq s).
Lemma stats_merge_sorted s o : stats_sorted s → stats_sorted (ShardStatistics_merge s o).
Proof. intros [H1 H2]. split; apply merge_sums_map; auto using string_compare_eq, bytes_compare_eq; apply _. Qed.
Lemma stats_merge_comm s a b : stats_sorted s →
  ShardStatistics_merge (ShardStatistics_merge s a) b = ShardStatistics_merge (ShardStatistics_merge s b) a.
Proof.
  intros [H1 H2]. unfold ShardStatistics_merge, merge_sums. cbn. f_equal.
  - unfold saturating_add. lia.
  - rewrite <-!foldl_app. apply (merge_sums_perm string_compare string_compare_eq); [done|apply Permutation_app_comm].
  - rewrite <-!foldl_app. apply (merge_sums_perm bytes_compare bytes_compare_eq); [done|apply Permutation_app_comm].
Qed.

(** The sum of the statistics of some shards; the order does not matter. *)
Definition sum_stats (l : list ShardStatistics) : ShardStatistics := foldl ShardStatistics_merge ShardStatistics_default l.
Lemma sum_stats_perm l k : l ≡ₚ k → sum_stats l = sum_stats k.
Proof.
  unfold sum_stats. assert (stats_sorted ShardStatistics_default) as Hs by (split; constructor). revert Hs.
  generalize ShardStatistics_default as s. intros s Hs Hp. revert s Hs.
  induction Hp as [|x a b _ IH|x y a|a b c _ IH1 _ IH2]; intros s Hs; cbn.
  - done.
  - by apply IH, stats_merge_sorted.
  - by rewrite stats_merge_comm.
  - rewrite IH1 by done. by apply IH2.
Qed.

(** ** The prepare phase *)

Section prepare.
Context `{!Codec ShardStatistics}.

Definition prepared_ok (cs : list (Contribution ShardPrepared)) : list (N * ShardPrepared) :=
  omap (λ c, match c with
             | Contribution_Value p pr => if is_ok (ShardStatistics_validate (sp_statistics pr)) then Some (p, pr) else None
             | Contribution_Failed _ => None
             end) cs.
Definition prepared_bad (cs : list (Contribution ShardPrepared)) : list (N * ShardPrepared) :=
  omap (λ c, match c with
             | Contribution_Value p pr => if is_ok (ShardStatistics_validate (sp_statistics pr)) then None else Some (p, pr)
             | Contribution_Failed _ => None
             end) cs.
Definition session_of (ppr : N * ShardPrepared) : N * SearchSessionId := (ppr.1, sp_session_id ppr.2).

Lemma consume_prepares cs st : ∃ failures,
  foldl consume_prepared st cs =
    mkPrepares (pr_sessions st ++ (session_of <$> prepared_ok cs)) (pr_rejected st ++ (session_of <$> prepared_bad cs))
      (pr_failures st ++ failures)
      (foldl ShardStatistics_merge (pr_global st) ((λ ppr, sp_statistics ppr.2) <$> prepared_ok cs)) ∧
  (prepared_ok cs).*1 ++ (pf_partition <$> failures) ≡ₚ contributor <$> cs.
Proof.
  revert st. induction cs as [|c cs IH]; intros st; cbn [foldl].
  { exists []. destruct st. cbn. by rewrite !app_nil_r. }
  destruct (IH (consume_prepared st c)) as (fs & E & Hp). rewrite E. clear E IH.
  destruct c as [p pr|f]; cbn [consume_prepared prepared_ok prepared_bad omap list_omap contributor fmap list_fmap].
  - destruct (ShardStatistics_validate (sp_statistics pr)) as [u|e]; cbn [is_ok].
    + exists fs. cbn. rewrite <-app_assoc. split; [done|]. by f_equiv.
    + exists (mkPartitionFailure p (bounded_failure_reason (error_display e)) :: fs). cbn.
      rewrite <-!app_assoc. split; [done|]. rewrite <-Permutation_middle. by f_equiv.
  - exists (f :: fs). cbn. rewrite <-!app_assoc. split; [done|]. rewrite <-Permutation_middle. by f_equiv.
Qed.
Lemma elem_of_prepared cs p pr : (p, pr) ∈ prepared_ok cs ∨ (p, pr) ∈ prepared_bad cs ↔ Contribution_Value p pr ∈ cs.
Proof.
  unfold prepared_ok, prepared_bad. rewrite !list_elem_of_omap. split.
  - intros [([p' pr'|f] & Hc & E)|([p' pr'|f] & Hc & E)]; try done; destruct (is_ok _); try done; by injection E as -> ->.
  - intros Hc. destruct (is_ok (ShardStatistics_validate (sp_statistics pr))) eqn:Ei; [left|right];
      eexists; (split; [done|]); cbn; by rewrite Ei.
Qed.
Lemma prepared_contributors cs : (prepared_ok cs ++ prepared_bad cs).*1 ⊆+ contributor <$> cs.
Proof.
  induction cs as [|[p pr|f] cs IH]; cbn; [done| |by apply submseteq_cons].
  destruct (is_ok _); cbn; [by apply submseteq_skip|].
  rewrite <-Permutation_middle. cbn. by apply submseteq_skip.
Qed.
End prepare.

Lemma elem_of_contributions {I T} (partition : I → N) items arrivals p (v : T) :
  Contribution_Value p v ∈ contributions partition items arrivals ↔ ∃ i, partition i = p ∧ (i, Ok v) ∈ arrivals.
Proof.
  unfold contributions. rewrite elem_of_app, !list_elem_of_fmap. split.
  - intros [([i [w|e]] & E & Hin)|(? & E & _)]; cbn in E; try done. injection E as -> ->. eauto.
  - intros (i & <- & Hin). left. by exists (i, Ok v).
Qed.

(** ** The search *)

Lemma all_partitions_sorted P : bset_sorted (all_partitions P).
Proof.
  unfold all_partitions. generalize 0 as a. induction (N.to_nat P) as [|n IH]; intros a; cbn; [constructor|].
  constructor; [apply IH|]. apply Forall_forall. intros x (i & -> & Hi)%list_elem_of_fmap. apply elem_of_seq in Hi. lia.
Qed.
Lemma all_partitions_nodup P : NoDup (all_partitions P).
Proof. apply bset_sorted_nodup, all_partitions_sorted. Qed.

Section search.
Context `{!Codec SearchIndexDefinition, !Codec SearchReply, !Codec ShardStatistics} `{Hashes}.
Context (P : N) (generation : SearchIndexGeneration).

(** The requested page of the ranking over some partitions. *)
Definition page (rank : N → list SearchHit) (request : SearchRequest) (ps : list N) : list SearchHit :=
  take (N.to_nat (sq_limit request)) (drop (N.to_nat (sq_offset request)) (sort_by hit_order (ps ≫= rank))).
(** The answer over the partitions [answered], all others being [failures]. *)
Definition search_result (rank : N → list SearchHit) (request : SearchRequest) (answered : list N)
    (failures : list PartitionFailure) : Result SearchReply :=
  if negb (is_empty failures) && negb (sq_allow_partial request) then Err (shard_failure P failures)
  else
  let reply := mkSearchReply (sg_id generation) (sg_definition_hash generation) (page rank request answered)
                 (hits_total rank answered) (negb (is_empty failures)) failures in
  let! _ := validate_wire_size reply in Ok reply.
Definition window_of (request : SearchRequest) : N := (sq_offset request + sq_limit request)%N.

Lemma is_empty_perm {A} (l k : list A) : l ≡ₚ k → is_empty l = is_empty k.
Proof. intros Hp%Permutation_length. by destruct l, k. Qed.
Lemma shard_failure_perm fs gs : fs ≡ₚ gs → shard_failure P fs = shard_failure P gs.
Proof. intros Hp%Permutation_length. unfold shard_failure, vec_len. by rewrite Hp. Qed.

Lemma merge_result rank request answered failures : (∀ p, ranking p (rank p)) →
  merge P generation request (answered_acc (window_of request) rank answered) failures =
  search_result rank request answered (sort_failures failures).
Proof.
  intros Hrank. unfold merge, search_result. destruct (_ && _); [done|]. cbn [ra_hits ra_total_hits answered_acc].
  assert (take (N.to_nat (sq_limit request)) (drop (N.to_nat (sq_offset request))
            (best rank (N.to_nat (window_of request)) answered)) = page rank request answered) as ->; [|done].
  unfold page, best, window_of. rewrite !take_drop_commute, take_take. do 2 f_equal. lia.
Qed.

Lemma sort_failures_perm fs : sort_failures fs ≡ₚ fs.
Proof. apply sort_by_perm. Qed.

(** Local scoring. *)
Lemma local_search request answers rank : sq_scoring request = ScoringMode_LocalBm25 →
  validate_search generation request = Ok tt → (∀ p, ranking p (rank p)) →
  schedule (λ p r, shard_answer generation (window_of request) (rank p) r) (all_partitions P) (an_search answers) →
  ∃ answered failures, answered ++ (pf_partition <$> failures) ≡ₚ all_partitions P ∧
    search_until P generation request answers = (search_result rank request answered (sort_failures failures), []).
Proof.
  intros Hm Hv Hrank Hs. unfold search_until. rewrite Hv, Hm. unfold fan_out_one_shot. rewrite fan_out_over_fold.
  destruct (replies_phase generation (window_of request) rank Hrank id (all_partitions P) (an_search answers) [])
    as (answered & failures & E & Hp); [rewrite list_fmap_id; apply all_partitions_nodup|done|].
  rewrite list_fmap_id in Hp. exists answered, failures. split; [done|]. cbn zeta beta iota.
  unfold window_of in E. rewrite (accumulator_new _ rank).
  rewrite E. cbn [rbind fst snd app]. by rewrite merge_result.
Qed.

(** *** Phase one *)

Lemma prepare_phase_spec answers : (an_prepare answers).*1 ⊆+ all_partitions P →
  ∃ ok bad failures,
    prepare_phase P answers = mkPrepares (session_of <$> ok) (session_of <$> bad) failures
      (sum_stats ((λ ppr, sp_statistics ppr.2) <$> ok)) ∧
    ok.*1 ++ (pf_partition <$> failures) ≡ₚ all_partitions P ∧
    (∀ p pr, (p, pr) ∈ ok ∨ (p, pr) ∈ bad ↔ (p, Ok pr) ∈ an_prepare answers) ∧ NoDup (ok ++ bad).*1.
Proof.
  intros Hsub. unfold prepare_phase. rewrite fan_out_over_fold.
  set (cs := contributions _ _ _). destruct (consume_prepares cs (mkPrepares [] [] [] ShardStatistics_default)) as (fs & E & Hp).
  exists (prepared_ok cs), (prepared_bad cs), fs. rewrite E. cbn [pr_sessions pr_rejected pr_failures pr_global app].
  assert (∀ p pr, (p, pr) ∈ prepared_ok cs ∨ (p, pr) ∈ prepared_bad cs ↔ (p, Ok pr) ∈ an_prepare answers) as Hin.
  { intros p pr. rewrite elem_of_prepared. unfold cs. rewrite elem_of_contributions. naive_solver. }
  assert (contributor <$> cs ≡ₚ all_partitions P) as Hc.
  { unfold cs. rewrite contributors, list_fmap_id; [done|rewrite list_fmap_id; apply all_partitions_nodup|done]. }
  assert (NoDup (prepared_ok cs ++ prepared_bad cs).*1) as Hnd.
  { pose proof (prepared_contributors cs) as [k Hk]%submseteq_Permutation. pose proof (all_partitions_nodup P) as Hn.
    rewrite <-Hc, Hk in Hn. by apply NoDup_app in Hn as [? _]. }
  split_and!; [done|by rewrite Hp|done|done].
Qed.
Lemma prepared_stats answers stat (ok bad : list (N * ShardPrepared)) :
  (∀ p pr, (p, pr) ∈ ok ∨ (p, pr) ∈ bad ↔ (p, Ok pr) ∈ an_prepare answers) →
  Forall (λ a, ∀ pr, a.2 = Ok pr → sp_statistics pr = stat a.1) (an_prepare answers) →
  (λ ppr : N * ShardPrepared, sp_statistics ppr.2) <$> ok = stat <$> ok.*1.
Proof.
  intros Hin Ha. rewrite <-list_fmap_compose. apply list_fmap_ext. intros i [p pr] Hi%list_elem_of_lookup_2.
  apply (proj1 (Forall_forall _ _) Ha (p, Ok pr)); [|done]. apply Hin. by left.
Qed.

Definition phase_two (request : SearchRequest) (answers : Answers) : list ((N * SearchSessionId) * Result SearchReply) :=
  let prepared := prepare_phase P answers in
  if negb (is_empty (pr_failures prepared)) && negb (sq_allow_partial request) then []
  else an_execute answers (pr_sessions prepared) (pr_global prepared).

Lemma consume_executes cs rf unconsumed :
  foldl (consume_executed generation) (rf, unconsumed) cs =
  (foldl (consume_reply generation) rf cs,
   foldl (λ u c, match c with Contribution_Value _ _ => u | Contribution_Failed f => bset_insert (pf_partition f) u end) unconsumed cs).
Proof. revert rf unconsumed. induction cs as [|c cs IH]; intros rf u; cbn; [done|]. by rewrite IH. Qed.
Lemma elem_of_unconsumed cs u p :
  p ∈ foldl (λ u (c : Contribution SearchReply),
        match c with Contribution_Value _ _ => u | Contribution_Failed f => bset_insert (pf_partition f) u end) u cs ↔
  p ∈ u ∨ ∃ f, Contribution_Failed f ∈ cs ∧ pf_partition f = p.
Proof.
  revert u. induction cs as [|c cs IH]; intros u; cbn; [set_solver|]. rewrite IH. destruct c; [set_solver|].
  rewrite elem_of_bset_insert. set_solver.
Qed.

Lemma sort_failures_sorted fs : NoDup (pf_partition <$> fs) →
  StronglySorted (λ f g, pf_partition f < pf_partition g)%N (sort_failures fs).
Proof.
  intros Hnd. rewrite <-(sort_failures_perm fs) in Hnd.
  pose proof (comparator_key pf_partition N.compare) as Hc.
  pose proof (sort_by_sorted (λ a b, pf_partition a ?= pf_partition b)%N fs) as Hs. fold (sort_failures fs) in Hs.
  induction Hs as [|f l Hs IH Hf]; constructor; cbn in Hnd; apply NoDup_cons in Hnd as [Hn Hnd]; [by apply IH|].
  apply Forall_forall. intros g Hg. apply (proj1 (Forall_forall _ _) Hf) in Hg as Hle. unfold cmp_le in Hle.
  rewrite N.compare_le_iff in Hle. assert (pf_partition f ≠ pf_partition g); [|lia].
  intros Eq. apply Hn. rewrite Eq. by apply list_elem_of_fmap_2.
Qed.

(** Phase two over the sessions [ok] of phase one. *)
Lemma phase_two_spec request answers rank ok fs stats : (∀ p, ranking p (rank p)) → NoDup ok.*1 →
  schedule (λ s r, shard_answer generation (window_of request) (rank s.1) r) (session_of <$> ok)
    (an_execute answers (session_of <$> ok) stats) →
  ∃ answered failures unconsumed,
    fan_out_over fst (session_of <$> ok) (an_execute answers (session_of <$> ok) stats)
      ((ReplyAccumulator_new (window_of request), fs), []) (consume_executed generation) =
      ((answered_acc (window_of request) rank answered, fs ++ failures), unconsumed) ∧
    answered ++ (pf_partition <$> failures) ≡ₚ ok.*1.
Proof.
  intros Hrank Hnd Hs. rewrite fan_out_over_fold, consume_executes, (accumulator_new _ rank).
  assert (fst <$> (session_of <$> ok) = ok.*1) as Efst by (rewrite <-list_fmap_compose; by apply list_fmap_ext).
  destruct (replies_phase generation (window_of request) rank Hrank fst (session_of <$> ok)
    (an_execute answers (session_of <$> ok) stats) fs) as (ans & fl & E & Hp);
    [by rewrite Efst|exact Hs|].
  rewrite E. rewrite Efst in Hp. eauto.
Qed.

(** The answers that are values. *)
Definition values {I T} (arrivals : list (I * Result T)) : list (I * T) :=
  omap (λ a, (λ v, (a.1, v)) <$> match a.2 with Ok v => Some v | Err _ => None end) arrivals.
Lemma elem_of_values {I T} (arrivals : list (I * Result T)) i v : (i, v) ∈ values arrivals ↔ (i, Ok v) ∈ arrivals.
Proof.
  unfold values. rewrite list_elem_of_omap. split.
  - intros ([i' [w|e]] & Hl & E); [|done]. by injection E as -> ->.
  - intros Hl. by exists (i, Ok v).
Qed.

Lemma values_nodup {I T} (arrivals : list (I * Result T)) : NoDup arrivals.*1 → NoDup (values arrivals).*1.
Proof. apply (nodup_omap_key (λ r : Result T, match r with Ok v => Some v | Err _ => None end)). Qed.

(** The sessions the coordinator learned of. *)
Definition learned (answers : Answers) : list (N * SearchSessionId) := session_of <$> values (an_prepare answers).
Lemma global_search request answers stat rank :
  sq_scoring request = ScoringMode_GlobalBm25 → validate_search generation request = Ok tt →
  (∀ stats p, ranking p (rank stats p)) →
  schedule (λ p r, ∀ pr, r = Ok pr → sp_statistics pr = stat p) (all_partitions P) (an_prepare answers) →
  (∀ sessions stats, sessions ⊆ learned answers →
     schedule (λ s r, shard_answer generation (window_of request) (rank stats s.1) r) sessions (an_execute answers sessions stats)) →
  ∃ prepared answered failures,
    bset_sorted prepared ∧ answered ⊆ prepared ∧ (failures = [] → prepared = all_partitions P) ∧
    StronglySorted (λ f g, pf_partition f < pf_partition g)%N failures ∧
    answered ++ (pf_partition <$> failures) ≡ₚ all_partitions P ∧
    (search_until P generation request answers).1 =
      search_result (rank (sum_stats (stat <$> prepared))) request answered failures.
Proof.
  intros Hm Hv Hrank Hs1 Hs2. apply schedule_arrivals in Hs1 as [Hsub Ha].
  destruct (prepare_phase_spec answers Hsub) as (ok & bad & fs1 & E1 & Hp1 & Hin & _).
  rewrite (prepared_stats _ _ _ _ Hin Ha) in E1.
  pose proof (all_partitions_nodup P) as Hall. rewrite <-Hp1 in Hall. apply NoDup_app in Hall as (Hnd & Hdisj & Hnd1).
  assert (session_of <$> ok ⊆ learned answers) as Hlearn.
  { intros x ([p pr] & -> & Hx)%list_elem_of_fmap. apply (list_elem_of_fmap_2 session_of (values (an_prepare answers)) (p, pr)).
    apply elem_of_values, Hin. by left. }
  assert (bset_of_list ok.*1 ≡ₚ ok.*1) as Hset by (by apply bset_of_list_perm).
  assert (sum_stats (stat <$> bset_of_list ok.*1) = sum_stats (stat <$> ok.*1)) as Est by (apply sum_stats_perm; by rewrite Hset).
  exists (bset_of_list ok.*1). rewrite Est. unfold search_until. rewrite Hv, Hm. unfold fan_out_two_phase. rewrite E1.
  cbn [pr_failures pr_sessions pr_rejected pr_global].
  destruct (negb (is_empty fs1) && negb (sq_allow_partial request)) eqn:Ee.
  - exists ok.*1, (sort_failures fs1). split_and!; [apply bset_of_list_sorted|by rewrite Hset| |by apply sort_failures_sorted| |].
    + intros E. rewrite <-(is_empty_perm _ _ (sort_failures_perm fs1)), E in Ee. done.
    + by rewrite sort_failures_perm.
    + unfold search_result. rewrite (is_empty_perm _ _ (sort_failures_perm fs1)), Ee. cbn.
      by rewrite (shard_failure_perm _ _ (sort_failures_perm fs1)).
  - destruct (phase_two_spec request answers _ ok fs1 _ (Hrank (sum_stats (stat <$> ok.*1))) Hnd
      (Hs2 _ _ Hlearn))
      as (answered & fs2 & unc & E2 & Hp2).
    unfold window_of in E2. rewrite E2. fold (window_of request). cbn [rbind fst snd].
    assert (answered ++ (pf_partition <$> (fs1 ++ fs2)) ≡ₚ all_partitions P) as Hp.
    { rewrite <-Hp1, <-Hp2, fmap_app. solve_Permutation. }
    exists answered, (sort_failures (fs1 ++ fs2)). split_and!.
    + apply bset_of_list_sorted.
    + intros x Hx. rewrite Hset, <-Hp2. set_solver.
    + intros E. apply (f_equal length) in E. rewrite sort_failures_perm, length_app in E. destruct fs1; [|done].
      cbn in Hp1. rewrite app_nil_r in Hp1. apply bset_ext; [apply bset_of_list_sorted|apply all_partitions_sorted|].
      intros x. by rewrite Hset, Hp1.
    + apply sort_failures_sorted. pose proof (all_partitions_nodup P) as Hn. rewrite <-Hp in Hn. by apply NoDup_app in Hn as (_ & _ & ?).
    + by rewrite sort_failures_perm.
    + by rewrite merge_result.
Qed.


(** *** Sessions *)

(** The sessions whose execution answered. *)
Definition executed (request : SearchRequest) (answers : Answers) : list (N * SearchSessionId) :=
  (values (phase_two request answers)).*1.

Lemma learned_sessions answers ok bad : NoDup (an_prepare answers).*1 →
  NoDup (ok ++ bad).*1 → (∀ p pr, (p, pr) ∈ ok ∨ (p, pr) ∈ bad ↔ (p, Ok pr) ∈ an_prepare answers) →
  learned answers ≡ₚ (session_of <$> ok) ++ (session_of <$> bad).
Proof.
  intros Hnd Hnd' Hin. rewrite <-fmap_app. unfold learned. f_equiv. apply NoDup_Permutation.
  - by eapply NoDup_fmap_1, values_nodup.
  - by apply NoDup_fmap_1 in Hnd'.
  - intros [p pr]. by rewrite elem_of_app, Hin, elem_of_values.
Qed.

(** A session is left unconsumed by phase two exactly when its execution did
    not answer. *)
Lemma unconsumed_sessions (sessions : list (N * SearchSessionId)) (arrivals : list ((N * SearchSessionId) * Result SearchReply)) s :
  NoDup sessions.*1 → arrivals.*1 ⊆+ sessions → s ∈ sessions →
  s.1 ∈ foldl (λ u (c : Contribution SearchReply),
    match c with Contribution_Value _ _ => u | Contribution_Failed f => bset_insert (pf_partition f) u end) []
      (contributions fst sessions arrivals) ↔ s ∉ (values arrivals).*1.
Proof.
  intros Hnd Hsub Hs. pose proof (contributors fst sessions arrivals Hnd Hsub) as Hc. rewrite elem_of_unconsumed. split.
  - intros [?|(f & Hf & Ef)]; [set_solver|]. intros ([s' v] & -> & Hin%elem_of_values)%list_elem_of_fmap. cbn in *.
    pose proof (proj2 (elem_of_contributions fst sessions arrivals s'.1 v) (ex_intro _ s' (conj eq_refl Hin))) as Hv.
    assert (NoDup (contributor <$> contributions fst sessions arrivals)) as Hn by (by rewrite Hc).
    pose proof (nodup_key_inj contributor _ _ _ Hn Hf Hv Ef). done.
  - intros Hn. right. assert (s.1 ∈ contributor <$> contributions fst sessions arrivals) as Hin
      by (rewrite Hc; by apply list_elem_of_fmap_2).
    apply list_elem_of_fmap in Hin as ([p v|f] & Ec & Hin); [|by exists f]. exfalso. apply Hn. cbn in Ec. subst p.
    apply elem_of_contributions in Hin as (s' & Es & Hin).
    assert (s' ∈ sessions) as Hs' by (eapply elem_of_submseteq; [|exact Hsub]; by apply (list_elem_of_fmap_2 fst) in Hin).
    rewrite <-(nodup_key_inj fst _ _ _ Hnd Hs' Hs Es). apply (list_elem_of_fmap_2' fst _ (s', v)); [|done]. by apply elem_of_values.
Qed.
Lemma executed_sessions (sessions : list (N * SearchSessionId)) (arrivals : list ((N * SearchSessionId) * Result SearchReply)) :
  NoDup sessions.*1 → arrivals.*1 ⊆+ sessions →
  filter (λ s, s.1 ∈ foldl (λ u (c : Contribution SearchReply),
    match c with Contribution_Value _ _ => u | Contribution_Failed f => bset_insert (pf_partition f) u end) []
      (contributions fst sessions arrivals)) sessions ++ (values arrivals).*1 ≡ₚ sessions.
Proof.
  intros Hnd Hsub. pose proof (unconsumed_sessions sessions arrivals) as Hu.
  assert (NoDup sessions) as Hns by (by apply NoDup_fmap_1 in Hnd).
  assert (NoDup arrivals.*1) as Hna.
  { pose proof Hsub as [k Hk]%submseteq_Permutation. rewrite Hk in Hns. by apply NoDup_app in Hns as [? _]. }
  apply NoDup_Permutation; [|done|].
  - apply NoDup_app. split_and!; [by apply NoDup_filter| |by apply values_nodup].
    intros s [Hs1 Hs2]%list_elem_of_filter. by apply Hu.
  - intros s. rewrite elem_of_app, list_elem_of_filter. destruct (decide (s ∈ (values arrivals).*1)) as [Hs|Hs].
    + split; [|by right]. intros _. apply list_elem_of_fmap in Hs as ([s' v] & -> & Hv%elem_of_values).
      eapply elem_of_submseteq; [|exact Hsub]. by apply (list_elem_of_fmap_2 fst) in Hv.
    + split; [naive_solver|]. intros Hin. left. split; [by apply Hu|done].
Qed.

(** C35: no prepared session is forgotten. Whatever fails and in whatever order
    the shards answer, the sessions the coordinator releases and those whose
    execution answered are together exactly the sessions it learned of in the
    first phase, each once: none is held until it expires because the
    coordinator dropped it, and none is released after it was consumed. *)
Theorem search_sessions_accounted request answers :
  sq_scoring request = ScoringMode_GlobalBm25 → validate_search generation request = Ok tt →
  schedule (λ _ _, True) (all_partitions P) (an_prepare answers) →
  (∀ sessions stats, schedule (λ _ _, True) sessions (an_execute answers sessions stats)) →
  (search_until P generation request answers).2 ++ executed request answers ≡ₚ learned answers.
Proof.
  intros Hm Hv [Hsub _]%schedule_arrivals Hs2. destruct (prepare_phase_spec answers Hsub) as (ok & bad & fs1 & E1 & Hp1 & Hin & Hnd).
  assert (NoDup (an_prepare answers).*1) as Hna.
  { apply submseteq_Permutation in Hsub as [k Hk]. pose proof (all_partitions_nodup P) as Hn.
    rewrite Hk in Hn. by apply NoDup_app in Hn as [? _]. }
  rewrite (learned_sessions _ ok bad) by done. unfold executed, phase_two, search_until. rewrite Hv, Hm. unfold fan_out_two_phase.
  rewrite E1. cbn [pr_failures pr_sessions pr_rejected pr_global].
  destruct (negb (is_empty fs1) && negb (sq_allow_partial request)).
  { cbn. rewrite app_nil_r. apply Permutation_app_comm. }
  rewrite fan_out_over_fold, consume_executes. destruct (foldl (consume_reply generation) _ _) as [replies failures].
  cbn [snd]. rewrite fmap_app in Hnd. apply NoDup_app in Hnd as (Hnd & _ & _).
  rewrite <-app_assoc, executed_sessions; [apply Permutation_app_comm| |eapply schedule_arrivals, Hs2].
  by rewrite <-list_fmap_compose.
Qed.
End search.
