(* ===== verification/Envelope.v ===== *)
(** * Wire envelopes (src/src/transport/codec.rs)

    A frame is a fixed 36-byte little-endian header and a payload. Decoding
    checks length, version, message type, group tag and the limit of the message
    type before it takes the payload. *)

From S2P Require Import Prelude Types SearchDef.

Definition HEADER_LEN : N := 36.
Definition KIB : N := 1024.
Definition MIB : N := 1024 * KIB.
Definition MAX_CONTROL_FRAME_BYTES : N := 64 * MIB + HEADER_LEN.
Definition MAX_BULK_FRAME_BYTES : N := 256 * MIB + HEADER_LEN.
Definition SEARCH_MAX_FRAME_BYTES : N := 32 * 1024 * 1024.
Definition SEARCH_MAX_CATALOG_FRAME_BYTES : N := SEARCH_MAX_INDEXES * SEARCH_MAX_CATALOG_BYTES + 64 * 1024.

Inductive Lane := Lane_Control | Lane_Bulk.
Definition max_frame_bytes (l : Lane) : N :=
  match l with Lane_Control => MAX_CONTROL_FRAME_BYTES | Lane_Bulk => MAX_BULK_FRAME_BYTES end.

Inductive MsgType :=
  | MsgType_ClientOp | MsgType_RaftAppend | MsgType_RaftVote | MsgType_RaftSnapshot | MsgType_MigrationChunk
  | MsgType_MetaQuery | MsgType_Redirect | MsgType_Heartbeat | MsgType_BecomeLearner
  | MsgType_DataConfigObservation | MsgType_JoinRequest | MsgType_LeaveRequest | MsgType_AbortPlanRequest
  | MsgType_BootstrapStatus | MsgType_PlacementQuery | MsgType_DirectoryQuery | MsgType_DataRecoveryFence
  | MsgType_SearchOp | MsgType_SearchPrepare | MsgType_SearchExecute | MsgType_SearchIndexStatus
  | MsgType_SearchCatalogQuery | MsgType_SearchIndexAdmin | MsgType_TransferLeadership | MsgType_MaintenanceQuery
  | MsgType_MaintenanceAck | MsgType_MaintenanceStatus | MsgType_MaintenanceRecoveryAck
  | MsgType_MaintenanceRelease | MsgType_MaintenanceBegin | MsgType_MaintenanceQuiesce | MsgType_MaintenanceVerify
  | MsgType_SequenceInspect.
#[global] Instance MsgType_eq_dec : EqDecision MsgType.
Proof. solve_decision. Defined.

(** [self as u8]. *)
Definition msg_type_tag (t : MsgType) : N :=
  match t with
  | MsgType_ClientOp => 0 | MsgType_RaftAppend => 1 | MsgType_RaftVote => 2 | MsgType_RaftSnapshot => 3
  | MsgType_MigrationChunk => 4 | MsgType_MetaQuery => 5 | MsgType_Redirect => 6 | MsgType_Heartbeat => 7
  | MsgType_BecomeLearner => 8 | MsgType_DataConfigObservation => 9 | MsgType_JoinRequest => 10
  | MsgType_LeaveRequest => 11 | MsgType_AbortPlanRequest => 12 | MsgType_BootstrapStatus => 13
  | MsgType_PlacementQuery => 14 | MsgType_DirectoryQuery => 15 | MsgType_DataRecoveryFence => 16
  | MsgType_SearchOp => 17 | MsgType_SearchPrepare => 18 | MsgType_SearchExecute => 19
  | MsgType_SearchIndexStatus => 20 | MsgType_SearchCatalogQuery => 21 | MsgType_SearchIndexAdmin => 22
  | MsgType_TransferLeadership => 23 | MsgType_MaintenanceQuery => 24 | MsgType_MaintenanceAck => 25
  | MsgType_MaintenanceStatus => 26 | MsgType_MaintenanceRecoveryAck => 27 | MsgType_MaintenanceRelease => 28
  | MsgType_MaintenanceBegin => 29 | MsgType_MaintenanceQuiesce => 30 | MsgType_MaintenanceVerify => 31
  | MsgType_SequenceInspect => 32
  end.

(** [MsgType::from_u8]. *)
Definition from_u8 (v : N) : option MsgType :=
  match v with
  | 0 => Some MsgType_ClientOp | 1 => Some MsgType_RaftAppend | 2 => Some MsgType_RaftVote
  | 3 => Some MsgType_RaftSnapshot | 4 => Some MsgType_MigrationChunk | 5 => Some MsgType_MetaQuery
  | 6 => Some MsgType_Redirect | 7 => Some MsgType_Heartbeat | 8 => Some MsgType_BecomeLearner
  | 9 => Some MsgType_DataConfigObservation | 10 => Some MsgType_JoinRequest | 11 => Some MsgType_LeaveRequest
  | 12 => Some MsgType_AbortPlanRequest | 13 => Some MsgType_BootstrapStatus | 14 => Some MsgType_PlacementQuery
  | 15 => Some MsgType_DirectoryQuery | 16 => Some MsgType_DataRecoveryFence | 17 => Some MsgType_SearchOp
  | 18 => Some MsgType_SearchPrepare | 19 => Some MsgType_SearchExecute | 20 => Some MsgType_SearchIndexStatus
  | 21 => Some MsgType_SearchCatalogQuery | 22 => Some MsgType_SearchIndexAdmin
  | 23 => Some MsgType_TransferLeadership | 24 => Some MsgType_MaintenanceQuery | 25 => Some MsgType_MaintenanceAck
  | 26 => Some MsgType_MaintenanceStatus | 27 => Some MsgType_MaintenanceRecoveryAck
  | 28 => Some MsgType_MaintenanceRelease | 29 => Some MsgType_MaintenanceBegin
  | 30 => Some MsgType_MaintenanceQuiesce | 31 => Some MsgType_MaintenanceVerify
  | 32 => Some MsgType_SequenceInspect
  | _ => None
  end%N.

Definition max_payload (t : MsgType) : N :=
  match t with
  | MsgType_ClientOp => MAX_VALUE_BYTES + 64 * KIB
  | MsgType_RaftAppend => 64 * MIB
  | MsgType_RaftVote => 4 * KIB
  | MsgType_RaftSnapshot | MsgType_MigrationChunk => 256 * MIB
  | MsgType_MetaQuery => MAX_ROUTING_PAYLOAD_BYTES
  | MsgType_Redirect => 64 * KIB
  | MsgType_Heartbeat | MsgType_BecomeLearner | MsgType_DataConfigObservation => 4 * KIB
  | MsgType_JoinRequest | MsgType_LeaveRequest | MsgType_AbortPlanRequest | MsgType_BootstrapStatus
  | MsgType_PlacementQuery => 4 * KIB
  | MsgType_DirectoryQuery => 4 * MIB
  | MsgType_DataRecoveryFence => 4 * KIB
  | MsgType_SearchOp | MsgType_SearchExecute => SEARCH_MAX_FRAME_BYTES
  | MsgType_SearchPrepare | MsgType_SearchIndexStatus => 64 * KIB
  | MsgType_SearchCatalogQuery => SEARCH_MAX_CATALOG_FRAME_BYTES
  | MsgType_SearchIndexAdmin => SEARCH_MAX_DEFINITION_BYTES + 4 * KIB
  | MsgType_TransferLeadership => 4 * KIB
  | MsgType_MaintenanceQuery | MsgType_MaintenanceStatus => 64 * KIB
  | MsgType_MaintenanceAck | MsgType_MaintenanceRecoveryAck | MsgType_MaintenanceRelease | MsgType_MaintenanceBegin
  | MsgType_MaintenanceQuiesce | MsgType_MaintenanceVerify => 4 * KIB
  | MsgType_SequenceInspect => 4 * KIB
  end%N.

Definition is_bulk (t : MsgType) : bool :=
  match t with MsgType_RaftSnapshot | MsgType_MigrationChunk => true | _ => false end.

Definition is_peer_control (t : MsgType) : bool :=
  match t with
  | MsgType_ClientOp | MsgType_MetaQuery | MsgType_Redirect | MsgType_SearchOp | MsgType_SearchCatalogQuery => false
  | _ => true
  end.

Inductive FrameError :=
| FrameError_Truncated (need got : N)
| FrameError_UnsupportedVersion (v : N)
| FrameError_BadMsgType (t : N)
| FrameError_BadGroupId (t : N)
| FrameError_Oversized (msg_type : MsgType) (limit got : N)
| FrameError_TrailingBytes (extra : N).

(** [MsgType::validate_payload_len]. *)
Definition validate_payload_len (t : MsgType) (len : N) : result FrameError unit :=
  let limit := max_payload t in
  if (limit <? len)%N then Err (FrameError_Oversized t limit len) else Ok tt.

Record Envelope := mkEnvelope {
  ev_cluster_id : N;
  ev_msg_type : MsgType;
  ev_group_id : GroupId;
  ev_request_id : N;
  ev_payload : bytes;
}.
#[global] Instance Envelope_wf : Wf Envelope := λ e,
  (ev_cluster_id e ≤ u128_max)%N ∧ wf (ev_group_id e) ∧ (ev_request_id e ≤ u64_max)%N.

Definition byte_len (l : bytes) : N := N.of_nat (length l).

(** [Envelope::encode]. *)
Definition envelope_encode (e : Envelope) : result FrameError bytes :=
  let! _ := validate_payload_len (ev_msg_type e) (byte_len (ev_payload e)) in
  let '(tag, partition) := match ev_group_id e with GroupId_Meta => (0, 0) | GroupId_Data p => (1, p) end%N in
  Ok (le_bytes 4 PROTOCOL_VERSION ++ le_bytes 16 (ev_cluster_id e) ++ le_bytes 1 (msg_type_tag (ev_msg_type e)) ++
      le_bytes 1 tag ++ le_bytes 2 partition ++ le_bytes 8 (ev_request_id e) ++
      le_bytes 4 (byte_len (ev_payload e)) ++ ev_payload e).

(** [bytes\[from..to\]]. *)
Definition slice (from to : nat) (l : bytes) : bytes := take (to - from) (drop from l).

(** [Envelope::decode]. *)
Definition envelope_decode (l : bytes) : result FrameError Envelope :=
  if (byte_len l <? HEADER_LEN)%N then Err (FrameError_Truncated HEADER_LEN (byte_len l))
  else
    let version := le_value (slice 0 4 l) in
    if negb (version =? PROTOCOL_VERSION)%N then Err (FrameError_UnsupportedVersion version)
    else
      let cluster_id := le_value (slice 4 20 l) in
      let msg_byte := le_value (slice 20 21 l) in
      let! msg_type := match from_u8 msg_byte with Some t => Ok t | None => Err (FrameError_BadMsgType msg_byte) end in
      let group_tag := le_value (slice 21 22 l) in
      let partition := le_value (slice 22 24 l) in
      let! group_id := match group_tag with
                       | 0 => Ok GroupId_Meta
                       | 1 => Ok (GroupId_Data partition)
                       | other => Err (FrameError_BadGroupId other)
                       end%N in
      let request_id := le_value (slice 24 32 l) in
      let payload_len := le_value (slice 32 36 l) in
      let limit := max_payload msg_type in
      if (limit <? payload_len)%N then Err (FrameError_Oversized msg_type limit payload_len)
      else
        let finish := (HEADER_LEN + payload_len)%N in
        if (byte_len l <? finish)%N then Err (FrameError_Truncated finish (byte_len l))
        else if (finish <? byte_len l)%N then Err (FrameError_TrailingBytes (byte_len l - finish))
        else Ok (mkEnvelope cluster_id msg_type group_id request_id (slice 36 (N.to_nat finish) l)).

(** ** Framing *)

Lemma from_u8_tag t : from_u8 (msg_type_tag t) = Some t.
Proof. by destruct t. Qed.

Lemma msg_type_tag_byte t : (msg_type_tag t < 256)%N.
Proof. by destruct t. Qed.

Lemma from_u8_Some v t : from_u8 v = Some t → v = msg_type_tag t.
Proof.
  destruct (decide (v ≤ 32)%N) as [Hv|Hv].
  - intros E. assert (v ∈ (N.of_nat <$> seq 0 33)) as Hin.
    { apply list_elem_of_fmap. exists (N.to_nat v). split; [lia|]. apply elem_of_seq. lia. }
    revert E. cbn in Hin. repeat (apply elem_of_cons in Hin as [->|Hin]; [by intros [= <-]|]). by apply not_elem_of_nil in Hin.
  - unfold from_u8. destruct v as [|p]; [lia|]. intros E. exfalso. apply Hv. clear Hv.
    do 6 (try (destruct p as [p|p|]; try done; try (vm_compute; discriminate))).
Qed.

Lemma slice_here n i (x y : bytes) : length x = n → i = n → slice 0 i (x ++ y) = x.
Proof. intros <- ->. unfold slice. rewrite drop_0, Nat.sub_0_r. apply take_app_length. Qed.
Lemma slice_skip n i j (x y : bytes) : length x = n → n ≤ i → slice i j (x ++ y) = slice (i - n) (j - n) y.
Proof.
  intros <- Hi. unfold slice. rewrite drop_app_ge by done. f_equal. lia.
Qed.

Lemma length_slice i j (l : bytes) : j ≤ length l → length (slice i j l) = j - i.
Proof. intros Hj. unfold slice. rewrite length_take, length_drop. lia. Qed.

Lemma slice_rest i j (l : bytes) : length l ≤ j → slice i j l = drop i l.
Proof. intros Hj. unfold slice. apply take_ge. rewrite length_drop. lia. Qed.

Lemma slice_cut i j (l : bytes) : i ≤ j → drop i l = slice i j l ++ drop j l.
Proof. intros Hij. unfold slice. rewrite <-(take_drop (j - i) (drop i l)) at 1. by rewrite drop_drop, Nat.add_comm, Nat.sub_add. Qed.

(** A frame is its fields. *)
Lemma frame_fields (l : bytes) :
  l = slice 0 4 l ++ slice 4 20 l ++ slice 20 21 l ++ slice 21 22 l ++ slice 22 24 l ++ slice 24 32 l ++ slice 32 36 l ++ drop 36 l.
Proof.
  rewrite <-(slice_cut 32 36), <-(slice_cut 24 32), <-(slice_cut 22 24), <-(slice_cut 21 22), <-(slice_cut 20 21),
    <-(slice_cut 4 20), <-(slice_cut 0 4) by lia. done.
Qed.

Lemma le_bytes_slice i j n (l : bytes) : j ≤ length l → j - i = n → le_bytes n (le_value (slice i j l)) = slice i j l.
Proof. intros Hj <-. rewrite <-(length_slice i j l Hj) at 1. apply le_bytes_le_value. Qed.

Lemma slice_value_bound i j n (l : bytes) : j ≤ length l → j - i = n → (le_value (slice i j l) < 256 ^ N.of_nat n)%N.
Proof. intros Hj <-. pose proof (le_value_bound (slice i j l)) as Hb. by rewrite length_slice in Hb. Qed.

(** What a decoded frame looks like. *)
Lemma envelope_decode_ok l e : envelope_decode l = Ok e → ∃ partition,
  l = le_bytes 4 PROTOCOL_VERSION ++ le_bytes 16 (ev_cluster_id e) ++ le_bytes 1 (msg_type_tag (ev_msg_type e)) ++
      le_bytes 1 (match ev_group_id e with GroupId_Meta => 0 | GroupId_Data _ => 1 end)%N ++
      le_bytes 2 partition ++ le_bytes 8 (ev_request_id e) ++ le_bytes 4 (byte_len (ev_payload e)) ++ ev_payload e ∧
  (match ev_group_id e with GroupId_Meta => True | GroupId_Data p => partition = p end) ∧
  wf e ∧ (byte_len (ev_payload e) ≤ max_payload (ev_msg_type e))%N.
Proof.
  unfold envelope_decode. destruct (N.ltb_spec (byte_len l) HEADER_LEN) as [?|Hlen]; [done|].
  unfold byte_len, HEADER_LEN in Hlen. assert (36 ≤ length l) as Hl by lia.
  destruct (N.eqb_spec (le_value (slice 0 4 l)) PROTOCOL_VERSION) as [Hv|]; [|done]. cbn [negb].
  intros (t & Ht & E)%rbind_ok. destruct (from_u8 _) as [t'|] eqn:Et; [|done]. injection Ht as ->.
  apply from_u8_Some in Et. apply rbind_ok in E as (g & Hg & E).
  destruct (N.ltb_spec (max_payload t) (le_value (slice 32 36 l))) as [?|Hlim]; [done|].
  destruct (N.ltb_spec (byte_len l) (HEADER_LEN + le_value (slice 32 36 l))) as [?|Hge]; [done|].
  destruct (N.ltb_spec (HEADER_LEN + le_value (slice 32 36 l)) (byte_len l)) as [?|Hle]; [done|].
  injection E as <-. cbn [ev_cluster_id ev_msg_type ev_group_id ev_request_id ev_payload]. unfold byte_len, HEADER_LEN in *.
  set (p := slice 36 _ l). assert (p = drop 36 l) as Hp.
  { apply slice_rest. lia. }
  assert (N.of_nat (length p) = le_value (slice 32 36 l)) as Hpl by (rewrite Hp, length_drop; lia).
  exists (le_value (slice 22 24 l)). split; [|split; [|split]].
  - rewrite (frame_fields l) at 1. rewrite <-Hv, Hpl, <-Et, Hp. rewrite !le_bytes_slice by lia.
    do 3 f_equal. assert (slice 21 22 l = le_bytes 1 (match g with GroupId_Meta => 0 | GroupId_Data _ => 1 end)%N) as ->; [|done].
    rewrite <-(le_bytes_slice 21 22 1 l) by lia. f_equal.
    destruct (le_value (slice 21 22 l)) as [|[| |]]; by simplify_eq.
  - destruct (le_value (slice 21 22 l)) as [|[| |]]; by simplify_eq.
  - assert (256 ^ N.of_nat 16 = u128_max + 1 ∧ 256 ^ N.of_nat 2 = u16_max + 1 ∧ 256 ^ N.of_nat 8 = u64_max + 1)%N
      as (E16 & E2 & E8) by (by vm_compute).
    pose proof (slice_value_bound 4 20 16 l ltac:(lia) eq_refl). pose proof (slice_value_bound 22 24 2 l ltac:(lia) eq_refl).
    pose proof (slice_value_bound 24 32 8 l ltac:(lia) eq_refl). split_and!; cbn [ev_cluster_id ev_group_id ev_request_id]; [lia| |lia].
    destruct (le_value (slice 21 22 l)) as [|[| |]]; simplify_eq; [done|]. unfold wf, GroupId_wf. lia.
  - lia.
Qed.

Lemma frame_length v c t g p r n (payload : bytes) :
  length (le_bytes 4 v ++ le_bytes 16 c ++ le_bytes 1 t ++ le_bytes 1 g ++ le_bytes 2 p ++ le_bytes 8 r ++ le_bytes 4 n ++ payload)
  = 36 + length payload.
Proof. rewrite !length_app, !length_le_bytes. lia. Qed.

(** A frame of a well-formed envelope, with any partition bytes where the group
    has none, decodes to it. *)
Lemma envelope_decode_frame e partition : wf e → (byte_len (ev_payload e) ≤ max_payload (ev_msg_type e))%N →
  (partition ≤ u16_max)%N → (match ev_group_id e with GroupId_Meta => True | GroupId_Data p => partition = p end) →
  envelope_decode (le_bytes 4 PROTOCOL_VERSION ++ le_bytes 16 (ev_cluster_id e) ++ le_bytes 1 (msg_type_tag (ev_msg_type e)) ++
      le_bytes 1 (match ev_group_id e with GroupId_Meta => 0 | GroupId_Data _ => 1 end)%N ++
      le_bytes 2 partition ++ le_bytes 8 (ev_request_id e) ++ le_bytes 4 (byte_len (ev_payload e)) ++ ev_payload e) = Ok e.
Proof.
  intros (Hc & Hg & Hr) Hlim Hp Hgp. destruct e as [c t g r pl]. cbn [ev_cluster_id ev_msg_type ev_group_id ev_request_id ev_payload] in *.
  set (l := le_bytes 4 _ ++ _). assert (byte_len l = HEADER_LEN + byte_len pl)%N as Hlen.
  { unfold byte_len, l. rewrite frame_length. unfold HEADER_LEN. lia. }
  assert (slice 0 4 l = le_bytes 4 PROTOCOL_VERSION ∧ slice 4 20 l = le_bytes 16 c ∧ slice 20 21 l = le_bytes 1 (msg_type_tag t) ∧
    slice 21 22 l = le_bytes 1 (match g with GroupId_Meta => 0 | GroupId_Data _ => 1 end)%N ∧ slice 22 24 l = le_bytes 2 partition ∧
    slice 24 32 l = le_bytes 8 r ∧ slice 32 36 l = le_bytes 4 (byte_len pl) ∧ drop 36 l = pl) as (E0 & E1 & E2 & E3 & E4 & E5 & E6 & E7).
  { pose proof (frame_fields l) as E. unfold l at 1 in E.
    assert (36 ≤ length l) as Hl by (unfold l; rewrite frame_length; lia).
    repeat (apply app_inj_1 in E as [? E]; [|rewrite length_le_bytes, length_slice by lia; lia]). by split_and!. }
  assert (max_payload t ≤ 256 * MIB)%N as Hmax by (destruct t; by vm_compute).
  assert (256 ^ N.of_nat 16 = u128_max + 1 ∧ 256 ^ N.of_nat 2 = u16_max + 1 ∧ 256 ^ N.of_nat 8 = u64_max + 1 ∧
    256 * MIB < 256 ^ N.of_nat 4 ∧ PROTOCOL_VERSION < 256 ^ N.of_nat 4 ∧ 256 ^ N.of_nat 1 = 256)%N
    as (P16 & P2 & P8 & P4 & Pv & P1) by (by vm_compute).
  pose proof (msg_type_tag_byte t) as Ht. assert (match g with GroupId_Meta => 0 | GroupId_Data _ => 1 end < 256)%N as Htag by (by destruct g).
  clearbody l. unfold envelope_decode. rewrite E0, E1, E2, E3, E4, E5, E6, !le_value_le_bytes_small by lia.
  rewrite Hlen. destruct (N.ltb_spec (HEADER_LEN + byte_len pl) HEADER_LEN); [lia|]. rewrite N.eqb_refl. cbn [negb].
  rewrite from_u8_tag. cbn [rbind].
  destruct (N.ltb_spec (max_payload t) (byte_len pl)); [lia|]. rewrite !N.ltb_irrefl.
  rewrite slice_rest, E7; [|unfold byte_len in Hlen; unfold byte_len; lia]. destruct g as [|q]; [done|by subst q].
Qed.

Lemma lookup_app_middle {A} (pre a b post : list A) i : length a = length b → ¬ (length pre ≤ i < length pre + length a) →
  (pre ++ a ++ post) !! i = (pre ++ b ++ post) !! i.
Proof.
  intros Hab Hi. destruct (decide (i < length pre)); [by rewrite !lookup_app_l|].
  rewrite !(lookup_app_r pre) by lia. rewrite !lookup_app_r by lia. by rewrite Hab.
Qed.

(** C38: framing round trip. The frame written for a well-formed envelope decodes
    to it and fits the size cap of its lane; and every frame the decoder
    accepts carries a well-formed envelope within the limit of its message type
    and is its encoding, except for the two partition bytes a frame of the meta
    group carries for nothing. *)
Theorem envelope_roundtrip :
  (∀ e l, wf e → envelope_encode e = Ok l →
     envelope_decode l = Ok e ∧ (byte_len l ≤ max_frame_bytes (if is_bulk (ev_msg_type e) then Lane_Bulk else Lane_Control))%N) ∧
  (∀ l e, envelope_decode l = Ok e → wf e ∧
     ∃ l', envelope_encode e = Ok l' ∧ length l' = length l ∧
       ∀ i, (ev_group_id e = GroupId_Meta → i ≠ 22 ∧ i ≠ 23) → l' !! i = l !! i).
Proof.
  split.
  - intros e l Hw (u & Hv & E)%rbind_ok. unfold validate_payload_len in Hv.
    destruct (N.ltb_spec (max_payload (ev_msg_type e)) (byte_len (ev_payload e))) as [|Hlim]; [done|].
    assert (∀ t, (HEADER_LEN + max_payload t ≤ max_frame_bytes (if is_bulk t then Lane_Bulk else Lane_Control))%N) as Hcap
      by (intros []; by vm_compute).
    specialize (Hcap (ev_msg_type e)). pose proof Hw as (_ & Hg & _).
    destruct (ev_group_id e) as [|p] eqn:Eg; match type of E with Ok ?x = Ok _ => assert (l = x) as -> by congruence end; (split; [|unfold byte_len in *; rewrite frame_length; unfold HEADER_LEN in *; lia]).
    + pose proof (envelope_decode_frame e 0 Hw Hlim) as Hd. rewrite Eg in Hd. by apply Hd.
    + pose proof (envelope_decode_frame e p Hw Hlim) as Hd. rewrite Eg in Hd. by apply Hd.
  - intros l e (q & -> & Hq & Hw & Hlim)%envelope_decode_ok. split; [done|].
    unfold envelope_encode, validate_payload_len. destruct (N.ltb_spec (max_payload (ev_msg_type e)) (byte_len (ev_payload e))); [lia|].
    cbn [rbind]. destruct (ev_group_id e) as [|p] eqn:Eg; [|subst q; eauto].
    eexists. split; [done|]. split; [by rewrite !frame_length|]. intros i [H1 H2]%(λ f, f eq_refl).
    set (pre := le_bytes 4 PROTOCOL_VERSION ++ le_bytes 16 (ev_cluster_id e) ++ le_bytes 1 (msg_type_tag (ev_msg_type e)) ++ le_bytes 1 0).
    set (post := le_bytes 8 _ ++ _).
    change ((pre ++ le_bytes 2 0 ++ post) !! i = (pre ++ le_bytes 2 q ++ post) !! i).
    apply lookup_app_middle; [by rewrite !length_le_bytes|].
    unfold pre. rewrite !length_app, !length_le_bytes. lia.
Qed.

Definition demo_envelope : Envelope := mkEnvelope 77 MsgType_ClientOp (GroupId_Data 5) 9 [x68; x69].

Lemma envelope_roundtrip_witness : ∃ l, envelope_encode demo_envelope = Ok l ∧ envelope_decode l = Ok demo_envelope.
Proof.
  eexists. split; [vm_compute; reflexivity|]. apply (proj1 envelope_roundtrip); [repeat split; by vm_compute|by vm_compute].
Defined.
