(* ===== verification/Security.v ===== *)
(** * Trust policy (src/src/transport/security.rs)

    Principals with their keys, permissions and client identities; what a policy
    accepted by [TrustPolicy::new] guarantees; the answer to an authentication
    request of the ZeroMQ socket layer. *)

From S2P Require Import Prelude Types.

Inductive Permission :=
| Permission_ClientRead | Permission_ClientWrite | Permission_Search | Permission_PeerRpc | Permission_Operator.
#[global] Instance Permission_eq_dec : EqDecision Permission.
Proof. solve_decision. Defined.

Record Principal := mkPrincipal {
  pr_user_id : string;
  pr_curve_public_key : string;
  pr_permissions : list Permission;
  pr_client_ids : list string;
}.

Record TrustPolicy := mkTrustPolicy {
  tp_cluster_id : N;
  tp_generation : N;
  tp_principals : gmap string Principal;
  tp_curve_keys : gmap string string;
  tp_client_owners : gmap N string;
}.

Definition POLICY_LIMIT : nat := N.to_nat 100000.

(** ** Parsing *)

Definition Z85 : bytes :=
  as_bytes "0123456789abcdefghijklmnopqrstuvwxyzABCDEFGHIJKLMNOPQRSTUVWXYZ.-:+=^!/*?&<>()[]{}@%$#".
Definition z85_digit (c : byte) : option N := (λ x, N.of_nat x.1) <$> list_find (λ d, d = c) Z85.

(** The value of a chunk of digits, folded in 64 bits. *)
Fixpoint z85_value (value : N) (chunk : bytes) : option N :=
  match chunk with
  | [] => Some value
  | c :: chunk => match z85_digit c with Some d => z85_value (value * 85 + d) chunk | None => None end
  end.
Fixpoint z85_chunks (n : nat) (l : bytes) : bool :=
  match n with
  | O => true
  | S n => match z85_value 0 (take 5 l) with Some v => (v <=? u32_max)%N | None => false end && z85_chunks n (drop 5 l)
  end.
(** [is_z85_public_key]. *)
Definition is_z85_public_key (key : string) : bool :=
  let l := as_bytes key in
  (length l =? 40) && forallb (λ c, bool_decide (c ∈ Z85)) l && z85_chunks 8 l.

Definition hex_value (c : byte) : option N :=
  let n := Byte.to_N c in
  if (48 <=? n)%N && (n <=? 57)%N then Some (n - 48)%N
  else if (97 <=? n)%N && (n <=? 102)%N then Some (n - 87)%N
  else if (65 <=? n)%N && (n <=? 70)%N then Some (n - 55)%N
  else None.
(** [u128::from_str_radix(hex, 16)] on hexadecimal digits. *)
Fixpoint parse_hex (acc : N) (l : bytes) : option N :=
  match l with
  | [] => Some acc
  | c :: l => match hex_value c with Some d => parse_hex (acc * 16 + d) l | None => None end
  end.

(** One entry of [client_ids]: the digits after [0x]. *)
Definition parse_client_id (client_id : string) : result string N :=
  match as_bytes client_id with
  | x30 :: x78 :: hex =>
      if (length hex =? 0) || (32 <? length hex) then Err "invalid client id"
      else match parse_hex 0 hex with
           | Some v => if (v <=? u128_max)%N then Ok v else Err "invalid client id"
           | None => Err "invalid client id"
           end
  | _ => Err "client_ids must use 0x-prefixed hexadecimal"
  end.

(** ** Construction *)

(** The loop over a principal's client ids. *)
Fixpoint add_client_ids (user_id : string) (ids : list string) (owners : gmap N string) : result string (gmap N string) :=
  match ids with
  | [] => Ok owners
  | id :: ids =>
      let! parsed := parse_client_id id in
      if POLICY_LIMIT <=? size owners then Err "trust policy exceeds the 100000 client identity cluster limit"
      else if bool_decide (is_Some (owners !! parsed)) then Err "client_id is assigned to multiple principals"
      else add_client_ids user_id ids (<[parsed := user_id]> owners)
  end.

(** One round of the loop over the principals. *)
Definition add_principal (principal : Principal) (policy : TrustPolicy) : result string TrustPolicy :=
  let user_id := pr_user_id principal in
  if bool_decide (user_id = "") || (255 <? String.length user_id) then Err "principal user_id must be 1..=255 bytes"
  else if bool_decide (pr_permissions principal = []) then Err "principal has no permissions"
  else if negb (bool_decide (pr_client_ids principal = [])) && negb (bool_decide (Permission_ClientWrite ∈ pr_permissions principal))
  then Err "principal owns client_ids but lacks client_write permission"
  else if negb (is_z85_public_key (pr_curve_public_key principal)) then Err "CURVE public key must be 40 valid Z85 bytes"
  else
    let! owners := add_client_ids user_id (pr_client_ids principal) (tp_client_owners policy) in
    if bool_decide (is_Some (tp_curve_keys policy !! pr_curve_public_key principal)) then Err "duplicate CURVE public key"
    else if bool_decide (is_Some (tp_principals policy !! user_id)) then Err "duplicate principal user_id"
    else Ok (mkTrustPolicy (tp_cluster_id policy) (tp_generation policy)
               (<[user_id := principal]> (tp_principals policy))
               (<[pr_curve_public_key principal := user_id]> (tp_curve_keys policy)) owners).
Fixpoint add_principals (l : list Principal) (policy : TrustPolicy) : result string TrustPolicy :=
  match l with
  | [] => Ok policy
  | principal :: l => let! policy := add_principal principal policy in add_principals l policy
  end.

(** [TrustPolicy::new]. *)
Definition policy_new (cluster_id generation : N) (principals : list Principal) : result string TrustPolicy :=
  if (generation =? 0)%N then Err "trust policy generation must be non-zero"
  else if POLICY_LIMIT <? length principals then Err "trust policy exceeds the 100000 principal cluster limit"
  else add_principals principals (mkTrustPolicy cluster_id generation ∅ ∅ ∅).

(** ** Queries *)

(** [authorize], [principal_for_curve_key], [owns_client_id]. *)
Definition authorize (policy : TrustPolicy) (user_id : string) (permission : Permission) : option Principal :=
  match tp_principals policy !! user_id with
  | Some p => if bool_decide (permission ∈ pr_permissions p) then Some p else None
  | None => None
  end.
Definition principal_for_curve_key (policy : TrustPolicy) (key : string) : option Principal :=
  match tp_curve_keys policy !! key with Some user_id => tp_principals policy !! user_id | None => None end.
Definition owns_client_id (policy : TrustPolicy) (user_id : string) (client_id : N) : bool :=
  bool_decide (tp_client_owners policy !! client_id = Some user_id).

(** ** What an accepted policy guarantees *)

Definition lists_client_id (p : Principal) (client_id : N) : Prop :=
  ∃ id, id ∈ pr_client_ids p ∧ parse_client_id id = Ok client_id.

Record policy_inv (policy : TrustPolicy) : Prop := {
  pi_user u p : tp_principals policy !! u = Some p → pr_user_id p = u ∧ pr_permissions p ≠ [];
  pi_key k u : tp_curve_keys policy !! k = Some u ↔ ∃ p, tp_principals policy !! u = Some p ∧ pr_curve_public_key p = k;
  pi_owner client_id u : tp_client_owners policy !! client_id = Some u ↔
    ∃ p, tp_principals policy !! u = Some p ∧ lists_client_id p client_id;
  pi_write u p : tp_principals policy !! u = Some p → pr_client_ids p ≠ [] → Permission_ClientWrite ∈ pr_permissions p;
  pi_bound client_id u : tp_client_owners policy !! client_id = Some u → (client_id ≤ u128_max)%N;
}.

Lemma parse_client_id_bound id v : parse_client_id id = Ok v → (v ≤ u128_max)%N.
Proof.
  unfold parse_client_id. destruct (as_bytes id) as [|a [|b hex]]; repeat case_match; try done; intros [= <-];
    by apply N.leb_le.
Qed.

Lemma add_client_ids_spec user_id ids owners owners' : add_client_ids user_id ids owners = Ok owners' →
  (∀ client_id u, owners' !! client_id = Some u ↔
     owners !! client_id = Some u ∨ (u = user_id ∧ ∃ id, id ∈ ids ∧ parse_client_id id = Ok client_id)) ∧
  (∀ client_id, (∃ id, id ∈ ids ∧ parse_client_id id = Ok client_id) → owners !! client_id = None).
Proof.
  revert owners. induction ids as [|id ids IH]; intros owners; cbn.
  { intros [= <-]. split; [|by intros ? (? & ?%elem_of_nil & _)]. intros client_id u. split; [by left|].
    intros [?|(_ & ? & ?%elem_of_nil & _)]; done. }
  intros (parsed & Ep & E)%rbind_ok. destruct (_ <=? _); [done|]. case_bool_decide as Hd; [done|].
  apply eq_None_not_Some in Hd. apply IH in E as [Hs Hn]. split.
  - intros client_id u. rewrite Hs, lookup_insert_Some. split.
    + intros [[[<- <-]|[Hne ?]]|(-> & i & Hi & ?)]; [|by left|]; right.
      * split; [done|]. exists id. split; [by left|done].
      * split; [done|]. exists i. split; [by right|done].
    + intros [Ho|(-> & i & [->|Hi]%elem_of_cons & Ei)]; [|rewrite Ep in Ei; injection Ei as <-; by left; left|right; by eauto].
      destruct (decide (parsed = client_id)) as [->|]; [congruence|]. left. by right.
  - intros client_id (i & [->|Hi]%elem_of_cons & Ei); [rewrite Ep in Ei; by injection Ei as <-|].
    specialize (Hn client_id ltac:(eauto)). by apply lookup_insert_None in Hn as [? _].
Qed.

Lemma add_principal_inv principal policy policy' : policy_inv policy → add_principal principal policy = Ok policy' → policy_inv policy'.
Proof.
  intros [Hu Hk Ho Hw Hb]. unfold add_principal. destruct (_ || _); [done|]. case_bool_decide as Hp; [done|].
  destruct (_ && _) eqn:Ec; [done|]. destruct (negb (is_z85_public_key _)); [done|]. intros (owners & Ea & E)%rbind_ok.
  destruct (bool_decide_reflect (is_Some (tp_curve_keys policy !! pr_curve_public_key principal))) as [|Hkey]; [done|].
  destruct (bool_decide_reflect (is_Some (tp_principals policy !! pr_user_id principal))) as [|Huser]; [done|]. injection E as <-.
  apply eq_None_not_Some in Hkey, Huser. apply add_client_ids_spec in Ea as [Hs Hn].
  set (u0 := pr_user_id principal) in *. constructor; cbn.
  - intros u p [[<- <-]|[_ ?]]%lookup_insert_Some; [done|by apply Hu].
  - intros k u. rewrite lookup_insert_Some, Hk. split.
    + intros [[<- <-]|[Hne (p & Hp' & Ek)]]; [exists principal; by rewrite lookup_insert_eq|].
      exists p. rewrite lookup_insert_ne by congruence. done.
    + intros (p & [[<- <-]|[Hne Hp']]%lookup_insert_Some & <-); [by left|right]. split; [|by eauto].
      intros E. assert (tp_curve_keys policy !! pr_curve_public_key p = Some u) as Hx by (apply Hk; eauto). congruence.
  - intros client_id u. rewrite Hs, Ho. split.
    + intros [(p & Hp' & ?)|(-> & Hl)]; [|exists principal; by rewrite lookup_insert_eq].
      exists p. rewrite lookup_insert_ne by congruence. done.
    + intros (p & [[<- <-]|[Hne Hp']]%lookup_insert_Some & Hl); [by right|left; eauto].
  - intros u p [[<- <-]|[_ ?]]%lookup_insert_Some Hne; [|by eapply Hw].
    rewrite bool_decide_false in Ec by done. cbn in Ec. by apply negb_false_iff, bool_decide_eq_true in Ec.
  - intros client_id u [?|(_ & id & _ & ?)]%Hs; [by eapply Hb|by eapply parse_client_id_bound].
Qed.

Lemma add_principals_inv l policy policy' : policy_inv policy → add_principals l policy = Ok policy' → policy_inv policy'.
Proof.
  revert policy. induction l as [|principal l IH]; intros policy Hi; cbn; [by intros [= <-]|].
  intros (t & E & E')%rbind_ok. eapply IH; [|done]. by eapply add_principal_inv.
Qed.

Lemma policy_new_inv cluster_id generation principals policy : policy_new cluster_id generation principals = Ok policy → policy_inv policy.
Proof.
  unfold policy_new. case_match; [done|]. case_match; [done|].
  assert (policy_inv (mkTrustPolicy cluster_id generation ∅ ∅ ∅)) as Hi.
  { constructor; cbn.
    - by intros u p ?%lookup_empty_Some.
    - intros k u. rewrite lookup_empty. split; [done|]. by intros (p & ?%lookup_empty_Some & _).
    - intros k u. rewrite lookup_empty. split; [done|]. by intros (p & ?%lookup_empty_Some & _).
    - by intros u p ?%lookup_empty_Some.
    - by intros client_id u ?%lookup_empty_Some. }
  by apply add_principals_inv.
Qed.

(** In every policy that [TrustPolicy::new] accepts, a client identity
    belongs to exactly the one principal that lists it, and that principal may
    write; a key resolves to exactly the one principal provisioned with it. *)
Theorem policy_well_formed cluster_id generation principals policy :
  policy_new cluster_id generation principals = Ok policy →
  (∀ u client_id, owns_client_id policy u client_id = true ↔
     ∃ p, tp_principals policy !! u = Some p ∧ lists_client_id p client_id) ∧
  (∀ u u' client_id, owns_client_id policy u client_id = true → owns_client_id policy u' client_id = true → u = u') ∧
  (∀ u client_id, owns_client_id policy u client_id = true → is_Some (authorize policy u Permission_ClientWrite)) ∧
  (∀ k p, principal_for_curve_key policy k = Some p ↔ tp_principals policy !! pr_user_id p = Some p ∧ pr_curve_public_key p = k) ∧
  ∀ u p, tp_principals policy !! u = Some p → ∃ permission, authorize policy u permission = Some p.
Proof.
  intros [Hu Hk Ho Hw Hb]%policy_new_inv. unfold owns_client_id. split_and!.
  - intros u client_id. by rewrite bool_decide_eq_true, Ho.
  - intros u u' client_id. rewrite !bool_decide_eq_true. congruence.
  - intros u client_id. rewrite bool_decide_eq_true. intros (p & Hp & id & Hid & _)%Ho. unfold authorize. rewrite Hp.
    rewrite bool_decide_true; [by eexists|]. eapply Hw; [done|]. intros E. rewrite E in Hid. by apply elem_of_nil in Hid.
  - intros k p. unfold principal_for_curve_key. split.
    + destruct (tp_curve_keys policy !! k) as [u|] eqn:E; [|done]. apply Hk in E as (p' & Hp' & <-). intros Hp.
      rewrite Hp' in Hp. injection Hp as ->. by destruct (Hu _ _ Hp') as [-> _].
    + intros [Hp <-]. assert (tp_curve_keys policy !! pr_curve_public_key p = Some (pr_user_id p)) as -> by (apply Hk; eauto). done.
  - intros u p Hp. destruct (Hu _ _ Hp) as [_ Hne]. unfold authorize. rewrite Hp.
    destruct (pr_permissions p) as [|x l]; [done|]. exists x. by rewrite bool_decide_true by set_solver.
Qed.

Definition demo_key : string := "0000000000000000000000000000000000000000".
Definition demo_principals : list Principal := [mkPrincipal "app:orders" demo_key [Permission_ClientWrite] ["0x1f"]].

Lemma policy_well_formed_witness : ∃ policy, policy_new 7 1 demo_principals = Ok policy ∧
  is_Some (authorize policy "app:orders" Permission_ClientWrite).
Proof.
  destruct (policy_new 7 1 demo_principals) as [policy|] eqn:E; [|vm_compute in E; discriminate E].
  exists policy. split; [reflexivity|]. destruct (policy_well_formed 7 1 demo_principals policy E) as (Hown & _ & Hw & _).
  apply (Hw _ 31%N). vm_compute in E. injection E as <-. reflexivity.
Defined.
