(* ===== verification/Keyspace.v ===== *)
(** * Key layout (src/src/keyspace.rs)

    The byte keys of a group's state column family and of the node-local
    records in the default column family. *)

From S2P Require Import Prelude BTree Types.

(** ** State-CF keys: a one-byte tag, then the record's own encoding *)

Definition TAG_INTERNAL : byte := x00.
Definition TAG_USER : byte := x01.
Definition TAG_SEQ : byte := x02.
Definition TAG_META : byte := x03.

(** [name_len_prefix]: the length truncated to [u32], big-endian. *)
Definition name_len_prefix (name : string) : bytes :=
  be_bytes 4 (N.of_nat (String.length name) mod 2 ^ 32).

Definition last_applied_key : bytes := [TAG_INTERNAL; x4c].
Definition raft_applied_key : bytes := [TAG_INTERNAL; x52].
Definition recovery_epoch_key : bytes := [TAG_INTERNAL; x45].

Definition local_recovery_epoch_key : bytes := as_bytes "local/recovery_epoch".
Definition local_restored_epoch_key : bytes := as_bytes "local/restored_epoch".

Definition user_key (key : bytes) : bytes := TAG_USER :: key.
Definition seq_key (client_id : N) : bytes := TAG_SEQ :: be_bytes 16 client_id.

Definition meta_cluster_key : bytes := [TAG_META; x43].
Definition meta_maintenance_key : bytes := [TAG_META; x4d].
Definition meta_node_key (node_id : NodeId) : bytes := [TAG_META; x4e] ++ be_bytes 8 node_id.
Definition meta_node_prefix : bytes := [TAG_META; x4e].
Definition meta_retired_node_key (node_id : NodeId) : bytes := [TAG_META; x58] ++ be_bytes 8 node_id.
Definition local_retired_key : bytes := as_bytes "local/retired".
Definition meta_placement_key (group : GroupId) : bytes := [TAG_META; x50] ++ as_bytes (token group).

Definition meta_search_index_prefix : bytes := [TAG_META; x53].
Definition meta_search_index_key (name : string) : bytes :=
  meta_search_index_prefix ++ name_len_prefix name ++ as_bytes name.
Definition meta_search_ready_prefix (name : string) (generation : N) : bytes :=
  [TAG_META; x73] ++ name_len_prefix name ++ as_bytes name ++ be_bytes 8 generation.
Definition meta_search_ready_key (name : string) (generation : N) (group : GroupId) (node_id : NodeId) : bytes :=
  meta_search_ready_prefix name generation ++
  match group with
  | GroupId_Data partition => x01 :: be_bytes 2 partition
  | GroupId_Meta => [x00; x00; x00]
  end ++ be_bytes 8 node_id.

(** ** Node-local default-CF keys *)

Definition identity_key : bytes := as_bytes "local/identity".
Definition heartbeat_incarnation_key : bytes := as_bytes "local/heartbeat_incarnation".
Definition search_session_incarnation_key : bytes := as_bytes "local/search_session_incarnation".
Definition state_cf_pointer_prefix : bytes := as_bytes "local/state_cf/".
Definition state_cf_pointer_key (group : GroupId) : bytes := state_cf_pointer_prefix ++ as_bytes (token group).
Definition state_cf_generation_key (group : GroupId) : bytes :=
  as_bytes "local/state_cf_generation/" ++ as_bytes (token group).
Definition registration_binding_key : bytes := as_bytes "local/registration_binding".
Definition maintenance_fence_key : bytes := as_bytes "local/maintenance_fence".
Definition serving_prefix : bytes := as_bytes "local/serving/".
Definition serving_key (group : GroupId) : bytes := as_bytes ("local/serving/" +:+ token group).
Definition admission_key (group : GroupId) : bytes := as_bytes ("local/admission/" +:+ token group).
Definition pending_report_key (group : GroupId) : bytes := as_bytes ("local/pending_report/" +:+ token group).
Definition bootstrap_key (group : GroupId) : bytes := as_bytes ("local/bootstrap/" +:+ token group).

Definition search_prefix (group : GroupId) : bytes := as_bytes ("local/search/" +:+ token group +:+ "/").
Definition search_epoch_key (group : GroupId) : bytes := search_prefix group ++ as_bytes "epoch".
Definition search_outbox_prefix (group : GroupId) : bytes := search_prefix group ++ as_bytes "outbox/".
Definition search_outbox_epoch_prefix (group : GroupId) (epoch : N) : bytes :=
  search_outbox_prefix group ++ be_bytes 8 epoch.
Definition search_consumer_prefix (group : GroupId) : bytes := search_prefix group ++ as_bytes "consumer/".
Definition search_consumer_key (group : GroupId) (name : string) (generation : N) : bytes :=
  search_consumer_prefix group ++ name_len_prefix name ++ as_bytes name ++ be_bytes 8 generation.

Definition consumer_key_corrupt (detail : string) : Error := Error_Corrupt "search consumer key" detail.

(** [decode_search_consumer_key]. *)
Definition decode_search_consumer_key (group : GroupId) (key : bytes) : Result (string * N) :=
  rest ← ok_or (strip_prefix (search_consumer_prefix group) key)
           (consumer_key_corrupt "key has the wrong group prefix");
  len_bytes ← ok_or (slice 0 4 rest) (consumer_key_corrupt "key is truncated");
  let name_len := be_value len_bytes in
  name ← ok_or (slice 4 (4 + name_len) rest) (consumer_key_corrupt "name runs past the key");
  generation ← ok_or (slice (4 + name_len) (4 + name_len + 8) rest)
                 (consumer_key_corrupt "key has no generation");
  name ← ok_or (from_utf8 name) (consumer_key_corrupt "name is not UTF-8");
  Ok (name, be_value generation).

(** ** The layout is injective and its namespaces are disjoint *)

Lemma user_key_inj k k' : user_key k = user_key k' → k = k'.
Proof. by intros [= ->]. Qed.

Lemma seq_key_inj c d : (c ≤ u128_max)%N → (d ≤ u128_max)%N → seq_key c = seq_key d → c = d.
Proof.
  intros Hc Hd E. apply (app_inv_head [TAG_SEQ]) in E. apply (be_bytes_inj 16) in E; [done| |];
    change (256 ^ N.of_nat 16)%N with (u128_max + 1)%N; lia.
Qed.

Lemma be8_inj c d : (c ≤ u64_max)%N → (d ≤ u64_max)%N → be_bytes 8 c = be_bytes 8 d → c = d.
Proof.
  intros Hc Hd E. apply (be_bytes_inj 8) in E; [done| |];
    change (256 ^ N.of_nat 8)%N with (u64_max + 1)%N; lia.
Qed.

Lemma be2_inj c d : (c ≤ u16_max)%N → (d ≤ u16_max)%N → be_bytes 2 c = be_bytes 2 d → c = d.
Proof.
  intros Hc Hd E. apply (be_bytes_inj 2) in E; [done| |];
    change (256 ^ N.of_nat 2)%N with (u16_max + 1)%N; lia.
Qed.

Lemma meta_node_key_inj c d :
  (c ≤ u64_max)%N → (d ≤ u64_max)%N → meta_node_key c = meta_node_key d → c = d.
Proof. intros ?? E. apply app_inv_head in E. by apply be8_inj. Qed.

Lemma meta_retired_node_key_inj c d :
  (c ≤ u64_max)%N → (d ≤ u64_max)%N → meta_retired_node_key c = meta_retired_node_key d → c = d.
Proof. intros ?? E. apply app_inv_head in E. by apply be8_inj. Qed.

Lemma meta_placement_key_inj g h : meta_placement_key g = meta_placement_key h → g = h.
Proof. intros E. apply app_inv_head in E. by apply token_inj, as_bytes_inj. Qed.

(** The length prefix is exact below [2 ^ 32], the bound [validate_name] enforces. *)
Lemma be_value_name_len_prefix name :
  (N.of_nat (String.length name) ≤ u32_max)%N →
  be_value (name_len_prefix name) = N.of_nat (String.length name).
Proof.
  intros Hn. unfold name_len_prefix. unfold u32_max in Hn. rewrite N.mod_small by lia.
  apply be_value_be_bytes_small. change (256 ^ N.of_nat 4)%N with (2 ^ 32)%N. lia.
Qed.

Lemma length_name_len_prefix name : length (name_len_prefix name) = 4.
Proof. apply length_be_bytes. Qed.

(** A length-prefixed name followed by anything determines both. *)
Lemma named_key_inj a b r r' :
  (N.of_nat (String.length a) ≤ u32_max)%N → (N.of_nat (String.length b) ≤ u32_max)%N →
  name_len_prefix a ++ as_bytes a ++ r = name_len_prefix b ++ as_bytes b ++ r' → a = b ∧ r = r'.
Proof.
  intros Ha Hb E. apply app_inj_length in E as [E1 E2]; [|by rewrite !length_name_len_prefix].
  apply (f_equal be_value) in E1. rewrite !be_value_name_len_prefix in E1 by done.
  apply app_inj_length in E2 as [E2 ->]; [|rewrite !length_as_bytes; lia].
  by apply as_bytes_inj in E2 as ->.
Qed.

Lemma meta_search_index_key_inj a b : meta_search_index_key a = meta_search_index_key b → a = b.
Proof.
  intros E. unfold meta_search_index_key in E. apply app_inv_head in E.
  apply app_inj_length in E as [_ E]; [|by rewrite !length_name_len_prefix]. by apply as_bytes_inj in E.
Qed.

Lemma meta_search_ready_key_inj a b ga gb g h n m :
  (N.of_nat (String.length a) ≤ u32_max)%N → (N.of_nat (String.length b) ≤ u32_max)%N →
  (ga ≤ u64_max)%N → (gb ≤ u64_max)%N → wf g → wf h → (n ≤ u64_max)%N → (m ≤ u64_max)%N →
  meta_search_ready_key a ga g n = meta_search_ready_key b gb h m →
  a = b ∧ ga = gb ∧ g = h ∧ n = m.
Proof.
  intros Ha Hb Hga Hgb Hg Hh Hn Hm E. unfold meta_search_ready_key, meta_search_ready_prefix in E.
  rewrite <-!(assoc_L (++)) in E. apply app_inv_head in E.
  apply named_key_inj in E as [-> E]; [|done..].
  apply app_inj_length in E as [E1 E]; [|by rewrite !length_be_bytes].
  apply be8_inj in E1 as ->; [|done..].
  apply app_inj_length in E as [E2 E].
  2: { destruct g, h; simpl; by rewrite ?length_be_bytes. }
  apply be8_inj in E as ->; [|done..].
  destruct g as [|p], h as [|q]; [done..|].
  apply (app_inv_head [x01]) in E2. by apply be2_inj in E2 as ->.
Qed.

(** [decode_search_consumer_key] inverts [search_consumer_key]. *)
Lemma decode_search_consumer_key_ok g name generation :
  utf8_string name → (N.of_nat (String.length name) ≤ u32_max)%N → (generation ≤ u64_max)%N →
  decode_search_consumer_key g (search_consumer_key g name generation) = Ok (name, generation).
Proof.
  intros Hu Hl Hg. unfold decode_search_consumer_key, search_consumer_key.
  rewrite strip_prefix_app. cbn [ok_or mbind result_bind rbind].
  pose proof (slice_app [] (name_len_prefix name) (as_bytes name ++ be_bytes 8 generation) 0 4) as Hs.
  rewrite app_nil_l in Hs. rewrite Hs by (by rewrite ?length_name_len_prefix).
  cbn [ok_or mbind result_bind rbind]. rewrite be_value_name_len_prefix by done.
  rewrite (slice_app (name_len_prefix name) (as_bytes name) (be_bytes 8 generation)
    4 (4 + N.of_nat (String.length name)))
    by (rewrite ?length_name_len_prefix, ?length_as_bytes; lia).
  cbn [ok_or mbind result_bind rbind].
  rewrite (assoc_L (++) (name_len_prefix name)), <-(app_nil_r (be_bytes 8 generation)).
  rewrite slice_app by (rewrite ?length_app, ?length_name_len_prefix, ?length_as_bytes, ?length_be_bytes; lia).
  cbn [ok_or mbind result_bind rbind]. rewrite from_utf8_as_bytes by done. cbn [ok_or mbind result_bind rbind].
  rewrite be_value_be_bytes_small; [done|]. change (256 ^ N.of_nat 8)%N with (u64_max + 1)%N. lia.
Qed.
