(* ===== verification/Outbox.v ===== *)
(** * The search outbox key codec and consumer records (src/src/search/outbox.rs) *)

From S2P Require Import Prelude BTree Types Keyspace.

Record SearchOutboxEntry := mkOutboxEntry {
  oe_epoch : N;
  oe_source_log_id : RaftLogId;
  oe_user_key : bytes;
}.
#[global] Instance SearchOutboxEntry_eq_dec : EqDecision SearchOutboxEntry.
Proof. solve_decision. Defined.

(** [IndexCheckpoint] of search/index.rs. *)
Record IndexCheckpoint := mkCheckpoint {
  ck_projection_epoch : N;
  ck_definition_hash : bytes;
  ck_engine_revision : N;
  ck_source_log_id : option RaftLogId;
}.
#[global] Instance IndexCheckpoint_eq_dec : EqDecision IndexCheckpoint.
Proof. solve_decision. Defined.
#[global] Instance IndexCheckpoint_wf : Wf IndexCheckpoint := λ c,
  (ck_projection_epoch c ≤ u64_max)%N ∧ length (ck_definition_hash c) = 32 ∧
  (ck_engine_revision c ≤ u32_max)%N ∧ from_option wf True (ck_source_log_id c).

Record SearchConsumerState := mkConsumer {
  cs_definition_hash : bytes;
  cs_engine_revision : N;
  cs_checkpoint : option IndexCheckpoint;
  cs_retention_floor : option (N * N);
  cs_needs_rebuild : bool;
}.
#[global] Instance SearchConsumerState_eq_dec : EqDecision SearchConsumerState.
Proof. solve_decision. Defined.
#[global] Instance SearchConsumerState_wf : Wf SearchConsumerState := λ c,
  length (cs_definition_hash c) = 32 ∧ (cs_engine_revision c ≤ u32_max)%N ∧
  from_option wf True (cs_checkpoint c) ∧
  from_option (λ f, (f.1 ≤ u64_max)%N ∧ (f.2 ≤ u64_max)%N) True (cs_retention_floor c).

Definition holds_retention (c : SearchConsumerState) : bool := negb (cs_needs_rebuild c).

Record SearchConsumerRegistration := mkRegistration {
  scr_created : bool;
  scr_needs_rebuild : bool;
}.

(** [encode_outbox_key]. *)
Definition encode_outbox_key (group : GroupId) (epoch : N) (source_log_id : RaftLogId) (user_key : bytes)
    : Result bytes :=
  if (N.of_nat (length user_key) <=? u32_max)%N
  then Ok (search_outbox_prefix group ++ be_bytes 8 epoch ++ be_bytes 8 (rl_index source_log_id) ++
           be_bytes 8 (rl_term source_log_id) ++ be_bytes 8 (rl_node source_log_id) ++
           be_bytes 4 (N.of_nat (length user_key)) ++ user_key)
  else Err (Error_Search "user key is too large for search outbox").

Definition OUTBOX_HEADER : N := 8 * 4 + 4.

(** [read_u64] on the fixed header. *)
Definition read_be (at_ len : nat) (b : bytes) : N := be_value (take len (drop at_ b)).

(** [decode_outbox_key]. *)
Definition decode_outbox_key (group : GroupId) (key : bytes) : Result SearchOutboxEntry :=
  b ← ok_or (strip_prefix (search_outbox_prefix group) key)
        (Error_Corrupt "search outbox" "key has the wrong group prefix");
  if (N.of_nat (length b) <? OUTBOX_HEADER)%N
  then Err (Error_Corrupt "search outbox" "key is shorter than its fixed header") else
  let epoch := read_be 0 8 b in
  let index := read_be 8 8 b in
  let term := read_be 16 8 b in
  let node_id := read_be 24 8 b in
  let key_len := read_be 32 4 b in
  if negb (N.of_nat (length b) =? OUTBOX_HEADER + key_len)%N
  then Err (Error_Corrupt "search outbox" "encoded user-key length differs") else
  Ok (mkOutboxEntry epoch (mkRaftLogId term node_id index) (drop (N.to_nat OUTBOX_HEADER) b)).

(** Reading a field that follows a prefix of known length. *)
Lemma read_be_app p n v rest at_ :
  at_ = length p → (v < 256 ^ N.of_nat n)%N → read_be at_ n (p ++ be_bytes n v ++ rest) = v.
Proof.
  intros -> Hv. unfold read_be. rewrite drop_app_length, take_app_length' by (by rewrite length_be_bytes).
  by apply be_value_be_bytes_small.
Qed.

Lemma u64_pow n : (n ≤ u64_max)%N → (n < 256 ^ N.of_nat 8)%N.
Proof. change (256 ^ N.of_nat 8)%N with (u64_max + 1)%N. lia. Qed.
Lemma u32_pow n : (n ≤ u32_max)%N → (n < 256 ^ N.of_nat 4)%N.
Proof. change (256 ^ N.of_nat 4)%N with (u32_max + 1)%N. lia. Qed.

(** Decoding an encoded outbox key returns its parts. *)
Lemma decode_encode_outbox_key group epoch id k key :
  (epoch ≤ u64_max)%N → wf id → encode_outbox_key group epoch id k = Ok key →
  decode_outbox_key group key = Ok (mkOutboxEntry epoch id k).
Proof.
  intros He (Ht & Hn & Hi). unfold encode_outbox_key.
  destruct (N.leb_spec (N.of_nat (length k)) u32_max) as [Hk|]; [|done]. intros E.
  match type of E with Ok ?x = Ok key => assert (key = x) as -> by congruence end. clear E.
  unfold decode_outbox_key. rewrite strip_prefix_app. cbn [ok_or mbind result_bind rbind].
  set (e := be_bytes 8 epoch). set (i := be_bytes 8 (rl_index id)). set (t := be_bytes 8 (rl_term id)).
  set (m := be_bytes 8 (rl_node id)). set (kl := be_bytes 4 (N.of_nat (length k))).
  assert (length e = 8 ∧ length i = 8 ∧ length t = 8 ∧ length m = 8 ∧ length kl = 4) as (Le & Li & Lt & Lm & Lk)
    by (unfold e, i, t, m, kl; rewrite !length_be_bytes; done).
  rewrite !length_app, Le, Li, Lt, Lm, Lk.
  destruct (N.ltb_spec (N.of_nat (8 + (8 + (8 + (8 + (4 + length k)))))) OUTBOX_HEADER) as [Hl|_];
    [unfold OUTBOX_HEADER in Hl; lia|].
  assert (read_be 32 4 (e ++ i ++ t ++ m ++ kl ++ k) = N.of_nat (length k)) as ->.
  { rewrite !(assoc_L (++)), <-(assoc_L (++) _ kl k). apply read_be_app; [|by apply u32_pow].
    rewrite !length_app, Le, Li, Lt, Lm. done. }
  destruct (N.eqb_spec (N.of_nat (8 + (8 + (8 + (8 + (4 + length k)))))) (OUTBOX_HEADER + N.of_nat (length k)))
    as [_|Hne]; [|unfold OUTBOX_HEADER in Hne; lia].
  simpl negb. cbn iota.
  assert (read_be 0 8 (e ++ i ++ t ++ m ++ kl ++ k) = epoch) as ->.
  { apply (read_be_app []); [done|by apply u64_pow]. }
  assert (read_be 8 8 (e ++ i ++ t ++ m ++ kl ++ k) = rl_index id) as ->.
  { apply read_be_app; [done|by apply u64_pow]. }
  assert (read_be 16 8 (e ++ i ++ t ++ m ++ kl ++ k) = rl_term id) as ->.
  { rewrite (assoc_L (++) e i). apply read_be_app; [by rewrite length_app, Le, Li|by apply u64_pow]. }
  assert (read_be 24 8 (e ++ i ++ t ++ m ++ kl ++ k) = rl_node id) as ->.
  { rewrite (assoc_L (++) e i), (assoc_L (++) (e ++ i) t).
    apply read_be_app; [by rewrite !length_app, Le, Li, Lt|by apply u64_pow]. }
  assert (drop (N.to_nat OUTBOX_HEADER) (e ++ i ++ t ++ m ++ kl ++ k) = k) as ->.
  { rewrite !(assoc_L (++)). apply drop_app_length'. rewrite !length_app, Le, Li, Lt, Lm, Lk. done. }
  by destruct id.
Qed.

(** Entries of one group and epoch sort by source log index first. *)
Lemma encode_outbox_key_order group epoch epoch' id id' k k' key key' :
  (epoch ≤ u64_max)%N → (epoch' ≤ u64_max)%N → wf id → wf id' →
  encode_outbox_key group epoch id k = Ok key → encode_outbox_key group epoch' id' k' = Ok key' →
  bytes_le key key' → (epoch < epoch')%N ∨ (epoch = epoch' ∧ (rl_index id ≤ rl_index id')%N).
Proof.
  intros He He' (_ & _ & Hi) (_ & _ & Hi'). unfold encode_outbox_key.
  do 2 (case_match; [|done]). intros E E'.
  match type of E with Ok ?x = Ok key => assert (key = x) as -> by congruence end.
  match type of E' with Ok ?x = Ok key' => assert (key' = x) as -> by congruence end.
  rewrite bytes_le_app_l, bytes_le_be_app by (by rewrite !length_be_bytes).
  rewrite !be_value_be_bytes_small by (by apply u64_pow).
  intros [?|[Eep Hle]]; [by left|]. apply be8_inj in Eep as ->; [|done..].
  rewrite bytes_le_be_app in Hle by (by rewrite !length_be_bytes).
  rewrite !be_value_be_bytes_small in Hle by (by apply u64_pow).
  destruct Hle as [?|[Eix _]]; [right; split; [done|lia]|].
  apply be8_inj in Eix as ->; [|done..]. right. done.
Qed.

Lemma take_drop_chunk {A} n i (b : list A) : take n (drop i b) ++ drop (i + n) b = drop i b.
Proof. by rewrite <-drop_drop, take_drop. Qed.

Lemma read_be_bytes at_ n b : at_ + n ≤ length b → be_bytes n (read_be at_ n b) = take n (drop at_ b).
Proof.
  intros Hl. unfold read_be. rewrite <-(be_bytes_be_value (take n (drop at_ b))) at 2.
  rewrite length_take, length_drop. by rewrite Nat.min_l by lia.
Qed.

Lemma read_be_range at_ n b : at_ + n ≤ length b → (read_be at_ n b < 256 ^ N.of_nat n)%N.
Proof.
  intros Hl. unfold read_be, be_value.
  pose proof (le_value_bound (reverse (take n (drop at_ b)))) as Hr.
  rewrite length_reverse, length_take, length_drop, Nat.min_l in Hr by lia. done.
Qed.

(** Every key that decodes is the encoding of what it decodes to. *)
Lemma encode_decode_outbox_key group key e :
  decode_outbox_key group key = Ok e →
  encode_outbox_key group (oe_epoch e) (oe_source_log_id e) (oe_user_key e) = Ok key ∧
  (oe_epoch e ≤ u64_max)%N ∧ wf (oe_source_log_id e).
Proof.
  unfold decode_outbox_key. intros (b & Hb & Hd)%bind_ok.
  destruct (strip_prefix _ key) as [b'|] eqn:E; [|done]. injection Hb as ->. apply strip_prefix_Some in E as ->.
  destruct (N.ltb_spec (N.of_nat (length b)) OUTBOX_HEADER) as [|Hlen]; [done|].
  destruct (N.eqb_spec (N.of_nat (length b)) (OUTBOX_HEADER + read_be 32 4 b)) as [Hkl|]; [|done].
  cbn [negb] in Hd. injection Hd as <-. cbn [oe_epoch oe_source_log_id oe_user_key rl_index rl_term rl_node].
  unfold OUTBOX_HEADER in *. change (8 * 4 + 4)%N with 36%N in *.
  assert (length (drop (N.to_nat 36) b) = N.to_nat (read_be 32 4 b)) as Hd by (rewrite length_drop; lia).
  assert (36 ≤ length b) as Hn by lia.
  pose proof (read_be_range 0 8 b). pose proof (read_be_range 8 8 b). pose proof (read_be_range 16 8 b).
  pose proof (read_be_range 24 8 b). pose proof (read_be_range 32 4 b).
  change (256 ^ N.of_nat 8)%N with (u64_max + 1)%N in *. change (256 ^ N.of_nat 4)%N with (u32_max + 1)%N in *.
  split; [|split; [lia|repeat split; simpl; lia]].
  unfold encode_outbox_key. rewrite Hd, N2Nat.id. destruct (N.leb_spec (read_be 32 4 b) u32_max) as [_|]; [|lia].
  f_equal. f_equal. cbn [rl_index rl_term rl_node]. rewrite !read_be_bytes by lia.
  change (N.to_nat 36) with (32 + 4). rewrite (take_drop_chunk 4 32 b).
  change 32 with (24 + 8). rewrite (take_drop_chunk 8 24 b). change 24 with (16 + 8).
  rewrite (take_drop_chunk 8 16 b). change 16 with (8 + 8). rewrite (take_drop_chunk 8 8 b).
  exact (take_drop_chunk 8 0 b).
Qed.

Lemma decode_outbox_shape group key e : decode_outbox_key group key = Ok e →
  (oe_epoch e ≤ u64_max)%N ∧ (rl_index (oe_source_log_id e) ≤ u64_max)%N ∧
  ∃ rest, key = search_outbox_prefix group ++ be_bytes 8 (oe_epoch e) ++
    be_bytes 8 (rl_index (oe_source_log_id e)) ++ rest.
Proof.
  intros (E & He & _ & _ & Hi)%encode_decode_outbox_key. split_and!; [done..|].
  unfold encode_outbox_key in E. case_match; [|done].
  match type of E with Ok ?x = Ok key => assert (key = x) as -> by congruence end. by eexists.
Qed.
