(* ===== verification/MetaTypes.v ===== *)
(** * Meta commands and their outcomes (src/src/types.rs, src/src/meta/state_machine.rs)

    The replicated command set of the meta group, and what applying a command
    reports. *)

From S2P Require Import Prelude BTree Types Codec SearchDef.

Inductive MetaCommand :=
| MetaCommand_ClusterInit (config : ClusterConfig) (meta_voters : list NodeId)
| MetaCommand_RegisterNode (node_id : NodeId) (control_addr bulk_addr : string)
| MetaCommand_SeedPlacement (group : GroupId) (voters : list NodeId)
| MetaCommand_SetNodeState (node_id : NodeId) (state : NodeState) (incarnation : N)
| MetaCommand_CreatePlan (group : GroupId) (plan_id : N) (target_voters : list NodeId)
| MetaCommand_MarkAborting (group : GroupId) (plan_id : N)
| MetaCommand_FinalizePlan (group : GroupId) (plan_id : N) (observation : DataConfigObservation)
| MetaCommand_AbortReport (group : GroupId) (plan_id : N) (observation : DataConfigObservation)
| MetaCommand_CreateSearchIndex (name : string) (definition : SearchIndexDefinition)
| MetaCommand_CreateSearchIndexGeneration (name : string) (definition : SearchIndexDefinition)
| MetaCommand_ReportSearchIndexReady (name : string) (observation : SearchIndexReady)
| MetaCommand_ActivateSearchIndexGeneration (name : string) (generation : N)
| MetaCommand_DropSearchIndex (name : string)
| MetaCommand_FinalizeSearchIndexDrop (name : string) (generation : N)
| MetaCommand_CreateSearchIndexWithRevision (name : string) (definition : SearchIndexDefinition)
    (engine_revision : N)
| MetaCommand_CreateSearchIndexGenerationWithRevision (name : string) (definition : SearchIndexDefinition)
    (engine_revision : N)
| MetaCommand_BeginMaintenance (operation_id generation : N) (participants : list NodeId)
| MetaCommand_ReleaseMaintenance (operation_id generation : N) (live_processes live_incarnations : list (NodeId * N))
    (policy_digest : bytes)
| MetaCommand_AcknowledgeMaintenance (operation_id generation : N) (node_id : NodeId) (incarnation : N)
| MetaCommand_QuiesceMaintenance (operation_id generation : N)
| MetaCommand_EnterMaintenanceVerification (operation_id generation : N)
| MetaCommand_AcknowledgeMaintenanceRecovery (operation_id generation : N) (node_id : NodeId)
    (incarnation process_incarnation : N) (topology_digest policy_digest : bytes) (recovery_epoch : N)
| MetaCommand_RetireNode (node_id : NodeId) (incarnation : N).
#[global] Instance MetaCommand_eq_dec : EqDecision MetaCommand.
Proof. solve_decision. Defined.

Definition pairs_ok (l : list (NodeId * N)) : Prop :=
  vec_len_ok l ∧ Forall (λ x, x.1 ≤ u64_max ∧ x.2 ≤ u64_max)%N l.

#[global] Instance MetaCommand_wf : Wf MetaCommand := λ c,
  match c with
  | MetaCommand_ClusterInit config voters => wf config ∧ node_ids_ok voters
  | MetaCommand_RegisterNode n control bulk => (n ≤ u64_max)%N ∧ str_ok control ∧ str_ok bulk
  | MetaCommand_SeedPlacement g voters => wf g ∧ node_ids_ok voters
  | MetaCommand_SetNodeState n _ i => (n ≤ u64_max)%N ∧ (i ≤ u64_max)%N
  | MetaCommand_CreatePlan g p voters => wf g ∧ (p ≤ u64_max)%N ∧ node_ids_ok voters
  | MetaCommand_MarkAborting g p => wf g ∧ (p ≤ u64_max)%N
  | MetaCommand_FinalizePlan g p o | MetaCommand_AbortReport g p o => wf g ∧ (p ≤ u64_max)%N ∧ wf o
  | MetaCommand_CreateSearchIndex name d | MetaCommand_CreateSearchIndexGeneration name d => str_ok name ∧ wf d
  | MetaCommand_ReportSearchIndexReady name o => str_ok name ∧ wf o
  | MetaCommand_ActivateSearchIndexGeneration name g | MetaCommand_FinalizeSearchIndexDrop name g =>
      str_ok name ∧ (g ≤ u64_max)%N
  | MetaCommand_DropSearchIndex name => str_ok name
  | MetaCommand_CreateSearchIndexWithRevision name d r
  | MetaCommand_CreateSearchIndexGenerationWithRevision name d r => str_ok name ∧ wf d ∧ (r ≤ u32_max)%N
  | MetaCommand_BeginMaintenance op g ps => (op ≤ u128_max)%N ∧ (g ≤ u64_max)%N ∧ node_ids_ok ps
  | MetaCommand_ReleaseMaintenance op g lp li d =>
      (op ≤ u128_max)%N ∧ (g ≤ u64_max)%N ∧ pairs_ok lp ∧ pairs_ok li ∧ length d = 32
  | MetaCommand_AcknowledgeMaintenance op g n i =>
      (op ≤ u128_max)%N ∧ (g ≤ u64_max)%N ∧ (n ≤ u64_max)%N ∧ (i ≤ u64_max)%N
  | MetaCommand_QuiesceMaintenance op g | MetaCommand_EnterMaintenanceVerification op g =>
      (op ≤ u128_max)%N ∧ (g ≤ u64_max)%N
  | MetaCommand_AcknowledgeMaintenanceRecovery op g n i p td pd e =>
      (op ≤ u128_max)%N ∧ (g ≤ u64_max)%N ∧ (n ≤ u64_max)%N ∧ (i ≤ u64_max)%N ∧ (p ≤ u64_max)%N ∧
      length td = 32 ∧ length pd = 32 ∧ (e ≤ u128_max)%N
  | MetaCommand_RetireNode n i => (n ≤ u64_max)%N ∧ (i ≤ u64_max)%N
  end.

Inductive MetaReject :=
| MetaReject_ClusterNotInitialized | MetaReject_ClusterConflict | MetaReject_InvalidConfig (msg : string)
| MetaReject_NoPlacement | MetaReject_PlacementConflict | MetaReject_PlanExists | MetaReject_NoPlan
| MetaReject_PlanIdMismatch | MetaReject_IllegalVoterChange (msg : string) | MetaReject_IneligibleTarget
| MetaReject_ObservationMismatch | MetaReject_PlanAborting | MetaReject_NotAborting | MetaReject_UnknownNode
| MetaReject_StaleIncarnation | MetaReject_SeedMetaForbidden | MetaReject_SearchIndexExists
| MetaReject_SearchIndexNotFound | MetaReject_SearchGenerationExists | MetaReject_SearchGenerationMismatch
| MetaReject_SearchGenerationNotReady | MetaReject_MaintenanceActive | MetaReject_MaintenanceBusy
| MetaReject_MaintenanceMismatch | MetaReject_MaintenanceTopologyMismatch
| MetaReject_MaintenancePolicyMismatch | MetaReject_MaintenanceLivenessMismatch
| MetaReject_StaleMaintenanceProcess.
#[global] Instance MetaReject_eq_dec : EqDecision MetaReject.
Proof. solve_decision. Defined.

Inductive MetaApplyResult :=
| MetaApplyResult_Applied
| MetaApplyResult_NoOp
| MetaApplyResult_Rejected (r : MetaReject).
#[global] Instance MetaApplyResult_eq_dec : EqDecision MetaApplyResult.
Proof. solve_decision. Defined.
