(* ===== verification/Moves.v ===== *)
(** * The data-leader role: driving a move plan (src/src/runtime/rebalance.rs)

    [drive_data_role], [execute_move], [report_finalize] and [report_abort] for
    one partition, as a resumable computation: a [Pass] is the await point a
    pass has reached and [pass_resume] the code from one await point to the
    next, given the reply of the awaited call. The observation frames are those of
    src/src/transport/raft_wire.rs. A reply that is an error ends the pass; the
    next tick starts over. *)

From S2P Require Import Prelude BTree Types MetaTypes Reconcile.

(** ** Observation frames *)

Inductive ObservationBody :=
| ObservationBody_Finalize (sender_node_id : NodeId) (group : GroupId) (plan_id : N) (observation : DataConfigObservation)
| ObservationBody_Abort (sender_node_id : NodeId) (group : GroupId) (plan_id : N) (observation : DataConfigObservation).

Definition into_meta_command (body : ObservationBody) : MetaCommand :=
  match body with
  | ObservationBody_Finalize _ group plan_id observation => MetaCommand_FinalizePlan group plan_id observation
  | ObservationBody_Abort _ group plan_id observation => MetaCommand_AbortReport group plan_id observation
  end.

(** ** Await points *)

Inductive Pass :=
| Pass_Read                                                        (* self.read_placement(group) *)
| Pass_Placed (placement : Placement)                              (* the placement has been read *)
| Pass_Admit (placement : Placement) (plan : MovePlan) (learner : NodeId)      (* ensure_learner_admitted *)
| Pass_AddLearner (placement : Placement) (plan : MovePlan) (learner : NodeId) (* node.add_learner *)
| Pass_CaughtUp (placement : Placement) (plan : MovePlan) (learner : NodeId)   (* node.learner_caught_up *)
| Pass_IndexesReady (placement : Placement) (plan : MovePlan) (learner : NodeId) (* learner_indexes_ready *)
| Pass_ChangeVoters (placement : Placement) (plan : MovePlan)      (* node.change_voters *)
| Pass_ConfirmFinalize (placement : Placement) (plan : MovePlan)   (* confirmed_committed_config in report_finalize *)
| Pass_ConfirmAbort (placement : Placement) (plan : MovePlan)      (* confirmed_committed_config in report_abort *)
| Pass_RemoveLearners (learners : list NodeId) (body : ObservationBody) (* node.remove_learner of each *)
| Pass_Submit (body : ObservationBody).                            (* submit_observation *)

Inductive Reply :=
| Reply_Placement (placement : option Placement)
| Reply_Ok (ok : bool)                                             (* true / Ok, false / Err *)
| Reply_Config (config_log_id : option LogId) (committed : list NodeId).

Section pass.
Context (self : NodeId) (group : GroupId).

(** [execute_move] up to its first await. *)
Definition execute_move (placement : Placement) (plan : MovePlan) (committed_voter_set : list NodeId) : option Pass :=
  if negb (bool_decide (gate placement committed_voter_set = GateDecision_Accept)) then None
  else
  match head (bset_difference (voter_set (mp_target_voters plan)) (voter_set (pl_voters placement))) with
  | Some learner => Some (Pass_Admit placement plan learner)
  | None => None
  end.

(** The body of [drive_data_role] after the read. *)
Definition drive_placement (placement : Placement) (committed_voter_set : list NodeId) : option Pass :=
  match pl_move placement with
  | None => None
  | Some plan =>
      match reconcile placement committed_voter_set with
      | ReconcileAction_ResumePlan =>
          if mp_aborting plan then Some (Pass_ConfirmAbort placement plan)
          else execute_move placement plan committed_voter_set
      | ReconcileAction_CompleteJoint => Some (Pass_ChangeVoters placement plan)
      | ReconcileAction_Finalize =>
          if mp_aborting plan then Some (Pass_ConfirmAbort placement plan) else Some (Pass_ConfirmFinalize placement plan)
      | ReconcileAction_NoPlan | ReconcileAction_Error => None
      end
  end.

(** [report_finalize] after the confirmed configuration. *)
Definition report_finalize (plan : MovePlan) (config_log_id : option LogId) (committed : list NodeId) : option Pass :=
  if negb (bool_decide (voter_set committed = voter_set (mp_target_voters plan))) then None
  else
  match config_log_id with
  | None => None
  | Some config_log_id =>
      Some (Pass_Submit (ObservationBody_Finalize self group (mp_plan_id plan)
              (mkObservation group (mp_plan_id plan) (mp_target_voters plan) config_log_id)))
  end.

(** [report_abort] after the confirmed configuration. *)
Definition report_abort (placement : Placement) (plan : MovePlan) (config_log_id : option LogId) (committed : list NodeId)
    : option Pass :=
  let committed := voter_set committed in
  let voters := voter_set (pl_voters placement) in
  let rollback := bool_decide (committed = voters) in
  let report := if rollback then Some (pl_voters placement)
                else if bool_decide (committed = voter_set (mp_target_voters plan)) then Some (mp_target_voters plan)
                else None in
  match report, config_log_id with
  | Some report, Some config_log_id =>
      let body := ObservationBody_Abort self group (mp_plan_id plan)
                    (mkObservation group (mp_plan_id plan) report config_log_id) in
      match (if rollback then bset_difference (voter_set (mp_target_voters plan)) voters else []) with
      | [] => Some (Pass_Submit body)
      | learners => Some (Pass_RemoveLearners learners body)
      end
  | _, _ => None
  end.

(** The code from one await point to the next; [committed_voter_set] is the
    node's own view of the committed voters. [None] ends the pass. *)
Definition pass_resume (committed_voter_set : list NodeId) (pass : Pass) (reply : Reply) : option Pass :=
  match pass, reply with
  | Pass_Read, Reply_Placement (Some placement) => Some (Pass_Placed placement)
  | Pass_Placed placement, Reply_Ok true => drive_placement placement committed_voter_set
  | Pass_Admit placement plan learner, Reply_Ok true => Some (Pass_AddLearner placement plan learner)
  | Pass_AddLearner placement plan learner, Reply_Ok true => Some (Pass_CaughtUp placement plan learner)
  | Pass_CaughtUp placement plan learner, Reply_Ok true => Some (Pass_IndexesReady placement plan learner)
  | Pass_IndexesReady placement plan learner, Reply_Ok true => Some (Pass_ChangeVoters placement plan)
  | Pass_ChangeVoters placement plan, Reply_Ok true =>
      if mp_aborting plan then Some (Pass_ConfirmAbort placement plan) else Some (Pass_ConfirmFinalize placement plan)
  | Pass_ConfirmFinalize placement plan, Reply_Config config_log_id committed => report_finalize plan config_log_id committed
  | Pass_ConfirmAbort placement plan, Reply_Config config_log_id committed =>
      report_abort placement plan config_log_id committed
  | Pass_RemoveLearners (_ :: learners) body, Reply_Ok true =>
      match learners with [] => Some (Pass_Submit body) | _ => Some (Pass_RemoveLearners learners body) end
  | _, _ => None
  end.
End pass.
