(* ===== verification/ApplyDurability.v ===== *)
(** * Visible and durable watermarks (src/src/storage/apply_durability.rs)

    The per-group tracker of applied state that is visible in RocksDB but not
    yet covered by a WAL flush, and the database-wide registry of trackers.
    A mutex-protected critical section is one function; an async wait is the
    function of the check it makes each time it is polled ([Pending] means it
    parks on the notification). Time is the reading of the monotonic clock in
    milliseconds, passed in. Log ids inside messages are not formatted. *)

From S2P Require Import Prelude BTree Types.
From coqutil Require Import Datatypes.RecordSetters.
Import TriangleBracketNotations.
#[global] Arguments RecordSetters.constant {E} _ _ /.

Definition MAX_PENDING_STATE_ENTRIES : N := 4096.
Definition MAX_PENDING_STATE_BYTES : N := 64 * 1024 * 1024.
Definition MAX_PENDING_WAL_BYTES : N := 65 * 1024 * 1024.

Record ApplyDurabilityLimits := mkApplyLimits {
  al_max_pending_entries : N;
  al_max_pending_bytes : N;
  al_max_dirty_age_ms : N;
}.
Definition ApplyDurabilityLimits_default : ApplyDurabilityLimits :=
  mkApplyLimits MAX_PENDING_STATE_ENTRIES MAX_PENDING_STATE_BYTES 30000.

Inductive DurabilityWaitKind :=
| DurabilityWaitKind_General | DurabilityWaitKind_Purge | DurabilityWaitKind_Snapshot.

Record PendingApply := mkPendingApply {
  pa_log_id : RaftLogId;
  pa_entries : N;
  pa_bytes : N;
  pa_started : N;
}.

Record GroupState := mkGroupState {
  gs_visible : option RaftLogId;
  gs_durable : option RaftLogId;
  gs_startup_applied : option RaftLogId;
  gs_pending_entries : N;
  gs_pending_bytes : N;
  gs_pending : list PendingApply;
  gs_last_flush_latency_ms : option N;
  gs_max_flush_latency_ms : N;
  gs_flush_failures : N;
  gs_recovery_ready : bool;
  gs_recovery_epoch : N;
  gs_recovery_target : option RaftLogId;
  gs_recovery_attempts : N;
  gs_recovery_started : option N;
  gs_recovery_duration_ms : option N;
  gs_replayed_entries : N;
  gs_purge_waits : N;
  gs_purge_wait_ms : N;
  gs_snapshot_waits : N;
  gs_snapshot_wait_ms : N;
  gs_closing : bool;
  gs_failed : option string;
}.

(** [millis(at.elapsed())]. *)
Definition millis_since (now at_ : N) : N := N.min (now - at_) u64_max.

Definition index_of (l : option RaftLogId) : option N := rl_index <$> l.

Definition watermark_corrupt : Error := Error_Corrupt "state durability watermark" "log id mismatch".

(** [advance]: the new watermark, or the mismatch at the same index. *)
Definition advance (current : option RaftLogId) (next : RaftLogId) : Result (option RaftLogId) :=
  match current with
  | Some previous =>
      if (rl_index previous =? rl_index next)%N && negb (bool_decide (previous = next))
      then Err watermark_corrupt
      else if (rl_index next <? rl_index previous)%N then Ok current
      else if bool_decide (previous = next) then Ok current
      else Ok (Some next)
  | None => Ok (Some next)
  end.

(** The watermark after [advance]: unchanged on error. *)
Definition advanced (current : option RaftLogId) (next : RaftLogId) : option RaftLogId :=
  match advance current next with Ok w => w | Err _ => current end.

(** [reaches]. *)
Definition reaches (current : option RaftLogId) (target : RaftLogId) : Result bool :=
  match current with
  | None => Ok false
  | Some current =>
      if (rl_index current <? rl_index target)%N then Ok false
      else if (rl_index current =? rl_index target)%N && negb (bool_decide (current = target))
      then Err watermark_corrupt
      else Ok true
  end.

(** ** One group's tracker *)

(** [GroupTracker::new], given the next recovery epoch. *)
Definition tracker_new (epoch now : N) (recovered : option RaftLogId) (recovery_ready : bool) : GroupState := {|
  gs_visible := recovered; gs_durable := recovered; gs_startup_applied := recovered;
  gs_pending_entries := 0; gs_pending_bytes := 0; gs_pending := [];
  gs_last_flush_latency_ms := None; gs_max_flush_latency_ms := 0; gs_flush_failures := 0;
  gs_recovery_ready := recovery_ready; gs_recovery_epoch := epoch; gs_recovery_target := None;
  gs_recovery_attempts := 0;
  gs_recovery_started := if recovery_ready then None else Some now;
  gs_recovery_duration_ms := None; gs_replayed_entries := 0;
  gs_purge_waits := 0; gs_purge_wait_ms := 0; gs_snapshot_waits := 0; gs_snapshot_wait_ms := 0;
  gs_closing := false; gs_failed := None;
|}.

(** Record a failure unless one is already recorded. *)
Definition tracker_fail (error : string) (s : GroupState) : GroupState :=
  match gs_failed s with None => s <| gs_failed := Some error |> | Some _ => s end.

(** [GroupTracker::begin]: [false] asks the caller to wait for capacity. *)
Definition tracker_begin (limits : ApplyDurabilityLimits) (now : N)
    (log_id : RaftLogId) (entries byte_count : N) (s : GroupState) : GroupState * Result bool :=
  match gs_failed s with
  | Some error => (s, Err (Error_Io error))
  | None =>
  if gs_closing s then (s, Err (Error_Raft "materialized-state durability tracker is closing")) else
  if (al_max_pending_entries limits <? entries)%N || (al_max_pending_bytes limits <? byte_count)%N
  then (s, Err (Error_Io "materialized-state batch exceeds limits")) else
  let entries_fit := (saturating_add usize_max (gs_pending_entries s) entries <=? al_max_pending_entries limits)%N in
  let bytes_fit := (saturating_add usize_max (gs_pending_bytes s) byte_count <=? al_max_pending_bytes limits)%N in
  if negb entries_fit || negb bytes_fit then (s, Ok false) else
  (s <| gs_pending_entries := saturating_add usize_max (gs_pending_entries s) entries |>
     <| gs_pending_bytes := saturating_add usize_max (gs_pending_bytes s) byte_count |>
     <| gs_pending := gs_pending s ++ [mkPendingApply log_id entries byte_count now] |>, Ok true)
  end.

(** [GroupTracker::visible]. *)
Definition tracker_visible (log_id : RaftLogId) (s : GroupState) : GroupState :=
  let previous_visible := gs_visible s in
  let s1 := match advance (gs_visible s) log_id with
            | Ok w => s <| gs_visible := w |>
            | Err error => tracker_fail (error_display error) s
            end in
  if gs_recovery_ready s1 then s1 else
  let previous := default 0%N (index_of previous_visible) in
  let startup := default 0%N (index_of (gs_startup_applied s1)) in
  if (N.max previous startup <? rl_index log_id)%N
  then s1 <| gs_replayed_entries :=
         saturating_add u64_max (gs_replayed_entries s1) (rl_index log_id - N.max previous startup) |>
  else s1.

(** The first pending batch with this log id, removed, and the rest. *)
Fixpoint take_pending (log_id : RaftLogId) (l : list PendingApply) : option (PendingApply * list PendingApply) :=
  match l with
  | [] => None
  | p :: l => if decide (pa_log_id p = log_id) then Some (p, l)
              else '(q, l) ← take_pending log_id l; Some (q, p :: l)
  end.

(** Drop a pending batch from the queue and from the counters. *)
Definition release_pending (p : PendingApply) (rest : list PendingApply) (s : GroupState) : GroupState :=
  s <| gs_pending := rest |>
    <| gs_pending_entries := saturating_sub (gs_pending_entries s) (pa_entries p) |>
    <| gs_pending_bytes := saturating_sub (gs_pending_bytes s) (pa_bytes p) |>.

(** [GroupTracker::durable]. *)
Definition tracker_durable (now : N) (log_id : RaftLogId) (s : GroupState) : GroupState :=
  let s1 := match advance (gs_durable s) log_id with
            | Ok w => s <| gs_durable := w |>
            | Err error => tracker_fail (error_display error) s
            end in
  match take_pending log_id (gs_pending s1) with
  | Some (p, rest) =>
      let latency := millis_since now (pa_started p) in
      release_pending p rest s1
        <| gs_last_flush_latency_ms := Some latency |>
        <| gs_max_flush_latency_ms := N.max (gs_max_flush_latency_ms s1) latency |>
  | None => s1
  end.

(** [GroupTracker::cancel]. *)
Definition tracker_cancel (log_id : RaftLogId) (error : string) (s : GroupState) : GroupState :=
  let s1 := match take_pending log_id (gs_pending s) with
            | Some (p, rest) => release_pending p rest s
            | None => s
            end in
  tracker_fail error (s1 <| gs_flush_failures := saturating_add u64_max (gs_flush_failures s1) 1 |>).

(** [GroupTracker::installed], given the next recovery epoch. *)
Definition tracker_installed (epoch now : N) (log_id : option RaftLogId) (requires_fence : bool)
    (s : GroupState) : GroupState :=
  let s1 := match log_id with
            | None => s
            | Some log_id =>
                let visible_result := advance (gs_visible s) log_id in
                let durable_result := advance (gs_durable s) log_id in
                let s' := s <| gs_visible := advanced (gs_visible s) log_id |>
                            <| gs_durable := advanced (gs_durable s) log_id |> in
                match visible_result, durable_result with
                | Err error, _ | Ok _, Err error => tracker_fail (error_display error) s'
                | Ok _, Ok _ => s'
                end
            end in
  s1 <| gs_startup_applied := log_id |>
     <| gs_recovery_epoch := epoch |>
     <| gs_recovery_ready := negb requires_fence |>
     <| gs_recovery_target := None |>
     <| gs_recovery_started := if requires_fence then Some now else None |>
     <| gs_recovery_duration_ms := None |>.

(** [GroupTracker::begin_recovery_attempt]. *)
Definition tracker_begin_recovery (target : option RaftLogId) (s : GroupState) : GroupState * N :=
  (s <| gs_recovery_attempts := saturating_add u64_max (gs_recovery_attempts s) 1 |>
     <| gs_recovery_target := target |>, gs_recovery_epoch s).

(** [GroupTracker::mark_recovery_ready]. *)
Definition tracker_mark_ready (now epoch : N) (target : option RaftLogId) (s : GroupState)
    : GroupState * Result unit :=
  if negb (gs_recovery_epoch s =? epoch)%N || gs_closing s
  then (s, Err (Error_Raft "stale materialized-state recovery fence")) else
  match gs_failed s with
  | Some error => (s, Err (Error_Io error))
  | None =>
      let reached := match target with None => Ok true | Some target => reaches (gs_visible s) target end in
      match reached with
      | Err e => (s, Err e)
      | Ok false => (s, Err (Error_Raft "materialized state has not reached recovery target"))
      | Ok true =>
          (s <| gs_recovery_ready := true |>
             <| gs_recovery_target := target |>
             <| gs_recovery_duration_ms := millis_since now <$> gs_recovery_started s |>, Ok tt)
      end
  end.

(** [GroupTracker::dirty_expired]. *)
Definition dirty_expired (now max_age : N) (s : GroupState) : bool :=
  match gs_pending s with
  | p :: _ => (max_age <=? now - pa_started p)%N
  | [] => false
  end.

(** One watermark's part of [GroupTracker::validate_install]. *)
Definition install_behind (current target : option RaftLogId) : Result unit :=
  match current, target with
  | Some _, None => Err (Error_Corrupt "snapshot install" "empty snapshot would move state behind")
  | Some current, Some target =>
      if (rl_index target <? rl_index current)%N
      then Err (Error_Corrupt "snapshot install" "snapshot would move state behind")
      else if (rl_index target =? rl_index current)%N && negb (bool_decide (target = current))
      then Err (Error_Corrupt "snapshot install" "snapshot log id conflicts with state")
      else Ok tt
  | None, _ => Ok tt
  end.

(** [GroupTracker::validate_install]. *)
Definition tracker_validate_install (target : option RaftLogId) (s : GroupState) : Result unit :=
  match gs_failed s with
  | Some error => Err (Error_Io error)
  | None => install_behind (gs_visible s) target ≫= λ _, install_behind (gs_durable s) target
  end.

(** An async wait polled once. *)
Inductive poll (A : Type) :=
| Ready (r : A)
| Pending.
Arguments Ready {A} _.
Arguments Pending {A}.

Definition poll_reaches (failed : option string) (current : option RaftLogId) (target : RaftLogId)
    : poll (Result unit) :=
  match failed with
  | Some error => Ready (Err (Error_Io error))
  | None => match reaches current target with
            | Err e => Ready (Err e)
            | Ok true => Ready (Ok tt)
            | Ok false => Pending
            end
  end.

Definition poll_wait_durable (target : RaftLogId) (s : GroupState) : poll (Result unit) :=
  poll_reaches (gs_failed s) (gs_durable s) target.
Definition poll_wait_visible (target : RaftLogId) (s : GroupState) : poll (Result unit) :=
  poll_reaches (gs_failed s) (gs_visible s) target.

(** [GroupTracker::drain]. *)
Definition poll_drain (s : GroupState) : poll (Result unit) :=
  match gs_failed s with
  | Some error => Ready (Err (Error_Io error))
  | None => if (gs_pending_entries s =? 0)%N && (gs_pending_bytes s =? 0)%N then Ready (Ok tt) else Pending
  end.

(** [GroupTracker::record_wait]. *)
Definition tracker_record_wait (kind : DurabilityWaitKind) (elapsed : N) (s : GroupState) : GroupState :=
  let elapsed := N.min elapsed u64_max in
  match kind with
  | DurabilityWaitKind_General => s
  | DurabilityWaitKind_Purge =>
      s <| gs_purge_waits := saturating_add u64_max (gs_purge_waits s) 1 |>
        <| gs_purge_wait_ms := saturating_add u64_max (gs_purge_wait_ms s) elapsed |>
  | DurabilityWaitKind_Snapshot =>
      s <| gs_snapshot_waits := saturating_add u64_max (gs_snapshot_waits s) 1 |>
        <| gs_snapshot_wait_ms := saturating_add u64_max (gs_snapshot_wait_ms s) elapsed |>
  end.

(** ** The database-wide registry *)

(** [failure_hook] is the closure that fails the WAL worker; the model keeps
    whether it is installed and the errors it was called with. [NEXT_RECOVERY_EPOCH]
    is a process-wide counter. *)
Record ApplyDurabilityRegistry := mkRegistry {
  rg_groups : gmap GroupId GroupState;
  rg_failed : option string;
  rg_failure_hook : bool;
  rg_hook_calls : list string;
  rg_limits : ApplyDurabilityLimits;
  rg_next_recovery_epoch : N;
}.

(** [ApplyDurabilityRegistry::with_limits]. *)
Definition registry_with_limits (next_epoch : N) (limits : ApplyDurabilityLimits) : ApplyDurabilityRegistry :=
  mkRegistry ∅ None false [] limits next_epoch.

(** [set_failure_hook]. *)
Definition set_failure_hook (r : ApplyDurabilityRegistry) : ApplyDurabilityRegistry :=
  let r := r <| rg_failure_hook := true |> in
  match rg_failed r with
  | Some error => r <| rg_hook_calls := rg_hook_calls r ++ [error] |>
  | None => r
  end.

(** [entry(group).or_insert_with(GroupTracker::new(recovered, ..))], then the
    registry's failure, if any, recorded in the tracker. *)
Definition registry_register (now : N) (group : GroupId) (recovered : option RaftLogId)
    (r : ApplyDurabilityRegistry) : ApplyDurabilityRegistry :=
  let recovery_ready := negb (is_data group) in
  let failing := match rg_failed r with Some error => tracker_fail error | None => id end in
  match rg_groups r !! group with
  | Some s => r <| rg_groups := <[group := failing s]> (rg_groups r) |>
  | None =>
      r <| rg_groups := <[group := failing (tracker_new (rg_next_recovery_epoch r) now recovered recovery_ready)]>
                          (rg_groups r) |>
        <| rg_next_recovery_epoch := wrapping_add u64_max (rg_next_recovery_epoch r) 1 |>
  end.

(** [tracker(group)] followed by one critical section on the tracker. *)
Definition with_tracker {A} (now : N) (group : GroupId) (f : GroupState → GroupState * A)
    (r : ApplyDurabilityRegistry) : ApplyDurabilityRegistry * A :=
  let r := registry_register now group None r in
  let s := default (tracker_new 0 now None (negb (is_data group))) (rg_groups r !! group) in
  let '(s, a) := f s in
  (r <| rg_groups := <[group := s]> (rg_groups r) |>, a).

(** [fail_all]. *)
Definition fail_all (error : string) (r : ApplyDurabilityRegistry) : ApplyDurabilityRegistry :=
  let first_failure := bool_decide (rg_failed r = None) in
  let r := if first_failure then r <| rg_failed := Some error |> else r in
  let r := if first_failure && rg_failure_hook r
           then r <| rg_hook_calls := rg_hook_calls r ++ [error] |> else r in
  r <| rg_groups := tracker_fail error <$> rg_groups r |>.

Definition fail_on_corruption {A} (ra : ApplyDurabilityRegistry * Result A) : ApplyDurabilityRegistry * Result A :=
  match ra.2 with
  | Err (Error_Corrupt _ _ as error) => (fail_all (error_display error) ra.1, ra.2)
  | _ => ra
  end.

(** Fail every group when the tracker just updated has failed. *)
Definition propagate_failure (rf : ApplyDurabilityRegistry * option string) : ApplyDurabilityRegistry :=
  match rf.2 with Some error => fail_all error rf.1 | None => rf.1 end.

(** [expire_dirty]: fail the database when some group's oldest batch is too old. *)
Definition expire_dirty (now : N) (r : ApplyDurabilityRegistry) : ApplyDurabilityRegistry :=
  match rg_failed r with
  | Some _ => r
  | None =>
      match list_find (λ gs, dirty_expired now (al_max_dirty_age_ms (rg_limits r)) gs.2 = true)
              (map_to_list (rg_groups r)) with
      | Some _ => fail_all "materialized state exceeded dirty-age limit" r
      | None => r
      end
  end.

(** [begin]: one admission attempt; [Ready (Ok ())] once admitted. *)
Definition registry_begin (now : N) (group : GroupId) (log_id : RaftLogId) (entries byte_count : N)
    (r : ApplyDurabilityRegistry) : ApplyDurabilityRegistry * poll (Result unit) :=
  let r := registry_register now group None r in
  let r := expire_dirty now r in
  let '(r, admitted) := with_tracker now group (tracker_begin (rg_limits r) now log_id entries byte_count) r in
  (r, match admitted with Ok true => Ready (Ok tt) | Ok false => Pending | Err e => Ready (Err e) end).

Definition registry_visible (now : N) (group : GroupId) (log_id : RaftLogId) (r : ApplyDurabilityRegistry)
    : ApplyDurabilityRegistry :=
  propagate_failure (with_tracker now group (λ s, let s := tracker_visible log_id s in (s, gs_failed s)) r).

Definition registry_durable (now : N) (group : GroupId) (log_id : RaftLogId) (r : ApplyDurabilityRegistry)
    : ApplyDurabilityRegistry :=
  propagate_failure (with_tracker now group (λ s, let s := tracker_durable now log_id s in (s, gs_failed s)) r).

Definition registry_cancel (now : N) (group : GroupId) (log_id : RaftLogId) (error : string)
    (r : ApplyDurabilityRegistry) : ApplyDurabilityRegistry :=
  fail_all error (with_tracker now group (λ s, (tracker_cancel log_id error s, tt)) r).1.

Definition registry_installed (now : N) (group : GroupId) (log_id : option RaftLogId)
    (r : ApplyDurabilityRegistry) : ApplyDurabilityRegistry :=
  let r := registry_register now group None r in
  let epoch := rg_next_recovery_epoch r in
  let r := r <| rg_next_recovery_epoch := wrapping_add u64_max epoch 1 |> in
  propagate_failure (with_tracker now group
    (λ s, let s := tracker_installed epoch now log_id (is_data group) s in (s, gs_failed s)) r).

(** [ensure_healthy] and [failure]. *)
Definition ensure_healthy (now : N) (r : ApplyDurabilityRegistry) : ApplyDurabilityRegistry * Result unit :=
  let r := expire_dirty now r in
  (r, match rg_failed r with Some error => Err (Error_Io error) | None => Ok tt end).
Definition registry_failure (now : N) (r : ApplyDurabilityRegistry) : ApplyDurabilityRegistry * option string :=
  let r := expire_dirty now r in (r, rg_failed r).

(** [wait_durable]: one poll; a wait that completes is recorded. *)
Definition registry_wait_durable (now started : N) (group : GroupId) (target : RaftLogId)
    (kind : DurabilityWaitKind) (r : ApplyDurabilityRegistry) : ApplyDurabilityRegistry * poll (Result unit) :=
  let '(r, p) := with_tracker now group (λ s,
    match poll_wait_durable target s with
    | Ready res => (tracker_record_wait kind (now - started) s, Ready res)
    | Pending => (s, Pending)
    end) r in
  match p with
  | Ready res => let '(r, res) := fail_on_corruption (r, res) in (r, Ready res)
  | Pending => (r, Pending)
  end.

Definition registry_wait_visible (now : N) (group : GroupId) (target : RaftLogId)
    (r : ApplyDurabilityRegistry) : ApplyDurabilityRegistry * poll (Result unit) :=
  let '(r, p) := with_tracker now group (λ s, (s, poll_wait_visible target s)) r in
  match p with
  | Ready res => let '(r, res) := fail_on_corruption (r, res) in (r, Ready res)
  | Pending => (r, Pending)
  end.

Definition registry_drain (now : N) (group : GroupId) (r : ApplyDurabilityRegistry)
    : ApplyDurabilityRegistry * poll (Result unit) :=
  with_tracker now group (λ s, (s, poll_drain s)) r.

Definition registry_begin_close (now : N) (group : GroupId) (r : ApplyDurabilityRegistry)
    : ApplyDurabilityRegistry :=
  (with_tracker now group (λ s, (s <| gs_closing := true |>, tt)) r).1.

Definition group_failure (now : N) (group : GroupId) (r : ApplyDurabilityRegistry)
    : ApplyDurabilityRegistry * option string :=
  with_tracker now group (λ s, (s, gs_failed s)) r.

Definition registry_validate_install (now : N) (group : GroupId) (log_id : option RaftLogId)
    (r : ApplyDurabilityRegistry) : ApplyDurabilityRegistry * Result unit :=
  fail_on_corruption (with_tracker now group (λ s, (s, tracker_validate_install log_id s)) r).

Definition registry_recovery_ready (now : N) (group : GroupId) (r : ApplyDurabilityRegistry)
    : ApplyDurabilityRegistry * bool :=
  with_tracker now group (λ s, (s, gs_recovery_ready s)) r.

Definition registry_begin_recovery (now : N) (group : GroupId) (target : option RaftLogId)
    (r : ApplyDurabilityRegistry) : ApplyDurabilityRegistry * N :=
  with_tracker now group (tracker_begin_recovery target) r.

Definition registry_mark_ready (now : N) (group : GroupId) (epoch : N) (target : option RaftLogId)
    (r : ApplyDurabilityRegistry) : ApplyDurabilityRegistry * Result unit :=
  fail_on_corruption (with_tracker now group (tracker_mark_ready now epoch target) r).

(** [ensure_drained]: no tracker, or one with nothing pending. *)
Definition ensure_drained (group : GroupId) (r : ApplyDurabilityRegistry) : Result unit :=
  match rg_groups r !! group with
  | Some s =>
      if negb (gs_pending_entries s =? 0)%N || negb (gs_pending_bytes s =? 0)%N
      then Err (Error_Raft "refusing to drop group awaiting durability") else Ok tt
  | None => Ok tt
  end.

Definition registry_remove (group : GroupId) (r : ApplyDurabilityRegistry) : ApplyDurabilityRegistry :=
  r <| rg_groups := delete group (rg_groups r) |>.

(** ** Invariants *)

Definition total_entries (l : list PendingApply) : N := foldr (λ p n, pa_entries p + n)%N 0%N l.
Definition total_bytes (l : list PendingApply) : N := foldr (λ p n, pa_bytes p + n)%N 0%N l.

(** The counters are the totals of the queue and stay within the limits. *)
Record tracker_inv (limits : ApplyDurabilityLimits) (s : GroupState) : Prop := {
  ti_entries : gs_pending_entries s = total_entries (gs_pending s);
  ti_bytes : gs_pending_bytes s = total_bytes (gs_pending s);
  ti_max_entries : (gs_pending_entries s ≤ al_max_pending_entries limits)%N;
  ti_max_bytes : (gs_pending_bytes s ≤ al_max_pending_bytes limits)%N;
}.

(** A watermark moves only to a higher index. *)
Definition watermark_le (a b : option RaftLogId) : Prop :=
  match a, b with
  | None, _ => True
  | Some _, None => False
  | Some a, Some b => a = b ∨ (rl_index a < rl_index b)%N
  end.

#[global] Instance watermark_le_preorder : PreOrder watermark_le.
Proof.
  split; [intros [a|]; simpl; auto|].
  intros [a|] [b|] [c|]; simpl; try done. intros [->|?] [->|?]; auto. right. lia.
Qed.

Record tracker_le (limits : ApplyDurabilityLimits) (s s' : GroupState) : Prop := {
  tl_inv : tracker_inv limits s → tracker_inv limits s';
  tl_visible : watermark_le (gs_visible s) (gs_visible s');
  tl_durable : watermark_le (gs_durable s) (gs_durable s');
  tl_failed e : gs_failed s = Some e → gs_failed s' = Some e;
}.

#[global] Instance tracker_le_preorder limits : PreOrder (tracker_le limits).
Proof.
  split; [by constructor|]. intros s1 s2 s3 [] []. constructor; auto; by etrans.
Qed.

Lemma advance_le current next w : advance current next = Ok w → watermark_le current w.
Proof.
  unfold advance. destruct current as [p|]; [|by intros [= <-]].
  repeat case_match; intros [= <-]; simpl; auto.
  right. destruct (N.eqb_spec (rl_index p) (rl_index next)); destruct (N.ltb_spec (rl_index next) (rl_index p));
    simpl in *; try congruence; lia.
Qed.

Lemma advanced_le current next : watermark_le current (advanced current next).
Proof. unfold advanced. case_match; [by eapply advance_le|done]. Qed.

(** Close a [tracker_le] goal whose new state changes bookkeeping fields only. *)
Ltac tracker_trivial := constructor; [intros []; constructor|..]; simpl; try done; try congruence.

Lemma tracker_fail_le limits e s : tracker_le limits s (tracker_fail e s).
Proof.
  unfold tracker_fail. destruct (gs_failed s) eqn:E; [done|]. destruct s; simpl in *. tracker_trivial.
Qed.

Lemma total_entries_app l k : total_entries (l ++ k) = (total_entries l + total_entries k)%N.
Proof. induction l as [|p l IH]; simpl; [done|]. rewrite IH. lia. Qed.

Lemma total_bytes_app l k : total_bytes (l ++ k) = (total_bytes l + total_bytes k)%N.
Proof. induction l as [|p l IH]; simpl; [done|]. rewrite IH. lia. Qed.

Lemma tracker_begin_le limits now l n b s :
  (al_max_pending_entries limits < usize_max)%N → (al_max_pending_bytes limits < usize_max)%N →
  tracker_le limits s (tracker_begin limits now l n b s).1.
Proof.
  intros He Hb. unfold tracker_begin. repeat case_match; try done. simpl.
  apply orb_false_elim in H1 as [H1%N.ltb_ge H1'%N.ltb_ge].
  apply orb_false_elim in H2 as [H2%negb_false_iff%N.leb_le H2'%negb_false_iff%N.leb_le].
  unfold saturating_add in *. destruct s; simpl in *. constructor; simpl; try done.
  intros [E1 E2 L1 L2]; simpl in *.
  constructor; simpl; rewrite ?total_entries_app, ?total_bytes_app; simpl; lia.
Qed.

Lemma take_pending_total l p rest id :
  take_pending id l = Some (p, rest) →
  total_entries l = (pa_entries p + total_entries rest)%N ∧
  total_bytes l = (pa_bytes p + total_bytes rest)%N.
Proof.
  revert p rest. induction l as [|q l IH]; intros p rest; simpl; [done|].
  case_decide; [intros [= -> ->]; done|].
  destruct (take_pending id l) as [[q' l']|] eqn:E; simpl; [|done].
  intros [= -> <-]. destruct (IH p l' eq_refl) as [He Hb].
  unfold total_entries, total_bytes in *. simpl. lia.
Qed.

Lemma release_pending_le limits id p rest s :
  take_pending id (gs_pending s) = Some (p, rest) → tracker_le limits s (release_pending p rest s).
Proof.
  intros [He Hb]%take_pending_total. unfold release_pending, saturating_sub.
  destruct s; simpl in *. constructor; simpl; try done. intros []; constructor; simpl in *; lia.
Qed.

Lemma tracker_visible_le limits l s : tracker_le limits s (tracker_visible l s).
Proof.
  unfold tracker_visible.
  set (s1 := match advance _ _ with Ok _ => _ | Err _ => _ end).
  assert (tracker_le limits s s1) as Hs1.
  { unfold s1. destruct (advance (gs_visible s) l) as [w|] eqn:E; [|apply tracker_fail_le].
    apply advance_le in E. destruct s; simpl in *. tracker_trivial. }
  clearbody s1. destruct (gs_recovery_ready s1); [done|]. case_match; [|done].
  etrans; [exact Hs1|]. destruct s1. tracker_trivial.
Qed.

Lemma tracker_durable_le limits now l s : tracker_le limits s (tracker_durable now l s).
Proof.
  unfold tracker_durable.
  set (s1 := match advance _ _ with Ok _ => _ | Err _ => _ end).
  assert (tracker_le limits s s1) as Hs1.
  { unfold s1. destruct (advance (gs_durable s) l) as [w|] eqn:E; [|apply tracker_fail_le].
    apply advance_le in E. destruct s; simpl in *. tracker_trivial. }
  clearbody s1. destruct (take_pending l (gs_pending s1)) as [[p rest]|] eqn:E; [|done].
  etrans; [exact Hs1|]. etrans; [by eapply release_pending_le|]. destruct s1. tracker_trivial.
Qed.

Lemma tracker_cancel_le limits l e s : tracker_le limits s (tracker_cancel l e s).
Proof.
  unfold tracker_cancel. etrans; [|apply tracker_fail_le].
  destruct (take_pending l (gs_pending s)) as [[p rest]|] eqn:E.
  - etrans; [by eapply release_pending_le|]. destruct s. tracker_trivial.
  - destruct s. tracker_trivial.
Qed.

Lemma tracker_installed_le limits epoch now l f s : tracker_le limits s (tracker_installed epoch now l f s).
Proof.
  unfold tracker_installed.
  set (s1 := match l with None => _ | Some _ => _ end).
  assert (tracker_le limits s s1) as Hs1.
  { unfold s1. destruct l as [l|]; [|done].
    set (s' := s <| gs_visible := _ |> <| gs_durable := _ |>).
    assert (tracker_le limits s s') as Hs'.
    { unfold s'. pose proof (advanced_le (gs_visible s) l). pose proof (advanced_le (gs_durable s) l).
      destruct s; simpl in *. tracker_trivial. }
    clearbody s'. repeat case_match; try done; (etrans; [exact Hs'|apply tracker_fail_le]). }
  clearbody s1. etrans; [exact Hs1|]. destruct s1. tracker_trivial.
Qed.

Lemma tracker_begin_recovery_le limits t s : tracker_le limits s (tracker_begin_recovery t s).1.
Proof. destruct s. tracker_trivial. Qed.

Lemma tracker_mark_ready_le limits now e t s : tracker_le limits s (tracker_mark_ready now e t s).1.
Proof. unfold tracker_mark_ready. repeat case_match; try done; destruct s; tracker_trivial. Qed.

Lemma tracker_record_wait_le limits k n s : tracker_le limits s (tracker_record_wait k n s).
Proof. destruct k; [done|destruct s; tracker_trivial..]. Qed.

Create HintDb tracker.
#[export] Hint Resolve tracker_fail_le tracker_begin_le tracker_visible_le tracker_durable_le
  tracker_cancel_le tracker_installed_le tracker_begin_recovery_le tracker_mark_ready_le
  tracker_record_wait_le : tracker.

(** How the registry evolves: limits are fixed, the failure is sticky, no
    tracker is lost, each evolves by [tracker_le], a new one satisfies the
    invariant, and a failed database has only failed groups. *)
Record registry_le (r r' : ApplyDurabilityRegistry) : Prop := {
  rl_limits : rg_limits r' = rg_limits r;
  rl_failed e : rg_failed r = Some e → rg_failed r' = Some e;
  rl_groups g s : rg_groups r !! g = Some s →
    ∃ s', rg_groups r' !! g = Some s' ∧ tracker_le (rg_limits r) s s';
  rl_new g s' : rg_groups r !! g = None → rg_groups r' !! g = Some s' → tracker_inv (rg_limits r) s';
}.

Definition fail_coherent (r : ApplyDurabilityRegistry) : Prop :=
  ∀ g s, rg_failed r ≠ None → rg_groups r !! g = Some s → gs_failed s ≠ None.

Definition registry_good (r r' : ApplyDurabilityRegistry) : Prop :=
  registry_le r r' ∧ (fail_coherent r → fail_coherent r').

#[global] Instance registry_good_preorder : PreOrder registry_good.
Proof.
  split.
  - intros r. split; [|done]. constructor; naive_solver.
  - intros r1 r2 r3 [[L1 F1 G1 N1] C1] [[L2 F2 G2 N2] C2]. split; [|auto]. constructor.
    + congruence.
    + auto.
    + intros g s Hs. destruct (G1 g s Hs) as (s2 & H2 & T1). destruct (G2 g s2 H2) as (s3 & H3 & T2).
      exists s3. split; [done|]. etrans; [done|]. by rewrite <-L1.
    + intros g s3 Hn H3. destruct (rg_groups r2 !! g) as [s2|] eqn:H2.
      * destruct (G2 g s2 H2) as (s3' & H3' & T2). rewrite H3 in H3'. injection H3' as <-.
        rewrite L1 in T2. eapply tl_inv; [exact T2|by eapply N1].
      * rewrite <-L1. by eapply N2.
Qed.

Lemma tracker_fail_failed e s : gs_failed (tracker_fail e s) ≠ None.
Proof. unfold tracker_fail. destruct (gs_failed s) eqn:E; [by rewrite E|destruct s; done]. Qed.

Lemma tracker_new_inv limits epoch now rec ready : tracker_inv limits (tracker_new epoch now rec ready).
Proof. constructor; simpl; (done || lia). Qed.

Lemma registry_register_good now g rec r : registry_good r (registry_register now g rec r).
Proof.
  unfold registry_register. destruct r as [groups failed hook calls limits next]; simpl.
  set (failing := match failed with Some error => tracker_fail error | None => id end).
  assert (∀ s, tracker_le limits s (failing s)) as Hf.
  { intros s. unfold failing. destruct failed; [apply tracker_fail_le|done]. }
  assert (∀ s, failed ≠ None → gs_failed (failing s) ≠ None) as Hc.
  { intros s. unfold failing. destruct failed; [intros _; apply tracker_fail_failed|done]. }
  clearbody failing.
  destruct (groups !! g) as [s|] eqn:Eg; simpl.
  - split; [constructor; simpl; try done|].
    + intros g' s' Hs'. destruct (decide (g = g')) as [<-|Hne].
      * rewrite Eg in Hs'. injection Hs' as <-. exists (failing s). by rewrite lookup_insert_eq.
      * exists s'. by rewrite lookup_insert_ne.
    + intros g' s' Hn. rewrite lookup_insert_ne by congruence. congruence.
    + intros Hco g' s' Hfl; simpl in *. rewrite lookup_insert_Some.
      intros [[<- <-]|[_ H]]; [by apply Hc|by eapply Hco].
  - split; [constructor; simpl; try done|].
    + intros g' s' Hs'. exists s'. by rewrite lookup_insert_ne by congruence.
    + intros g' s' Hn. rewrite lookup_insert_Some. intros [[<- <-]|[_ H]]; [|congruence].
      eapply tl_inv; [apply Hf|apply tracker_new_inv].
    + intros Hco g' s' Hfl; simpl in *. rewrite lookup_insert_Some.
      intros [[<- <-]|[_ H]]; [by apply Hc|by eapply Hco].
Qed.

Lemma registry_register_lookup now g rec r : is_Some (rg_groups (registry_register now g rec r) !! g).
Proof.
  unfold registry_register. destruct r; simpl. case_match; simpl; rewrite lookup_insert_eq; eauto.
Qed.

Lemma registry_register_limits now g rec r : rg_limits (registry_register now g rec r) = rg_limits r.
Proof. apply rl_limits. apply registry_register_good. Qed.

Lemma update_tracker_good g s s' r : rg_groups r !! g = Some s → tracker_le (rg_limits r) s s' →
  registry_good r (r <| rg_groups := <[g := s']> (rg_groups r) |>).
Proof.
  destruct r as [groups failed hook calls limits next]; simpl. intros Hs Hle.
  split; [constructor; simpl; try done|].
  - intros g' s0 H0. destruct (decide (g = g')) as [<-|Hne].
    + rewrite Hs in H0. injection H0 as <-. exists s'. by rewrite lookup_insert_eq.
    + exists s0. by rewrite lookup_insert_ne.
  - intros g' s0 Hn. rewrite lookup_insert_ne by congruence. congruence.
  - intros Hco g' s0 Hfl; simpl in *. rewrite lookup_insert_Some. intros [[<- <-]|[_ H]]; [|by eapply Hco].
    specialize (Hco g s Hfl Hs). destruct (gs_failed s) as [e|] eqn:E; [|done].
    by rewrite (tl_failed _ _ _ Hle e E).
Qed.

Lemma with_tracker_good {A} now g (f : GroupState → GroupState * A) r :
  (∀ s, tracker_le (rg_limits r) s (f s).1) → registry_good r (with_tracker now g f r).1.
Proof.
  intros Hf. unfold with_tracker. etrans; [apply (registry_register_good now g None)|].
  destruct (registry_register_lookup now g None r) as [s Hs]. rewrite Hs. simpl.
  specialize (Hf s). destruct (f s) as [s' a]; simpl in *.
  eapply update_tracker_good; [exact Hs|]. by rewrite registry_register_limits.
Qed.

Lemma fail_all_good e r : registry_good r (fail_all e r).
Proof.
  unfold fail_all. destruct r as [groups failed hook calls limits next]; simpl.
  destruct failed as [e0|], hook; simpl;
    (split; [constructor; simpl; try done|]);
    try (intros g s Hs; exists (tracker_fail e s); rewrite lookup_fmap, Hs; split; [done|apply tracker_fail_le]);
    try (intros g s Hn; rewrite lookup_fmap, Hn; done);
    try (intros Hco g s Hfl; simpl in *; rewrite lookup_fmap_Some;
         intros (s0 & <- & Hs); apply tracker_fail_failed).
Qed.

(** ** The operations as steps *)

Inductive registry_op :=
| op_set_failure_hook
| op_register (now : N) (g : GroupId) (recovered : option RaftLogId)
| op_begin (now : N) (g : GroupId) (l : RaftLogId) (entries byte_count : N)
| op_visible (now : N) (g : GroupId) (l : RaftLogId)
| op_durable (now : N) (g : GroupId) (l : RaftLogId)
| op_cancel (now : N) (g : GroupId) (l : RaftLogId) (error : string)
| op_fail_all (error : string)
| op_installed (now : N) (g : GroupId) (l : option RaftLogId)
| op_expire (now : N)
| op_wait_durable (now started : N) (g : GroupId) (l : RaftLogId) (k : DurabilityWaitKind)
| op_wait_visible (now : N) (g : GroupId) (l : RaftLogId)
| op_drain (now : N) (g : GroupId)
| op_begin_close (now : N) (g : GroupId)
| op_group_failure (now : N) (g : GroupId)
| op_validate_install (now : N) (g : GroupId) (l : option RaftLogId)
| op_recovery_ready (now : N) (g : GroupId)
| op_begin_recovery (now : N) (g : GroupId) (target : option RaftLogId)
| op_mark_ready (now : N) (g : GroupId) (epoch : N) (target : option RaftLogId)
| op_remove (g : GroupId).

Definition registry_exec (op : registry_op) (r : ApplyDurabilityRegistry) : ApplyDurabilityRegistry :=
  match op with
  | op_set_failure_hook => set_failure_hook r
  | op_register now g rec => registry_register now g rec r
  | op_begin now g l n b => (registry_begin now g l n b r).1
  | op_visible now g l => registry_visible now g l r
  | op_durable now g l => registry_durable now g l r
  | op_cancel now g l e => registry_cancel now g l e r
  | op_fail_all e => fail_all e r
  | op_installed now g l => registry_installed now g l r
  | op_expire now => expire_dirty now r
  | op_wait_durable now st g l k => (registry_wait_durable now st g l k r).1
  | op_wait_visible now g l => (registry_wait_visible now g l r).1
  | op_drain now g => (registry_drain now g r).1
  | op_begin_close now g => registry_begin_close now g r
  | op_group_failure now g => (group_failure now g r).1
  | op_validate_install now g l => (registry_validate_install now g l r).1
  | op_recovery_ready now g => (registry_recovery_ready now g r).1
  | op_begin_recovery now g t => (registry_begin_recovery now g t r).1
  | op_mark_ready now g e t => (registry_mark_ready now g e t r).1
  | op_remove g => registry_remove g r
  end.

Definition limits_ok (l : ApplyDurabilityLimits) : Prop :=
  (al_max_pending_entries l < usize_max)%N ∧ (al_max_pending_bytes l < usize_max)%N.

Lemma expire_dirty_good now r : registry_good r (expire_dirty now r).
Proof. unfold expire_dirty. repeat case_match; try done. apply fail_all_good. Qed.

Lemma propagate_failure_good r rf : registry_good r rf.1 → registry_good r (propagate_failure rf).
Proof.
  intros H. unfold propagate_failure. case_match; [|done]. etrans; [exact H|apply fail_all_good].
Qed.

Lemma fail_on_corruption_good {A} r (ra : _ * Result A) :
  registry_good r ra.1 → registry_good r (fail_on_corruption ra).1.
Proof.
  intros H. unfold fail_on_corruption. repeat case_match; simpl; try done.
  etrans; [exact H|apply fail_all_good].
Qed.

Lemma next_epoch_good n r : registry_good r (r <| rg_next_recovery_epoch := n |>).
Proof.
  destruct r. split; [constructor; simpl; try done|done]; [|congruence]. intros g s Hs. by exists s.
Qed.

Lemma set_failure_hook_good r : registry_good r (set_failure_hook r).
Proof.
  unfold set_failure_hook. destruct r as [groups [e|] hook calls limits next]; simpl;
    (split; [constructor; simpl; try done|done]; [|congruence]; intros g s Hs; by exists s).
Qed.

Lemma poll_corruption_good {A} r (rp : ApplyDurabilityRegistry * poll (Result A)) :
  registry_good r rp.1 →
  registry_good r (let '(r, p) := rp in
    match p with
    | Ready res => let '(r, res) := fail_on_corruption (r, res) in (r, Ready res)
    | Pending => (r, Pending)
    end).1.
Proof.
  intros H. destruct rp as [r' [res|]]; simpl in *; [|done].
  pose proof (fail_on_corruption_good r (r', res) H) as H'. by destruct (fail_on_corruption (r', res)).
Qed.

Lemma registry_begin_good now g l n b r : limits_ok (rg_limits r) → registry_good r (registry_begin now g l n b r).1.
Proof.
  intros [He Hb]. unfold registry_begin.
  set (r1 := expire_dirty now (registry_register now g None r)).
  assert (registry_good r r1) as H1.
  { etrans; [apply (registry_register_good now g None)|apply expire_dirty_good]. }
  assert (rg_limits r1 = rg_limits r) as El by apply H1.
  clearbody r1.
  pose proof (with_tracker_good now g (tracker_begin (rg_limits r1) now l n b) r1) as H2.
  destruct (with_tracker now g _ r1) as [r2 a]; simpl in *.
  etrans; [exact H1|]. apply H2. intros s. apply tracker_begin_le; by rewrite El.
Qed.

Lemma registry_exec_good op r :
  limits_ok (rg_limits r) → (∀ g, op ≠ op_remove g) → registry_good r (registry_exec op r).
Proof.
  intros Hl Hop. destruct op; cbn [registry_exec]; try (by destruct (Hop g));
    auto using set_failure_hook_good, registry_register_good, fail_all_good, expire_dirty_good, registry_begin_good.
  - apply propagate_failure_good, with_tracker_good. intros s. simpl. auto with tracker.
  - apply propagate_failure_good, with_tracker_good. intros s. simpl. auto with tracker.
  - etrans; [|apply fail_all_good]. apply with_tracker_good. simpl. auto with tracker.
  - apply propagate_failure_good. unfold registry_installed.
    etrans; [apply (registry_register_good now g None)|].
    etrans; [apply next_epoch_good|]. apply with_tracker_good. intros s. simpl. auto with tracker.
  - apply poll_corruption_good, with_tracker_good. intros s.
    destruct (poll_wait_durable l s); simpl; [auto with tracker|done].
  - by apply poll_corruption_good, with_tracker_good.
  - by apply with_tracker_good.
  - apply with_tracker_good. intros s. destruct s. tracker_trivial.
  - by apply with_tracker_good.
  - by apply fail_on_corruption_good, with_tracker_good.
  - by apply with_tracker_good.
  - apply with_tracker_good. auto with tracker.
  - apply fail_on_corruption_good, with_tracker_good. auto with tracker.
Qed.

Definition registry_run (ops : list registry_op) (r : ApplyDurabilityRegistry) : ApplyDurabilityRegistry :=
  foldl (flip registry_exec) r ops.

Record registry_inv (r : ApplyDurabilityRegistry) : Prop := {
  ri_limits : limits_ok (rg_limits r);
  ri_trackers g s : rg_groups r !! g = Some s → tracker_inv (rg_limits r) s;
  ri_coherent : fail_coherent r;
}.

Lemma registry_good_inv r r' : registry_good r r' → registry_inv r → registry_inv r'.
Proof.
  intros [[L F G Nw] C] [Hl Ht Hc]. constructor; [by rewrite L| |auto].
  intros g s' Hs'. rewrite L. destruct (rg_groups r !! g) as [s|] eqn:E; [|by eapply Nw].
  destruct (G g s E) as (s2 & H2 & T). rewrite H2 in Hs'. injection Hs' as <-.
  eapply tl_inv; [exact T|by eapply Ht].
Qed.

Lemma registry_remove_inv g r : registry_inv r → registry_inv (registry_remove g r).
Proof.
  intros [Hl Ht Hc]. unfold registry_remove. destruct r; constructor; simpl in *; [done| |].
  - intros g' s; cbn. intros [_ H]%lookup_delete_Some. by eapply Ht.
  - intros g' s; cbn. intros Hf [_ H]%lookup_delete_Some. by eapply Hc.
Qed.

Lemma registry_exec_inv op r : registry_inv r → registry_inv (registry_exec op r).
Proof.
  intros Hr. destruct op; try (by apply registry_remove_inv);
    (eapply registry_good_inv; [|exact Hr]; apply registry_exec_good; [apply Hr|done]).
Qed.

Lemma registry_exec_limits op r : registry_inv r → rg_limits (registry_exec op r) = rg_limits r.
Proof.
  intros Hr. destruct op; try (by destruct r); apply rl_limits, registry_exec_good; first [apply Hr|done].
Qed.

Lemma registry_run_limits ops r : registry_inv r → rg_limits (registry_run ops r) = rg_limits r.
Proof.
  unfold registry_run. revert r. induction ops as [|op ops IH]; intros r Hr; simpl; [done|].
  rewrite IH by (by apply registry_exec_inv). by apply registry_exec_limits.
Qed.

Lemma registry_run_inv ops r : registry_inv r → registry_inv (registry_run ops r).
Proof.
  unfold registry_run. revert r. induction ops as [|op ops IH]; intros r Hr; simpl; [done|].
  by apply IH, registry_exec_inv.
Qed.

Lemma registry_init_inv e limits : limits_ok limits → registry_inv (registry_with_limits e limits).
Proof. intros Hl. constructor; [done| |]; intros g s *; simpl; by rewrite lookup_empty. Qed.

Lemma registry_run_good ops r : limits_ok (rg_limits r) → Forall (λ op, ∀ g, op ≠ op_remove g) ops →
  registry_good r (registry_run ops r).
Proof.
  intros Hl Hops. unfold registry_run. revert r Hl.
  induction Hops as [|op ops Hop Hops IH]; intros r Hl; simpl; [done|].
  pose proof (registry_exec_good op r Hl Hop) as Hg. etrans; [exact Hg|].
  apply IH. by rewrite (rl_limits _ _ (proj1 Hg)).
Qed.

(** In every state reachable from a fresh registry, by any sequence of the
    registry's operations, each group's pending counters are exactly the totals
    of its queue of batches awaiting durability and stay within the configured
    limits, and a failed database has only failed groups. *)
Theorem registry_pending_accounting limits epoch ops :
  limits_ok limits →
  let r := registry_run ops (registry_with_limits epoch limits) in
  ∀ g s, rg_groups r !! g = Some s →
    gs_pending_entries s = total_entries (gs_pending s) ∧
    gs_pending_bytes s = total_bytes (gs_pending s) ∧
    (gs_pending_entries s ≤ al_max_pending_entries limits)%N ∧
    (gs_pending_bytes s ≤ al_max_pending_bytes limits)%N ∧
    (rg_failed r ≠ None → gs_failed s ≠ None).
Proof.
  intros Hl r g s Hs. destruct (registry_run_inv ops _ (registry_init_inv epoch limits Hl)) as [_ Ht Hc].
  assert (rg_limits r = limits) as El by (by apply registry_run_limits, registry_init_inv).
  destruct (Ht g s Hs) as [H1 H2 H3 H4]. fold r in H3, H4. rewrite El in H3, H4.
  repeat split; [done..|]. intros Hf. by eapply Hc.
Qed.

Definition demo_id (i : N) : RaftLogId := mkRaftLogId 1 1 i.

Lemma registry_pending_accounting_witness :
  let ops := [op_begin 0 (GroupId_Data 1) (demo_id 1) 2 10; op_begin 1 (GroupId_Data 1) (demo_id 3) 1 5;
              op_visible 2 (GroupId_Data 1) (demo_id 1); op_durable 3 (GroupId_Data 1) (demo_id 1)] in
  let r := registry_run ops (registry_with_limits 1 ApplyDurabilityLimits_default) in
  ∃ s, rg_groups r !! GroupId_Data 1 = Some s ∧ gs_pending_entries s = 1%N ∧
       gs_pending_entries s = total_entries (gs_pending s).
Proof.
  eexists. split; [vm_compute; reflexivity|]. split; [reflexivity|].
  unshelve eapply (registry_pending_accounting ApplyDurabilityLimits_default 1
    [op_begin 0 (GroupId_Data 1) (demo_id 1) 2 10; op_begin 1 (GroupId_Data 1) (demo_id 3) 1 5;
     op_visible 2 (GroupId_Data 1) (demo_id 1); op_durable 3 (GroupId_Data 1) (demo_id 1)]
    _ (GroupId_Data 1)).
  - split; reflexivity.
  - vm_compute. reflexivity.
Defined.

(** Watermarks and failures are one-way. Over any sequence of operations
    that does not unregister groups, no group's visible or durable watermark
    ever moves to a lower index or to another log id at the same index, a
    recorded failure is never cleared or replaced, and no tracker disappears. *)
Theorem registry_watermarks_monotone ops r :
  limits_ok (rg_limits r) → Forall (λ op, ∀ g, op ≠ op_remove g) ops →
  let r' := registry_run ops r in
  (∀ e, rg_failed r = Some e → rg_failed r' = Some e) ∧
  ∀ g s, rg_groups r !! g = Some s → ∃ s', rg_groups r' !! g = Some s' ∧
    watermark_le (gs_visible s) (gs_visible s') ∧ watermark_le (gs_durable s) (gs_durable s') ∧
    (∀ e, gs_failed s = Some e → gs_failed s' = Some e).
Proof.
  intros Hl Hops r'. destruct (registry_run_good ops r Hl Hops) as [[_ F G _] _].
  split; [exact F|]. intros g s Hs. destruct (G g s Hs) as (s' & Hs' & []). eauto.
Qed.

Definition demo_registry : ApplyDurabilityRegistry :=
  registry_run [op_register 0 (GroupId_Data 1) (Some (demo_id 3)); op_fail_all "disk"]
    (registry_with_limits 1 ApplyDurabilityLimits_default).

Lemma registry_watermarks_monotone_witness :
  rg_failed (registry_run [op_visible 2 (GroupId_Data 1) (demo_id 2); op_fail_all "later"] demo_registry)
  = Some "disk".
Proof.
  apply registry_watermarks_monotone.
  - split; reflexivity.
  - repeat constructor; discriminate.
  - vm_compute. reflexivity.
Defined.

Lemma with_tracker_failed {A} now g (f : GroupState → GroupState * A) r :
  rg_failed r ≠ None → ∃ s e, gs_failed s = Some e ∧ (with_tracker now g f r).2 = (f s).2.
Proof.
  intros Hf. unfold with_tracker.
  destruct (registry_register_lookup now g None r) as [s Hs]. rewrite Hs. simpl.
  assert (gs_failed s ≠ None) as Hs'.
  { revert Hs. unfold registry_register. destruct (rg_failed r) as [e|]; [|done].
    destruct r; simpl. case_match; simpl; rewrite lookup_insert_eq; intros [= <-]; apply tracker_fail_failed. }
  exists s. destruct (gs_failed s) as [e|]; [|done]. exists e. split; [done|]. by destruct (f s).
Qed.

Lemma expire_dirty_failed now r : rg_failed r ≠ None → expire_dirty now r = r.
Proof. unfold expire_dirty. by destruct (rg_failed r). Qed.

Lemma fail_on_corruption_result {A} (ra : _ * Result A) : (fail_on_corruption ra).2 = ra.2.
Proof. unfold fail_on_corruption. repeat case_match; done. Qed.

Lemma register_still_failed now g rec r : rg_failed r ≠ None → rg_failed (registry_register now g rec r) ≠ None.
Proof.
  intros Hf. destruct (rg_failed r) as [e|] eqn:E; [|done].
  by rewrite (rl_failed _ _ (proj1 (registry_register_good now g rec r)) e E).
Qed.

(** The tracker an operation runs on has failed. *)
Ltac fail_stop_case :=
  match goal with
  | |- context [with_tracker ?now ?g ?f ?r] =>
      let s := fresh "s" in let e := fresh "e" in let Hs := fresh "Hs" in let E := fresh "E" in
      destruct (with_tracker_failed now g f r) as (s & e & Hs & E);
      [by auto using register_still_failed|];
      destruct (with_tracker now g f r); simpl in E |- *; rewrite E
  end.

(** Fail-stop. Once the database has failed, the registry admits no batch,
    completes no durability or visibility wait, opens no recovery fence and
    validates no snapshot install: every one of them returns an error. *)
Theorem registry_fail_stop r now g :
  rg_failed r ≠ None →
  (∀ l n b, ∃ e, (registry_begin now g l n b r).2 = Ready (Err e)) ∧
  (∀ st l k, ∃ e, (registry_wait_durable now st g l k r).2 = Ready (Err e)) ∧
  (∀ l, ∃ e, (registry_wait_visible now g l r).2 = Ready (Err e)) ∧
  (∀ epoch target, ∃ e, (registry_mark_ready now g epoch target r).2 = Err e) ∧
  (∀ target, ∃ e, (registry_validate_install now g target r).2 = Err e) ∧
  (∃ e, (registry_drain now g r).2 = Ready (Err e)) ∧
  (∃ e, (ensure_healthy now r).2 = Err e).
Proof.
  intros Hf. repeat split; intros.
  - unfold registry_begin. rewrite expire_dirty_failed by (by apply register_still_failed).
    fail_stop_case. unfold tracker_begin. rewrite Hs. eauto.
  - unfold registry_wait_durable. fail_stop_case. unfold poll_wait_durable, poll_reaches. rewrite Hs. simpl. eauto.
  - unfold registry_wait_visible. fail_stop_case. unfold poll_wait_visible, poll_reaches. rewrite Hs. simpl. eauto.
  - unfold registry_mark_ready. rewrite fail_on_corruption_result. fail_stop_case.
    unfold tracker_mark_ready. case_match; simpl; [eauto|]. rewrite Hs. eauto.
  - unfold registry_validate_install. rewrite fail_on_corruption_result. fail_stop_case.
    unfold tracker_validate_install. simpl. rewrite Hs. eauto.
  - unfold registry_drain. fail_stop_case. unfold poll_drain. simpl. rewrite Hs. eauto.
  - unfold ensure_healthy. simpl. rewrite expire_dirty_failed by done.
    destruct (rg_failed r); [eauto|done].
Qed.

Lemma registry_fail_stop_witness :
  ∃ e, (registry_begin 5 (GroupId_Data 1) (demo_id 9) 1 1 demo_registry).2 = Ready (Err e).
Proof. apply registry_fail_stop. discriminate. Defined.
