(* ===== verification/Aio.v ===== *)
(** * Async computations

    An async function returns [Ready] with its result or [Pending] where it
    parks for good in the run considered, with the state it has reached. [awp]
    is the weakest precondition the proofs about such functions use. *)

From S2P Require Import Prelude BTree Types ApplyDurability.

Definition aio (S A : Type) : Type := S → S * poll (Result A).
Definition aio_ret {S A} (a : A) : aio S A := λ s, (s, Ready (Ok a)).
Definition aio_bind {S A B} (m : aio S A) (k : A → aio S B) : aio S B :=
  λ s, match m s with
       | (s, Ready (Ok a)) => k a s
       | (s, Ready (Err e)) => (s, Ready (Err e))
       | (s, Pending) => (s, Pending)
       end.
(** A synchronous computation. *)
Definition aio_io {S A} (m : io S A) : aio S A := λ s, let '(s, r) := m s in (s, Ready r).

Declare Scope aio_scope.
Delimit Scope aio_scope with aio.
Notation "'let~' x := m 'in' k" := (aio_bind m (λ x, k))
  (at level 200, x binder, m at level 200, k at level 200) : aio_scope.
Notation "m ;;~ k" := (aio_bind m (λ _, k)) (at level 100, right associativity) : aio_scope.
Open Scope aio_scope.

Lemma aio_bind_ready {S A B} (m : aio S A) (k : A → aio S B) s s' r :
  aio_bind m k s = (s', r) →
  (∃ s1 a, m s = (s1, Ready (Ok a)) ∧ k a s1 = (s', r)) ∨
  (m s = (s', Pending) ∧ r = Pending) ∨ (∃ e, m s = (s', Ready (Err e)) ∧ r = Ready (Err e)).
Proof. unfold aio_bind. destruct (m s) as [s1 [[a|e]|]]; naive_solver. Qed.

Lemma aio_bind_ok {S A B} (m : aio S A) (k : A → aio S B) s s' b :
  aio_bind m k s = (s', Ready (Ok b)) → ∃ s1 a, m s = (s1, Ready (Ok a)) ∧ k a s1 = (s', Ready (Ok b)).
Proof. by intros [?|[[_ ?]|(e & _ & ?)]]%aio_bind_ready. Qed.
Lemma aio_read_ok {S A} (f : S → Result A) s s' a : aio_io (io_read f) s = (s', Ready (Ok a)) → s' = s ∧ f s = Ok a.
Proof. by intros [= -> ->]. Qed.

Lemma aio_modify_bind {S B} (f : S → S) (k : unit → aio S B) s :
  aio_bind (aio_io (io_modify f)) k s = k tt (f s).
Proof. done. Qed.

Lemma aio_io_ready {S A} (m : io S A) w w' r : aio_io m w = (w', r) → ∃ x, m w = (w', x) ∧ r = Ready x.
Proof. unfold aio_io. destruct (m w) as [w1 x]. intros [= <- <-]. eauto. Qed.

(** A bind whose first half is synchronous, when the whole succeeds. *)
Lemma aio_io_bind_ok {S A B} (m : io S A) (k : A → aio S B) w w' b : aio_bind (aio_io m) k w = (w', Ready (Ok b)) →
  ∃ w1 a, m w = (w1, Ok a) ∧ k a w1 = (w', Ready (Ok b)).
Proof.
  intros [(w1 & a & E & E')|[[_ ?]|(e & _ & ?)]]%aio_bind_ready; [|done..].
  apply aio_io_ready in E as (x & E & [= <-]). eauto.
Qed.

(** ** Weakest preconditions *)

Definition awp {S A} (m : aio S A) (Q : S → poll (Result A) → Prop) (s : S) : Prop := Q (m s).1 (m s).2.

(** The continuation of a bind: run on success, skipped otherwise. *)
Definition awp_k {S A B} (k : A → (S → poll (Result B) → Prop) → S → Prop) (Q : S → poll (Result B) → Prop)
    (s : S) (r : poll (Result A)) : Prop :=
  match r with Ready (Ok a) => k a Q s | Ready (Err e) => Q s (Ready (Err e)) | Pending => Q s Pending end.

Lemma awp_intro {S A} (m : aio S A) Q s s' r : awp m Q s → m s = (s', r) → Q s' r.
Proof. unfold awp. intros Hq E. by rewrite E in Hq. Qed.

Lemma awp_bind {S A B} (m : aio S A) (k : A → aio S B) Q s :
  awp m (awp_k (λ a, awp (k a)) Q) s → awp (aio_bind m k) Q s.
Proof. unfold awp, aio_bind. by destruct (m s) as [s1 [[a|e]|]]. Qed.

Lemma awp_mono {S A} (m : aio S A) (Q Q' : S → poll (Result A) → Prop) s :
  awp m Q s → (∀ s' r, Q s' r → Q' s' r) → awp m Q' s.
Proof. unfold awp. auto. Qed.

Lemma awp_ret {S A} (a : A) (Q : S → poll (Result A) → Prop) s : Q s (Ready (Ok a)) → awp (aio_ret a) Q s.
Proof. done. Qed.

(** A read that may fail. *)
Lemma awp_read {S A} (f : S → Result A) Q s : Q s (Ready (f s)) → awp (aio_io (io_read f)) Q s.
Proof. done. Qed.

(** ** Steps within a relation

    [keeps R m]: every run of [m] is a step within the preorder [R]. *)

Section keeps.
Context {S : Type} (R : relation S) `{!PreOrder R}.

Definition keeps {A} (m : io S A) : Prop := ∀ s s' r, m s = (s', r) → R s s'.
Definition akeeps {A} (m : aio S A) : Prop := ∀ s s' r, m s = (s', r) → R s s'.

Lemma keeps_ret {A} (a : A) : keeps (io_ret a).
Proof. by intros s s' r [= <- _]. Qed.
Lemma keeps_err {A} e : keeps (io_err (A:=A) e).
Proof. by intros s s' r [= <- _]. Qed.
Lemma keeps_read {A} (f : S → Result A) : keeps (io_read f).
Proof. by intros s s' r [= <- _]. Qed.
Lemma keeps_bind {A B} (m : io S A) (k : A → io S B) : keeps m → (∀ a, keeps (k a)) → keeps (io_bind m k).
Proof.
  intros Hm Hk s s' r. unfold io_bind. destruct (m s) as [s1 [a|e]] eqn:E.
  - intros E'. etrans; [by eapply Hm|by eapply Hk].
  - intros [= <- _]. by eapply Hm.
Qed.
Lemma akeeps_io {A} (m : io S A) : keeps m → akeeps (aio_io m).
Proof. intros Hm s s' r. unfold aio_io. destruct (m s) as [s1 x] eqn:E. intros [= <- _]. by eapply Hm. Qed.
Lemma akeeps_ret {A} (a : A) : akeeps (aio_ret a).
Proof. by intros s s' r [= <- _]. Qed.
Lemma akeeps_bind {A B} (m : aio S A) (k : A → aio S B) : akeeps m → (∀ a, akeeps (k a)) → akeeps (aio_bind m k).
Proof.
  intros Hm Hk s s' r [(s1 & a & E & E')|[[E _]|(e & E & _)]]%aio_bind_ready; [|by eapply Hm..].
  etrans; [by eapply Hm|by eapply Hk].
Qed.
End keeps.

(** ** Settling

    [settles m n s]: the fueled computation ends from [s], with a result that
    is the same for every fuel from [n] on. *)

Definition settles {S A} (m : nat → aio S A) (n : nat) (s : S) : Prop :=
  ∃ s' r, ∀ fuel, n ≤ fuel → m fuel s = (s', Ready r).

Lemma settles_ready {S A} (m : aio S A) n s s' r : m s = (s', Ready r) → settles (λ _, m) n s.
Proof. intros E. by exists s', r. Qed.

Lemma settles_io {S A B} (m : io S A) (k : nat → A → aio S B) n s :
  (∀ s1 a, m s = (s1, Ok a) → settles (λ fuel, k fuel a) n s1) → settles (λ fuel, aio_bind (aio_io m) (k fuel)) n s.
Proof.
  intros Hk. unfold settles, aio_bind, aio_io. destruct (m s) as [s1 [a|e]]; [by apply Hk|by exists s1, (Err e)].
Qed.

Lemma settles_bind {S A B} (m : nat → aio S A) (k : A → aio S B) n s :
  (∀ a s1, ∃ s2 r, k a s1 = (s2, Ready r)) → settles m n s → settles (λ fuel, aio_bind (m fuel) k) n s.
Proof.
  intros Hk (s1 & [a|e] & E).
  - destruct (Hk a s1) as (s2 & r & E2). exists s2, r. intros fuel Hf. unfold aio_bind. by rewrite E.
  - exists s1, (Err e). intros fuel Hf. unfold aio_bind. by rewrite E.
Qed.

Lemma settles_step {S A} (m : nat → aio S A) n s : settles (λ fuel, m (Datatypes.S fuel)) n s → settles m (Datatypes.S n) s.
Proof. intros (s' & r & E). exists s', r. intros [|fuel] Hf; [lia|apply E; lia]. Qed.

Lemma settles_mono {S A} (m : nat → aio S A) n n' s : settles m n s → n ≤ n' → settles m n' s.
Proof. intros (s' & r & E) Hn. exists s', r. intros fuel Hf. apply E. lia. Qed.
