(* ===== verification/Rocks.v ===== *)
(** * The RocksDB interface

    RocksDB is a third-party database. [Rocks] lists the operations the source
    calls and [RocksOk] the documented behaviour it relies on: named column
    families, each an ordered byte map; an atomic write batch whose later
    operations win; iteration in key order. I/O errors of the database itself
    are outside the model. The gmap instance at the end shows the laws hold
    together. *)

From S2P Require Import Prelude BTree Types.

Definition DEFAULT_CF : string := "default".

(** One operation of a [WriteBatch], with the column family it names. *)
Inductive BatchOp :=
| BatchPut (cf : string) (key value : bytes)
| BatchDelete (cf : string) (key : bytes)
| BatchDeleteRange (cf : string) (start finish : bytes). (* [start, finish) *)

Definition batch_op_apply (cf : string) (key : bytes) (op : BatchOp) (old : option bytes) : option bytes :=
  match op with
  | BatchPut c k v => if decide (c = cf ∧ k = key) then Some v else old
  | BatchDelete c k => if decide (c = cf ∧ k = key) then None else old
  | BatchDeleteRange c a b => if decide (c = cf ∧ bytes_le a key ∧ bytes_lt key b) then None else old
  end.

(** The value of a key after a batch: the last operation on it wins. *)
Definition batch_get (cf : string) (key : bytes) (b : list BatchOp) (old : option bytes) : option bytes :=
  foldl (λ o op, batch_op_apply cf key op o) old b.

Class Rocks (D : Type) := {
  list_cf : D → list string;
  cf_exists : D → string → bool;
  get_cf : D → string → bytes → option bytes;
  write : D → list BatchOp → D;
  create_cf : D → string → D;
  drop_cf : D → string → D;
  iter_cf : D → string → list (bytes * bytes);
  size_in_bytes : list BatchOp → N;
}.

Class RocksOk (D : Type) `{Rocks D} : Prop := {
  default_exists d : cf_exists d DEFAULT_CF = true;
  list_cf_spec d n : n ∈ list_cf d ↔ cf_exists d n = true;
  exists_write d b n : cf_exists (write d b) n = cf_exists d n;
  exists_create d n m : cf_exists (create_cf d n) m = bool_decide (m = n) || cf_exists d m;
  exists_drop d n m : n ≠ DEFAULT_CF → cf_exists (drop_cf d n) m = negb (bool_decide (m = n)) && cf_exists d m;
  get_write d b n k : cf_exists d n = true → get_cf (write d b) n k = batch_get n k b (get_cf d n k);
  get_create d n k : cf_exists d n = false → get_cf (create_cf d n) n k = None;
  get_create_ne d n m k : n ≠ m → get_cf (create_cf d n) m k = get_cf d m k;
  get_drop_ne d n m k : n ≠ m → get_cf (drop_cf d n) m k = get_cf d m k;
  iter_spec d n k v : (k, v) ∈ iter_cf d n ↔ get_cf d n k = Some v;
  iter_sorted d n : StronglySorted bytes_lt (iter_cf d n).*1;
}.

(** [db.get], [db.put], [db.delete]: the default column family. *)
Definition db_get `{Rocks D} (d : D) (key : bytes) : option bytes := get_cf d DEFAULT_CF key.
Definition db_put `{Rocks D} (d : D) (key value : bytes) : D := write d [BatchPut DEFAULT_CF key value].
Definition db_delete `{Rocks D} (d : D) (key : bytes) : D := write d [BatchDelete DEFAULT_CF key].

(** [iterator_cf(cf, From(start, Forward))]. *)
Definition iter_from `{Rocks D} (d : D) (cf : string) (start : bytes) : list (bytes * bytes) :=
  filter (λ kv, bytes_le start kv.1) (iter_cf d cf).

(** The loop [for item in iter { if !key.starts_with(prefix) { break } .. }]. *)
Fixpoint take_while {A} (f : A → bool) (l : list A) : list A :=
  match l with
  | [] => []
  | x :: l => if f x then x :: take_while f l else []
  end.
Definition scan_prefix `{Rocks D} (d : D) (cf : string) (prefix : bytes) : list (bytes * bytes) :=
  take_while (λ kv, starts_with prefix kv.1) (iter_from d cf prefix).

(** ** Facts about batches and scans *)

Lemma batch_get_app cf k b b' o : batch_get cf k (b ++ b') o = batch_get cf k b' (batch_get cf k b o).
Proof. apply foldl_app. Qed.

(** The keys an operation names. *)
Definition op_touches (op : BatchOp) (cf : string) (key : bytes) : Prop :=
  match op with
  | BatchPut c k _ | BatchDelete c k => c = cf ∧ k = key
  | BatchDeleteRange c a b => c = cf ∧ bytes_le a key ∧ bytes_lt key b
  end.

Lemma batch_op_apply_ne cf k op o : ¬ op_touches op cf k → batch_op_apply cf k op o = o.
Proof. destruct op; simpl; intros Hn; by rewrite decide_False. Qed.

(** A batch that does not name a key leaves it alone. *)
Lemma batch_get_untouched cf k b o :
  Forall (λ op, ¬ op_touches op cf k) b →
  batch_get cf k b o = o.
Proof.
  revert o. induction b as [|op b IH]; intros o; [done|].
  intros [Hop Hb]%Forall_cons. change (batch_get cf k b (batch_op_apply cf k op o) = o).
  rewrite IH by done. by apply batch_op_apply_ne.
Qed.

Lemma starts_with_le p k : starts_with p k = true → bytes_le p k.
Proof.
  rewrite starts_with_spec. intros [q ->].
  rewrite <-(app_nil_r p) at 1. apply bytes_le_app_l. by destruct q.
Qed.

(** Between two keys with a prefix every key has it. *)
Lemma starts_with_between p a b :
  starts_with p b = true → bytes_le p a → bytes_le a b → starts_with p a = true.
Proof.
  rewrite !starts_with_spec. revert a b. induction p as [|x p IH]; intros a b Hb Hpa Hab.
  { by exists a. }
  destruct a as [|y a]; [done|]. destruct b as [|z b]; [by destruct Hb|].
  destruct Hb as [q [= -> ->]]. rewrite bytes_le_cons in Hpa, Hab.
  destruct Hpa as [?|[E Hpa]], Hab as [?|[E' Hab]]; try lia.
  apply to_N_inj in E as ->. destruct (IH a (p ++ q)) as [r ->]; [by exists q|done|done|]. by exists r.
Qed.

(** In a sorted list, scanning while the prefix matches finds every match. *)
Lemma take_while_prefix p (l : list (bytes * bytes)) :
  StronglySorted bytes_lt l.*1 → Forall (λ kv, bytes_le p kv.1) l →
  take_while (λ kv, starts_with p kv.1) l = filter (λ kv, starts_with p kv.1 = true) l.
Proof.
  induction l as [|kv l IH]; intros Hs Hp; [done|].
  rewrite fmap_cons in Hs. apply StronglySorted_inv in Hs as [Hs Hlt]. apply Forall_cons in Hp as [Hkv Hp].
  cbn [take_while]. destruct (starts_with p kv.1) eqn:E.
  - rewrite filter_cons_True by done. f_equal. by apply IH.
  - rewrite filter_cons_False by congruence. 
    destruct (filter _ l) as [|kv' l'] eqn:El; [done|]. exfalso.
    assert (kv' ∈ filter (λ kv, starts_with p kv.1 = true) l) as [Hpre Hin]%list_elem_of_filter
      by (rewrite El; left).
    rewrite Forall_fmap, Forall_forall in Hlt. specialize (Hlt _ Hin). simpl in Hlt. destruct Hlt as [Hle _].
    assert (starts_with p kv.1 = true); [|congruence]. by eapply starts_with_between.
Qed.

Lemma StronglySorted_filter_fst {A B} (R : A → A → Prop) (P : A * B → Prop) `{∀ x, Decision (P x)} (l : list (A * B)) :
  StronglySorted R l.*1 → StronglySorted R (filter P l).*1.
Proof.
  induction l as [|x l IH]; intros Hs; [constructor|].
  rewrite fmap_cons in Hs. apply StronglySorted_inv in Hs as [Hs Hlt].
  rewrite filter_cons. case_decide; [|by apply IH]. rewrite fmap_cons. constructor; [by apply IH|].
  rewrite Forall_fmap, Forall_forall in Hlt |- *. intros y [_ Hy]%list_elem_of_filter. by apply Hlt.
Qed.

(** A list sorted strictly by key is determined by its elements. *)
Lemma sorted_kvs_ext (l l' : list (bytes * bytes)) :
  StronglySorted bytes_lt l.*1 → StronglySorted bytes_lt l'.*1 → (∀ kv, kv ∈ l ↔ kv ∈ l') → l = l'.
Proof.
  assert (∀ l : list (bytes * bytes), StronglySorted bytes_lt l.*1 → StronglySorted (λ x y, bytes_lt x.1 y.1) l) as Hkv.
  { induction l0 as [|x l0 IH]; [constructor|]. rewrite fmap_cons. intros [Hs Hx]%StronglySorted_inv.
    constructor; [by apply IH|]. by rewrite Forall_fmap in Hx. }
  assert (∀ l : list (bytes * bytes), StronglySorted (λ x y, bytes_lt x.1 y.1) l → NoDup l) as Hnd.
  { induction 1 as [|x l0 _ IH Hx]; constructor; [|done]. intros Hin. rewrite Forall_forall in Hx.
    by destruct (Hx x Hin) as [_ []]. }
  intros Hs%Hkv Hs'%Hkv Hel. eapply (StronglySorted_unique_strong (λ x y, bytes_lt x.1 y.1)); [|done..|].
  - intros x y _ _ [Hxy Hne] [Hyx _]. destruct Hne. by apply (anti_symm bytes_le).
  - apply NoDup_Permutation; auto.
Qed.

Lemma sorted_NoDup (l : list bytes) : StronglySorted bytes_lt l → NoDup l.
Proof.
  induction 1 as [|x l _ IH Hx]; constructor; [|done]. intros Hin. rewrite Forall_forall in Hx. by destruct (Hx x Hin) as [_ []].
Qed.

Section scans.
Context `{RocksOk D}.

(** Databases with equal reads of the keys with a prefix have equal scans of it. *)
Lemma scan_prefix_ext d d' cf cf' p :
  (∀ k, p `prefix_of` k → get_cf d cf k = get_cf d' cf' k) → scan_prefix d cf p = scan_prefix d' cf' p.
Proof.
  intros Hk. unfold scan_prefix, iter_from. rewrite !take_while_prefix.
  2,4: apply StronglySorted_filter_fst, iter_sorted.
  2,3: apply Forall_forall; intros kv [Hkv _]%list_elem_of_filter; done.
  rewrite !list_filter_filter. apply sorted_kvs_ext.
  1,2: apply StronglySorted_filter_fst, iter_sorted.
  intros [k v]. rewrite !list_elem_of_filter, !iter_spec. simpl. rewrite starts_with_spec.
  split; intros [[Hp Hle] Hg]; rewrite Hk in * by done; auto.
Qed.

Lemma scan_prefix_filter d cf p :
  scan_prefix d cf p = filter (λ kv, starts_with p kv.1 = true) (iter_cf d cf).
Proof.
  unfold scan_prefix, iter_from. rewrite take_while_prefix.
  - rewrite list_filter_filter. apply list_filter_iff. intros kv.
    split; [naive_solver|]. intros Hp. split; [done|by apply starts_with_le].
  - apply StronglySorted_filter_fst, iter_sorted.
  - apply Forall_forall. intros kv [Hk _]%list_elem_of_filter. done.
Qed.

Lemma elem_of_scan_prefix d cf p k v :
  (k, v) ∈ scan_prefix d cf p ↔ p `prefix_of` k ∧ get_cf d cf k = Some v.
Proof.
  rewrite scan_prefix_filter, list_elem_of_filter, iter_spec. simpl. by rewrite starts_with_spec.
Qed.
End scans.

(** ** An in-memory instance *)

Abbreviation MemDb := (gmap string (gmap bytes bytes)).
Definition mem_cf (d : MemDb) (n : string) : gmap bytes bytes := default ∅ (d !! n).
Definition mem_exists (d : MemDb) (n : string) : bool :=
  bool_decide (n = DEFAULT_CF) || bool_decide (is_Some (d !! n)).
Definition mem_op (d : MemDb) (op : BatchOp) : MemDb :=
  match op with
  | BatchPut cf k v => if mem_exists d cf then <[cf := <[k := v]> (mem_cf d cf)]> d else d
  | BatchDelete cf k => if mem_exists d cf then <[cf := delete k (mem_cf d cf)]> d else d
  | BatchDeleteRange cf a b =>
      if mem_exists d cf then <[cf := filter (λ kv, ¬ (bytes_le a kv.1 ∧ bytes_lt kv.1 b)) (mem_cf d cf)]> d else d
  end.
Definition key_le (a b : bytes * bytes) : Prop := bytes_le a.1 b.1.
#[global] Instance key_le_dec a b : Decision (key_le a b).
Proof. unfold key_le. apply _. Defined.
#[global] Instance key_le_total : Total key_le.
Proof. intros a b. apply bytes_le_total. Qed.
#[global] Instance key_le_trans : Transitive key_le.
Proof. intros a b c. apply bytes_le_trans. Qed.

#[global] Instance mem_rocks : Rocks MemDb := {|
  list_cf d := DEFAULT_CF :: filter (λ n, n ≠ DEFAULT_CF) (map_to_list d).*1;
  cf_exists := mem_exists;
  get_cf d n k := mem_cf d n !! k;
  write := foldl mem_op;
  create_cf d n := if mem_exists d n then d else <[n := ∅]> d;
  drop_cf d n := delete n d;
  iter_cf d n := merge_sort key_le (map_to_list (mem_cf d n));
  size_in_bytes b := N.of_nat (length b);
|}.

Lemma mem_op_exists d op n : mem_exists (mem_op d op) n = mem_exists d n.
Proof.
  assert (∀ cf m, mem_exists d cf = true → mem_exists (<[cf := m]> d) n = mem_exists d n) as Hins.
  { unfold mem_exists. intros cf m. rewrite !orb_true_iff, !bool_decide_eq_true. intros Hcf. 
    destruct (decide (n = cf)) as [->|Hne]; [|by rewrite lookup_insert_ne].
    rewrite lookup_insert_eq. destruct Hcf as [->|Hcf]; [done|].
    rewrite (bool_decide_true (is_Some (d !! cf))) by done. by rewrite (bool_decide_true (is_Some (Some m))) by eauto. }
  destruct op; simpl; case_match; auto.
Qed.

Lemma mem_op_get d op n k :
  mem_exists d n = true → mem_cf (mem_op d op) n !! k = batch_op_apply n k op (mem_cf d n !! k).
Proof.
  intros Hn. unfold mem_cf at 1. destruct op as [cf k' v|cf k'|cf a b]; simpl.
  - case_decide as E; [destruct E as [-> ->]|].
    + rewrite Hn, lookup_insert_eq. simpl. by rewrite lookup_insert_eq.
    + destruct (mem_exists d cf); [|done]. destruct (decide (cf = n)) as [->|Hne].
      * rewrite lookup_insert_eq. simpl. rewrite lookup_insert_ne; [done|naive_solver].
      * by rewrite lookup_insert_ne.
  - case_decide as E; [destruct E as [-> ->]|].
    + rewrite Hn, lookup_insert_eq. simpl. by rewrite lookup_delete_eq.
    + destruct (mem_exists d cf); [|done]. destruct (decide (cf = n)) as [->|Hne].
      * rewrite lookup_insert_eq. simpl. rewrite lookup_delete_ne; [done|naive_solver].
      * by rewrite lookup_insert_ne.
  - destruct (decide (cf = n)) as [->|Hne].
    + rewrite Hn, lookup_insert_eq. cbn [default]. case_decide as E.
      * apply map_lookup_filter_None. right. intros x _. simpl. naive_solver.
      * destruct (mem_cf d n !! k) as [x|] eqn:Ex.
        -- apply map_lookup_filter_Some. simpl. naive_solver.
        -- apply map_lookup_filter_None. by left.
    + rewrite decide_False by (by intros [? _]). case_match; [by rewrite lookup_insert_ne|done].
Qed.

Lemma mem_iter_sorted (m : gmap bytes bytes) : StronglySorted bytes_lt (merge_sort key_le (map_to_list m)).*1.
Proof.
  pose proof (Sorted_merge_sort key_le (map_to_list m)) as Hs.
  apply Sorted_StronglySorted in Hs; [|exact key_le_trans].
  assert (NoDup (merge_sort key_le (map_to_list m)).*1) as Hnd.
  { rewrite merge_sort_Permutation. apply NoDup_fst_map_to_list. }
  induction Hs as [|x l Hs IH Hx]; simpl in *; [constructor|].
  apply NoDup_cons in Hnd as [Hni Hnd]. constructor; [by apply IH|].
  rewrite Forall_fmap, Forall_forall. intros y Hy. rewrite Forall_forall in Hx.
  split; [by apply Hx|]. intros E. apply Hni. simpl. apply list_elem_of_fmap. eauto.
Qed.

#[global] Instance mem_rocks_ok : RocksOk MemDb.
Proof.
  split; simpl.
  - intros d. unfold mem_exists. by rewrite bool_decide_true.
  - intros d n. unfold mem_exists. rewrite orb_true_iff, !bool_decide_eq_true, elem_of_cons.
    rewrite list_elem_of_filter, list_elem_of_fmap. split.
    + intros [->|[_ ([n' m] & -> & Hm)]]; [by left|]. right. apply elem_of_map_to_list in Hm. eauto.
    + destruct (decide (n = DEFAULT_CF)) as [->|Hne]; [by left|]. intros [?|[m Hm]]; [done|].
      right. split; [done|]. exists (n, m). split; [done|]. by apply elem_of_map_to_list.
  - intros d b n. revert d. induction b as [|op b IH]; intros d; simpl; [done|]. by rewrite IH, mem_op_exists.
  - intros d n m. destruct (mem_exists d n) eqn:E; unfold mem_exists in *.
    + destruct (bool_decide_reflect (m = n)) as [->|]; simpl; [|done]. by rewrite E.
    + destruct (decide (m = n)) as [->|Hne].
      * rewrite lookup_insert_eq, (bool_decide_true (is_Some _)), (bool_decide_true (n = n)) by eauto.
        by rewrite orb_true_r.
      * rewrite lookup_insert_ne by done. by rewrite (bool_decide_false (m = n)).
  - intros d n m Hn. unfold mem_exists. destruct (decide (m = n)) as [->|Hne].
    + rewrite lookup_delete_eq, (bool_decide_true (n = n)), (bool_decide_false (n = DEFAULT_CF)) by done.
      by rewrite bool_decide_false by (by intros []).
    + by rewrite lookup_delete_ne, (bool_decide_false (m = n)) by done.
  - intros d b n k. revert d. induction b as [|op b IH]; intros d Hn; [done|].
    cbn [foldl]. rewrite IH by (by rewrite mem_op_exists). by rewrite mem_op_get.
  - intros d n k Hn. rewrite Hn. unfold mem_cf. by rewrite lookup_insert_eq.
  - intros d n m k Hne. unfold mem_cf. case_match; [done|]. by rewrite lookup_insert_ne.
  - intros d n m k Hne. unfold mem_cf. by rewrite lookup_delete_ne.
  - intros d n k v. rewrite merge_sort_Permutation. apply elem_of_map_to_list.
  - intros d n. apply mem_iter_sorted.
Qed.
