(* ===== verification/Durability.v ===== *)
(** * The database write and durability worker (src/src/storage/durability.rs)

    Producers reserve capacity, enqueue batches and go on; one worker thread
    takes the queue in order, writes the batches it collects, flushes the
    write-ahead log once for all of them and answers their callbacks. The
    budget operations are functions; producers and the worker interleave as two
    step relations on one state, split wherever the source takes or releases
    the shared lock.

    Time decides only when a collection window closes, which may happen at any
    poll, so closing it is always possible in the model. A failed write may or
    may not have reached the log. Metrics are not modelled. *)

From S2P Require Import Prelude Types Rocks ApplyDurability.
From coqutil Require Import Datatypes.RecordSetters.
Import TriangleBracketNotations.

Inductive DurabilityKind := DurabilityKind_Log | DurabilityKind_State.

Record DurabilityConfig := mkDurabilityConfig {
  dc_max_pending_requests : N;
  dc_max_pending_bytes : N;
  dc_max_batch_delay : N;   (* microseconds *)
  dc_adaptive_batching : bool;
}.

(** [DurabilityConfig::default], with the value of the environment switch. *)
Definition DurabilityConfig_default (adaptive : bool) : DurabilityConfig :=
  mkDurabilityConfig 1024 MAX_PENDING_WAL_BYTES 200 adaptive.

Inductive WorkerStatus :=
| WorkerStatus_Running
| WorkerStatus_Failed (error : string)
| WorkerStatus_Stopped.
#[global] Instance WorkerStatus_eq_dec : EqDecision WorkerStatus.
Proof. solve_decision. Defined.

Record BudgetState := mkBudget {
  bs_status : WorkerStatus;
  bs_pending_requests : N;
  bs_pending_bytes : N;
  bs_peak_pending_requests : N;
  bs_peak_pending_bytes : N;
}.

(** [Shared::new]. *)
Definition Shared_new : BudgetState := mkBudget WorkerStatus_Running 0 0 0 0.

(** [Shared::try_reserve]: the bytes charged, or nothing when the budget is full. *)
Definition try_reserve (config : DurabilityConfig) (bytes : N) : io BudgetState (option N) := λ state,
  if (dc_max_pending_bytes config <? bytes)%N then (state, Err (Error_Io "WAL batch exceeds durability limit"))
  else
    match bs_status state with
    | WorkerStatus_Failed error => (state, Err (Error_Io error))
    | WorkerStatus_Stopped => (state, Err (Error_Io "WAL durability coordinator stopped"))
    | WorkerStatus_Running =>
        let request_fits := (bs_pending_requests state <? dc_max_pending_requests config)%N in
        let bytes_fit := (saturating_add usize_max (bs_pending_bytes state) bytes <=? dc_max_pending_bytes config)%N in
        if negb request_fits || negb bytes_fit then (state, Ok None)
        else
          let requests := (bs_pending_requests state + 1)%N in
          let pending := (bs_pending_bytes state + bytes)%N in
          (mkBudget WorkerStatus_Running requests pending
             (N.max (bs_peak_pending_requests state) requests) (N.max (bs_peak_pending_bytes state) pending),
           Ok (Some bytes))
    end.

(** [Drop for Reservation], of an active one. *)
Definition drop_reservation (charged_bytes : N) (state : BudgetState) : BudgetState :=
  state <| bs_pending_requests := (bs_pending_requests state - 1)%N |>
        <| bs_pending_bytes := (bs_pending_bytes state - charged_bytes)%N |>.

(** [Shared::fail], [Shared::failure], [Shared::stop]. *)
Definition Shared_fail (error : string) (state : BudgetState) : BudgetState :=
  if bool_decide (bs_status state = WorkerStatus_Running)
  then state <| bs_status := WorkerStatus_Failed error |> else state.
Definition Shared_failure (state : BudgetState) : option string :=
  match bs_status state with
  | WorkerStatus_Failed error => Some error
  | WorkerStatus_Running | WorkerStatus_Stopped => None
  end.
Definition Shared_stop (state : BudgetState) : BudgetState :=
  if bool_decide (bs_status state = WorkerStatus_Running)
  then state <| bs_status := WorkerStatus_Stopped |> else state.

(** A request with its reservation; the callbacks are named by its number. *)
Record WriteRequest := mkWriteRequest {
  wr_id : nat;
  wr_charged : N;
  wr_batch : list BatchOp;
  wr_kind : DurabilityKind;
  wr_on_written : bool;
}.
Record PendingFlush := mkPendingFlush { pf_id : nat; pf_charged : N; pf_kind : DurabilityKind }.
Inductive Command := Command_Write (request : WriteRequest) | Command_Shutdown.

(** Calls of the callbacks, with the error they are given. *)
Inductive Callback :=
| Callback_written (id : nat) (error : option string)
| Callback_durable (id : nat) (error : option string).

(** Where the worker is in [run_worker], [complete_batch] or [fail_remaining]. *)
Inductive WorkerPc :=
| Pc_Recv                                                                         (* blocking recv *)
| Pc_Received (request : WriteRequest) (batch : list PendingFlush) (batch_bytes : N) (* before the failure check *)
| Pc_Writing (request : WriteRequest) (batch : list PendingFlush) (batch_bytes : N)
| Pc_Collecting (batch : list PendingFlush) (batch_bytes : N)
| Pc_Collected (batch : list PendingFlush) (shutdown_after_flush : bool)          (* before the failure check *)
| Pc_Flushing (batch : list PendingFlush) (shutdown_after_flush : bool)
| Pc_Flushed (batch : list PendingFlush) (shutdown_after_flush : bool)            (* before the failure check *)
| Pc_Completing (batch : list PendingFlush) (error : option string) (shutdown_after_flush : bool)
| Pc_Failing (error : string)
| Pc_Exited.

(** The coordinator with its producers: reservations not yet enqueued, whether
    the sending side is open, the queue, and the worker. [wd_accepted] is the
    history of enqueued requests, [wd_wal] what the write calls put into the
    write-ahead log and [wd_synced] how much of it has been flushed. *)
Record WalDurability := mkWal {
  wd_budget : BudgetState;
  wd_held : list (nat * N);
  wd_next : nat;
  wd_sender : bool;
  wd_queue : list Command;
  wd_pc : WorkerPc;
  wd_accepted : list WriteRequest;
  wd_wal : list WriteRequest;
  wd_synced : nat;
  wd_calls : list Callback;
}.

(** [WalDurability::with_config]. *)
Definition with_config : WalDurability := mkWal Shared_new [] 0 true [] Pc_Recv [] [] 0 [].

(** [on_written], when the request has one. *)
Definition call_written (r : WriteRequest) (error : option string) : list Callback :=
  if wr_on_written r then [Callback_written (wr_id r) error] else [].

(** [fail_unwritten]: both callbacks, then the reservation goes away. *)
Definition fail_unwritten (r : WriteRequest) (error : string) (w : WalDurability) : WalDurability :=
  w <| wd_calls := wd_calls w ++ call_written r (Some error) ++ [Callback_durable (wr_id r) (Some error)] |>
    <| wd_budget := drop_reservation (wr_charged r) (wd_budget w) |>.

(** The end of [write_one] after a successful write. *)
Definition wrote_one (r : WriteRequest) (batch : list PendingFlush) (batch_bytes : N) (w : WalDurability) : WalDurability :=
  w <| wd_wal := wd_wal w ++ [r] |>
    <| wd_calls := wd_calls w ++ call_written r None |>
    <| wd_pc := Pc_Collecting (batch ++ [mkPendingFlush (wr_id r) (wr_charged r) (wr_kind r)])
                  (saturating_add usize_max batch_bytes (wr_charged r)) |>.

(** One iteration of [complete_batch]. *)
Definition complete_one (p : PendingFlush) (error : option string) (w : WalDurability) : WalDurability :=
  w <| wd_budget := drop_reservation (pf_charged p) (wd_budget w) |>
    <| wd_calls := wd_calls w ++ [Callback_durable (pf_id p) error] |>.

Definition set_budget (f : BudgetState → BudgetState) (w : WalDurability) : WalDurability :=
  w <| wd_budget := f (wd_budget w) |>.
Definition goto (pc : WorkerPc) (w : WalDurability) : WalDurability := w <| wd_pc := pc |>.
Definition set_queue (q : list Command) (w : WalDurability) : WalDurability := w <| wd_queue := q |>.

Section steps.
Context (config : DurabilityConfig).
Implicit Types (w : WalDurability).

(** What producers, the health registry and the owner do. *)
Inductive producer_step : WalDurability → WalDurability → Prop :=
| step_reserve w bytes charged b :
    try_reserve config bytes (wd_budget w) = (b, Ok (Some charged)) →
    producer_step w (w <| wd_budget := b |> <| wd_held := (wd_next w, charged) :: wd_held w |>
                       <| wd_next := S (wd_next w) |>)
| step_release w id charged l1 l2 : (* dropped unused, or [submit] failed *)
    wd_held w = l1 ++ (id, charged) :: l2 →
    producer_step w (w <| wd_budget := drop_reservation charged (wd_budget w) |> <| wd_held := l1 ++ l2 |>)
| step_submit w r l1 l2 :
    wd_held w = l1 ++ (wr_id r, wr_charged r) :: l2 → wd_sender w = true → wd_pc w ≠ Pc_Exited →
    (N.of_nat (length (wd_queue w)) < dc_max_pending_requests config)%N →
    producer_step w (w <| wd_held := l1 ++ l2 |> <| wd_queue := wd_queue w ++ [Command_Write r] |>
                       <| wd_accepted := wd_accepted w ++ [r] |>)
| step_hook w error : (* [failure_hook] *)
    producer_step w (set_budget (Shared_fail error) w)
| step_drop w : (* [Drop for WalDurability] *)
    wd_sender w = true → wd_pc w ≠ Pc_Exited →
    (N.of_nat (length (wd_queue w)) < dc_max_pending_requests config)%N →
    producer_step w (w <| wd_sender := false |> <| wd_queue := wd_queue w ++ [Command_Shutdown] |>)
| step_drop_exited w :
    wd_sender w = true → wd_pc w = Pc_Exited → producer_step w (w <| wd_sender := false |>).

(** [run_worker]. *)
Inductive worker_step : WalDurability → WalDurability → Prop :=
| step_recv_write w r q :
    wd_pc w = Pc_Recv → wd_queue w = Command_Write r :: q →
    worker_step w (goto (Pc_Received r [] 0) (set_queue q w))
| step_recv_shutdown w q :
    wd_pc w = Pc_Recv → wd_queue w = Command_Shutdown :: q →
    worker_step w (goto Pc_Exited (set_budget Shared_stop (set_queue q w)))
| step_recv_disconnected w :
    wd_pc w = Pc_Recv → wd_queue w = [] → wd_sender w = false →
    worker_step w (goto Pc_Exited (set_budget Shared_stop w))
| step_check_failed w r batch n error :
    wd_pc w = Pc_Received r batch n → Shared_failure (wd_budget w) = Some error →
    worker_step w (goto (Pc_Completing batch (Some error) false) (fail_unwritten r error w))
| step_check_ok w r batch n :
    wd_pc w = Pc_Received r batch n → Shared_failure (wd_budget w) = None →
    worker_step w (goto (Pc_Writing r batch n) w)
| step_write_ok w r batch n :
    wd_pc w = Pc_Writing r batch n → worker_step w (wrote_one r batch n w)
| step_write_failed w r batch n error (reached : bool) :
    wd_pc w = Pc_Writing r batch n →
    let message := "database WAL write failed: " +:+ error in
    let w1 := w <| wd_wal := wd_wal w ++ (if reached then [r] else []) |> in
    worker_step w (goto (Pc_Completing batch (Some message) false)
                     (set_budget (Shared_fail message) (fail_unwritten r message w1)))
| step_collect w batch n r q :
    wd_pc w = Pc_Collecting batch n →
    (N.of_nat (length batch) < dc_max_pending_requests config)%N → (n < dc_max_pending_bytes config)%N →
    wd_queue w = Command_Write r :: q →
    worker_step w (goto (Pc_Received r batch n) (set_queue q w))
| step_collect_shutdown w batch n q :
    wd_pc w = Pc_Collecting batch n →
    (N.of_nat (length batch) < dc_max_pending_requests config)%N → (n < dc_max_pending_bytes config)%N →
    wd_queue w = Command_Shutdown :: q →
    worker_step w (goto (Pc_Collected batch true) (set_queue q w))
| step_collect_disconnected w batch n :
    wd_pc w = Pc_Collecting batch n →
    (N.of_nat (length batch) < dc_max_pending_requests config)%N → (n < dc_max_pending_bytes config)%N →
    wd_queue w = [] → wd_sender w = false → worker_step w (goto (Pc_Collected batch true) w)
| step_collect_stop w batch n : (* the window closes, or a limit is reached *)
    wd_pc w = Pc_Collecting batch n → worker_step w (goto (Pc_Collected batch false) w)
| step_collected_failed w batch shutdown error :
    wd_pc w = Pc_Collected batch shutdown → Shared_failure (wd_budget w) = Some error →
    worker_step w (goto (Pc_Completing batch (Some error) shutdown) w)
| step_collected_ok w batch shutdown :
    wd_pc w = Pc_Collected batch shutdown → Shared_failure (wd_budget w) = None →
    worker_step w (goto (Pc_Flushing batch shutdown) w)
| step_flush_ok w batch shutdown :
    wd_pc w = Pc_Flushing batch shutdown →
    worker_step w (goto (Pc_Flushed batch shutdown) (w <| wd_synced := length (wd_wal w) |>))
| step_flush_failed w batch shutdown error synced :
    wd_pc w = Pc_Flushing batch shutdown → wd_synced w ≤ synced ≤ length (wd_wal w) →
    let message := "WAL flush failed: " +:+ error in
    worker_step w (goto (Pc_Completing batch (Some message) shutdown)
                     (set_budget (Shared_fail message) (w <| wd_synced := synced |>)))
| step_flushed_failed w batch shutdown error :
    wd_pc w = Pc_Flushed batch shutdown → Shared_failure (wd_budget w) = Some error →
    worker_step w (goto (Pc_Completing batch (Some error) shutdown) w)
| step_flushed_ok w batch shutdown :
    wd_pc w = Pc_Flushed batch shutdown → Shared_failure (wd_budget w) = None →
    worker_step w (goto (Pc_Completing batch None shutdown) w)
| step_complete w p batch error shutdown :
    wd_pc w = Pc_Completing (p :: batch) error shutdown →
    worker_step w (goto (Pc_Completing batch error shutdown) (complete_one p error w))
| step_completed_failed w error shutdown :
    wd_pc w = Pc_Completing [] (Some error) shutdown → worker_step w (goto (Pc_Failing error) w)
| step_completed w :
    wd_pc w = Pc_Completing [] None false → worker_step w (goto Pc_Recv w)
| step_completed_shutdown w :
    wd_pc w = Pc_Completing [] None true → worker_step w (goto Pc_Exited (set_budget Shared_stop w))
| step_fail_write w error r q : (* [fail_remaining] *)
    wd_pc w = Pc_Failing error → (0 < bs_pending_requests (wd_budget w))%N → wd_queue w = Command_Write r :: q →
    worker_step w (fail_unwritten r error (set_queue q w))
| step_fail_shutdown w error q :
    wd_pc w = Pc_Failing error → (0 < bs_pending_requests (wd_budget w))%N → wd_queue w = Command_Shutdown :: q →
    worker_step w (set_queue q w)
| step_fail_disconnected w error :
    wd_pc w = Pc_Failing error → (0 < bs_pending_requests (wd_budget w))%N → wd_queue w = [] → wd_sender w = false →
    worker_step w (goto Pc_Exited w)
| step_fail_done w error :
    wd_pc w = Pc_Failing error → bs_pending_requests (wd_budget w) = 0%N → worker_step w (goto Pc_Exited w).

Definition wal_step w w' : Prop := producer_step w w' ∨ worker_step w w'.
Definition wal_reachable w : Prop := rtc wal_step with_config w.
End steps.
