(* ===== verification/DurabilityProofs.v ===== *)
(** * Correctness of the write and durability worker

    In every interleaving of producers and worker: the budget counts exactly
    the reservations that exist and stays within its limits; the write-ahead
    log holds the accepted requests in order, a successful durability answer
    covers only flushed ones, and no request is answered twice or forgotten;
    and the worker, left to run, answers everything it has accepted. *)

From S2P Require Import Prelude Types ApplyDurability Rocks Durability.
From coqutil Require Import Datatypes.RecordSetters.

Import TriangleBracketNotations.

(** ** What the state holds *)

Definition pc_batch (pc : WorkerPc) : list PendingFlush :=
  match pc with
  | Pc_Received _ b _ | Pc_Writing _ b _ | Pc_Collecting b _ | Pc_Collected b _ | Pc_Flushing b _ | Pc_Flushed b _
  | Pc_Completing b _ _ => b
  | Pc_Recv | Pc_Failing _ | Pc_Exited => []
  end.
Definition pc_request (pc : WorkerPc) : list WriteRequest :=
  match pc with Pc_Received r _ _ | Pc_Writing r _ _ => [r] | _ => [] end.
Definition pc_shutdown (pc : WorkerPc) : bool :=
  match pc with
  | Pc_Collected _ s | Pc_Flushing _ s | Pc_Flushed _ s | Pc_Completing _ _ s => s
  | _ => false
  end.
(** The worker has not seen a failure; its batch is covered by a flush. *)
Definition pc_healthy (pc : WorkerPc) : bool :=
  match pc with Pc_Completing _ (Some _) _ | Pc_Failing _ | Pc_Exited => false | _ => true end.
Definition pc_flushed (pc : WorkerPc) : bool :=
  match pc with Pc_Flushed _ _ | Pc_Completing _ None _ => true | _ => false end.

Definition queue_requests (q : list Command) : list WriteRequest :=
  omap (λ c, match c with Command_Write r => Some r | Command_Shutdown => None end) q.
Definition unwritten (w : WalDurability) : list WriteRequest := pc_request (wd_pc w) ++ queue_requests (wd_queue w).
Definition in_batch (w : WalDurability) : list PendingFlush := pc_batch (wd_pc w).

(** The charges of every reservation that exists. *)
Definition live (w : WalDurability) : list N := (wd_held w).*2 ++ (pf_charged <$> in_batch w) ++ (wr_charged <$> unwritten w).

Definition durable_ids (calls : list Callback) : list nat :=
  omap (λ c, match c with Callback_durable id _ => Some id | _ => None end) calls.
Definition ok_ids (calls : list Callback) : list nat :=
  omap (λ c, match c with Callback_durable id None => Some id | _ => None end) calls.
Definition written_ids (calls : list Callback) : list nat :=
  omap (λ c, match c with Callback_written id _ => Some id | _ => None end) calls.

Lemma queue_requests_app q1 q2 : queue_requests (q1 ++ q2) = queue_requests q1 ++ queue_requests q2.
Proof. apply omap_app. Qed.

Ltac wal_cases Hstep :=
  destruct Hstep as [Hstep|Hstep]; destruct Hstep;
  repeat match goal with x := _ |- _ => subst x end;
  match goal with w : WalDurability |- _ => destruct w end;
  unfold fail_unwritten, wrote_one, complete_one, set_budget, goto, set_queue in *; cbv [apply_update constant] in *; simpl in *; simplify_eq.

(** ** The budget *)

Definition total (l : list N) : N := foldr N.add 0%N l.

Lemma total_app l k : total (l ++ k) = (total l + total k)%N.
Proof. induction l as [|x l IH]; [done|]. cbn [app total foldr]. unfold total in *. lia. Qed.

#[global] Instance total_proper : Proper ((≡ₚ) ==> (=)) total.
Proof. induction 1; unfold total in *; simpl in *; lia. Qed.

Record budget_ok (config : DurabilityConfig) (b : BudgetState) (l : list N) : Prop := {
  bo_requests : bs_pending_requests b = N.of_nat (length l);
  bo_bytes : bs_pending_bytes b = total l;
  bo_peak_requests : (bs_pending_requests b ≤ bs_peak_pending_requests b ≤ dc_max_pending_requests config)%N;
  bo_peak_bytes : (bs_pending_bytes b ≤ bs_peak_pending_bytes b ≤ dc_max_pending_bytes config)%N;
}.

Lemma budget_ok_perm config b l k : l ≡ₚ k → budget_ok config b l → budget_ok config b k.
Proof. intros Hp [Hr Hb ? ?]. constructor; [by rewrite <-Hp|by rewrite <-Hp|done..]. Qed.
#[global] Instance budget_ok_proper config b : Proper ((≡ₚ) ==> iff) (budget_ok config b).
Proof. intros l k Hp. by split; apply budget_ok_perm. Qed.

Lemma budget_ok_drop config b c l : budget_ok config b (c :: l) → budget_ok config (drop_reservation c b) l.
Proof.
  intros [Hr Hb Hpr Hpb]. destruct b as [st pr pb ppr ppb]. cbn -[N.of_nat total] in *.
  assert (total (c :: l) = c + total l)%N as Ht by done. constructor; cbn -[N.of_nat total]; lia.
Qed.

Lemma budget_ok_fail config e b l : budget_ok config b l → budget_ok config (Shared_fail e b) l.
Proof. intros []. destruct b. unfold Shared_fail. case_bool_decide; by constructor. Qed.
Lemma budget_ok_stop config b l : budget_ok config b l → budget_ok config (Shared_stop b) l.
Proof. intros []. destruct b. unfold Shared_stop. case_bool_decide; by constructor. Qed.

Lemma try_reserve_budget config bytes b b' charged l :
  (dc_max_pending_bytes config < usize_max)%N →
  try_reserve config bytes b = (b', Ok (Some charged)) → budget_ok config b l → budget_ok config b' (charged :: l).
Proof.
  intros Hmax. unfold try_reserve, saturating_add. destruct (N.ltb_spec (dc_max_pending_bytes config) bytes); [done|].
  destruct (bs_status b); [|done..].
  destruct (N.ltb_spec (bs_pending_requests b) (dc_max_pending_requests config)); [|done].
  destruct (N.leb_spec (N.min (bs_pending_bytes b + bytes) usize_max) (dc_max_pending_bytes config)); [|done].
  intros [= <- <-] [Hr Hb Hpr Hpb]. assert (total (bytes :: l) = bytes + total l)%N as Ht by done.
  constructor; cbn -[N.of_nat total]; lia.
Qed.

Lemma budget_step config w w' : (dc_max_pending_bytes config < usize_max)%N → wal_step config w w' →
  budget_ok config (wd_budget w) (live w) → budget_ok config (wd_budget w') (live w').
Proof.
  intros Hmax Hstep. wal_cases Hstep; unfold live, in_batch, unwritten; simpl;
    rewrite ?queue_requests_app, ?fmap_app, ?app_nil_r; simpl; try done; intros Hb;
    repeat first [apply budget_ok_fail|apply budget_ok_stop|apply budget_ok_drop].
  all: try (eapply budget_ok_perm; [|exact Hb]; simpl; solve_Permutation).
  eapply try_reserve_budget; [done|eassumption|exact Hb].
Qed.

(** ** Answers *)

(** The requests that want to hear about their write. *)
Definition wants (rs : list WriteRequest) : list nat := wr_id <$> filter (λ r, wr_on_written r = true) rs.

Lemma wants_app rs rs' : wants (rs ++ rs') = wants rs ++ wants rs'.
Proof. unfold wants. by rewrite filter_app, fmap_app. Qed.
Lemma wants_cons r rs : wants (r :: rs) = wants [r] ++ wants rs.
Proof. apply (wants_app [r]). Qed.

(** Requests are numbered once; every accepted one is answered, in the
    worker's hands or queued, and is told about its write at most once. *)
Definition numbers_ok (w : WalDurability) : Prop :=
  NoDup ((wd_held w).*1 ++ (wr_id <$> wd_accepted w)) ∧
  Forall (λ id, id < wd_next w) ((wd_held w).*1 ++ (wr_id <$> wd_accepted w)).
Definition durable_ok (w : WalDurability) : Prop :=
  durable_ids (wd_calls w) ++ (pf_id <$> in_batch w) ++ (wr_id <$> unwritten w) ≡ₚ (wr_id <$> wd_accepted w).
Definition written_ok (w : WalDurability) : Prop :=
  written_ids (wd_calls w) ++ wants (unwritten w) ≡ₚ wants (wd_accepted w).

Lemma durable_ids_app c1 c2 : durable_ids (c1 ++ c2) = durable_ids c1 ++ durable_ids c2.
Proof. apply omap_app. Qed.
Lemma ok_ids_app c1 c2 : ok_ids (c1 ++ c2) = ok_ids c1 ++ ok_ids c2.
Proof. apply omap_app. Qed.
Lemma written_ids_app c1 c2 : written_ids (c1 ++ c2) = written_ids c1 ++ written_ids c2.
Proof. apply omap_app. Qed.
Lemma call_written_durable r e : durable_ids (call_written r e) = [].
Proof. unfold call_written. by destruct (wr_on_written r). Qed.
Lemma call_written_ok r e : ok_ids (call_written r e) = [].
Proof. unfold call_written. by destruct (wr_on_written r). Qed.
Lemma call_written_written r e : written_ids (call_written r e) = wants [r].
Proof. unfold call_written, wants. rewrite filter_cons, filter_nil. by destruct (wr_on_written r). Qed.


Lemma numbers_step config w w' : wal_step config w w' → numbers_ok w → numbers_ok w'.
Proof.
  intros Hstep. wal_cases Hstep; unfold numbers_ok; simpl; try done; intros [Hf Hn].
  - split; [constructor; [|done]|constructor; [lia|eapply Forall_impl; [exact Hn|simpl; lia]]].
    intros Hin. rewrite Forall_forall in Hn. specialize (Hn _ Hin). simpl in Hn. lia.
  - assert ((l1 ++ (id, charged) :: l2).*1 ++ (wr_id <$> wd_accepted) ≡ₚ id :: (l1 ++ l2).*1 ++ (wr_id <$> wd_accepted))
      as Hp by (rewrite !fmap_app; simpl; solve_Permutation).
    rewrite Hp in Hf, Hn. split; [by apply NoDup_cons in Hf as [_ ?]|by apply Forall_cons in Hn as [_ ?]].
  - assert ((l1 ++ l2).*1 ++ (wr_id <$> wd_accepted ++ [r]) ≡ₚ (l1 ++ (wr_id r, wr_charged r) :: l2).*1 ++ (wr_id <$> wd_accepted))
      as Hp by (rewrite !fmap_app; simpl; solve_Permutation).
    by rewrite Hp.
Qed.

Ltac calls_norm := unfold in_batch, unwritten; simpl;
  rewrite ?durable_ids_app, ?written_ids_app, ?call_written_durable, ?call_written_written, ?queue_requests_app,
    ?fmap_app, ?wants_app; simpl; rewrite ?app_nil_r.

Lemma durable_step config w w' : wal_step config w w' → durable_ok w → durable_ok w'.
Proof.
  intros Hstep. wal_cases Hstep; unfold durable_ok; calls_norm; try done; intros H; rewrite <-?H; simpl; solve_Permutation.
Qed.

Lemma written_step config w w' : wal_step config w w' → written_ok w → written_ok w'.
Proof.
  intros Hstep. wal_cases Hstep; unfold written_ok; calls_norm; try done.
  all: rewrite ?(wants_cons r (_ _)); intros H; rewrite <-?H; solve_Permutation.
Qed.

(** ** Shutdown *)

(** Nothing follows a shutdown, which is sent when the sending side closes. *)
Definition queue_shape (sender : bool) (q : list Command) : Prop :=
  if sender then ∃ rs, q = Command_Write <$> rs else q = [] ∨ ∃ rs, q = (Command_Write <$> rs) ++ [Command_Shutdown].

Lemma queue_shape_write sender r q : queue_shape sender (Command_Write r :: q) → queue_shape sender q.
Proof.
  destruct sender; simpl; [intros [[|r' rs] Hq]; [done|]|intros [?|[[|r' rs] Hq]]; [done..|]]; simpl in Hq; simplify_eq; eauto.
Qed.
Lemma queue_shape_shutdown sender q : queue_shape sender (Command_Shutdown :: q) → sender = false ∧ q = [].
Proof. destruct sender; simpl; [intros [[|r' rs] Hq]|intros [?|[[|r' rs] Hq]]]; by simplify_eq/=. Qed.
Lemma queue_shape_submit r q : queue_shape true q → queue_shape true (q ++ [Command_Write r]).
Proof. intros [rs ->]. exists (rs ++ [r]). by rewrite fmap_app. Qed.
Lemma queue_shape_drop q : queue_shape true q → queue_shape false (q ++ [Command_Shutdown]).
Proof. intros [rs ->]. right. by exists rs. Qed.

Lemma queue_shape_requests q : queue_shape true q → queue_requests q = [] → queue_shape false q.
Proof. intros [[|r rs] ->]; [by left|done]. Qed.
#[global] Arguments queue_shape : simpl never.

(** The status follows the worker, and an exited worker leaves no request behind. *)
Record phase_ok (w : WalDurability) : Prop := {
  ph_queue : queue_shape (wd_sender w) (wd_queue w);
  ph_shutdown : pc_shutdown (wd_pc w) = true → wd_queue w = [] ∧ wd_sender w = false;
  ph_healthy : pc_healthy (wd_pc w) = true → bs_status (wd_budget w) ≠ WorkerStatus_Stopped;
  ph_failed : pc_healthy (wd_pc w) = false → bs_status (wd_budget w) ≠ WorkerStatus_Running;
  ph_exited : wd_pc w = Pc_Exited → queue_requests (wd_queue w) = [];
}.

Lemma fail_not_running e b : bs_status (Shared_fail e b) ≠ WorkerStatus_Running.
Proof. destruct b. unfold Shared_fail. by case_bool_decide. Qed.
Lemma fail_not_stopped e b : bs_status b ≠ WorkerStatus_Stopped → bs_status (Shared_fail e b) ≠ WorkerStatus_Stopped.
Proof. destruct b. unfold Shared_fail. by case_bool_decide. Qed.
Lemma fail_stopped e b : bs_status b ≠ WorkerStatus_Running → bs_status (Shared_fail e b) = bs_status b.
Proof. destruct b. unfold Shared_fail. by case_bool_decide. Qed.
Lemma stop_not_running b : bs_status (Shared_stop b) ≠ WorkerStatus_Running.
Proof. destruct b. unfold Shared_stop. by case_bool_decide. Qed.
Lemma failure_not_running e b : Shared_failure b = Some e → bs_status b ≠ WorkerStatus_Running.
Proof. destruct b as [[]]; done. Qed.
Lemma try_reserve_status config bytes b b' c :
  try_reserve config bytes b = (b', Ok (Some c)) → bs_status b = WorkerStatus_Running ∧ bs_status b' = WorkerStatus_Running.
Proof.
  unfold try_reserve. destruct (_ <? _)%N; [done|]. destruct (bs_status b); [|done..].
  destruct (_ || _); [done|]. by intros [= <- <-].
Qed.
Lemma drop_status c b : bs_status (drop_reservation c b) = bs_status b.
Proof. by destruct b. Qed.

Create HintDb wal.
#[export] Hint Resolve queue_shape_requests queue_shape_write queue_shape_submit queue_shape_drop fail_not_running fail_not_stopped
  stop_not_running failure_not_running : wal.

Lemma phase_step config w w' : wal_step config w w' → budget_ok config (wd_budget w) (live w) → phase_ok w → phase_ok w'.
Proof.
  intros Hstep. wal_cases Hstep; intros Hb [Hq Hs Hh Hf He]; simpl in *; constructor; simpl;
    rewrite ?drop_status, ?queue_requests_app; simpl; eauto with wal; try done.
  all: try (apply queue_shape_shutdown in Hq as [-> ->]; by try left).
  1,2: match goal with H : try_reserve _ _ _ = _ |- _ => apply try_reserve_status in H as [E1 E2] end; intros Hp; congruence || naive_solver.
  1,2: by intros [? ?]%Hs.
  - intros _. by destruct (Hs eq_refl) as [-> _].
  - intros _. destruct Hb as [Hr _ _ _]. unfold live, unwritten in Hr. simpl in Hr.
    match goal with E : bs_pending_requests _ = 0%N |- _ => rewrite E in Hr end.
    rewrite length_app, length_fmap in Hr. apply length_zero_iff_nil. rewrite length_fmap in Hr. lia.
Qed.

(** ** The order of writes *)

(** The log holds a prefix of what was accepted, the successful answers are a
    flushed prefix of the log, and before any failure nothing is missing. *)
Record order_ok (w : WalDurability) : Prop := {
  or_acked : ok_ids (wd_calls w) `prefix_of` (wr_id <$> wd_wal w);
  or_wal : wd_wal w `prefix_of` wd_accepted w;
  or_synced : length (ok_ids (wd_calls w)) ≤ wd_synced w ≤ length (wd_wal w);
  or_flushed : pc_flushed (wd_pc w) = true → wd_synced w = length (wd_wal w);
  or_healthy : pc_healthy (wd_pc w) = true →
    wd_accepted w = wd_wal w ++ unwritten w ∧ wr_id <$> wd_wal w = ok_ids (wd_calls w) ++ (pf_id <$> in_batch w);
}.

Lemma order_step config w w' : wal_step config w w' → order_ok w → order_ok w'.
Proof.
  intros Hstep. wal_cases Hstep; intros [Ha Hw Hs Hf Hh]; unfold unwritten, in_batch in *; simpl in *;
    try match goal with e : option string |- _ => destruct e end;
    try match goal with b : bool, E : wd_pc = Pc_Writing _ _ _ |- _ => destruct b end;
    constructor; unfold unwritten, in_batch; simpl;
    rewrite ?ok_ids_app, ?call_written_ok, ?queue_requests_app; simpl; rewrite ?app_nil_r, ?fmap_app, ?length_app; try done.
  all: try (by apply prefix_app_r); try lia.
  all: try (destruct (Hh eq_refl) as [Hacc Hids]; clear Hh; rewrite ?app_nil_r in Hacc; rewrite ?app_nil_r in Hids).
  all: try (intros _; split; [by rewrite Hacc, <-?(assoc_L (++))|by rewrite ?fmap_app, Hids, <-?(assoc_L (++))]).
  all: try (try case_match; rewrite ?app_nil_r; try done; rewrite Hacc; by eexists; rewrite <-(assoc_L (++))).
  all: try (rewrite Hids; exists (pf_id <$> batch); by rewrite <-(assoc_L (++))).
  - intros Hx. destruct (Hh Hx) as [-> ->]. by rewrite <-!(assoc_L (++)).
  - rewrite (Hf eq_refl). apply (f_equal length) in Hids. rewrite length_fmap, length_app in Hids. simpl in *. lia.
Qed.

(** ** Every interleaving *)

Record wal_inv (config : DurabilityConfig) (w : WalDurability) : Prop := {
  wi_budget : budget_ok config (wd_budget w) (live w);
  wi_numbers : numbers_ok w;
  wi_durable : durable_ok w;
  wi_written : written_ok w;
  wi_phase : phase_ok w;
  wi_order : order_ok w;
}.

Lemma wal_inv_step config w w' : (dc_max_pending_bytes config < usize_max)%N →
  wal_step config w w' → wal_inv config w → wal_inv config w'.
Proof.
  intros Hmax Hs []. constructor; [by eapply budget_step|by eapply numbers_step|by eapply durable_step|by eapply written_step|
    by eapply phase_step|by eapply order_step].
Qed.

Lemma wal_inv_reachable config w : (dc_max_pending_bytes config < usize_max)%N → wal_reachable config w → wal_inv config w.
Proof.
  intros Hmax Hr. assert (wal_inv config with_config) as H0.
  { constructor; repeat constructor; simpl; try lia; try done; by exists []. }
  revert H0. induction Hr as [|w1 w2 w3 Hs _ IH]; [done|]. intros H0. apply IH. by eapply wal_inv_step.
Qed.

Lemma elem_of_total c l : c ∈ l → (c ≤ total l)%N.
Proof. intros (l1 & l2 & ->)%list_elem_of_split. rewrite total_app. unfold total at 2. simpl. unfold total. lia. Qed.

Lemma queue_shape_length q : queue_shape true q → length (queue_requests q) = length q.
Proof. intros [rs ->]. induction rs as [|r rs IH]; [done|]. exact (f_equal S IH). Qed.

(** In every interleaving of producers, failures and the worker, the budget
    counts exactly the reservations that exist, in number and in bytes, and
    stays within its limits, so giving one back never underflows; and the
    holder of a reservation never finds the bounded channel full. *)
Theorem wal_budget_bounds config w : (dc_max_pending_bytes config < usize_max)%N → wal_reachable config w →
  bs_pending_requests (wd_budget w) = N.of_nat (length (live w)) ∧
  bs_pending_bytes (wd_budget w) = total (live w) ∧
  (bs_pending_requests (wd_budget w) ≤ dc_max_pending_requests config)%N ∧
  (bs_pending_bytes (wd_budget w) ≤ dc_max_pending_bytes config)%N ∧
  (∀ c, c ∈ live w → (1 ≤ bs_pending_requests (wd_budget w))%N ∧ (c ≤ bs_pending_bytes (wd_budget w))%N) ∧
  (wd_sender w = true → wd_held w ≠ [] → (N.of_nat (length (wd_queue w)) < dc_max_pending_requests config)%N).
Proof.
  intros Hmax Hr. destruct (wal_inv_reachable config w Hmax Hr) as [[Hn Hb Hpn Hpb] _ _ _ Hp _].
  split_and!; [done|done|lia|lia| |].
  - intros c Hc. split; [|rewrite Hb; by apply elem_of_total]. rewrite Hn. destruct (live w); [by apply not_elem_of_nil in Hc|].
    simpl. lia.
  - intros Hs Hh. pose proof (ph_queue _ Hp) as Hq. rewrite Hs in Hq. apply queue_shape_length in Hq.
    unfold live, unwritten in Hn. rewrite !length_app, !length_fmap, !length_app in Hn.
    destruct (wd_held w); [done|]. simpl in Hn. lia.
Qed.

Lemma NoDup_app_l {A} (l k : list A) : NoDup (l ++ k) → NoDup l.
Proof. by intros (? & _)%NoDup_app. Qed.

Lemma numbers_wants w : numbers_ok w → NoDup (wants (wd_accepted w)).
Proof.
  intros [(_ & _ & Hn)%NoDup_app _]. unfold wants. eapply sublist_NoDup; [exact Hn|].
  apply fmap_sublist, sublist_filter.
Qed.

(** C31: the write-ahead log holds, in order, a prefix of the requests that were
    accepted; the requests told they are durable are a prefix of the log that
    any recovery of the flushed part contains; no request gets two durability
    answers or two write answers; and when the worker has exited every accepted
    request has got its answers, whatever failed and however it was stopped. *)
Theorem wal_acknowledged config w : (dc_max_pending_bytes config < usize_max)%N → wal_reachable config w →
  wd_wal w `prefix_of` wd_accepted w ∧
  (∀ recovered, recovered `prefix_of` wd_wal w → wd_synced w ≤ length recovered →
     ok_ids (wd_calls w) `prefix_of` (wr_id <$> recovered)) ∧
  NoDup (durable_ids (wd_calls w)) ∧ NoDup (written_ids (wd_calls w)) ∧
  (wd_pc w = Pc_Exited →
     durable_ids (wd_calls w) ≡ₚ (wr_id <$> wd_accepted w) ∧
     written_ids (wd_calls w) ≡ₚ wants (wd_accepted w)).
Proof.
  intros Hmax Hr. destruct (wal_inv_reachable config w Hmax Hr) as [_ Hnum Hd Hw Hp [Ha Hwa Hs _ _]].
  pose proof Hnum as [(_ & _ & Hnd)%NoDup_app _]. unfold durable_ok, written_ok in *. split_and!; [done| | | |].
  - intros rec [k Hk] Hlen. rewrite Hk, fmap_app in Ha.
    destruct Ha as [suf Ha]. apply (f_equal (take (length (wr_id <$> rec)))) in Ha.
    rewrite take_app_length, take_app in Ha. rewrite length_fmap in Ha.
    rewrite (take_ge (ok_ids _)) in Ha by lia. eexists. exact Ha.
  - eapply NoDup_app_l. by rewrite Hd.
  - eapply NoDup_app_l. rewrite Hw. by apply numbers_wants.
  - intros E. unfold in_batch, unwritten in *. rewrite E, (ph_exited _ Hp E) in *. simpl in *.
    by rewrite !app_nil_r in *.
Qed.

(** ** Draining *)

(** What is left to do for the worker. *)
Definition pc_work (pc : WorkerPc) : nat :=
  2 * length (pc_batch pc) +
  match pc with
  | Pc_Received _ _ _ => 10
  | Pc_Writing _ _ _ => 9
  | Pc_Collecting _ _ => 6
  | Pc_Collected _ _ => 5
  | Pc_Flushing _ _ => 4
  | Pc_Flushed _ _ => 3
  | Pc_Completing _ _ _ => 2
  | Pc_Recv | Pc_Failing _ => 1
  | Pc_Exited => 0
  end.
Definition work (w : WalDurability) : nat := 11 * length (wd_queue w) + pc_work (wd_pc w).

Lemma worker_step_work config w w' : worker_step config w w' → work w' < work w.
Proof.
  intros Hs. destruct Hs;
  repeat match goal with x := _ |- _ => subst x end;
  match goal with w : WalDurability |- _ => destruct w end;
  unfold fail_unwritten, wrote_one, complete_one, set_budget, goto, set_queue in *; cbv [apply_update constant] in *; simpl in *;
  simplify_eq; unfold work, pc_work; simpl; rewrite ?length_app; simpl; lia.
Qed.

Lemma worker_sn config w : sn (worker_step config) w.
Proof.
  remember (work w) as n eqn:En. revert w En. induction (lt_wf n) as [n _ IH]. intros w ->.
  constructor. intros w' Hs. eapply IH; [|done]. by eapply worker_step_work.
Qed.

(** A worker that cannot go on holds nothing. *)
Lemma worker_stuck config w : phase_ok w → nf (worker_step config) w → in_batch w = [] ∧ unwritten w = [].
Proof.
  intros Hp Hnf. assert (∀ w', ¬ worker_step config w w') as Hno by (intros w' Hs; apply Hnf; by exists w').
  unfold in_batch, unwritten. destruct (wd_pc w) as [|r b n|r b n|b n|b sd|b sd|b sd|[|p b] e sd|e|] eqn:Epc; simpl.
  - destruct (wd_queue w) as [|[r|] q] eqn:Eq; [done|..]; exfalso; eapply Hno; [by eapply step_recv_write|by eapply step_recv_shutdown].
  - exfalso. destruct (Shared_failure (wd_budget w)) eqn:Ef; eapply Hno; [by eapply step_check_failed|by eapply step_check_ok].
  - exfalso. eapply Hno. by eapply step_write_ok.
  - exfalso. eapply Hno. by eapply step_collect_stop.
  - exfalso. destruct (Shared_failure (wd_budget w)) eqn:Ef; eapply Hno; [by eapply step_collected_failed|by eapply step_collected_ok].
  - exfalso. eapply Hno. by eapply step_flush_ok.
  - exfalso. destruct (Shared_failure (wd_budget w)) eqn:Ef; eapply Hno; [by eapply step_flushed_failed|by eapply step_flushed_ok].
  - exfalso. destruct e as [e|]; [|destruct sd]; eapply Hno;
      [by eapply step_completed_failed|by eapply step_completed_shutdown|by eapply step_completed].
  - exfalso. eapply Hno. by eapply step_complete.
  - destruct (decide (bs_pending_requests (wd_budget w) = 0%N)) as [E|E]; [exfalso; eapply Hno; by eapply step_fail_done|].
    destruct (wd_queue w) as [|[r|] q] eqn:Eq; [done|..]; exfalso; eapply Hno;
      [eapply step_fail_write; [done|lia|done]|eapply step_fail_shutdown; [done|lia|done]].
  - split; [done|]. by apply Hp.
Qed.

(** C32: the worker never gets lost in its work: from every state reached in any
    interleaving, its own steps come to an end, whatever the disk answers, and
    where they end every request accepted so far has had its durability answer
    and, if it asked for one, its write answer. *)
Theorem wal_drains config w : (dc_max_pending_bytes config < usize_max)%N → wal_reachable config w →
  sn (worker_step config) w ∧
  ∀ w', rtc (worker_step config) w w' → nf (worker_step config) w' →
    wd_accepted w' = wd_accepted w ∧
    durable_ids (wd_calls w') ≡ₚ (wr_id <$> wd_accepted w) ∧ written_ids (wd_calls w') ≡ₚ wants (wd_accepted w).
Proof.
  intros Hmax Hr. split; [apply worker_sn|]. intros w' Hrtc Hnf.
  assert (wal_reachable config w') as Hr'.
  { unfold wal_reachable in *; etrans; [exact Hr|]. eapply rtc_subrel; [|exact Hrtc]. by right. }
  assert (wd_accepted w' = wd_accepted w) as Hacc.
  { clear -Hrtc. induction Hrtc as [|w1 w2 w3 Hs _ IH]; [done|]. rewrite IH. by destruct Hs; destruct w. }
  destruct (wal_inv_reachable config w' Hmax Hr') as [_ _ Hd Hw Hp _].
  destruct (worker_stuck config w' Hp Hnf) as [Eb Eu]. unfold durable_ok, written_ok in *.
  rewrite Eb, Eu, Hacc in *. simpl in *. by rewrite !app_nil_r in *.
Qed.

(** ** A concrete run of the durability worker

    Two requests share one flush; the owner then closes the coordinator while a
    third reservation is still held. *)
Import TriangleBracketNotations.

Definition demo_wal_config : DurabilityConfig := DurabilityConfig_default true.
Definition demo_request (id : nat) : WriteRequest := mkWriteRequest id 16 [] DurabilityKind_Log true.
Definition demo_pending (id : nat) : PendingFlush := mkPendingFlush id 16 DurabilityKind_Log.

(** Three reservations, two of them enqueued. *)
Definition demo_queued : WalDurability :=
  mkWal (mkBudget WorkerStatus_Running 3 48 3 48) [(2, 16%N)] 3 true
    [Command_Write (demo_request 0); Command_Write (demo_request 1)] Pc_Recv [demo_request 0; demo_request 1] [] 0 [].

(** After the shared flush and the shutdown. *)
Definition demo_closed : WalDurability :=
  mkWal (mkBudget WorkerStatus_Stopped 1 16 3 48) [(2, 16%N)] 3 false [] Pc_Exited [demo_request 0; demo_request 1]
    [demo_request 0; demo_request 1] 2
    [Callback_written 0 None; Callback_written 1 None; Callback_durable 0 None; Callback_durable 1 None].

Lemma demo_queued_reachable : wal_reachable demo_wal_config demo_queued.
Proof.
  eapply rtc_l; [left; by apply (step_reserve _ _ 16 16)|].
  eapply rtc_l; [left; by apply (step_reserve _ _ 16 16)|].
  eapply rtc_l; [left; by apply (step_reserve _ _ 16 16)|].
  eapply rtc_l; [left; by apply (step_submit _ _ (demo_request 0) [(2, 16%N); (1, 16%N)] [])|].
  eapply rtc_l; [left; by apply (step_submit _ _ (demo_request 1) [(2, 16%N)] [])|].
  apply rtc_refl.
Qed.

Lemma demo_closed_reachable : wal_reachable demo_wal_config demo_closed.
Proof.
  unfold wal_reachable. etrans; [exact demo_queued_reachable|].
  eapply rtc_l; [right; by eapply step_recv_write|].
  eapply rtc_l; [right; by eapply step_check_ok|].
  eapply rtc_l; [right; by eapply step_write_ok|].
  eapply rtc_l; [right; by eapply step_collect|].
  eapply rtc_l; [right; by eapply step_check_ok|].
  eapply rtc_l; [right; by eapply step_write_ok|].
  eapply rtc_l; [right; by eapply step_collect_stop|].
  eapply rtc_l; [right; by eapply step_collected_ok|].
  eapply rtc_l; [right; by eapply step_flush_ok|].
  eapply rtc_l; [right; by eapply step_flushed_ok|].
  eapply rtc_l; [right; by eapply step_complete|].
  eapply rtc_l; [right; by eapply step_complete|].
  eapply rtc_l; [right; by eapply step_completed|].
  eapply rtc_l; [left; by eapply step_drop|].
  eapply rtc_l; [right; by eapply step_recv_shutdown|].
  apply rtc_refl.
Qed.

Lemma wal_budget_bounds_witness : (N.of_nat (length (wd_queue demo_queued)) < dc_max_pending_requests demo_wal_config)%N.
Proof. by eapply (wal_budget_bounds demo_wal_config demo_queued); [|exact demo_queued_reachable| |]. Defined.

Lemma wal_acknowledged_witness : ok_ids (wd_calls demo_closed) `prefix_of` [0; 1].
Proof.
  apply (proj1 (proj2 (wal_acknowledged demo_wal_config demo_closed ltac:(done) demo_closed_reachable)) (wd_wal demo_closed)).
  - by exists [].
  - vm_compute. lia.
Defined.

Lemma wal_drains_witness : sn (worker_step demo_wal_config) demo_queued.
Proof. apply (wal_drains demo_wal_config demo_queued); [done|exact demo_queued_reachable]. Defined.
