(* ===== verification/Storage.v ===== *)
(** * The node's store (src/src/storage/rocks.rs, src/src/storage/batch.rs)

    [Storage] over any database satisfying [Rocks]: identity and registration
    records, column-family lifecycle, the serving gate, state reads and the
    synchronous state apply. Locks are critical sections. The cache of active
    state-CF names is read where the source reads it; filling it on a miss is
    unobservable ([active_name_cached]) and left out of the readers. Values
    quoted inside error messages are not formatted; search-index directories
    on disk are not modelled. *)

From S2P Require Import Prelude BTree Types Codec Keyspace ApplyDurability Rocks.
From coqutil Require Import Datatypes.RecordSetters.
Import TriangleBracketNotations.

Record Identity := mkIdentity { id_cluster_id : N; id_node_id : NodeId }.
#[global] Instance Identity_eq_dec : EqDecision Identity.
Proof. solve_decision. Defined.
#[global] Instance Identity_wf : Wf Identity := λ i, (id_cluster_id i ≤ u128_max)%N ∧ (id_node_id i ≤ u64_max)%N.

(** openraft's [StoredMembership<u64, BasicNode>]: the log id, the (joint)
    voter configurations and the node addresses. *)
Record StoredMembership := mkMembership {
  sm_log_id : option RaftLogId;
  sm_configs : list (list NodeId);
  sm_nodes : list (NodeId * string);
}.
#[global] Instance StoredMembership_wf : Wf StoredMembership := λ m,
  from_option wf True (sm_log_id m) ∧
  (vec_len_ok (sm_configs m) ∧ Forall node_ids_ok (sm_configs m)) ∧
  (vec_len_ok (sm_nodes m) ∧ Forall (λ x, (x.1 ≤ u64_max)%N ∧ str_ok x.2) (sm_nodes m)).

(** [type RaftApplied]. *)
Record RaftApplied := mkRaftApplied {
  ra_applied : option RaftLogId;
  ra_membership : StoredMembership;
}.
#[global] Instance RaftApplied_wf : Wf RaftApplied := λ r,
  from_option wf True (ra_applied r) ∧ wf (ra_membership r).

Record Storage (D : Type) := mkStorage {
  st_db : D;
  st_active_state_cfs : gmap GroupId string;
  st_apply_durability : ApplyDurabilityRegistry;
}.
Arguments mkStorage {D} _ _ _.
Arguments st_db {D} _.
Arguments st_active_state_cfs {D} _.
Arguments st_apply_durability {D} _.

(** [StateMutation] of storage/batch.rs. *)
Inductive StateMutation :=
| StateMutation_Put (key value : bytes)
| StateMutation_Delete (key : bytes).
#[global] Instance StateMutation_eq_dec : EqDecision StateMutation.
Proof. solve_decision. Defined.

Definition mutation_key (m : StateMutation) : bytes :=
  match m with StateMutation_Put k _ | StateMutation_Delete k => k end.

Definition mutation_op (cf : string) (m : StateMutation) : BatchOp :=
  match m with
  | StateMutation_Put k v => BatchPut cf k v
  | StateMutation_Delete k => BatchDelete cf k
  end.

Definition set_db {D} (d : D) (s : Storage D) : Storage D :=
  mkStorage d (st_active_state_cfs s) (st_apply_durability s).
Definition set_active {D} (a : gmap GroupId string) (s : Storage D) : Storage D :=
  mkStorage (st_db s) a (st_apply_durability s).
Definition set_apply {D} (r : ApplyDurabilityRegistry) (s : Storage D) : Storage D :=
  mkStorage (st_db s) (st_active_state_cfs s) r.

(** The value of a key after a list of mutations: the last one on it wins. *)
Definition mutation_apply (key : bytes) (old : option bytes) (m : StateMutation) : option bytes :=
  match m with
  | StateMutation_Put k v => if decide (k = key) then Some v else old
  | StateMutation_Delete k => if decide (k = key) then None else old
  end.
Definition mutations_get (key : bytes) (ms : list StateMutation) (old : option bytes) : option bytes :=
  foldl (mutation_apply key) old ms.

Lemma mutations_get_none k ms o : Forall (λ m, mutation_key m ≠ k) ms → mutations_get k ms o = o.
Proof.
  revert o. induction ms as [|m ms IH]; intros o; [done|]. intros [Hm Hms]%Forall_cons.
  change (mutations_get k ms (mutation_apply k o m) = o). rewrite IH by done.
  destruct m; simpl in *; by rewrite decide_False.
Qed.

Lemma mutations_get_app k ms ms' o : mutations_get k (ms ++ ms') o = mutations_get k ms' (mutations_get k ms o).
Proof. apply foldl_app. Qed.

(** A mutation sets the key it names. *)
Definition mutation_value (m : StateMutation) : option bytes :=
  match m with StateMutation_Put _ v => Some v | StateMutation_Delete _ => None end.

Lemma mutation_apply_spec k o m :
  mutation_apply k o m = if decide (mutation_key m = k) then mutation_value m else o.
Proof. by destruct m. Qed.

Lemma mutations_get_one k m o :
  mutations_get k [m] o = if decide (mutation_key m = k) then mutation_value m else o.
Proof. apply mutation_apply_spec. Qed.

(** [once(Meta).chain((0..p).map(Data))]. *)
Definition all_groups (p : N) : list GroupId :=
  GroupId_Meta :: ((λ i, GroupId_Data (N.of_nat i)) <$> seq 0 (N.to_nat p)).

Section storage.
Context `{Rocks D} `{!Codec U64, !Codec U128, !Codec string, !Codec LogId}
  `{!Codec Identity, !Codec ServingState, !Codec BootstrapGroup, !Codec LearnerAdmission}
  `{!Codec RegistrationBinding, !Codec RaftApplied}.
Implicit Types (s : Storage D) (group : GroupId).

(** [.unwrap_or(0)] on a typed read. *)
Definition or_zero (r : Result (option N)) : Result N := default 0%N <$> r.

(** ** Node-local records in the default column family *)

Definition decode_opt {T} `{Codec T} (b : option bytes) : Result (option T) :=
  match b with Some b => let! x := decode b in Ok (Some x) | None => Ok None end.

Definition get_local (T : Type) `{Codec T} s (key : bytes) : Result (option T) :=
  decode_opt (db_get (st_db s) key).
Definition put_local {T} `{Codec T} (key : bytes) (value : T) : io (Storage D) unit :=
  io_modify (λ s, set_db (db_put (st_db s) key (encode value)) s).
Definition delete_local (key : bytes) : io (Storage D) unit :=
  io_modify (λ s, set_db (db_delete (st_db s) key) s).

(** [delete_local_prefix]. *)
Definition delete_local_prefix (prefix : bytes) : io (Storage D) unit :=
  io_modify (λ s,
    let batch := (λ kv, BatchDelete DEFAULT_CF kv.1) <$> scan_prefix (st_db s) DEFAULT_CF prefix in
    set_db (match batch with [] => st_db s | _ => write (st_db s) batch end) s).

Definition identity s : Result (option Identity) := get_local Identity s identity_key.
Definition set_identity (id : Identity) : io (Storage D) unit := put_local identity_key id.

(** The identity check of [open_checked]. *)
Definition bind_identity (cluster_id : N) (node_id : NodeId) : io (Storage D) unit :=
  let? found := io_read identity in
  match found with
  | Some found =>
      if negb (id_cluster_id found =? cluster_id)%N || negb (id_node_id found =? node_id)%N
      then io_err (Error_IdentityMismatch (id_cluster_id found) (id_node_id found) cluster_id node_id)
      else io_ret tt
  | None => set_identity (mkIdentity cluster_id node_id)
  end.

(** Allocate the next durable counter value at [key]. *)
Definition next_counter (key : bytes) (exhausted : Error) : io (Storage D) N :=
  let? previous := io_read (λ s, get_local U64 s key) in
  match checked_add u64_max (default 0%N previous) 1 with
  | None => io_err exhausted
  | Some next => put_local (T:=U64) key next ;;? io_ret next
  end.

(** [next_heartbeat_incarnation]. *)
Definition next_heartbeat_incarnation : io (Storage D) N :=
  next_counter heartbeat_incarnation_key (Error_Config "heartbeat incarnation exhausted").
(** [next_search_session_incarnation]. *)
Definition next_search_session_incarnation : io (Storage D) N :=
  next_counter search_session_incarnation_key (Error_Search "search session incarnation exhausted").

Definition registration_binding s : Result (option RegistrationBinding) :=
  get_local RegistrationBinding s registration_binding_key.

(** [record_registration_binding]. *)
Definition record_registration_binding (binding : RegistrationBinding) : io (Storage D) unit :=
  let? id := io_read (λ s, let! id := identity s in
           ok_or id (Error_Config "registration binding requires a bound node identity")) in
  if negb (rb_cluster_id binding =? id_cluster_id id)%N || negb (rb_node_id binding =? id_node_id id)%N
  then io_err (Error_IdentityMismatch (id_cluster_id id) (id_node_id id) (rb_cluster_id binding) (rb_node_id binding))
  else if (rb_directory_incarnation binding =? 0)%N
  then io_err (Error_Config "registration binding incarnation must be non-zero")
  else
    let? previous := io_read registration_binding in
    match previous with
    | Some previous =>
        if (rb_directory_incarnation binding <? rb_directory_incarnation previous)%N
        then io_err (Error_Config "registration incarnation regressed")
        else if (rb_directory_incarnation binding =? rb_directory_incarnation previous)%N
        then if bool_decide (binding = previous) then io_ret tt
             else io_err (Error_Config "registration endpoints conflict at incarnation")
        else put_local registration_binding_key binding
    | None => put_local registration_binding_key binding
    end.

Definition local_recovery_epoch s : Result N :=
  or_zero (get_local U128 s local_recovery_epoch_key).

(** ** Active state column family *)

(** The pointer's name, validated, on a cache miss. *)
Definition pointer_name s group : Result string :=
  let! pointer := get_local string s (state_cf_pointer_key group) in
  let base := cf_state group in
  let name := default base pointer in
  if negb (bool_decide (name = base)) && negb (String.prefix (base +:+ "__snapshot_") name)
  then Err (Error_Corrupt base "invalid active state CF pointer")
  else Ok name.

(** [active_state_cf_name_locked]: fills the cache. *)
Definition active_state_cf_name_locked group : io (Storage D) string := λ s,
  match st_active_state_cfs s !! group with
  | Some name => (s, Ok name)
  | None =>
      match pointer_name s group with
      | Ok name => (set_active (<[group := name]> (st_active_state_cfs s)) s, Ok name)
      | Err e => (s, Err e)
      end
  end.

(** [active_state_cf_name], without the cache fill. *)
Definition active_state_cf_name s group : Result string :=
  match st_active_state_cfs s !! group with Some name => Ok name | None => pointer_name s group end.

(** [state_cf] and [log_cf]: the name of an open column family. *)
Definition state_cf s group : Result string :=
  let! name := active_state_cf_name s group in
  if cf_exists (st_db s) name then Ok name else Err (Error_Corrupt name "state CF not open").
Definition log_cf s group : Result string :=
  if cf_exists (st_db s) (cf_log group) then Ok (cf_log group)
  else Err (Error_Corrupt (cf_log group) "log CF not open").

(** [get_state] and [get_state_record]. *)
Definition get_state s group (key : bytes) : Result (option bytes) :=
  let! cf := state_cf s group in Ok (get_cf (st_db s) cf key).
Definition get_state_record (T : Type) `{Codec T} s group (key : bytes) : Result (option T) :=
  let! b := get_state s group key in decode_opt b.

Definition last_applied s group : Result (option LogId) := get_state_record LogId s group last_applied_key.
Definition recovery_epoch s group : Result N :=
  or_zero (get_state_record U128 s group recovery_epoch_key).
Definition raft_applied s group : Result (option bytes) := get_state s group raft_applied_key.

(** [recovered_raft_applied]. *)
Definition recovered_raft_applied s group : Result (option RaftLogId) :=
  let! b := raft_applied s group in
  match b with Some b => let! r := decode (A:=RaftApplied) b in Ok (ra_applied r) | None => Ok None end.

(** [raft_applied_position]. *)
Definition raft_applied_position s group : Result (option LogId) :=
  let! id := recovered_raft_applied s group in Ok ((λ id, mkLogId (rl_term id) (rl_index id)) <$> id).

(** [scan_state]. *)
Definition scan_state s group : Result (list (bytes * bytes)) :=
  let! cf := state_cf s group in Ok (iter_cf (st_db s) cf).

(** [group_exists]. *)
Definition group_exists s group : bool :=
  match active_state_cf_name s group with Ok name => cf_exists (st_db s) name | Err _ => false end &&
  cf_exists (st_db s) (cf_log group).

(** [apply_state]: one atomic batch of the mutations and [last_applied]. *)
Definition apply_state group (mutations : list StateMutation) (applied : LogId) : io (Storage D) unit := λ s,
  match state_cf s group with
  | Err e => (s, Err e)
  | Ok cf =>
      let batch := (mutation_op cf <$> mutations) ++ [BatchPut cf last_applied_key (encode applied)] in
      (set_db (write (st_db s) batch) s, Ok tt)
  end.

(** ** Column-family lifecycle *)

Definition create_cf_if_missing (name : string) : io (Storage D) unit :=
  io_modify (λ s, if cf_exists (st_db s) name then s else set_db (create_cf (st_db s) name) s).
Definition drop_cf_if_present (name : string) : io (Storage D) unit :=
  io_modify (λ s, if cf_exists (st_db s) name then set_db (drop_cf (st_db s) name) s else s).

Fixpoint io_for {A} (f : A → io (Storage D) unit) (l : list A) : io (Storage D) unit :=
  match l with [] => io_ret tt | x :: l => f x ;;? io_for f l end.

(** [ensure_group]. *)
Definition ensure_group (now : N) group : io (Storage D) unit :=
  create_cf_if_missing (cf_log group) ;;?
  let? state_name := io_read (λ s, active_state_cf_name s group) in
  let? missing := io_read (λ s, Ok (negb (cf_exists (st_db s) state_name))) in
  (if (missing : bool)
   then if bool_decide (state_name = cf_state group)
        then create_cf_if_missing state_name
        else io_err (Error_Corrupt state_name "active snapshot state CF is missing")
   else io_ret tt) ;;?
  let? recovered := io_read (λ s, recovered_raft_applied s group) in
  io_modify (λ s, set_apply (registry_register now group recovered (st_apply_durability s)) s).

Definition serving_state s group : Result (option ServingState) :=
  get_local ServingState s (serving_key group).
Definition set_serving_state group (state : ServingState) : io (Storage D) unit :=
  put_local (serving_key group) state.

Definition lift_apply {A} (f : ApplyDurabilityRegistry → ApplyDurabilityRegistry * A) : io (Storage D) A :=
  λ s, let '(r, a) := f (st_apply_durability s) in (set_apply r s, Ok a).

(** The column families of a group: its log, its base state and its staged generations. *)
Definition belongs_to_group group (name : string) : bool :=
  bool_decide (name = cf_log group) || bool_decide (name = cf_state group) ||
  String.prefix (cf_state group +:+ "__snapshot_") name.

(** [drop_group]. *)
Definition drop_group (now : N) group : io (Storage D) unit :=
  set_serving_state group ServingState_NonServing ;;?
  io_modify (λ s, set_apply (registry_begin_close now group (st_apply_durability s)) s) ;;?
  io_read (λ s, ensure_drained group (st_apply_durability s)) ;;?
  io_modify (λ s, set_active (delete group (st_active_state_cfs s)) s) ;;?
  let? names := io_read (λ s, Ok (filter (λ n, belongs_to_group group n = true) (list_cf (st_db s)))) in
  io_for drop_cf_if_present names ;;?
  (if is_data group then delete_local_prefix (search_prefix group) else io_ret tt) ;;?
  delete_local (state_cf_pointer_key group) ;;?
  io_modify (λ s, set_apply (registry_remove group (st_apply_durability s)) s).

(** [reclaim_group]. *)
Definition reclaim_group (now : N) group : io (Storage D) unit :=
  set_serving_state group ServingState_NonServing ;;? drop_group now group.

(** [require_healthy], [require_group_healthy], [require_serving]. *)
Definition require_healthy (now : N) : io (Storage D) unit :=
  let? r := lift_apply (ensure_healthy now) in io_read (λ _, r).
Definition require_group_healthy (now : N) group : io (Storage D) unit :=
  require_healthy now ;;?
  let? failure := lift_apply (group_failure now group) in
  match failure with Some error => io_err (Error_Io error) | None => io_ret tt end.
Definition require_serving (now : N) group : io (Storage D) unit :=
  let? state := io_read (λ s, serving_state s group) in
  if bool_decide (state = Some ServingState_Serving) then require_group_healthy now group
  else io_err (Error_Raft "group is not permitted to serve on this node").

(** [poison_raft_error]. *)
Definition poison_raft_error (context : string) (error : Error) (s : Storage D) : Storage D :=
  set_apply (fail_all (context +:+ ": " +:+ error_display error) (st_apply_durability s)) s.

(** [record_verified_learner_admission]: one batch. *)
Definition record_verified_learner_admission (record : LearnerAdmission) : io (Storage D) unit :=
  let? id := io_read (λ s, let! id := identity s in
              ok_or id (Error_Config "learner admission requires a bound node identity")) in
  if negb (id_cluster_id id =? la_cluster_id record)%N
  then io_err (Error_IdentityMismatch (id_cluster_id id) (id_node_id id) (la_cluster_id record) (id_node_id id))
  else io_modify (λ s, set_db (write (st_db s)
         [BatchPut DEFAULT_CF (admission_key (la_group record)) (encode record);
          BatchPut DEFAULT_CF (serving_key (la_group record)) (encode ServingState_Serving)]) s).

(** [authorize_group_start]. *)
Definition authorize_group_start (now : N) group (node_id : NodeId) : io (Storage D) unit :=
  let? state := io_read (λ s, serving_state s group) in
  if bool_decide (state = Some ServingState_NonServing)
  then io_err (Error_Raft "refusing to restart non-serving group") else
  let? id := io_read (λ s, let! id := identity s in
              ok_or id (Error_Config "group startup requires a bound node identity")) in
  if negb (id_node_id id =? node_id)%N
  then io_err (Error_IdentityMismatch (id_cluster_id id) (id_node_id id) (id_cluster_id id) node_id) else
  let? bootstrap := io_read (λ s, get_local BootstrapGroup s (bootstrap_key group)) in
  let admitted_by_bootstrap :=
    match bootstrap with
    | Some record => (bg_cluster_id record =? id_cluster_id id)%N && bool_decide (bg_group record = group) &&
                     bool_decide (node_id ∈ bg_members record)
    | None => false
    end in
  let? admission := io_read (λ s, get_local LearnerAdmission s (admission_key group)) in
  let admitted_as_learner :=
    match admission with
    | Some record => (la_cluster_id record =? id_cluster_id id)%N && bool_decide (la_group record = group)
    | None => false
    end in
  if negb (admitted_by_bootstrap || admitted_as_learner)
  then io_err (Error_Raft "refusing to create unadmitted group") else
  ensure_group now group ;;? set_serving_state group ServingState_Serving.

(** The loop of [adopt_recovery_epoch] over the hosted groups. *)
Fixpoint check_group_epochs (epoch : N) s (groups : list GroupId) : Result unit :=
  match groups with
  | [] => Ok tt
  | group :: groups =>
      let! conflicting :=
        if group_exists s group then
          let! applied := recovered_raft_applied s group in
          match applied with
          | Some _ => let! e := recovery_epoch s group in Ok (negb (e =? epoch)%N)
          | None => Ok false
          end
        else Ok false in
      if (conflicting : bool) then Err (Error_Config "group belongs to another recovery epoch")
      else check_group_epochs epoch s groups
  end.

(** [adopt_recovery_epoch]. *)
Definition adopt_recovery_epoch (epoch partition_count : N) : io (Storage D) unit :=
  let? local := io_read local_recovery_epoch in
  if (local =? epoch)%N then io_ret tt
  else if negb (local =? 0)%N
  then io_err (Error_Config "authoritative recovery epoch differs from local epoch")
  else io_read (λ s, check_group_epochs epoch s (all_groups partition_count)) ;;?
       put_local (T:=U128) local_recovery_epoch_key epoch.

End storage.

(** ** Column-family names of distinct groups are distinct *)

Definition snapshot_suffix (r : string) : Prop := r = "" ∨ ∃ t, r = "__snapshot_" +:+ t.

(** The names [pointer_name] accepts for a group. *)
Definition valid_cf_name (group : GroupId) (name : string) : Prop :=
  ∃ r, snapshot_suffix r ∧ name = cf_state group +:+ r.

#[local] Arguments String.append !_ _ /.

Lemma string_app_assoc (a b c : string) : (a +:+ b) +:+ c = a +:+ (b +:+ c).
Proof. induction a as [|x a IH]; simpl; [done|]. by f_equal. Qed.

Lemma string_app_nil_r (a : string) : a +:+ "" = a.
Proof. induction a as [|x a IH]; simpl; [done|]. by f_equal. Qed.

Lemma string_prefix_spec (p s : string) : String.prefix p s = true ↔ ∃ t, s = p +:+ t.
Proof.
  revert s. induction p as [|a p IH]; intros s; [split; [intros _; by exists s|by destruct s]|].
  destruct s as [|b s]; [split; [done|by intros [t ?]]|]. cbn [String.prefix]. destruct (Ascii.ascii_dec a b) as [->|Hne].
  - rewrite IH. split; intros [t Ht]; exists t; naive_solver.
  - split; [done|]. intros [t [= ? ?]]. congruence.
Qed.

Fixpoint all_digits (s : string) : Prop :=
  match s with EmptyString => True | String c s => is_Some (digit_value c) ∧ all_digits s end.

Lemma parse_digits_all s acc n : parse_digits acc s = Some n → all_digits s.
Proof.
  revert acc. induction s as [|c s IH]; intros acc; simpl; [done|].
  destruct (digit_value c) as [d|]; simpl; [|done]. intros E. split; [by eexists|by eapply IH].
Qed.

Lemma all_digits_pretty (n : N) : all_digits (pretty n).
Proof. eapply parse_digits_all, parse_digits_pretty. Qed.

Lemma utf8_ascii l : Forall (λ b, (Byte.to_N b < 128)%N) l → is_Some (utf8_chars l).
Proof.
  induction 1 as [|b l Hb _ [cs IH]]; [by eexists|]. cbn [utf8_chars]. apply N.ltb_lt in Hb. rewrite Hb, IH. by eexists.
Qed.

Lemma pretty_go_length k : ∀ x t, (x < 10 ^ N.of_nat k)%N → String.length (pretty_N_go x t) ≤ k + String.length t.
Proof.
  induction k as [|k IH]; intros x t Hx.
  - assert (x = 0)%N as -> by (change (10 ^ N.of_nat 0)%N with 1%N in Hx; lia). by rewrite pretty_N_go_0.
  - destruct (decide (x = 0)%N) as [->|Hne]; [rewrite pretty_N_go_0; lia|].
    rewrite pretty_N_go_step by lia. rewrite Nat2N.inj_succ, N.pow_succ_r in Hx by lia.
    pose proof (IH (x `div` 10)%N (String (pretty_N_char (x mod 10)) t) ltac:(apply N.Div0.div_lt_upper_bound; lia)) as Hl.
    cbn [String.length] in Hl. lia.
Qed.

Lemma pretty_length n : (n ≤ u64_max)%N → String.length (pretty n) ≤ 20.
Proof.
  intros Hn. unfold pretty, pretty_N. case_decide; [simpl; lia|].
  pose proof (pretty_go_length 20 n "") as Hl. simpl in Hl. apply Hl. unfold u64_max in Hn. lia.
Qed.

Lemma all_digits_ascii t : all_digits t → Forall (λ b, (Byte.to_N b < 128)%N) (as_bytes t).
Proof.
  induction t as [|c t IH]; [constructor|]. intros [Hc Ht]. constructor; [|by apply IH].
  destruct c as [[] [] [] [] [] [] [] []]; try (vm_compute; reflexivity); by destruct Hc as [? Hc].
Qed.

Lemma token_ascii group : Forall (λ b, (Byte.to_N b < 128)%N) (as_bytes (token group)).
Proof.
  destruct group as [|p]; [repeat constructor; vm_compute; reflexivity|]. unfold token. rewrite as_bytes_app.
  apply Forall_app. split; [repeat constructor; vm_compute; reflexivity|]. apply all_digits_ascii, all_digits_pretty.
Qed.

Lemma token_length group : wf group → String.length (token group) ≤ 25.
Proof.
  destruct group as [|p]; [simpl; lia|]. intros Hg. unfold token.
  change (String.length ("data_" +:+ ?x)) with (5 + String.length x).
  pose proof (pretty_length p). unfold wf, GroupId_wf in Hg. unfold u16_max, u64_max in *. simpl. lia.
Qed.

Lemma token_utf8 group : from_utf8 (as_bytes (token group)) = Some (token group).
Proof. apply from_utf8_as_bytes. unfold utf8_string, utf8_valid. apply bool_decide_eq_true, utf8_ascii, token_ascii. Qed.

(** Digits followed by nothing or by ['_'] are read back uniquely. *)
Lemma digits_suffix_inj a b r r' : all_digits a → all_digits b → snapshot_suffix r → snapshot_suffix r' →
  a +:+ r = b +:+ r' → a = b ∧ r = r'.
Proof.
  intros Ha Hb Hr Hr'. revert b Ha Hb. induction a as [|c a IH]; intros [|d b] Ha Hb E; simpl in *.
  - done.
  - subst r. destruct Hr as [?|[t Ht]]; [done|]. injection Ht as -> _. destruct Hb as [[? Hd] _]. by vm_compute in Hd.
  - subst r'. destruct Hr' as [?|[t Ht]]; [done|]. injection Ht as -> _. destruct Ha as [[? Hd] _]. by vm_compute in Hd.
  - injection E as -> E. destruct (IH b) as [-> ->]; naive_solver.
Qed.

Lemma valid_cf_name_inj g h n : valid_cf_name g n → valid_cf_name h n → g = h.
Proof.
  intros (r & Hr & ->) (r' & Hr' & E). unfold cf_state in E. rewrite !string_app_assoc in E.
  assert (token g +:+ r = token h +:+ r') as E' by (by injection E). clear E.
  destruct g as [|p], h as [|q]; [done|by injection E'..|].
  assert ((pretty p : string) +:+ r = pretty q +:+ r') as E.
  { by injection E'. }
  apply digits_suffix_inj in E as [E _]; [|by apply all_digits_pretty..|done|done].
  by apply (inj pretty) in E as ->.
Qed.

Lemma pointer_key_inj g h : state_cf_pointer_key g = state_cf_pointer_key h → g = h.
Proof.
  unfold state_cf_pointer_key. intros E%(inj (app _))%as_bytes_inj.
  apply (valid_cf_name_inj g h (cf_state g)); [exists ""; split; [by left|by rewrite string_app_nil_r]|].
  exists "". split; [by left|]. unfold cf_state. by rewrite E, string_app_nil_r.
Qed.

Lemma valid_cf_name_default g n : valid_cf_name g n → n ≠ DEFAULT_CF.
Proof. intros (r & _ & ->). by unfold cf_state. Qed.

Lemma valid_cf_name_log g h n : valid_cf_name g n → n ≠ cf_log h.
Proof. intros (r & _ & ->). by unfold cf_state, cf_log. Qed.

Section storage_laws.
Context `{RocksOk D} `{!Codec U64, !Codec U128, !Codec string, !Codec LogId}
  `{!Codec Identity, !Codec ServingState, !Codec BootstrapGroup, !Codec LearnerAdmission}
  `{!Codec RegistrationBinding, !Codec RaftApplied}.
Implicit Types (s : Storage D) (group : GroupId).

Lemma pointer_name_valid s group n : pointer_name s group = Ok n → valid_cf_name group n.
Proof.
  unfold pointer_name. intros (p & _ & E)%rbind_ok. revert E. cbn beta zeta.
  set (name := default _ p). case_match eqn:Hc; [done|]. intros [= <-].
  apply andb_false_iff in Hc as [Hc%negb_false_iff|Hc%negb_false_iff].
  - apply bool_decide_eq_true in Hc as ->. exists "". split; [by left|]. by rewrite string_app_nil_r.
  - apply string_prefix_spec in Hc as [t ->]. exists ("__snapshot_" +:+ t). split; [right; by exists t|].
    by rewrite string_app_assoc.
Qed.

(** The cache holds what the durable pointers say. *)
Definition cache_ok s : Prop :=
  ∀ group n, st_active_state_cfs s !! group = Some n → pointer_name s group = Ok n.

Lemma active_name_valid s group n : cache_ok s → active_state_cf_name s group = Ok n → valid_cf_name group n.
Proof.
  intros Hc. unfold active_state_cf_name. destruct (st_active_state_cfs s !! group) eqn:E.
  - intros [= <-]. by eapply pointer_name_valid, Hc.
  - apply pointer_name_valid.
Qed.

(** Filling the cache changes no later lookup. *)
Lemma active_name_cached s group s' n :
  active_state_cf_name_locked group s = (s', Ok n) →
  active_state_cf_name s group = Ok n ∧ st_db s' = st_db s ∧
  (∀ h, active_state_cf_name s' h = active_state_cf_name s h) ∧ (cache_ok s → cache_ok s').
Proof.
  unfold active_state_cf_name_locked, active_state_cf_name.
  destruct (st_active_state_cfs s !! group) as [m|] eqn:E; [by intros [= <- <-]|].
  destruct (pointer_name s group) as [m|] eqn:Ep; [|done]. intros [= <- <-]. simpl. split_and!; [done..| |].
  - intros h. destruct (decide (group = h)) as [<-|Hne].
    + by rewrite lookup_insert_eq, E.
    + by rewrite lookup_insert_ne by done.
  - intros Hc h n. simpl. rewrite lookup_insert_Some. intros [[<- <-]|[_ Hn]]; [done|by apply Hc].
Qed.

(** ** Local records *)

Lemma db_get_write d b k : db_get (write d b) k = batch_get DEFAULT_CF k b (db_get d k).
Proof. unfold db_get. by rewrite get_write by apply default_exists. Qed.

Lemma get_local_put_eq {T} `{Codec T} s key (v : T) :
  wf v → get_local T (set_db (db_put (st_db s) key (encode v)) s) key = Ok (Some v).
Proof.
  intros Hv. unfold get_local, db_put. simpl. rewrite db_get_write. simpl.
  rewrite decide_True by done. simpl. by rewrite decode_encode.
Qed.

Lemma get_local_put_ne {T U} `{Codec T, Codec U} s key key' (v : U) :
  key ≠ key' → get_local T (set_db (db_put (st_db s) key (encode v)) s) key' = get_local T s key'.
Proof.
  intros Hne. unfold get_local, db_put. simpl. rewrite db_get_write. simpl.
  by rewrite decide_False by naive_solver.
Qed.

(** ** Writing a state column family *)

Lemma batch_get_mutations cf key ms old :
  batch_get cf key (mutation_op cf <$> ms) old = mutations_get key ms old.
Proof.
  revert old. induction ms as [|m ms IH]; intros old; [done|].
  cbn [fmap list_fmap]. change (batch_get cf key (mutation_op cf <$> ms)
    (batch_op_apply cf key (mutation_op cf m) old) = mutations_get key ms (mutation_apply key old m)).
  rewrite IH. f_equal. destruct m; simpl; repeat case_decide; naive_solver.
Qed.

Definition op_cf (op : BatchOp) : string := match op with BatchPut cf _ _ | BatchDelete cf _ | BatchDeleteRange cf _ _ => cf end.

Lemma op_touches_cf op cf key : op_touches op cf key → op_cf op = cf.
Proof. destruct op; simpl; naive_solver. Qed.

Lemma batch_get_other_cf cf key b old : Forall (λ op, op_cf op ≠ cf) b → batch_get cf key b old = old.
Proof.
  intros Hb. apply batch_get_untouched. eapply Forall_impl; [exact Hb|].
  intros op Hne Ht. by apply op_touches_cf in Ht.
Qed.

(** A batch outside the default column family moves no pointer. *)
Lemma write_names s b : Forall (λ op, op_cf op ≠ DEFAULT_CF) b →
  let s' := set_db (write (st_db s) b) s in
  (∀ h, pointer_name s' h = pointer_name s h) ∧ (∀ h, active_state_cf_name s' h = active_state_cf_name s h) ∧
  (∀ h, state_cf s' h = state_cf s h) ∧ (cache_ok s → cache_ok s').
Proof.
  intros Hb s'. 
  assert (∀ h, pointer_name s' h = pointer_name s h) as Hp.
  { intros h. unfold pointer_name, get_local. simpl. by rewrite db_get_write, batch_get_other_cf. }
  assert (∀ h, active_state_cf_name s' h = active_state_cf_name s h) as Ha.
  { intros h. unfold active_state_cf_name. by rewrite Hp. }
  split_and!; [done..| |].
  - intros h. unfold state_cf. rewrite Ha. destruct (active_state_cf_name s h) as [n|]; simpl; [|done].
    by rewrite exists_write.
  - intros Hc h n. simpl. rewrite Hp. apply Hc.
Qed.

(** The key of a point operation. *)
Definition batch_key (op : BatchOp) : option bytes :=
  match op with BatchPut _ k _ | BatchDelete _ k => Some k | BatchDeleteRange _ _ _ => None end.

(** An operation that moves no state-CF pointer. *)
Definition pointer_free (op : BatchOp) : Prop :=
  ∀ g, ¬ op_touches op DEFAULT_CF (state_cf_pointer_key g).

Lemma batch_get_pointer b g old : Forall pointer_free b → batch_get DEFAULT_CF (state_cf_pointer_key g) b old = old.
Proof.
  intros Hb. apply batch_get_untouched. eapply Forall_impl; [exact Hb|]. intros op Hop. apply Hop.
Qed.

Lemma write_pointer_free s b : Forall pointer_free b →
  let s' := set_db (write (st_db s) b) s in
  (∀ h, pointer_name s' h = pointer_name s h) ∧ (∀ h, state_cf s' h = state_cf s h) ∧ (cache_ok s → cache_ok s').
Proof.
  intros Hb s'.
  assert (∀ h, pointer_name s' h = pointer_name s h) as Hp.
  { intros h. unfold pointer_name, get_local. simpl. by rewrite db_get_write, batch_get_pointer. }
  split_and!; [done| |].
  - intros h. unfold state_cf, active_state_cf_name. simpl. rewrite Hp.
    destruct (st_active_state_cfs s !! h); [|destruct (pointer_name s h)]; simpl; rewrite ?exists_write; done.
  - intros Hc h n. simpl. rewrite Hp. apply Hc.
Qed.

Lemma state_cf_valid s group cf :
  cache_ok s → state_cf s group = Ok cf → valid_cf_name group cf ∧ cf_exists (st_db s) cf = true.
Proof.
  intros Hc (n & Hn & E)%rbind_ok. destruct (cf_exists (st_db s) n) eqn:Ee; [|done].
  injection E as <-. split; [by eapply active_name_valid|done].
Qed.

(** Reads after a batch of state-CF operations of one group. *)
Lemma get_state_write s group cf b :
  cache_ok s → state_cf s group = Ok cf → Forall (λ op, op_cf op = cf) b →
  let s' := set_db (write (st_db s) b) s in
  (∀ k, get_state s' group k = Ok (batch_get cf k b (get_cf (st_db s) cf k))) ∧
  (∀ h k, h ≠ group → get_state s' h k = get_state s h k) ∧ cache_ok s'.
Proof.
  intros Hc Hcf Hb s'. destruct (state_cf_valid s group cf Hc Hcf) as [Hv He].
  assert (Forall (λ op, op_cf op ≠ DEFAULT_CF) b) as Hb'.
  { eapply Forall_impl; [exact Hb|]. intros op ->. by eapply valid_cf_name_default. }
  destruct (write_names s b Hb') as (_ & _ & Hs & Hc'). fold s' in Hs, Hc'. split_and!; [| |auto].
  - intros k. unfold get_state. rewrite Hs, Hcf. simpl. by rewrite get_write.
  - intros h k Hne. unfold get_state. rewrite Hs. destruct (state_cf s h) as [n|] eqn:En; simpl; [|done].
    destruct (state_cf_valid s h n Hc En) as [Hvn Hen]. rewrite get_write by done. f_equal.
    apply batch_get_other_cf. eapply Forall_impl; [exact Hb|]. intros op -> ->.
    apply Hne. by eapply valid_cf_name_inj.
Qed.

(** [apply_state] writes exactly the mutations and [last_applied]. *)
Lemma apply_state_spec s s' group ms l :
  cache_ok s → apply_state group ms l s = (s', Ok tt) →
  cache_ok s' ∧
  (∀ k, get_state s' group k = let! old := get_state s group k in
     Ok (if decide (last_applied_key = k) then Some (encode l) else mutations_get k ms old)) ∧
  (∀ h k, h ≠ group → get_state s' h k = get_state s h k).
Proof.
  intros Hc. unfold apply_state. destruct (state_cf s group) as [cf|] eqn:Hcf; [|done]. intros [= <-].
  destruct (get_state_write s group cf ((mutation_op cf <$> ms) ++ [BatchPut cf last_applied_key (encode l)]))
    as (H1 & H2 & H3); [done..| |].
  { apply Forall_app. split; [|by repeat constructor]. apply Forall_fmap, Forall_true. by intros []. }
  split_and!; [done| |done]. intros k. rewrite H1. unfold get_state. rewrite Hcf. simpl.
  rewrite batch_get_app, batch_get_mutations. simpl. f_equal. repeat case_decide; naive_solver.
Qed.

Lemma apply_state_ok s group ms l : is_ok (state_cf s group) = true → (apply_state group ms l s).2 = Ok tt.
Proof. unfold apply_state. by destruct (state_cf s group). Qed.

(** ** A group's state as a byte map *)

(** The byte map of a group's open state column family. *)
Definition state_map s (group : GroupId) (key : bytes) : option bytes :=
  match state_cf s group with Ok cf => get_cf (st_db s) cf key | Err _ => None end.

Lemma apply_state_map (s s' : Storage D) group ms l :
  cache_ok s → apply_state group ms l s = (s', Ok tt) →
  cache_ok s' ∧ is_ok (state_cf s' group) = true ∧
  (∀ k, k ≠ last_applied_key → state_map s' group k = mutations_get k ms (state_map s group k)) ∧
  state_map s' group last_applied_key = Some (encode l) ∧
  (∀ h k, h ≠ group → get_state s' h k = get_state s h k).
Proof.
  intros Hc Hap. destruct (apply_state_spec s s' group ms l Hc Hap) as (Hc' & Hg & Ho).
  unfold apply_state in Hap. destruct (state_cf s group) as [cf|] eqn:Ecf; [|done].
  assert (∀ k, ∃ cf', state_cf s' group = Ok cf' ∧ get_cf (st_db s') cf' k =
            if decide (last_applied_key = k) then Some (encode l) else mutations_get k ms (get_cf (st_db s) cf k)) as Hx.
  { intros k. specialize (Hg k). unfold get_state in Hg. rewrite Ecf in Hg. simpl in Hg.
    destruct (state_cf s' group) as [cf'|]; [|done]. exists cf'. split; [done|]. by injection Hg. }
  split_and!; [done|by destruct (Hx []) as (? & -> & _)| | |done].
  - intros k Hk. unfold state_map. destruct (Hx k) as (cf' & -> & ->). rewrite Ecf.
    by rewrite decide_False.
  - unfold state_map. destruct (Hx last_applied_key) as (cf' & -> & ->). by rewrite decide_True.
Qed.

(** A state write leaves the node-local records alone. *)
Lemma apply_state_local {T} `{Codec T} s s' group ms l key :
  cache_ok s → apply_state group ms l s = (s', Ok tt) → get_local T s' key = get_local T s key.
Proof.
  intros Hc. unfold apply_state. destruct (state_cf s group) as [cf|] eqn:Ecf; [|done]. intros [= <-].
  destruct (state_cf_valid s group cf Hc Ecf) as [Hv _]. apply valid_cf_name_default in Hv.
  unfold get_local. simpl. rewrite db_get_write, batch_get_other_cf; [done|].
  apply Forall_app. split; [|by repeat constructor]. apply Forall_fmap, Forall_true. by intros [].
Qed.

End storage_laws.
