(* ===== verification/Maintenance.v ===== *)
(** * Maintenance admission and process lifecycle (src/src/runtime/maintenance.rs, readiness.rs)

    The node-local gate that keeps client writes out while a maintenance
    operation is fenced. Operations of clients and of the reconciler interleave
    at the granularity of their awaits and atomic accesses; the process may stop
    at any point and start again from its store. *)

From S2P Require Import Prelude BTree Types Codec Keyspace ApplyDurability Rocks Storage.

(** ** Fences *)

(** [same_fence]. *)
Definition same_fence (current next : option MaintenanceRecord) : bool :=
  match current, next with
  | None, None => true
  | Some current, Some next =>
      (mr_operation_id current =? mr_operation_id next)%N && (mr_generation current =? mr_generation next)%N &&
      bool_decide (mr_participants current = mr_participants next) && bool_decide (mr_stage current = mr_stage next)
  | _, _ => false
  end.

Definition maintenance_stage_rank (stage : MaintenanceStage) : N :=
  match stage with
  | MaintenanceStage_Preparing => 0
  | MaintenanceStage_Quiesced => 1
  | MaintenanceStage_Verifying => 2
  | MaintenanceStage_Released => 3
  end.

Inductive TransitionIssue := TransitionIssue_Stale | TransitionIssue_Conflict (reason : string).

(** [validate_transition]. *)
Definition validate_transition (current next : option MaintenanceRecord) : result TransitionIssue unit :=
  match current, next with
  | None, _ => Ok tt
  | Some _, None => Err (TransitionIssue_Conflict "authoritative maintenance record disappeared")
  | Some current, Some next =>
      if (mr_generation next <? mr_generation current)%N then Err TransitionIssue_Stale
      else if (mr_generation next =? mr_generation current)%N then
        if negb (mr_operation_id next =? mr_operation_id current)%N ||
           negb (bool_decide (mr_participants next = mr_participants current))
        then Err (TransitionIssue_Conflict "conflicting maintenance generation")
        else if (maintenance_stage_rank (mr_stage next) <? maintenance_stage_rank (mr_stage current))%N
        then Err TransitionIssue_Stale
        else Ok tt
      else Ok tt
  end.

(** [record.is_none_or(|record| record.stage == Released)]. *)
Definition fence_open (record : option MaintenanceRecord) : bool :=
  match record with None => true | Some record => bool_decide (mr_stage record = MaintenanceStage_Released) end.

(** Later in the life of an operation, or of a later operation. *)
Definition fence_le (a b : option MaintenanceRecord) : Prop :=
  match a, b with
  | None, _ => True
  | Some _, None => False
  | Some a, Some b => (mr_generation a < mr_generation b ∨ (mr_generation a = mr_generation b ∧
      mr_operation_id a = mr_operation_id b ∧ mr_participants a = mr_participants b ∧
      maintenance_stage_rank (mr_stage a) ≤ maintenance_stage_rank (mr_stage b)))%N
  end.

#[global] Instance fence_le_preorder : PreOrder fence_le.
Proof.
  split.
  - intros [a|]; [right; split_and!; done || lia|done].
  - intros [a|] [b|] [d|]; cbn; try done. intros [?|(? & ? & ? & ?)] [?|(? & ? & ? & ?)]; [left; lia..|].
    right. split_and!; [congruence..|lia].
Qed.

Lemma same_fence_le a b : same_fence a b = true → fence_le a b ∧ fence_open a = fence_open b.
Proof.
  destruct a as [a|], b as [b|]; try done. cbn. rewrite !andb_true_iff, !bool_decide_eq_true, !N.eqb_eq.
  intros [[[? ?] ?] Hs]. rewrite Hs. split; [right; split_and!; done || lia|done].
Qed.

Lemma validate_transition_le a b : validate_transition a b = Ok tt → fence_le a b ∧ (b = None → a = None).
Proof.
  destruct a as [a|], b as [b|]; try done. cbn.
  destruct (N.ltb_spec (mr_generation b) (mr_generation a)); [done|].
  destruct (N.eqb_spec (mr_generation b) (mr_generation a)) as [E|]; [|intros _; split; [left; lia|done]].
  destruct (_ || _) eqn:Eo; [done|]. apply orb_false_iff in Eo as [?%negb_false_iff%N.eqb_eq ?%negb_false_iff%bool_decide_eq_true].
  destruct (N.ltb_spec (maintenance_stage_rank (mr_stage b)) (maintenance_stage_rank (mr_stage a))); [done|].
  intros _. split; [right; split_and!; done || lia|done].
Qed.

(** ** The gate *)

(** Where [reconcile] stands: waiting at its lock is not a state. [RcDraining]: its write request
    is queued, which blocks new readers. *)
Inductive ReconcilePc :=
| RcIdle
| RcLocked (authoritative : option MaintenanceRecord)
| RcValidated (authoritative : option MaintenanceRecord)
| RcClosed (authoritative : option MaintenanceRecord)
| RcDraining (authoritative : option MaintenanceRecord).

(** The gate with its store, the permits whose holder has not yet looked at [open], and those of
    admitted operations. *)
Record MaintenanceAdmission (D : Type) := mkGate {
  ga_storage : Storage D;
  ga_record : option MaintenanceRecord;
  ga_open : bool;
  ga_reconcile : ReconcilePc;
  ga_holding : nat;
  ga_admitted : nat;
}.
Arguments mkGate {D}. Arguments ga_storage {D}. Arguments ga_record {D}. Arguments ga_open {D}.
Arguments ga_reconcile {D}. Arguments ga_holding {D}. Arguments ga_admitted {D}.

Inductive GateEvent :=
| GateAcquire                                            (* [admit]: the read lock is granted *)
| GateCheck                                              (* [admit]: [is_open] *)
| GateFinish                                             (* an admitted operation drops its permit *)
| GateReconcile (authoritative : option MaintenanceRecord) (* [reconcile] takes its lock *)
| GateCompare                                            (* [reconcile]: under the read lock *)
| GateClose                                              (* [reconcile]: [open.store(false)] *)
| GateQueue                                              (* [reconcile]: the write lock is requested *)
| GateInstall (disk : bool)                              (* [reconcile]: under the write lock; [disk]: the write succeeds *)
| GateCancel                                             (* the future of [reconcile] is dropped *)
| GateRestart.                                           (* the process stops and starts again *)

Section gate.
Context `{RocksOk D} `{!Codec MaintenanceRecord} `{!Codec U64, !Codec U128, !Codec string, !Codec LogId}
  `{!Codec Identity, !Codec ServingState, !Codec BootstrapGroup, !Codec LearnerAdmission}
  `{!Codec RegistrationBinding, !Codec RaftApplied}.
Implicit Types (g : MaintenanceAdmission D).

(** [MaintenanceAdmission::new]. *)
Definition gate_new (s : Storage D) : Result (MaintenanceAdmission D) :=
  let! record := get_local MaintenanceRecord s maintenance_fence_key in
  Ok (mkGate s record false RcIdle 0 0).

(** [admit] on the fields. *)
Definition admit_acquire g : option (MaintenanceAdmission D) :=
  match ga_reconcile g with
  | RcDraining _ => None
  | _ => Some (mkGate (ga_storage g) (ga_record g) (ga_open g) (ga_reconcile g) (S (ga_holding g)) (ga_admitted g))
  end.
Definition admit_check g : option (MaintenanceAdmission D) :=
  match ga_holding g with
  | O => None
  | S n => Some (mkGate (ga_storage g) (ga_record g) (ga_open g) (ga_reconcile g) n
                   (if ga_open g then S (ga_admitted g) else ga_admitted g))
  end.
Definition permit_drop g : option (MaintenanceAdmission D) :=
  match ga_admitted g with
  | O => None
  | S n => Some (mkGate (ga_storage g) (ga_record g) (ga_open g) (ga_reconcile g) (ga_holding g) n)
  end.

Definition set_open (open : bool) (pc : ReconcilePc) g : MaintenanceAdmission D :=
  mkGate (ga_storage g) (ga_record g) open pc (ga_holding g) (ga_admitted g).

(** [reconcile] up to the release of its read guard. *)
Definition reconcile_compare (authoritative : option MaintenanceRecord) g : MaintenanceAdmission D * option (Result unit) :=
  if same_fence (ga_record g) authoritative then (set_open (fence_open authoritative) RcIdle g, Some (Ok tt))
  else match validate_transition (ga_record g) authoritative with
       | Ok _ => (set_open (ga_open g) (RcValidated authoritative) g, None)
       | Err TransitionIssue_Stale => (set_open (ga_open g) RcIdle g, Some (Err (Error_Raft "stale maintenance generation")))
       | Err (TransitionIssue_Conflict reason) => (set_open false RcIdle g, Some (Err (Error_Raft reason)))
       end.

(** [reconcile] under its write guard. *)
Definition reconcile_install (disk : bool) (authoritative : option MaintenanceRecord) g : MaintenanceAdmission D * Result unit :=
  match authoritative with
  | Some record =>
      if disk then
        let '(s, _) := put_local maintenance_fence_key record (ga_storage g) in
        (mkGate s authoritative (fence_open authoritative) RcIdle (ga_holding g) (ga_admitted g), Ok tt)
      else (set_open (ga_open g) RcIdle g, Err (Error_Io "maintenance fence"))
  | None => (mkGate (ga_storage g) None true RcIdle (ga_holding g) (ga_admitted g), Ok tt)
  end.

(** One step, with what a call of [reconcile] that it ends returns for its view. *)
Definition gate_step (e : GateEvent) g : option (MaintenanceAdmission D * option (option MaintenanceRecord * Result unit)) :=
  match e, ga_reconcile g with
  | GateAcquire, _ => (., None) <$> admit_acquire g
  | GateCheck, _ => (., None) <$> admit_check g
  | GateFinish, _ => (., None) <$> permit_drop g
  | GateReconcile a, RcIdle => Some (set_open (ga_open g) (RcLocked a) g, None)
  | GateCompare, RcLocked a => let '(g, r) := reconcile_compare a g in Some (g, (a,.) <$> r)
  | GateClose, RcValidated a => Some (set_open false (RcClosed a) g, None)
  | GateQueue, RcClosed a => Some (set_open (ga_open g) (RcDraining a) g, None)
  | GateInstall disk, RcDraining a =>
      if (ga_holding g =? 0) && (ga_admitted g =? 0)
      then let '(g, r) := reconcile_install disk a g in Some (g, Some (a, r)) else None
  | GateCancel, _ => Some (set_open (ga_open g) RcIdle g, None)
  | GateRestart, _ => match gate_new (ga_storage g) with Ok g => Some (g, None) | Err _ => None end
  | _, _ => None
  end.
Fixpoint gate_run (es : list GateEvent) g : option (MaintenanceAdmission D) :=
  match es with
  | [] => Some g
  | e :: es => match gate_step e g with Some (g, _) => gate_run es g | None => None end
  end.

(** ** Safety of the gate *)

Definition pc_ok g : Prop :=
  match ga_reconcile g with
  | RcIdle => True
  | RcLocked a => from_option wf True a
  | RcValidated a => from_option wf True a ∧ validate_transition (ga_record g) a = Ok tt
  | RcClosed a | RcDraining a => from_option wf True a ∧ validate_transition (ga_record g) a = Ok tt ∧ ga_open g = false
  end.
Record gate_inv g : Prop := {
  gi_fenced : fence_open (ga_record g) = false → ga_open g = false ∧ ga_admitted g = 0;
  gi_durable : get_local MaintenanceRecord (ga_storage g) maintenance_fence_key = Ok (ga_record g);
  gi_pc : pc_ok g;
}.
Definition event_wf (e : GateEvent) : Prop := match e with GateReconcile (Some r) => wf r | _ => True end.

Lemma gate_new_spec s g : gate_new s = Ok g → gate_inv g ∧ get_local MaintenanceRecord s maintenance_fence_key = Ok (ga_record g).
Proof.
  unfold gate_new. intros (record & E & [= <-])%rbind_ok. split; [|done]. by constructor.
Qed.

(** Losing permits, and an idle reconciler, are always fine. *)
Lemma inv_idle g open : gate_inv g → (open = true → fence_open (ga_record g) = true) → gate_inv (set_open open RcIdle g).
Proof.
  intros [Hf Hd _] Ho. constructor; [|done|done]. cbn. intros Hr. destruct (Hf Hr) as [_ Ha]. split; [|done].
  destruct open; [|done]. rewrite Ho in Hr by done. done.
Qed.
Lemma inv_open g : gate_inv g → ga_open g = true → fence_open (ga_record g) = true.
Proof. intros Hi Ho. destruct (fence_open _) eqn:E; [done|]. apply gi_fenced in E as [? _]; [congruence|done]. Qed.

(** What a step guarantees, of the state it leads to and of the outcome it reports. *)
Definition step_safe g g' (o : option (option MaintenanceRecord * Result unit)) : Prop :=
  gate_inv g' ∧ fence_le (ga_record g) (ga_record g') ∧ ∀ a, o = Some (a, Ok tt) → same_fence (ga_record g') a = true.

Lemma step_quiet g g' : gate_inv g' → ga_record g' = ga_record g → step_safe g g' None.
Proof. intros Hi E. split_and!; [done|by rewrite E|done]. Qed.

Lemma same_fence_refl a : same_fence a a = true.
Proof. destruct a; [|done]. cbn. by rewrite !N.eqb_refl, !bool_decide_true. Qed.

Lemma permits_safe e g g' o : gate_inv g → e ∈ [GateAcquire; GateCheck; GateFinish] →
  gate_step e g = Some (g', o) → step_safe g g' o.
Proof.
  intros Hi He E. pose proof Hi as [Hf Hd Hp]. apply list_elem_of_In in He as [<-|[<-|[<-|[]]]]; cbn in E.
  - unfold admit_acquire in E. destruct (ga_reconcile g) eqn:Er; try done; injection E as <- <-;
      (apply step_quiet; [|done]); constructor; cbn; try done; unfold pc_ok in *; cbn; rewrite Er in *; done.
  - unfold admit_check in E. destruct (ga_holding g) as [|n] eqn:Eh; [done|]. injection E as <- <-. apply step_quiet; [|done].
    constructor; cbn; [|done|done]. intros Hr. destruct (Hf Hr) as [-> ->]. done.
  - unfold permit_drop in E. destruct (ga_admitted g) as [|n] eqn:Ea; [done|]. injection E as <- <-. apply step_quiet; [|done].
    constructor; cbn; [|done|done]. intros Hr. by destruct (Hf Hr).
Qed.

Lemma compare_safe a g g' r : gate_inv g → from_option wf True a → reconcile_compare a g = (g', r) → step_safe g g' ((a,.) <$> r).
Proof.
  intros Hi Ha. unfold reconcile_compare. destruct (same_fence (ga_record g) a) eqn:Es.
  { intros [= <- <-]. destruct (same_fence_le _ _ Es) as [_ Eo]. split_and!; [|done|by intros a' [= <-]].
    apply inv_idle; [done|]. by rewrite Eo. }
  destruct (validate_transition _ _) as [[]|[|reason]] eqn:Ev; intros [= <- <-].
  - apply step_quiet; [|done]. destruct Hi as [Hf Hd _]. constructor; [done|done|]. by split.
  - split_and!; [|done|done]. apply inv_idle; [done|by apply inv_open].
  - split_and!; [|done|done]. by apply inv_idle.
Qed.

Lemma install_safe disk a g g' r : gate_inv g → ga_reconcile g = RcDraining a → ga_admitted g = 0 →
  reconcile_install disk a g = (g', r) → step_safe g g' (Some (a, r)).
Proof.
  intros Hi Er Ea. pose proof Hi as [Hf Hd Hp]. unfold pc_ok in Hp. rewrite Er in Hp. destruct Hp as (Hw & Hv & Ho).
  apply validate_transition_le in Hv as [Hle Hn]. unfold reconcile_install. destruct a as [record|].
  - destruct disk; intros [= <- <-].
    + split_and!; [|done|intros a [= <-]; apply same_fence_refl]. constructor; cbn; [done| |done]. by apply get_local_put_eq.
    + split_and!; [|done|done]. apply inv_idle; [done|by apply inv_open].
  - intros [= <- <-]. specialize (Hn eq_refl). split_and!; [|by rewrite Hn|by intros a [= <-]].
    constructor; cbn; [done|by rewrite <-Hn|done].
Qed.

Lemma gate_step_safe e g g' o : gate_inv g → event_wf e → gate_step e g = Some (g', o) → step_safe g g' o.
Proof.
  intros Hi He E. pose proof Hi as [Hf Hd Hp]. unfold pc_ok in Hp. destruct e as [| | |a| | | |disk| |].
  1-3: by eapply permits_safe; [exact Hi| |exact E]; repeat constructor.
  all: unfold gate_step in E; try (destruct (ga_reconcile g) as [|b|b|b|b] eqn:Er; try discriminate E; []).
  - injection E as <- <-. apply step_quiet; [|done]. constructor; [done|done|]. cbn. by destruct a.
  - destruct (reconcile_compare b g) as [g1 r] eqn:Ec. injection E as <- <-. by eapply compare_safe.
  - injection E as <- <-. apply step_quiet; [|done]. constructor; [|done|by destruct Hp]. cbn. intros Hr. by destruct (Hf Hr).
  - injection E as <- <-. apply step_quiet; [|done]. constructor; [done|done|]. by destruct Hp as (? & ? & ?).
  - destruct (_ && _) eqn:Eb; [|done]. apply andb_true_iff in Eb as [_ Ea%Nat.eqb_eq].
    destruct (reconcile_install disk b g) as [g1 r] eqn:Ec. injection E as <- <-. by eapply install_safe.
  - injection E as <- <-. apply step_quiet; [|done]. apply inv_idle; [done|by apply inv_open].
  - destruct (gate_new (ga_storage g)) as [g1|] eqn:En; [|done]. injection E as <- <-. apply gate_new_spec in En as [Hi1 Hd1].
    apply step_quiet; [done|congruence].
Qed.

Lemma gate_run_safe es : ∀ g g', gate_inv g → Forall event_wf es → gate_run es g = Some g' →
  gate_inv g' ∧ fence_le (ga_record g) (ga_record g').
Proof.
  induction es as [|e es IH]; intros g g' Hi; [by intros _ [= <-]|]. intros [He Hes]%Forall_cons. cbn.
  destruct (gate_step e g) as [[g1 o]|] eqn:E; [|done]. intros Er. destruct (gate_step_safe _ _ _ _ Hi He E) as (Hi1 & Hle & _).
  destruct (IH _ _ Hi1 Hes Er) as [? ?]. split; [done|by etrans].
Qed.

(** C29: from the start of a process on any store, through any interleaving of
    client operations, reconciliations (with failing writes and dropped
    futures) and restarts: while the installed fence is not released, the gate
    is closed and no admitted operation is in flight; the fence never moves back
    to an earlier stage or generation; and a reconciliation that reports success
    has installed the fence of its view, and the store holds it. *)
Theorem maintenance_gate_safe s g0 es g : gate_new s = Ok g0 → Forall event_wf es → gate_run es g0 = Some g →
  (fence_open (ga_record g) = false → ga_open g = false ∧ ga_admitted g = 0) ∧
  fence_le (ga_record g0) (ga_record g) ∧
  ∀ e g' a, gate_step e g = Some (g', Some (a, Ok tt)) → same_fence (ga_record g') a = true ∧
    get_local MaintenanceRecord (ga_storage g') maintenance_fence_key = Ok (ga_record g').
Proof.
  intros [Hi0 _]%gate_new_spec Hes Er. destruct (gate_run_safe _ _ _ Hi0 Hes Er) as [Hi Hle].
  split_and!; [apply Hi|done|]. intros e g' a E. assert (event_wf e) as He.
  { destruct e as [| | |a'| | | | | |]; try done. unfold gate_step in E. by destruct (ga_reconcile g). }
  destruct (gate_step_safe _ _ _ _ Hi He E) as (Hi' & _ & Ho). split; [by apply Ho|apply Hi'].
Qed.
End gate.

(** ** Process lifecycle *)

Inductive RuntimeLifecycle :=
| RuntimeLifecycle_Starting | RuntimeLifecycle_Running | RuntimeLifecycle_Draining
| RuntimeLifecycle_Failed | RuntimeLifecycle_Stopped.
#[global] Instance RuntimeLifecycle_eq_dec : EqDecision RuntimeLifecycle.
Proof. solve_decision. Defined.

(** [RuntimeReadiness]: each operation at the atomic access that takes effect. *)
Definition is_ready (l : RuntimeLifecycle) : bool := bool_decide (l = RuntimeLifecycle_Running).
Definition transition (from to l : RuntimeLifecycle) : RuntimeLifecycle * bool :=
  if bool_decide (l = from) then (to, true) else (l, false).
Definition mark_ready (l : RuntimeLifecycle) : RuntimeLifecycle * bool :=
  let '(l, ok) := transition RuntimeLifecycle_Starting RuntimeLifecycle_Running l in
  (l, ok || bool_decide (l = RuntimeLifecycle_Running)).
Definition begin_draining (l : RuntimeLifecycle) : RuntimeLifecycle * bool :=
  match l with
  | RuntimeLifecycle_Starting | RuntimeLifecycle_Running => transition l RuntimeLifecycle_Draining l
  | RuntimeLifecycle_Draining => (l, true)
  | RuntimeLifecycle_Failed | RuntimeLifecycle_Stopped => (l, false)
  end.
Definition mark_failed (l : RuntimeLifecycle) : RuntimeLifecycle * bool :=
  if bool_decide (l = RuntimeLifecycle_Stopped) then (l, false)
  else if bool_decide (l = RuntimeLifecycle_Failed) then (l, true)
  else transition l RuntimeLifecycle_Failed l.
Definition mark_stopped (l : RuntimeLifecycle) : RuntimeLifecycle := RuntimeLifecycle_Stopped.

Inductive LifecycleOp := OpReady | OpDrain | OpFail | OpStop.
Definition lifecycle_step (op : LifecycleOp) (l : RuntimeLifecycle) : RuntimeLifecycle :=
  match op with
  | OpReady => (mark_ready l).1 | OpDrain => (begin_draining l).1 | OpFail => (mark_failed l).1 | OpStop => mark_stopped l
  end.

(** Readiness, once given up, is never regained. *)
Lemma readiness_final ops l : l ≠ RuntimeLifecycle_Starting → is_ready l = false →
  is_ready (foldl (λ l op, lifecycle_step op l) l ops) = false.
Proof.
  revert l. induction ops as [|op ops IH]; intros l Hs Hr; cbn [foldl]; [done|].
  apply IH; destruct op, l; done.
Qed.
