(* ===== verification/Startup.v ===== *)
(** * Opening a store (src/src/storage/rocks.rs)

    What [Storage::open] does to the durable contents before it hands the store
    out: dropping column families that no pointer names, and finishing the
    reclamations a crash interrupted. Then the recovery theorem: whatever crash
    left the directory in a legal layout, opening keeps the active state and
    log of every hosted group and leaves nothing of the others.

    The directory itself is outside the model: the format marker, temporary
    snapshot files and the index directories of reclaimed groups. *)

From S2P Require Import Prelude BTree Types Codec Keyspace ApplyDurability Rocks Storage.

(** [str::contains]. *)
Fixpoint str_contains (pattern t : string) : bool :=
  String.prefix pattern t || match t with EmptyString => false | String _ t => str_contains pattern t end.

(** What the pointer scan of [cleanup_snapshot_cfs] collects. *)
Record PointerScan := mkPointerScan {
  ps_switched_families : list (string * string);
  ps_interrupted_reclaims : list GroupId;
}.
Definition active_generations (p : PointerScan) : list string := (ps_switched_families p).*2.

Section startup.
Context `{Rocks D} `{!Codec string, !Codec ServingState}.
Implicit Types (s : Storage D) (group : GroupId).

(** The key's group token. *)
Definition key_token (prefix : bytes) (what : string) (key : bytes) : Result string :=
  ok_or (from_utf8 (drop (length prefix) key)) (Error_Corrupt what "invalid utf-8").
Definition token_group (what token : string) : Result GroupId :=
  ok_or (from_token token) (Error_Corrupt what "bad group token").

Fixpoint scan_pointers (existing : list string) (rows : list (bytes * bytes)) : Result PointerScan :=
  match rows with
  | [] => Ok (mkPointerScan [] [])
  | (key, value) :: rows =>
      let! active := decode (A:=string) value in
      let! token := key_token state_cf_pointer_prefix "state CF pointer" key in
      if bool_decide (active ∈ existing) then
        let! p := scan_pointers existing rows in
        Ok (mkPointerScan (("cf_state_" +:+ token, active) :: ps_switched_families p) (ps_interrupted_reclaims p))
      else
        let! group := token_group "state CF pointer" token in
        let! p := scan_pointers existing rows in
        Ok (mkPointerScan (ps_switched_families p) (group :: ps_interrupted_reclaims p))
  end.

(** A column family that no pointer names any more. *)
Definition stale_cf (p : PointerScan) (name : string) : bool :=
  (str_contains "__snapshot_" name && negb (bool_decide (name ∈ active_generations p))) ||
  existsb (λ '(base, active), negb (bool_decide (name = active)) &&
    (bool_decide (name = base) || String.prefix (base +:+ "__snapshot_") name)) (ps_switched_families p).

Definition finish_reclaim group : io (Storage D) unit :=
  io_for drop_cf_if_present [cf_log group; cf_state group] ;;?
  (if is_data group then delete_local_prefix (search_prefix group) else io_ret tt) ;;?
  delete_local (state_cf_pointer_key group).

(** [cleanup_snapshot_cfs]. *)
Definition cleanup_snapshot_cfs (existing : list string) : io (Storage D) unit :=
  let? p := io_read (λ s, scan_pointers existing (scan_prefix (st_db s) DEFAULT_CF state_cf_pointer_prefix)) in
  io_for (λ name, io_modify (λ s, if stale_cf p name then set_db (drop_cf (st_db s) name) s else s)) existing ;;?
  io_for finish_reclaim (ps_interrupted_reclaims p).

(** The scan of [cleanup_reclaimed_groups]. *)
Fixpoint scan_reclaimed (rows : list (bytes * bytes)) : Result (list GroupId) :=
  match rows with
  | [] => Ok []
  | (key, value) :: rows =>
      let! state := decode (A:=ServingState) value in
      if bool_decide (state = ServingState_NonServing) then
        let! token := key_token serving_prefix "serving state" key in
        let! group := token_group "serving state" token in
        let! reclaimed := scan_reclaimed rows in
        Ok (group :: reclaimed)
      else scan_reclaimed rows
  end.

(** [cleanup_reclaimed_groups]. *)
Definition cleanup_reclaimed_groups (now : N) : io (Storage D) unit :=
  let? reclaimed := io_read (λ s, scan_reclaimed (scan_prefix (st_db s) DEFAULT_CF serving_prefix)) in
  io_for (drop_group now) reclaimed.

(** [open_with_limits] on the durable contents. *)
Definition open_with_limits (epoch now : N) (limits : ApplyDurabilityLimits) (db : D) : Storage D * Result unit :=
  (cleanup_snapshot_cfs (list_cf db) ;;? cleanup_reclaimed_groups now)
    (mkStorage db ∅ (set_failure_hook (registry_with_limits epoch limits))).
End startup.

Section checked.
Context `{Rocks D} `{!Codec string, !Codec ServingState, !Codec Identity}.

(** [open_checked]. *)
Definition open_checked (epoch now : N) (db : D) (cluster_id : N) (node_id : NodeId) : Storage D * Result unit :=
  let '(s, r) := open_with_limits epoch now ApplyDurabilityLimits_default db in
  match r with Ok _ => bind_identity cluster_id node_id s | Err e => (s, Err e) end.
End checked.

(** ** Names *)

#[local] Arguments String.append !_ _ /.

Lemma str_contains_app a b : str_contains "__snapshot_" (a +:+ "__snapshot_" +:+ b) = true.
Proof.
  induction a as [|c a IH]; [by destruct b|]. change (String c a +:+ ?x) with (String c (a +:+ x)).
  cbn [str_contains]. rewrite IH. apply orb_true_r.
Qed.

Lemma str_contains_digits t : all_digits t → str_contains "__snapshot_" t = false ∧ String.prefix "_snapshot_" t = false.
Proof.
  induction t as [|c t IH]; [done|]. intros [[v Hc] [Ht _]%IH]. cbn [str_contains]. rewrite Ht, orb_false_r.
  cbn [String.prefix]. case_match; [|done]. subst c. by vm_compute in Hc.
Qed.

Lemma str_contains_token g : str_contains "__snapshot_" (token g) = false.
Proof.
  destruct g as [|p]; [reflexivity|]. unfold token. destruct (str_contains_digits _ (all_digits_pretty p)) as [Hc Hp].
  cbn. rewrite Hc, Hp. done.
Qed.

Lemma log_not_snapshot g : str_contains "__snapshot_" (cf_log g) = false.
Proof. unfold cf_log. pose proof (str_contains_token g) as E. cbn. rewrite E. by destruct g. Qed.
Lemma base_not_snapshot g : str_contains "__snapshot_" (cf_state g) = false.
Proof. unfold cf_state. pose proof (str_contains_token g) as E. cbn. rewrite E. by destruct g. Qed.

Lemma valid_base g : valid_cf_name g (cf_state g).
Proof. exists "". split; [by left|by rewrite string_app_nil_r]. Qed.

(** The names of a group's state: its base or a staged generation. *)
Lemma valid_cf_name_cases g n : valid_cf_name g n ↔ n = cf_state g ∨ String.prefix (cf_state g +:+ "__snapshot_") n = true.
Proof.
  rewrite string_prefix_spec. split.
  - intros (r & [->|[t ->]] & ->); [left; by rewrite string_app_nil_r|right]. exists t. by rewrite string_app_assoc.
  - intros [->|[t ->]]; [apply valid_base|]. exists ("__snapshot_" +:+ t). split; [right; by exists t|by rewrite string_app_assoc].
Qed.

Lemma belongs_cases g n : belongs_to_group g n = true ↔ n = cf_log g ∨ valid_cf_name g n.
Proof. unfold belongs_to_group. rewrite !orb_true_iff, !bool_decide_eq_true, valid_cf_name_cases. tauto. Qed.

Lemma valid_staged g n : valid_cf_name g n → n ≠ cf_state g → str_contains "__snapshot_" n = true.
Proof.
  intros [->|[t ->]%string_prefix_spec]%valid_cf_name_cases Hne; [done|]. rewrite string_app_assoc. apply str_contains_app.
Qed.

(** ** Keys *)

Lemma pointer_not_serving g : starts_with serving_prefix (state_cf_pointer_key g) = false.
Proof. apply bool_decide_eq_false. unfold serving_prefix, state_cf_pointer_key, state_cf_pointer_prefix. cbn. intros [=]. Qed.

Lemma search_not_serving g k : starts_with (search_prefix g) k = true → starts_with serving_prefix k = false.
Proof.
  intros [q ->]%starts_with_spec. apply bool_decide_eq_false. unfold serving_prefix, search_prefix.
  rewrite as_bytes_app, <-(assoc_L (++)). cbn. intros [=].
Qed.

Lemma search_not_pointer g h : starts_with (search_prefix g) (state_cf_pointer_key h) = false.
Proof.
  apply not_true_iff_false. rewrite starts_with_spec. intros [q E]. revert E.
  unfold search_prefix, state_cf_pointer_key, state_cf_pointer_prefix. rewrite as_bytes_app, <-(assoc_L (++)). cbn. intros [=].
Qed.

Lemma digits_slash_inj a b r r' : all_digits a → all_digits b → as_bytes a ++ x2f :: r = as_bytes b ++ x2f :: r' → a = b.
Proof.
  revert b. induction a as [|c a IH]; intros [|d b] Ha Hb E; cbn [as_bytes app] in E.
  - done.
  - injection E as E _. destruct Hb as [Hb _]. exfalso. revert Hb. replace d with (Ascii.ascii_of_byte x2f); [by intros [? ?]|].
    rewrite E. apply Ascii.ascii_of_byte_of_ascii.
  - injection E as E _. destruct Ha as [Ha _]. exfalso. revert Ha. replace c with (Ascii.ascii_of_byte x2f); [by intros [? ?]|].
    rewrite <-E. apply Ascii.ascii_of_byte_of_ascii.
  - injection E as E1 E. destruct Ha as [_ Ha], Hb as [_ Hb]. f_equal; [|by apply IH].
    rewrite <-(Ascii.ascii_of_byte_of_ascii c), E1. apply Ascii.ascii_of_byte_of_ascii.
Qed.

(** The search keys of distinct groups are distinct. *)
Lemma search_prefix_inj g h k : starts_with (search_prefix g) k = true → starts_with (search_prefix h) k = true → g = h.
Proof.
  rewrite !starts_with_spec. intros [q ->] [q' E]. unfold search_prefix in E. rewrite !as_bytes_app, <-!(assoc_L (++)) in E.
  apply (inj (app _)) in E. destruct g as [|m], h as [|n]; [done|by cbn in E; injection E..|].
  unfold token in E. rewrite !as_bytes_app, <-!(assoc_L (++)) in E. apply (inj (app _)) in E.
  apply digits_slash_inj in E; [|apply all_digits_pretty..]. by apply (inj pretty) in E as ->.
Qed.

(** ** What the cleanups erase *)

Lemma existsb_never {A} (l : list A) : existsb (λ _, false) l = false.
Proof. by induction l. Qed.
Lemma existsb_elem {A} `{EqDecision A} (n : A) l : existsb (λ m, bool_decide (n = m)) l = bool_decide (n ∈ l).
Proof.
  induction l as [|m l IH]; [done|]. cbn [existsb]. rewrite IH. symmetry.
  rewrite (bool_decide_ext _ (n = m ∨ n ∈ l)) by apply elem_of_cons. apply bool_decide_or.
Qed.

Section erasure.
Context `{RocksOk D} `{!Codec string, !Codec ServingState}.
Implicit Types (d : D) (s : Storage D) (g : GroupId) (P : string → bool) (Q : bytes → bool).

(** [d'] is [d] without the column families [P] and the local keys [Q]; serving records read the same. *)
Record erased P Q d d' : Prop := {
  er_exists n : cf_exists d' n = cf_exists d n && negb (P n);
  er_get n k : cf_exists d n = true → P n = false → n ≠ DEFAULT_CF → get_cf d' n k = get_cf d n k;
  er_local k : starts_with serving_prefix k = false → db_get d' k = if Q k then None else db_get d k;
  er_serving k : starts_with serving_prefix k = true →
    decode_opt (T:=ServingState) (db_get d' k) = decode_opt (T:=ServingState) (db_get d k);
}.

Lemma erased_default P Q d d' : erased P Q d d' → P DEFAULT_CF = false.
Proof. intros [Hx _ _ _]. specialize (Hx DEFAULT_CF). rewrite !default_exists in Hx. by destruct (P _). Qed.

Lemma erased_refl d : erased (λ _, false) (λ _, false) d d.
Proof. constructor; try done. intros n. by rewrite andb_true_r. Qed.

Lemma erased_trans P Q P' Q' d1 d2 d3 : erased P Q d1 d2 → erased P' Q' d2 d3 →
  erased (λ n, P n || P' n) (λ k, Q k || Q' k) d1 d3.
Proof.
  intros [X1 G1 L1 S1] [X2 G2 L2 S2]. constructor.
  - intros n. by rewrite X2, X1, negb_orb, andb_assoc.
  - intros n k Hx [Hp Hp']%orb_false_iff Hd. rewrite G2, G1; rewrite ?X1, ?Hx, ?Hp; done.
  - intros k Hk. rewrite L2, L1 by done. by destruct (Q k), (Q' k).
  - intros k Hk. by rewrite S2, S1.
Qed.

Lemma erased_ext P Q P' Q' d d' : (∀ n, P n = P' n) → (∀ k, starts_with serving_prefix k = false → Q k = Q' k) →
  erased P Q d d' → erased P' Q' d d'.
Proof.
  intros HP HQ [X G L S]. constructor.
  - intros n. by rewrite <-HP.
  - intros n k. rewrite <-HP. apply G.
  - intros k Hk. by rewrite <-HQ, L.
  - done.
Qed.

Lemma erased_drop d n : n ≠ DEFAULT_CF → erased (λ m, bool_decide (m = n)) (λ _, false) d (drop_cf d n).
Proof.
  intros Hn. constructor.
  - intros m. by rewrite exists_drop, andb_comm.
  - intros m k _ Hm%bool_decide_eq_false _. apply get_drop_ne. congruence.
  - intros k _. apply get_drop_ne. done.
  - intros k _. f_equal. apply get_drop_ne. done.
Qed.

Lemma erased_drop_present d n : n ≠ DEFAULT_CF →
  erased (λ m, bool_decide (m = n)) (λ _, false) d (if cf_exists d n then drop_cf d n else d).
Proof.
  intros Hn. destruct (cf_exists d n) eqn:E; [by apply erased_drop|]. destruct (erased_refl d) as [X G L S]. constructor; try done.
  intros m. case_bool_decide; [subst; by rewrite E|apply X].
Qed.

(** A batch of deletions in the default column family. *)
Lemma erased_deletes d b Q : (∀ k, batch_get DEFAULT_CF k b (db_get d k) = if Q k then None else db_get d k) →
  Forall (λ op, op_cf op = DEFAULT_CF) b → (∀ k, starts_with serving_prefix k = true → Q k = false) →
  erased (λ _, false) Q d (write d b).
Proof.
  intros Hb Hcf HQ. constructor.
  - intros n. by rewrite exists_write, andb_true_r.
  - intros n k Hx _ Hn. rewrite get_write, batch_get_other_cf; [done| |done].
    eapply Forall_impl; [exact Hcf|]. simpl. congruence.
  - intros k _. by rewrite db_get_write, Hb.
  - intros k Hk. by rewrite db_get_write, Hb, HQ.
Qed.

Lemma erased_delete d key : starts_with serving_prefix key = false →
  erased (λ _, false) (λ k, bool_decide (k = key)) d (db_delete d key).
Proof.
  intros Hk. apply erased_deletes; [|by repeat constructor|].
  - intros k. simpl. repeat case_decide; case_bool_decide; naive_solver.
  - intros k Hs. apply bool_decide_eq_false. congruence.
Qed.

Lemma batch_get_erasures cf k (keys : list bytes) o :
  batch_get cf k (BatchDelete cf <$> keys) o = if decide (k ∈ keys) then None else o.
Proof.
  revert o. induction keys as [|key keys IH]; intros o; [done|]. cbn [fmap list_fmap].
  change (batch_get cf k (BatchDelete cf <$> keys) (batch_op_apply cf k (BatchDelete cf key) o) = if decide (k ∈ key :: keys) then None else o).
  rewrite IH. simpl. destruct (decide (k ∈ keys)) as [Hin|Hin]; [by rewrite decide_True by (by right)|].
  destruct (decide (cf = cf ∧ key = k)) as [[_ ->]|Hne].
  - by rewrite decide_True by (by left).
  - rewrite decide_False; [done|]. intros [->|?]%elem_of_cons; naive_solver.
Qed.

Lemma erased_delete_prefix s p : (∀ k, starts_with p k = true → starts_with serving_prefix k = false) →
  ∃ s', delete_local_prefix p s = (s', Ok tt) ∧ st_active_state_cfs s' = st_active_state_cfs s ∧
    st_apply_durability s' = st_apply_durability s ∧ erased (λ _, false) (starts_with p) (st_db s) (st_db s').
Proof.
  intros Hp. eexists. split; [done|]. split_and!; [done..|]. cbn [st_db set_db].
  set (rows := scan_prefix (st_db s) DEFAULT_CF p).
  assert (∀ k, starts_with p k = true → k ∉ rows.*1 → db_get (st_db s) k = None) as Hrows.
  { intros k Hk Hn. destruct (db_get (st_db s) k) as [v|] eqn:E; [|done]. destruct Hn.
    apply (list_elem_of_fmap_2 fst rows (k, v)), elem_of_scan_prefix. by rewrite <-starts_with_spec. }
  assert (∀ k, k ∈ rows.*1 → starts_with p k = true) as Hin.
  { intros k ([k' v] & -> & Hkv)%list_elem_of_fmap. apply elem_of_scan_prefix in Hkv as [Hkv _]. by apply starts_with_spec. }
  assert ((λ kv : bytes * bytes, BatchDelete DEFAULT_CF kv.1) <$> rows = BatchDelete DEFAULT_CF <$> rows.*1) as ->
    by (by rewrite <-list_fmap_compose).
  assert (erased (λ _, false) (starts_with p) (st_db s) (write (st_db s) (BatchDelete DEFAULT_CF <$> rows.*1))) as He.
  { apply erased_deletes.
    - intros k. rewrite batch_get_erasures. destruct (decide (k ∈ rows.*1)) as [Hk|Hk]; [by rewrite Hin|].
      destruct (starts_with p k) eqn:E; [by apply Hrows|done].
    - apply Forall_fmap, Forall_true. done.
    - intros k Hk. apply not_true_iff_false. intros Hs%Hp. congruence. }
  destruct (BatchDelete DEFAULT_CF <$> rows.*1) as [|op b] eqn:Eb; [|done].
  assert (rows.*1 = []) as Hnil by (by destruct (rows.*1)). destruct (erased_refl (st_db s)) as [X G L S]. constructor; try done.
  intros k Hk. destruct (starts_with p k) eqn:E; [|done]. apply Hrows; [done|]. rewrite Hnil. apply not_elem_of_nil.
Qed.
End erasure.

(** ** The cleanups *)

Section cleanups.
Context `{RocksOk D} `{!Codec string, !Codec ServingState}.
Implicit Types (d : D) (s : Storage D) (g : GroupId).

(** A registry in which no group is tracked. *)
Definition idle (r : ApplyDurabilityRegistry) : Prop := rg_groups r = ∅ ∧ rg_failed r = None.

Lemma idle_close_remove now g r : idle r →
  ensure_drained g (registry_begin_close now g r) = Ok tt ∧ idle (registry_remove g (registry_begin_close now g r)).
Proof.
  intros [Hg Hf]. unfold idle, ensure_drained, registry_remove, registry_begin_close, with_tracker, registry_register.
  rewrite Hf, Hg, lookup_empty. cbn. rewrite lookup_insert_eq. cbn. rewrite lookup_insert_eq. cbn.
  split_and!; [done| |done]. by rewrite insert_insert_eq, delete_insert_id by apply lookup_empty.
Qed.

(** A step that succeeds, erasing [P] and [Q]. *)
Definition erases (I : Storage D → Prop) (m : io (Storage D) unit) (P : string → bool) (Q : bytes → bool) : Prop :=
  ∀ s, I s → ∃ s', m s = (s', Ok tt) ∧ I s' ∧ erased P Q (st_db s) (st_db s').

Lemma erases_ret I : erases I (io_ret tt) (λ _, false) (λ _, false).
Proof. intros s Hs. exists s. split_and!; [done..|]. apply erased_refl. Qed.

Lemma erases_seq I m m' P P' Q Q' : erases I m P Q → erases I m' P' Q' →
  erases I (m ;;? m') (λ n, P n || P' n) (λ k, Q k || Q' k).
Proof.
  intros Hm Hm' s Hs. destruct (Hm s Hs) as (s1 & E1 & Hs1 & He1). destruct (Hm' s1 Hs1) as (s2 & E2 & Hs2 & He2).
  exists s2. unfold io_bind. rewrite E1. split_and!; [done..|]. by eapply erased_trans.
Qed.

Lemma erases_for {A} I (f : A → io (Storage D) unit) (P : A → string → bool) (Q : A → bytes → bool) l :
  (∀ a, a ∈ l → erases I (f a) (P a) (Q a)) →
  erases I (io_for f l) (λ n, existsb (λ a, P a n) l) (λ k, existsb (λ a, Q a k) l).
Proof.
  induction l as [|a l IH]; intros Hf; [apply erases_ret|]. cbn [io_for existsb].
  apply erases_seq; [apply Hf; by left|]. apply IH. intros b Hb. apply Hf. by right.
Qed.

Lemma erases_weaken I m P P' Q Q' : (∀ n, P n = P' n) → (∀ k, starts_with serving_prefix k = false → Q k = Q' k) →
  erases I m P Q → erases I m P' Q'.
Proof.
  intros HP HQ Hm s Hs. destruct (Hm s Hs) as (s' & E & Hs' & He). exists s'. split_and!; [done..|]. by eapply erased_ext.
Qed.

Lemma serving_key_inj g h : serving_key g = serving_key h → g = h.
Proof. unfold serving_key. rewrite !as_bytes_app. intros E%(inj (app _))%as_bytes_inj. by apply token_inj. Qed.

(** A store being opened, with its registry; the serving records say [NonServing] for [l]. *)
Definition opening (R : ApplyDurabilityRegistry → Prop) (l : list GroupId) s : Prop :=
  st_active_state_cfs s = ∅ ∧ R (st_apply_durability s) ∧
  ∀ g, g ∈ l → decode_opt (T:=ServingState) (db_get (st_db s) (serving_key g)) = Ok (Some ServingState_NonServing).

Lemma serving_key_prefix g : starts_with serving_prefix (serving_key g) = true.
Proof. apply starts_with_spec. unfold serving_key, serving_prefix. rewrite as_bytes_app. by eexists. Qed.

Lemma opening_db R l s d P Q : opening R l s → erased P Q (st_db s) d → opening R l (set_db d s).
Proof.
  intros (Ha & Hi & Hn) He. split_and!; [done..|]. intros g Hg. cbn [st_db set_db].
  rewrite (er_serving _ _ _ _ He) by apply serving_key_prefix. by apply Hn.
Qed.

Lemma erases_modify R l f P Q : (∀ s, opening R l s → erased P Q (st_db s) (f s)) → erases (opening R l) (io_modify (λ s, set_db (f s) s)) P Q.
Proof.
  intros Hf s Hs. exists (set_db (f s) s). split; [done|]. split; [|by apply Hf]. eapply opening_db; [done|by apply Hf].
Qed.

Lemma erases_drop_present R l n : n ≠ DEFAULT_CF →
  erases (opening R l) (drop_cf_if_present n) (λ m, bool_decide (m = n)) (λ _, false).
Proof.
  intros Hn s Hs. pose proof (erased_drop_present (st_db s) n Hn) as He. unfold drop_cf_if_present, io_modify.
  destruct (cf_exists (st_db s) n); eexists; split_and!; try done. by eapply opening_db.
Qed.

Lemma erases_delete_local R l key : starts_with serving_prefix key = false →
  erases (opening R l) (delete_local key) (λ _, false) (λ k, bool_decide (k = key)).
Proof. intros Hk. apply erases_modify. intros s _. by apply erased_delete. Qed.

Lemma erases_search R l g : erases (opening R l) (if is_data g then delete_local_prefix (search_prefix g) else io_ret tt)
  (λ _, false) (λ k, is_data g && starts_with (search_prefix g) k).
Proof.
  destruct (is_data g); [|apply erases_ret]. intros s Hs.
  destruct (erased_delete_prefix s (search_prefix g)) as (s' & E & Ha & Hr & He); [apply search_not_serving|].
  exists s'. split_and!; [done| |done]. destruct Hs as (Hs & Hi & Hn). split_and!; [congruence|by rewrite Hr|].
  intros h Hh. rewrite (er_serving _ _ _ _ He) by apply serving_key_prefix. by apply Hn.
Qed.

(** The keys that go with a group. *)
Definition group_key g (k : bytes) : bool :=
  is_data g && starts_with (search_prefix g) k || bool_decide (k = state_cf_pointer_key g).

Lemma finish_reclaim_erases R l g :
  erases (opening R l) (finish_reclaim g) (λ n, bool_decide (n = cf_log g) || bool_decide (n = cf_state g)) (group_key g).
Proof.
  unfold finish_reclaim. eapply erases_weaken; last first.
  - apply erases_seq; [|apply erases_seq; [apply erases_search|apply erases_delete_local, pointer_not_serving]].
    apply (erases_for _ _ (λ n m, bool_decide (m = n)) (λ _ _, false)). intros n [->| [->|[]%not_elem_of_nil]%elem_of_cons]%elem_of_cons;
      by apply erases_drop_present.
  - done.
  - intros n. cbn. by rewrite !orb_false_r.
Qed.

Lemma erased_nonserving d g : wf ServingState_NonServing →
  decode_opt (T:=ServingState) (db_get d (serving_key g)) = Ok (Some ServingState_NonServing) →
  erased (λ _, false) (λ _, false) d (db_put d (serving_key g) (encode ServingState_NonServing)).
Proof.
  intros Hw Hn. unfold db_put. constructor.
  - intros n. by rewrite exists_write, andb_true_r.
  - intros n k Hx _ Hne. rewrite get_write, batch_get_other_cf by (done || (repeat constructor; simpl; congruence)). done.
  - intros k Hk. rewrite db_get_write. simpl. rewrite decide_False; [done|]. intros [_ <-]. by rewrite serving_key_prefix in Hk.
  - intros k _. rewrite db_get_write. simpl. destruct (decide (DEFAULT_CF = DEFAULT_CF ∧ serving_key g = k)) as [[_ <-]|]; [|done].
    rewrite Hn. simpl. by rewrite decode_encode.
Qed.

Lemma drop_group_erases now l g : g ∈ l → erases (opening idle l) (drop_group now g) (belongs_to_group g) (group_key g).
Proof.
  intros Hg s (Ha & Hi & Hn). unfold drop_group.
  pose proof (idle_close_remove now g _ Hi) as [Hd Hi'].
  set (d1 := db_put (st_db s) (serving_key g) (encode ServingState_NonServing)).
  assert (erased (λ _, false) (λ _, false) (st_db s) d1) as He1 by (apply erased_nonserving; [done|by apply Hn]).
  set (r1 := registry_begin_close now g (st_apply_durability s)).
  set (names := filter (λ n, belongs_to_group g n = true) (list_cf d1)).
  assert (erases (opening (eq r1) l)
    (io_for drop_cf_if_present names ;;?
     (if is_data g then delete_local_prefix (search_prefix g) else io_ret tt) ;;? delete_local (state_cf_pointer_key g))
    (λ n, bool_decide (n ∈ names)) (group_key g)) as Herase.
  { eapply erases_weaken; last first.
    - apply erases_seq; [|apply erases_seq; [apply erases_search|apply erases_delete_local, pointer_not_serving]].
      apply (erases_for _ _ (λ n m, bool_decide (m = n)) (λ _ _, false)). intros n [Hb _]%list_elem_of_filter.
      apply erases_drop_present. apply belongs_cases in Hb as [->|Hv]; [done|]. by eapply valid_cf_name_default.
    - intros k _. cbn beta. by rewrite existsb_never.
    - intros n. cbn beta. by rewrite existsb_elem, !orb_false_r. }
  destruct (Herase (mkStorage d1 ∅ r1)) as (s2 & E2 & (Ha2 & Hr2 & Hn2) & He2).
  { split_and!; [done..|]. intros h Hh. cbn [st_db]. rewrite (er_serving _ _ _ _ He1) by apply serving_key_prefix. by apply Hn. }
  exists (set_apply (registry_remove g (st_apply_durability s2)) s2). split.
  - revert E2. unfold set_serving_state, put_local, io_bind, io_modify, io_read. cbn [set_db set_apply set_active st_db st_active_state_cfs st_apply_durability].
    fold d1 r1 in Hd |- *. rewrite Hd. rewrite Ha, delete_empty. fold names. unfold io_bind.
    change (set_active ∅ (set_apply r1 (set_db d1 s))) with (mkStorage d1 ∅ r1).
    destruct (io_for _ _ _) as [s3 [[]|e]]; [|done].
    destruct ((if is_data g then delete_local_prefix (search_prefix g) else io_ret tt) s3) as [s4 [[]|e]]; [|done].
    destruct (delete_local _ s4) as [s5 [[]|e]]; [|done]. by intros [= ->].
  - split.
    + split_and!; [done|rewrite <-Hr2; done|]. done.
    + cbn [st_db set_apply]. pose proof (erased_trans _ _ _ _ _ _ _ He1 He2) as He. cbn in He.
      destruct He as [X G L S]. constructor; [| |done|done].
      * intros n. rewrite X. destruct (cf_exists (st_db s) n) eqn:Ex; [|done]. f_equal. f_equal. unfold names.
        destruct (belongs_to_group g n) eqn:Eb.
        -- apply bool_decide_eq_true, list_elem_of_filter. split; [done|]. by rewrite list_cf_spec, (er_exists _ _ _ _ He1), Ex.
        -- apply bool_decide_eq_false. intros [Hb _]%list_elem_of_filter. congruence.
      * intros n k Hx Hb. apply G; [done|]. apply bool_decide_eq_false. intros [Hb' _]%list_elem_of_filter. congruence.
Qed.

(** *** What the scans find *)

Definition pointer_of d g : option string :=
  match db_get d (state_cf_pointer_key g) with
  | Some v => match decode (A:=string) v with Ok n => Some n | Err _ => None end
  | None => None
  end.
Definition active_name d g : string := default (cf_state g) (pointer_of d g).

(** A reclamation of the group was under way. *)
Definition dangling d g : Prop := ∃ n, pointer_of d g = Some n ∧ cf_exists d n = false.
Definition nonserving d g : Prop :=
  decode_opt (T:=ServingState) (db_get d (serving_key g)) = Ok (Some ServingState_NonServing).

(** Pointers and serving records are those of groups, and a pointer names a state of its own group. *)
Record layout_ok d : Prop := {
  lo_pointer k v : starts_with state_cf_pointer_prefix k = true → db_get d k = Some v →
    ∃ g n, wf g ∧ k = state_cf_pointer_key g ∧ decode (A:=string) v = Ok n ∧ valid_cf_name g n;
  lo_serving k v : starts_with serving_prefix k = true → db_get d k = Some v →
    ∃ g st, wf g ∧ k = serving_key g ∧ decode (A:=ServingState) v = Ok st;
}.

Lemma pointer_key_token g : key_token state_cf_pointer_prefix "state CF pointer" (state_cf_pointer_key g) = Ok (token g).
Proof. unfold key_token, state_cf_pointer_key. by rewrite drop_app_length, token_utf8. Qed.
Lemma serving_key_token g : key_token serving_prefix "serving state" (serving_key g) = Ok (token g).
Proof. unfold key_token, serving_key, serving_prefix. by rewrite as_bytes_app, drop_app_length, token_utf8. Qed.
Lemma token_group_ok what g : wf g → token_group what (token g) = Ok g.
Proof. intros Hg. unfold token_group. by rewrite from_token_token. Qed.

(** A pointer row of a legal layout. *)
Definition pointer_row (kv : bytes * bytes) g n : Prop :=
  wf g ∧ kv.1 = state_cf_pointer_key g ∧ decode (A:=string) kv.2 = Ok n ∧ valid_cf_name g n.

Lemma scan_pointers_spec existing rows : Forall (λ kv, ∃ g n, pointer_row kv g n) rows →
  ∃ p, scan_pointers existing rows = Ok p ∧
    (∀ b n, (b, n) ∈ ps_switched_families p ↔ n ∈ existing ∧ ∃ kv g, kv ∈ rows ∧ pointer_row kv g n ∧ b = cf_state g) ∧
    (∀ g, g ∈ ps_interrupted_reclaims p ↔ ∃ kv n, kv ∈ rows ∧ pointer_row kv g n ∧ n ∉ existing).
Proof.
  induction 1 as [|[k v] rows (g & n & Hrow) _ (p & E & Hs & Hr)].
  { eexists. split; [done|]. split; intros; rewrite elem_of_nil; split; try done; intros; destruct_and?; set_solver. }
  assert (∀ h m, pointer_row (k, v) h m → h = g ∧ m = n) as Huniq.
  { intros h m (_ & E1 & E2 & _). destruct Hrow as (_ & E1' & E2' & _). cbn [fst snd] in *. split; [|congruence].
    apply pointer_key_inj. congruence. }
  pose proof Hrow as (Hg & Ek & Ev & Hv). cbn [fst snd] in Ek, Ev. subst k. cbn [scan_pointers]. rewrite Ev. cbn [rbind].
  rewrite pointer_key_token. cbn [rbind]. case_bool_decide as Hin.
  - rewrite E. cbn [rbind]. eexists. split; [done|]. cbn. split; [intros b m|intros h].
    + rewrite elem_of_cons, Hs. split.
      * intros [[= -> ->]|(Hm & kv & h & Hkv & ?)]; [split; [done|]; exists (state_cf_pointer_key g, v), g; split_and!; [by left|done..]|].
        split; [done|]. exists kv, h. split; [by right|done].
      * intros (Hm & kv & h & [->|Hkv]%elem_of_cons & Hh & ->); [left|right; split; [done|]; by exists kv, h].
        destruct (Huniq _ _ Hh) as [-> ->]. done.
    + rewrite Hr. split; [intros (kv & m & Hkv & ?); exists kv, m; split; [by right|done]|].
      intros (kv & m & [->|Hkv]%elem_of_cons & Hh & Hm); [|by exists kv, m]. by destruct (Huniq _ _ Hh) as [-> ->].
  - rewrite token_group_ok by done. cbn [rbind]. rewrite E. cbn [rbind]. eexists. split; [done|]. cbn. split; [intros b m|intros h].
    + rewrite Hs. split; [intros (Hm & kv & h & Hkv & ?); split; [done|]; exists kv, h; split; [by right|done]|].
      intros (Hm & kv & h & [->|Hkv]%elem_of_cons & Hh & ->); [by destruct (Huniq _ _ Hh) as [-> ->]|]. split; [done|]. by exists kv, h.
    + rewrite elem_of_cons, Hr. split.
      * intros [->|(kv & m & Hkv & ?)]; [exists (state_cf_pointer_key g, v), n; split_and!; [by left|done..]|].
        exists kv, m. split; [by right|done].
      * intros (kv & m & [->|Hkv]%elem_of_cons & Hh & Hm); [left; by destruct (Huniq _ _ Hh)|right; by exists kv, m].
Qed.

Lemma pointer_of_row d g n : layout_ok d → pointer_of d g = Some n ↔
  ∃ kv, kv ∈ scan_prefix d DEFAULT_CF state_cf_pointer_prefix ∧ pointer_row kv g n.
Proof.
  intros Hl. unfold pointer_of. split.
  - destruct (db_get d (state_cf_pointer_key g)) as [v|] eqn:E; [|done]. intros Hd. exists (state_cf_pointer_key g, v).
    assert (starts_with state_cf_pointer_prefix (state_cf_pointer_key g) = true) as Hp by (apply starts_with_spec; by eexists).
    split; [apply elem_of_scan_prefix; split; [by apply starts_with_spec|done]|].
    destruct (lo_pointer _ Hl _ _ Hp E) as (h & m & Hh & Ek%pointer_key_inj & Ev & Hv). subst h. rewrite Ev in Hd. by injection Hd as <-.
  - intros ([k v] & [_ Hkv]%elem_of_scan_prefix & _ & Ek & Ev & _). cbn [fst snd] in *. subst k. unfold db_get. by rewrite Hkv, Ev.
Qed.

Lemma pointer_of_valid d g n : layout_ok d → pointer_of d g = Some n → wf g ∧ valid_cf_name g n.
Proof. intros Hl (kv & _ & ? & _ & _ & ?)%pointer_of_row; done. Qed.

Lemma scan_pointers_layout d : layout_ok d →
  ∃ p, scan_pointers (list_cf d) (scan_prefix d DEFAULT_CF state_cf_pointer_prefix) = Ok p ∧
    (∀ b n, (b, n) ∈ ps_switched_families p ↔ cf_exists d n = true ∧ ∃ g, pointer_of d g = Some n ∧ b = cf_state g) ∧
    (∀ g, g ∈ ps_interrupted_reclaims p ↔ dangling d g).
Proof.
  intros Hl. destruct (scan_pointers_spec (list_cf d) (scan_prefix d DEFAULT_CF state_cf_pointer_prefix)) as (p & E & Hs & Hr).
  { apply Forall_forall. intros [k v] [Hk Hv]%elem_of_scan_prefix. apply starts_with_spec in Hk.
    destruct (lo_pointer _ Hl _ _ Hk Hv) as (g & n & ?). by exists g, n. }
  exists p. split; [done|]. split.
  - intros b n. rewrite Hs, list_cf_spec. setoid_rewrite (pointer_of_row d _ n Hl). naive_solver.
  - intros g. rewrite Hr. unfold dangling. setoid_rewrite (λ n, pointer_of_row d g n Hl). setoid_rewrite list_cf_spec.
    setoid_rewrite not_true_iff_false. naive_solver.
Qed.

Lemma scan_reclaimed_layout d : layout_ok d →
  ∃ l, scan_reclaimed (scan_prefix d DEFAULT_CF serving_prefix) = Ok l ∧ ∀ g, g ∈ l ↔ nonserving d g.
Proof.
  intros Hl. set (rows := scan_prefix d DEFAULT_CF serving_prefix).
  assert (Forall (λ kv, ∃ g st, wf g ∧ kv.1 = serving_key g ∧ decode (A:=ServingState) kv.2 = Ok st) rows) as Hrows.
  { apply Forall_forall. intros [k v] [Hk Hv]%elem_of_scan_prefix. apply starts_with_spec in Hk. by apply (lo_serving _ Hl). }
  assert (∃ l, scan_reclaimed rows = Ok l ∧ ∀ g, g ∈ l ↔ ∃ v, (serving_key g, v) ∈ rows ∧ decode (A:=ServingState) v = Ok ServingState_NonServing)
    as (l & E & Hin).
  { clearbody rows. induction Hrows as [|[k v] rows (g & st & Hg & Ek & Ev) _ (l & E & IH)].
    { exists []. split; [done|]. intros g. rewrite elem_of_nil. split; [done|]. by intros (v & []%not_elem_of_nil & _). }
    cbn [fst snd] in *. subst k. cbn [scan_reclaimed]. rewrite Ev. cbn [rbind]. case_bool_decide as Hst.
    - rewrite serving_key_token. cbn [rbind]. rewrite token_group_ok by done. cbn [rbind]. rewrite E. cbn [rbind].
      eexists. split; [done|]. intros h. rewrite elem_of_cons, IH. setoid_rewrite elem_of_cons. split.
      + intros [->|(v' & ? & ?)]; [exists v; subst st; eauto|eauto].
      + intros (v' & [[Ek ->]%pair_equal_spec|?] & ?); [left|right; eauto]. by apply serving_key_inj.
    - exists l. split; [done|]. intros h. rewrite IH. setoid_rewrite elem_of_cons. split; [naive_solver|].
      intros (v' & [[Ek ->]%pair_equal_spec|?] & ?); [congruence|eauto]. }
  exists l. split; [done|]. intros g. rewrite Hin. unfold nonserving, decode_opt. split.
  - intros (v & [_ Hv]%elem_of_scan_prefix & Ed). unfold db_get. by rewrite Hv, Ed.
  - destruct (db_get d (serving_key g)) as [v|] eqn:Ev; [|done]. intros (st & Ed & [= ->])%rbind_ok. exists v. split; [|done].
    apply elem_of_scan_prefix. split; [|done]. apply starts_with_spec, serving_key_prefix.
Qed.

Lemma layout_erased P Q d d' : layout_ok d → erased P Q d d' → layout_ok d'.
Proof.
  intros Hl [_ _ L S]. constructor.
  - intros k v Hk E. destruct (starts_with serving_prefix k) eqn:Hs.
    + exfalso. apply starts_with_spec in Hk as [q ->]. apply starts_with_spec in Hs as [q' E']. by cbn in E'.
    + rewrite L in E by done. destruct (Q k); [done|]. by apply (lo_pointer _ Hl).
  - intros k v Hk E. specialize (S k Hk). rewrite E in S. destruct (db_get d k) as [v'|] eqn:E'.
    + destruct (lo_serving _ Hl k v' Hk E') as (g & st & Hg & -> & Ev). exists g, st. split_and!; [done..|].
      unfold decode_opt in S. rewrite Ev in S. by apply rbind_ok in S as (x & -> & [= ->]).
    + cbn in S. by apply rbind_ok in S as (x & _ & ?).
Qed.

Lemma belongs_inj g h n : belongs_to_group g n = true → belongs_to_group h n = true → g = h.
Proof.
  rewrite !belongs_cases. intros [->|Hv] [E|Hv'].
  - unfold cf_log in E. by apply (inj (String.append _)), token_inj in E.
  - by eapply valid_cf_name_log in Hv'.
  - subst n. by eapply valid_cf_name_log in Hv.
  - by eapply valid_cf_name_inj.
Qed.

Section stale.
Context (d : D) (p : PointerScan) (Hl : layout_ok d)
  (Hs : ∀ b n, (b, n) ∈ ps_switched_families p ↔ cf_exists d n = true ∧ ∃ g, pointer_of d g = Some n ∧ b = cf_state g).

(** The second disjunct of [stale_cf]: the name belongs to a family switched to another generation. *)
Lemma switched_spec n : existsb (λ '(base, active), negb (bool_decide (n = active)) &&
    (bool_decide (n = base) || String.prefix (base +:+ "__snapshot_") n)) (ps_switched_families p) = true ↔
  ∃ g m, pointer_of d g = Some m ∧ cf_exists d m = true ∧ n ≠ m ∧ valid_cf_name g n.
Proof.
  rewrite existsb_exists. setoid_rewrite <-list_elem_of_In. split.
  - intros ([b m] & (Hx & g & Hg & ->)%Hs & [Hne%negb_true_iff%bool_decide_eq_false Hv]%andb_true_iff). exists g, m. split_and!; try done.
    apply valid_cf_name_cases. apply orb_true_iff in Hv as [?%bool_decide_eq_true|?]; auto.
  - intros (g & m & Hg & Hx & Hne & Hv). exists (cf_state g, m). split; [apply Hs; eauto|].
    rewrite bool_decide_false by done. cbn [negb andb]. apply orb_true_iff. rewrite bool_decide_eq_true. by apply valid_cf_name_cases.
Qed.

Lemma elem_of_generations n : n ∈ active_generations p ↔ ∃ g, pointer_of d g = Some n ∧ cf_exists d n = true.
Proof.
  unfold active_generations. rewrite list_elem_of_fmap. split.
  - intros ([b m] & -> & (? & g & ? & ->)%Hs). by exists g.
  - intros (g & Hg & Hx). exists (cf_state g, n). split; [done|]. apply Hs. eauto.
Qed.

Lemma stale_other n : str_contains "__snapshot_" n = false → (∀ g, ¬ valid_cf_name g n) → stale_cf p n = false.
Proof.
  intros Hc Hv. unfold stale_cf. rewrite Hc. cbn [andb orb]. apply not_true_iff_false. rewrite switched_spec. naive_solver.
Qed.

Lemma stale_dangling g n : valid_cf_name g n → dangling d g → n ≠ cf_state g → stale_cf p n = true.
Proof.
  intros Hv (m & Hm & Hx) Hne. unfold stale_cf. rewrite (valid_staged g n) by done. rewrite bool_decide_false; [done|].
  intros (h & Hh & Hx')%elem_of_generations. destruct (pointer_of_valid _ _ _ Hl Hh) as [_ Hv'].
  pose proof (valid_cf_name_inj _ _ _ Hv Hv') as <-. congruence.
Qed.

Lemma stale_hosted g n : valid_cf_name g n → ¬ dangling d g → stale_cf p n = negb (bool_decide (n = active_name d g)).
Proof.
  intros Hv Hnd. apply eq_bool_prop_intro. rewrite !Is_true_true, negb_true_iff, bool_decide_eq_false.
  unfold stale_cf. rewrite orb_true_iff, andb_true_iff, negb_true_iff, bool_decide_eq_false, switched_spec, elem_of_generations.
  unfold active_name. destruct (pointer_of d g) as [m|] eqn:Hm; cbn [default from_option id].
  - assert (cf_exists d m = true) as Hx by (destruct (cf_exists d m) eqn:Hx; [done|]; destruct Hnd; by exists m).
    split; [|intros Hne; right; by exists g, m]. intros [[_ Hn]|(h & m' & Hh & _ & Hne & Hv')]; [intros ->; destruct Hn; by exists g|].
    pose proof (valid_cf_name_inj _ _ _ Hv Hv') as <-. congruence.
  - split; [|intros Hne; left; split; [by eapply valid_staged|]].
    + intros [[Hc _]|(h & m & Hh & _ & _ & Hv')]; [intros ->; by rewrite base_not_snapshot in Hc|].
      pose proof (valid_cf_name_inj _ _ _ Hv Hv') as <-. congruence.
    + intros (h & Hh & _). destruct (pointer_of_valid _ _ _ Hl Hh) as [_ Hv'].
      pose proof (valid_cf_name_inj _ _ _ Hv Hv') as <-. congruence.
Qed.
End stale.

(** ** Recovery *)

(** Nothing of the group is left. *)
Record no_trace g d : Prop := {
  nt_families n : belongs_to_group g n = true → cf_exists d n = false;
  nt_pointer : pointer_of d g = None;
  nt_search k : is_data g = true → starts_with (search_prefix g) k = true → db_get d k = None;
}.

(** The group's log and active state are as they were, and it has no other column family. *)
Record kept g d d' : Prop := {
  kp_families n : belongs_to_group g n = true →
    cf_exists d' n = cf_exists d n && (bool_decide (n = cf_log g) || bool_decide (n = active_name d g));
  kp_contents n k : n = cf_log g ∨ n = active_name d g → cf_exists d n = true → get_cf d' n k = get_cf d n k;
  kp_active : active_name d' g = active_name d g;
  kp_search k : starts_with (search_prefix g) k = true → db_get d' k = db_get d k;
}.

(** The stale families of the first loop. *)
Lemma drop_stale_erases l d p : (∀ b n, (b, n) ∈ ps_switched_families p ↔
    cf_exists d n = true ∧ ∃ g, pointer_of d g = Some n ∧ b = cf_state g) →
  erases (opening idle l) (io_for (λ name, io_modify (λ s, if stale_cf p name then set_db (drop_cf (st_db s) name) s else s)) (list_cf d))
    (λ n, cf_exists d n && stale_cf p n) (λ _, false).
Proof.
  intros Hs. eapply erases_weaken; last first.
  - apply (erases_for _ _ (λ n m, stale_cf p n && bool_decide (m = n)) (λ _ _, false)). intros n _.
    destruct (stale_cf p n) eqn:E; [|apply erases_ret]. apply (erases_modify idle l (λ s, drop_cf (st_db s) n)). intros s _. apply erased_drop.
    intros ->. rewrite (stale_other d p Hs) in E; [done|reflexivity|]. by intros g Hv%valid_cf_name_default.
  - intros k _. cbn beta. by rewrite existsb_never.
  - intros n. cbn beta. apply eq_bool_prop_intro. rewrite !Is_true_true, existsb_exists, andb_true_iff, <-list_cf_spec.
    setoid_rewrite <-list_elem_of_In. setoid_rewrite andb_true_iff. setoid_rewrite bool_decide_eq_true. naive_solver.
Qed.

(** What opening erases. *)
Definition open_families (d : D) (p : PointerScan) (l : list GroupId) (n : string) : bool :=
  cf_exists d n && stale_cf p n ||
  existsb (λ g, bool_decide (n = cf_log g) || bool_decide (n = cf_state g)) (ps_interrupted_reclaims p) ||
  existsb (λ g, belongs_to_group g n) l.
Definition open_keys (p : PointerScan) (l : list GroupId) (k : bytes) : bool :=
  existsb (λ g, group_key g k) (ps_interrupted_reclaims p) || existsb (λ g, group_key g k) l.

Lemma open_erases epoch now limits d : layout_ok d → ∃ s p l,
  open_with_limits epoch now limits d = (s, Ok tt) ∧ st_active_state_cfs s = ∅ ∧
  (∀ b n, (b, n) ∈ ps_switched_families p ↔ cf_exists d n = true ∧ ∃ g, pointer_of d g = Some n ∧ b = cf_state g) ∧
  (∀ g, g ∈ ps_interrupted_reclaims p ↔ dangling d g) ∧ (∀ g, g ∈ l ↔ nonserving d g) ∧
  erased (open_families d p l) (open_keys p l) d (st_db s).
Proof.
  intros Hl. destruct (scan_pointers_layout d Hl) as (p & Ep & Hs & Hr).
  set (s0 := mkStorage d ∅ (set_failure_hook (registry_with_limits epoch limits))).
  assert (opening idle [] s0) as Ho by (split_and!; [done..|]; by intros g ?%elem_of_nil).
  assert (erases (opening idle [])
    (io_for (λ name, io_modify (λ s, if stale_cf p name then set_db (drop_cf (st_db s) name) s else s)) (list_cf d) ;;?
     io_for finish_reclaim (ps_interrupted_reclaims p))
    (λ n, cf_exists d n && stale_cf p n ||
      existsb (λ g, bool_decide (n = cf_log g) || bool_decide (n = cf_state g)) (ps_interrupted_reclaims p))
    (λ k, existsb (λ g, group_key g k) (ps_interrupted_reclaims p))) as Hfirst.
  { apply (erases_seq _ _ _ _ _ (λ _, false)); [by apply drop_stale_erases|]. apply erases_for. intros g _. apply finish_reclaim_erases. }
  destruct (Hfirst s0 Ho) as (s1 & E1 & (Ha1 & Hi1 & _) & He1).
  destruct (scan_reclaimed_layout (st_db s1)) as (l & El & Hn); [by eapply layout_erased|].
  destruct (erases_for (opening idle l) (drop_group now) belongs_to_group group_key l) with (s := s1) as (s2 & E2 & (Ha2 & _) & He2);
    [intros g Hg; by apply drop_group_erases|split_and!; [done..|]; intros g Hg; by apply Hn|].
  exists s2, p, l. split_and!; [|done..| |by eapply erased_trans].
  - revert E1. unfold open_with_limits, cleanup_snapshot_cfs, cleanup_reclaimed_groups, io_bind, io_read. cbn [st_db]. fold s0. rewrite Ep.
    intros ->. by rewrite El.
  - intros g. rewrite Hn. unfold nonserving. by rewrite (er_serving _ _ _ _ He1) by apply serving_key_prefix.
Qed.

Lemma group_key_pointer g h : group_key h (state_cf_pointer_key g) = bool_decide (h = g).
Proof.
  unfold group_key. rewrite search_not_pointer, andb_false_r. cbn [orb]. apply bool_decide_ext.
  split; [intros E; symmetry; by apply pointer_key_inj|by intros ->].
Qed.
Lemma group_key_search g h k : starts_with (search_prefix g) k = true → group_key h k = bool_decide (h = g) && is_data g.
Proof.
  intros Hk. unfold group_key. rewrite orb_comm, bool_decide_false by (intros ->; by rewrite search_not_pointer in Hk). cbn [orb].
  case_bool_decide as E; [subst; rewrite Hk; apply andb_true_r|].
  destruct (starts_with (search_prefix h) k) eqn:Eh; [|apply andb_false_r]. by destruct E; eapply search_prefix_inj.
Qed.

Section recovered.
Context (d d' : D) (p : PointerScan) (l : list GroupId) (Hl : layout_ok d)
  (Hs : ∀ b n, (b, n) ∈ ps_switched_families p ↔ cf_exists d n = true ∧ ∃ g, pointer_of d g = Some n ∧ b = cf_state g)
  (Hr : ∀ g, g ∈ ps_interrupted_reclaims p ↔ dangling d g) (Hn : ∀ g, g ∈ l ↔ nonserving d g)
  (He : erased (open_families d p l) (open_keys p l) d d').

(** A group is erased when one of the two cleanups names it. *)
Lemma named_spec (b : GroupId → bool) g : (∀ h, b h = true → h = g) → b g = true →
  existsb b (ps_interrupted_reclaims p) || existsb b l = true ↔ nonserving d g ∨ dangling d g.
Proof.
  intros Hu Hb. rewrite orb_true_iff, !existsb_exists. setoid_rewrite <-list_elem_of_In. setoid_rewrite Hr. setoid_rewrite Hn.
  split; [|naive_solver]. intros [(h & Hh & E%Hu)|(h & Hh & E%Hu)]; subst; auto.
Qed.

Lemma open_keys_pointer g : open_keys p l (state_cf_pointer_key g) = true ↔ nonserving d g ∨ dangling d g.
Proof.
  apply named_spec; [|by rewrite group_key_pointer, bool_decide_true]. intros h. by rewrite group_key_pointer, bool_decide_eq_true.
Qed.
Lemma open_keys_search g k : starts_with (search_prefix g) k = true → is_data g = true →
  open_keys p l k = true ↔ nonserving d g ∨ dangling d g.
Proof.
  intros Hk Hd. apply named_spec; [|by rewrite (group_key_search g), bool_decide_true].
  intros h. by rewrite (group_key_search g), Hd, andb_true_r, bool_decide_eq_true.
Qed.

Lemma pointer_of_erased g : pointer_of d' g = if open_keys p l (state_cf_pointer_key g) then None else pointer_of d g.
Proof. unfold pointer_of. rewrite (er_local _ _ _ _ He) by apply pointer_not_serving. by destruct (open_keys _ _ _). Qed.

Lemma recovered_gone g : nonserving d g ∨ dangling d g → no_trace g d'.
Proof.
  intros Hg. constructor.
  - intros n Hb. rewrite (er_exists _ _ _ _ He). destruct (cf_exists d n) eqn:Hx; [|done]. apply negb_false_iff. unfold open_families.
    rewrite Hx. cbn [andb]. destruct Hg as [Hg%Hn|Hg].
    + apply orb_true_iff. right. apply existsb_exists. exists g. by rewrite <-list_elem_of_In.
    + assert (n = cf_log g ∨ n = cf_state g ∨ stale_cf p n = true) as [Hc|[Hc| ->]]; [|..|done].
      { apply belongs_cases in Hb as [|Hv]; [by left|right]. destruct (decide (n = cf_state g)); [by left|right]. by eapply stale_dangling. }
      all: rewrite <-orb_assoc; apply orb_true_iff; right; apply orb_true_iff; left; apply existsb_exists; exists g;
        rewrite <-list_elem_of_In; split; [by apply Hr|]; rewrite orb_true_iff, !bool_decide_eq_true; auto.
  - rewrite pointer_of_erased. by rewrite (proj2 (open_keys_pointer g)).
  - intros k Hd Hk. rewrite (er_local _ _ _ _ He) by (by eapply search_not_serving). by rewrite (proj2 (open_keys_search g k Hk Hd)).
Qed.

Lemma open_families_kept g n : ¬ (nonserving d g ∨ dangling d g) → belongs_to_group g n = true →
  cf_exists d n = true → open_families d p l n = negb (bool_decide (n = cf_log g) || bool_decide (n = active_name d g)).
Proof.
  intros Hg Hb Hx. unfold open_families. rewrite Hx. cbn [andb].
  assert (stale_cf p n = negb (bool_decide (n = cf_log g) || bool_decide (n = active_name d g))) as ->.
  { apply belongs_cases in Hb as [->|Hv].
    - rewrite bool_decide_true by done. apply (stale_other d); [done|apply log_not_snapshot|]. by intros h Hv%(valid_cf_name_log _ g).
    - rewrite (bool_decide_false (n = cf_log g)) by (by eapply valid_cf_name_log). eapply stale_hosted; try done. naive_solver. }
  rewrite <-(orb_false_r (negb _)) at 2. rewrite <-orb_assoc. f_equal. apply not_true_iff_false. rewrite orb_true_iff, !existsb_exists.
  setoid_rewrite <-list_elem_of_In. intros [(h & Hh%Hr & E)|(h & Hh%Hn & E)]; apply Hg.
  - assert (belongs_to_group h n = true) as Hb'.
    { apply belongs_cases. rewrite orb_true_iff, !bool_decide_eq_true in E. destruct E as [->| ->]; [by left|right; apply valid_base]. }
    rewrite (belongs_inj _ _ _ Hb Hb'). by right.
  - rewrite (belongs_inj _ _ _ Hb E). by left.
Qed.

Lemma active_belongs g : belongs_to_group g (active_name d g) = true.
Proof.
  apply belongs_cases. right. unfold active_name. destruct (pointer_of d g) eqn:E; [|apply valid_base].
  by eapply pointer_of_valid.
Qed.

Lemma recovered_kept g : ¬ (nonserving d g ∨ dangling d g) → kept g d d'.
Proof.
  intros Hg. constructor.
  - intros n Hb. rewrite (er_exists _ _ _ _ He). destruct (cf_exists d n) eqn:Hx; [|done].
    by rewrite (open_families_kept g), negb_involutive.
  - intros n k Hc Hx. assert (belongs_to_group g n = true) as Hb by (destruct Hc as [->| ->]; [apply belongs_cases; by left|apply active_belongs]).
    apply (er_get _ _ _ _ He); [done| |].
    + rewrite (open_families_kept g) by done. apply negb_false_iff, orb_true_iff. by rewrite !bool_decide_eq_true.
    + intros ->. apply belongs_cases in Hb as [?|?%valid_cf_name_default]; done.
  - unfold active_name. rewrite pointer_of_erased. destruct (open_keys _ _ _) eqn:E; [|done]. by apply open_keys_pointer in E.
  - intros k Hk. rewrite (er_local _ _ _ _ He) by (by eapply search_not_serving). destruct (open_keys p l k) eqn:E; [|done]. destruct Hg.
    destruct (is_data g) eqn:Hd; [by eapply open_keys_search|]. exfalso. revert E. unfold open_keys.
    rewrite orb_true_iff, !existsb_exists. intros [(h & _ & E)|(h & _ & E)]; rewrite (group_key_search g), Hd, andb_false_r in E; done.
Qed.
End recovered.

(** C39: opening a store whose durable contents are a legal layout, whatever
    crash left it so, succeeds: of a group whose reclamation was under way (its
    serving record says NonServing, or its pointer names a state that is gone)
    nothing is left; every other group keeps its log, its active state and its
    search journal, and loses every state that is not active. *)
Theorem open_recovers epoch now limits d s r : layout_ok d → open_with_limits epoch now limits d = (s, r) →
  r = Ok tt ∧ layout_ok (st_db s) ∧ cache_ok s ∧ ∀ g,
  (nonserving d g ∨ dangling d g → no_trace g (st_db s)) ∧
  (¬ (nonserving d g ∨ dangling d g) → kept g d (st_db s)).
Proof.
  intros Hl E. destruct (open_erases epoch now limits d Hl) as (s' & p & l & E' & Ha & Hs & Hr & Hn & He).
  rewrite E' in E. injection E as <- <-. split_and!; [done|by eapply layout_erased| |].
  - intros g n. by rewrite Ha, lookup_empty.
  - intros g. split; [by eapply recovered_gone|by eapply recovered_kept].
Qed.
End cleanups.
