(* ===== verification/DataSM.v ===== *)
(** * The data-group state machine (src/src/partition/state_machine.rs)

    [put]/[delete] with compare-and-set and per-client idempotency, decided
    from reads of a group's state column family through the [StateRead] seam:
    the committed store, or an overlay of not yet written mutations. *)

From S2P Require Import Prelude BTree Types Codec Keyspace ApplyDurability Rocks Storage.

(** One key's durable record. *)
Record KeyRecord := mkKeyRecord { kr_version : N; kr_value : bytes }.
#[global] Instance KeyRecord_eq_dec : EqDecision KeyRecord.
Proof. solve_decision. Defined.
#[global] Instance KeyRecord_wf : Wf KeyRecord := λ r, (kr_version r ≤ u64_max)%N ∧ vec_len_ok (kr_value r).

(** Per-client idempotency record. *)
Record SeqRecord := mkSeqRecord { sq_highest : N; sq_digest : N; sq_result : MutationResult }.
#[global] Instance SeqRecord_eq_dec : EqDecision SeqRecord.
Proof. solve_decision. Defined.
#[global] Instance SeqRecord_wf : Wf SeqRecord := λ r,
  (sq_highest r ≤ u64_max)%N ∧ (sq_digest r ≤ u128_max)%N ∧ wf (sq_result r).

Record SequenceOutcome := mkSequenceOutcome { so_highest : N; so_digest : N; so_result : MutationResult }.

Inductive RejectReason :=
| RejectReason_RecoveryEpochMismatch (expected got : N)
| RejectReason_SequenceGap (expected got : N)
| RejectReason_StaleSequence (highest got : N)
| RejectReason_SequenceMismatch
| RejectReason_Malformed
| RejectReason_SequenceExhausted.
#[global] Instance RejectReason_eq_dec : EqDecision RejectReason.
Proof. solve_decision. Defined.

Inductive ApplyResult :=
| ApplyResult_Decided (r : MutationResult)
| ApplyResult_Replayed (r : MutationResult)
| ApplyResult_Rejected (r : RejectReason)
| ApplyResult_NoOp.
#[global] Instance ApplyResult_eq_dec : EqDecision ApplyResult.
Proof. solve_decision. Defined.

(** [ApplyResult::mutation]. *)
Definition mutation (r : ApplyResult) : option MutationResult :=
  match r with
  | ApplyResult_Decided r | ApplyResult_Replayed r => Some r
  | ApplyResult_Rejected _ | ApplyResult_NoOp => None
  end.

Record ApplyObservation := mkObservationRecord {
  ao_group : GroupId;
  ao_log_id : RaftLogId;
  ao_client_id : N;
  ao_sequence : N;
  ao_digest : N;
  ao_result : ApplyResult;
}.

(** ** The read seam *)

Class StateRead (R : Type) :=
  read_state : ∀ T `{Codec T}, R → GroupId → bytes → Result (option T).

#[global] Instance storage_state_read `{Rocks D} `{!Codec string} : StateRead (Storage D) :=
  λ T _ _ s group key, get_state_record T s group key.

(** Staged writes of one apply chunk over the committed store. *)
Record StateOverlay (D : Type) := mkOverlay {
  ov_storage : Storage D;
  ov_pending : gmap bytes (option bytes);
}.
Arguments mkOverlay {D} _ _.
Arguments ov_storage {D} _.
Arguments ov_pending {D} _.

Definition overlay_new {D} (s : Storage D) : StateOverlay D := mkOverlay s ∅.

Definition stage_one (pending : gmap bytes (option bytes)) (m : StateMutation) : gmap bytes (option bytes) :=
  match m with
  | StateMutation_Put key value => <[key := Some value]> pending
  | StateMutation_Delete key => <[key := None]> pending
  end.

(** [StateOverlay::stage]. *)
Definition stage {D} (o : StateOverlay D) (ms : list StateMutation) : StateOverlay D :=
  mkOverlay (ov_storage o) (foldl stage_one (ov_pending o) ms).

Definition pending_mutation (kv : bytes * option bytes) : StateMutation :=
  match kv.2 with Some value => StateMutation_Put kv.1 value | None => StateMutation_Delete kv.1 end.

(** [StateOverlay::into_mutations], in the iteration order of the map. *)
Definition into_mutations {D} (o : StateOverlay D) : list StateMutation :=
  pending_mutation <$> map_to_list (ov_pending o).

#[global] Instance overlay_state_read `{Rocks D} `{!Codec string} : StateRead (StateOverlay D) :=
  λ T _ _ o group key,
    match ov_pending o !! key with
    | Some (Some b) => let! x := decode b in Ok (Some x)
    | Some None => Ok None
    | None => get_state_record T (ov_storage o) group key
    end.

(** ** Deciding an entry *)

Section data_sm.
Context `{StateRead R} `{Hashes} `{!Codec DataOp, !Codec KeyRecord, !Codec SeqRecord, !Codec U128}.
Implicit Types (reader : R) (group : GroupId).

(** [digest]. *)
Definition digest (op : DataOp) : N := xxh3_128 (encode op).

Definition key_record group reader (key : bytes) : Result (option KeyRecord) :=
  read_state KeyRecord reader group (user_key key).
Definition seq_record group reader (client_id : N) : Result (option SeqRecord) :=
  read_state SeqRecord reader group (seq_key client_id).

(** [inspect_sequence]. *)
Definition inspect_sequence group reader (client_id : N) : Result (option SequenceOutcome) :=
  let! seq := seq_record group reader client_id in
  Ok ((λ r, mkSequenceOutcome (sq_highest r) (sq_digest r) (sq_result r)) <$> seq).

(** [get]. *)
Definition data_get group reader (key : bytes) : Result (option (N * bytes)) :=
  let! r := key_record group reader key in
  Ok ((λ r, (kr_version r, kr_value r)) <$> r).

Definition version_matches (current : option KeyRecord) (v : N) : bool :=
  match current with Some r => (kr_version r =? v)%N | None => false end.

(** [decide]. *)
Definition decide_op group reader (op : DataOp) (log_index : N)
    : Result (MutationResult * option StateMutation) :=
  let! current := key_record group reader (op_key op) in
  let presence :=
    match current with
    | Some r => KeyPresence_Present (kr_version r)
    | None => KeyPresence_Absent
    end in
  match op with
  | DataOp_Put key value if_version =>
      let ok := match if_version with
                | None => true
                | Some (IfVersion_Number v) => version_matches current v
                | Some IfVersion_Absent => bool_decide (current = None)
                end in
      if negb ok then Ok (MutationResult_ConditionFailed presence, None)
      else Ok (MutationResult_Applied log_index,
               Some (StateMutation_Put (user_key key) (encode (mkKeyRecord log_index value))))
  | DataOp_Delete key if_version =>
      let ok := match if_version with
                | None => true
                | Some (IfVersion_Number v) => version_matches current v
                | Some IfVersion_Absent => false
                end in
      if negb ok then Ok (MutationResult_ConditionFailed presence, None)
      else Ok (MutationResult_Applied log_index,
               match current with Some _ => Some (StateMutation_Delete (user_key key)) | None => None end)
  end.

Definition put_too_large (op : DataOp) : bool :=
  match op with DataOp_Put _ value _ => (MAX_VALUE_BYTES <? N.of_nat (length value))%N | _ => false end.
Definition delete_absent (op : DataOp) : bool :=
  match op with DataOp_Delete _ (Some IfVersion_Absent) => true | _ => false end.

Definition rejected (r : RejectReason) : Result (ApplyResult * list StateMutation) :=
  Ok (ApplyResult_Rejected r, []).

(** [evaluate]. *)
Definition evaluate group reader (req : DataRequest) (log_index : N)
    : Result (ApplyResult * list StateMutation) :=
  let! epoch := or_zero (read_state U128 reader group recovery_epoch_key) in
  if negb (req_recovery_epoch req =? epoch)%N
  then rejected (RejectReason_RecoveryEpochMismatch epoch (req_recovery_epoch req)) else
  if put_too_large (req_op req) then rejected RejectReason_Malformed else
  if delete_absent (req_op req) then rejected RejectReason_Malformed else
  let! seq := seq_record group reader (req_client_id req) in
  let highest := match seq with Some s => sq_highest s | None => 0%N end in
  if (req_sequence req =? highest)%N then
    match seq with
    | Some s => if (sq_digest s =? digest (req_op req))%N then Ok (ApplyResult_Replayed (sq_result s), [])
                else rejected RejectReason_SequenceMismatch
    | None => rejected (RejectReason_StaleSequence highest (req_sequence req))
    end
  else if (req_sequence req <? highest)%N
  then rejected (RejectReason_StaleSequence highest (req_sequence req))
  else match checked_add u64_max highest 1 with
  | None => rejected RejectReason_SequenceExhausted
  | Some expected =>
      if (expected <? req_sequence req)%N
      then rejected (RejectReason_SequenceGap expected (req_sequence req)) else
      let! decided := decide_op group reader (req_op req) log_index in
      let seq_record := mkSeqRecord (req_sequence req) (digest (req_op req)) decided.1 in
      Ok (ApplyResult_Decided decided.1,
          match decided.2 with Some m => [m] | None => [] end ++
          [StateMutation_Put (seq_key (req_client_id req)) (encode seq_record)])
  end.
End data_sm.

(** [log_id]: synthetic term 0. *)
Definition standalone_log_id (index : N) : LogId := mkLogId 0 index.

(** [DataStateMachine::apply]. *)
Definition data_apply `{Rocks D} `{Hashes} `{!Codec DataOp, !Codec KeyRecord, !Codec SeqRecord, !Codec U128}
    `{!Codec string, !Codec LogId} (group : GroupId) (req : DataRequest) (log_index : N)
    : io (Storage D) ApplyResult :=
  let? ev := io_read (λ s, evaluate group s req log_index) in
  apply_state group ev.2 (standalone_log_id log_index) ;;? io_ret ev.1.
