(* ===== verification/PartitionNode.v ===== *)
(** * A partition's serving gate (src/src/partition/node.rs)

    [PartitionNode] is the only path to a partition's replicated state: writes
    through Raft, linearizable reads through ReadIndex, stale reads behind
    membership, recovery and version gates. The Raft instance is openraft: the
    class [Raft] over a state that holds the node's store. *)

From S2P Require Import Prelude BTree Types Codec Keyspace ApplyDurability Aio Rocks Storage DataSM Envelope.

(** ** The Raft handle *)

Inductive RaftError :=
| RaftError_ForwardToLeader (leader : option NodeId)
| RaftError_Other (e : string).

(** The watch channel of metrics; [rm_voters] and [rm_learners] are those of the effective membership. *)
Record RaftMetrics := mkRaftMetrics {
  rm_current_leader : option NodeId;
  rm_current_term : N;
  rm_membership_log_id : option RaftLogId;
  rm_voters : list NodeId;
  rm_learners : list NodeId;
  rm_last_applied : option RaftLogId;
  rm_replication : option (gmap NodeId (option RaftLogId));
}.

Inductive ChangeMembers :=
| ChangeMembers_ReplaceAllVoters (voters : gset NodeId)
| ChangeMembers_RemoveNodes (nodes : gset NodeId).

Class Raft (D W : Type) := {
  rf_storage : W → Storage D;
  rf_set_storage : Storage D → W → W;
  rf_now : W → N;                                                (* milliseconds *)
  rf_sleep : N → W → W;
  rf_metrics : W → RaftMetrics;
  rf_client_write : DataRequest → W → W * poll (result RaftError (RaftLogId * ApplyResult));
  rf_ensure_linearizable : W → W * poll (result RaftError (option RaftLogId));
  rf_add_learner : NodeId → W → W * poll (result RaftError unit);
  rf_change_membership : ChangeMembers → W → W * poll (result RaftError unit);
  rf_initialize : list NodeId → W → W * poll (result RaftError unit);
}.

(** ** Outcomes *)

Inductive WriteOutcome :=
| WriteOutcome_Applied (r : ApplyResult)
| WriteOutcome_AdmissionClosed
| WriteOutcome_NotLeader (leader : option NodeId).

Inductive ReadOutcome :=
| ReadOutcome_Value (v : option (N * bytes))
| ReadOutcome_NotLeader (leader : option NodeId)
| ReadOutcome_Recovering
| ReadOutcome_TooStale (leader : option NodeId).

Inductive SequenceInspection :=
| SequenceInspection_Value (v : option SequenceOutcome)
| SequenceInspection_NotLeader (leader : option NodeId).

Inductive SearchBarrier :=
| SearchBarrier_Ready (log_id : option RaftLogId)
| SearchBarrier_NotLeader (leader : option NodeId).

Record RecoveryFence := mkRecoveryFence {
  rfn_leader : NodeId;
  rfn_leader_term : N;
  rfn_membership_log_id : option RaftLogId;
  rfn_voters : list NodeId;
  rfn_target : option RaftLogId;
}.
Inductive RecoveryFenceReply :=
| RecoveryFenceReply_Fence (f : RecoveryFence)
| RecoveryFenceReply_NotLeader (leader : option NodeId)
| RecoveryFenceReply_Rejected (e : string).

(** The fields that are fixed once the node runs; [pn_maintenance] is the attached gate's [admit]. *)
Record PartitionNode (W : Type) := mkPartitionNode {
  pn_node_id : NodeId;
  pn_group : GroupId;
  pn_maintenance : option (W → W * poll bool);
}.
Arguments mkPartitionNode {W}.
Arguments pn_node_id {W}.
Arguments pn_group {W}.
Arguments pn_maintenance {W}.

Section node.
Context `{Rocks D} `{!Codec U64, !Codec U128, !Codec string, !Codec LogId}
  `{!Codec Identity, !Codec ServingState, !Codec BootstrapGroup, !Codec LearnerAdmission}
  `{!Codec RegistrationBinding, !Codec RaftApplied} `{Hashes} `{!Codec DataOp, !Codec KeyRecord, !Codec SeqRecord}.

Context {W : Type} `{!Raft D W} (node : PartitionNode W).
Implicit Types (w : W).
Abbreviation group := (pn_group node).
Abbreviation node_id := (pn_node_id node).

(** A call into the store, at the current time. *)
Definition on_storage {A} (m : N → io (Storage D) A) : io W A := λ w,
  let '(s, a) := m (rf_now w) (rf_storage w) in (rf_set_storage s w, a).
(** An await on Raft. *)
Definition raft_call {A} (m : W → W * poll (result RaftError A)) : aio W (result RaftError A) := λ w,
  match m w with (w, Ready r) => (w, Ready (Ok r)) | (w, Pending) => (w, Pending) end.
Definition metrics : io W RaftMetrics := io_read (λ w, Ok (rf_metrics w)).
Definition serving : io W unit := on_storage (λ now, require_serving now group).
(** [?] on a call whose error becomes [Error::Raft]. *)
Definition or_raft {A} (context : string) (r : result RaftError A) : aio W A :=
  match r with Ok a => aio_ret a | Err _ => aio_io (io_err (Error_Raft context)) end.

(** ** Recovery fences *)

Definition state_recovery_ready : io W bool := on_storage (λ now, lift_apply (registry_recovery_ready now group)).
Definition mark_state_recovery_ready (epoch : N) (target : option RaftLogId) : io W unit :=
  let? r := on_storage (λ now, lift_apply (registry_mark_ready now group epoch target)) in io_read (λ _, r).
Definition begin_state_recovery (target : option RaftLogId) : io W N :=
  on_storage (λ now, lift_apply (registry_begin_recovery now group target)).
Definition wait_state_visible (target : RaftLogId) : aio W unit := λ w,
  let '(w, r) := on_storage (λ now, lift_apply (registry_wait_visible now group target)) w in
  (w, match r with Ok p => p | Err e => Ready (Err e) end).

(** [open_state_recovery]. *)
Definition open_state_recovery (target : option RaftLogId) : io W unit :=
  let? ready := state_recovery_ready in
  if (ready : bool) then io_ret tt
  else
    let? epoch := begin_state_recovery target in
    mark_state_recovery_ready epoch target.

(** [current_leader], [node_applied_index], [committed_config_identity], [committed_config], [committed_voter_set]. *)
Definition current_leader : io W (option NodeId) := io_read (λ w, Ok (rm_current_leader (rf_metrics w))).
Definition node_applied_index : io W (option N) := io_read (λ w, Ok (rl_index <$> rm_last_applied (rf_metrics w))).
Definition committed_config_identity : io W (option RaftLogId * list NodeId) :=
  io_read (λ w, Ok (rm_membership_log_id (rf_metrics w), rm_voters (rf_metrics w))).
Definition committed_config : io W (option LogId * list NodeId) :=
  let? c := committed_config_identity in
  io_ret ((λ l, mkLogId (rl_term l) (rl_index l)) <$> c.1, c.2).
Definition is_committed_voter : io W bool :=
  let? c := committed_config in io_ret (bool_decide (node_id ∈ c.2)).

(** [confirmed_committed_config]. *)
Definition confirmed_committed_config : aio W (option LogId * list NodeId) :=
  aio_io serving ;;~
  let~ r := raft_call rf_ensure_linearizable in
  let~ target := or_raft "confirm committed membership" r in
  aio_io (open_state_recovery target) ;;~
  aio_io committed_config.

(** [issue_recovery_fence]: every failure is a reply. *)
Definition issue_recovery_fence (requester : NodeId) : W → W * poll RecoveryFenceReply := λ w,
  match serving w with
  | (w, Err e) => (w, Ready (RecoveryFenceReply_Rejected (error_display e)))
  | (w, Ok _) =>
      if negb (bool_decide (rm_current_leader (rf_metrics w) = Some node_id))
      then (w, Ready (RecoveryFenceReply_NotLeader (rm_current_leader (rf_metrics w))))
      else
        match rf_ensure_linearizable w with
        | (w, Pending) => (w, Pending)
        | (w, Ready (Err (RaftError_ForwardToLeader leader))) => (w, Ready (RecoveryFenceReply_NotLeader leader))
        | (w, Ready (Err (RaftError_Other e))) => (w, Ready (RecoveryFenceReply_Rejected e))
        | (w, Ready (Ok target)) =>
            let m := rf_metrics w in
            if negb (bool_decide (rm_current_leader m = Some node_id))
            then (w, Ready (RecoveryFenceReply_NotLeader (rm_current_leader m)))
            else if negb (bool_decide (requester ∈ rm_voters m))
            then (w, Ready (RecoveryFenceReply_Rejected "not a committed voter"))
            else (w, Ready (RecoveryFenceReply_Fence
                   (mkRecoveryFence node_id (rm_current_term m) (rm_membership_log_id m) (rm_voters m) target)))
        end
  end.

(** [validate_recovery_fence]. *)
Definition validate_recovery_fence (fence : RecoveryFence) : io W unit := io_read (λ w,
  let m := rf_metrics w in
  if negb (bool_decide (rm_current_leader m = Some (rfn_leader fence))) || negb (rm_current_term m =? rfn_leader_term fence)%N
  then Err (Error_Raft "recovery fence leader changed")
  else if negb (bool_decide (rm_membership_log_id m = rfn_membership_log_id fence)) ||
          negb (bool_decide (rm_voters m = rfn_voters fence))
  then Err (Error_Raft "recovery fence membership changed while catch-up was in flight")
  else if negb (bool_decide (node_id ∈ rm_voters m)) then Err (Error_Raft "not a committed voter")
  else Ok tt).

(** [apply_recovery_fence]. *)
Definition apply_recovery_fence (fence : RecoveryFence) : aio W unit :=
  aio_io serving ;;~
  let~ ready := aio_io state_recovery_ready in
  if (ready : bool) then aio_ret tt
  else
    let~ epoch := aio_io (begin_state_recovery (rfn_target fence)) in
    aio_io (validate_recovery_fence fence) ;;~
    match rfn_target fence with Some target => wait_state_visible target | None => aio_ret tt end ;;~
    aio_io (validate_recovery_fence fence) ;;~
    aio_io (mark_state_recovery_ready epoch (rfn_target fence)).

(** ** Serving *)

(** [write]. *)
Definition node_write (req : DataRequest) : aio W WriteOutcome :=
  let~ admitted := match pn_maintenance node with
                   | Some gate => λ w, match gate w with (w, Ready b) => (w, Ready (Ok b)) | (w, Pending) => (w, Pending) end
                   | None => aio_ret true
                   end in
  if negb admitted then aio_ret WriteOutcome_AdmissionClosed
  else
    aio_io serving ;;~
    if match req_op req with DataOp_Put _ value _ => (MAX_VALUE_BYTES <? byte_len value)%N | DataOp_Delete _ _ => false end
    then aio_io (io_err (Error_Config "value exceeds byte limit"))
    else
      let~ r := raft_call (rf_client_write req) in
      match r with
      | Ok (log_id, data) =>
          aio_io (λ w, let '(w, _) := open_state_recovery (Some log_id) w in (w, Ok tt)) ;;~
          aio_ret (WriteOutcome_Applied data)
      | Err (RaftError_ForwardToLeader leader) => aio_ret (WriteOutcome_NotLeader leader)
      | Err (RaftError_Other e) => aio_io (io_err (Error_Raft e))
      end.

(** [self.data.get(..)]. *)
Definition local_get (key : bytes) : io W (option (N * bytes)) := io_read (λ w, data_get group (rf_storage w) key).

(** [read]. *)
Definition node_read (key : bytes) (consistency : Consistency) : aio W ReadOutcome :=
  aio_io serving ;;~
  match consistency with
  | Consistency_Linearizable =>
      let~ r := raft_call rf_ensure_linearizable in
      match r with
      | Ok target => λ w,
          match open_state_recovery target w with
          | (w, Err _) => (w, Ready (Ok ReadOutcome_Recovering))
          | (w, Ok _) => (let~ v := aio_io (local_get key) in aio_ret (ReadOutcome_Value v)) w
          end
      | Err (RaftError_ForwardToLeader leader) => aio_ret (ReadOutcome_NotLeader leader)
      | Err (RaftError_Other e) => aio_io (io_err (Error_Raft e))
      end
  | Consistency_Stale min_version =>
      let~ voter := aio_io is_committed_voter in
      let~ leader := aio_io current_leader in
      if negb voter then aio_ret (ReadOutcome_TooStale leader)
      else
        let~ ready := aio_io state_recovery_ready in
        if negb ready then aio_ret ReadOutcome_Recovering
        else
          let~ applied := aio_io node_applied_index in
          if match min_version with Some min => (default 0%N applied <? min)%N | None => false end
          then aio_ret (ReadOutcome_TooStale leader)
          else let~ v := aio_io (local_get key) in aio_ret (ReadOutcome_Value v)
  end.

(** [search_barrier]. *)
Definition search_barrier (linearizable : bool) : aio W SearchBarrier :=
  aio_io serving ;;~
  if negb linearizable then
    let~ leader := aio_io current_leader in
    let~ voter := aio_io is_committed_voter in
    let~ authorized := aio_io (if voter && bool_decide (leader = Some node_id) then state_recovery_ready else io_ret false) in
    aio_ret (if (authorized : bool) then SearchBarrier_Ready None
             else SearchBarrier_NotLeader (leader ≫= λ l, if bool_decide (l = node_id) then None else Some l))
  else
    let~ r := raft_call rf_ensure_linearizable in
    match r with
    | Ok log_id => aio_io (open_state_recovery log_id) ;;~ aio_ret (SearchBarrier_Ready log_id)
    | Err (RaftError_ForwardToLeader leader) => aio_ret (SearchBarrier_NotLeader leader)
    | Err (RaftError_Other e) => aio_io (io_err (Error_Raft e))
    end.

(** [inspect_sequence]. *)
Definition node_inspect_sequence (client_id : N) : aio W SequenceInspection :=
  aio_io serving ;;~
  let~ r := raft_call rf_ensure_linearizable in
  match r with
  | Ok target =>
      aio_io (open_state_recovery target) ;;~
      let~ v := aio_io (io_read (λ w, inspect_sequence group (rf_storage w) client_id)) in
      aio_ret (SequenceInspection_Value v)
  | Err (RaftError_ForwardToLeader leader) => aio_ret (SequenceInspection_NotLeader leader)
  | Err (RaftError_Other e) => aio_io (io_err (Error_Raft e))
  end.

(** ** Membership *)

(** [start_with_network_inner] up to the Raft instance: what must hold before a group may run. *)
Definition authorize_start : io W unit :=
  match group with
  | GroupId_Data _ => on_storage (λ now, authorize_group_start now group node_id)
  | GroupId_Meta => io_err (Error_Config "PartitionNode requires a data-group id")
  end.

Definition node_initialize (voters : list NodeId) : aio W unit :=
  let~ r := raft_call (rf_initialize voters) in or_raft "initialize" r.

(** [add_learner]. *)
Definition node_add_learner (id : NodeId) : aio W unit :=
  let~ m := aio_io metrics in
  if bool_decide (id ∈ rm_learners m) || bool_decide (id ∈ rm_voters m) then aio_ret tt
  else let~ r := raft_call (rf_add_learner id) in or_raft "add_learner" r.

(** [learner_caught_up]. *)
Definition learner_caught_up (id : NodeId) : io W bool := io_read (λ w,
  let m := rf_metrics w in
  match rm_membership_log_id m, rm_replication m with
  | Some barrier, Some replication =>
      match replication !! id with
      | Some (Some matched) => Ok (rl_index barrier <=? rl_index matched)%N
      | _ => Ok false
      end
  | _, _ => Ok false
  end).

(** The loop of [wait_learner_caught_up]. *)
Fixpoint wait_caught_up_loop (fuel : nat) (id : NodeId) (deadline : N) : aio W unit :=
  match fuel with
  | O => λ w, (w, Pending)
  | S fuel =>
      let~ caught_up := aio_io (learner_caught_up id) in
      if (caught_up : bool) then aio_ret tt
      else
        let~ now := aio_io (io_read (λ w, Ok (rf_now w))) in
        if (deadline <=? now)%N then aio_io (io_err (Error_Raft "learner did not reach its admission barrier"))
        else aio_io (io_modify (rf_sleep 50)) ;;~ wait_caught_up_loop fuel id deadline
  end.
Definition wait_learner_caught_up (fuel : nat) (id : NodeId) (timeout : N) : aio W unit :=
  let~ now := aio_io (io_read (λ w, Ok (rf_now w))) in
  wait_caught_up_loop fuel id (now + timeout).

(** [remove_learner]. *)
Definition node_remove_learner (id : NodeId) : aio W unit :=
  let~ m := aio_io metrics in
  if negb (bool_decide (id ∈ rm_learners m)) then
    if bool_decide (id ∈ rm_voters m) then aio_io (io_err (Error_Raft "remove_learner: node is still a voter"))
    else aio_ret tt
  else let~ r := raft_call (rf_change_membership (ChangeMembers_RemoveNodes {[id]})) in or_raft "remove_learner" r.

(** [change_voters]: the set of the given ids. *)
Definition node_change_voters (voters : list NodeId) : aio W unit :=
  let~ r := raft_call (rf_change_membership (ChangeMembers_ReplaceAllVoters (list_to_set voters))) in
  or_raft "change_membership" r.
End node.
