(* ===== verification/Api.v ===== *)
(** * Client operations and the routing snapshot (src/src/api/ops.rs)

    What a [ClientOp] frame carries, what comes back, and the advisory routing
    snapshot a client caches, with its validation. *)

From S2P Require Import Prelude BTree Types Codec DataSM.

(** ** Requests and replies *)

Inductive ClientRequest :=
| ClientRequest_Mutate (data : DataRequest)
| ClientRequest_Read (key : bytes) (consistency : Consistency).

(** [ClientRequest::key]. *)
Definition request_key (req : ClientRequest) : bytes :=
  match req with ClientRequest_Mutate data => op_key (req_op data) | ClientRequest_Read key _ => key end.

Inductive WriteReply :=
| WriteReply_Applied (version : N)
| WriteReply_ConditionFailed (current : KeyPresence)
| WriteReply_Rejected (reason : RejectReason).
#[global] Instance WriteReply_eq_dec : EqDecision WriteReply.
Proof. solve_decision. Defined.

(** [WriteReply::from_apply]. *)
Definition from_apply (result : ApplyResult) : WriteReply :=
  match result with
  | ApplyResult_Decided (MutationResult_Applied v) | ApplyResult_Replayed (MutationResult_Applied v) => WriteReply_Applied v
  | ApplyResult_Decided (MutationResult_ConditionFailed c) | ApplyResult_Replayed (MutationResult_ConditionFailed c) =>
      WriteReply_ConditionFailed c
  | ApplyResult_Rejected reason => WriteReply_Rejected reason
  | ApplyResult_NoOp => WriteReply_Rejected RejectReason_Malformed
  end.

Record Redirect := mkRedirect {
  rd_cluster_id : N;
  rd_leader : option NodeId;
  rd_candidates : list NodeId;
}.

Inductive ClientReply :=
| ClientReply_RecoveryEpochMismatch (expected got : N)
| ClientReply_Mutation (w : WriteReply)
| ClientReply_Value (v : option (N * bytes))
| ClientReply_Redirect (r : Redirect)
| ClientReply_Recovering
| ClientReply_Refused (e : string)
| ClientReply_Error (e : string)
| ClientReply_Unavailable (e : string)
| ClientReply_Denied (e : string).

#[global] Instance Consistency_wf : Wf Consistency := λ c,
  match c with Consistency_Linearizable => True | Consistency_Stale m => from_option (λ v, (v ≤ u64_max)%N) True m end.
#[global] Instance ClientRequest_wf : Wf ClientRequest := λ r,
  match r with ClientRequest_Mutate d => wf d | ClientRequest_Read k c => vec_len_ok k ∧ wf c end.
#[global] Instance RejectReason_wf : Wf RejectReason := λ r,
  match r with
  | RejectReason_RecoveryEpochMismatch a b => (a ≤ u128_max)%N ∧ (b ≤ u128_max)%N
  | RejectReason_SequenceGap a b | RejectReason_StaleSequence a b => (a ≤ u64_max)%N ∧ (b ≤ u64_max)%N
  | _ => True
  end.
#[global] Instance WriteReply_wf : Wf WriteReply := λ r,
  match r with
  | WriteReply_Applied v => (v ≤ u64_max)%N
  | WriteReply_ConditionFailed c => wf c
  | WriteReply_Rejected r => wf r
  end.
#[global] Instance Redirect_wf : Wf Redirect := λ r,
  (rd_cluster_id r ≤ u128_max)%N ∧ from_option (λ n, (n ≤ u64_max)%N) True (rd_leader r) ∧ node_ids_ok (rd_candidates r).
#[global] Instance ClientReply_wf : Wf ClientReply := λ r,
  match r with
  | ClientReply_RecoveryEpochMismatch a b => (a ≤ u128_max)%N ∧ (b ≤ u128_max)%N
  | ClientReply_Mutation w => wf w
  | ClientReply_Value v => from_option (λ v, (v.1 ≤ u64_max)%N ∧ vec_len_ok v.2) True v
  | ClientReply_Redirect r => wf r
  | ClientReply_Recovering => True
  | ClientReply_Refused e | ClientReply_Error e | ClientReply_Unavailable e | ClientReply_Denied e => str_ok e
  end.

(** ** The routing snapshot *)

Record RoutingInfo := mkRoutingInfo {
  ri_cluster_id : N;
  ri_recovery_epoch : N;
  ri_p : N;
  ri_hash_spec : HashSpec;
  ri_directory : list NodeDirectoryEntry;
  ri_placements : list (N * Placement);
}.

#[global] Instance RoutingInfo_wf : Wf RoutingInfo := λ i,
  (ri_cluster_id i ≤ u128_max)%N ∧ (ri_recovery_epoch i ≤ u128_max)%N ∧ (ri_p i ≤ u16_max)%N ∧ wf (ri_hash_spec i) ∧
  (vec_len_ok (ri_directory i) ∧ Forall wf (ri_directory i)) ∧
  (vec_len_ok (ri_placements i) ∧ Forall (λ x, (x.1 ≤ u16_max)%N ∧ wf x.2) (ri_placements i)).

(** The payload of a [MetaQuery]. *)
Record RoutingQuery := mkRoutingQuery { rq_local_only : bool }.
#[global] Instance RoutingQuery_wf : Wf RoutingQuery := λ _, True.

Definition routing_err (message : string) : Result unit := Err (Error_Config message).

(** The address loop of one directory entry: the addresses seen so far. *)
Fixpoint check_addresses (addresses : list string) (l : list string) : Result (list string) :=
  match l with
  | [] => Ok addresses
  | address :: l =>
      if bool_decide (address = "") || (MAX_ENDPOINT_BYTES <? String.length address)
      then Err (Error_Config "routing directory contains an invalid endpoint")
      else if bool_decide (address ∈ addresses) then Err (Error_Config "routing directory contains a duplicate endpoint")
      else check_addresses (address :: addresses) l
  end.

(** The directory loop: the node ids. *)
Fixpoint check_directory (nodes : list NodeId) (addresses : list string) (l : list NodeDirectoryEntry) : Result (list NodeId) :=
  match l with
  | [] => Ok nodes
  | entry :: l =>
      if (nd_node_id entry =? 0)%N || bool_decide (nd_node_id entry ∈ nodes)
      then Err (Error_Config "routing directory contains a zero or duplicate node id")
      else let! addresses := check_addresses addresses [nd_control_addr entry; nd_bulk_addr entry] in
           check_directory (nd_node_id entry :: nodes) addresses l
  end.

(** [a.difference(&b).count()] on sets given by lists without duplicates. *)
Definition difference_count (a b : list NodeId) : nat := length (filter (λ x, x ∉ b) a).

Definition voters_ok (nodes voters : list NodeId) : bool :=
  negb (bool_decide (voters = [])) && bool_decide (NoDup voters) && forallb (λ v, bool_decide (v ∈ nodes)) voters.

Definition move_ok (nodes voters : list NodeId) (plan : MovePlan) : bool :=
  let target := mp_target_voters plan in
  negb (mp_plan_id plan =? 0)%N && bool_decide (NoDup target) && (length target =? length voters) &&
  forallb (λ v, bool_decide (v ∈ nodes)) target &&
  (difference_count target voters =? 1) && (difference_count voters target =? 1).

(** The placement loop. *)
Fixpoint check_placements (p : N) (nodes : list NodeId) (partitions : list N) (l : list (N * Placement)) : Result unit :=
  match l with
  | [] => Ok tt
  | (partition, placement) :: l =>
      if (p <=? partition)%N || bool_decide (partition ∈ partitions)
      then Err (Error_Config "routing snapshot contains an invalid or duplicate partition")
      else if negb (voters_ok nodes (pl_voters placement))
      then Err (Error_Config "routing placement contains invalid voters")
      else if match pl_move placement with Some plan => negb (move_ok nodes (pl_voters placement) plan) | None => false end
      then Err (Error_Config "routing placement contains an invalid move plan")
      else check_placements p nodes (partition :: partitions) l
  end.

(** [RoutingInfo::validate]. *)
Definition routing_validate (info : RoutingInfo) (expected_cluster : N) : Result unit :=
  if negb (ri_cluster_id info =? expected_cluster)%N then routing_err "routing snapshot has the wrong cluster_id"
  else if (ri_p info =? 0)%N then routing_err "routing snapshot has zero partitions"
  else if MAX_CLUSTER_NODES <? length (ri_directory info) then routing_err "routing directory exceeds the node limit"
  else
    let! nodes := check_directory [] [] (ri_directory info) in
    check_placements (ri_p info) nodes [] (ri_placements info).

(** [RoutingInfo::control_addr], [placement_log_id] and [candidates]. *)
Definition control_addr (info : RoutingInfo) (node : NodeId) : option string :=
  nd_control_addr <$> head (filter (λ e, nd_node_id e = node) (ri_directory info)).
Definition placement_of (info : RoutingInfo) (partition : N) : option Placement :=
  snd <$> head (filter (λ e, e.1 = partition) (ri_placements info)).
Definition placement_log_id (info : RoutingInfo) (partition : N) : option LogId :=
  pl_voters_log_id <$> placement_of info partition.

(** [if !out.contains(v) { out.push(v) }] over a list. *)
Definition push_new (out : list NodeId) (l : list NodeId) : list NodeId :=
  foldl (λ out v, if bool_decide (v ∈ out) then out else out ++ [v]) out l.

Definition routing_candidates (info : RoutingInfo) (partition : N) : list NodeId :=
  match placement_of info partition with
  | None => []
  | Some placement =>
      match pl_move placement with
      | Some m => push_new (pl_voters placement) (mp_target_voters m)
      | None => pl_voters placement
      end
  end.

(** ** Refused frames *)

Inductive RejectFrame :=
| RejectFrame_WrongCluster (expected got : N)
| RejectFrame_MispartitionedKey (expected got : GroupId)
| RejectFrame_NotADataPartition (g : GroupId)
| RejectFrame_PeerControlOnClientPath.

(** [check_partition]. *)
Definition check_partition `{Hashes} (req : ClientRequest) (envelope_group : GroupId) (p : N) (hash_spec : HashSpec)
    : result RejectFrame N :=
  match envelope_group with
  | GroupId_Meta => Err (RejectFrame_NotADataPartition envelope_group)
  | GroupId_Data claimed =>
      let actual := partition_of hash_spec (request_key req) p in
      if negb (actual =? claimed)%N then Err (RejectFrame_MispartitionedKey (GroupId_Data actual) envelope_group)
      else Ok claimed
  end.
