(* ===== verification/Gateway.v ===== *)
(** * The client gateway (src/src/api/gateway.rs)

    The node-side handler of client frames: cluster and frame class, permissions,
    request validation, admission, and the hosted partition's serving gate. *)

From S2P Require Import Prelude BTree Types Codec Keyspace SearchDef ApplyDurability Aio Rocks Storage Maintenance Security Envelope DataSM PartitionNode Api.

(** ** Search frames *)

Inductive SearchShardReply (R : Type) :=
| SearchShardReply_Result (r : R)
| SearchShardReply_Redirect (r : Redirect)
| SearchShardReply_Refused (e : string)
| SearchShardReply_Error (e : string)
| SearchShardReply_Denied (e : string).
Arguments SearchShardReply_Result {R}. Arguments SearchShardReply_Redirect {R}. Arguments SearchShardReply_Refused {R}.
Arguments SearchShardReply_Error {R}. Arguments SearchShardReply_Denied {R}.

Record SearchCatalogQuery := mkSearchCatalogQuery { cq_name : string; cq_local_only : bool; cq_all : bool }.
Inductive SearchCatalogReply :=
| SearchCatalogReply_Record (r : option SearchIndexRecord)
| SearchCatalogReply_Catalog (l : list SearchIndexRecord)
| SearchCatalogReply_Unavailable
| SearchCatalogReply_Error (e : string)
| SearchCatalogReply_Denied (e : string).

#[global] Instance SearchShardReply_wf `{Wf R} : Wf (SearchShardReply R) := λ r,
  match r with
  | SearchShardReply_Result r => wf r
  | SearchShardReply_Redirect r => wf r
  | SearchShardReply_Refused e | SearchShardReply_Error e | SearchShardReply_Denied e => str_ok e
  end.
#[global] Instance SearchCatalogQuery_wf : Wf SearchCatalogQuery := λ q, str_ok (cq_name q).
#[global] Instance SearchCatalogReply_wf : Wf SearchCatalogReply := λ r,
  match r with
  | SearchCatalogReply_Record r => from_option wf True r
  | SearchCatalogReply_Catalog l => vec_len_ok l ∧ Forall wf l
  | SearchCatalogReply_Unavailable => True
  | SearchCatalogReply_Error e | SearchCatalogReply_Denied e => str_ok e
  end.

(** [ShardSearchOutcome] of the search service. *)
Inductive ShardSearchOutcome (R : Type) :=
| ShardSearchOutcome_Reply (r : R)
| ShardSearchOutcome_NotLeader (leader : option NodeId).
Arguments ShardSearchOutcome_Reply {R}. Arguments ShardSearchOutcome_NotLeader {R}.

(** ** The gateway *)

Section gateway.
Context `{Rocks D} `{!Codec U64, !Codec U128, !Codec string, !Codec LogId}
  `{!Codec Identity, !Codec ServingState, !Codec BootstrapGroup, !Codec LearnerAdmission}
  `{!Codec RegistrationBinding, !Codec RaftApplied} `{Hashes} `{!Codec DataOp, !Codec KeyRecord, !Codec SeqRecord}.
Context `{!Codec ClientRequest, !Codec ClientReply, !Codec RoutingInfo, !Codec RoutingQuery}.
Context {Q R : Type} `{!Wf Q, !Codec Q} `{!Wf R, !Codec (SearchShardReply R)} `{!Codec SearchCatalogQuery, !Codec SearchCatalogReply}.

(** What the gateway is attached to: the partitions hosted at the moment, each with its Raft handle, and
    the traits [RoutingSource], [SearchCatalogSource], the search service and the search coordinator. *)
Record ClientGateway (W : Type) := mkGateway {
  gw_cluster_id : N;
  gw_p : N;
  gw_hash_spec : HashSpec;
  gw_partitions : W → N → option (Raft D W * PartitionNode W);
  gw_routing : bool → W → W * poll (option RoutingInfo);
  gw_search : option (PartitionNode W → Q → aio W (ShardSearchOutcome R));
  gw_coordinate : Envelope → W → W * poll (SearchShardReply R);
  gw_search_catalog : option ((string → bool → W → W * poll (result string (option SearchIndexRecord))) *
                              (bool → W → W * poll (result string (list SearchIndexRecord))));
  gw_readiness : option (W → RuntimeLifecycle);
  gw_maintenance : option (W → bool);
  gw_trust_policy : option TrustPolicy;
}.
#[global] Arguments gw_cluster_id {W}. #[global] Arguments gw_p {W}. #[global] Arguments gw_hash_spec {W}.
#[global] Arguments gw_partitions {W}. #[global] Arguments gw_routing {W}. #[global] Arguments gw_search {W}.
#[global] Arguments gw_coordinate {W}. #[global] Arguments gw_search_catalog {W}. #[global] Arguments gw_readiness {W}.
#[global] Arguments gw_maintenance {W}. #[global] Arguments gw_trust_policy {W}.

Context {W : Type} (gw : ClientGateway W).
Implicit Types (w : W) (env : Envelope) (user : option string).

(** A future that cannot fail, and a fallible one whose error is handled. *)
Definition infallible {A} (m : W → W * poll A) : aio W A := λ w,
  match m w with (w, Ready a) => (w, Ready (Ok a)) | (w, Pending) => (w, Pending) end.
Definition attempt {A} (m : aio W A) : aio W (Result A) := λ w,
  match m w with (w, Ready r) => (w, Ready (Ok r)) | (w, Pending) => (w, Pending) end.

(** [has_permission], [owns_client_id] and [accepts_client_work]; [user] is the authenticated identity. *)
Definition has_permission user (permissions : list Permission) : bool :=
  match gw_trust_policy gw with
  | None => true
  | Some policy =>
      match user with
      | None => false
      | Some u => existsb (λ permission, bool_decide (is_Some (authorize policy u permission))) permissions
      end
  end.
Definition gateway_owns_client_id user (client_id : N) : bool :=
  match gw_trust_policy gw with
  | None => true
  | Some policy => match user with Some u => Security.owns_client_id policy u client_id | None => false end
  end.
Definition accepts_client_work w : bool :=
  match gw_readiness gw with None => true | Some lifecycle => is_ready (lifecycle w) end.
Definition gate_closed w : bool := match gw_maintenance gw with None => false | Some open => negb (open w) end.

(** [reply] and [client_reply]. *)
Definition reply (msg_type : MsgType) (group : GroupId) (request_id : N) (body : bytes) : Envelope :=
  mkEnvelope (gw_cluster_id gw) msg_type group request_id body.
Definition client_reply (group : GroupId) (request_id : N) (r : ClientReply) : Envelope :=
  reply MsgType_ClientOp group request_id (encode r).

(** [candidates] and the redirects made of them. *)
Definition candidates (partition : N) : aio W (list NodeId) :=
  let~ info := infallible (gw_routing gw true) in
  aio_ret (match info with Some info => routing_candidates info partition | None => [] end).
Definition redirect (leader : option NodeId) (partition : N) : aio W Redirect :=
  let~ l := candidates partition in aio_ret (mkRedirect (gw_cluster_id gw) leader l).

Definition reject_display (e : RejectFrame) : string :=
  match e with
  | RejectFrame_WrongCluster expected got => "wrong cluster id: expected " +:+ hex_u128 expected +:+ ", got " +:+ hex_u128 got
  | RejectFrame_MispartitionedKey _ _ => "key hashes to another group than it was sent to"
  | RejectFrame_NotADataPartition _ => "not a data partition"
  | RejectFrame_PeerControlOnClientPath => "peer-control message on client dispatch path"
  end.

(** The refusals of [handle_client_op]: a function of the frame and of the cluster's constants. *)
Definition refusal (p : N) (hash_spec : HashSpec) (group : GroupId) (req : ClientRequest) : result string N :=
  if match req with
     | ClientRequest_Mutate data =>
         match req_op data with DataOp_Put _ value _ => (MAX_VALUE_BYTES <? byte_len value)%N | DataOp_Delete _ _ => false end
     | ClientRequest_Read _ _ => false
     end
  then Err "value exceeds byte limit"
  else if match req with
          | ClientRequest_Mutate data =>
              match req_op data with DataOp_Delete _ (Some IfVersion_Absent) => true | _ => false end
          | ClientRequest_Read _ _ => false
          end
  then Err "delete does not support if_version=Absent"
  else match check_partition req group p hash_spec with
       | Ok partition => Ok partition
       | Err e => Err (reject_display e)
       end.

(** A mutation at the hosted partition. *)
Definition serve_mutation (raft : Raft D W) (node : PartitionNode W) (partition : N) (data : DataRequest) : aio W ClientReply := λ w,
  match recovery_epoch (rf_storage w) (pn_group node) with
  | Err _ => (w, Ready (Ok (ClientReply_Error "recovery epoch unavailable")))
  | Ok expected =>
      if negb (expected =? req_recovery_epoch data)%N
      then (w, Ready (Ok (ClientReply_RecoveryEpochMismatch expected (req_recovery_epoch data))))
      else if gate_closed w then (w, Ready (Ok (ClientReply_Unavailable "maintenance admission is closed")))
      else (let~ r := attempt (node_write node data) in
            match r with
            | Ok (WriteOutcome_Applied result) => aio_ret (ClientReply_Mutation (from_apply result))
            | Ok (WriteOutcome_NotLeader leader) => let~ r := redirect leader partition in aio_ret (ClientReply_Redirect r)
            | Ok WriteOutcome_AdmissionClosed => aio_ret (ClientReply_Unavailable "maintenance admission is closed")
            | Err e => aio_ret (ClientReply_Error ("write failed: " +:+ error_display e))
            end) w
  end.

(** A read at the hosted partition. *)
Definition serve_read (raft : Raft D W) (node : PartitionNode W) (partition : N) (key : bytes) (consistency : Consistency)
    : aio W ClientReply :=
  let~ r := attempt (node_read node key consistency) in
  match r with
  | Ok (ReadOutcome_Value v) => aio_ret (ClientReply_Value v)
  | Ok ReadOutcome_Recovering => aio_ret ClientReply_Recovering
  | Ok (ReadOutcome_NotLeader leader) | Ok (ReadOutcome_TooStale leader) =>
      let~ r := redirect leader partition in aio_ret (ClientReply_Redirect r)
  | Err _ => let~ r := redirect None partition in aio_ret (ClientReply_Redirect r)
  end.

(** [handle_client_op]. *)
Definition handle_client_op env : aio W ClientReply := λ w,
  if negb (accepts_client_work w) then (w, Ready (Ok (ClientReply_Unavailable "node is not accepting client work")))
  else match decode (A:=ClientRequest) (ev_payload env) with
  | Err e => (w, Ready (Ok (ClientReply_Refused ("malformed ClientOp: " +:+ error_display e))))
  | Ok req =>
      match refusal (gw_p gw) (gw_hash_spec gw) (ev_group_id env) req with
      | Err e => (w, Ready (Ok (ClientReply_Refused e)))
      | Ok partition =>
          if match req with ClientRequest_Mutate _ => gate_closed w | ClientRequest_Read _ _ => false end
          then (w, Ready (Ok (ClientReply_Unavailable "maintenance admission is closed")))
          else match gw_partitions gw w partition with
          | None => (let~ r := redirect None partition in aio_ret (ClientReply_Redirect r)) w
          | Some (raft, node) =>
              match req with
              | ClientRequest_Mutate data => serve_mutation raft node partition data w
              | ClientRequest_Read key consistency => serve_read raft node partition key consistency w
              end
          end
      end
  end.

(** [handle_search_op]. *)
Definition handle_search_op env : aio W (SearchShardReply R) := λ w,
  if negb (accepts_client_work w) then (w, Ready (Ok (SearchShardReply_Error "node is not accepting client work")))
  else match decode (A:=Q) (ev_payload env), ev_group_id env with
  | Err e, _ => (w, Ready (Ok (SearchShardReply_Refused ("malformed SearchOp: " +:+ error_display e))))
  | Ok _, GroupId_Meta => (w, Ready (Ok (SearchShardReply_Refused "SearchOp must address a data partition")))
  | Ok request, GroupId_Data partition =>
      match gw_partitions gw w partition with
      | None => (let~ r := redirect None partition in aio_ret (SearchShardReply_Redirect r)) w
      | Some (_, node) =>
          match gw_search gw with
          | None => (w, Ready (Ok (SearchShardReply_Error "search service is not configured")))
          | Some search =>
              (let~ r := attempt (search node request) in
               match r with
               | Ok (ShardSearchOutcome_Reply r) => aio_ret (SearchShardReply_Result r)
               | Ok (ShardSearchOutcome_NotLeader leader) =>
                   let~ r := redirect leader partition in aio_ret (SearchShardReply_Redirect r)
               | Err e => aio_ret (SearchShardReply_Error (error_display e))
               end) w
          end
      end
  end.

(** The [SearchCatalogQuery] arm. *)
Definition handle_catalog_query env : aio W SearchCatalogReply :=
  match decode (A:=SearchCatalogQuery) (ev_payload env) with
  | Err e => aio_ret (SearchCatalogReply_Error ("malformed catalog query: " +:+ error_display e))
  | Ok query =>
      match gw_search_catalog gw with
      | None => aio_ret SearchCatalogReply_Unavailable
      | Some (index, catalog) =>
          if cq_all query then
            let~ r := infallible (catalog (cq_local_only query)) in
            aio_ret (match r with Ok l => SearchCatalogReply_Catalog l | Err e => SearchCatalogReply_Error e end)
          else
            let~ r := infallible (index (cq_name query) (cq_local_only query)) in
            aio_ret (match r with Ok r => SearchCatalogReply_Record r | Err e => SearchCatalogReply_Error e end)
      end
  end.

(** The authorization of a frame: [Some] is the reply to a denied one. *)
Definition authorization env user : option Envelope :=
  let id := ev_request_id env in
  match ev_msg_type env with
  | MsgType_ClientOp =>
      let authorized := match decode (A:=ClientRequest) (ev_payload env) with
                        | Ok (ClientRequest_Read _ _) => has_permission user [Permission_ClientRead]
                        | Ok (ClientRequest_Mutate data) =>
                            has_permission user [Permission_ClientWrite] && gateway_owns_client_id user (req_client_id data)
                        | Err _ => has_permission user [Permission_ClientRead]
                        end in
      if authorized then None
      else Some (client_reply (ev_group_id env) id (ClientReply_Denied "principal lacks permission or ownership for ClientOp"))
  | MsgType_SearchOp =>
      let required := match ev_group_id env with
                      | GroupId_Data _ => [Permission_Search; Permission_PeerRpc]
                      | GroupId_Meta => [Permission_Search]
                      end in
      if has_permission user required then None
      else Some (reply MsgType_SearchOp (ev_group_id env) id
                   (encode (SearchShardReply_Denied (R:=R) "principal lacks search permission")))
  | MsgType_MetaQuery =>
      if has_permission user [Permission_ClientRead; Permission_PeerRpc; Permission_Operator] then None
      else Some (reply MsgType_MetaQuery GroupId_Meta id [])
  | MsgType_SearchCatalogQuery =>
      if has_permission user [Permission_Search; Permission_PeerRpc; Permission_Operator] then None
      else Some (reply MsgType_SearchCatalogQuery GroupId_Meta id
                   (encode (SearchCatalogReply_Denied "principal lacks search permission")))
  | _ => None
  end.

(** The dispatch of an authorized frame. *)
Definition dispatch env : aio W Envelope :=
  let id := ev_request_id env in
  match ev_msg_type env with
  | MsgType_MetaQuery =>
      let local_only := match decode (A:=RoutingQuery) (ev_payload env) with Ok q => rq_local_only q | Err _ => false end in
      let~ info := infallible (gw_routing gw local_only) in
      aio_ret (reply MsgType_MetaQuery GroupId_Meta id (match info with Some info => encode info | None => [] end))
  | MsgType_ClientOp =>
      let~ r := handle_client_op env in aio_ret (client_reply (ev_group_id env) id r)
  | MsgType_SearchOp =>
      let~ r := match ev_group_id env with
                | GroupId_Meta => infallible (gw_coordinate gw env)
                | GroupId_Data _ => handle_search_op env
                end in
      aio_ret (reply MsgType_SearchOp (ev_group_id env) id (encode r))
  | MsgType_SearchCatalogQuery =>
      let~ r := handle_catalog_query env in aio_ret (reply MsgType_SearchCatalogQuery GroupId_Meta id (encode r))
  | _ => aio_ret (client_reply (ev_group_id env) id (ClientReply_Error "unsupported client msg_type"))
  end.

(** [serve_with_context]. *)
Definition serve_with_context env user : aio W Envelope :=
  let id := ev_request_id env in
  if negb (ev_cluster_id env =? gw_cluster_id gw)%N then
    aio_ret (match ev_msg_type env with
             | MsgType_SearchOp => reply MsgType_SearchOp (ev_group_id env) id (encode (SearchShardReply_Error (R:=R) "wrong cluster"))
             | MsgType_SearchCatalogQuery =>
                 reply MsgType_SearchCatalogQuery GroupId_Meta id (encode (SearchCatalogReply_Error "wrong cluster"))
             | _ => client_reply (ev_group_id env) id (ClientReply_Error "wrong cluster")
             end)
  else if is_peer_control (ev_msg_type env) then
    aio_ret (client_reply (ev_group_id env) id (ClientReply_Error (reject_display RejectFrame_PeerControlOnClientPath)))
  else match authorization env user with
       | Some denied => aio_ret denied
       | None => dispatch env
       end.
End gateway.
