(* ===== verification/Client.v ===== *)
(** * The client library (src/src/api/client.rs)

    Routing, the route cache, redirects and idempotent retry. A client runs
    against a world [W] behind the [Transport] class: a call may change the
    world in any way, take time, lose the request or the reply. The state is
    the client's with the world's; one mutation per partition runs at a time,
    as the stream locks enforce.

    The retry loop of [route] is bounded in rounds and, while candidates are
    recovering, in time; [Pending] stands for a loop cut short by its fuel. The last part
    shows that the loops keep what the transport keeps, and terminate. *)

From S2P Require Import Prelude BTree Types Codec Envelope ApplyDurability Aio DataSM Api.

Class Transport (W : Type) := {
  tr_call : string → Envelope → W → W * option Envelope;   (* [None]: unreachable or timed out *)
  tr_now : W → N;                                          (* milliseconds *)
  tr_sleep : N → W → W;
}.

Definition MAX_ROUNDS : nat := 16.
Definition RECOVERY_RETRY_WINDOW : N := 8000.
Definition RECOVERY_RETRY_DELAY : N := 100.

Record RedirectHints := mkRedirectHints {
  rh_learned_at : option LogId;
  rh_candidates : list NodeId;
}.
Definition RedirectHints_default : RedirectHints := mkRedirectHints None [].

(** The order of [(term, index)]. *)
Definition log_id_lt (a b : LogId) : bool :=
  ((log_term a <? log_term b) || ((log_term a =? log_term b) && (log_index a <? log_index b)))%N.

(** [RedirectHints::subsumed_by]. *)
Definition subsumed_by (h : RedirectHints) (log_id : LogId) : bool :=
  match rh_learned_at h with Some learned => log_id_lt learned log_id | None => true end.

Record Cache := mkCache {
  ch_routing : option RoutingInfo;
  ch_leader_hint : gmap N NodeId;
  ch_redirect_candidates : gmap N RedirectHints;
  ch_next_seq : gmap N N;
  ch_exhausted_streams : gset N;
}.
Definition Cache_default : Cache := mkCache None ∅ ∅ ∅ ∅.

Record PendingMutation := mkPending { pm_sequence : N; pm_op : DataOp }.

Record Client := mkClient {
  cl_cache : Cache;
  cl_pending : gmap N PendingMutation;
  cl_request_id : N;
  cl_rotation : N;
}.
(** [Client::new]. *)
Definition Client_new : Client := mkClient Cache_default ∅ 1 0.

Definition set_cache (c : Cache) (cl : Client) : Client := mkClient c (cl_pending cl) (cl_request_id cl) (cl_rotation cl).
Definition set_pending (p : gmap N PendingMutation) (cl : Client) : Client :=
  mkClient (cl_cache cl) p (cl_request_id cl) (cl_rotation cl).

Inductive RouteOrder :=
| RouteOrder_LeaderFirst
| RouteOrder_Spread (prefer_hint : bool).

Definition lead_with_hint (order : RouteOrder) : bool :=
  match order with RouteOrder_LeaderFirst => true | RouteOrder_Spread prefer_hint => prefer_hint end.

(** ** Sequences *)

(** [reserve_sequence]. *)
Definition reserve_sequence (partition : N) (cl : Client) : Client * N :=
  let c := cl_cache cl in
  match ch_next_seq c !! partition with
  | Some s => (cl, s)
  | None => (set_cache (mkCache (ch_routing c) (ch_leader_hint c) (ch_redirect_candidates c)
                          (<[partition := 1%N]> (ch_next_seq c)) (ch_exhausted_streams c)) cl, 1%N)
  end.

(** [next_mutation_sequence]. *)
Definition next_mutation_sequence (partition : N) (op : DataOp) : io Client N := λ cl,
  match cl_pending cl !! partition with
  | Some existing =>
      if bool_decide (pm_op existing = op) then (cl, Ok (pm_sequence existing))
      else (cl, Err (Error_Raft "mutation sequence is unresolved; retry that operation first"))
  | None =>
      if bool_decide (partition ∈ ch_exhausted_streams (cl_cache cl))
      then (cl, Err (Error_Raft "mutation sequence space is exhausted; use a new client_id"))
      else let '(cl, s) := reserve_sequence partition cl in (cl, Ok s)
  end.

(** [commit_sequence]. *)
Definition commit_sequence (partition decided : N) (cl : Client) : Client :=
  let c := cl_cache cl in
  let slot := default 1%N (ch_next_seq c !! partition) in
  let '(seqs, exhausted) :=
    if (slot <=? decided)%N then
      match checked_add u64_max decided 1 with
      | Some next => (<[partition := next]> (ch_next_seq c), ch_exhausted_streams c)
      | None => (delete partition (ch_next_seq c), {[partition]} ∪ ch_exhausted_streams c)
      end
    else (<[partition := slot]> (ch_next_seq c), ch_exhausted_streams c) in
  set_cache (mkCache (ch_routing c) (ch_leader_hint c) (ch_redirect_candidates c) seqs exhausted) cl.

(** ** Candidates *)

(** [rotate_left]. *)
Definition rotate_left {A} (n : nat) (l : list A) : list A := drop n l ++ take n l.

(** [candidate_nodes]. *)
Definition candidate_nodes (partition : N) (order : RouteOrder) (cl : Client) : Client * list NodeId :=
  let c := cl_cache cl in
  let hint := if lead_with_hint order then ch_leader_hint c !! partition else None in
  match ch_routing c with
  | None =>
      let out := default [] (rh_candidates <$> ch_redirect_candidates c !! partition) in
      (cl, match hint with Some hint => if bool_decide (hint ∈ out) then out else hint :: out | None => out end)
  | Some info =>
      let voters := routing_candidates info partition in
      let voters := match ch_redirect_candidates c !! partition with
                    | Some hints => push_new voters (rh_candidates hints)
                    | None => voters
                    end in
      let '(cl, voters) :=
        match order, voters with
        | RouteOrder_Spread _, _ :: _ =>
            (mkClient c (cl_pending cl) (cl_request_id cl) (wrapping_add u64_max (cl_rotation cl) 1),
             rotate_left (N.to_nat (cl_rotation cl mod N.of_nat (length voters))) voters)
        | _, _ => (cl, voters)
        end in
      (cl, push_new (match hint with Some hint => [hint] | None => [] end) voters)
  end.

(** [resolve_addr]. *)
Definition resolve_addr (node : NodeId) (cl : Client) : option string :=
  info ← ch_routing (cl_cache cl); control_addr info node.

(** [apply_redirect]. *)
Definition apply_redirect (partition : N) (from : NodeId) (r : Redirect) (cl : Client) : Client :=
  let c := cl_cache cl in
  let learned_at := info ← ch_routing c; placement_log_id info partition in
  let hints := default RedirectHints_default (ch_redirect_candidates c !! partition) in
  let hints := mkRedirectHints learned_at (push_new (rh_candidates hints) (rd_candidates r)) in
  let leader_hint :=
    match rd_leader r with
    | Some leader => <[partition := leader]> (ch_leader_hint c)
    | None => if bool_decide (ch_leader_hint c !! partition = Some from) then delete partition (ch_leader_hint c)
              else ch_leader_hint c
    end in
  set_cache (mkCache (ch_routing c) leader_hint (<[partition := hints]> (ch_redirect_candidates c))
               (ch_next_seq c) (ch_exhausted_streams c)) cl.

(** The cache update of [refresh_routing]. *)
Definition adopt_routing (info : RoutingInfo) (cl : Client) : Client :=
  let c := cl_cache cl in
  let subsumed '(partition, hints) :=
    match placement_log_id info partition with Some log_id => subsumed_by hints log_id | None => false end in
  set_cache (mkCache (Some info) (ch_leader_hint c) (filter (λ e, subsumed e = false) (ch_redirect_candidates c))
               (ch_next_seq c) (ch_exhausted_streams c)) cl.

(** ** Calls *)

Section client.
Context `{Transport W} `{Hashes} `{!Codec ClientRequest, !Codec ClientReply, !Codec RoutingInfo}.
Context (cluster_id client_id recovery_epoch : N) (seeds : list string).

Abbreviation cstate := (Client * W)%type.

Definition on_client {A} (f : Client → Client * A) : io cstate A := λ '(cl, w), let '(cl, a) := f cl in ((cl, w), Ok a).
Definition with_client {A} (m : io Client A) : io cstate A := λ '(cl, w), let '(cl, r) := m cl in ((cl, w), r).
Definition modify_client (f : Client → Client) : io cstate unit := λ '(cl, w), ((f cl, w), Ok tt).

(** [next_request_id]. *)
Definition next_request_id (cl : Client) : Client * N :=
  (mkClient (cl_cache cl) (cl_pending cl) (wrapping_add u64_max (cl_request_id cl) 1) (cl_rotation cl), cl_request_id cl).

(** A call of the transport with a fresh request id. *)
Definition call (addr : string) (mt : MsgType) (group : GroupId) (payload : bytes) : io cstate (option Envelope) := λ '(cl, w),
  let '(cl, id) := next_request_id cl in
  let '(w, r) := tr_call addr (mkEnvelope cluster_id mt group id payload) w in
  ((cl, w), Ok r).

(** [refresh_routing], over the remaining seeds. *)
Fixpoint refresh_from (seeds : list string) : io cstate unit :=
  match seeds with
  | [] => io_err (Error_Io "no seed answered a routing query")
  | addr :: seeds =>
      let? r := call addr MsgType_MetaQuery GroupId_Meta [] in
      match r with
      | None => refresh_from seeds
      | Some reply =>
          if negb (ev_cluster_id reply =? cluster_id)%N || negb (bool_decide (ev_msg_type reply = MsgType_MetaQuery))
          then refresh_from seeds
          else match decode (A:=RoutingInfo) (ev_payload reply) with
          | Err _ => refresh_from seeds
          | Ok info => if is_ok (routing_validate info cluster_id) then modify_client (adopt_routing info) else refresh_from seeds
          end
      end
  end.
Definition refresh_routing : io cstate unit := refresh_from seeds.

(** [routing_params] and [partition_of]. *)
Definition routing_params : io cstate (N * HashSpec) := λ '(cl, w),
  match ch_routing (cl_cache cl) with
  | Some info => ((cl, w), Ok (ri_p info, ri_hash_spec info))
  | None =>
      (refresh_routing ;;?
       io_read (λ '(cl, _), match ch_routing (cl_cache cl) with
                            | Some info => Ok (ri_p info, ri_hash_spec info)
                            | None => Err (Error_Io "unreachable: refresh_routing populates routing on success")
                            end)) (cl, w)
  end.
Definition client_partition_of (key : bytes) : io cstate N :=
  let? params := routing_params in io_ret (partition_of params.2 key params.1).

(** What a round of [route] has seen. *)
Record Round := mkRound {
  rn_redirected : bool;
  rn_waiting_for_recovery : bool;
  rn_recovery_since : option N;
}.
Definition waiting (now : N) (rn : Round) : Round :=
  mkRound (rn_redirected rn) true (Some (default now (rn_recovery_since rn))).
Definition redirected (rn : Round) : Round := mkRound true (rn_waiting_for_recovery rn) (rn_recovery_since rn).

(** The candidate loop of [route]: a reply for the caller, or the round's flags. *)
Fixpoint try_candidates (partition : N) (mt : MsgType) (group : GroupId) (payload : bytes) (rn : Round) (l : list NodeId)
    : io cstate (Round * option ClientReply) :=
  match l with
  | [] => io_ret (rn, None)
  | node :: l =>
      let? addr := io_read (λ '(cl, _), Ok (resolve_addr node cl)) in
      match addr with
      | None => try_candidates partition mt group payload rn l
      | Some addr =>
          let? r := call addr mt group payload in
          match r with
          | None => try_candidates partition mt group payload rn l
          | Some reply_env =>
              if negb (ev_cluster_id reply_env =? cluster_id)%N then io_err (Error_Raft "reply from another cluster")
              else
                let? now := io_read (λ '(_, w), Ok (tr_now w)) in
                match decode (A:=ClientReply) (ev_payload reply_env) with
                | Err _ => try_candidates partition mt group payload rn l
                | Ok ClientReply_Recovering => try_candidates partition mt group payload (waiting now rn) l
                | Ok (ClientReply_Redirect r) =>
                    let rn := match rd_leader r with None => waiting now rn | Some _ => rn end in
                    if negb (rd_cluster_id r =? cluster_id)%N then io_err (Error_Raft "redirect from another cluster")
                    else
                      modify_client (apply_redirect partition node r) ;;?
                      let rn := redirected rn in
                      if match rd_leader r with Some leader => negb (leader =? node)%N | None => false end
                      then io_ret (rn, None)
                      else try_candidates partition mt group payload rn l
                | Ok other => io_ret (rn, Some other)
                end
          end
      end
  end.

(** [let _ = ..]: the outcome is ignored. *)
Definition ignoring (m : io cstate unit) : io cstate unit := λ s, ((m s).1, Ok tt).

(** The loop of [route] after [rounds] rounds. *)
Fixpoint route_loop (fuel : nat) (partition : N) (mt : MsgType) (group : GroupId) (payload : bytes) (order : RouteOrder)
    (rounds : nat) (recovery_since : option N) : aio cstate ClientReply :=
  match fuel with
  | O => λ s, (s, Pending)
  | S fuel =>
      let rounds := S rounds in
      let~ candidates := aio_io (on_client (candidate_nodes partition order)) in
      let~ r := aio_io (try_candidates partition mt group payload (mkRound false false recovery_since) candidates) in
      match r with
      | (_, Some reply) => aio_ret reply
      | (rn, None) =>
          aio_io (if rn_redirected rn || rn_waiting_for_recovery rn then ignoring refresh_routing else refresh_routing) ;;~
          let~ now := aio_io (io_read (λ '(_, w), Ok (tr_now w))) in
          let within_recovery_window := rn_waiting_for_recovery rn &&
            match rn_recovery_since rn with Some since => (now - since <? RECOVERY_RETRY_WINDOW)%N | None => false end in
          if (MAX_ROUNDS <=? rounds) && negb within_recovery_window
          then aio_io (io_err (Error_Io "no candidate served the partition"))
          else
            aio_io (if rn_waiting_for_recovery rn then (λ '(cl, w), ((cl, tr_sleep RECOVERY_RETRY_DELAY w), Ok tt)) else io_ret tt) ;;~
            route_loop fuel partition mt group payload order rounds (rn_recovery_since rn)
      end
  end.

Definition validate_payload (mt : MsgType) (payload : bytes) : Result unit :=
  match validate_payload_len mt (byte_len payload) with
  | Ok _ => Ok tt
  | Err _ => Err (Error_Config "client request cannot be encoded")
  end.

(** [route]. *)
Definition route (fuel : nat) (partition : N) (mt : MsgType) (group : GroupId) (payload : bytes) (order : RouteOrder)
    : aio cstate ClientReply :=
  aio_io (io_read (λ _, validate_payload mt payload)) ;;~
  route_loop fuel partition mt group payload order 0 None.

(** ** Operations *)

Definition epoch_mismatch : Error := Error_Raft "recovery epoch mismatch".

(** What [mutate] makes of the reply to its request. *)
Definition resolve (partition sequence : N) (reply : ClientReply) : io Client WriteReply :=
  let release := io_modify (λ cl, set_pending (delete partition (cl_pending cl)) cl) in
  match reply with
  | ClientReply_RecoveryEpochMismatch _ _ => io_err epoch_mismatch
  | ClientReply_Mutation (WriteReply_Rejected (RejectReason_RecoveryEpochMismatch _ _)) => io_err epoch_mismatch
  | ClientReply_Mutation (WriteReply_Rejected reason) => release ;;? io_ret (WriteReply_Rejected reason)
  | ClientReply_Mutation w => io_modify (commit_sequence partition sequence) ;;? release ;;? io_ret w
  | ClientReply_Refused _ => release ;;? io_err (Error_Raft "write refused")
  | ClientReply_Error _ => io_err (Error_Raft "write rejected")
  | ClientReply_Unavailable _ => io_err (Error_Raft "write unavailable")
  | ClientReply_Denied _ => io_err (Error_Raft "write denied")
  | _ => io_err (Error_Raft "unexpected write reply")
  end.

(** [entry(partition).or_insert(..)]. *)
Definition mark_pending (partition sequence : N) (op : DataOp) (cl : Client) : Client :=
  match cl_pending cl !! partition with
  | Some _ => cl
  | None => set_pending (<[partition := mkPending sequence op]> (cl_pending cl)) cl
  end.

(** [mutate]. *)
Definition mutate (fuel : nat) (key : bytes) (op : DataOp) : aio cstate WriteReply :=
  let~ partition := aio_io (client_partition_of key) in
  let~ sequence := aio_io (with_client (next_mutation_sequence partition op)) in
  let payload := encode (ClientRequest_Mutate (mkDataRequest recovery_epoch client_id sequence op)) in
  aio_io (io_read (λ _, validate_payload MsgType_ClientOp payload)) ;;~
  aio_io (modify_client (mark_pending partition sequence op)) ;;~
  let~ reply := route fuel partition MsgType_ClientOp (GroupId_Data partition) payload RouteOrder_LeaderFirst in
  aio_io (with_client (resolve partition sequence reply)).

(** [put] and [delete]. *)
Definition client_put (fuel : nat) (key value : bytes) (if_version : option IfVersion) : aio cstate WriteReply :=
  if (MAX_VALUE_BYTES <? byte_len value)%N then aio_io (io_err (Error_Config "value exceeds byte limit"))
  else mutate fuel key (DataOp_Put key value if_version).
Definition client_delete (fuel : nat) (key : bytes) (if_version : option IfVersion) : aio cstate WriteReply :=
  mutate fuel key (DataOp_Delete key if_version).

(** [get_with]. *)
Definition get_with (fuel : nat) (key : bytes) (consistency : Consistency) : aio cstate (option (N * bytes)) :=
  let~ partition := aio_io (client_partition_of key) in
  let order := match consistency with
               | Consistency_Linearizable => RouteOrder_LeaderFirst
               | Consistency_Stale min_version => RouteOrder_Spread (bool_decide (is_Some min_version))
               end in
  let~ reply := route fuel partition MsgType_ClientOp (GroupId_Data partition)
                  (encode (ClientRequest_Read key consistency)) order in
  match reply with
  | ClientReply_Value v => aio_ret v
  | ClientReply_Refused _ => aio_io (io_err (Error_Raft "read refused"))
  | ClientReply_Error _ => aio_io (io_err (Error_Raft "read rejected"))
  | ClientReply_Unavailable _ => aio_io (io_err (Error_Raft "read unavailable"))
  | ClientReply_Denied _ => aio_io (io_err (Error_Raft "read denied"))
  | _ => aio_io (io_err (Error_Raft "unexpected read reply"))
  end.
End client.

(** ** What the client's loops do to a state

    The routing loops keep whatever the transport's calls, sleeping and changes to the route
    cache keep; then, with a clock, the retry loop terminates. *)
(** Everything of the client that its mutation streams depend on. *)
Definition same_streams (cl cl' : Client) : Prop :=
  ch_next_seq (cl_cache cl') = ch_next_seq (cl_cache cl) ∧
  ch_exhausted_streams (cl_cache cl') = ch_exhausted_streams (cl_cache cl) ∧ cl_pending cl' = cl_pending cl.

Lemma same_adopt info cl : same_streams cl (adopt_routing info cl).
Proof. done. Qed.
Lemma same_redirect p from r cl : same_streams cl (apply_redirect p from r cl).
Proof. done. Qed.
Lemma same_candidates p order cl : same_streams cl (candidate_nodes p order cl).1.
Proof.
  unfold candidate_nodes. destruct (ch_routing (cl_cache cl)); [|done].
  destruct order; [done|]. by destruct (match ch_redirect_candidates (cl_cache cl) !! p with Some _ => _ | None => _ end).
Qed.

Section keeps.
Context `{Transport W} `{Hashes} `{!Codec ClientRequest, !Codec ClientReply, !Codec RoutingInfo}.
Context (R : relation (Client * W)) `{!PreOrder R}.

Lemma keeps_ignoring m : keeps R m → keeps R (ignoring m).
Proof. intros Hm s s' r. unfold ignoring. destruct (m s) as [s1 x] eqn:E. intros [= <- _]. by eapply Hm. Qed.

Section routing.
Context (cluster_id : N) (Rclient : ∀ cl cl' w, same_streams cl cl' → R (cl, w) (cl', w))
  (Rmeta : ∀ addr, keeps R (call cluster_id addr MsgType_MetaQuery GroupId_Meta [])).

Lemma keeps_modify f : (∀ cl, same_streams cl (f cl)) → keeps R (modify_client f).
Proof. intros Hf [cl w] s' r [= <- _]. apply Rclient, Hf. Qed.
Lemma keeps_on_client {A} (f : Client → Client * A) : (∀ cl, same_streams cl (f cl).1) → keeps R (on_client f).
Proof.
  intros Hf [cl w] s' r. unfold on_client. destruct (f cl) as [cl' a] eqn:E. intros [= <- _].
  apply Rclient. pose proof (Hf cl) as Hs. by rewrite E in Hs.
Qed.

Lemma keeps_refresh seeds : keeps R (refresh_from (W:=W) cluster_id seeds).
Proof.
  induction seeds as [|addr seeds IH]; [apply (keeps_err R)|]. cbn [refresh_from]. apply (keeps_bind R); [apply Rmeta|].
  intros [reply|]; [|done]. destruct (_ || _); [done|]. destruct (decode _); [|done].
  destruct (is_ok _); [apply keeps_modify; intros; apply same_adopt|done].
Qed.

Lemma keeps_partition_of seeds key : keeps R (client_partition_of (W:=W) cluster_id seeds key).
Proof.
  apply (keeps_bind R); [|intros; apply (keeps_ret R)]. intros [cl w] s' r. unfold routing_params. destruct (ch_routing _).
  - by intros [= <- _].
  - apply (keeps_bind R (refresh_routing cluster_id seeds)); [apply keeps_refresh|intros; apply (keeps_read R)].
Qed.

Context (mt : MsgType) (group : GroupId) (payload : bytes) (Rcall : ∀ addr, keeps R (call cluster_id addr mt group payload))
  (Rsleep : ∀ n cl w, R (cl, w) (cl, tr_sleep n w)).

Lemma keeps_candidates p l : ∀ rn, keeps R (try_candidates (W:=W) cluster_id p mt group payload rn l).
Proof.
  induction l as [|node l IH]; intros rn; [apply (keeps_ret R)|]. cbn [try_candidates].
  apply (keeps_bind R); [apply (keeps_read R)|]. intros [addr|]; [|apply IH].
  apply (keeps_bind R); [apply Rcall|]. intros [env|]; [|apply IH]. destruct (negb _); [apply (keeps_err R)|].
  apply (keeps_bind R); [apply (keeps_read R)|]. intros now. destruct (decode _) as [[]|]; try apply (keeps_ret R); try apply IH.
  destruct (negb _); [apply (keeps_err R)|]. apply (keeps_bind R); [apply keeps_modify; intros; apply same_redirect|].
  intros _. match goal with |- keeps R (if ?b then _ else _) => destruct b end; [apply (keeps_ret R)|apply IH].
Qed.

Lemma keeps_sleep (b : bool) : keeps R (if b then (λ '(cl, w), ((cl, tr_sleep RECOVERY_RETRY_DELAY w), Ok tt)) else io_ret tt).
Proof. destruct b; [|apply (keeps_ret R)]. intros [cl w] s' r [= <- _]. apply Rsleep. Qed.

Lemma akeeps_loop seeds p order fuel : ∀ rounds since,
  akeeps R (route_loop (W:=W) cluster_id seeds fuel p mt group payload order rounds since).
Proof.
  induction fuel as [|fuel IH]; intros rounds since; cbn [route_loop]; [by intros s s' r [= <- _]|].
  apply (akeeps_bind R); [apply (akeeps_io R), keeps_on_client, same_candidates|]. intros l.
  apply (akeeps_bind R); [apply (akeeps_io R), keeps_candidates|]. intros [rn [reply|]]; [by intros s s' r [= <- _]|].
  apply (akeeps_bind R). { apply (akeeps_io R). destruct (_ || _); [apply keeps_ignoring|]; apply keeps_refresh. }
  intros _. apply (akeeps_bind R); [apply (akeeps_io R), (keeps_read R)|]. intros now.
  match goal with |- akeeps R (if ?b then _ else _) => destruct b end; [apply (akeeps_io R), (keeps_err R)|].
  apply (akeeps_bind R); [apply (akeeps_io R), keeps_sleep|intros; apply IH].
Qed.

Lemma akeeps_route seeds p order fuel : akeeps R (route (W:=W) cluster_id seeds fuel p mt group payload order).
Proof. apply (akeeps_bind R); [apply (akeeps_io R), (keeps_read R)|intros; apply akeeps_loop]. Qed.
End routing.
End keeps.

(** ** Termination *)

(** The clock: it does not run backwards over a call, and a sleep lasts at least its length. *)
Class ClockOk (W : Type) `{Transport W} : Prop := {
  clock_call addr env w w' r : tr_call addr env w = (w', r) → (tr_now w ≤ tr_now w')%N;
  clock_sleep n w : (tr_now w + n ≤ tr_now (tr_sleep n w))%N;
}.

Section clock.
Context `{ClockOk W} `{Hashes} `{!Codec ClientRequest, !Codec ClientReply, !Codec RoutingInfo}.
Context (cluster_id : N) (seeds : list string).
Implicit Types (s : Client * W) (since : option N) (rn : Round).

Definition later s s' : Prop := (tr_now s.2 ≤ tr_now s'.2)%N.
#[local] Instance later_preorder : PreOrder later.
Proof. unfold later. split; [intros s; lia|intros s1 s2 s3; lia]. Qed.

Lemma later_client cl cl' (w : W) : same_streams cl cl' → later (cl, w) (cl', w).
Proof. intros _. unfold later. cbn. lia. Qed.
Lemma later_call addr mt group payload : keeps later (call cluster_id addr mt group payload).
Proof.
  intros [cl w] s' r. unfold call, later. destruct (next_request_id cl) as [cl' id].
  destruct (tr_call addr _ w) as [w' x] eqn:E. intros [= <- _]. cbn. by eapply clock_call.
Qed.

Lemma later_refresh (b : bool) : keeps later (if b then ignoring (refresh_routing cluster_id seeds) else refresh_routing cluster_id seeds).
Proof. destruct b; [apply keeps_ignoring|]; (apply keeps_refresh; [apply _|apply later_client|intros; apply later_call]). Qed.
Lemma later_candidates p mt group payload rn l : keeps later (try_candidates cluster_id p mt group payload rn l).
Proof. apply keeps_candidates; [apply _|apply later_client|intros; apply later_call]. Qed.
Lemma later_nodes p order : keeps later (on_client (W:=W) (candidate_nodes p order)).
Proof. apply keeps_on_client; [apply later_client|apply same_candidates]. Qed.

(** Recovery began in the past, and for how long it has gone on. *)
Definition since_ok since s : Prop := ∀ t, since = Some t → (t ≤ tr_now s.2)%N.
Definition elapsed since s : N := match since with Some t => tr_now s.2 - t | None => 0 end.

Lemma since_later since s s' : later s s' → since_ok since s → since_ok since s' ∧ (elapsed since s ≤ elapsed since s')%N.
Proof. unfold later, since_ok, elapsed. intros Hl Ho. split; [intros t Ht; specialize (Ho t Ht)|destruct since]; lia. Qed.

(** A round's flags: waiting means that the start of recovery is recorded, and a start once recorded stays. *)
Definition round_ok rn : Prop := rn_waiting_for_recovery rn = true → is_Some (rn_recovery_since rn).
Definition progress rn rn' s' : Prop :=
  round_ok rn' ∧ since_ok (rn_recovery_since rn') s' ∧ ∀ t, rn_recovery_since rn = Some t → rn_recovery_since rn' = Some t.

Lemma progress_waiting rn s : since_ok (rn_recovery_since rn) s → progress rn (waiting (tr_now s.2) rn) s.
Proof.
  intros Ho. split_and!; [by eexists| |by intros t Et; cbn; rewrite Et]. intros t [= <-]. destruct (rn_recovery_since rn) as [t|]; cbn; [by apply Ho|lia].
Qed.

Lemma progress_trans rn rn1 rn2 s : progress rn rn1 s → progress rn1 rn2 s → progress rn rn2 s.
Proof. intros (_ & _ & H12) (? & ? & H23). split_and!; auto. Qed.

Lemma candidates_progress p mt group payload l : ∀ rn s s' rn' o,
  try_candidates cluster_id p mt group payload rn l s = (s', Ok (rn', o)) →
  round_ok rn → since_ok (rn_recovery_since rn) s → progress rn rn' s'.
Proof.
  induction l as [|node l IH]; intros rn s s' rn' o E Hr Hs; cbn [try_candidates] in E; [by injection E as <- <- _; split_and!|].
  destruct s as [cl w]. apply io_bind_ok in E as (s0 & o1 & E1 & E). injection E1 as <- <-.
  destruct (resolve_addr node cl) as [addr|]; [|by eapply IH].
  apply io_bind_ok in E as (s1 & r & Ec & E). apply later_call in Ec as Hl.
  destruct (since_later _ _ _ Hl Hs) as [Hs1 _]. destruct r as [env|]; [|by eapply IH].
  destruct (negb _); [done|]. destruct s1 as [cl1 w1]. apply io_bind_ok in E as (s2 & now & E1 & E). injection E1 as <- <-.
  pose proof (progress_waiting rn (cl1, w1) Hs1) as Hw. pose proof Hw as (Hw1 & Hw2 & _).
  destruct (decode _) as [[| | |red| | | | |]|]; try (by injection E as <- <- _; split_and!); try (by eapply IH).
  - set (rn1 := match rd_leader red with None => waiting _ rn | Some _ => rn end) in E.
    assert (progress rn rn1 (cl1, w1)) as Hp by (subst rn1; by destruct (rd_leader red)).
    destruct (negb _); [done|]. apply io_bind_ok in E as (s2 & [] & E1 & E). injection E1 as <-.
    match type of E with (if ?b then _ else _) _ = _ => destruct b end.
    + injection E as <- <- _. exact Hp.
    + destruct Hp as (Ho & Hs2 & Ht). destruct (IH _ _ _ _ _ E Ho Hs2) as (? & ? & ?). split_and!; auto.
  - destruct (IH _ _ _ _ _ E Hw1 Hw2) as (? & ? & Ht). split_and!; [done..|]. intros t Et. apply Ht. cbn. by rewrite Et.
Qed.

Section loop.
Context (p : N) (mt : MsgType) (group : GroupId) (payload : bytes) (order : RouteOrder).

Lemma sleep_spec (b : bool) cl w s' :
  (if b then (λ '(cl, w), ((cl, tr_sleep RECOVERY_RETRY_DELAY w), Ok tt)) else io_ret tt) (cl, w) = (s', Ok tt) →
  (tr_now w + (if b then RECOVERY_RETRY_DELAY else 0) ≤ tr_now s'.2)%N.
Proof. destruct b; intros [= <-]; cbn [snd]; [apply clock_sleep|lia]. Qed.

(** Rounds before the [MAX_ROUNDS]th continue freely; from then on every round that
    continues sleeps within the recovery window. *)
Lemma loop_settles m : ∀ n rounds since s, 15 - rounds + n = m → since_ok since s →
  (RECOVERY_RETRY_WINDOW ≤ elapsed since s + RECOVERY_RETRY_DELAY * N.of_nat n)%N →
  settles (λ fuel, route_loop cluster_id seeds fuel p mt group payload order rounds since) (S m) s.
Proof.
  induction m as [m IH] using lt_wf_ind. intros n rounds since s Hm Hs He. apply settles_step. cbn [route_loop].
  apply settles_io. intros s1 l E1. apply later_nodes in E1.
  destruct (since_later _ _ _ E1 Hs) as [Hs1 He1].
  apply settles_io. intros s2 [rn o] E2.
  apply later_candidates in E2 as Hl2. apply candidates_progress in E2 as (Hr & Hs2 & Ht); [|done..].
  assert (elapsed since s1 ≤ elapsed (rn_recovery_since rn) s2)%N as He2.
  { destruct since as [t|]; [|cbn; lia]. rewrite (Ht t) by done. by apply since_later. }
  destruct o as [reply|]; [by eapply settles_ready|].
  apply settles_io. intros s3 [] E3.
  apply later_refresh in E3. destruct (since_later _ _ _ E3 Hs2) as [Hs3 He3].
  apply settles_io. intros s4 now E4. destruct s3 as [cl w]. injection E4 as <- <-.
  destruct ((MAX_ROUNDS <=? S rounds) && _) eqn:Eb; [by eapply settles_ready|].
  apply settles_io. intros s5 [] E5%sleep_spec.
  assert (later (cl, w) s5) as [Hs5 He5]%(since_later (rn_recovery_since rn)); [unfold later; cbn [snd]; lia| |done].
  unfold RECOVERY_RETRY_WINDOW, RECOVERY_RETRY_DELAY in *. apply andb_false_iff in Eb as [Eb%Nat.leb_gt|[Ew Et]%negb_false_iff%andb_true_iff].
  - unfold MAX_ROUNDS in Eb. eapply settles_mono; [apply (IH (15 - S rounds + n)) with (n := n)|]; [lia|done|done|lia..].
  - rewrite Ew in E5. destruct (rn_recovery_since rn) as [t|]; [|done]. apply N.ltb_lt in Et.
    specialize (Hs3 t eq_refl). cbn [elapsed snd] in *.
    destruct n as [|n]; [lia|].
    eapply settles_mono; [apply (IH (15 - S rounds + n)) with (n := n)|]; [lia|done|done|cbn [elapsed]; lia..].
Qed.

Lemma route_settles s : settles (λ fuel, route cluster_id seeds fuel p mt group payload order) 96 s.
Proof.
  apply settles_io. intros s1 [] E. injection E as <- _. apply (loop_settles 95 80); [done|done|].
  cbn [elapsed]. unfold RECOVERY_RETRY_WINDOW, RECOVERY_RETRY_DELAY. lia.
Qed.
End loop.

Context (client_id recovery_epoch : N) `{!Codec DataOp}.

Lemma mutate_settles key op s : settles (λ fuel, mutate cluster_id client_id recovery_epoch seeds fuel key op) 96 s.
Proof.
  apply settles_io. intros s1 p _. apply settles_io. intros s2 sequence _. apply settles_io. intros s3 [] _.
  apply settles_io. intros s4 [] _. apply settles_bind, route_settles. intros reply [cl w]. unfold aio_io, with_client.
  destruct (resolve _ _ _ _). by do 2 eexists.
Qed.

(** C15: with a clock that does not run backwards and sleeps at least as long
    as asked, the client's calls return whatever the network and the nodes
    answer: 96 rounds always suffice, and the result does not depend on how many
    more are allowed. Rounds before the sixteenth may continue
    freely; later ones only while waiting for a recovering node, 100 ms apart,
    within a window of 8 s. *)
Theorem client_calls_return s key value if_version consistency :
  settles (λ fuel, client_put cluster_id client_id recovery_epoch seeds fuel key value if_version) 96 s ∧
  settles (λ fuel, client_delete cluster_id client_id recovery_epoch seeds fuel key if_version) 96 s ∧
  settles (λ fuel, get_with cluster_id seeds fuel key consistency) 96 s.
Proof.
  split_and!; [|apply mutate_settles|].
  - unfold client_put. destruct (_ <? _)%N; [by eapply settles_ready|apply mutate_settles].
  - apply settles_io. intros s1 p _. apply settles_bind, route_settles. intros [] s2; by do 2 eexists.
Qed.
End clock.
