(* ===== verification/SearchStore.v ===== *)
(** * The search journal of a node (src/src/storage/rocks.rs, search section)

    Every applied batch leaves a dirty-key entry in a per-group outbox in the
    default column family, ordered by projection epoch and source log index.
    Local search indexes are consumers of the outbox: a consumer record holds
    its checkpoint, the floor of a rebuild in progress and whether it has been
    released. Pruning deletes the prefix of the outbox no consumer needs. The
    [search_lifecycle] lock makes each operation a critical section; the two
    operations that prune after leaving it are the compositions they are in
    the source. *)

From S2P Require Import Prelude BTree Types Codec SearchDef Keyspace Outbox ApplyDurability Rocks Storage DataSM.

Section search_store.
Context `{Rocks D} `{!Codec U64, !Codec string, !Codec RaftApplied, !Codec SearchConsumerState, !Codec KeyRecord}
  `{Hashes} `{!Codec SearchIndexDefinition}.
Implicit Types (s : Storage D) (group : GroupId) (name : string).

(** [.unwrap_or(1)] on a typed read. *)
Definition or_one (r : Result (option N)) : Result N := default 1%N <$> r.

(** [search_projection_epoch]: epoch one is implicit. *)
Definition search_projection_epoch s group : Result N :=
  match group with
  | GroupId_Data _ => or_one (get_local U64 s (search_epoch_key group))
  | GroupId_Meta => Err (Error_Search "search projection requires a data group")
  end.

(** [scan_search_outbox]. *)
Definition scan_search_outbox s group (epoch : N) : Result (list SearchOutboxEntry) :=
  mapR (λ kv, decode_outbox_key group kv.1)
    (scan_prefix (st_db s) DEFAULT_CF (search_outbox_epoch_prefix group epoch)).

Definition consumer_corrupt (message : string) : Error := Error_Corrupt "search consumer" message.

Definition read_consumer s group name (generation : N) : Result (option SearchConsumerState) :=
  get_local SearchConsumerState s (search_consumer_key group name generation).

(** [register_search_consumer]. *)
Definition register_search_consumer group name (generation : SearchIndexGeneration)
    : io (Storage D) SearchConsumerRegistration :=
  io_read (λ _, validate_index_name name) ;;?
  io_read (λ _, validate_identity generation) ;;?
  let? existing := io_read (λ s, read_consumer s group name (sg_id generation)) in
  match existing with
  | Some existing =>
      if negb (bool_decide (cs_definition_hash existing = sg_definition_hash generation)) ||
         negb (cs_engine_revision existing =? sg_engine_revision generation)%N
      then io_err (consumer_corrupt "consumer identity differs from catalog generation")
      else io_ret (mkRegistration false (bool_decide (cs_checkpoint existing = None)))
  | None =>
      put_local (search_consumer_key group name (sg_id generation))
        (mkConsumer (sg_definition_hash generation) (sg_engine_revision generation) None None false) ;;?
      io_ret (mkRegistration true true)
  end.

(** [record_search_consumer_retention_floor]. *)
Definition record_search_consumer_retention_floor group name (generation : N) (floor : N * N)
    : io (Storage D) unit :=
  let? state := io_read (λ s, read_consumer s group name generation) in
  match state with
  | None => io_ret tt
  | Some state =>
      put_local (search_consumer_key group name generation)
        (mkConsumer (cs_definition_hash state) (cs_engine_revision state) (cs_checkpoint state)
           (Some floor) (cs_needs_rebuild state))
  end.

(** [search_consumer_needs_rebuild] and [search_consumer_checkpoint]. *)
Definition search_consumer_needs_rebuild s group name (generation : N) : Result bool :=
  let! state := read_consumer s group name generation in
  Ok (match state with Some state => cs_needs_rebuild state | None => false end).
Definition search_consumer_checkpoint s group name (generation : N) : Result (option IndexCheckpoint) :=
  let! state := read_consumer s group name generation in Ok (state ≫= cs_checkpoint).

(** [record_search_consumer_checkpoint]. *)
Definition record_search_consumer_checkpoint group name (generation : N) (checkpoint : IndexCheckpoint)
    : io (Storage D) unit :=
  let? state := io_read (λ s, read_consumer s group name generation) in
  match state with
  | None => io_err (consumer_corrupt "checkpoint written for an unregistered consumer")
  | Some state =>
      if negb (bool_decide (cs_definition_hash state = ck_definition_hash checkpoint)) ||
         negb (cs_engine_revision state =? ck_engine_revision checkpoint)%N
      then io_err (consumer_corrupt "checkpoint identity differs from consumer")
      else if cs_needs_rebuild state
      then io_err (Error_Search "search consumer was released from retention while projection was running")
      else put_local (search_consumer_key group name generation)
        (mkConsumer (cs_definition_hash state) (cs_engine_revision state) (Some checkpoint)
           (cs_retention_floor state) false)
  end.

(** [search_outbox_usage]: entries and key bytes. *)
Definition search_outbox_usage s group : N * N :=
  foldl (λ '(entries, bytes) kv, (entries + 1, bytes + N.of_nat (length kv.1)))%N (0, 0)%N
    (scan_prefix (st_db s) DEFAULT_CF (search_outbox_prefix group)).

(** [search_consumers]. *)
Definition search_consumers s group : Result (list (bytes * SearchConsumerState)) :=
  mapR (λ kv, let! c := decode (A:=SearchConsumerState) kv.2 in Ok (kv.1, c))
    (scan_prefix (st_db s) DEFAULT_CF (search_consumer_prefix group)).

(** [begin_search_consumer_rebuild]. *)
Definition begin_search_consumer_rebuild group name (generation : SearchIndexGeneration) : io (Storage D) unit :=
  let? state := io_read (λ s, read_consumer s group name (sg_id generation)) in
  match state with
  | None => io_err (consumer_corrupt "rebuild started for an unregistered consumer")
  | Some state =>
      if negb (bool_decide (cs_definition_hash state = sg_definition_hash generation)) ||
         negb (cs_engine_revision state =? sg_engine_revision generation)%N
      then io_err (consumer_corrupt "rebuild identity differs from consumer")
      else put_local (search_consumer_key group name (sg_id generation))
        (mkConsumer (cs_definition_hash state) (cs_engine_revision state) None (cs_retention_floor state) false)
  end.

(** The watermark of one consumer in [prune_search_outbox]; [None] retains everything. *)
Definition prune_watermark (epoch : N) (c : SearchConsumerState) : option N :=
  match cs_checkpoint c, cs_retention_floor c with
  | Some checkpoint, _ =>
      if (ck_projection_epoch checkpoint =? epoch)%N then rl_index <$> ck_source_log_id checkpoint else None
  | None, Some (floor_epoch, floor) => if (floor_epoch =? epoch)%N then Some floor else None
  | None, None => None
  end.

(** Its loop: the least watermark, or the early return. *)
Fixpoint prune_minimum (epoch : N) (minimum : option N) (l : list SearchConsumerState) : option (option N) :=
  match l with
  | [] => Some minimum
  | c :: l =>
      match prune_watermark epoch c with
      | None => None
      | Some w => prune_minimum epoch (Some (match minimum with Some lowest => N.min lowest w | None => w end)) l
      end
  end.

Definition covered (consumers : list SearchConsumerState) (epoch : N) (minimum : option N)
    (entry : SearchOutboxEntry) : bool :=
  bool_decide (consumers = []) || (oe_epoch entry <? epoch)%N ||
  (oe_epoch entry =? epoch)%N &&
    match minimum with Some minimum => (rl_index (oe_source_log_id entry) <=? minimum)%N | None => false end.

(** The scan: the keys up to the first entry that is not covered. *)
Fixpoint prune_scan group (cov : SearchOutboxEntry → bool) (kvs : list (bytes * bytes)) : Result (list bytes) :=
  match kvs with
  | [] => Ok []
  | kv :: kvs =>
      let! entry := decode_outbox_key group kv.1 in
      if cov entry then let! rest := prune_scan group cov kvs in Ok (kv.1 :: rest) else Ok []
  end.

(** [prune_search_outbox]. *)
Definition prune_search_outbox group : io (Storage D) nat := λ s,
  match (let! consumers := search_consumers s group in
         let consumers := filter (λ c, holds_retention c = true) consumers.*2 in
         let! epoch := search_projection_epoch s group in
         match prune_minimum epoch None consumers with
         | None => Ok []
         | Some minimum =>
             prune_scan group (covered consumers epoch minimum)
               (scan_prefix (st_db s) DEFAULT_CF (search_outbox_prefix group))
         end) with
  | Err e => (s, Err e)
  | Ok [] => (s, Ok 0)
  | Ok keys => (set_db (write (st_db s) (BatchDelete DEFAULT_CF <$> keys)) s, Ok (length keys))
  end.

(** [unregister_search_consumer]. *)
Definition unregister_search_consumer group name (generation : N) : io (Storage D) unit :=
  delete_local (search_consumer_key group name generation) ;;?
  prune_search_outbox group ;;? io_ret tt.

(** The watermark [enforce_search_outbox_bounds] compares consumers by. *)
Definition lag_watermark (epoch : N) (c : SearchConsumerState) : N :=
  match cs_checkpoint c, cs_retention_floor c with
  | Some checkpoint, _ => match ck_source_log_id checkpoint with Some log_id => rl_index log_id | None => 0 end
  | None, Some (floor_epoch, floor) => if (floor_epoch =? epoch)%N then floor else 0
  | None, None => 0
  end%N.

(** Its loop: the first consumer with the least watermark. *)
Definition laggard_step (epoch : N) (best : option (bytes * SearchConsumerState * N))
    (kc : bytes * SearchConsumerState) : option (bytes * SearchConsumerState * N) :=
  if negb (holds_retention kc.2) then best
  else let watermark := lag_watermark epoch kc.2 in
       match best with
       | Some (_, _, lowest) => if (watermark <? lowest)%N then Some (kc, watermark) else best
       | None => Some (kc, watermark)
       end.
Definition laggard (epoch : N) (l : list (bytes * SearchConsumerState)) : option (bytes * SearchConsumerState) :=
  fst <$> foldl (laggard_step epoch) None l.

Definition released (c : SearchConsumerState) : SearchConsumerState :=
  mkConsumer (cs_definition_hash c) (cs_engine_revision c) None None true.

(** [enforce_search_outbox_bounds]. *)
Definition enforce_search_outbox_bounds group (max_entries max_bytes : N) : io (Storage D) (option (string * N)) :=
  let? usage := io_read (λ s, Ok (search_outbox_usage s group)) in
  if ((usage.1 <=? max_entries) && (usage.2 <=? max_bytes))%N then io_ret None else
  let? epoch := io_read (λ s, search_projection_epoch s group) in
  let? consumers := io_read (λ s, search_consumers s group) in
  match laggard epoch consumers with
  | None => io_ret None
  | Some (key, state) =>
      put_local key (released state) ;;?
      let? identity := io_read (λ _, decode_search_consumer_key group key) in
      prune_search_outbox group ;;? io_ret (Some identity)
  end.

(** [SearchSourceView]: a snapshot of the store with its epoch and applied prefix. *)
Record SearchSourceView := mkSourceView {
  sv_db : D;
  sv_cf : string;
  sv_group : GroupId;
  sv_epoch : N;
  sv_applied : option RaftLogId;
}.

(** [with_search_source_view]. *)
Definition search_source_view s group : Result SearchSourceView :=
  match group with
  | GroupId_Meta => Err (Error_Search "search projection requires a data group")
  | GroupId_Data _ =>
      let! cf := state_cf s group in
      let! epoch := or_one (get_local U64 s (search_epoch_key group)) in
      let! applied := decode_opt (T:=RaftApplied) (get_cf (st_db s) cf raft_applied_key) in
      Ok (mkSourceView (st_db s) cf group epoch (applied ≫= ra_applied))
  end.

(** [with_search_epoch_fence]: the guard around a publication. *)
Definition with_search_epoch_fence {A} group (epoch : N) (publish : io (Storage D) A) : io (Storage D) A :=
  let? current := io_read (λ s, search_projection_epoch s group) in
  if negb (current =? epoch)%N then io_err (Error_Search "source epoch changed during search projection")
  else publish.

(** [for_each_user]: the rows visited, in key order. *)
Definition for_each_user (v : SearchSourceView) : Result (list (bytes * (N * bytes))) :=
  mapR (λ kv, let! r := decode (A:=KeyRecord) kv.2 in Ok (drop 1 kv.1, (kr_version r, kr_value r)))
    (take_while (λ kv, starts_with [TAG_USER] kv.1) (iter_from (sv_db v) (sv_cf v) [TAG_USER])).

(** One row of [for_each_dirty]: the current record of a dirty key. *)
Definition dirty_row (v : SearchSourceView) (entry : SearchOutboxEntry) : Result (bytes * option (N * bytes)) :=
  let! r := decode_opt (T:=KeyRecord) (get_cf (sv_db v) (sv_cf v) (user_key (oe_user_key entry))) in
  Ok (oe_user_key entry, (λ r, (kr_version r, kr_value r)) <$> r).

Fixpoint dirty_rows (v : SearchSourceView) (through : N) (keys : list bytes)
    : Result (list (bytes * option (N * bytes))) :=
  match keys with
  | [] => Ok []
  | key :: keys =>
      let! entry := decode_outbox_key (sv_group v) key in
      if (through <? rl_index (oe_source_log_id entry))%N then Ok []
      else let! row := dirty_row v entry in
           let! rest := dirty_rows v through keys in Ok (row :: rest)
  end.

(** [for_each_dirty]: the entries of the current epoch after [after]. *)
Definition for_each_dirty (v : SearchSourceView) (after : N) : Result (list (bytes * option (N * bytes))) :=
  match checked_add u64_max after 1 with
  | None => Ok []
  | Some first =>
      let prefix := search_outbox_epoch_prefix (sv_group v) (sv_epoch v) in
      let through := match sv_applied v with Some id => rl_index id | None => 0%N end in
      dirty_rows v through
        (take_while (λ kv, starts_with prefix kv.1) (iter_from (sv_db v) DEFAULT_CF (prefix ++ be_bytes 8 first))).*1
  end.
End search_store.

(** ** What a consumer gives up *)

(** An entry at or before a position of an epoch, in journal order. *)
Definition at_or_before (e : SearchOutboxEntry) (epoch index : N) : Prop :=
  (oe_epoch e < epoch)%N ∨ oe_epoch e = epoch ∧ (rl_index (oe_source_log_id e) ≤ index)%N.

(** A consumer no longer needs an entry: its checkpoint of the current epoch
    is at or past it, or it is rebuilding from a snapshot at or past it. *)
Inductive discards (epoch : N) (c : SearchConsumerState) (e : SearchOutboxEntry) : Prop :=
| discards_checkpoint ck l :
    cs_checkpoint c = Some ck → ck_projection_epoch ck = epoch → ck_source_log_id ck = Some l →
    at_or_before e epoch (rl_index l) → discards epoch c e
| discards_floor floor :
    cs_checkpoint c = None → cs_retention_floor c = Some (epoch, floor) →
    at_or_before e epoch floor → discards epoch c e.

Lemma prune_watermark_spec epoch c e :
  discards epoch c e ↔ ∃ w, prune_watermark epoch c = Some w ∧ at_or_before e epoch w.
Proof.
  unfold prune_watermark. split.
  - intros [ck l -> <- Hl Hb|floor -> -> Hb]; [|rewrite N.eqb_refl; eauto].
    rewrite N.eqb_refl, Hl. simpl. eauto.
  - intros (w & Hw & Hb). destruct (cs_checkpoint c) as [ck|] eqn:Ec.
    + destruct (N.eqb_spec (ck_projection_epoch ck) epoch); [|done].
      destruct (ck_source_log_id ck) as [l|] eqn:El; [|done]. injection Hw as <-. by eapply discards_checkpoint.
    + destruct (cs_retention_floor c) as [[fe f]|] eqn:Ef; [|done].
      destruct (N.eqb_spec fe epoch) as [->|]; [|done]. injection Hw as <-. by eapply discards_floor.
Qed.

Lemma prune_minimum_None epoch m l :
  prune_minimum epoch m l = None ↔ ∃ c, c ∈ l ∧ prune_watermark epoch c = None.
Proof.
  revert m. induction l as [|c l IH]; intros m; cbn [prune_minimum]; [set_solver|].
  destruct (prune_watermark epoch c) as [w|] eqn:E; [rewrite IH; set_solver|]. set_solver.
Qed.

Lemma prune_minimum_Some epoch m l r : prune_minimum epoch m l = Some r → is_Some m ∨ l ≠ [] →
  ∃ r', r = Some r' ∧ ∀ i, (i ≤ r')%N ↔
    (∀ m', m = Some m' → i ≤ m')%N ∧ ∀ c, c ∈ l → ∃ w, prune_watermark epoch c = Some w ∧ (i ≤ w)%N.
Proof.
  revert m. induction l as [|c l IH]; intros m; cbn [prune_minimum].
  - intros [= <-] [[m' ->]|]; [|done]. exists m'. split; [done|]. intros i. set_solver.
  - destruct (prune_watermark epoch c) as [w|] eqn:E; [|done]. intros Hr _.
    destruct (IH _ Hr) as (r' & -> & Hi); [by left|]. exists r'. split; [done|]. intros i. rewrite Hi. split.
    + intros [H1 H2]. specialize (H1 _ eq_refl). split.
      * intros m' ->. lia.
      * intros c' [->|Hc]%elem_of_cons; [|auto]. exists w. split; [done|]. destruct m; lia.
    + intros [H1 H2]. split; [|set_solver]. intros m' [= <-].
      destruct (H2 c) as (w' & Hw' & Hle); [by left|]. assert (w' = w) as -> by congruence.
      destruct m as [m|]; [specialize (H1 m eq_refl)|]; lia.
Qed.

(** [covered] is agreement of all consumers. *)
Lemma covered_spec consumers epoch minimum e :
  prune_minimum epoch None consumers = Some minimum →
  covered consumers epoch minimum e = true ↔ ∀ c, c ∈ consumers → discards epoch c e.
Proof.
  intros Hm. unfold covered. rewrite !orb_true_iff, bool_decide_eq_true, andb_true_iff, N.ltb_lt, N.eqb_eq.
  destruct (decide (consumers = [])) as [->|Hne]; [set_solver|].
  destruct (prune_minimum_Some _ _ _ _ Hm) as (r & -> & Hr); [by right|].
  rewrite N.leb_le, Hr. setoid_rewrite prune_watermark_spec. unfold at_or_before. split.
  - intros [[?|Hlt]|[He [_ Hw]]] c Hc; [done| |].
    + destruct (prune_watermark epoch c) as [w|] eqn:E; [by eauto|]. exfalso.
      assert (prune_minimum epoch None consumers = None) by (apply prune_minimum_None; eauto). congruence.
    + destruct (Hw c Hc) as (w & ? & ?). eauto.
  - intros Hall. destruct consumers as [|c0 l]; [done|].
    destruct (Hall c0) as (w0 & _ & [Hlt|[He _]]); [by left|by left; right|].
    right. split; [done|]. split; [done|]. intros c Hc.
    destruct (Hall c Hc) as (w & Hw & [Hlt|[_ Hle]]); [lia|eauto].
Qed.

(** Coverage goes down the journal order. *)
Lemma covered_mono group consumers epoch minimum k k' e e' :
  decode_outbox_key group k = Ok e → decode_outbox_key group k' = Ok e' → bytes_le k k' →
  covered consumers epoch minimum e' = true → covered consumers epoch minimum e = true.
Proof.
  intros (Ee & He & Hw)%encode_decode_outbox_key (Ee' & He' & Hw')%encode_decode_outbox_key Hle.
  pose proof (encode_outbox_key_order _ _ _ _ _ _ _ _ _ He He' Hw Hw' Ee Ee' Hle) as Hord.
  unfold covered. rewrite !orb_true_iff, !andb_true_iff, !N.ltb_lt, !N.eqb_eq.
  destruct minimum as [m|]; [rewrite !N.leb_le|]; intuition (try lia).
Qed.

Lemma prune_scan_spec group cov kvs keys :
  prune_scan group cov kvs = Ok keys → StronglySorted bytes_lt kvs.*1 →
  (∀ k k' e e', decode_outbox_key group k = Ok e → decode_outbox_key group k' = Ok e' → bytes_le k k' →
     cov e' = true → cov e = true) →
  ∀ k, k ∈ keys ↔ k ∈ kvs.*1 ∧ ∃ e, decode_outbox_key group k = Ok e ∧ cov e = true.
Proof.
  intros Hs Hsort Hmono. revert keys Hs. induction kvs as [|kv kvs IH]; intros keys; cbn [prune_scan].
  { intros [= <-] k. set_solver. }
  intros (e & He & Hs)%rbind_ok k. rewrite fmap_cons in Hsort |- *.
  apply StronglySorted_inv in Hsort as [Hsort Hlt]. destruct (cov e) eqn:Hc.
  - apply rbind_ok in Hs as (rest & Hrest & [= <-]). rewrite !elem_of_cons, (IH Hsort _ Hrest).
    split; [|naive_solver]. intros [->|?]; [|naive_solver]. split; [by left|]. eauto.
  - injection Hs as <-. split; [set_solver|]. intros [[->|Hin]%elem_of_cons (e' & He' & Hc')]; [congruence|].
    rewrite Forall_forall in Hlt. destruct (Hlt _ Hin) as [Hle _].
    pose proof (Hmono _ _ _ _ He He' Hle Hc'). congruence.
Qed.

Lemma batch_get_deletes cf k keys o :
  batch_get cf k (BatchDelete cf <$> keys) o = if decide (k ∈ keys) then None else o.
Proof.
  revert o. induction keys as [|k' keys IH]; intros o; [by rewrite decide_False by set_solver|].
  cbn [fmap list_fmap]. change (batch_get cf k (BatchDelete cf <$> keys) (batch_op_apply cf k (BatchDelete cf k') o) =
    if decide (k ∈ k' :: keys) then None else o).
  rewrite IH. simpl. repeat case_decide; set_solver.
Qed.

Lemma search_key_not_pointer g h rest : as_bytes ("local/search/" +:+ g) ++ rest ≠ state_cf_pointer_key h.
Proof. unfold state_cf_pointer_key, state_cf_pointer_prefix. cbn. intros [=]. Qed.

(** A point operation on a search record. *)
Definition search_op (op : BatchOp) : Prop :=
  op_cf op = DEFAULT_CF ∧ ∃ g rest, batch_key op = Some (as_bytes ("local/search/" +:+ g) ++ rest).

Lemma search_op_pointer_free op : search_op op → pointer_free op.
Proof. intros (_ & g & rest & Hk) h Ht. destruct op; simpl in *; [| |done]; apply (search_key_not_pointer g h rest); naive_solver. Qed.

Section search_laws.
Context `{RocksOk D} `{!Codec U64, !Codec U128, !Codec string, !Codec RaftApplied, !Codec SearchConsumerState, !Codec KeyRecord}
  `{Hashes} `{!Codec SearchIndexDefinition}.
Implicit Types (s : Storage D) (group : GroupId).

(** A batch of search records leaves the state of every group alone. *)
Lemma search_write_state s b :
  cache_ok s → Forall search_op b →
  ∀ h key, get_state (set_db (write (st_db s) b) s) h key = get_state s h key.
Proof.
  intros Hcache Hb h key. destruct (write_pointer_free s b) as (_ & Hcf & _).
  { eapply Forall_impl; [exact Hb|]. intros op. apply search_op_pointer_free. }
  unfold get_state. rewrite Hcf. destruct (state_cf s h) as [cf|] eqn:E; [|done]. cbn [rbind]. f_equal.
  destruct (state_cf_valid s h cf Hcache E) as [Hv Hex]. cbn [st_db set_db]. rewrite get_write by done.
  apply batch_get_other_cf. eapply Forall_impl; [exact Hb|]. intros op [Ho _] Hcf'. rewrite Ho in Hcf'. subst cf.
  by apply valid_cf_name_default in Hv.
Qed.

(** So does pruning, whatever it returns. *)
Lemma prune_search_outbox_batch s group s' r : prune_search_outbox group s = (s', r) →
  ∃ keys, (∀ k, k ∈ keys → starts_with (search_outbox_prefix group) k = true) ∧
    (s' = s ∨ s' = set_db (write (st_db s) (BatchDelete DEFAULT_CF <$> keys)) s).
Proof.
  unfold prune_search_outbox. intros Hp. destruct (rbind _ _) as [keys|e] eqn:E; [|injection Hp as <- <-; exists []; set_solver].
  exists keys. split; [|destruct keys; injection Hp as <- <-; auto].
  apply rbind_ok in E as (consumers & _ & E). apply rbind_ok in E as (epoch & _ & E).
  destruct (prune_minimum _ _ _) as [m|]; [|injection E as <-; set_solver].
  intros k Hk. assert (∀ l keys, prune_scan group (covered (filter (λ c, holds_retention c = true) consumers.*2) epoch m) l = Ok keys →
    k ∈ keys → k ∈ l.*1) as Hsub.
  { clear. induction l as [|kv l IH]; intros keys; cbn [prune_scan]; [by intros [= <-]|].
    intros (e & _ & E)%rbind_ok. destruct (covered _ _ _ e); [|injection E as <-; set_solver].
    apply rbind_ok in E as (rest & Hr & [= <-]). rewrite fmap_cons, !elem_of_cons. naive_solver. }
  apply (Hsub _ _ E), list_elem_of_fmap in Hk as ([k' v] & -> & Hin).
  apply elem_of_scan_prefix in Hin as [Hp' _]. by apply starts_with_spec.
Qed.

Lemma prune_search_outbox_state s group s' r : cache_ok s → prune_search_outbox group s = (s', r) →
  cache_ok s' ∧ (∀ h, state_cf s' h = state_cf s h) ∧ (∀ h key, get_state s' h key = get_state s h key) ∧
  (∀ n, cf_exists (st_db s') n = cf_exists (st_db s) n) ∧ (∀ cf key, cf ≠ DEFAULT_CF → cf_exists (st_db s) cf = true → get_cf (st_db s') cf key = get_cf (st_db s) cf key).
Proof.
  intros Hc (keys & Hkeys & [-> | ->])%prune_search_outbox_batch; [done|].
  assert (Forall search_op
    (BatchDelete DEFAULT_CF <$> keys)) as Hb.
  { apply Forall_fmap, Forall_forall. intros k Hk. split; [done|].
    pose proof (Hkeys k Hk) as Hk'. apply starts_with_spec in Hk' as [rest ->]. eexists _, _.
    unfold search_outbox_prefix, search_prefix. by rewrite <-(assoc_L (++)). }
  destruct (write_pointer_free s (BatchDelete DEFAULT_CF <$> keys)) as (_ & Hcf & Hc').
  { eapply Forall_impl; [exact Hb|]. intros op. apply search_op_pointer_free. }
  split_and!; [auto|done|by apply search_write_state|intros n; apply exists_write|]. intros cf key Hne Hex. cbn [st_db set_db].
  rewrite get_write by done. apply batch_get_other_cf. eapply Forall_impl; [exact Hb|]. intros op [-> _]. done.
Qed.

(** An outbox entry every retaining consumer of the group has given up. *)
Definition unneeded (consumers : list (bytes * SearchConsumerState)) (epoch : N) group (key : bytes) : Prop :=
  ∃ e, decode_outbox_key group key = Ok e ∧
    ∀ k c, (k, c) ∈ consumers → holds_retention c = true → discards epoch c e.

Lemma unneeded_covered consumers epoch minimum group key e :
  prune_minimum epoch None (filter (λ c, holds_retention c = true) consumers.*2) = Some minimum →
  decode_outbox_key group key = Ok e →
  covered (filter (λ c, holds_retention c = true) consumers.*2) epoch minimum e = true ↔
  unneeded consumers epoch group key.
Proof.
  intros Hm He. rewrite covered_spec by done. unfold unneeded. split.
  - intros Hall. exists e. split; [done|]. intros k c Hin Hr. apply Hall, list_elem_of_filter. split; [done|].
    apply list_elem_of_fmap. by exists (k, c).
  - intros (e' & He' & Hall) c [Hr ([k c'] & -> & Hin)%list_elem_of_fmap]%list_elem_of_filter.
    assert (e' = e) as -> by congruence. by eapply Hall.
Qed.

(** The keys [prune_search_outbox] deletes. *)
Lemma prune_search_outbox_keys s group s' n consumers epoch :
  prune_search_outbox group s = (s', Ok n) → search_consumers s group = Ok consumers →
  search_projection_epoch s group = Ok epoch →
  ∃ keys, s' = set_db (match keys with [] => st_db s | _ => write (st_db s) (BatchDelete DEFAULT_CF <$> keys) end) s ∧
    n = length keys ∧ (∀ k, k ∈ keys → starts_with (search_outbox_prefix group) k = true) ∧
    ∀ k v, db_get (st_db s) k = Some v → k ∈ keys ↔ unneeded consumers epoch group k.
Proof.
  unfold prune_search_outbox. intros Hp Hc He. rewrite Hc, He in Hp. cbn [rbind] in Hp.
  set (cs := filter _ _) in Hp. destruct (prune_minimum epoch None cs) as [minimum|] eqn:Hm; last first.
  { injection Hp as <- <-. exists []. split_and!; [by destruct s|done|set_solver|]. intros k v _.
    split; [set_solver|]. intros (e & _ & Hall). exfalso. apply prune_minimum_None in Hm as (c & Hin & Hw).
    apply list_elem_of_filter in Hin as [Hr ([k' c'] & -> & Hin)%list_elem_of_fmap].
    specialize (Hall _ _ Hin Hr). apply prune_watermark_spec in Hall as (w & Hw' & _). simpl in *. congruence. }
  destruct (prune_scan _ _ _) as [keys|] eqn:Hs; [|done].
  assert (s' = set_db (match keys with [] => st_db s | _ => write (st_db s) (BatchDelete DEFAULT_CF <$> keys) end) s ∧
    n = length keys) as [-> ->] by (destruct keys, s; by injection Hp as <- <-).
  exists keys. rewrite scan_prefix_filter in Hs.
  assert (StronglySorted bytes_lt (filter (λ kv, starts_with (search_outbox_prefix group) kv.1 = true)
    (iter_cf (st_db s) DEFAULT_CF)).*1) as Hsort.
  { apply StronglySorted_filter_fst, iter_sorted. }
  pose proof (prune_scan_spec _ _ _ _ Hs Hsort (λ k k' e e', covered_mono group cs epoch minimum k k' e e')) as Hin.
  split_and!; [done..| |].
  - intros k [([k' v] & -> & [Hk _]%list_elem_of_filter)%list_elem_of_fmap _]%Hin. done.
  - intros k v Hk. rewrite Hin. split.
    + intros (_ & e & Hd & Hcov). by apply (unneeded_covered _ _ minimum _ _ e).
    + intros Hu. pose proof Hu as (e & Hd & _). split; [|exists e; split; [done|by eapply unneeded_covered]].
      apply list_elem_of_fmap. exists (k, v). split; [done|]. apply list_elem_of_filter.
      split; [|by apply iter_spec]. apply decode_outbox_shape in Hd as (_ & _ & tl & ->).
      apply starts_with_spec. by eexists.
Qed.

(** Pruning the search journal is exact. It deletes precisely the entries
    of the group's outbox that every consumer still holding retention has
    given up, each consumer by its own checkpoint or rebuild floor of the
    current projection epoch; every other local record, and the state of every
    group, is as before. *)
Theorem prune_search_outbox_exact s group s' n consumers epoch :
  cache_ok s → prune_search_outbox group s = (s', Ok n) → search_consumers s group = Ok consumers →
  search_projection_epoch s group = Ok epoch →
  (∀ key, unneeded consumers epoch group key → db_get (st_db s') key = None) ∧
  (∀ key, ¬ unneeded consumers epoch group key → db_get (st_db s') key = db_get (st_db s) key) ∧
  (∀ h key, get_state s' h key = get_state s h key).
Proof.
  intros Hcache Hp Hc He. destruct (prune_search_outbox_keys _ _ _ _ _ _ Hp Hc He) as (keys & -> & _ & Hpre & Hin).
  destruct keys as [|k0 keys]; [|set (ks := k0 :: keys) in *].
  { split_and!; [|done|by destruct s]. intros key Hu. cbn [st_db set_db].
    destruct (db_get (st_db s) key) as [v|] eqn:Ek; [|done]. apply (Hin key v) in Hu; [set_solver|done]. }
  assert (∀ key, db_get (write (st_db s) (BatchDelete DEFAULT_CF <$> ks)) key =
    if decide (key ∈ ks) then None else db_get (st_db s) key) as Hget.
  { intros key. by rewrite db_get_write, batch_get_deletes. }
  split_and!.
  - intros key Hu. cbn [st_db set_db]. rewrite Hget. destruct (db_get (st_db s) key) as [v|] eqn:Ek; [|by case_decide].
    rewrite decide_True; [done|]. by eapply Hin.
  - intros key Hu. cbn [st_db set_db]. rewrite Hget. destruct (db_get (st_db s) key) as [v|] eqn:Ek; [|by case_decide].
    rewrite decide_False; [done|]. by rewrite (Hin key v).
  - by eapply prune_search_outbox_state.
Qed.

(** ** Reading the journal *)

Lemma decode_outbox_epoch group epoch key e :
  (epoch ≤ u64_max)%N → decode_outbox_key group key = Ok e →
  starts_with (search_outbox_epoch_prefix group epoch) key = true ↔ oe_epoch e = epoch.
Proof.
  intros Hep (He & _ & tl & ->)%decode_outbox_shape. unfold search_outbox_epoch_prefix.
  rewrite starts_with_spec. split.
  - intros [rest E]. rewrite <-(assoc_L (++)) in E. apply (inj (app _)) in E.
    apply app_inj_1 in E as [E _]; [|by rewrite !length_be_bytes]. by apply be8_inj in E.
  - intros <-. eexists. by rewrite <-(assoc_L (++)).
Qed.

Lemma decode_outbox_from group key e first :
  (first ≤ u64_max)%N → decode_outbox_key group key = Ok e →
  bytes_le (search_outbox_epoch_prefix group (oe_epoch e) ++ be_bytes 8 first) key ↔
  (first ≤ rl_index (oe_source_log_id e))%N.
Proof.
  intros Hf (He & Hi & tl & ->)%decode_outbox_shape.
  unfold search_outbox_epoch_prefix. rewrite <-(assoc_L (++)), !bytes_le_app_l, <-(app_nil_r (be_bytes 8 first)).
  rewrite bytes_le_be_app by (by rewrite !length_be_bytes).
  rewrite !be_value_be_bytes_small by (by apply u64_pow). split.
  - intros [?|[Eq _]]; [lia|]. apply be8_inj in Eq as ->; [|done..]. lia.
  - intros Hle. destruct (decide (first = rl_index (oe_source_log_id e))) as [->|]; [by right|left; lia].
Qed.

(** Entries after one beyond the limit are beyond it too. *)
Lemma dirty_order (v : SearchSourceView (D:=D)) through k keys e :
  Forall (bytes_lt k) keys → (∀ k' e, k' ∈ k :: keys → decode_outbox_key (sv_group v) k' = Ok e → oe_epoch e = sv_epoch v) →
  decode_outbox_key (sv_group v) k = Ok e → (through < rl_index (oe_source_log_id e))%N →
  ∀ k' e', k' ∈ k :: keys → decode_outbox_key (sv_group v) k' = Ok e' → (through < rl_index (oe_source_log_id e'))%N.
Proof.
  intros Hlt Hep Hd Hth k' e' Hk Hd'. assert (bytes_le k k') as Hkk.
  { apply elem_of_cons in Hk as [->|Hk]; [apply bytes_le_refl|]. rewrite Forall_forall in Hlt. by apply Hlt. }
  pose proof (Hep k e ltac:(by left) Hd) as Hek. pose proof (Hep k' e' Hk Hd') as Hek'.
  apply encode_decode_outbox_key in Hd as (E & He & Hw). apply encode_decode_outbox_key in Hd' as (E' & He' & Hw').
  pose proof (encode_outbox_key_order _ _ _ _ _ _ _ _ _ He He' Hw Hw' E E' Hkk). lia.
Qed.

Lemma dirty_rows_spec (v : SearchSourceView (D:=D)) through keys rows :
  dirty_rows v through keys = Ok rows → StronglySorted bytes_lt keys →
  (∀ k e, k ∈ keys → decode_outbox_key (sv_group v) k = Ok e → oe_epoch e = sv_epoch v) →
  (∀ k e, k ∈ keys → decode_outbox_key (sv_group v) k = Ok e → (rl_index (oe_source_log_id e) ≤ through)%N →
     ∃ row, row ∈ rows ∧ dirty_row v e = Ok row) ∧
  ∀ row, row ∈ rows → ∃ k e, k ∈ keys ∧ decode_outbox_key (sv_group v) k = Ok e ∧
    (rl_index (oe_source_log_id e) ≤ through)%N ∧ dirty_row v e = Ok row.
Proof.
  revert rows. induction keys as [|k keys IH]; intros rows; cbn [dirty_rows].
  { intros [= <-] _ _. split; set_solver. }
  intros (e & Hd & Hr)%rbind_ok [Hs Hlt]%StronglySorted_inv Hep. destruct (N.ltb_spec through (rl_index (oe_source_log_id e))) as [Hth|Hth].
  - injection Hr as <-. split; [|set_solver]. intros k' e' Hk Hd' Hle.
    pose proof (dirty_order v through k keys e Hlt Hep Hd Hth k' e' Hk Hd'). lia.
  - apply rbind_ok in Hr as (row0 & Hrow & Hr). apply rbind_ok in Hr as (rest & Hrest & [= <-]).
    destruct (IH _ Hrest Hs) as [IH1 IH2]; [intros; eapply Hep; [by right|done]|]. split.
    + intros k' e' [->|Hk]%elem_of_cons Hd' Hle; [exists row0; split; [by left|congruence]|].
      destruct (IH1 k' e' Hk Hd' Hle) as (row & Hin & Hrow'). exists row. split; [by right|done].
    + intros row [->|Hin]%elem_of_cons; [exists k, e; split; [by left|done]|].
      destruct (IH2 row Hin) as (k' & e' & Hk & Hx). exists k', e'. split; [by right|done].
Qed.

Definition applied_index (v : SearchSourceView (D:=D)) : N :=
  match sv_applied v with Some id => rl_index id | None => 0%N end.

(** The keys of the journal an incremental pass scans. *)
Definition dirty_keys (v : SearchSourceView (D:=D)) (first : N) : list bytes :=
  let prefix := search_outbox_epoch_prefix (sv_group v) (sv_epoch v) in
  (take_while (λ kv, starts_with prefix kv.1) (iter_from (sv_db v) DEFAULT_CF (prefix ++ be_bytes 8 first))).*1.

Lemma dirty_keys_spec v first : StronglySorted bytes_lt (dirty_keys v first) ∧ ∀ k, k ∈ dirty_keys v first ↔
  let p := search_outbox_epoch_prefix (sv_group v) (sv_epoch v) in
  starts_with p k = true ∧ bytes_le (p ++ be_bytes 8 first) k ∧ is_Some (db_get (sv_db v) k).
Proof.
  unfold dirty_keys. set (p := search_outbox_epoch_prefix _ _). set (start := p ++ _). rewrite take_while_prefix; last first.
  { apply Forall_forall. intros kv [Hkv _]%list_elem_of_filter. eapply bytes_le_trans; [|exact Hkv].
    apply starts_with_le, starts_with_spec. by eexists. }
  { apply StronglySorted_filter_fst, iter_sorted. }
  split; [do 2 apply StronglySorted_filter_fst; apply iter_sorted|].
  intros k. rewrite list_elem_of_fmap. unfold iter_from. split.
  - intros ([k' x] & -> & Hin). rewrite !list_elem_of_filter, iter_spec in Hin. destruct Hin as (? & ? & Hx).
    split_and!; [done..|]. by exists x.
  - intros (Hp & Hle & x & Hx). exists (k, x). split; [done|]. by rewrite !list_elem_of_filter, iter_spec.
Qed.

(** What makes an incremental pass visit an entry. *)
Definition dirty_entry (v : SearchSourceView (D:=D)) (after : N) (e : SearchOutboxEntry) : Prop :=
  ∃ key value, db_get (sv_db v) key = Some value ∧ decode_outbox_key (sv_group v) key = Ok e ∧
    oe_epoch e = sv_epoch v ∧ (after < rl_index (oe_source_log_id e))%N ∧
    (rl_index (oe_source_log_id e) ≤ applied_index v)%N.

(** The rows an incremental pass visits. *)
Lemma for_each_dirty_spec v after rows :
  (sv_epoch v ≤ u64_max)%N → for_each_dirty v after = Ok rows →
  (∀ e, dirty_entry v after e → ∃ row, row ∈ rows ∧ dirty_row v e = Ok row) ∧
  ∀ row, row ∈ rows → ∃ e, dirty_entry v after e ∧ dirty_row v e = Ok row.
Proof.
  intros Hep. unfold for_each_dirty. destruct (checked_add u64_max after 1) as [first|] eqn:Ea; last first.
  { intros [= <-]. split; [|set_solver]. intros e (k & x & _ & Hd & _ & Hlt & _).
    apply encode_decode_outbox_key in Hd as (_ & _ & _ & _ & Hi). unfold checked_add in Ea.
    destruct (N.leb_spec (after + 1) u64_max); [done|lia]. }
  apply checked_add_Some in Ea as [-> Hmax]. fold (applied_index v).
  intros Hrows. change (dirty_rows v (applied_index v) (dirty_keys v (after + 1)) = Ok rows) in Hrows.
  destruct (dirty_keys_spec v (after + 1)) as [Hs Hkeys]. cbv zeta in Hkeys.
  destruct (dirty_rows_spec _ _ _ _ Hrows Hs) as [Hin Hout].
  { intros k e (Hp & _)%Hkeys Hd. by eapply decode_outbox_epoch. }
  split.
  - intros e (k & x & Hx & Hd & Ee & Hlt & Hle). eapply Hin; [|exact Hd|done]. apply Hkeys.
    split_and!; [by eapply decode_outbox_epoch| |by exists x]. rewrite <-Ee. apply decode_outbox_from; [done..|lia].
  - intros row (k & e & Hk & Hd & Hle & Hrow)%Hout. apply Hkeys in Hk as (Hp & Hst & x & Hx). exists e. split; [|done].
    pose proof (proj1 (decode_outbox_epoch _ _ _ _ Hep Hd) Hp) as Ee. exists k, x.
    rewrite <-Ee, decode_outbox_from in Hst by done. split_and!; try done. lia.
Qed.

(** An incremental pass reads the whole gap. When the pass over a source
    snapshot succeeds, the rows it visits are exactly the current records of
    the dirty entries of the snapshot's epoch whose source index lies above the
    checkpoint and at or below the applied prefix of the snapshot; no entry in
    the gap is skipped and none beyond it is read. *)
Theorem for_each_dirty_exact (v : SearchSourceView (D:=D)) after rows :
  (sv_epoch v ≤ u64_max)%N → for_each_dirty v after = Ok rows → ∀ row,
  row ∈ rows ↔ ∃ key value e, db_get (sv_db v) key = Some value ∧ decode_outbox_key (sv_group v) key = Ok e ∧
    oe_epoch e = sv_epoch v ∧ (after < rl_index (oe_source_log_id e))%N ∧
    (rl_index (oe_source_log_id e) ≤ applied_index v)%N ∧ dirty_row v e = Ok row.
Proof.
  intros Hep Hrows row. destruct (for_each_dirty_spec v after rows Hep Hrows) as [Hin Hout]. split.
  - intros (e & (k & x & ?) & Hrow)%Hout. exists k, x, e. naive_solver.
  - intros (k & x & e & ? & ? & ? & ? & ? & Hrow). destruct (Hin e) as (row' & Hel & Hrow'); [by exists k, x|].
    congruence.
Qed.
End search_laws.
