(* ===== verification/SearchWorker.v ===== *)
(** * The search projection worker (src/src/search/worker.rs, src/src/search/index.rs)

    [SearchIndexWorker] keeps one local Tantivy index in step with a data group:
    incrementally from the dirty-key journal, or by a rebuild from the whole
    state. Tantivy is a parameter ([Tantivy], with the documented behaviour of
    its writer in [TantivyOk]), and so is the extraction of a document from a
    record.

    A pass reads one snapshot of the store. What happens besides is its
    [PassEnv]: other tasks change the store between the snapshot and the
    publication, waits resolve, rebuild admission refuses, the engine fails on a
    key, a commit or the reader reload fails, a rollback fails. Rows are decoded
    before the first of them is projected, which differs from the source only in
    the error reported when several could be. *)

From S2P Require Import Prelude BTree Types Codec SearchDef Keyspace Outbox ApplyDurability Aio Rocks Storage DataSM SearchStore.

(** ** Tantivy *)

(** An index with its single writer: the documents by key of the last commit,
    the payload of that commit, and what a commit would publish now. *)
Class Tantivy (I Doc : Type) := {
  tv_committed : I → gmap bytes Doc;
  tv_payload : I → option IndexCheckpoint;
  tv_pending : I → gmap bytes Doc;
  tv_delete_term : bytes → I → I;
  tv_add_document : bytes → Doc → I → I;
  tv_delete_all_documents : I → I;
  tv_rollback : I → I;
  tv_commit : IndexCheckpoint → I → I;
}.

(** Writer operations do not touch the last commit. [rollback] drops what was
    buffered, [delete_all_documents] is used on a writer without buffered
    documents only, and a document is added after the deletion of its key. *)
Class TantivyOk (TI Doc : Type) `{!Tantivy TI Doc} : Prop := {
  committed_delete k i : tv_committed (tv_delete_term k i) = tv_committed i;
  committed_add k d i : tv_committed (tv_add_document k d i) = tv_committed i;
  committed_delete_all i : tv_committed (tv_delete_all_documents i) = tv_committed i;
  committed_rollback i : tv_committed (tv_rollback i) = tv_committed i;
  committed_commit ck i : tv_committed (tv_commit ck i) = tv_pending i;
  payload_commit ck i : tv_payload (tv_commit ck i) = Some ck;
  pending_rollback i : tv_pending (tv_rollback i) = tv_committed i;
  pending_delete k i : tv_pending (tv_delete_term k i) = delete k (tv_pending i);
  pending_add k d i : tv_pending i !! k = None → tv_pending (tv_add_document k d i) = <[k := d]> (tv_pending i);
  pending_delete_all i : tv_pending i = tv_committed i → tv_pending (tv_delete_all_documents i) = ∅;
  pending_commit ck i : tv_pending (tv_commit ck i) = tv_pending i;
}.

Definition SEARCH_MAX_KEY_BYTES : N := 4 * 1024.

(** What [extract_document] and [to_tantivy_document] make of a record. *)
Inductive Extracted (Doc : Type) :=
| Extracted_Document (d : Doc)
| Extracted_None                    (* not of the index's document type *)
| Extracted_Rejected (reason : string).
Arguments Extracted_Document {Doc} _.
Arguments Extracted_None {Doc}.
Arguments Extracted_Rejected {Doc} _.

(** [LocalSearchIndex], with the documents and checkpoint of [LoadedCommit]. *)
Record LocalSearchIndex (I Doc : Type) := mkLocalIndex {
  li_group : GroupId;
  li_generation : SearchIndexGeneration;
  li_index : I;
  li_searcher : gmap bytes Doc;
  li_checkpoint : option IndexCheckpoint;
}.
Arguments mkLocalIndex {I Doc} _ _ _ _ _.
Arguments li_group {I Doc} _.
Arguments li_generation {I Doc} _.
Arguments li_index {I Doc} _.
Arguments li_searcher {I Doc} _.
Arguments li_checkpoint {I Doc} _.

Inductive CommitFate :=
| Commit_Ok
| Commit_Failed (error : string)         (* nothing is published *)
| Commit_ReloadFailed (error : string).  (* committed, but the reader keeps the old commit *)

Section index.
Context `{Tantivy TI Doc}.
Context (document : bytes → N → bytes → Extracted Doc).
Context (engine : bytes → option string).
Implicit Types (i : LocalSearchIndex TI Doc).

Definition set_writer (w : TI) i : LocalSearchIndex TI Doc :=
  mkLocalIndex (li_group i) (li_generation i) w (li_searcher i) (li_checkpoint i).

(** [validate_checkpoint]. *)
Definition validate_checkpoint i (epoch : N) : option IndexCheckpoint :=
  match li_checkpoint i with
  | None => None
  | Some checkpoint =>
      if negb (ck_projection_epoch checkpoint =? epoch)%N ||
         negb (bool_decide (ck_definition_hash checkpoint = sg_definition_hash (li_generation i))) ||
         negb (ck_engine_revision checkpoint =? sg_engine_revision (li_generation i))%N
      then None else Some checkpoint
  end.

(** [add_if_indexable]: the reason of a rejection, if any. *)
Definition add_if_indexable (key : bytes) (version : N) (encoded : bytes) : io (LocalSearchIndex TI Doc) (option string) := λ i,
  if (SEARCH_MAX_KEY_BYTES <? N.of_nat (length key))%N then (i, Ok (Some "key exceeds searchable key limit"))
  else
    match document key version encoded with
    | Extracted_None => (i, Ok None)
    | Extracted_Rejected reason => (i, Ok (Some reason))
    | Extracted_Document d =>
        match engine key with
        | Some e => (i, Err (Error_Search e))
        | None => (set_writer (tv_add_document key d (li_index i)) i, Ok None)
        end
    end.

(** [project]: whether the document was rejected. *)
Definition project (key : bytes) (source : option (N * bytes)) : io (LocalSearchIndex TI Doc) bool :=
  io_modify (λ i, set_writer (tv_delete_term key (li_index i)) i) ;;?
  match source with
  | None => io_ret false
  | Some (version, value) => let? r := add_if_indexable key version value in io_ret (bool_decide (is_Some r))
  end.

(** The projection of the rows of an incremental pass: how many were rejected. *)
Fixpoint project_rows (rows : list (bytes * option (N * bytes))) (rejected : N) : io (LocalSearchIndex TI Doc) N :=
  match rows with
  | [] => io_ret rejected
  | (key, source) :: rows =>
      let? r := project key source in
      project_rows rows (rejected + if (r : bool) then 1 else 0)%N
  end.

(** The additions of [rebuild_from_view]. *)
Fixpoint add_rows (rows : list (bytes * (N * bytes))) (rejected : N) : io (LocalSearchIndex TI Doc) N :=
  match rows with
  | [] => io_ret rejected
  | (key, (version, value)) :: rows =>
      let? r := add_if_indexable key version value in
      add_rows rows (rejected + if bool_decide (is_Some r) then 1 else 0)%N
  end.

(** [rebuild_from_view]; [rollback] is the error of the writer's rollback, if any. *)
Definition rebuild_from_view (rollback : option string) (rows : list (bytes * (N * bytes)))
    : io (LocalSearchIndex TI Doc) (nat * N) :=
  match rollback with Some e => io_err (Error_Search e) | None => io_modify (λ i, set_writer (tv_rollback (li_index i)) i) end ;;?
  io_modify (λ i, set_writer (tv_delete_all_documents (li_index i)) i) ;;?
  let? rejected := add_rows rows 0 in
  io_ret (length rows, rejected).

(** [commit]. *)
Definition commit (fate : CommitFate) (epoch : N) (source_log_id : option RaftLogId) : io (LocalSearchIndex TI Doc) unit := λ i,
  let checkpoint := mkCheckpoint epoch (sg_definition_hash (li_generation i)) (sg_engine_revision (li_generation i)) source_log_id in
  let w := tv_commit checkpoint (li_index i) in
  match fate with
  | Commit_Failed e => (i, Err (Error_Search e))
  | Commit_ReloadFailed e => (set_writer w i, Err (Error_Search e))
  | Commit_Ok => (mkLocalIndex (li_group i) (li_generation i) w (tv_committed w) (Some checkpoint), Ok tt)
  end.
End index.

(** ** The worker *)

Record SearchCatchUp := mkCatchUp {
  cu_rebuilt : bool;
  cu_projected_keys : nat;
  cu_rejected_documents : N;
  cu_checkpoint_index : option N;
}.

Record SearchIndexWorker (D TI Doc : Type) := mkWorker {
  sw_storage : Storage D;
  sw_index : LocalSearchIndex TI Doc;
  sw_closed : bool;
}.
Arguments mkWorker {D TI Doc} _ _ _.
Arguments sw_storage {D TI Doc} _.
Arguments sw_index {D TI Doc} _.
Arguments sw_closed {D TI Doc} _.

Record PassEnv (D : Type) := mkPassEnv {
  pe_now : N;
  pe_started : N;
  pe_waited : list registry_op;
  pe_during : Storage D → Storage D;
  pe_admission : option string;
  pe_engine : bytes → option string;
  pe_commit : CommitFate;
  pe_rollback : option string;
}.
Arguments mkPassEnv {D} _ _ _ _ _ _ _ _.
Arguments pe_now {D} _.
Arguments pe_started {D} _.
Arguments pe_waited {D} _.
Arguments pe_during {D} _ _.
Arguments pe_admission {D} _.
Arguments pe_engine {D} _ _.
Arguments pe_commit {D} _.
Arguments pe_rollback {D} _.

Definition checkpoint_ahead_of_source (checkpoint : IndexCheckpoint) (source : option RaftLogId) : bool :=
  match ck_source_log_id checkpoint, source with
  | Some checkpoint, Some source => (rl_index source <? rl_index checkpoint)%N
  | Some _, None => true
  | None, _ => false
  end.

(** [.map(|id| id.index).unwrap_or(0)]. *)
Definition index_or_zero (id : option RaftLogId) : N := from_option rl_index 0%N id.

Section worker.
Context `{Rocks D} `{!Codec U64, !Codec string, !Codec RaftApplied, !Codec SearchConsumerState, !Codec KeyRecord}.
Context `{Tantivy TI Doc} (document : bytes → N → bytes → Extracted Doc).
Context (group : GroupId) (name : string) (env : PassEnv D).
Implicit Types (w : SearchIndexWorker D TI Doc).

Abbreviation worker := (SearchIndexWorker D TI Doc).

Definition on_store {A} (m : aio (Storage D) A) : aio worker A := λ w,
  let '(s, r) := m (sw_storage w) in (mkWorker s (sw_index w) (sw_closed w), r).
Definition on_index {A} (m : io (LocalSearchIndex TI Doc) A) : aio worker A := λ w,
  let '(i, r) := m (sw_index w) in (mkWorker (sw_storage w) i (sw_closed w), Ready r).
Definition read_store {A} (f : Storage D → Result A) : aio worker A := on_store (aio_io (io_read f)).
Definition read_index {A} (f : LocalSearchIndex TI Doc → Result A) : aio worker A := on_index (io_read f).

(** [wait_state_durable], resolved after what other tasks do to the registry. *)
Definition wait_state_durable (log_id : RaftLogId) : aio (Storage D) unit := λ s,
  let '(r, p) := registry_wait_durable (pe_now env) (pe_started env) group log_id DurabilityWaitKind_General
                   (registry_run (pe_waited env) (st_apply_durability s)) in
  (set_apply r s, p).
Definition wait_applied (applied : option RaftLogId) : aio worker unit :=
  match applied with Some log_id => on_store (wait_state_durable log_id) | None => aio_ret tt end.

(** [project_in_blocking]: what a failed pass buffered is rolled back, or the worker is closed. *)
Definition project_in_blocking {A} (work : aio worker A) : aio worker A := λ w,
  match work w with
  | (w, Ready (Err e)) =>
      match pe_rollback env with
      | None => (mkWorker (sw_storage w) (set_writer (tv_rollback (li_index (sw_index w))) (sw_index w)) (sw_closed w),
                 Ready (Err e))
      | Some rollback => (mkWorker (sw_storage w) (sw_index w) true,
                          Ready (Err (Error_Search ("search projection failed; writer rollback failed: " +:+ rollback))))
      end
  | r => r
  end.

(** [with_search_epoch_fence] around an index publication. *)
Definition fenced {A} (epoch : N) (publish : aio worker A) : aio worker A :=
  let~ current := read_store (λ s, search_projection_epoch s group) in
  if negb (current =? epoch)%N then aio_io (io_err (Error_Search "source epoch changed during search projection"))
  else publish.

(** Commit, then publish the committed checkpoint as the consumer's. *)
Definition publish (v : SearchSourceView (D:=D)) : aio worker unit :=
  on_store (aio_io (io_modify (pe_during env))) ;;~
  fenced (sv_epoch v)
    (on_index (commit (pe_commit env) (sv_epoch v) (sv_applied v)) ;;~
     let~ committed := read_index (λ i, ok_or (tv_payload (li_index i)) (Error_Search "Tantivy commit has no checkpoint")) in
     let~ generation := read_index (λ i, Ok (sg_id (li_generation i))) in
     on_store (aio_io (record_search_consumer_checkpoint group name generation committed))).
Definition prune : aio worker unit := on_store (aio_io (prune_search_outbox group)) ;;~ aio_ret tt.

(** [begin_rebuild]. *)
Definition begin_rebuild : aio worker unit :=
  let~ generation := read_index (λ i, Ok (li_generation i)) in
  on_store (aio_io (begin_search_consumer_rebuild group name generation)).

(** [rebuild_streaming]. *)
Definition rebuild_work : aio worker SearchCatchUp :=
  let~ v := read_store (λ s, search_source_view s group) in
  wait_applied (sv_applied v) ;;~
  let~ generation := read_index (λ i, Ok (sg_id (li_generation i))) in
  on_store (aio_io (record_search_consumer_retention_floor group name generation
                      (sv_epoch v, index_or_zero (sv_applied v)))) ;;~
  let~ rows := read_store (λ _, for_each_user v) in
  let~ counts := on_index (rebuild_from_view document (pe_engine env) (pe_rollback env) rows) in
  publish v ;;~
  prune ;;~
  aio_ret (mkCatchUp true counts.1 counts.2 (rl_index <$> sv_applied v)).
Definition rebuild_streaming : aio worker SearchCatchUp := project_in_blocking rebuild_work.

(** [incremental_position]. *)
Definition incremental_position : aio worker (option N) :=
  let~ epoch := read_store (λ s, search_projection_epoch s group) in
  read_index (λ i, Ok ((λ ck, index_or_zero (ck_source_log_id ck)) <$> validate_checkpoint i epoch)).

(** The repair of the consumer's checkpoint when there is nothing to project. *)
Definition repair (v : SearchSourceView (D:=D)) (checkpoint : IndexCheckpoint) : aio worker bool :=
  fenced (sv_epoch v)
    (let~ generation := read_index (λ i, Ok (sg_id (li_generation i))) in
     let~ durable := read_store (λ s, search_consumer_checkpoint s group name generation) in
     if bool_decide (durable = Some checkpoint) then aio_ret false
     else on_store (aio_io (record_search_consumer_checkpoint group name generation checkpoint)) ;;~ aio_ret true).

(** The incremental pass of [run_pass] from a usable checkpoint. *)
Definition incremental_project (v : SearchSourceView (D:=D)) (checkpoint : IndexCheckpoint) : aio worker SearchCatchUp :=
  wait_applied (sv_applied v) ;;~
  let after := index_or_zero (ck_source_log_id checkpoint) in
  let~ rows := read_store (λ _, for_each_dirty v after) in
  let~ rejected := on_index (project_rows document (pe_engine env) rows 0) in
  let through := index_or_zero (sv_applied v) in
  let checkpoint_index := if (through =? 0)%N then None else Some through in
  if bool_decide (rows = []) && bool_decide (ck_source_log_id checkpoint = sv_applied v)
  then
    on_store (aio_io (io_modify (pe_during env))) ;;~
    let~ repaired := repair v checkpoint in
    (if (repaired : bool) then prune else aio_ret tt) ;;~
    aio_ret (mkCatchUp false 0 0 checkpoint_index)
  else
    publish v ;;~
    prune ;;~
    aio_ret (mkCatchUp false (length rows) rejected checkpoint_index).

(** The whole of it; [None] when it finds it must rebuild. *)
Definition incremental_work : aio worker (option SearchCatchUp) :=
  let~ v := read_store (λ s, search_source_view s group) in
  let~ checkpoint := read_index (λ i, Ok (validate_checkpoint i (sv_epoch v))) in
  match checkpoint with
  | None => aio_ret None
  | Some checkpoint =>
      if checkpoint_ahead_of_source checkpoint (sv_applied v) then aio_ret None
      else let~ result := incremental_project v checkpoint in aio_ret (Some result)
  end.
Definition incremental : aio worker (option SearchCatchUp) := project_in_blocking incremental_work.

(** The rebuild of [run_pass], behind the disk-space admission of [reserve_search_rebuild]. *)
Definition admitted_rebuild : aio worker SearchCatchUp :=
  aio_io (io_read (λ _, match pe_admission env with Some e => Err (Error_Search e) | None => Ok tt end)) ;;~
  begin_rebuild ;;~
  rebuild_streaming.

(** [run_pass]. *)
Definition run_pass (force_rebuild : bool) : aio worker SearchCatchUp := λ w,
  if sw_closed w then (w, Ready (Err (Error_Search "search generation is closed")))
  else
    (let~ hint := (if force_rebuild then aio_ret None else incremental_position) in
     match hint with
     | None => admitted_rebuild
     | Some _ =>
         let~ result := incremental in
         match result with Some result => aio_ret result | None => admitted_rebuild end
     end) w.

(** [close_and_drain]; the pass it waits for has ended. *)
Definition close_and_drain : aio worker unit := λ w, (mkWorker (sw_storage w) (sw_index w) true, Ready (Ok tt)).

(** [catch_up] and [catch_up_rebuilding]. *)
Definition catch_up_rebuilding (force_rebuild : bool) : aio worker SearchCatchUp := run_pass force_rebuild.
Definition catch_up : aio worker SearchCatchUp :=
  let~ generation := read_index (λ i, Ok (sg_id (li_generation i))) in
  let~ forced := read_store (λ s, search_consumer_needs_rebuild s group name generation) in
  catch_up_rebuilding forced.
End worker.
