(* ===== verification/SearchWorkerProofs.v ===== *)
(** * Correctness of the search projection worker

    A pass publishes the documents of one snapshot of the store, all of them or
    none; a pass that succeeds has made the index exact. *)

From S2P Require Import Prelude BTree Types Codec SearchDef Keyspace Outbox ApplyDurability Aio Rocks Storage DataSM SearchStore SearchWorker.

Section index.
Context `{TantivyOk TI Doc} (document : bytes → N → bytes → Extracted Doc) (engine : bytes → option string).
Implicit Types (i : LocalSearchIndex TI Doc).

(** The document a record is indexed as, if any. *)
Definition doc_of (key : bytes) (source : option (N * bytes)) : option Doc :=
  match source with
  | None => None
  | Some (version, value) =>
      if (SEARCH_MAX_KEY_BYTES <? N.of_nat (length key))%N then None
      else match document key version value with Extracted_Document d => Some d | _ => None end
  end.

#[global] Arguments doc_of : simpl never.

(** Only what the writer has buffered differs. *)
Record buffered i i' : Prop := {
  bf_generation : li_generation i' = li_generation i;
  bf_searcher : li_searcher i' = li_searcher i;
  bf_checkpoint : li_checkpoint i' = li_checkpoint i;
  bf_committed : tv_committed (li_index i') = tv_committed (li_index i);
}.

Lemma buffered_refl i : buffered i i.
Proof. by constructor. Qed.
Lemma buffered_trans i1 i2 i3 : buffered i1 i2 → buffered i2 i3 → buffered i1 i3.
Proof. intros [] []. constructor; congruence. Qed.
Lemma buffered_writer w i : tv_committed w = tv_committed (li_index i) → buffered i (set_writer w i).
Proof. by constructor. Qed.

Lemma add_if_indexable_spec key version value i i' r : add_if_indexable document engine key version value i = (i', r) →
  buffered i i' ∧ (is_ok r = true → tv_pending (li_index i) !! key = None →
    tv_pending (li_index i') = match doc_of key (Some (version, value)) with
                               | Some d => <[key := d]> (tv_pending (li_index i)) | None => tv_pending (li_index i) end).
Proof.
  unfold add_if_indexable, doc_of. destruct (_ <? _)%N; [intros [= <- <-]; split; [apply buffered_refl|done]|].
  destruct (document key version value) as [d| |]; [|intros [= <- <-]; split; [apply buffered_refl|done]..].
  destruct (engine key); intros [= <- <-]; [split; [apply buffered_refl|done]|].
  split; [apply buffered_writer, committed_add|]. intros _ Hk. simpl. by apply pending_add.
Qed.

Lemma project_spec key source i i' r : project document engine key source i = (i', r) →
  buffered i i' ∧ (is_ok r = true →
    tv_pending (li_index i') = partial_alter (λ _, doc_of key source) key (tv_pending (li_index i))).
Proof.
  unfold project. intros E. cbn [io_bind io_modify] in E. unfold io_bind, io_modify in E.
  set (i1 := set_writer _ i) in E. assert (buffered i i1) as Hb1 by apply buffered_writer, committed_delete.
  assert (tv_pending (li_index i1) = delete key (tv_pending (li_index i))) as Hp1 by apply pending_delete.
  destruct source as [[version value]|].
  - destruct (add_if_indexable document engine key version value i1) as [i2 [rej|e]] eqn:Ea; injection E as <- <-;
      apply add_if_indexable_spec in Ea as [Hb2 Hp2]; (split; [by eapply buffered_trans|]); [|done].
    intros _. rewrite Hp2 by (done || by rewrite Hp1, lookup_delete_eq). rewrite Hp1.
    destruct (doc_of key _) as [d|]; [by rewrite insert_delete_eq|done].
  - injection E as <- <-. split; [done|]. intros _. by rewrite Hp1.
Qed.

Lemma project_rows_spec rows f : Forall (λ row, row.2 = f row.1) rows → ∀ n i i' r,
  project_rows document engine rows n i = (i', r) →
  buffered i i' ∧ (is_ok r = true → ∀ k,
    tv_pending (li_index i') !! k = if decide (k ∈ rows.*1) then doc_of k (f k) else tv_pending (li_index i) !! k).
Proof.
  induction 1 as [|[key source] rows Hrow _ IH]; intros n i i' r E; simpl in E.
  { injection E as <- <-. split; [apply buffered_refl|]. intros _ k. by rewrite decide_False by apply not_elem_of_nil. }
  simpl in Hrow. subst source. unfold io_bind in E.
  destruct (project document engine key (f key) i) as [i1 [rej|e]] eqn:Ep; apply project_spec in Ep as [Hb1 Hp1].
  - apply IH in E as [Hb2 Hp2]. split; [by eapply buffered_trans|]. intros Hr k. rewrite Hp2 by done. cbn [fmap list_fmap fst].
    rewrite Hp1 by done. destruct (decide (k ∈ rows.*1)) as [Hk|Hk].
    + by rewrite decide_True by (by right).
    + destruct (decide (k = key)) as [->|Hne].
      * rewrite decide_True by (by left). by rewrite lookup_partial_alter_eq.
      * rewrite decide_False by (by intros [?|?]%elem_of_cons). by rewrite lookup_partial_alter_ne.
  - injection E as <- <-. by split.
Qed.

Lemma add_rows_spec rows f : Forall (λ row, f row.1 = Some row.2) rows → NoDup rows.*1 → ∀ n i i' r,
  (∀ k, k ∈ rows.*1 → tv_pending (li_index i) !! k = None) →
  add_rows document engine rows n i = (i', r) →
  buffered i i' ∧ (is_ok r = true → ∀ k,
    tv_pending (li_index i') !! k = if decide (k ∈ rows.*1) then doc_of k (f k) else tv_pending (li_index i) !! k).
Proof.
  induction 1 as [|[key [version value]] rows Hrow _ IH]; intros Hnd n i i' r Hnone E; simpl in E.
  { injection E as <- <-. split; [apply buffered_refl|]. intros _ k. by rewrite decide_False by apply not_elem_of_nil. }
  unfold io_bind in E. cbn [fmap list_fmap fst snd] in *. apply NoDup_cons in Hnd as [Hnk Hnd].
  destruct (add_if_indexable document engine key version value i) as [i1 [rej|e]] eqn:Ep;
    apply add_if_indexable_spec in Ep as [Hb1 Hp1]; last first.
  { injection E as <- <-. by split. }
  specialize (Hp1 eq_refl (Hnone key ltac:(by left))). rewrite <-Hrow in Hp1.
  assert (∀ k, k ≠ key → tv_pending (li_index i1) !! k = tv_pending (li_index i) !! k) as Hne.
  { intros k Hk. rewrite Hp1. destruct (doc_of key _); [by rewrite lookup_insert_ne|done]. }
  apply IH in E as [Hb2 Hp2]; [|done|]; last first.
  { intros k Hk. rewrite Hne by (by intros ->). apply Hnone. by right. }
  split; [by eapply buffered_trans|]. intros Hr k. rewrite Hp2 by done. destruct (decide (k = key)) as [->|Hk].
  - rewrite decide_False by done. rewrite decide_True by (by left). rewrite Hp1.
    destruct (doc_of key _) eqn:Ed; [by rewrite lookup_insert_eq|]. apply Hnone. by left.
  - rewrite Hne by done. destruct (decide (k ∈ rows.*1)); [by rewrite decide_True by (by right)|].
    by rewrite decide_False by (by intros [?|?]%elem_of_cons).
Qed.
End index.

Section views.
Context `{RocksOk D} `{!Codec U64, !Codec string, !Codec RaftApplied, !Codec SearchConsumerState, !Codec KeyRecord}.
Context `{TantivyOk TI Doc} (document : bytes → N → bytes → Extracted Doc).
Implicit Types (s : Storage D) (v : SearchSourceView (D:=D)).

(** The record a view has of a key, and the index it stands for. *)
Definition source_of v (k : bytes) : option (N * bytes) :=
  match decode_opt (T:=KeyRecord) (get_cf (sv_db v) (sv_cf v) (user_key k)) with
  | Ok r => (λ r, (kr_version r, kr_value r)) <$> r
  | Err _ => None
  end.
Definition image v (k : bytes) : option Doc := doc_of document k (source_of v k).

(** A key with a journal entry above a position, within the view's prefix. *)
Definition dirty v (after : N) (k : bytes) : Prop := ∃ e, dirty_entry v after e ∧ oe_user_key e = k.

Lemma dirty_row_source v e row : dirty_row v e = Ok row → row = (oe_user_key e, source_of v (oe_user_key e)).
Proof. unfold dirty_row, source_of. intros (r & -> & [= <-])%rbind_ok. done. Qed.

Lemma for_each_dirty_source v after rows : (sv_epoch v ≤ u64_max)%N → for_each_dirty v after = Ok rows →
  Forall (λ row, row.2 = source_of v row.1) rows ∧ ∀ k, dirty v after k → k ∈ rows.*1.
Proof.
  intros He Hr. destruct (for_each_dirty_spec v after rows He Hr) as [Hin Hout]. split.
  - apply Forall_forall. intros row (e & _ & ->%dirty_row_source)%Hout. done.
  - intros k (e & (row & Hrow & ->%dirty_row_source)%Hin & <-). by apply (list_elem_of_fmap_2 fst) in Hrow.
Qed.

Lemma for_each_user_source v rows : for_each_user v = Ok rows →
  NoDup rows.*1 ∧ Forall (λ row, source_of v row.1 = Some row.2) rows ∧ ∀ k, is_Some (source_of v k) → k ∈ rows.*1.
Proof.
  unfold for_each_user. change (take_while _ _) with (scan_prefix (sv_db v) (sv_cf v) [TAG_USER]). intros Hm%mapR_ok.
  set (kvs := scan_prefix _ _ _) in Hm.
  assert (rows.*1 = drop 1 <$> kvs.*1) as Hk.
  { clear -Hm. induction Hm as [|kv row kvs rows Hkv _ IH]; [done|]. cbn [fmap list_fmap].
    apply rbind_ok in Hkv as (r & _ & [= <-]). simpl. by f_equal. }
  split; [|split].
  - rewrite Hk. assert (NoDup kvs.*1) as Hnd.
    { unfold kvs. rewrite scan_prefix_filter. apply sorted_NoDup, StronglySorted_filter_fst, iter_sorted. }
    apply NoDup_fmap_2_strong; [|done]. intros x y Hx Hy.
    apply list_elem_of_fmap in Hx as ([x' ?] & -> & Hx). apply list_elem_of_fmap in Hy as ([y' ?] & -> & Hy).
    apply elem_of_scan_prefix in Hx as [[? ->] _]. apply elem_of_scan_prefix in Hy as [[? ->] _]. intros E. simpl in E. rewrite !drop_0 in E. by subst.
  - apply Forall_forall. intros row [j Hj]%list_elem_of_lookup.
    destruct (Forall2_lookup_r _ _ _ _ _ Hm Hj) as ([k b] & Hkb%list_elem_of_lookup_2 & Er).
    apply elem_of_scan_prefix in Hkb as [[k' ->] Hg]. apply rbind_ok in Er as (r & Hd & [= <-]). simpl in *.
    unfold source_of, user_key, decode_opt. rewrite drop_0, Hg, Hd. done.
  - intros k [src Hsrc]. rewrite Hk. unfold source_of in Hsrc.
    destruct (get_cf (sv_db v) (sv_cf v) (user_key k)) as [b|] eqn:Hg; [|done].
    apply list_elem_of_fmap. exists (user_key k). split; [done|]. apply list_elem_of_fmap. exists (user_key k, b).
    split; [done|]. apply elem_of_scan_prefix. split; [by exists k|done].
Qed.
End views.

(** ** Passes *)

Section passes.
Context `{RocksOk D} `{!Codec U64, !Codec U128, !Codec string, !Codec RaftApplied, !Codec SearchConsumerState, !Codec KeyRecord}.
Context `{Hashes} `{!Codec SearchIndexDefinition}.
Context `{TantivyOk TI Doc} (document : bytes → N → bytes → Extracted Doc).
Context (group : GroupId) (name : string) (env : PassEnv D).
Implicit Types (s : Storage D) (v : SearchSourceView (D:=D)) (i : LocalSearchIndex TI Doc) (w : SearchIndexWorker D TI Doc).

(** Two views of the same data. *)
Record same_source v v' : Prop := {
  ss_group : sv_group v' = sv_group v;
  ss_epoch : sv_epoch v' = sv_epoch v;
  ss_applied : sv_applied v' = sv_applied v;
  ss_source k : source_of v' k = source_of v k;
}.

Definition fresh_checkpoint i v : IndexCheckpoint :=
  mkCheckpoint (sv_epoch v) (sg_definition_hash (li_generation i)) (sg_engine_revision (li_generation i)) (sv_applied v).

(** Searches see what they saw before. *)
Record untouched i i' : Prop := {
  ut_generation : li_generation i' = li_generation i;
  ut_searcher : li_searcher i' = li_searcher i;
  ut_checkpoint : li_checkpoint i' = li_checkpoint i;
}.
(** Searches see exactly the documents of the view, under its position. *)
Record published i i' v : Prop := {
  pb_generation : li_generation i' = li_generation i;
  pb_searcher k : li_searcher i' !! k = image document v k;
  pb_checkpoint : li_checkpoint i' = Some (fresh_checkpoint i v);
  pb_committed : tv_committed (li_index i') = li_searcher i';
  pb_pending : tv_pending (li_index i') = li_searcher i';
}.
Definition clean i : Prop := tv_pending (li_index i) = tv_committed (li_index i).

Lemma published_same i i' v v' : same_source v v' → published i i' v' → published i i' v.
Proof.
  intros [Hg He Ha Hs] [? Hp Hc ? ?]. constructor; try done.
  - intros k. rewrite Hp. unfold image. by rewrite Hs.
  - rewrite Hc. unfold fresh_checkpoint. by rewrite He, Ha.
Qed.
Lemma buffered_untouched i i' : buffered i i' → untouched i i'.
Proof. by intros []. Qed.
Lemma untouched_trans i1 i2 i3 : untouched i1 i2 → untouched i2 i3 → untouched i1 i3.
Proof. intros [] []. constructor; congruence. Qed.
Lemma published_buffered i1 i2 i3 v : li_generation i2 = li_generation i1 → published i2 i3 v → published i1 i3 v.
Proof. intros Hg [? ? Hc ? ?]. constructor; [congruence|done| |done|done]. rewrite Hc. unfold fresh_checkpoint. by rewrite Hg. Qed.

(** ** Steps that leave the index alone *)

Lemma on_store_inv {A} (m : aio (Storage D) A) w w' r : on_store m w = (w', r) →
  sw_index w' = sw_index w ∧ sw_closed w' = sw_closed w ∧ m (sw_storage w) = (sw_storage w', r).
Proof. unfold on_store. destruct (m (sw_storage w)) as [s1 r1]. by intros [= <- <-]. Qed.
Lemma on_index_inv {A} (m : io (LocalSearchIndex TI Doc) A) w w' r : on_index m w = (w', r) →
  sw_storage w' = sw_storage w ∧ sw_closed w' = sw_closed w ∧ ∃ x, m (sw_index w) = (sw_index w', x) ∧ r = Ready x.
Proof. unfold on_index. destruct (m (sw_index w)) as [i1 x]. intros [= <- <-]. eauto. Qed.
Lemma read_store_inv {A} (f : Storage D → Result A) w w' r : read_store (TI:=TI) (Doc:=Doc) f w = (w', r) →
  w' = w ∧ r = Ready (f (sw_storage w)).
Proof. intros E. unfold read_store, on_store, aio_io, io_read in E. destruct w. by injection E as <- <-. Qed.
Lemma read_index_inv {A} (f : LocalSearchIndex TI Doc → Result A) w w' r : read_index (D:=D) f w = (w', r) →
  w' = w ∧ r = Ready (f (sw_index w)).
Proof. intros E. unfold read_index, on_index, io_read in E. destruct w. by injection E as <- <-. Qed.

(** A computation that leaves the index and the closed flag alone. *)
Definition quiet {A} (m : aio (SearchIndexWorker D TI Doc) A) : Prop := ∀ w w' r, m w = (w', r) →
  sw_index w' = sw_index w ∧ sw_closed w' = sw_closed w.

Lemma quiet_ret {A} (a : A) : quiet (aio_ret a).
Proof. by intros w w' r [= <- <-]. Qed.
Lemma quiet_io {A} (m : aio (Storage D) A) : quiet (on_store m).
Proof. intros w w' r E%on_store_inv. naive_solver. Qed.
Lemma quiet_read_store {A} (f : Storage D → Result A) : quiet (read_store f).
Proof. intros w w' r [-> _]%read_store_inv. done. Qed.
Lemma quiet_read_index {A} (f : LocalSearchIndex TI Doc → Result A) : quiet (read_index f).
Proof. intros w w' r [-> _]%read_index_inv. done. Qed.
Lemma quiet_err {A} e : quiet (aio_io (io_err (A:=A) e)).
Proof. by intros w w' r [= <- <-]. Qed.
Lemma quiet_bind {A B} (m : aio (SearchIndexWorker D TI Doc) A) (k : A → aio (SearchIndexWorker D TI Doc) B) :
  quiet m → (∀ a, quiet (k a)) → quiet (aio_bind m k).
Proof.
  intros Hm Hk w w' r [(w1 & a & E1 & E2)|[[E1 ->]|(e & E1 & ->)]]%aio_bind_ready; apply Hm in E1 as [? ?]; [|done..].
  apply Hk in E2 as [? ?]. split; congruence.
Qed.
Lemma quiet_wait applied : quiet (wait_applied group env applied).
Proof. destruct applied; [apply quiet_io|apply quiet_ret]. Qed.
Lemma quiet_prune : quiet (prune (TI:=TI) (Doc:=Doc) group).
Proof. apply quiet_bind; [apply quiet_io|intros; apply quiet_ret]. Qed.
Lemma quiet_fenced {A} epoch (m : aio (SearchIndexWorker D TI Doc) A) : quiet m → quiet (fenced group epoch m).
Proof. intros Hm. apply quiet_bind; [apply quiet_read_store|]. intros c. destruct (negb _); [apply quiet_err|done]. Qed.
Lemma quiet_repair v ck : quiet (repair (TI:=TI) (Doc:=Doc) group name v ck).
Proof.
  apply quiet_fenced, quiet_bind; [apply quiet_read_index|]. intros g. apply quiet_bind; [apply quiet_read_store|].
  intros d. destruct (bool_decide _); [apply quiet_ret|]. apply quiet_bind; [apply quiet_io|intros; apply quiet_ret].
Qed.
Lemma quiet_begin : quiet (begin_rebuild (TI:=TI) (Doc:=Doc) group name).
Proof. apply quiet_bind; [apply quiet_read_index|intros; apply quiet_io]. Qed.

(** ** Publication *)

Lemma commit_spec fate v i i' r : (∀ k, tv_pending (li_index i) !! k = image document v k) →
  commit fate (sv_epoch v) (sv_applied v) i = (i', r) →
  (untouched i i' ∧ r ≠ Ok tt) ∨ published i i' v.
Proof.
  intros Hp. unfold commit. cbv zeta. destruct fate; intros [= <- <-].
  - right. constructor; cbn; [done| |done|done|]; rewrite ?committed_commit; [done|]. by rewrite pending_commit.
  - left. split; [|done]. by constructor.
  - left. split; [|done]. by constructor.
Qed.

Lemma publish_spec v w w' r : (∀ k, tv_pending (li_index (sw_index w)) !! k = image document v k) →
  publish group name env v w = (w', r) →
  sw_closed w' = sw_closed w ∧
  ((untouched (sw_index w) (sw_index w') ∧ r ≠ Ready (Ok tt)) ∨ published (sw_index w) (sw_index w') v).
Proof.
  intros Hp. unfold publish. intros [(w1 & [] & E1 & E)|[[E1 ->]|(e & E1 & ->)]]%aio_bind_ready; apply quiet_io in E1 as [Hi1 Hc1].
  2,3: rewrite Hi1; split; [done|left; by split].
  unfold fenced in E. apply aio_bind_ready in E as [(w2 & c & E2 & E)|[[E2 ->]|(e & E2 & ->)]]; apply read_store_inv in E2 as [-> ?];
    [|done|rewrite Hi1; split; [done|left; by split]].
  destruct (negb _); [injection E as <- <-; rewrite Hi1; split; [done|left; by split]|].
  apply aio_bind_ready in E as [(w2 & [] & E2 & E)|[[E2 ->]|(e & E2 & ->)]]; apply on_index_inv in E2 as (_ & Hc2 & x & E2 & Hx);
    rewrite Hi1 in E2; apply commit_spec in E2; [|done| |done|destruct E2 as [[? ?]|?]; naive_solver|done].
  2: done.
  assert (∀ w2 w' r, aio_bind (read_index (λ i, ok_or (tv_payload (li_index i)) (Error_Search "Tantivy commit has no checkpoint")))
    (λ committed, aio_bind (read_index (λ i, Ok (sg_id (li_generation i)))) (λ generation,
      on_store (aio_io (record_search_consumer_checkpoint group name generation committed)))) w2 = (w', r) →
    sw_index w' = sw_index w2 ∧ sw_closed w' = sw_closed w2) as Htail.
  { apply quiet_bind; [apply quiet_read_index|]. intros ck. apply quiet_bind; [apply quiet_read_index|]. intros g. apply quiet_io. }
  apply Htail in E as [Hi3 Hc3]. rewrite Hi3. split; [congruence|]. destruct E2 as [[_ Hne]|?]; [by injection Hx as <-|by right].
Qed.

(** ** Whole passes *)

(** The index after a pass over [v] that began at [i]. *)
Definition outcome i v i' (ok : Prop) : Prop := (untouched i i' ∧ ¬ ok) ∨ published i i' v.
Definition succeeded {A} (r : poll (Result A)) : Prop := ∃ a, r = Ready (Ok a).

Lemma rebuild_from_view_spec v rows i i' r : for_each_user v = Ok rows →
  rebuild_from_view document (pe_engine env) (pe_rollback env) rows i = (i', r) →
  buffered i i' ∧ (is_ok r = true → ∀ k, tv_pending (li_index i') !! k = image document v k).
Proof.
  intros (Hnd & Hsrc & Hall)%for_each_user_source. unfold rebuild_from_view, io_bind, io_modify.
  destruct (pe_rollback env) as [e|]; [intros [= <- <-]; split; [apply buffered_refl|done]|].
  set (i1 := set_writer (tv_delete_all_documents _) _).
  assert (buffered i i1) as Hb1.
  { eapply buffered_trans; apply buffered_writer; [apply committed_rollback|]. cbn. apply committed_delete_all. }
  assert (tv_pending (li_index i1) = ∅) as Hp1.
  { apply pending_delete_all. cbn. by rewrite pending_rollback, committed_rollback. }
  destruct (add_rows document (pe_engine env) rows 0 i1) as [i2 x] eqn:Ea.
  apply (add_rows_spec _ _ _ (source_of v)) in Ea as [Hb2 Hp2]; [|done|done|intros k _; by rewrite Hp1, lookup_empty].
  destruct x as [n|e]; intros [= <- <-]; (split; [by eapply buffered_trans|]); [|done].
  intros _ k. rewrite Hp2 by done. unfold image. destruct (decide (k ∈ rows.*1)) as [|Hk]; [done|].
  rewrite Hp1, lookup_empty. destruct (source_of v k) eqn:Es; [|done]. destruct Hk. by apply Hall.
Qed.

Lemma blocking_outcome {A} (m : aio (SearchIndexWorker D TI Doc) A) i v w w' r w1 r1 :
  m w = (w1, r1) → project_in_blocking env m w = (w', r) → outcome i v (sw_index w1) (succeeded r1) →
  outcome i v (sw_index w') (succeeded r) ∧ (∀ e, r = Ready (Err e) → sw_closed w' = true ∨ clean (sw_index w')) ∧
  (succeeded r → w' = w1 ∧ r = r1).
Proof.
  intros Hm. unfold project_in_blocking. rewrite Hm. destruct r1 as [[a|e]|].
  - intros [= <- <-] Ho. by split_and!.
  - assert (¬ succeeded (Ready (Err e) : poll (Result A))) as Hn by by intros [? ?].
    destruct (pe_rollback env) as [rb|]; intros [= <- <-] Ho.
    + split_and!; [destruct Ho as [[? _]|?]; [left|by right]; split; [done|]; by intros [? ?]|intros; by left|by intros [? ?]].
    + split_and!.
      * destruct Ho as [[[? ? ?] _]|[? ? ? Hc Hp]]; [left|right].
        -- split; [by constructor|]. by intros [? ?].
        -- constructor; cbn; [done..|by rewrite committed_rollback|by rewrite pending_rollback].
      * intros. right. unfold clean. cbn. by rewrite pending_rollback, committed_rollback.
      * by intros [? ?].
  - intros [= <- <-] Ho. by split_and!.
Qed.

(** Steps before and after the publication. *)
Lemma outcome_quiet {A B} (m : aio (SearchIndexWorker D TI Doc) A) (k : A → aio (SearchIndexWorker D TI Doc) B) i v w w' r :
  quiet m → aio_bind m k w = (w', r) → untouched i (sw_index w) →
  (∀ a w1, m w = (w1, Ready (Ok a)) → sw_index w1 = sw_index w → k a w1 = (w', r) → outcome i v (sw_index w') (succeeded r)) →
  outcome i v (sw_index w') (succeeded r).
Proof.
  intros Hq [(w1 & a & E & Ek)|[[E ->]|(e & E & ->)]]%aio_bind_ready Hu Hk.
  - eapply Hk; [exact E| |exact Ek]. by apply Hq in E as [? _].
  - left. apply Hq in E as [-> _]. split; [done|by intros [? ?]].
  - left. apply Hq in E as [-> _]. split; [done|by intros [? ?]].
Qed.
Lemma published_quiet {A} (m : aio (SearchIndexWorker D TI Doc) A) i v w w' r :
  quiet m → m w = (w', r) → published i (sw_index w) v → outcome i v (sw_index w') (succeeded r).
Proof. intros Hq [-> _]%Hq Hp. by right. Qed.

(** The publication of a prepared writer, and what follows it. *)
Lemma outcome_publish {A} (k : unit → aio (SearchIndexWorker D TI Doc) A) i v w w' r :
  untouched i (sw_index w) → (∀ k, tv_pending (li_index (sw_index w)) !! k = image document v k) → (∀ u, quiet (k u)) →
  aio_bind (publish group name env v) k w = (w', r) → outcome i v (sw_index w') (succeeded r).
Proof.
  intros Hu Hp Hk [(w1 & [] & E & Ek)|[[E ->]|(e & E & ->)]]%aio_bind_ready;
    apply (publish_spec _ _ _ _ Hp) in E as [_ [[Hu' Hne]|Hpub]]; [done|..]; try (apply (published_buffered i) in Hpub; [|apply Hu]).
  - by eapply published_quiet.
  - left. split; [by eapply untouched_trans|by intros [? ?]].
  - by right.
  - left. split; [by eapply untouched_trans|by intros [? ?]].
  - by right.
Qed.

Lemma untouched_eq i w : sw_index w = i → untouched i (sw_index w).
Proof. by intros ->. Qed.

Lemma quiet_finish {A} (a : A) : quiet (aio_bind (prune (TI:=TI) (Doc:=Doc) group) (λ _, aio_ret a)).
Proof. apply quiet_bind; [apply quiet_prune|intros; apply quiet_ret]. Qed.

Lemma rebuild_streaming_spec w w' r v : search_source_view (sw_storage w) group = Ok v →
  rebuild_streaming document group name env w = (w', r) →
  outcome (sw_index w) v (sw_index w') (succeeded r) ∧
  ∀ e, r = Ready (Err e) → sw_closed w' = true ∨ clean (sw_index w').
Proof.
  intros Hv Hb. destruct (rebuild_work document group name env w) as [w1 r1] eqn:Em.
  enough (outcome (sw_index w) v (sw_index w1) (succeeded r1)) as Ho by (by destruct (blocking_outcome _ _ _ _ _ _ _ _ Em Hb Ho) as (? & ? & _)).
  clear Hb.
  eapply (outcome_quiet _ _ _ _ _ _ _ (quiet_read_store _) Em); [done|]. intros v' w2 [-> E]%read_store_inv _ Em2.
  rewrite Hv in E. injection E as ->. clear Em.
  eapply (outcome_quiet _ _ _ _ _ _ _ (quiet_wait _) Em2); [done|]. intros u3 w3 _ Hi3 Em3.
  eapply (outcome_quiet _ _ _ _ _ _ _ (quiet_read_index _) Em3); [by apply untouched_eq|]. intros g w4 _ Hi4 Em4.
  eapply (outcome_quiet _ _ _ _ _ _ _ (quiet_io _) Em4); [apply untouched_eq; congruence|]. intros u5 w5 _ Hi5 Em5.
  eapply (outcome_quiet _ _ _ _ _ _ _ (quiet_read_store _) Em5); [apply untouched_eq; congruence|].
  intros rows w6 [-> E]%read_store_inv _ Em6. injection E as Hrows. symmetry in Hrows.
  assert (sw_index w5 = sw_index w) as Hi by congruence.
  assert (∀ w4 x, on_index (rebuild_from_view document (pe_engine env) (pe_rollback env) rows) w5 = (w4, x) →
    untouched (sw_index w) (sw_index w4) ∧ (succeeded x → ∀ k, tv_pending (li_index (sw_index w4)) !! k = image document v k)) as Hreb.
  { intros w6 x (_ & _ & y & E & ->)%on_index_inv. rewrite Hi in E. apply (rebuild_from_view_spec v) in E as [Hb Hp]; [|done].
    split; [by apply buffered_untouched|]. intros [c [= ->]]. by apply Hp. }
  apply aio_bind_ready in Em6 as [(w6 & counts & E & Em6)|[[E ->]|(e & E & ->)]]; apply Hreb in E as [Hut Hpend];
    [|left; split; [done|by intros [? ?]]..].
  eapply outcome_publish; [exact Hut|apply Hpend; by eexists| |exact Em6]. intros u. apply quiet_finish.
Qed.

(** ** Incremental passes *)

(** The loaded index is right except for keys with a journal entry above its checkpoint. *)
Definition covers i v : Prop := ∀ ck, validate_checkpoint i (sv_epoch v) = Some ck → ∀ k,
  dirty v (index_or_zero (ck_source_log_id ck)) k ∨
  (li_searcher i !! k = image document v k ∧ tv_pending (li_index i) !! k = image document v k).

Lemma validate_checkpoint_spec i epoch ck : validate_checkpoint i epoch = Some ck →
  li_checkpoint i = Some ck ∧ ck_projection_epoch ck = epoch ∧
  ck_definition_hash ck = sg_definition_hash (li_generation i) ∧ ck_engine_revision ck = sg_engine_revision (li_generation i).
Proof.
  unfold validate_checkpoint. destruct (li_checkpoint i) as [c|]; [|done]. destruct (_ || _) eqn:E; [done|].
  intros [= ->]. by bools.
Qed.

(** A pass that finds nothing to project has an exact index already. *)
Lemma covers_published i v ck : clean i → covers i v → validate_checkpoint i (sv_epoch v) = Some ck →
  ck_source_log_id ck = sv_applied v → (∀ k, ¬ dirty v (index_or_zero (ck_source_log_id ck)) k) → published i i v.
Proof.
  intros Hc Hcov Hv Hs Hd.
  assert (∀ k, li_searcher i !! k = image document v k ∧ tv_pending (li_index i) !! k = image document v k) as Hall.
  { intros k. destruct (Hcov ck Hv k) as [?|?]; [by destruct (Hd k)|done]. }
  assert (tv_pending (li_index i) = li_searcher i) as Hp.
  { apply map_eq. intros k. destruct (Hall k) as [-> ->]. done. }
  apply validate_checkpoint_spec in Hv as (Hck & He & Hh & Hr).
  constructor; [done|apply Hall| |by rewrite <-Hc|done]. rewrite Hck. unfold fresh_checkpoint. rewrite <-Hs, <-He, <-Hh, <-Hr.
  by destruct ck.
Qed.

Lemma project_rows_view v after rows n i i' r : (sv_epoch v ≤ u64_max)%N → for_each_dirty v after = Ok rows →
  (∀ k, dirty v after k ∨ tv_pending (li_index i) !! k = image document v k) →
  project_rows document (pe_engine env) rows n i = (i', r) →
  buffered i i' ∧ (is_ok r = true → ∀ k, tv_pending (li_index i') !! k = image document v k).
Proof.
  intros He [Hsrc Hall]%for_each_dirty_source Hp E; [|done]. apply (project_rows_spec _ _ _ (source_of v) Hsrc) in E as [Hb Hx].
  split; [done|]. intros Hr k. rewrite Hx by done. destruct (decide (k ∈ rows.*1)) as [|Hk]; [done|].
  destruct (Hp k) as [Hd|]; [|done]. by destruct Hk; apply Hall.
Qed.

Lemma incremental_project_spec w w' r v ck : (sv_epoch v ≤ u64_max)%N → clean (sw_index w) → covers (sw_index w) v →
  validate_checkpoint (sw_index w) (sv_epoch v) = Some ck → incremental_project document group name env v ck w = (w', r) →
  outcome (sw_index w) v (sw_index w') (succeeded r).
Proof.
  intros He Hclean Hcov Hck Em.
  eapply (outcome_quiet _ _ _ _ _ _ _ (quiet_wait _) Em); [done|]. intros u1 w1 _ Hi1 Em1. clear Em.
  eapply (outcome_quiet _ _ _ _ _ _ _ (quiet_read_store _) Em1); [by apply untouched_eq|].
  intros rows w2 [-> E]%read_store_inv _ Em2. injection E as Hrows. symmetry in Hrows.
  assert (∀ w3 x, on_index (project_rows document (pe_engine env) rows 0) w1 = (w3, x) →
    untouched (sw_index w) (sw_index w3) ∧ (succeeded x → ∀ k, tv_pending (li_index (sw_index w3)) !! k = image document v k) ∧
    (rows = [] → sw_index w3 = sw_index w)) as Hproj.
  { intros w3 x (_ & _ & y & E & ->)%on_index_inv. rewrite Hi1 in E.
    assert (rows = [] → sw_index w3 = sw_index w) as Hnil by (intros ->; by injection E as <- _).
    apply (project_rows_view v (index_or_zero (ck_source_log_id ck))) in E as [Hb Hp]; [|done..|].
    - split_and!; [by apply buffered_untouched| |done]. intros [c [= ->]]. by apply Hp.
    - intros k. destruct (Hcov ck Hck k) as [?|[_ ?]]; auto. }
  apply aio_bind_ready in Em2 as [(w3 & rej & E & Em2)|[[E ->]|(e & E & ->)]]; apply Hproj in E as (Hut & Hpend & Hnil);
    [|left; split; [done|by intros [? ?]]..].
  destruct (bool_decide (rows = []) && _) eqn:Eg.
  - bools. eapply (published_quiet _ _ _ _ _ _ _ Em2). rewrite Hnil by done. eapply covers_published; [done..|].
    intros k Hd. apply (for_each_dirty_source v _ rows He Hrows) in Hd. subst rows. by apply not_elem_of_nil in Hd.
  - eapply outcome_publish; [exact Hut|apply Hpend; by eexists| |exact Em2]. intros u. apply quiet_finish.
  Unshelve.
  all: apply quiet_bind; [apply quiet_io|intros u2]; apply quiet_bind; [apply quiet_repair|intros b];
    apply quiet_bind; [|intros; apply quiet_ret]; destruct b; [apply quiet_prune|apply quiet_ret].
Qed.

Lemma incremental_work_spec w w' r v : search_source_view (sw_storage w) group = Ok v → (sv_epoch v ≤ u64_max)%N →
  clean (sw_index w) → covers (sw_index w) v → incremental_work document group name env w = (w', r) →
  (r = Ready (Ok None) ∧ w' = w) ∨ (r ≠ Ready (Ok None) ∧ outcome (sw_index w) v (sw_index w') (succeeded r)).
Proof.
  intros Hv He Hclean Hcov [(w1 & v' & [-> E]%read_store_inv & Em)|[[E ->]|(e & E & ->)]]%aio_bind_ready.
  2,3: apply read_store_inv in E as [-> E]; rewrite Hv in E; done.
  rewrite Hv in E. injection E as ->.
  apply aio_bind_ready in Em as [(w1 & ck & [-> E]%read_index_inv & Em)|[[E ->]|(e & E & ->)]].
  2,3: by apply read_index_inv in E as [-> E].
  injection E as ->. destruct (validate_checkpoint (sw_index w) (sv_epoch v)) as [ck|] eqn:Hck; [|injection Em as <- <-; by left].
  destruct (checkpoint_ahead_of_source ck (sv_applied v)); [injection Em as <- <-; by left|]. right.
  apply aio_bind_ready in Em as [(w1 & c & E & Em)|[[E ->]|(e & E & ->)]];
    apply (incremental_project_spec _ _ _ _ _ He Hclean Hcov Hck) in E.
  - injection Em as <- <-. split; [done|]. destruct E as [[_ Hx]|?]; [destruct Hx; by eexists|by right].
  - split; [done|]. destruct E as [[? _]|?]; [left; split; [done|by intros [? ?]]|by right].
  - split; [done|]. destruct E as [[? _]|?]; [left; split; [done|by intros [? ?]]|by right].
Qed.

Lemma outcome_weaken i v i' (P Q : Prop) : (Q → P) → outcome i v i' P → outcome i v i' Q.
Proof. intros HQ [[? Hn]|?]; [left; auto|by right]. Qed.

Lemma incremental_spec w w' r v : search_source_view (sw_storage w) group = Ok v → (sv_epoch v ≤ u64_max)%N →
  clean (sw_index w) → covers (sw_index w) v → incremental document group name env w = (w', r) →
  (r = Ready (Ok None) ∧ w' = w) ∨
  (r ≠ Ready (Ok None) ∧ outcome (sw_index w) v (sw_index w') (succeeded r) ∧
   ∀ e, r = Ready (Err e) → sw_closed w' = true ∨ clean (sw_index w')).
Proof.
  intros Hv He Hcl Hcov E. destruct (incremental_work document group name env w) as [w1 r1] eqn:Ew.
  destruct (incremental_work_spec _ _ _ _ Hv He Hcl Hcov Ew) as [[-> ->]|[Hn Ho]].
  - unfold incremental, project_in_blocking in E. rewrite Ew in E. injection E as <- <-. by left.
  - right. destruct (blocking_outcome _ _ _ _ _ _ _ _ Ew E Ho) as (Ho' & Herr & Hs). split_and!; [|done..].
    intros ->. destruct (Hs ltac:(by eexists)) as [_ <-]. done.
Qed.

(** ** Rebuilds *)

(** Writing a consumer record does not change what a view sees. *)
Lemma consumer_write_view s v generation value : cache_ok s → search_source_view s group = Ok v →
  ∃ v', search_source_view (set_db (db_put (st_db s) (search_consumer_key group name generation) value) s) group = Ok v' ∧
    same_source v v'.
Proof.
  intros Hc. unfold search_source_view. destruct group as [|p] eqn:Eg; [done|]. rewrite <-Eg in *. unfold db_put.
  set (b := [BatchPut _ _ _]). intros (cf & Hcf & Hv)%rbind_ok. destruct (write_pointer_free s b) as (_ & Hcf' & _).
  { repeat constructor. apply search_op_pointer_free. split; [done|]. eexists _, _.
    unfold search_consumer_key, search_consumer_prefix, search_prefix. cbn. by rewrite <-!(assoc_L (++)). }
  destruct (state_cf_valid s group cf Hc Hcf) as [Hvalid Hex]. apply valid_cf_name_default in Hvalid.
  assert (∀ k, get_cf (write (st_db s) b) cf k = get_cf (st_db s) cf k) as Hget.
  { intros k. rewrite get_write by done. apply batch_get_other_cf. by repeat constructor. }
  assert (get_local U64 (set_db (write (st_db s) b) s) (search_epoch_key group) = get_local U64 s (search_epoch_key group)) as Hep.
  { unfold get_local. cbn [st_db set_db]. rewrite db_get_write. unfold b, batch_get. cbn [foldl batch_op_apply].
    rewrite decide_False; [done|]. intros [_ Hk]. unfold search_consumer_key, search_consumer_prefix, search_epoch_key in Hk.
    rewrite <-!(assoc_L (++)) in Hk. apply (inj (search_prefix group ++.)) in Hk. cbn in Hk. done. }
  rewrite Hcf', Hcf. cbn [rbind]. rewrite Hep. destruct (or_one _) as [epoch|]; [|done]. cbn [rbind st_db set_db] in *.
  rewrite Hget. destruct (decode_opt _) as [applied|]; [|done]. cbn [rbind] in *. injection Hv as <-. eexists. split; [done|].
  constructor; [done..|]. intros k. unfold source_of. cbn [sv_db sv_cf]. by rewrite Hget.
Qed.

Lemma begin_rebuild_view w w' v : cache_ok (sw_storage w) → search_source_view (sw_storage w) group = Ok v →
  begin_rebuild group name w = (w', Ready (Ok tt)) → ∃ v', search_source_view (sw_storage w') group = Ok v' ∧ same_source v v'.
Proof.
  intros Hc Hv [(w1 & g & [-> _]%read_index_inv & E)|[[_ ?]|(e & _ & ?)]]%aio_bind_ready; [|done..].
  apply on_store_inv in E as (_ & _ & E). unfold aio_io, begin_search_consumer_rebuild, io_bind, io_read in E.
  destruct (read_consumer _ _ _ _) as [[c|]|]; [|done..]. destruct (_ || _); [done|].
  unfold put_local, io_modify in E. injection E as <-. by apply consumer_write_view.
Qed.

Lemma admitted_rebuild_spec w w' r v : cache_ok (sw_storage w) → search_source_view (sw_storage w) group = Ok v →
  clean (sw_index w) → admitted_rebuild document group name env w = (w', r) →
  outcome (sw_index w) v (sw_index w') (succeeded r) ∧ ∀ e, r = Ready (Err e) → sw_closed w' = true ∨ clean (sw_index w').
Proof.
  intros Hc Hv Hcl. assert (∀ w1 e, sw_index w1 = sw_index w → w' = w1 → r = Ready (Err e) →
    outcome (sw_index w) v (sw_index w') (succeeded r) ∧ ∀ e, r = Ready (Err e) → sw_closed w' = true ∨ clean (sw_index w')) as Hstop.
  { intros w1 e Hi -> ->. rewrite Hi. split; [left; split; [done|by intros [? ?]]|by right]. }
  unfold admitted_rebuild. intros [(w1 & u & E & Em)|[[E ->]|(e & E & ->)]]%aio_bind_ready;
    unfold aio_io, io_read in E; destruct (pe_admission env); try done; injection E as <-; [|by eapply Hstop].
  apply aio_bind_ready in Em as [(w1 & [] & E & Em)|[[E ->]|(e & E & ->)]]; pose proof (quiet_begin _ _ _ E) as [Hi _].
  - destruct (begin_rebuild_view _ _ _ Hc Hv E) as (v' & Hv' & Hss).
    apply (rebuild_streaming_spec _ _ _ v' Hv') in Em as [Ho Hcl']. split; [|done]. rewrite Hi in Ho.
    destruct Ho as [?|Hp]; [by left|right]. by eapply published_same.
  - rewrite Hi. split; [left; split; [done|by intros [? ?]]|done].
  - by eapply Hstop.
Qed.

Lemma hint_spec (force : bool) w w1 x :
  (if force then aio_ret None else incremental_position group) w = (w1, x) →
  w1 = w ∧ (force = true → x = Ready (Ok None)).
Proof.
  destruct force; [by intros [= <- <-]|]. unfold incremental_position.
  intros [(w2 & e & [-> _]%read_store_inv & [-> _]%read_index_inv)|[[[-> _]%read_store_inv ->]|(e & [-> _]%read_store_inv & ->)]]%aio_bind_ready;
    by split.
Qed.

Lemma run_pass_exact w w' r v force : cache_ok (sw_storage w) → search_source_view (sw_storage w) group = Ok v →
  (sv_epoch v ≤ u64_max)%N → clean (sw_index w) → (force = true ∨ covers (sw_index w) v) →
  run_pass document group name env force w = (w', r) →
  ((untouched (sw_index w) (sw_index w') ∧ ¬ succeeded r) ∨ published (sw_index w) (sw_index w') v) ∧
  ∀ e, r = Ready (Err e) → sw_closed w' = true ∨ clean (sw_index w').
Proof.
  intros Hc Hv He Hcl Hf. unfold run_pass. destruct (sw_closed w) eqn:Ecl.
  { intros [= <- <-]. split; [left; split; [done|by intros [? ?]]|by right]. }
  intros [(w1 & hint & [-> Hfo]%hint_spec & Em)|[[[-> _]%hint_spec ->]|(e & [-> _]%hint_spec & ->)]]%aio_bind_ready.
  2,3: split; [left; split; [done|by intros [? ?]]|by right].
  destruct hint as [pos|]; [|by apply admitted_rebuild_spec].
  assert (covers (sw_index w) v) as Hcov by (destruct Hf as [Hf|]; [|done]; by specialize (Hfo Hf)).
  apply aio_bind_ready in Em as [(w1 & res & E & Em)|[[E ->]|(e & E & ->)]];
    destruct (incremental_spec _ _ _ _ Hv He Hcl Hcov E) as [[Hr ->]|(Hn & Ho & Herr)]; try done.
  - injection Hr as ->. by apply admitted_rebuild_spec.
  - destruct res as [c|]; [|done]. injection Em as <- <-. split; [|done]. eapply outcome_weaken; [|exact Ho]. by eexists.
  - split; [|done]. eapply outcome_weaken; [|exact Ho]. by intros [? ?].
  - split; [eapply outcome_weaken; [|exact Ho]; by intros [? ?]|]. intros e' [= ->]. by eapply Herr.
Qed.

(** C36: a projection pass over a data group, forced to rebuild or starting from
    an index that is right except for keys with a journal entry above its
    checkpoint, whatever else happens meanwhile or fails: searches afterwards
    see what they saw before under the same checkpoint, or exactly the
    documents of the snapshot the pass read, under its position; a pass that
    succeeds has published; and after a failure the worker is closed or its
    writer holds nothing that a later commit could publish. *)
Theorem search_pass_exact w w' r v force : cache_ok (sw_storage w) → search_source_view (sw_storage w) group = Ok v →
  (sv_epoch v ≤ u64_max)%N → clean (sw_index w) → (force = true ∨ covers (sw_index w) v) →
  run_pass document group name env force w = (w', r) →
  ((untouched (sw_index w) (sw_index w') ∧ ¬ succeeded r) ∨ published (sw_index w) (sw_index w') v) ∧
  ∀ e, r = Ready (Err e) → sw_closed w' = true ∨ clean (sw_index w').
Proof. apply run_pass_exact. Qed.
End passes.

(** ** A forced rebuild that fails

    The flag that forces a rebuild is cleared when the rebuild begins, not when
    it has published. *)
Section forgotten.
Context `{RocksOk D} `{!Codec U64, !Codec U128, !Codec string, !Codec RaftApplied, !Codec SearchConsumerState, !Codec KeyRecord}.
Context `{Hashes} `{!Codec SearchIndexDefinition}.
Context `{TantivyOk TI Doc} (document : bytes → N → bytes → Extracted Doc).
Context (group : GroupId) (name : string).
Implicit Types (s : Storage D) (v : SearchSourceView (D:=D)) (i : LocalSearchIndex TI Doc) (w : SearchIndexWorker D TI Doc) (env : PassEnv D).

(** The consumer is registered and no rebuild is recorded as due. *)
Definition rebuild_cleared (generation : N) s : Prop :=
  ∃ c, read_consumer s group name generation = Ok (Some c) ∧ wf c ∧ cs_needs_rebuild c = false.

(** A rebuild under way of the index [i]: nothing of it is committed. *)
Definition rebuilding i w : Prop := rebuild_cleared (sg_id (li_generation i)) (sw_storage w) ∧ buffered i (sw_index w) ∧ sw_closed w = false.

Definition kept_by {A} (P : SearchIndexWorker D TI Doc → Prop) (m : aio (SearchIndexWorker D TI Doc) A) : Prop :=
  ∀ w w' r, m w = (w', r) → P w → P w'.
Lemma kept_by_seq {A B} P (m : aio (SearchIndexWorker D TI Doc) A) (k : A → aio (SearchIndexWorker D TI Doc) B) :
  kept_by P m → (∀ a w w1, m w = (w1, Ready (Ok a)) → P w → kept_by P (k a)) → kept_by P (aio_bind m k).
Proof.
  intros Hm Hk w w' r [(w1 & a & E1 & E2)|[[E1 ->]|(e & E1 & ->)]]%aio_bind_ready Hp; [|by eapply Hm..].
  eapply Hk; [exact E1|done|exact E2|by eapply Hm].
Qed.
Lemma kept_by_read_store {A} P (f : Storage D → Result A) : kept_by P (read_store f).
Proof. by intros w w' r [-> _]%read_store_inv. Qed.
Lemma kept_by_read_index {A} P (f : LocalSearchIndex TI Doc → Result A) : kept_by P (read_index f).
Proof. by intros w w' r [-> _]%read_index_inv. Qed.

Lemma kept_by_store {A} i (m : aio (Storage D) A) :
  (∀ s s' r, m s = (s', r) → rebuild_cleared (sg_id (li_generation i)) s → rebuild_cleared (sg_id (li_generation i)) s') →
  kept_by (rebuilding i) (on_store m).
Proof. intros Hm w w' r (Hi & Hc & E)%on_store_inv (H1' & H2' & H3'). split_and!; [by eapply Hm|by rewrite Hi|by rewrite Hc]. Qed.

Lemma put_consumer generation s c : wf c → cs_needs_rebuild c = false →
  rebuild_cleared generation (put_local (search_consumer_key group name generation) c s).1.
Proof.
  intros Hw Hn. exists c. split_and!; [|done..]. unfold read_consumer, get_local, put_local, io_modify. cbn [fst st_db set_db].
  unfold db_put. rewrite db_get_write. unfold batch_get. cbn [foldl batch_op_apply]. rewrite decide_True by done. cbn. by rewrite decode_encode.
Qed.

Lemma kept_by_wait env i applied : kept_by (rebuilding i) (wait_applied group env applied).
Proof.
  destruct applied as [l|]; [|by intros w w' r [= <- <-]]. apply kept_by_store. intros s s' r. unfold wait_state_durable.
  destruct (registry_wait_durable _ _ _ _ _ _) as [reg p]. by intros [= <- <-].
Qed.

Lemma kept_by_floor i floor : (floor.1 ≤ u64_max)%N → (floor.2 ≤ u64_max)%N →
  kept_by (rebuilding i) (on_store (aio_io (record_search_consumer_retention_floor group name (sg_id (li_generation i)) floor))).
Proof.
  intros Hf1 Hf2. apply kept_by_store. intros s s' r. unfold aio_io, record_search_consumer_retention_floor, io_bind, io_read.
  intros E (c & Hc & Hw & Hn). rewrite Hc in E. injection E as <- <-. apply put_consumer; [|done].
  destruct Hw as (Hw1 & Hw2 & Hw3 & _). by split_and!.
Qed.

(** Nothing is published when the commit fails. *)
Lemma publish_failed env i v error : pe_commit env = Commit_Failed error →
  (∀ s, read_consumer (pe_during env s) group name (sg_id (li_generation i)) = read_consumer s group name (sg_id (li_generation i))) →
  kept_by (rebuilding i) (publish group name env v) ∧ ∀ w w' u, publish group name env v w ≠ (w', Ready (Ok u)).
Proof.
  intros Hf Hd. assert (∀ w w' r, on_index (commit (pe_commit env) (sv_epoch v) (sv_applied v)) w = (w', r) →
    w' = w ∧ r = Ready (Err (Error_Search error)) :> poll (Result unit)) as Hc.
  { rewrite Hf. intros w w' r [= <- <-]. by destruct w. }
  split.
  - apply kept_by_seq; [apply kept_by_store|intros _ _ _ _ _].
    { intros s s' r [= <- <-] (c & Hr & Hc'). exists c. by rewrite Hd. }
    apply kept_by_seq; [apply kept_by_read_store|intros current _ _ _ _]. destruct (negb _); [by intros w w' r [= <- <-]|].
    apply kept_by_seq; [by intros w w' r [-> _]%Hc|]. intros a w w1 [_ ?]%Hc. done.
  - intros w w' u (w1 & [] & _ & E)%aio_bind_ok. apply aio_bind_ok in E as (w2 & current & _ & E).
    destruct (negb _); [done|]. apply aio_bind_ok in E as (w3 & [] & [_ ?]%Hc & _). done.
Qed.

Lemma rebuild_work_failed env i v error w w' r : search_source_view (sw_storage w) group = Ok v →
  (sv_epoch v ≤ u64_max)%N → (index_or_zero (sv_applied v) ≤ u64_max)%N → pe_commit env = Commit_Failed error →
  (∀ s, read_consumer (pe_during env s) group name (sg_id (li_generation i)) = read_consumer s group name (sg_id (li_generation i))) →
  rebuild_work document group name env w = (w', r) → rebuilding i w → rebuilding i w' ∧ ¬ succeeded r.
Proof.
  intros Hv He Ha Hf Hd E Hr. destruct (publish_failed env i v error Hf Hd) as [Hpub Hno].
  apply aio_bind_ready in E as [(w1 & v' & [-> E1]%read_store_inv & E)|[[[_ E1]%read_store_inv _]|(e & [_ E1]%read_store_inv & _)]];
    rewrite Hv in E1; [|done..]. injection E1 as ->. split.
  - revert E Hr. apply kept_by_seq; [apply kept_by_wait|intros _ _ _ _ _]. apply kept_by_seq; [apply kept_by_read_index|].
    intros g w0 w1 [-> [= ->]]%read_index_inv (_ & Hb & _). rewrite (bf_generation _ _ Hb).
    apply kept_by_seq; [by apply kept_by_floor|intros _ _ _ _ _]. apply kept_by_seq; [apply kept_by_read_store|].
    intros rows w2 w3 [_ [= Hrows]]%read_store_inv _. apply kept_by_seq.
    { intros w4 w5 x (Hs & Hc & y & Ey & _)%on_index_inv (H1' & H2' & H3'). symmetry in Hrows.
      apply (rebuild_from_view_spec document env v) in Ey as [Hb' _]; [|done]. split_and!; [by rewrite Hs|by eapply buffered_trans|by rewrite Hc]. }
    intros counts _ _ _ _. apply kept_by_seq; [done|]. intros u w6 w7 E7. by destruct (Hno _ _ _ E7).
  - intros [c ->]. apply aio_bind_ok in E as (? & ? & _ & E). apply aio_bind_ok in E as (? & ? & _ & E). apply aio_bind_ok in E as (? & ? & _ & E).
    apply aio_bind_ok in E as (? & ? & _ & E). apply aio_bind_ok in E as (? & ? & _ & E). apply aio_bind_ok in E as (w3 & u & E3 & _). by destruct (Hno _ _ _ E3).
Qed.

(** The consumer of the index [i] is registered under its identity, and due for a rebuild. *)
Record rebuild_due i s (c : SearchConsumerState) : Prop := {
  rd_registered : read_consumer s group name (sg_id (li_generation i)) = Ok (Some c);
  rd_wf : wf c;
  rd_hash : cs_definition_hash c = sg_definition_hash (li_generation i);
  rd_revision : cs_engine_revision c = sg_engine_revision (li_generation i);
  rd_due : cs_needs_rebuild c = true;
}.

Lemma begin_rebuild_clears w c : sw_closed w = false → rebuild_due (sw_index w) (sw_storage w) c →
  ∃ w', begin_rebuild group name w = (w', Ready (Ok tt)) ∧ rebuilding (sw_index w) w'.
Proof.
  intros Hcl [Hr Hw Hh He _]. unfold begin_rebuild, aio_bind, read_index, on_index, io_read, on_store, aio_io, begin_search_consumer_rebuild, io_bind, io_read.
  cbn [sw_index sw_storage sw_closed]. rewrite Hr, Hh, He, bool_decide_true, N.eqb_refl by done. cbn [negb orb].
  eexists. split; [reflexivity|]. split_and!; cbn [sw_index sw_storage sw_closed]; [|apply buffered_refl|done].
  apply (put_consumer _ _ (mkConsumer _ _ _ _ _)); [|done]. destruct Hw as (Hw1 & Hw2 & _ & Hw4). rewrite Hh in Hw1. rewrite He in Hw2. by split_and!.
Qed.

(** The failed pass: the flag is cleared, the index as it was. *)
Lemma forced_pass_failed env w w' e c v error : cache_ok (sw_storage w) → search_source_view (sw_storage w) group = Ok v →
  (sv_epoch v ≤ u64_max)%N → (index_or_zero (sv_applied v) ≤ u64_max)%N → sw_closed w = false →
  rebuild_due (sw_index w) (sw_storage w) c → pe_admission env = None → pe_commit env = Commit_Failed error → pe_rollback env = None →
  (∀ s, read_consumer (pe_during env s) group name (sg_id (li_generation (sw_index w))) =
        read_consumer s group name (sg_id (li_generation (sw_index w)))) →
  catch_up document group name env w = (w', Ready (Err e)) →
  rebuilding (sw_index w) w' ∧ clean (sw_index w').
Proof.
  intros Hc Hv He Ha Hcl Hdue Hadm Hf Hrb Hd E. destruct (begin_rebuild_clears w c Hcl Hdue) as (w1 & E1 & Hr1).
  destruct (begin_rebuild_view _ _ _ _ _ Hc Hv E1) as (v1 & Hv1 & [_ He1 Ha1 _]).
  assert (rebuild_streaming document group name env w1 = (w', Ready (Err e))) as E2.
  { rewrite <-E. unfold catch_up, aio_bind at 1 2, read_index at 1, on_index, io_read, read_store at 1, on_store, aio_io, io_read.
    unfold search_consumer_needs_rebuild. cbn [sw_index sw_storage sw_closed]. rewrite (rd_registered _ _ _ Hdue). cbn [rbind].
    rewrite (rd_due _ _ _ Hdue). unfold catch_up_rebuilding, run_pass. cbn [sw_closed]. rewrite Hcl. destruct w as [s0 i0 c0].
    unfold aio_bind at 1. cbn [aio_ret]. unfold aio_ret. cbn [sw_index sw_storage sw_closed] in *. subst c0.
    unfold admitted_rebuild, aio_bind, aio_io, io_read. rewrite Hadm. fold (begin_rebuild (TI:=TI) (Doc:=Doc) group name). by rewrite E1. }
  unfold rebuild_streaming, project_in_blocking in E2. destruct (rebuild_work document group name env w1) as [w2 r2] eqn:Ew.
  rewrite <-He1 in He. rewrite <-Ha1 in Ha.
  apply (rebuild_work_failed env (sw_index w) v1 error) in Ew as [(Hk1 & Hk2 & Hk3) Hn]; [|done..].
  rewrite Hrb in E2. destruct r2 as [[a|e2]|]; [destruct Hn; by eexists| |done]. injection E2 as <- <-.
  split; [split_and!; cbn [sw_index sw_storage sw_closed]; [done| |done]|].
  - eapply buffered_trans; [exact Hk2|]. apply buffered_writer, committed_rollback.
  - unfold clean. cbn. by rewrite pending_rollback, committed_rollback.
Qed.

(** ** The pass after it *)

Lemma publish_ok env v w w' : publish group name env v w = (w', Ready (Ok tt)) →
  li_searcher (sw_index w') = tv_pending (li_index (sw_index w)) ∧ li_checkpoint (sw_index w') = Some (fresh_checkpoint (sw_index w) v).
Proof.
  intros (w1 & [] & [Hi1 _]%quiet_io & E)%aio_bind_ok. apply aio_bind_ok in E as (w2 & current & [-> _]%read_store_inv & E).
  destruct (negb _); [done|]. apply aio_bind_ok in E as (w3 & [] & (_ & _ & x & E3 & Hx)%on_index_inv & E).
  assert (sw_index w' = sw_index w3) as ->.
  { apply aio_bind_ok in E as (? & ? & [-> _]%read_index_inv & E). apply aio_bind_ok in E as (? & ? & [-> _]%read_index_inv & E).
    by apply quiet_io in E as [? _]. }
  injection Hx as <-. rewrite Hi1 in E3. unfold commit in E3. cbv zeta in E3. destruct (pe_commit env); try done. injection E3 as <-.
  split; [apply committed_commit|done].
Qed.

(** An incremental pass that succeeds leaves every key without a journal entry
    above its checkpoint as it was, and moves the checkpoint to the view's. *)
Lemma incremental_project_leaves env v ck w w' c : (sv_epoch v ≤ u64_max)%N → li_checkpoint (sw_index w) = Some ck →
  tv_pending (li_index (sw_index w)) = li_searcher (sw_index w) →
  incremental_project document group name env v ck w = (w', Ready (Ok c)) →
  cu_rebuilt c = false ∧ ck_source_log_id <$> li_checkpoint (sw_index w') = Some (sv_applied v) ∧
  ∀ k, ¬ dirty v (index_or_zero (ck_source_log_id ck)) k → li_searcher (sw_index w') !! k = li_searcher (sw_index w) !! k.
Proof.
  intros He Hck Hp (w1 & u1 & [Hi1 _]%quiet_wait & E)%aio_bind_ok. apply aio_bind_ok in E as (w2 & rows & [-> Hrows]%read_store_inv & E).
  injection Hrows as Hrows. symmetry in Hrows. destruct (for_each_dirty_spec _ _ _ He Hrows) as [_ Hout].
  apply aio_bind_ok in E as (w3 & rej & (_ & _ & y & E3 & Hy)%on_index_inv & E). injection Hy as <-. rewrite Hi1 in E3.
  destruct (bool_decide (rows = []) && _) eqn:Eg.
  - bools. subst rows. injection E3 as E3 _. apply aio_bind_ok in E as (w4 & [] & [Hi4 _]%quiet_io & E).
    apply aio_bind_ok in E as (w5 & b & [Hi5 _]%quiet_repair & E). apply aio_bind_ok in E as (w6 & [] & E6 & E). injection E as <- <-.
    assert (sw_index w6 = sw_index w5) as Hi6 by (destruct b; [by apply quiet_prune in E6 as [? _]|by injection E6 as <-]).
    rewrite Hi6, Hi5, Hi4, <-E3, Hck. split_and!; [done| |done]. cbn. by f_equal.
  - apply aio_bind_ok in E as (w4 & [] & [Hs4 Hc4]%publish_ok & E). apply aio_bind_ok in E as (w5 & [] & [Hi5 _]%quiet_prune & E).
    injection E as <- <-. rewrite Hi5, Hs4, Hc4. split_and!; [done..|]. intros k Hk.
    apply (project_rows_spec _ _ _ (source_of v)) in E3 as [_ Hx]; [|by apply (for_each_dirty_source v _ _ He Hrows)].
    rewrite Hx, decide_False, Hp; [done| |done]. intros (row & -> & (e & Hd & ->%dirty_row_source)%Hout)%list_elem_of_fmap.
    apply Hk. by exists e.
Qed.

Lemma search_source_view_epoch s v : search_source_view s group = Ok v → search_projection_epoch s group = Ok (sv_epoch v).
Proof.
  unfold search_source_view, search_projection_epoch. destruct group; [done|]. intros (cf & _ & E)%rbind_ok.
  apply rbind_ok in E as (epoch & -> & E). by apply rbind_ok in E as (applied & _ & [= <-]).
Qed.

(** A pass that is not forced and has a usable checkpoint is incremental. *)
Lemma unforced_pass_leaves env w w' c v ck : search_source_view (sw_storage w) group = Ok v → (sv_epoch v ≤ u64_max)%N →
  rebuild_cleared (sg_id (li_generation (sw_index w))) (sw_storage w) →
  validate_checkpoint (sw_index w) (sv_epoch v) = Some ck → checkpoint_ahead_of_source ck (sv_applied v) = false →
  tv_pending (li_index (sw_index w)) = li_searcher (sw_index w) →
  catch_up document group name env w = (w', Ready (Ok c)) →
  cu_rebuilt c = false ∧ ck_source_log_id <$> li_checkpoint (sw_index w') = Some (sv_applied v) ∧
  ∀ k, ¬ dirty v (index_or_zero (ck_source_log_id ck)) k → li_searcher (sw_index w') !! k = li_searcher (sw_index w) !! k.
Proof.
  intros Hv He (cs & Hcs & _ & Hn) Hck Hah Hp (w1 & g & [-> [= ->]]%read_index_inv & E)%aio_bind_ok.
  apply aio_bind_ok in E as (w1 & forced & [-> Hfo]%read_store_inv & E). unfold search_consumer_needs_rebuild in Hfo. rewrite Hcs in Hfo. cbn [rbind] in Hfo.
  injection Hfo as ->. rewrite Hn in E. unfold catch_up_rebuilding, run_pass in E. destruct (sw_closed w); [done|].
  apply aio_bind_ok in E as (w1 & hint & E1 & E). apply aio_bind_ok in E1 as (w2 & epoch & [-> Hep]%read_store_inv & [-> Hh]%read_index_inv).
  rewrite (search_source_view_epoch _ _ Hv) in Hep. injection Hep as ->. rewrite Hck in Hh. injection Hh as ->.
  apply aio_bind_ok in E as (w1 & res & E1 & E). unfold incremental, project_in_blocking in E1.
  destruct (incremental_work document group name env w) as [w2 r2] eqn:Ew. destruct r2 as [[a|e]|]; [|by destruct (pe_rollback env)|done].
  injection E1 as -> ->. apply aio_bind_ok in Ew as (w3 & v' & [-> Hv']%read_store_inv & Ew). rewrite Hv in Hv'. injection Hv' as ->.
  apply aio_bind_ok in Ew as (w3 & ck' & [-> Hck']%read_index_inv & Ew). rewrite Hck in Hck'. injection Hck' as ->. rewrite Hah in Ew.
  apply aio_bind_ok in Ew as (w3 & c' & E3 & Ew). injection Ew as -> <-. injection E as <- <-.
  apply validate_checkpoint_spec in Hck as (Hck & _). by apply (incremental_project_leaves env) in E3.
Qed.

End forgotten.
