(* ===== verification/SearchShard.v ===== *)
(** * Searching one shard (src/src/search/index.rs)

    The query side of [LocalSearchIndex]: pinning the loaded commit, the
    statistics measured against it, scoring with given statistics and the
    partition-local search. Tantivy's query parser, collectors and scores are
    the parameter [TantivyQuery]; their documented behaviour is
    [TantivyQueryOk]. A searcher is the documents of its commit by key. *)

From S2P Require Import Prelude SortBy BTree Types Codec SearchDef Query Keyspace Outbox ApplyDurability Aio Rocks Storage DataSM SearchStore SearchWorker Coordinator.

(** A stored value of a Tantivy document. *)
Inductive OwnedValue :=
| OwnedValue_Str (s : string) | OwnedValue_U64 (n : N) | OwnedValue_I64 (z : Z) | OwnedValue_F64 (b : F64)
| OwnedValue_Bool (b : bool) | OwnedValue_Date (millis : Z) | OwnedValue_Facet (path : option string).

(** [Bm25StatisticsProvider]. *)
Record Bm25 (Term : Type) := mkBm25 {
  bm_total_num_docs : Result N;
  bm_total_num_tokens : string → Result N;
  bm_doc_freq : Term → Result N;
}.
Arguments mkBm25 {Term} _ _ _.
Arguments bm_total_num_docs {Term} _.
Arguments bm_total_num_tokens {Term} _ _.
Arguments bm_doc_freq {Term} _ _.

(** Queries, their terms, the measures of a searcher, and the two collectors:
    [Count] and [TopDocs] ordered by score and, among equals, by ascending key. *)
Class TantivyQuery (Doc Query Term : Type) := {
  tq_all : Query;
  tq_parse : list string → string → Result Query;
  tq_terms : Query → list Term;
  tq_term_field : Term → string;
  tq_term_type : Term → byte;
  tq_term_value : Term → bytes;
  tq_doc_freq : gmap bytes Doc → Term → Result N;
  tq_total_num_tokens : gmap bytes Doc → string → Result N;
  tq_matches : Query → Doc → bool;
  tq_score : Query → Bm25 Term → Doc → F32;
  tq_count : gmap bytes Doc → Query → Result N;
  tq_top : gmap bytes Doc → Query → Bm25 Term → nat → Result (list (F32 * bytes));
  tq_version : Doc → option N;
  tq_values : Doc → string → list OwnedValue;
}.

(** Best score first, then ascending key. *)
Definition top_order (a b : F32 * bytes) : comparison := ordering_then (total_cmp b.1 a.1) (bytes_compare a.2 b.2).

Section scored.
Context `{TantivyQuery Doc Q Term}.
(** The documents that match, with their scores. *)
Definition scored (docs : gmap bytes Doc) (q : Q) (st : Bm25 Term) : list (F32 * bytes) :=
  (λ kd, (tq_score q st kd.2, kd.1)) <$> filter (λ kd, tq_matches q kd.2 = true) (map_to_list docs).
End scored.

(** The collectors return what their documentation says. *)
Class TantivyQueryOk (Doc Query Term : Type) `{!TantivyQuery Doc Query Term} : Prop := {
  tq_count_ok docs q n : tq_count docs q = Ok n → ∀ st, n = N.of_nat (length (scored docs q st));
  tq_top_ok docs q st limit top : tq_top docs q st limit = Ok top → top = take limit (sort_by top_order (scored docs q st));
}.

(** [HeldSearch]: a pinned commit with the query parsed against it. *)
Record HeldSearch (Doc Query : Type) := mkHeld {
  hs_searcher : gmap bytes Doc;
  hs_query : Query;
  hs_checkpoint : IndexCheckpoint;
}.
Arguments mkHeld {Doc Query} _ _ _.
Arguments hs_searcher {Doc Query} _.
Arguments hs_query {Doc Query} _.
Arguments hs_checkpoint {Doc Query} _.

(** [term_key]. *)
Definition term_key `{TantivyQuery Doc Q Term} (term : Term) : bytes :=
  let name := as_bytes (tq_term_field term) in
  be_bytes 4 (N.of_nat (length name)) ++ name ++ [tq_term_type term] ++ tq_term_value term.

Section index.
Context `{TantivyQuery Doc Q Term} `{!Codec SearchHit, !Codec SearchReply} {TI : Type}.
Implicit Types (i : LocalSearchIndex TI Doc) (held : HeldSearch Doc Q).

(** The fields named by a query must exist, be indexed, and be text. *)
Definition check_query_field (definition : SearchIndexDefinition) (name : string) : Result unit :=
  match list_find (λ f, sf_name f = name) (sd_fields definition) with
  | None => Err (Error_Search "unknown query field")
  | Some (_, field) => check (sf_indexed field && (is_text (sf_kind field) || is_keyword (sf_kind field))) "query field is not indexed text"
  end.

(** [parse_query]. *)
Definition parse_query i (query : SearchQuery) : Result Q :=
  let! _ := SearchQuery_validate query in
  match query with
  | SearchQuery_MatchAll => Ok tq_all
  | SearchQuery_Text query fields =>
      let definition := sg_definition (li_generation i) in
      let names := if is_empty fields then sd_default_search_fields definition else fields in
      let! _ := check (negb (is_empty names)) "text query has no search fields" in
      let! _ := forR (check_query_field definition) names in
      tq_parse names query
  end.

(** [hold]. *)
Definition hold i (query : SearchQuery) (generation : GenerationSelection) (window : N) (checkpoint : IndexCheckpoint)
    : Result (HeldSearch Doc Q) :=
  let! _ := match generation with
            | GenerationSelection_Exact g => check (g =? sg_id (li_generation i))%N "requested index generation is not loaded"
            | GenerationSelection_Active => Ok tt end in
  let! _ := check (window <=? SEARCH_MAX_WINDOW)%N "search result window exceeds 1000" in
  let! query := parse_query i query in
  let! _ := check (bool_decide (li_checkpoint i = Some checkpoint)) "index checkpoint changed before its searcher was pinned" in
  Ok (mkHeld (li_searcher i) query checkpoint).

(** The loop of [shard_statistics] over the terms of the query. *)
Fixpoint collect_terms (docs : gmap bytes Doc) (l : list Term) (terms : list (bytes * N)) (fields : list (string * N))
    : Result (list (bytes * N) * list (string * N)) :=
  match l with
  | [] => Ok (terms, fields)
  | term :: l =>
      let encoded := term_key term in
      if bool_decide (encoded ∈ terms.*1) then collect_terms docs l terms fields
      else
      let! _ := check (vec_len terms <? SEARCH_MAX_QUERY_TERMS)%N "query expands past the 1024 term statistics limit" in
      let! doc_freq := tq_doc_freq docs term in
      let! fields :=
        (if bool_decide (tq_term_field term ∈ fields.*1) then Ok fields
         else let! tokens := tq_total_num_tokens docs (tq_term_field term) in Ok (fields ++ [(tq_term_field term, tokens)])) in
      collect_terms docs l (terms ++ [(encoded, doc_freq)]) fields
  end.

(** [shard_statistics]. *)
Definition shard_statistics held : Result ShardStatistics :=
  let! tf := collect_terms (hs_searcher held) (tq_terms (hs_query held)) [] [] in
  Ok (mkShardStatistics (N.of_nat (size (hs_searcher held)))
        (sort_by (λ a b, ordering_then (string_compare a.1 b.1) (a.2 ?= b.2)%N) tf.2)
        (sort_by (λ a b, ordering_then (bytes_compare a.1 b.1) (a.2 ?= b.2)%N) tf.1)).

(** [GlobalBm25Statistics::new] and its provider. *)
Definition schema_has (generation : SearchIndexGeneration) (name : string) : bool :=
  bool_decide (name ∈ ["_key"; "_version"; "_type"] ++ (sf_name <$> sd_fields (sg_definition generation))).
Definition lookup_last {K} `{EqDecision K} (k : K) (l : list (K * N)) : option N :=
  match list_find (λ kv, kv.1 = k) (reverse l) with Some (_, kv) => Some kv.2 | None => None end.
Definition GlobalBm25Statistics_new (generation : SearchIndexGeneration) (statistics : ShardStatistics) : Result (Bm25 Term) :=
  let! _ := forR (λ kv, check (schema_has generation kv.1) "global statistics name an unknown field") (ss_field_tokens statistics) in
  Ok (mkBm25 (Ok (ss_total_docs statistics))
        (λ field, ok_or (lookup_last field (ss_field_tokens statistics))
                    (Error_Search "global search statistics are missing a scored field"))
        (λ term, ok_or (lookup_last (term_key term) (ss_term_doc_freq statistics))
                   (Error_Search "global search statistics are missing a query term"))).
(** A searcher as its own provider. *)
Definition local_statistics (docs : gmap bytes Doc) : Bm25 Term :=
  mkBm25 (Ok (N.of_nat (size docs))) (tq_total_num_tokens docs) (tq_doc_freq docs).

Definition read_stored_value (kind : FieldKind) (value : OwnedValue) : option SortValue :=
  match kind, value with
  | FieldKind_Text _ _, OwnedValue_Str s | FieldKind_Keyword, OwnedValue_Str s => Some (SortValue_String s)
  | FieldKind_Facet, OwnedValue_Facet path => SortValue_String <$> path
  | FieldKind_U64, OwnedValue_U64 n => Some (SortValue_U64 n)
  | FieldKind_I64, OwnedValue_I64 z => Some (SortValue_I64 z)
  | FieldKind_F64, OwnedValue_F64 b => Some (SortValue_F64 b)
  | FieldKind_Bool, OwnedValue_Bool b => Some (SortValue_Bool b)
  | FieldKind_Date, OwnedValue_Date millis => Some (SortValue_I64 millis)
  | _, _ => None
  end.
(** [read_stored_fields]. *)
Definition read_stored_fields (generation : SearchIndexGeneration) (d : Doc) : Result (list StoredField) :=
  mapR (λ definition,
    let! values := mapR (λ v, ok_or (read_stored_value (sf_kind definition) v) (Error_Search "stored field has wrong type"))
                     (tq_values d (sf_name definition)) in
    Ok (mkStoredField (sf_name definition) values))
    (filter (λ f, sf_stored f = true) (sd_fields (sg_definition generation))).

(** The hit of one collected document. *)
Definition read_hit (generation : SearchIndexGeneration) (partition : N) (docs : gmap bytes Doc) (per_hit_budget : N) (sk : F32 * bytes) : Result SearchHit :=
  let! d := ok_or (docs !! sk.2) (Error_Search "document address is not in the searcher") in
  let! version := ok_or (tq_version d) (Error_Search "indexed hit is missing stored _version") in
  let! stored_fields := read_stored_fields generation d in
  let hit := mkSearchHit partition sk.2 version (Some sk.1) [] stored_fields in
  let! _ := check (encoded_len hit <=? per_hit_budget)%N "search hit exceeds the per-hit budget for this result window" in
  Ok hit.

(** [execute]; of the index it reads only the generation, which never changes.
    The collector with the closure that pairs a score with its reversed key is
    [tq_top]; it compares the pairs with [partial_cmp], with which [top_order]
    agrees on the scores of BM25, which are positive numbers. *)
Definition index_execute (generation : SearchIndexGeneration) (partition : N) held (window : N) (statistics : Bm25 Term) : Result SearchReply :=
  let docs := hs_searcher held in
  let! total_hits := tq_count docs (hs_query held) in
  let! top := (if (window =? 0)%N then Ok [] else tq_top docs (hs_query held) statistics (N.to_nat window)) in
  let per_hit_budget := (SEARCH_REPLY_BODY_BUDGET / N.max window 1)%N in
  let! hits := mapR (read_hit generation partition docs per_hit_budget) top in
  let reply := mkSearchReply (sg_id generation) (sg_definition_hash generation) hits total_hits false [] in
  let! _ := validate_wire_size reply in
  Ok reply.

(** [LocalSearchIndex::search]. *)
Definition index_search i (partition : N) (request : SearchRequest) (checkpoint : IndexCheckpoint) : Result SearchReply :=
  let! _ := check (match sq_scoring request with ScoringMode_GlobalBm25 => false | ScoringMode_LocalBm25 => true end)
              "GlobalBm25 requires the distributed two-phase coordinator" in
  let! _ := check (is_empty (sq_sort request)) "field sorting is not implemented" in
  let! _ := check (sq_limit request <=? SEARCH_MAX_LIMIT)%N "search limit exceeds 1000" in
  let! window := ok_or (checked_add u32_max (sq_limit request) (sq_offset request)) (Error_Search "search page overflow") in
  let! held := hold i (sq_query request) (sq_generation request) window checkpoint in
  let! reply := index_execute (li_generation i) partition held window (local_statistics (hs_searcher held)) in
  Ok (mkSearchReply (rp_generation reply) (rp_definition_hash reply)
        (drop (Nat.min (N.to_nat (sq_offset request)) (length (rp_hits reply))) (rp_hits reply))
        (rp_total_hits reply) (rp_partial reply) (rp_failed_partitions reply)).
End index.
