(* ===== verification/SearchValue.v ===== *)
(** * From a record to an indexed document and back (src/src/search/value.rs)

    Extraction of the fields of an index from a value, conversion to a Tantivy
    document and reading its stored fields (src/src/search/index.rs). The
    FlatBuffers envelope and the FlexBuffers payload are read through the class
    [FlexReader], Tantivy's documents are built through [TantivyDocument]; a
    facet or a date is stored as the text or the milliseconds the library
    reads back for it. The theorem says that the stored fields of a document are
    those of its record. *)

From S2P Require Import Prelude SortBy BTree Types Codec SearchDef Query Coordinator Keyspace Outbox ApplyDurability Aio Rocks Storage DataSM SearchStore SearchWorker SearchShard.

Definition SEARCH_MAX_FIELD_BYTES : N := 256 * 1024.
Definition SEARCH_MAX_VALUES_PER_FIELD : nat := 256.
Definition SEARCH_MAX_EXTRACTED_BYTES : N := 1024 * 1024.

(** The readers of the two buffer formats. *)
Class FlexReader (R Map Vector : Type) := {
  fb_has_identifier : bytes → bool;                  (* [buffer_has_identifier] for DALV *)
  fb_root : bytes → option (string * bytes);         (* the verified envelope: type id and payload *)
  fx_root : bytes → option R;
  fx_is_map : R → bool;
  fx_get_map : R → option Map;
  fx_index_key : Map → string → option nat;
  fx_index : Map → string → option R;
  fx_get_vector : R → option Vector;
  fx_len : Vector → nat;
  fx_at : Vector → nat → option R;
  fx_iter : Vector → list R;
  fx_get_str : R → option string;
  fx_get_u64 : R → option N;
  fx_get_i64 : R → option Z;
  fx_get_f64 : R → option F64;
  fx_get_bool : R → option bool;
}.

Inductive ExtractedValue :=
| ExtractedValue_Text (s : string) | ExtractedValue_U64 (n : N) | ExtractedValue_I64 (z : Z) | ExtractedValue_F64 (b : F64)
| ExtractedValue_Bool (b : bool) | ExtractedValue_Date (millis : Z) | ExtractedValue_Facet (s : string).
Abbreviation ExtractedDocument := (gmap string (list ExtractedValue)).

Section value.
Context `{FlexReader R Map Vector} `{!Codec SearchIndexDefinition}.

(** [traverse]. *)
Fixpoint traverse (reader : R) (path : list PathSegment) : Result (option R) :=
  match path with
  | [] => Ok (Some reader)
  | PathSegment_Key key :: path =>
      let! map := ok_or (fx_get_map reader) (Error_Search "path component requires a map") in
      match fx_index_key map key with
      | None => Ok None
      | Some _ => let! reader := ok_or (fx_index map key) (Error_Search "invalid map value") in traverse reader path
      end
  | PathSegment_Index index :: path =>
      let! vector := ok_or (fx_get_vector reader) (Error_Search "path component requires a vector") in
      if (N.of_nat (fx_len vector) <=? index)%N then Ok None
      else let! reader := ok_or (fx_at vector (N.to_nat index)) (Error_Search "invalid vector value") in traverse reader path
  end.

(** [extract_scalar]. *)
Definition extract_scalar (kind : FieldKind) (reader : R) : Result ExtractedValue :=
  ok_or
    match kind with
    | FieldKind_Text _ _ | FieldKind_Keyword => ExtractedValue_Text <$> fx_get_str reader
    | FieldKind_U64 => ExtractedValue_U64 <$> fx_get_u64 reader
    | FieldKind_I64 => ExtractedValue_I64 <$> fx_get_i64 reader
    | FieldKind_F64 => ExtractedValue_F64 <$> fx_get_f64 reader
    | FieldKind_Bool => ExtractedValue_Bool <$> fx_get_bool reader
    | FieldKind_Date => ExtractedValue_Date <$> fx_get_i64 reader
    | FieldKind_Facet => ExtractedValue_Facet <$> fx_get_str reader
    end
    (Error_Search "field has an incompatible FlexBuffer type").

(** The values of one field whose path leads somewhere. *)
Definition extract_values (field : SearchField) (reader : R) : Result (list ExtractedValue) :=
  if sf_multi_valued field then
    let! vector := ok_or (fx_get_vector reader) (Error_Search "field must be a vector") in
    if SEARCH_MAX_VALUES_PER_FIELD <? fx_len vector then Err (Error_Search "field exceeds the value-count limit")
    else mapR (extract_scalar (sf_kind field)) (fx_iter vector)
  else let! value := extract_scalar (sf_kind field) reader in Ok [value].

Definition value_bytes (value : ExtractedValue) : N :=
  match value with
  | ExtractedValue_Text s | ExtractedValue_Facet s => N.of_nat (String.length s)
  | _ => 8
  end.
(** The loop over the values of a field. *)
Fixpoint count_bytes (values : list ExtractedValue) (extracted_bytes : N) : Result N :=
  match values with
  | [] => Ok extracted_bytes
  | value :: values =>
      let! _ := check (value_bytes value <=? SEARCH_MAX_FIELD_BYTES)%N "field exceeds the byte limit" in
      count_bytes values (saturating_add usize_max extracted_bytes (value_bytes value))
  end.

(** The loop over the fields of the definition. *)
Fixpoint extract_fields (root : R) (fields : list SearchField) (document : ExtractedDocument) (extracted_bytes : N)
    : Result ExtractedDocument :=
  match fields with
  | [] => Ok document
  | field :: fields =>
      let! reader := traverse root (sf_source_path field) in
      match reader with
      | None => if sf_required field then Err (Error_Search "required field is missing") else extract_fields root fields document extracted_bytes
      | Some reader =>
          let! values := extract_values field reader in
          let! extracted_bytes := count_bytes values extracted_bytes in
          let! _ := check (extracted_bytes <=? SEARCH_MAX_EXTRACTED_BYTES)%N "document exceeds extracted byte limit" in
          extract_fields root fields (<[sf_name field := values]> document) extracted_bytes
      end
  end.

(** [extract_document]. *)
Definition extract_document (encoded : bytes) (definition : SearchIndexDefinition) : Result (option ExtractedDocument) :=
  let! _ := SearchIndexDefinition_validate definition in
  let! _ := check (negb ((length encoded <? 8) || negb (fb_has_identifier encoded))) "value is not a DALV SearchValue FlatBuffer" in
  let! envelope := ok_or (fb_root encoded) (Error_Search "invalid SearchValue FlatBuffer") in
  if negb (bool_decide (envelope.1 = sd_document_type definition)) then Ok None
  else
  let! root := ok_or (fx_root envelope.2) (Error_Search "invalid FlexBuffer payload") in
  let! _ := check (fx_is_map root) "FlexBuffer root must be a map" in
  let! document := extract_fields root (sd_fields definition) ∅ 0 in
  Ok (Some document).
End value.

(** ** Tantivy documents *)

(** Building a document, and what the library reads back for facets and dates. *)
Class TantivyDocument (Doc : Type) := {
  td_new : bytes → N → string → Doc;                 (* with its _key, _version and _type *)
  td_add : string → OwnedValue → Doc → Doc;
  td_facet : string → option string;                 (* [Facet::from_text], as the path string it reads back *)
  td_date : Z → Z;                                   (* [DateTime::from_timestamp_millis], as the milliseconds it reads back *)
}.

Section document.
Context `{TantivyDocument Doc} `{FlexReader R Map Vector} `{!Codec SearchIndexDefinition}.

Definition owned_value (value : ExtractedValue) : Result OwnedValue :=
  match value with
  | ExtractedValue_Text s => Ok (OwnedValue_Str s)
  | ExtractedValue_U64 n => Ok (OwnedValue_U64 n)
  | ExtractedValue_I64 z => Ok (OwnedValue_I64 z)
  | ExtractedValue_F64 b => Ok (OwnedValue_F64 b)
  | ExtractedValue_Bool b => Ok (OwnedValue_Bool b)
  | ExtractedValue_Date millis => Ok (OwnedValue_Date (td_date millis))
  | ExtractedValue_Facet s => let! path := ok_or (td_facet s) (Error_Search "invalid facet") in Ok (OwnedValue_Facet (Some path))
  end.
Fixpoint add_values (name : string) (values : list ExtractedValue) (d : Doc) : Result Doc :=
  match values with
  | [] => Ok d
  | value :: values => let! v := owned_value value in add_values name values (td_add name v d)
  end.
Fixpoint add_fields (extracted : ExtractedDocument) (fields : list SearchField) (d : Doc) : Result Doc :=
  match fields with
  | [] => Ok d
  | field :: fields =>
      match extracted !! sf_name field with
      | None => add_fields extracted fields d
      | Some values => let! d := add_values (sf_name field) values d in add_fields extracted fields d
      end
  end.
(** [to_tantivy_document]. *)
Definition to_tantivy_document (generation : SearchIndexGeneration) (key : bytes) (version : N) (extracted : ExtractedDocument) : Result Doc :=
  add_fields extracted (sd_fields (sg_definition generation)) (td_new key version (sd_document_type (sg_definition generation))).

(** The part of [add_if_indexable] between the key check and the writer: the
    document the projection of a record adds. *)
Definition index_document (generation : SearchIndexGeneration) (key : bytes) (version : N) (encoded : bytes) : Extracted Doc :=
  match extract_document encoded (sg_definition generation) with
  | Ok (Some extracted) =>
      match to_tantivy_document generation key version extracted with
      | Ok d => Extracted_Document d
      | Err e => Extracted_Rejected (error_display e)
      end
  | Ok None => Extracted_None
  | Err e => Extracted_Rejected (error_display e)
  end.
End document.

(** What the query side reads of a document built this way. *)
Class TantivyDocumentOk (Doc Q Term : Type) `{!TantivyDocument Doc, !TantivyQuery Doc Q Term} : Prop := {
  td_new_version key version type : tq_version (td_new key version type) = Some version;
  td_new_values key version type name : String.prefix "_" name = false → tq_values (td_new key version type) name = [];
  td_add_version name v d : String.prefix "_" name = false → tq_version (td_add name v d) = tq_version d;
  td_add_values name v d name' : tq_values (td_add name v d) name' = tq_values d name' ++ (if decide (name = name') then [v] else []);
}.

(** ** Stored fields of an indexed record

    A document the projection builds carries the record's version, and reading
    its stored fields gives the values found at their paths in the record. *)
Lemma validate_fields_ok names fields : validate_fields names fields = Ok tt →
  NoDup (sf_name <$> fields) ∧ (∀ f, f ∈ fields → sf_name f ∉ names) ∧ Forall (λ f, String.prefix "_" (sf_name f) = false) fields.
Proof.
  revert names. induction fields as [|f fields IH]; intros names; cbn [validate_fields].
  { intros _. split_and!; [constructor|set_solver|constructor]. }
  intros ([] & Hf & (Hnd & Hn & Hp)%IH)%bind_ok. unfold validate_field in Hf.
  apply bind_ok in Hf as (_ & _ & Hf). apply bind_ok in Hf as (u1 & Hr & Hf). apply bind_ok in Hf as (u2 & Hd & _).
  unfold check in Hr, Hd. destruct (String.prefix "_" (sf_name f)) eqn:Ep; [done|]. case_bool_decide as En; [done|].
  cbn. split_and!.
  - constructor; [|done]. intros (g & E & Hg)%list_elem_of_fmap. destruct (Hn g Hg). rewrite E. by left.
  - intros g [->|Hg]%elem_of_cons; [done|]. specialize (Hn g Hg). set_solver.
  - by constructor.
Qed.
Lemma definition_fields_ok `{!Codec SearchIndexDefinition} d : SearchIndexDefinition_validate d = Ok tt →
  NoDup (sf_name <$> sd_fields d) ∧ Forall (λ f, String.prefix "_" (sf_name f) = false) (sd_fields d).
Proof.
  unfold SearchIndexDefinition_validate. intros (_ & _ & (_ & _ & ([] & (? & _ & ?)%validate_fields_ok & _)%bind_ok)%bind_ok)%bind_ok. done.
Qed.

Definition total_bytes (values : list ExtractedValue) : N := foldr (λ v n, value_bytes v + n)%N 0%N values.

Lemma saturating_add_small a b c : (saturating_add usize_max a b + c ≤ SEARCH_MAX_EXTRACTED_BYTES)%N → saturating_add usize_max a b = (a + b)%N.
Proof.
  unfold saturating_add. intros Hle. apply N.min_l. destruct (N.le_gt_cases (a + b) usize_max) as [|Hgt]; [done|].
  rewrite N.min_r in Hle by lia. exfalso. assert (SEARCH_MAX_EXTRACTED_BYTES < usize_max)%N by (vm_compute; reflexivity). lia.
Qed.
Lemma count_bytes_ok values b b' : count_bytes values b = Ok b' → (b' ≤ SEARCH_MAX_EXTRACTED_BYTES)%N →
  Forall (λ v, value_bytes v ≤ SEARCH_MAX_FIELD_BYTES)%N values ∧ b' = (b + total_bytes values)%N.
Proof.
  revert b. induction values as [|v values IH]; intros b; cbn [count_bytes].
  { intros [= <-] _. split; [constructor|]. symmetry. apply N.add_0_r. }
  intros (u & Hc & E)%rbind_ok Hle. destruct (IH _ E Hle) as [Hf ->].
  unfold check in Hc. destruct (value_bytes v <=? _)%N eqn:Ev; [|done]. split; [constructor; [by apply N.leb_le|done]|].
  rewrite (saturating_add_small _ _ _ Hle). change (total_bytes (v :: values)) with (value_bytes v + total_bytes values)%N. lia.
Qed.

Section extract.
Context `{FlexReader R Map Vector} `{!Codec SearchIndexDefinition}.

(** What a field of an extracted document says about the record. *)
Definition field_extracted (root : R) (f : SearchField) (values : option (list ExtractedValue)) : Prop :=
  match values with
  | None => traverse root (sf_source_path f) = Ok None ∧ sf_required f = false
  | Some values => ∃ reader, traverse root (sf_source_path f) = Ok (Some reader) ∧ extract_values f reader = Ok values ∧
      Forall (λ v, value_bytes v ≤ SEARCH_MAX_FIELD_BYTES)%N values
  end.
Definition document_bytes (fields : list SearchField) (document : ExtractedDocument) : N :=
  foldr (λ f n, total_bytes (default [] (document !! sf_name f)) + n)%N 0%N fields.

Lemma extract_fields_ok root fields : NoDup (sf_name <$> fields) → ∀ document b document',
  extract_fields root fields document b = Ok document' → (∀ f, f ∈ fields → document !! sf_name f = None) → (b ≤ SEARCH_MAX_EXTRACTED_BYTES)%N →
  (∀ n, n ∉ sf_name <$> fields → document' !! n = document !! n) ∧
  Forall (λ f, field_extracted root f (document' !! sf_name f)) fields ∧
  (b + document_bytes fields document' ≤ SEARCH_MAX_EXTRACTED_BYTES)%N.
Proof.
  induction fields as [|f fields IH]; intros Hnd document b document'; cbn [extract_fields document_bytes foldr fmap list_fmap].
  { intros [= <-] _ Hb. split_and!; [done|constructor|lia]. }
  apply NoDup_cons in Hnd as [Hf Hnd]. intros (o & Ht & E)%rbind_ok Hnone Hb. destruct o as [reader|].
  - apply rbind_ok in E as (values & Hv & E). apply rbind_ok in E as (b1 & Hc & E). apply rbind_ok in E as (u & Hle & E).
    unfold check in Hle. destruct (b1 <=? _)%N eqn:El; [|done]. apply N.leb_le in El.
    apply count_bytes_ok in Hc as [Hfb ->]; [|done].
    destruct (IH Hnd _ _ _ E) as (Hout & Hall & Htot); [|done|].
    { intros g Hg. rewrite lookup_insert_ne; [apply Hnone; by right|]. intros En. apply Hf. rewrite En. by apply list_elem_of_fmap_2. }
    assert (document' !! sf_name f = Some values) as Ef by (rewrite Hout by done; apply lookup_insert_eq).
    split_and!.
    + intros n Hn. rewrite Hout by set_solver. rewrite lookup_insert_ne; [done|set_solver].
    + constructor; [|done]. rewrite Ef. by exists reader.
    + rewrite Ef. cbn [default from_option id]. fold (document_bytes fields document'). lia.
  - destruct (sf_required f) eqn:Er; [done|]. destruct (IH Hnd _ _ _ E) as (Hout & Hall & Htot); [intros g Hg; apply Hnone; by right|done|].
    assert (document' !! sf_name f = None) as Ef by (rewrite Hout by done; apply Hnone; by left).
    split_and!; [intros n Hn; apply Hout; set_solver| |].
    + constructor; [|done]. by rewrite Ef.
    + rewrite Ef. cbn [default from_option id]. fold (document_bytes fields document'). exact Htot.
Qed.
End extract.

Section stored.
Context `{TantivyQuery Doc Q Term} `{!TantivyDocument Doc} `{!TantivyDocumentOk Doc Q Term}.
Context `{FlexReader R Map Vector} `{!Codec SearchIndexDefinition}.
Implicit Types (d : Doc).

(** The value a client reads for an extracted one. *)
Definition reads_back (v : ExtractedValue) (sv : SortValue) : Prop :=
  match v with
  | ExtractedValue_Text s => sv = SortValue_String s
  | ExtractedValue_U64 n => sv = SortValue_U64 n
  | ExtractedValue_I64 z => sv = SortValue_I64 z
  | ExtractedValue_F64 b => sv = SortValue_F64 b
  | ExtractedValue_Bool b => sv = SortValue_Bool b
  | ExtractedValue_Date millis => sv = SortValue_I64 (td_date millis)
  | ExtractedValue_Facet s => ∃ path, td_facet s = Some path ∧ sv = SortValue_String path
  end.

Lemma scalar_reads_back kind reader v o : extract_scalar kind reader = Ok v → owned_value v = Ok o →
  ∃ sv, read_stored_value kind o = Some sv ∧ reads_back v sv.
Proof.
  unfold extract_scalar. destruct kind; cbn; (match goal with |- context [?f reader] => destruct (f reader) as [x|] end; [|done]);
    intros [= <-]; cbn; try (intros [= <-]; eauto; done).
  destruct (td_facet x) as [path|] eqn:Ep; [|done]. intros [= <-]. cbn. eauto.
Qed.
Lemma values_scalar f reader vs : extract_values f reader = Ok vs → Forall (λ v, ∃ r, extract_scalar (sf_kind f) r = Ok v) vs.
Proof.
  unfold extract_values. destruct (sf_multi_valued f).
  - intros (vector & _ & E)%rbind_ok. destruct (_ <? _); [done|]. apply mapR_ok in E.
    induction E as [|r v rs vs Hr _ IH]; constructor; eauto.
  - intros (v & E & [= <-])%rbind_ok. repeat constructor. eauto.
Qed.

Lemma add_values_ok name vs d d' : String.prefix "_" name = false → add_values name vs d = Ok d' → ∃ os, mapR owned_value vs = Ok os ∧ tq_version d' = tq_version d ∧
  ∀ n, tq_values d' n = tq_values d n ++ (if decide (name = n) then os else []).
Proof.
  intros Hn. revert d. induction vs as [|v vs IH]; intros d; cbn.
  { intros [= <-]. exists []. split_and!; [done..|]. intros n. case_decide; by rewrite app_nil_r. }
  intros (o & Ho & (os & Hos & Hv & Hvs)%IH)%rbind_ok. exists (o :: os). rewrite Ho. cbn. rewrite Hos. cbn. split_and!; [done| |].
  - by rewrite Hv, td_add_version.
  - intros n. rewrite Hvs, td_add_values, <-app_assoc. by case_decide.
Qed.
Lemma add_fields_ok ex fields : NoDup (sf_name <$> fields) → Forall (λ f, String.prefix "_" (sf_name f) = false) fields → ∀ d d', add_fields ex fields d = Ok d' →
  tq_version d' = tq_version d ∧ (∀ n, n ∉ sf_name <$> fields → tq_values d' n = tq_values d n) ∧
  ∀ f, f ∈ fields → ∃ os, mapR owned_value (default [] (ex !! sf_name f)) = Ok os ∧ tq_values d' (sf_name f) = tq_values d (sf_name f) ++ os.
Proof.
  intros Hnd Hp. induction fields as [|f fields IH]; intros d d'; cbn [add_fields].
  { intros [= <-]. split_and!; [done..|]. set_solver. }
  apply NoDup_cons in Hnd as [Hf Hnd]. apply Forall_cons in Hp as [Hpf Hp]. specialize (IH Hnd Hp).
  assert (∀ d1 os, mapR owned_value (default [] (ex !! sf_name f)) = Ok os → tq_version d1 = tq_version d →
    (∀ n, tq_values d1 n = tq_values d n ++ (if decide (sf_name f = n) then os else [])) → add_fields ex fields d1 = Ok d' →
    tq_version d' = tq_version d ∧ (∀ n, n ∉ sf_name <$> f :: fields → tq_values d' n = tq_values d n) ∧
    ∀ g, g ∈ f :: fields → ∃ os, mapR owned_value (default [] (ex !! sf_name g)) = Ok os ∧ tq_values d' (sf_name g) = tq_values d (sf_name g) ++ os) as Hgo.
  { intros d1 os Hos Hv1 Hvs1 (Hv & Hout & Hin)%IH. cbn. split_and!; [congruence| |].
    - intros n Hn. rewrite Hout, Hvs1 by set_solver. rewrite decide_False by set_solver. by rewrite app_nil_r.
    - intros g [->|Hg]%elem_of_cons.
      + exists os. split; [done|]. rewrite Hout, Hvs1 by done. by rewrite decide_True.
      + destruct (Hin g Hg) as (os' & ? & E). exists os'. split; [done|]. rewrite E, Hvs1, decide_False, app_nil_r; [done|].
        intros En. apply Hf. rewrite En. by apply list_elem_of_fmap_2. }
  destruct (ex !! sf_name f) as [vs|] eqn:Ex.
  - intros (d1 & (os & Hos & Hv1 & Hvs1)%add_values_ok & E)%rbind_ok; [|done]. by apply (Hgo d1 os).
  - intros E. apply (Hgo d []); [done|done| |done]. intros n. case_decide; by rewrite app_nil_r.
Qed.

(** A stored field of a hit against the record: the values at the field's path. *)
Definition stored_from (root : R) (f : SearchField) (sf : StoredField) : Prop :=
  fd_name sf = sf_name f ∧
  match traverse root (sf_source_path f) with
  | Ok None => sf_required f = false ∧ fd_values sf = []
  | Ok (Some reader) => ∃ values, extract_values f reader = Ok values ∧
      Forall (λ v, value_bytes v ≤ SEARCH_MAX_FIELD_BYTES)%N values ∧ Forall2 reads_back values (fd_values sf)
  | Err _ => False
  end.

Lemma read_values f reader vs os : extract_values f reader = Ok vs → mapR owned_value vs = Ok os →
  ∃ svs, mapR (λ v, ok_or (read_stored_value (sf_kind f) v) (Error_Search "stored field has wrong type")) os = Ok svs ∧ Forall2 reads_back vs svs.
Proof.
  intros Hs%values_scalar Ho%mapR_ok. induction Ho as [|v o vs os Hvo _ IH]; [by exists []|].
  apply Forall_cons in Hs as [[r Hr] Hs]. destruct (IH Hs) as (svs & E & Hb). destruct (scalar_reads_back _ _ _ _ Hr Hvo) as (sv & Esv & Hsv).
  exists (sv :: svs). split; [|by constructor]. cbn. rewrite Esv. cbn. by rewrite E.
Qed.

Lemma read_stored_fields_ok root fields d (g : SearchField → option (list ExtractedValue)) :
  (∀ f, f ∈ fields → field_extracted root f (g f)) →
  (∀ f, f ∈ fields → ∃ os, mapR owned_value (default [] (g f)) = Ok os ∧ tq_values d (sf_name f) = os) →
  ∃ stored, mapR (λ f, let! values := mapR (λ v, ok_or (read_stored_value (sf_kind f) v) (Error_Search "stored field has wrong type")) (tq_values d (sf_name f)) in
                       Ok (mkStoredField (sf_name f) values)) fields = Ok stored ∧ Forall2 (stored_from root) fields stored.
Proof.
  induction fields as [|f fields IH]; intros Hx Ho; [by exists []|].
  destruct IH as (stored & E & Hall); [intros h Hh; apply Hx; by right|intros h Hh; apply Ho; by right|].
  specialize (Hx f ltac:(by left)). destruct (Ho f ltac:(by left)) as (os & Hos & Hvs).
  assert (∃ sf, (let! values := mapR (λ v, ok_or (read_stored_value (sf_kind f) v) (Error_Search "stored field has wrong type")) os in
                 Ok (mkStoredField (sf_name f) values)) = Ok sf ∧ stored_from root f sf) as (sf & Esf & Hsf).
  { destruct (g f) as [vs|]; cbn in Hx, Hos.
    - destruct Hx as (reader & Ht & He & Hb). destruct (read_values f reader vs os He Hos) as (svs & Es & Hrb). rewrite Es. cbn [rbind].
      eexists. split; [done|]. split; [done|]. rewrite Ht. by exists vs.
    - injection Hos as <-. destruct Hx as [Ht Hr]. eexists. split; [done|]. split; [done|]. by rewrite Ht. }
  exists (sf :: stored). split; [|by constructor]. cbn [mapR]. rewrite Hvs, Esf. unfold mbind, result_bind. cbn [rbind]. by rewrite E.
Qed.

(** C34: what a search returns of a record. A document the projection builds
    from a value carries the record's version, and the stored fields a search
    reads from it are, in the order of the definition, one per stored field,
    the values found at the field's path in the FlexBuffer of the value, each
    read back with its type; an optional field whose path leads nowhere has no
    values; and everything extracted is within the size limits. *)
Theorem indexed_stored_fields generation key version encoded d :
  index_document generation key version encoded = Extracted_Document d →
  ∃ payload root extracted stored,
    fb_root encoded = Some (sd_document_type (sg_definition generation), payload) ∧ fx_root payload = Some root ∧
    extract_document encoded (sg_definition generation) = Ok (Some extracted) ∧
    (document_bytes (sd_fields (sg_definition generation)) extracted ≤ SEARCH_MAX_EXTRACTED_BYTES)%N ∧
    tq_version d = Some version ∧ read_stored_fields generation d = Ok stored ∧
    Forall2 (stored_from root) (filter (λ f, sf_stored f = true) (sd_fields (sg_definition generation))) stored.
Proof.
  unfold index_document. destruct (extract_document _ _) as [[extracted|]|] eqn:Ee; [|done..].
  destruct (to_tantivy_document _ _ _ _) as [d'|] eqn:Et; [|done]. intros [= ->]. pose proof Ee as Ee'.
  unfold extract_document in Ee. apply rbind_ok in Ee as ([] & [Hnd Hp]%definition_fields_ok & Ee). apply rbind_ok in Ee as (u & _ & Ee).
  apply rbind_ok in Ee as ([type payload] & Hroot & Ee). destruct (fb_root encoded) as [env|] eqn:Er; [|done]. injection Hroot as ->.
  cbn [fst snd] in Ee. case_bool_decide as Etype; [|done]. cbn [negb] in Ee. apply rbind_ok in Ee as (root & Hfx & Ee).
  destruct (fx_root payload) as [root'|] eqn:Erx; [|done]. injection Hfx as ->. apply rbind_ok in Ee as (u' & _ & Ee). apply rbind_ok in Ee as (ex & Hex & [= ->]).
  apply extract_fields_ok in Hex as (_ & Hall & Htot); [|done|intros; apply lookup_empty|by vm_compute].
  apply add_fields_ok in Et as (Hv & _ & Hin); [|done..]. rewrite Forall_forall in Hall, Hp.
  destruct (read_stored_fields_ok root (filter (λ f, sf_stored f = true) (sd_fields (sg_definition generation))) d (λ f, extracted !! sf_name f)) as (stored & Hst & Hf2).
  { intros f [_ Hf]%list_elem_of_filter. by apply Hall. }
  { intros f [_ Hf]%list_elem_of_filter. destruct (Hin f Hf) as (os & ? & E). exists os. split; [done|]. by rewrite E, td_new_values by by apply Hp. }
  exists payload, root, extracted, stored. subst type. rewrite Hv, td_new_version. by split_and!.
Qed.
End stored.
