(* ===== verification/SearchService.v ===== *)
(** * The node-local search service (src/src/search/service.rs)

    The registry of loaded generations and held sessions. An [Arc] of a loaded
    generation is its address in a heap, so that a request keeps the object it
    has cloned whatever happens to the registry. Each handler is split where it
    waits for a task: a [Task] is a handler waiting there, with the values it
    holds, and the functions below are the code from one such point to the next.
    The gate is not split further: its barrier and its projection pass are part
    of the step that begins a phase, with what other tasks do meanwhile given by
    the [PassEnv]. Times are
    milliseconds. The answer of [PartitionNode::search_barrier] is an argument;
    so is what opening an index directory yields. *)

From S2P Require Import Prelude SortBy BTree Types Codec SearchDef Query Keyspace Outbox ApplyDurability Aio Rocks Storage DataSM SearchStore PartitionNode SearchWorker Coordinator SearchShard.

(** [(partition, index name, generation)]. *)
Definition GenerationKey : Type := N * string * N.
Definition key_partition (k : GenerationKey) : N := k.1.1.

(** [HeldSession]. *)
Record HeldSession (Doc Q : Type) := mkSession {
  se_partition : N;
  se_generation : SearchIndexGeneration;
  se_held : HeldSearch Doc Q;
  se_window : N;
  se_projection_epoch : N;
  se_expires_at : N;
}.
Arguments mkSession {Doc Q} _ _ _ _ _ _.
Arguments se_partition {Doc Q} _.
Arguments se_generation {Doc Q} _.
Arguments se_held {Doc Q} _.
Arguments se_window {Doc Q} _.
Arguments se_projection_epoch {Doc Q} _.
Arguments se_expires_at {Doc Q} _.

(** [SearchService]. The heap holds each loaded index with the closed flag of
    its worker; [sx_shard_slots] counts the permits that are free. *)
Record SearchService (D TI Doc Q : Type) := mkService {
  sx_storage : Storage D;
  sx_heap : gmap N (LocalSearchIndex TI Doc * bool);
  sx_loaded : gmap GenerationKey N;
  sx_active : gmap (N * string) N;
  sx_unavailable : gset N;
  sx_sessions : gmap SearchSessionId (HeldSession Doc Q);
  sx_session_incarnation : N;
  sx_next_session : N;
  sx_shard_slots : nat;
}.
Arguments mkService {D TI Doc Q} _ _ _ _ _ _ _ _ _.
Arguments sx_storage {D TI Doc Q} _.
Arguments sx_heap {D TI Doc Q} _.
Arguments sx_loaded {D TI Doc Q} _.
Arguments sx_active {D TI Doc Q} _.
Arguments sx_unavailable {D TI Doc Q} _.
Arguments sx_sessions {D TI Doc Q} _.
Arguments sx_session_incarnation {D TI Doc Q} _.
Arguments sx_next_session {D TI Doc Q} _.
Arguments sx_shard_slots {D TI Doc Q} _.

(** A handler at an await. *)
Inductive Task (Doc Q : Type) :=
| Task_Prepare (request : ShardPrepareRequest) (partition arc : N) (checkpoint : IndexCheckpoint)
| Task_Prepared (partition : N) (generation : SearchIndexGeneration) (window : N) (held : HeldSearch Doc Q) (statistics : ShardStatistics)
| Task_Execute (session_id : SearchSessionId) (session : HeldSession Doc Q) (statistics : ShardStatistics)
| Task_Executed (session_id : SearchSessionId) (session : HeldSession Doc Q) (statistics : ShardStatistics) (outcome : Result SearchReply)
| Task_Search (request : SearchRequest) (partition arc : N) (checkpoint : IndexCheckpoint)
| Task_Searched (partition epoch : N) (reply : SearchReply)
| Task_Install (key : GenerationKey) (arc : N) (registered needs_rebuild active : bool)
| Task_Backfilled (key : GenerationKey) (arc : N) (registered active : bool) (backfill : Result SearchCatchUp).
Arguments Task_Prepare {Doc Q} _ _ _ _.
Arguments Task_Prepared {Doc Q} _ _ _ _ _.
Arguments Task_Execute {Doc Q} _ _ _.
Arguments Task_Executed {Doc Q} _ _ _ _.
Arguments Task_Search {Doc Q} _ _ _ _.
Arguments Task_Searched {Doc Q} _ _ _.
Arguments Task_Install {Doc Q} _ _ _ _ _.
Arguments Task_Backfilled {Doc Q} _ _ _ _ _.

(** Whether it holds the read guard of the lifecycle lock. *)
Definition guarded {Doc Q} (t : Task Doc Q) : bool :=
  match t with Task_Install _ _ _ _ _ | Task_Backfilled _ _ _ _ _ => false | _ => true end.

(** What a handler does next: answer, or wait. *)
Inductive Next (Doc Q R : Type) := Next_Reply (reply : Result R) | Next_Task (task : Task Doc Q).
Arguments Next_Reply {Doc Q R} _.
Arguments Next_Task {Doc Q R} _.

Inductive ShardSearchOutcome :=
| ShardSearchOutcome_Reply (reply : SearchReply)
| ShardSearchOutcome_NotLeader (leader : option NodeId).

Inductive GateOutcome :=
| GateOutcome_Ready (arc : N) (checkpoint : IndexCheckpoint)
| GateOutcome_NotLeader (leader : option NodeId).

Section service.
Context `{Rocks D} `{!Codec U64, !Codec string, !Codec RaftApplied, !Codec SearchConsumerState, !Codec KeyRecord}
  `{!Codec SearchIndexDefinition, !Codec SearchHit, !Codec SearchReply, !Codec ShardStatistics} `{Hashes}.
Context `{Tantivy TI Doc} `{!TantivyQuery Doc Q Term} (document : bytes → N → bytes → Extracted Doc).

Abbreviation svc := (SearchService D TI Doc Q).
Implicit Types (s : svc).

Definition set_storage (st : Storage D) s : svc :=
  mkService st (sx_heap s) (sx_loaded s) (sx_active s) (sx_unavailable s) (sx_sessions s) (sx_session_incarnation s)
    (sx_next_session s) (sx_shard_slots s).
Definition set_heap (h : gmap N (LocalSearchIndex TI Doc * bool)) s : svc :=
  mkService (sx_storage s) h (sx_loaded s) (sx_active s) (sx_unavailable s) (sx_sessions s) (sx_session_incarnation s)
    (sx_next_session s) (sx_shard_slots s).
Definition set_registry (loaded : gmap GenerationKey N) (active : gmap (N * string) N) (unavailable : gset N) s : svc :=
  mkService (sx_storage s) (sx_heap s) loaded active unavailable (sx_sessions s) (sx_session_incarnation s)
    (sx_next_session s) (sx_shard_slots s).
Definition set_sessions (sessions : gmap SearchSessionId (HeldSession Doc Q)) s : svc :=
  mkService (sx_storage s) (sx_heap s) (sx_loaded s) (sx_active s) (sx_unavailable s) sessions (sx_session_incarnation s)
    (sx_next_session s) (sx_shard_slots s).
Definition set_slots (slots : nat) s : svc :=
  mkService (sx_storage s) (sx_heap s) (sx_loaded s) (sx_active s) (sx_unavailable s) (sx_sessions s) (sx_session_incarnation s)
    (sx_next_session s) slots.

Definition on_storage {A} (m : io (Storage D) A) : io svc A := λ s,
  let '(st, r) := m (sx_storage s) in (set_storage st s, r).
Definition projection_epoch s (partition : N) : Result N := search_projection_epoch (sx_storage s) (GroupId_Data partition).

(** [SearchService::new]. *)
Definition SearchService_new : io (Storage D) svc := λ st,
  match next_search_session_incarnation st with
  | (st, Ok incarnation) => (st, Ok (mkService st ∅ ∅ ∅ ∅ ∅ incarnation 1 SEARCH_MAX_CONCURRENT_SHARD))
  | (st, Err e) => (st, Err e)
  end.

(** [next_session_id]. *)
Definition next_session_id : io svc SearchSessionId := λ s,
  match checked_add u64_max (sx_next_session s) 1 with
  | None => (s, Err (Error_Search "search session sequence exhausted"))
  | Some next =>
      (mkService (sx_storage s) (sx_heap s) (sx_loaded s) (sx_active s) (sx_unavailable s) (sx_sessions s)
         (sx_session_incarnation s) next (sx_shard_slots s),
       Ok (mkSessionId (sx_session_incarnation s) (sx_next_session s)))
  end.

(** [admit_shard], and the permit's drop. *)
Definition admit_shard : io svc unit := λ s,
  match sx_shard_slots s with
  | O => (s, Err (Error_Search "too many concurrent shard searches on this replica"))
  | S n => (set_slots n s, Ok tt)
  end.
Definition release_slot s : svc := set_slots (S (sx_shard_slots s)) s.

(** A pass of the worker of a loaded generation. *)
Definition with_worker {A} (arc : N) (m : aio (SearchIndexWorker D TI Doc) A) : aio svc A := λ s,
  match sx_heap s !! arc with
  | None => (s, Ready (Err (Error_Search "index generation is not loaded")))
  | Some (i, closed) =>
      let '(w, r) := m (mkWorker (sx_storage s) i closed) in
      (set_heap (<[arc := (sw_index w, sw_closed w)]> (sx_heap s)) (set_storage (sw_storage w) s), r)
  end.
(** [close_and_drain] of several workers. *)
Definition close_workers (arcs : list N) s : svc :=
  set_heap (foldr (λ arc heap, alter (λ e, (e.1, true)) arc heap) (sx_heap s) arcs) s.

Definition covered_by (barrier : RaftLogId) (checkpoint : IndexCheckpoint) : bool :=
  match ck_source_log_id checkpoint with Some id => (rl_index barrier <=? rl_index id)%N | None => false end.

(** [gate]. *)
Definition shard_gate (env : PassEnv D) (partition : N) (barrier : Result SearchBarrier) (index : string)
    (generation : GenerationSelection) : aio svc GateOutcome :=
  let~ barrier := aio_io (io_read (λ _, barrier)) in
  match barrier with
  | SearchBarrier_NotLeader leader => aio_ret (GateOutcome_NotLeader leader)
  | SearchBarrier_Ready barrier =>
      let~ generation := aio_io (io_read (λ s,
        match generation with
        | GenerationSelection_Active => ok_or (sx_active s !! (partition, index)) (Error_Search "active index generation is not ready")
        | GenerationSelection_Exact generation => Ok generation
        end)) in
      let~ arc := aio_io (io_read (λ s,
        ok_or (sx_loaded s !! (partition, index, generation)) (Error_Search "index generation is not ready on this replica"))) in
      with_worker arc (catch_up document (GroupId_Data partition) index env) ;;~
      let~ epoch := aio_io (io_read (λ s, projection_epoch s partition)) in
      let~ checkpoint := aio_io (io_read (λ s,
        ok_or (sx_heap s !! arc ≫= λ e, validate_checkpoint e.1 epoch) (Error_Search "index checkpoint identity/epoch mismatch"))) in
      match barrier with
      | Some barrier =>
          if covered_by barrier checkpoint then aio_ret (GateOutcome_Ready arc checkpoint)
          else aio_io (io_err (Error_Search "index checkpoint does not cover ReadIndex barrier"))
      | None => aio_ret (GateOutcome_Ready arc checkpoint)
      end
  end.

(** ** Prepare *)

(** [shard_prepare] up to its blocking task. *)
Definition prepare_begin (env : PassEnv D) (partition : N) (barrier : Result SearchBarrier) (request : ShardPrepareRequest)
    : aio svc (Next Doc Q ShardPrepareReply) :=
  aio_io admit_shard ;;~
  λ s,
  match
    (aio_io (io_read (λ _, validate_index_name (pq_index request))) ;;~
     shard_gate env partition barrier (pq_index request) (GenerationSelection_Exact (pq_generation request))) s
  with
  | (s, Ready (Ok (GateOutcome_Ready arc checkpoint))) =>
      match sx_heap s !! arc with
      | Some (i, _) =>
          if bool_decide (sg_definition_hash (li_generation i) = pq_definition_hash request)
          then (s, Ready (Ok (Next_Task (Task_Prepare request partition arc checkpoint))))
          else (release_slot s, Ready (Ok (Next_Reply (Ok (ShardPrepareReply_Error
                  "shard index definition hash does not match the coordinator")))))
      | None => (release_slot s, Ready (Err (Error_Search "index generation is not loaded")))
      end
  | (s, Ready (Ok (GateOutcome_NotLeader leader))) =>
      (release_slot s, Ready (Ok (Next_Reply (Ok (ShardPrepareReply_NotLeader leader)))))
  | (s, Ready (Err e)) => (release_slot s, Ready (Err e))
  | (s, Pending) => (s, Pending)
  end.

(** The blocking task: pin the commit and measure it. *)
Definition prepare_hold (request : ShardPrepareRequest) (i : LocalSearchIndex TI Doc) (checkpoint : IndexCheckpoint)
    : Result (HeldSearch Doc Q * ShardStatistics) :=
  let! held := hold i (pq_query request) (GenerationSelection_Exact (sg_id (li_generation i))) (pq_window request) checkpoint in
  let! statistics := shard_statistics held in
  Ok (held, statistics).

(** The rest: validate, allocate an id, publish the session. *)
Definition prepare_finish (now : N) (partition : N) (generation : SearchIndexGeneration) (window : N) (held : HeldSearch Doc Q)
    (statistics : ShardStatistics) : io svc ShardPrepareReply :=
  io_read (λ _, ShardStatistics_validate statistics) ;;?
  let checkpoint_index := index_or_zero (ck_source_log_id (hs_checkpoint held)) in
  let? session_id := next_session_id in
  let session := mkSession partition generation held window (ck_projection_epoch (hs_checkpoint held)) (now + SEARCH_SESSION_TTL_MS)%N in
  λ s,
  let sessions := filter (λ e, (now < se_expires_at e.2)%N) (sx_sessions s) in
  if SEARCH_MAX_SESSIONS <=? size sessions
  then (set_sessions sessions s, Ok (ShardPrepareReply_Error "too many held search sessions on this replica"))
  else (set_sessions (<[session_id := session]> sessions) s,
        Ok (ShardPrepareReply_Prepared (mkShardPrepared session_id checkpoint_index statistics))).

(** ** Execute *)

(** [shard_execute] up to its blocking task. *)
Definition execute_begin (now : N) (request : ShardExecuteRequest) : io svc (Next Doc Q ShardExecuteReply) := λ s,
  match admit_shard s with
  | (s, Err e) => (s, Ok (Next_Reply (Ok (ShardExecuteReply_Error (error_display e)))))
  | (s, Ok _) =>
      let finish s reply : svc * Result (Next Doc Q ShardExecuteReply) := (release_slot s, Ok (Next_Reply (Ok reply))) in
      match sx_sessions s !! xq_session_id request with
      | None => finish s ShardExecuteReply_UnknownSession
      | Some session =>
          let s := set_sessions (delete (xq_session_id request) (sx_sessions s)) s in
          if (se_expires_at session <? now)%N then finish s ShardExecuteReply_UnknownSession
          else
          match projection_epoch s (se_partition session) with
          | Ok epoch =>
              if negb (epoch =? se_projection_epoch session)%N then finish s ShardExecuteReply_UnknownSession
              else
              match ShardStatistics_validate (xq_statistics request) with
              | Err e => finish s (ShardExecuteReply_Error (error_display e))
              | Ok _ => (s, Ok (Next_Task (Task_Execute (xq_session_id request) session (xq_statistics request))))
              end
          | Err e => finish s (ShardExecuteReply_Error (error_display e))
          end
      end
  end.

(** The blocking task: score the pinned searcher. *)
Definition execute_score (session : HeldSession Doc Q) (statistics : ShardStatistics) : Result SearchReply :=
  let! global := GlobalBm25Statistics_new (se_generation session) statistics in
  index_execute (se_generation session) (se_partition session) (se_held session) (se_window session) global.

(** The rest: the epoch must not have moved. *)
Definition execute_finish (session : HeldSession Doc Q) (outcome : Result SearchReply) s : svc * ShardExecuteReply :=
  (release_slot s,
   match outcome with
   | Ok reply =>
       match projection_epoch s (se_partition session) with
       | Ok epoch => if (epoch =? se_projection_epoch session)%N then ShardExecuteReply_Result reply else ShardExecuteReply_UnknownSession
       | Err e => ShardExecuteReply_Error (error_display e)
       end
   | Err e => ShardExecuteReply_Error (error_display e)
   end).

(** [release_session], [sweep_expired_sessions], [expire_sessions]. *)
Definition release_session (session_id : SearchSessionId) s : svc := set_sessions (delete session_id (sx_sessions s)) s.
Definition sweep_expired_sessions (now : N) s : svc := set_sessions (filter (λ e, (now < se_expires_at e.2)%N) (sx_sessions s)) s.
Definition expire_sessions (partition : N) s : svc := set_sessions (filter (λ e, se_partition e.2 ≠ partition) (sx_sessions s)) s.

(** ** One-shot search *)

(** [shard_search] up to its blocking task. *)
Definition search_begin (env : PassEnv D) (partition : N) (barrier : Result SearchBarrier) (request : SearchRequest)
    : aio svc (Next Doc Q ShardSearchOutcome) :=
  aio_io admit_shard ;;~
  λ s,
  match shard_gate env partition barrier (sq_index request) (sq_generation request) s with
  | (s, Ready (Ok (GateOutcome_Ready arc checkpoint))) => (s, Ready (Ok (Next_Task (Task_Search request partition arc checkpoint))))
  | (s, Ready (Ok (GateOutcome_NotLeader leader))) =>
      (release_slot s, Ready (Ok (Next_Reply (Ok (ShardSearchOutcome_NotLeader leader)))))
  | (s, Ready (Err e)) => (release_slot s, Ready (Err e))
  | (s, Pending) => (s, Pending)
  end.
(** The rest: the epoch must not have moved. *)
Definition search_finish (partition epoch : N) (reply : SearchReply) s : svc * Result ShardSearchOutcome :=
  (release_slot s,
   match projection_epoch s partition with
   | Ok current =>
       if (current =? epoch)%N then Ok (ShardSearchOutcome_Reply reply)
       else Err (Error_Search "snapshot install replaced the projection during this search")
   | Err e => Err e
   end).

(** ** Generations *)

(** [roll_back]. *)
Definition roll_back (key : GenerationKey) (registered : bool) (opened : option N) : io svc unit := λ s,
  let still_owned := match opened with Some arc => bool_decide (sx_loaded s !! key = Some arc) | None => true end in
  let s := match opened with
           | Some arc => if still_owned then set_registry (delete key (sx_loaded s)) (sx_active s) (sx_unavailable s) s else s
           | None => s end in
  if registered && still_owned
  then ((on_storage (unregister_search_consumer (GroupId_Data (key_partition key)) key.1.2 key.2) s).1, Ok tt)
  else (s, Ok tt).

(** [install_generation] up to the backfill; [opened] is what opening the
    directory yields, [arc] a fresh address. *)
Definition install_begin (partition : N) (name : string) (generation : SearchIndexGeneration) (active : bool)
    (opened : Result (LocalSearchIndex TI Doc)) (arc : N) : io svc (Next Doc Q unit) := λ s,
  let key := (partition, name, sg_id generation) in
  if bool_decide (partition ∈ sx_unavailable s) then (s, Err (Error_Search "partition is closed for search"))
  else
  match validate_index_name name with
  | Err e => (s, Err e)
  | Ok _ =>
  match on_storage (register_search_consumer (GroupId_Data partition) name generation) s with
  | (s, Err e) => (s, Err e)
  | (s, Ok registration) =>
      let registered := scr_created registration in
      match sx_loaded s !! key ≫= λ cached, (λ e, (cached, e.1)) <$> sx_heap s !! cached with
      | Some (cached, i) =>
          if negb (bool_decide (sg_definition_hash (li_generation i) = sg_definition_hash generation))
          then ((roll_back key registered None s).1, Err (Error_Search "loaded generation identity mismatch"))
          else (s, Ok (Next_Task (Task_Install key cached registered (scr_needs_rebuild registration) active)))
      | None =>
          match opened with
          | Err e => ((roll_back key registered None s).1, Err e)
          | Ok i =>
              (set_registry (<[key := arc]> (sx_loaded s)) (sx_active s) (sx_unavailable s)
                 (set_heap (<[arc := (i, false)]> (sx_heap s)) s),
               Ok (Next_Task (Task_Install key arc registered (scr_needs_rebuild registration) active)))
          end
      end
  end
  end.

(** [install_generation] after the backfill. *)
Definition install_finish (key : GenerationKey) (arc : N) (registered active : bool) (backfill : Result SearchCatchUp)
    : io svc unit := λ s,
  match backfill with
  | Err e => ((roll_back key registered (Some arc) (close_workers [arc] s)).1, Err e)
  | Ok _ =>
      if bool_decide (key_partition key ∈ sx_unavailable s) || bool_decide (sx_loaded s !! key = None)
      then ((roll_back key registered (Some arc) (close_workers [arc] s)).1,
            Err (Error_Search "partition was closed for search during install"))
      else (set_registry (sx_loaded s) (if (active : bool) then <[(key_partition key, key.1.2) := key.2]> (sx_active s) else sx_active s)
              (sx_unavailable s) s, Ok tt)
  end.

(** [forget_partition]. *)
Definition forget_partition (partition : N) s : svc :=
  let s := set_registry (sx_loaded s) (sx_active s) ({[partition]} ∪ sx_unavailable s) s in
  let retired := (map_to_list (filter (λ e, key_partition e.1 = partition) (sx_loaded s))).*2 in
  let s := expire_sessions partition (close_workers retired s) in
  set_registry (filter (λ e, key_partition e.1 ≠ partition) (sx_loaded s)) (filter (λ e, e.1.1 ≠ partition) (sx_active s))
    (sx_unavailable s) s.

(** [allow_partition]. *)
Definition allow_partition (partition : N) s : svc :=
  set_registry (sx_loaded s) (sx_active s) (sx_unavailable s ∖ {[partition]}) s.

(** [activate], [deactivate]. *)
Definition activate (partition : N) (name : string) (generation : N) s : svc :=
  match sx_loaded s !! (partition, name, generation) with
  | None => s
  | Some _ => set_registry (sx_loaded s) (<[(partition, name) := generation]> (sx_active s)) (sx_unavailable s) s
  end.
Definition deactivate (partition : N) (name : string) s : svc :=
  set_registry (sx_loaded s) (delete (partition, name) (sx_active s)) (sx_unavailable s) s.

(** [remove_generation]; the removal of its directory only logs its failures. *)
Definition remove_generation (partition : N) (name : string) (generation : N) : io svc unit := λ s,
  let key := (partition, name, generation) in
  let s := match sx_loaded s !! key with Some arc => close_workers [arc] s | None => s end in
  let s := set_registry (delete key (sx_loaded s))
             (if bool_decide (sx_active s !! (partition, name) = Some generation) then delete (partition, name) (sx_active s) else sx_active s)
             (sx_unavailable s) s in
  on_storage (unregister_search_consumer (GroupId_Data partition) name generation) (expire_sessions partition s).

(** [generation_readiness]. *)
Definition loaded_index s (partition : N) (name : string) (generation : N) : Result (N * LocalSearchIndex TI Doc) :=
  ok_or (sx_loaded s !! (partition, name, generation) ≫= λ arc, (λ e, (arc, e.1)) <$> sx_heap s !! arc)
    (Error_Search "index generation is not loaded").
Definition generation_readiness s (partition : N) (name : string) (generation : N) (definition_hash : bytes) : Result unit :=
  let! l := loaded_index s partition name generation in
  let! _ := check (bool_decide (sg_definition_hash (li_generation l.2) = definition_hash)) "index definition hash mismatch" in
  let! epoch := projection_epoch s partition in
  let! _ := ok_or (validate_checkpoint l.2 epoch) (Error_Search "index has no valid checkpoint for this epoch") in
  Ok tt.

(** [catch_up_generation]. *)
Definition catch_up_generation (env : PassEnv D) (partition : N) (name : string) (generation : N) : aio svc SearchCatchUp :=
  let~ l := aio_io (io_read (λ s, loaded_index s partition name generation)) in
  with_worker l.1 (catch_up document (GroupId_Data partition) name env).

(** [enforce_outbox_bounds]. *)
Definition enforce_outbox_bounds (max_entries max_bytes : N) (partition : N) : io svc (option (string * N)) := λ s,
  if bool_decide (partition ∈ sx_unavailable s) then (s, Ok None)
  else on_storage (enforce_search_outbox_bounds (GroupId_Data partition) max_entries max_bytes) s.

(** [readiness_observation]. *)
Definition readiness_observation s (partition : N) (name : string) (generation : N) (node_id : NodeId) (voters_log_id : LogId)
    : Result SearchIndexReady :=
  let! l := loaded_index s partition name generation in
  let! epoch := projection_epoch s partition in
  let! checkpoint := ok_or (validate_checkpoint l.2 epoch) (Error_Search "index generation has no valid checkpoint") in
  let! source := ok_or (ck_source_log_id checkpoint) (Error_Search "index has not projected a Raft entry") in
  Ok (mkSearchReady generation (sg_definition_hash (li_generation l.2)) (sg_engine_revision (li_generation l.2))
        (GroupId_Data partition) node_id voters_log_id epoch (mkLogId (rl_term source) (rl_index source))).

(** ** Runs *)

Inductive Event :=
| Event_Prepared (partition : N) (generation : SearchIndexGeneration) (window : N) (held : HeldSearch Doc Q) (prepared : ShardPrepared)
| Event_Executed (session_id : SearchSessionId) (statistics : ShardStatistics) (reply : SearchReply).

(** The service, its waiting handlers, and the answers of the two phases so far. *)
Record Run := mkRun {
  run_service : svc;
  run_tasks : list (Task Doc Q);
  run_trace : list Event;
}.

Definition push {R} (next : Result (Next Doc Q R)) (tasks : list (Task Doc Q)) : list (Task Doc Q) :=
  match next with Ok (Next_Task t) => t :: tasks | _ => tasks end.
Definition prepared_event (partition : N) (generation : SearchIndexGeneration) (window : N) (held : HeldSearch Doc Q)
    (r : Result ShardPrepareReply) : list Event :=
  match r with Ok (ShardPrepareReply_Prepared pr) => [Event_Prepared partition generation window held pr] | _ => [] end.
Definition executed_event (session_id : SearchSessionId) (statistics : ShardStatistics) (r : ShardExecuteReply) : list Event :=
  match r with ShardExecuteReply_Result reply => [Event_Executed session_id statistics reply] | _ => [] end.

(** One handler advances, or the store changes under the service. *)
Inductive run_step : Run → Run → Prop :=
| step_prepare_begin env partition barrier request s s' r tasks trace :
    prepare_begin env partition barrier request s = (s', Ready r) →
    run_step (mkRun s tasks trace) (mkRun s' (push r tasks) trace)
| step_prepare_hold request partition arc checkpoint i closed s t1 t2 trace :
    sx_heap s !! arc = Some (i, closed) →
    run_step (mkRun s (t1 ++ Task_Prepare request partition arc checkpoint :: t2) trace)
      match prepare_hold request i checkpoint with
      | Ok (held, statistics) =>
          mkRun s (t1 ++ Task_Prepared partition (li_generation i) (pq_window request) held statistics :: t2) trace
      | Err _ => mkRun (release_slot s) (t1 ++ t2) trace
      end
| step_prepare_finish now partition generation window held statistics s s' r t1 t2 trace :
    prepare_finish now partition generation window held statistics s = (s', r) →
    run_step (mkRun s (t1 ++ Task_Prepared partition generation window held statistics :: t2) trace)
      (mkRun (release_slot s') (t1 ++ t2) (trace ++ prepared_event partition generation window held r))
| step_execute_begin now request s s' r tasks trace :
    execute_begin now request s = (s', r) →
    run_step (mkRun s tasks trace) (mkRun s' (push r tasks) trace)
| step_execute_score session_id session statistics s t1 t2 trace :
    run_step (mkRun s (t1 ++ Task_Execute session_id session statistics :: t2) trace)
      (mkRun s (t1 ++ Task_Executed session_id session statistics (execute_score session statistics) :: t2) trace)
| step_execute_finish session_id session statistics outcome s s' r t1 t2 trace :
    execute_finish session outcome s = (s', r) →
    run_step (mkRun s (t1 ++ Task_Executed session_id session statistics outcome :: t2) trace)
      (mkRun s' (t1 ++ t2) (trace ++ executed_event session_id statistics r))
| step_search_begin env partition barrier request s s' r tasks trace :
    search_begin env partition barrier request s = (s', Ready r) →
    run_step (mkRun s tasks trace) (mkRun s' (push r tasks) trace)
| step_search_score request partition arc checkpoint i closed s t1 t2 trace :
    sx_heap s !! arc = Some (i, closed) →
    run_step (mkRun s (t1 ++ Task_Search request partition arc checkpoint :: t2) trace)
      match index_search i partition request checkpoint with
      | Ok reply => mkRun s (t1 ++ Task_Searched partition (ck_projection_epoch checkpoint) reply :: t2) trace
      | Err _ => mkRun (release_slot s) (t1 ++ t2) trace
      end
| step_search_finish partition epoch reply s s' r t1 t2 trace :
    search_finish partition epoch reply s = (s', r) →
    run_step (mkRun s (t1 ++ Task_Searched partition epoch reply :: t2) trace) (mkRun s' (t1 ++ t2) trace)
| step_install_begin partition name generation active opened arc s s' r tasks trace :
    sx_heap s !! arc = None → install_begin partition name generation active opened arc s = (s', r) →
    run_step (mkRun s tasks trace) (mkRun s' (push r tasks) trace)
| step_backfill env key arc registered needs_rebuild active s s' r t1 t2 trace :
    with_worker arc (catch_up_rebuilding document (GroupId_Data (key_partition key)) key.1.2 env needs_rebuild) s = (s', Ready r) →
    run_step (mkRun s (t1 ++ Task_Install key arc registered needs_rebuild active :: t2) trace)
      (mkRun s' (t1 ++ Task_Backfilled key arc registered active r :: t2) trace)
| step_install_finish key arc registered active backfill s s' r t1 t2 trace :
    install_finish key arc registered active backfill s = (s', r) →
    run_step (mkRun s (t1 ++ Task_Backfilled key arc registered active backfill :: t2) trace) (mkRun s' (t1 ++ t2) trace)
| step_forget partition s tasks trace : Forall (λ t, guarded t = false) tasks →
    run_step (mkRun s tasks trace) (mkRun (forget_partition partition s) tasks trace)
| step_allow partition s tasks trace : Forall (λ t, guarded t = false) tasks →
    run_step (mkRun s tasks trace) (mkRun (allow_partition partition s) tasks trace)
| step_remove partition name generation s s' r tasks trace : Forall (λ t, guarded t = false) tasks →
    remove_generation partition name generation s = (s', r) →
    run_step (mkRun s tasks trace) (mkRun s' tasks trace)
| step_activate partition name generation s tasks trace :
    run_step (mkRun s tasks trace) (mkRun (activate partition name generation s) tasks trace)
| step_deactivate partition name s tasks trace :
    run_step (mkRun s tasks trace) (mkRun (deactivate partition name s) tasks trace)
| step_release session_id s tasks trace :
    run_step (mkRun s tasks trace) (mkRun (release_session session_id s) tasks trace)
| step_sweep now s tasks trace :
    run_step (mkRun s tasks trace) (mkRun (sweep_expired_sessions now s) tasks trace)
| step_catch_up env partition name generation s s' r tasks trace :
    catch_up_generation env partition name generation s = (s', Ready r) →
    run_step (mkRun s tasks trace) (mkRun s' tasks trace)
| step_bounds max_entries max_bytes partition s s' r tasks trace :
    enforce_outbox_bounds max_entries max_bytes partition s = (s', r) →
    run_step (mkRun s tasks trace) (mkRun s' tasks trace)
| step_cancel t s t1 t2 trace :
    run_step (mkRun s (t1 ++ t :: t2) trace) (mkRun (if guarded t then release_slot s else s) (t1 ++ t2) trace)
| step_store st s tasks trace :
    run_step (mkRun s tasks trace) (mkRun (set_storage st s) tasks trace).
End service.
