(* ===== verification/SearchServiceProofs.v ===== *)
(** * Sessions of the search service

    Through every interleaving of the handlers a session is prepared under an
    id of its own and executed at most once, on the commit its statistics were
    measured on; the session table and the concurrent shard work stay within
    their bounds. *)

From S2P Require Import Prelude SortBy BTree Types Codec SearchDef Query Keyspace Outbox ApplyDurability Aio Rocks Storage DataSM SearchStore PartitionNode SearchWorker Coordinator SearchShard SearchService.

Section service.
Context `{Rocks D} `{!Codec U64, !Codec string, !Codec RaftApplied, !Codec SearchConsumerState, !Codec KeyRecord}
  `{!Codec SearchIndexDefinition, !Codec SearchHit, !Codec SearchReply, !Codec ShardStatistics} `{Hashes}.
Context `{Tantivy TI Doc} `{!TantivyQuery Doc Q Term} (document : bytes → N → bytes → Extracted Doc).

Abbreviation svc := (SearchService D TI Doc Q).
Abbreviation event := (Event (Doc := Doc) (Q := Q)).
Abbreviation run := (Run (D := D) (TI := TI) (Doc := Doc) (Q := Q)).
Implicit Types (s : svc) (trace : list event) (tasks : list (Task Doc Q)) (σ : run).

(** ** The abstract session machine *)

Definition prepared_ids trace : list SearchSessionId :=
  omap (λ e, match e with Event_Prepared _ _ _ _ pr => Some (sp_session_id pr) | _ => None end) trace.
Definition executed_ids trace : list SearchSessionId :=
  omap (λ e, match e with Event_Executed id _ _ => Some id | _ => None end) trace.

(** The session was handed out under this id. *)
Definition pinned trace (id : SearchSessionId) (se : HeldSession Doc Q) : Prop :=
  ∃ pr, Event_Prepared (se_partition se) (se_generation se) (se_window se) (se_held se) pr ∈ trace ∧ sp_session_id pr = id.

(** A session is prepared once, with the statistics of the commit it pins, and
    executed at most once afterwards, by scoring that commit. *)
Inductive session_trace (incarnation : N) : list event → Prop :=
| session_start : session_trace incarnation []
| session_prepared trace partition generation window held pr :
    session_trace incarnation trace → sp_session_id pr ∉ prepared_ids trace →
    si_incarnation (sp_session_id pr) = incarnation → shard_statistics held = Ok (sp_statistics pr) →
    session_trace incarnation (trace ++ [Event_Prepared partition generation window held pr])
| session_executed trace id se statistics reply :
    session_trace incarnation trace → pinned trace id se → id ∉ executed_ids trace →
    execute_score se statistics = Ok reply →
    session_trace incarnation (trace ++ [Event_Executed id statistics reply]).

Lemma pinned_app trace e id se : pinned trace id se → pinned (trace ++ e) id se.
Proof. intros (pr & Hin & E). exists pr. split; [set_solver|done]. Qed.
Lemma pinned_prepared trace id se : pinned trace id se → id ∈ prepared_ids trace.
Proof. intros (pr & Hin & <-). apply list_elem_of_omap. by eexists. Qed.
Lemma prepared_ids_app t1 t2 : prepared_ids (t1 ++ t2) = prepared_ids t1 ++ prepared_ids t2.
Proof. apply omap_app. Qed.
Lemma executed_ids_app t1 t2 : executed_ids (t1 ++ t2) = executed_ids t1 ++ executed_ids t2.
Proof. apply omap_app. Qed.

(** ** The invariant *)

Definition running_ids tasks : list SearchSessionId :=
  omap (λ t, match t with Task_Execute id _ _ | Task_Executed id _ _ _ => Some id | _ => None end) tasks.
Definition guards tasks : nat := length (filter (λ t, guarded t = true) tasks).

Definition task_ok trace (t : Task Doc Q) : Prop :=
  match t with
  | Task_Prepared _ _ _ held statistics => shard_statistics held = Ok statistics
  | Task_Execute id se _ => pinned trace id se
  | Task_Executed id se statistics outcome =>
      pinned trace id se ∧ ∀ reply, outcome = Ok reply → execute_score se statistics = Ok reply
  | _ => True
  end.

Record run_inv (incarnation : N) σ : Prop := {
  ri_trace : session_trace incarnation (run_trace σ);
  ri_incarnation : sx_session_incarnation (run_service σ) = incarnation;
  ri_ids : Forall (λ id, si_incarnation id = incarnation ∧ si_sequence id < sx_next_session (run_service σ))%N (prepared_ids (run_trace σ));
  ri_sessions : ∀ id se, sx_sessions (run_service σ) !! id = Some se → pinned (run_trace σ) id se;
  ri_tasks : Forall (task_ok (run_trace σ)) (run_tasks σ);
  ri_once : NoDup (executed_ids (run_trace σ) ++ running_ids (run_tasks σ));
  ri_gone : ∀ id, id ∈ executed_ids (run_trace σ) ++ running_ids (run_tasks σ) →
              sx_sessions (run_service σ) !! id = None ∧ id ∈ prepared_ids (run_trace σ);
  ri_size : size (sx_sessions (run_service σ)) ≤ SEARCH_MAX_SESSIONS;
  ri_slots : sx_shard_slots (run_service σ) + guards (run_tasks σ) = SEARCH_MAX_CONCURRENT_SHARD;
}.

Lemma running_ids_app t1 t2 : running_ids (t1 ++ t2) = running_ids t1 ++ running_ids t2.
Proof. apply omap_app. Qed.
Lemma guards_app t1 t2 : guards (t1 ++ t2) = guards t1 + guards t2.
Proof. unfold guards. by rewrite filter_app, length_app. Qed.
Lemma guards_cons t tasks : guards (t :: tasks) = (if guarded t then 1 else 0) + guards tasks.
Proof. unfold guards. rewrite filter_cons. destruct (guarded t); [by rewrite decide_True|by rewrite decide_False]. Qed.

(** ** What leaves the sessions alone *)

Definition frame s s' : Prop :=
  sx_sessions s' = sx_sessions s ∧ sx_session_incarnation s' = sx_session_incarnation s ∧
  sx_next_session s' = sx_next_session s ∧ sx_shard_slots s' = sx_shard_slots s.
#[local] Instance frame_preorder : PreOrder frame.
Proof. split; [by intros s|]. intros s1 s2 s3 (?&?&?&?) (?&?&?&?). unfold frame. split_and!; congruence. Qed.

Lemma frame_worker {A} arc (m : aio (SearchIndexWorker D TI Doc) A) : akeeps frame (with_worker arc m).
Proof.
  intros s s' r. unfold with_worker. destruct (sx_heap s !! arc) as [[i closed]|]; [|by intros [= <- _]].
  destruct (m _) as [w x]. by intros [= <- _].
Qed.
Lemma frame_storage {A} (m : io (Storage D) A) : keeps frame (on_storage m).
Proof. intros s s' r. unfold on_storage. destruct (m _) as [st x]. by intros [= <- _]. Qed.
Lemma frame_gate env partition barrier index generation : akeeps frame (shard_gate document env partition barrier index generation).
Proof.
  unfold shard_gate. apply akeeps_bind; [apply _|apply akeeps_io, keeps_read; apply _|]. intros [b|leader]; [|apply akeeps_ret; apply _].
  repeat (apply akeeps_bind; [apply _|first [apply akeeps_io, keeps_read; apply _ | apply frame_worker]|intros ?]).
  destruct b as [b|]; [destruct (covered_by _ _)|]; first [apply akeeps_ret; apply _ | apply akeeps_io, keeps_err; apply _].
Qed.
Lemma frame_roll_back key registered opened : keeps frame (roll_back key registered opened).
Proof.
  intros s s' r. unfold roll_back. cbv zeta.
  destruct opened as [arc|]; [destruct (bool_decide _)|]; destruct registered; cbn [andb]; intros [<- _]%pair_equal_spec; try done;
    (etrans; [|eapply frame_storage, surjective_pairing]; done).
Qed.

(** ** Preservation *)

(** The sessions stay; the tasks may change as long as the same sessions run. *)
Lemma inv_frame incarnation s s' tasks tasks' trace :
  run_inv incarnation (mkRun s tasks trace) → 
  sx_sessions s' ⊆ sx_sessions s → sx_session_incarnation s' = sx_session_incarnation s → sx_next_session s' = sx_next_session s →
  running_ids tasks' ⊆+ running_ids tasks → sx_shard_slots s' + guards tasks' = sx_shard_slots s + guards tasks →
  Forall (task_ok trace) tasks' → run_inv incarnation (mkRun s' tasks' trace).
Proof.
  intros [Htr Hinc Hids Hse Htk Honce Hgone Hsz Hsl] Hsub Hi Hn Hrun Hsl' Htk'. cbn [run_service run_tasks run_trace] in *.
  assert (executed_ids trace ++ running_ids tasks' ⊆+ executed_ids trace ++ running_ids tasks) as Hr by (by apply submseteq_app).
  split; cbn [run_service run_tasks run_trace]; try done.
  - congruence.
  - by rewrite Hn.
  - intros id se Hid. apply Hse. by eapply lookup_weaken.
  - apply submseteq_Permutation in Hr as [k Hk]. rewrite Hk in Honce. by apply NoDup_app in Honce as [? _].
  - intros id Hid. assert (id ∈ executed_ids trace ++ running_ids tasks) as [Hno Hp]%Hgone by (by eapply elem_of_submseteq).
    split; [|done]. by eapply lookup_weaken_None.
  - etrans; [|exact Hsz]. apply subseteq_dom in Hsub. rewrite <-!size_dom. by apply subseteq_size.
  - lia.
Qed.

(** A handler's first stretch takes a permit exactly when it goes on waiting. *)
Definition admitted {R} s s' (r : Result (Next Doc Q R)) (waits : Task Doc Q → Prop) : Prop :=
  sx_session_incarnation s' = sx_session_incarnation s ∧ sx_next_session s' = sx_next_session s ∧
  match r with
  | Ok (Next_Task t) => waits t ∧ guarded t = true ∧ sx_shard_slots s = S (sx_shard_slots s')
  | _ => sx_shard_slots s' = sx_shard_slots s
  end.

Lemma prepare_begin_spec env partition barrier request s s' r :
  prepare_begin document env partition barrier request s = (s', Ready r) →
  sx_sessions s' = sx_sessions s ∧ admitted s s' r (λ t, ∃ arc ck, t = Task_Prepare request partition arc ck).
Proof.
  unfold prepare_begin, aio_bind at 1, aio_io at 1, admit_shard. destruct (sx_shard_slots s) as [|n] eqn:En; [by intros [= <- <-]|].
  destruct (aio_bind _ _ _) as [s1 x] eqn:Eg.
  assert (frame (set_slots n s) s1) as (F1 & F2 & F3 & F4).
  { revert Eg. apply akeeps_bind; [apply _|apply akeeps_io, keeps_read; apply _|intros ?; apply frame_gate]. }
  cbn in F1, F2, F3, F4. unfold admitted.
  destruct x as [[[arc ck|leader]|e]|]; [destruct (sx_heap s1 !! arc) as [[i cl]|]; [destruct (bool_decide _)|]| | |]; intros [= <- <-];
    cbn; rewrite ?F4; split_and!; eauto.
Qed.
Lemma search_begin_spec env partition barrier request s s' r :
  search_begin document env partition barrier request s = (s', Ready r) →
  sx_sessions s' = sx_sessions s ∧ admitted s s' r (λ t, ∃ arc ck, t = Task_Search request partition arc ck).
Proof.
  unfold search_begin, aio_bind at 1, aio_io at 1, admit_shard. destruct (sx_shard_slots s) as [|n] eqn:En; [by intros [= <- <-]|].
  destruct (shard_gate _ _ _ _ _ _ _) as [s1 x] eqn:Eg.
  assert (frame (set_slots n s) s1) as (F1 & F2 & F3 & F4) by (by eapply frame_gate).
  cbn in F1, F2, F3, F4. unfold admitted.
  destruct x as [[[arc ck|leader]|e]|]; intros [= <- <-]; cbn; rewrite ?F4; split_and!; eauto.
Qed.
Lemma execute_begin_spec now request s s' r : execute_begin now request s = (s', r) →
  (sx_sessions s' = sx_sessions s ∨ sx_sessions s' = delete (xq_session_id request) (sx_sessions s)) ∧
  admitted s s' r (λ t, ∃ se, t = Task_Execute (xq_session_id request) se (xq_statistics request) ∧
    sx_sessions s !! xq_session_id request = Some se ∧ sx_sessions s' = delete (xq_session_id request) (sx_sessions s)).
Proof.
  unfold execute_begin, admit_shard. destruct (sx_shard_slots s) as [|n] eqn:En; [intros [= <- <-]; split; [by left|done]|].
  cbn. destruct (sx_sessions s !! xq_session_id request) as [se|] eqn:Ese; [|intros [= <- <-]; split; [by left|done]].
  destruct (_ <? _)%N; [intros [= <- <-]; split; [by right|done]|].
  case_match; [|intros [= <- <-]; split; [by right|done]].
  destruct (_ =? _)%N; [|intros [= <- <-]; split; [by right|done]].
  destruct (ShardStatistics_validate _); intros [= <- <-]; (split; [by right|]); [|done].
  split_and!; cbn; eauto.
Qed.

(** The sessions and counters of an invariant state whose tasks are a split list. *)
Ltac tasks_solve :=
  rewrite ?running_ids_app, ?guards_app, ?guards_cons in *; cbn [running_ids omap list_omap guarded] in *;
  rewrite ?Forall_app, ?Forall_cons in *; try (done || lia || naive_solver).

Lemma inv_begin {R} incarnation s s' (r : Result (Next Doc Q R)) tasks trace waits :
  run_inv incarnation (mkRun s tasks trace) → sx_sessions s' = sx_sessions s → admitted s s' r waits →
  (∀ t, waits t → running_ids [t] = [] ∧ task_ok trace t) →
  run_inv incarnation (mkRun s' (push r tasks) trace).
Proof.
  intros Hi Hse (Hin & Hn & Hr) Hw. eapply inv_frame; [exact Hi|by rewrite Hse|done|done|..].
  all: pose proof (ri_tasks _ _ Hi) as Htk; cbn [run_tasks run_trace] in Htk.
  all: destruct r as [[x|t]|e]; cbn [push]; try done.
  - destruct Hr as (Ht & _ & _). destruct (Hw t Ht) as [Hru _]. cbn in Hru |- *. by destruct t.
  - lia.
  - rewrite guards_cons. destruct Hr as (_ & -> & ->). lia.
  - lia.
  - destruct Hr as (Ht & _ & _). constructor; [by apply Hw|done].
Qed.

Lemma inv_execute_begin incarnation now request s s' r tasks trace :
  run_inv incarnation (mkRun s tasks trace) → execute_begin now request s = (s', r) →
  run_inv incarnation (mkRun s' (push r tasks) trace).
Proof.
  intros Hi [Hse (Hin & Hn & Hr)]%execute_begin_spec.
  assert (sx_sessions s' ⊆ sx_sessions s) as Hsub by (destruct Hse as [->| ->]; [done|apply delete_subseteq]).
  destruct r as [[x|t]|e]; cbn [push].
  1,3: eapply inv_frame; [exact Hi|done..|lia|apply (ri_tasks _ _ Hi)].
  destruct Hr as ((se & -> & Hl & Hd) & _ & Hsl). destruct Hi as [Htr Hinc Hids Hses Htk Honce Hgone Hsz Hslots].
  cbn [run_service run_tasks run_trace] in *.
  assert (xq_session_id request ∉ executed_ids trace ++ running_ids tasks) as Hnew.
  { intros [Hno _]%Hgone. congruence. }
  split; cbn [run_service run_tasks run_trace]; try done.
  - congruence.
  - by rewrite Hn.
  - intros id se' Hid. apply Hses. by eapply lookup_weaken.
  - constructor; [by apply Hses|done].
  - cbn. rewrite <-Permutation_middle. by constructor.
  - intros id. cbn. rewrite <-Permutation_middle, elem_of_cons. rewrite Hd. intros [->|Hid].
    + split; [apply lookup_delete_eq|]. by eapply pinned_prepared, Hses.
    + destruct (Hgone id Hid) as [Hno Hp]. split; [by rewrite lookup_delete_None; right|done].
  - etrans; [|exact Hsz]. apply subseteq_dom in Hsub. rewrite <-!size_dom. by apply subseteq_size.
  - rewrite guards_cons. cbn [guarded]. lia.
Qed.

Lemma inv_execute_finish incarnation id se statistics outcome s s' r t1 t2 trace :
  run_inv incarnation (mkRun s (t1 ++ Task_Executed id se statistics outcome :: t2) trace) →
  execute_finish se outcome s = (s', r) →
  run_inv incarnation (mkRun s' (t1 ++ t2) (trace ++ executed_event id statistics r)).
Proof.
  intros Hi [<- Er]%pair_equal_spec. pose proof (ri_tasks _ _ Hi) as Htk. cbn [run_tasks run_trace] in Htk.
  apply Forall_app in Htk as [Htk1 [[Hpin Hout] Htk2]%Forall_cons].
  assert (sx_shard_slots s + guards (t1 ++ Task_Executed id se statistics outcome :: t2) =
          sx_shard_slots (release_slot s) + guards (t1 ++ t2)) as Hg.
  { rewrite !guards_app, guards_cons. cbn. lia. }
  destruct r as [reply| |m]; cbn [executed_event].
  2,3: rewrite app_nil_r; eapply inv_frame; [exact Hi|done..| |done|by apply Forall_app];
       rewrite !running_ids_app; apply submseteq_app; [done|]; by apply submseteq_cons.
  assert (outcome = Ok reply) as ->.
  { destruct outcome as [rep|e]; [|done]. destruct (projection_epoch s _) as [ep|]; [|done].
    destruct (ep =? _)%N; congruence. }
  destruct Hi as [Htr Hinc Hids Hses Htk Honce Hgone Hsz Hslots]. cbn [run_service run_tasks run_trace] in *.
  assert (executed_ids trace ++ running_ids (t1 ++ Task_Executed id se statistics (Ok reply) :: t2) ≡ₚ
          (executed_ids trace ++ [id]) ++ running_ids (t1 ++ t2)) as Hperm.
  { rewrite !running_ids_app. cbn. solve_Permutation. }
  assert (id ∉ executed_ids trace) as Hnew.
  { rewrite Hperm in Honce. apply NoDup_app in Honce as [Hn _]. apply NoDup_app in Hn as (_ & Hn & _). set_solver. }
  rewrite Hperm in Honce.
  split; cbn [run_service run_tasks run_trace]; rewrite ?executed_ids_app, ?prepared_ids_app; cbn [executed_ids prepared_ids omap list_omap];
    rewrite ?app_nil_r; try done.
  - by eapply session_executed; [done..|apply Hout].
  - intros id' se' Hid. by apply pinned_app, Hses.
  - apply Forall_app. split; (eapply Forall_impl; [eassumption|]); intros t; destruct t; cbn; try done; naive_solver eauto using pinned_app.
  - intros id' Hid. apply Hgone. by rewrite Hperm.
  - by rewrite <-Hg.
Qed.

(** A step that changes sessions only by dropping some, and the next id only upwards. *)
Lemma inv_shrink incarnation s s' tasks tasks' trace :
  run_inv incarnation (mkRun s tasks trace) → sx_sessions s' ⊆ sx_sessions s →
  sx_session_incarnation s' = sx_session_incarnation s → (sx_next_session s ≤ sx_next_session s')%N →
  running_ids tasks' ⊆+ running_ids tasks → sx_shard_slots s' + guards tasks' = sx_shard_slots s + guards tasks →
  Forall (task_ok trace) tasks' → run_inv incarnation (mkRun s' tasks' trace).
Proof.
  intros Hi Hsub Hinc Hn Hrun Hsl Htk.
  pose (s1 := mkService (sx_storage s') (sx_heap s') (sx_loaded s') (sx_active s') (sx_unavailable s') (sx_sessions s')
    (sx_session_incarnation s') (sx_next_session s) (sx_shard_slots s')).
  assert (run_inv incarnation (mkRun s1 tasks' trace)) as [Htr Hinc' Hids Hses Htk' Honce Hgone Hsz Hslots] by (by eapply inv_frame).
  split; try done. cbn in *. eapply Forall_impl; [exact Hids|]. intros id. cbn. lia.
Qed.

Lemma prepare_finish_spec now partition generation window held statistics s s' r :
  prepare_finish now partition generation window held statistics s = (s', r) →
  let live := filter (λ e, (now < se_expires_at e.2)%N) (sx_sessions s) in
  let id := mkSessionId (sx_session_incarnation s) (sx_next_session s) in
  sx_session_incarnation s' = sx_session_incarnation s ∧ sx_shard_slots s' = sx_shard_slots s ∧
  ((sx_sessions s' ⊆ sx_sessions s ∧ (sx_next_session s ≤ sx_next_session s')%N ∧ ∀ pr, r ≠ Ok (ShardPrepareReply_Prepared pr)) ∨
   (∃ pr, r = Ok (ShardPrepareReply_Prepared pr) ∧ sp_session_id pr = id ∧ sp_statistics pr = statistics ∧
      sx_next_session s' = (sx_next_session s + 1)%N ∧ size live < SEARCH_MAX_SESSIONS ∧
      ∃ epoch expires, sx_sessions s' = <[id := mkSession partition generation held window epoch expires]> live)).
Proof.
  unfold prepare_finish, io_bind, io_read, next_session_id. destruct (ShardStatistics_validate statistics) as [u|e].
  2: { intros [= <- <-]. split_and!; [done..|]. left. split_and!; [done|lia|done]. }
  destruct (checked_add _ _ _) as [next|] eqn:En.
  2: { intros [= <- <-]. split_and!; [done..|]. left. split_and!; [done|lia|done]. }
  apply checked_add_Some in En as [-> _]. cbn [sx_sessions]. destruct (Nat.leb_spec SEARCH_MAX_SESSIONS (size (filter (λ e, (now < se_expires_at e.2)%N) (sx_sessions s))));
    intros [<- <-]%pair_equal_spec; cbn zeta; (split_and!; [done..|]); [left|right].
  - split_and!; [apply map_filter_subseteq|cbn; lia|done].
  - eexists. split_and!; [done..|]. by eexists _, _.
Qed.

Lemma inv_prepare_finish incarnation now partition generation window held statistics s s' r t1 t2 trace :
  run_inv incarnation (mkRun s (t1 ++ Task_Prepared partition generation window held statistics :: t2) trace) →
  prepare_finish now partition generation window held statistics s = (s', r) →
  run_inv incarnation (mkRun (release_slot s') (t1 ++ t2) (trace ++ prepared_event partition generation window held r)).
Proof.
  intros Hi (Hinc & Hsl & Hr)%prepare_finish_spec. pose proof (ri_tasks _ _ Hi) as Htk. cbn [run_tasks run_trace] in Htk.
  apply Forall_app in Htk as [Htk1 [Hst Htk2]%Forall_cons]. cbn [task_ok] in Hst.
  assert (sx_shard_slots (release_slot s') + guards (t1 ++ t2) =
          sx_shard_slots s + guards (t1 ++ Task_Prepared partition generation window held statistics :: t2)) as Hg.
  { rewrite !guards_app, guards_cons. cbn. rewrite Hsl. lia. }
  assert (running_ids (t1 ++ t2) = running_ids (t1 ++ Task_Prepared partition generation window held statistics :: t2)) as Hru.
  { by rewrite !running_ids_app. }
  destruct Hr as [(Hsub & Hn & Hno)|(pr & -> & Eid & Est & En & Hsz & epoch & expires & Ese)].
  { assert (prepared_event partition generation window held r = []) as ->.
    { destruct r as [[pr| |]|]; try done. by destruct (Hno pr). }
    rewrite app_nil_r. eapply inv_shrink; [exact Hi|done|done|done|by rewrite Hru|done|by apply Forall_app]. }
  cbn [prepared_event]. destruct Hi as [Htr Hinc' Hids Hses Htk Honce Hgone Hsz' Hslots]. cbn [run_service run_tasks run_trace] in *.
  assert (sp_session_id pr ∉ prepared_ids trace) as Hnew.
  { intros Hin. rewrite Forall_forall in Hids. destruct (Hids _ Hin) as [_ Hlt]. rewrite Eid in Hlt. cbn in Hlt. lia. }
  split; cbn [run_service run_tasks run_trace]; rewrite ?executed_ids_app, ?prepared_ids_app; cbn [executed_ids prepared_ids omap list_omap];
    rewrite ?app_nil_r, <-?Hru in *; try done.
  - apply session_prepared; [done..| |by rewrite Est]. rewrite Eid. done.
  - cbn. congruence.
  - rewrite Forall_app, Forall_singleton. cbn. rewrite En, Eid. cbn. split; [|split; [done|lia]].
    eapply Forall_impl; [exact Hids|]. intros id. cbn. lia.
  - intros id se. cbn. rewrite Ese, <-Eid. rewrite lookup_insert_Some. intros [[<- <-]|[_ Hl]].
    + exists pr. split; [|done]. set_solver.
    + apply map_lookup_filter_Some in Hl as [Hl _]. by apply pinned_app, Hses.
  - apply Forall_app. split; (eapply Forall_impl; [eassumption|]); intros t; destruct t; cbn; try done; naive_solver eauto using pinned_app.
  - intros id Hid. cbn. destruct (Hgone id Hid) as [Hno Hp]. split; [|set_solver]. rewrite Ese, <-Eid, lookup_insert_None. split.
    + apply map_lookup_filter_None. by left.
    + by intros <-.
  - cbn. rewrite Ese. rewrite map_size_insert. destruct (_ !! _); [unfold SEARCH_MAX_SESSIONS in *; cbn; lia|lia].
  - by rewrite Hg.
Qed.

(** One waiting handler replaced by others that hold as many permits. *)
Lemma inv_replace incarnation s s' t t' t1 t2 trace :
  run_inv incarnation (mkRun s (t1 ++ t :: t2) trace) → sx_sessions s' ⊆ sx_sessions s →
  sx_session_incarnation s' = sx_session_incarnation s → sx_next_session s' = sx_next_session s →
  running_ids t' ⊆+ running_ids [t] → sx_shard_slots s' + guards t' = sx_shard_slots s + guards [t] →
  (task_ok trace t → Forall (task_ok trace) t') → run_inv incarnation (mkRun s' (t1 ++ t' ++ t2) trace).
Proof.
  intros Hi Hsub Hinc Hn Hrun Hsl Htk. pose proof (ri_tasks _ _ Hi) as Ht. cbn [run_tasks run_trace] in Ht.
  apply Forall_app in Ht as [Ht1 [Ht Ht2]%Forall_cons]. eapply inv_frame; [exact Hi|done..| | |].
  - change (t :: t2) with ([t] ++ t2). rewrite !running_ids_app. by repeat apply submseteq_app.
  - change (t :: t2) with ([t] ++ t2). rewrite !guards_app. lia.
  - rewrite !Forall_app. auto.
Qed.

Lemma frame_sub s s' : frame s s' → sx_sessions s' ⊆ sx_sessions s.
Proof. by intros [-> _]. Qed.
Lemma inv_frame_same incarnation s s' tasks trace :
  run_inv incarnation (mkRun s tasks trace) → frame s s' → run_inv incarnation (mkRun s' tasks trace).
Proof.
  intros Hi Hf. pose proof Hf as (_ & Hinc & Hn & Hsl). eapply inv_frame; [exact Hi|by apply frame_sub|done..|by rewrite Hsl|].
  apply (ri_tasks _ _ Hi).
Qed.

Lemma install_begin_frame partition name generation active opened arc s s' r :
  install_begin partition name generation active opened arc s = (s', r) →
  frame s s' ∧ ∀ t, r = Ok (Next_Task t) → guarded t = false ∧ running_ids [t] = [] ∧ ∀ trace, task_ok trace t.
Proof.
  unfold install_begin. cbv zeta. destruct (bool_decide _); [by intros [= <- <-]|]. destruct (validate_index_name _); [|by intros [= <- <-]].
  destruct (on_storage _ s) as [s1 [reg|e]] eqn:Es; apply frame_storage in Es; [|by intros [= <- <-]].
  assert (∀ registered opened, frame s (roll_back (partition, name, sg_id generation) registered opened s1).1) as Hrb.
  { intros registered o. etrans; [done|]. by eapply frame_roll_back, surjective_pairing. }
  destruct (_ ≫= _) as [[cached i]|].
  - destruct (negb _); intros [<- <-]%pair_equal_spec; (split; [done|]); [done|]. by intros t [= <-].
  - destruct opened as [i|e]; intros [<- <-]%pair_equal_spec; (split; [done|]); [|done]. by intros t [= <-].
Qed.
Lemma install_finish_frame key arc registered active backfill s s' r :
  install_finish key arc registered active backfill s = (s', r) → frame s s'.
Proof.
  unfold install_finish. assert (∀ registered opened, frame s (roll_back key registered opened (close_workers [arc] s)).1) as Hrb.
  { intros reg o. etrans; [|by eapply frame_roll_back, surjective_pairing]. done. }
  destruct backfill as [c|e]; [destruct (_ || _)|]; by intros [<- _]%pair_equal_spec.
Qed.

Lemma run_step_inv incarnation σ σ' : run_inv incarnation σ → run_step document σ σ' → run_inv incarnation σ'.
Proof.
  intros Hi Hst.
  destruct Hst as [env p b req s s' r tasks tr E|req p arc ck i cl s t1 t2 tr E|now p g w held st s s' r t1 t2 tr E
    |now req s s' r tasks tr E|id se st s t1 t2 tr|id se st out s s' r t1 t2 tr E|env p b req s s' r tasks tr E
    |req p arc ck i cl s t1 t2 tr E|p ep rep s s' r t1 t2 tr E|p n g act op arc s s' r tasks tr Ea E|env key arc reg nr act s s' r t1 t2 tr E
    |key arc reg act bf s s' r t1 t2 tr E|p s tasks tr Hg|p s tasks tr Hg|p n g s s' r tasks tr Hg E|p n g s tasks tr|p n s tasks tr
    |id s tasks tr|now s tasks tr|env p n g s s' r tasks tr E|me mb p s s' r tasks tr E|t s t1 t2 tr|st s tasks tr].
  - apply prepare_begin_spec in E as [Hse Had]. eapply inv_begin; [done..|]. by intros t (arc & ck & ->).
  - destruct (prepare_hold req i ck) as [[held st]|e] eqn:Eh.
    + eapply (inv_replace _ _ _ _ [_]); [exact Hi|done..|]. intros _. constructor; [|constructor]. cbn.
      unfold prepare_hold in Eh. apply rbind_ok in Eh as (h & _ & Eh). apply rbind_ok in Eh as (x & Ex & [= <- <-]). done.
    + eapply (inv_replace _ _ _ _ []); [exact Hi|done..|rewrite ?guards_cons; cbn; lia|constructor].
  - by eapply inv_prepare_finish.
  - by eapply inv_execute_begin.
  - eapply (inv_replace _ _ _ _ [_]); [exact Hi|done..|]. intros Hok. constructor; [|constructor]. by split.
  - by eapply inv_execute_finish.
  - apply search_begin_spec in E as [Hse Had]. eapply inv_begin; [done..|]. by intros t (arc & ck & ->).
  - destruct (index_search i p req ck) as [rep|e].
    + eapply (inv_replace _ _ _ _ [_]); [exact Hi|done..|]. intros _. by repeat constructor.
    + eapply (inv_replace _ _ _ _ []); [exact Hi|done..|rewrite ?guards_cons; cbn; lia|constructor].
  - apply pair_equal_spec in E as [<- _]. eapply (inv_replace _ _ _ _ []); [exact Hi|done..|rewrite ?guards_cons; cbn; lia|constructor].
  - apply install_begin_frame in E as [(Hse & Hinc & Hn & Hsl) Ht]. eapply inv_frame; [exact Hi|by rewrite Hse|done|done|..];
      pose proof (ri_tasks _ _ Hi) as Htk; cbn [run_tasks run_trace] in Htk; destruct r as [[x|t]|e]; cbn [push]; try (done || lia).
    all: destruct (Ht t eq_refl) as (Hgd & Hru & Hok); rewrite ?guards_cons, ?Hgd; first [lia | by constructor | cbn in Hru |- *; by destruct t].
  - apply frame_worker in E as Hf. pose proof Hf as (Hse & Hinc & Hn & Hsl).
    eapply (inv_replace _ _ _ _ [_]); [exact Hi|by rewrite Hse|done..|rewrite ?guards_cons; cbn; lia|]. intros _. by repeat constructor.
  - apply install_finish_frame in E as (Hse & Hinc & Hn & Hsl).
    eapply (inv_replace _ _ _ _ []); [exact Hi|by rewrite Hse|done..|rewrite ?guards_cons; cbn; lia|]. by constructor.
  - eapply inv_frame; [exact Hi|apply map_filter_subseteq|done..|apply (ri_tasks _ _ Hi)].
  - by eapply inv_frame_same.
  - unfold remove_generation in E. apply frame_storage in E as (Hse & Hinc & Hn & Hsl).
    eapply inv_frame; [exact Hi|rewrite Hse; cbn; destruct (sx_loaded s !! _); apply map_filter_subseteq| | |done| |apply (ri_tasks _ _ Hi)].
    + rewrite Hinc. cbn. by destruct (sx_loaded s !! _).
    + rewrite Hn. cbn. by destruct (sx_loaded s !! _).
    + rewrite Hsl. cbn. by destruct (sx_loaded s !! _).
  - eapply inv_frame_same; [exact Hi|]. unfold activate. by destruct (sx_loaded s !! _).
  - by eapply inv_frame_same.
  - eapply inv_frame; [exact Hi|apply delete_subseteq|done..|apply (ri_tasks _ _ Hi)].
  - eapply inv_frame; [exact Hi|apply map_filter_subseteq|done..|apply (ri_tasks _ _ Hi)].
  - eapply inv_frame_same; [exact Hi|]. revert E. unfold catch_up_generation.
    apply akeeps_bind; [apply _|apply akeeps_io, keeps_read; apply _|intros ?; apply frame_worker].
  - eapply inv_frame_same; [exact Hi|]. unfold enforce_outbox_bounds in E. destruct (bool_decide _); [by injection E as <- _|].
    by apply frame_storage in E.
  - eapply (inv_replace _ _ _ _ []); [exact Hi|by destruct (guarded t)|by destruct (guarded t)|by destruct (guarded t)| | |].
    + apply submseteq_nil_l.
    + rewrite guards_cons. destruct (guarded t); cbn; lia.
    + constructor.
  - by eapply inv_frame_same.
Qed.

Lemma run_start_inv st st' s : SearchService_new st = (st', Ok s) → run_inv (sx_session_incarnation s) (mkRun s [] []).
Proof.
  unfold SearchService_new. destruct (next_search_session_incarnation st) as [st1 [inc|e]]; [|done]. intros [= <- <-].
  split; cbn [run_service run_tasks run_trace sx_sessions sx_session_incarnation sx_next_session sx_shard_slots]; try done; try by constructor.
  all: try (intros id se Hl; by rewrite lookup_empty in Hl).
  all: try (by intros id ?%elem_of_nil).
  rewrite map_size_empty. unfold SEARCH_MAX_SESSIONS. lia.
Qed.

Lemma run_reach_inv st st' s σ : SearchService_new st = (st', Ok s) → rtc (run_step document) (mkRun s [] []) σ →
  run_inv (sx_session_incarnation s) σ.
Proof.
  intros Hn%run_start_inv Hr. revert Hn. induction Hr as [|σ1 σ2 σ3 Hst _ IH]; [done|]. intros Hi. by eapply IH, run_step_inv.
Qed.

(** *** What a trace tells *)

Lemma trace_ids incarnation trace : session_trace incarnation trace → NoDup (prepared_ids trace).
Proof.
  induction 1; rewrite ?prepared_ids_app; cbn; rewrite ?app_nil_r; [constructor| |done].
  apply NoDup_app. split_and!; [done|set_solver|apply NoDup_singleton].
Qed.
Lemma trace_statistics incarnation trace p g w held pr : session_trace incarnation trace →
  Event_Prepared p g w held pr ∈ trace → shard_statistics held = Ok (sp_statistics pr).
Proof.
  induction 1 as [|trace p' g' w' held' pr' _ IH|trace id se stats reply _ IH]; rewrite ?elem_of_app, ?list_elem_of_singleton; [set_solver| |].
  - intros [?|[= -> -> -> -> ->]]; auto.
  - intros [?|?]; [auto|done].
Qed.
Lemma trace_executed incarnation trace id statistics reply : session_trace incarnation trace →
  Event_Executed id statistics reply ∈ trace → ∃ se, pinned trace id se ∧ execute_score se statistics = Ok reply.
Proof.
  induction 1 as [|trace p' g' w' held' pr' _ IH|trace id' se stats reply' _ IH Hp]; rewrite ?elem_of_app, ?list_elem_of_singleton; [set_solver| |].
  - intros [(se & ? & ?)%IH|?]; [|done]. exists se. eauto using pinned_app.
  - intros [(se' & ? & ?)%IH|[= -> -> ->]]; eauto using pinned_app.
Qed.
Lemma trace_same incarnation trace p g w held p' g' w' held' pr pr' : session_trace incarnation trace →
  Event_Prepared p g w held pr ∈ trace → Event_Prepared p' g' w' held' pr' ∈ trace → sp_session_id pr = sp_session_id pr' →
  (p, g, w, held) = (p', g', w', held').
Proof.
  intros Hnd%trace_ids Hin Hin' E. apply list_elem_of_lookup in Hin as [i Hi], Hin' as [j Hj].
  assert (i = j) as <-; [|congruence]. clear -Hnd Hi Hj E. revert i j Hi Hj.
  induction trace as [|e trace IH]; intros i j Hi Hj; [done|].
  assert (∀ n q h v hd r, trace !! n = Some (Event_Prepared q h v hd r) → sp_session_id r ∈ prepared_ids trace) as Hm.
  { intros n q h v hd r Hn%list_elem_of_lookup_2. apply list_elem_of_omap. by eexists. }
  destruct i as [|i], j as [|j]; cbn in Hi, Hj; [done|..].
  - injection Hi as ->. cbn in Hnd. apply NoDup_cons in Hnd as [Hn _]. destruct Hn. rewrite E. by eapply Hm.
  - injection Hj as ->. cbn in Hnd. apply NoDup_cons in Hnd as [Hn _]. destruct Hn. rewrite <-E. by eapply Hm.
  - f_equal. eapply IH; [|done..]. cbn in Hnd. destruct e; [by apply NoDup_cons in Hnd as [_ ?]|done].
Qed.

(** C33: sessions of a shard. From the start of a search service, through every
    interleaving of its handlers with snapshot installs, generation installs
    and removals, partition reclaims, releases, sweeps and cancelled requests:
    a session id is handed out once and carries the service's incarnation, with
    the statistics of exactly the commit the session pins; it is executed at
    most once, after it was handed out, and the answer is the score of that
    commit; never more than 256 sessions are held; and the shard phases in
    progress and the free permits always make up the 64 that exist. *)
Theorem service_sessions st st' s σ : SearchService_new st = (st', Ok s) → rtc (run_step document) (mkRun s [] []) σ →
  session_trace (sx_session_incarnation s) (run_trace σ) ∧
  size (sx_sessions (run_service σ)) ≤ SEARCH_MAX_SESSIONS ∧
  sx_shard_slots (run_service σ) + guards (run_tasks σ) = SEARCH_MAX_CONCURRENT_SHARD.
Proof.
  intros Hn Hr. pose proof (run_reach_inv st st' s σ Hn Hr) as Hi. split_and!; apply Hi.
Qed.
End service.
