(* ===== verification/SearchEndToEnd.v ===== *)
(** * Distributed search end to end

    What a shard computes for a session is the start of the ranking of the
    documents it pinned; the sessions of the services therefore keep the
    promise the coordinator relies on, and the page a client receives is the
    page of the ranking of all pinned documents under one set of statistics. *)

From S2P Require Import Prelude SortBy BTree Types Codec SearchDef Query Keyspace Outbox ApplyDurability Aio Rocks Storage DataSM SearchStore PartitionNode SearchWorker SearchWorkerProofs Coordinator CoordinatorProofs SearchShard SearchService SearchServiceProofs.

Section shard.
Context `{TantivyQuery Doc Q Term} `{!TantivyQueryOk Doc Q Term} `{!Codec SearchHit, !Codec SearchReply}.

#[local] Instance comparator_top : Comparator top_order.
Proof.
  assert (Comparator (λ a b : F32 * bytes, total_cmp b.1 a.1)).
  { split; intros *; unfold total_cmp; [by rewrite Z.compare_antisym|rewrite !Z.compare_le_iff; lia]. }
  pose proof (comparator_key (snd : F32 * bytes → bytes) bytes_compare).
  apply (comparator_then (λ a b : F32 * bytes, total_cmp b.1 a.1) (λ a b, bytes_compare a.2 b.2)).
Qed.

(** The hit of a matching document; only what cannot be read is made up, and
    then the search fails. *)
Definition full_hit (generation : SearchIndexGeneration) (partition : N) (docs : gmap bytes Doc) (sk : F32 * bytes) : SearchHit :=
  mkSearchHit partition sk.2 (default 0%N (docs !! sk.2 ≫= tq_version)) (Some sk.1) []
    match docs !! sk.2 with
    | Some d => match read_stored_fields generation d with Ok fields => fields | Err _ => [] end
    | None => []
    end.
(** All matching documents of a pinned commit, best first. *)
Definition shard_ranking (generation : SearchIndexGeneration) (partition : N) (held : HeldSearch Doc Q) (st : Bm25 Term) : list SearchHit :=
  full_hit generation partition (hs_searcher held) <$> sort_by top_order (scored (hs_searcher held) (hs_query held) st).

Lemma scored_keys docs q st : NoDup (scored docs q st).*2.
Proof.
  unfold scored. rewrite <-list_fmap_compose. rewrite (list_fmap_ext (snd ∘ _) fst) by done.
  eapply sublist_NoDup; [|apply fmap_sublist, sublist_filter]. apply NoDup_fst_map_to_list.
Qed.
Lemma shard_ranking_ok generation partition held st : ranking partition (shard_ranking generation partition held st).
Proof.
  unfold shard_ranking. split.
  - apply StronglySorted_fmap with (R1 := cmp_le top_order); [|apply sort_by_sorted, _]. intros [a k] [b k']. unfold cmp_le. cbn.
    unfold hit_order, top_order. cbn. by rewrite N.compare_refl.
  - apply Forall_fmap, Forall_forall. done.
  - rewrite <-list_fmap_compose. rewrite (list_fmap_ext (hit_key ∘ _) snd) by done. rewrite sort_by_perm. apply scored_keys.
Qed.

Lemma read_hits generation partition docs budget top hits :
  mapR (read_hit generation partition docs budget) top = Ok hits → hits = full_hit generation partition docs <$> top.
Proof.
  intros Hm%mapR_ok. induction Hm as [|sk hit top hits Hh _ IH]; [done|]. rewrite fmap_cons. f_equal; [|done].
  unfold read_hit in Hh. apply rbind_ok in Hh as (d & Hd%ok_or_ok & Hh). apply rbind_ok in Hh as (v & Hv%ok_or_ok & Hh).
  apply rbind_ok in Hh as (fields & Hf & Hh). apply rbind_ok in Hh as (u & _ & [= <-]).
  unfold full_hit. by rewrite Hd, Hf; cbn; rewrite Hv.
Qed.
(** A shard answers with the first hits of its ranking, and their number. *)
Lemma index_execute_answer generation partition held window st reply :
  index_execute generation partition held window st = Ok reply →
  let all := shard_ranking generation partition held st in
  rp_hits reply = take (N.to_nat window) all ∧ rp_total_hits reply = N.of_nat (length all).
Proof.
  unfold index_execute. intros (n & Hn & E)%rbind_ok. apply rbind_ok in E as (top & Ht & E).
  apply rbind_ok in E as (hits & Hh%read_hits & E). apply rbind_ok in E as (u & _ & [= <-]). cbn.
  unfold shard_ranking. split; [|rewrite length_fmap, (sort_by_perm top_order); by eapply tq_count_ok].
  rewrite Hh, <-fmap_take. f_equal. destruct (N.eqb_spec window 0) as [->|Hw].
  - by injection Ht as <-.
  - by apply tq_top_ok.
Qed.
End shard.

Section cluster.
Context `{Rocks D} `{!Codec U64, !Codec string, !Codec RaftApplied, !Codec SearchConsumerState, !Codec KeyRecord}
  `{!Codec SearchIndexDefinition, !Codec SearchHit, !Codec SearchReply, !Codec ShardStatistics} `{Hashes}.
Context `{Tantivy TI Doc} `{!TantivyQuery Doc Q Term} `{!TantivyQueryOk Doc Q Term} (document : bytes → N → bytes → Extracted Doc).
Context (P : N) (generation : SearchIndexGeneration).

Abbreviation event := (Event (Doc := Doc) (Q := Q)).

(** The trace of a shard's search service. *)
Definition service_trace (trace : list event) : Prop :=
  ∃ (st st' : Storage D) (s : SearchService D TI Doc Q) σ,
    SearchService_new st = (st', Ok s) ∧ rtc (run_step document) (mkRun s [] []) σ ∧ trace = run_trace σ.

(** The commits the shards pinned for one search, with their statistics and rankings. *)
Definition pins : Type := N → option (SearchIndexGeneration * HeldSearch Doc Q).
Definition pinned_stats (pin : pins) (p : N) : ShardStatistics :=
  match pin p with
  | Some (_, held) => match shard_statistics held with Ok s => s | Err _ => ShardStatistics_default end
  | None => ShardStatistics_default
  end.
Definition pinned_ranking (pin : pins) (stats : ShardStatistics) (p : N) : list SearchHit :=
  match pin p with
  | Some (g, held) => match GlobalBm25Statistics_new g stats with Ok st => shard_ranking g p held st | Err _ => [] end
  | None => []
  end.

Lemma pinned_ranking_ok pin stats p : ranking p (pinned_ranking pin stats p).
Proof.
  unfold pinned_ranking. destruct (pin p) as [[g held]|]; [destruct (GlobalBm25Statistics_new g stats)|].
  2,3: split; constructor. apply shard_ranking_ok.
Qed.

(** An execution of a session some shard handed out answers with its ranking. *)
Lemma executed_answer trace incarnation pin p g held pr window statistics reply : session_trace incarnation trace →
  pin p = Some (g, held) → Event_Prepared p g window held pr ∈ trace → Event_Executed (sp_session_id pr) statistics reply ∈ trace →
  shard_answer generation window (pinned_ranking pin statistics p) (Ok reply).
Proof.
  intros Htr Hpin Hpr Hex _. destruct (trace_executed _ _ _ _ _ Htr Hex) as (se & (pr' & Hpr' & Eid) & Hsc).
  injection (trace_same _ _ _ _ _ _ _ _ _ _ _ _ Htr Hpr Hpr' (eq_sym Eid)) as E1 E2 E3 E4.
  unfold execute_score in Hsc. apply rbind_ok in Hsc as (st & Hst & Hx). rewrite <-E1, <-E2, <-E3, <-E4 in *.
  unfold pinned_ranking. rewrite Hpin, Hst. by apply index_execute_answer in Hx.
Qed.

(** C6: distributed search is exact, end to end. The shards are search services
    in any interleaving of their handlers; the coordinator's answers are what
    these services sent, in any order, each of them possibly missing. Then the
    result of a search with global scoring is the requested page of the ranking
    of all documents of the commits the answering shards pinned, every one
    scored with the same sum of the statistics of exactly the commits that were
    pinned — all partitions when none failed — together with the number of
    matches; a partition that did not answer is listed once as failed and makes
    a strict search fail. *)
Theorem cluster_search_exact request answers (shards : N → list event) (pin : pins) :
  (∀ p, service_trace (shards p)) → sq_scoring request = ScoringMode_GlobalBm25 → validate_search generation request = Ok tt →
  schedule (λ p r, ∀ pr, r = Ok pr → ∃ g held, pin p = Some (g, held) ∧
              Event_Prepared p g (window_of request) held pr ∈ shards p) (all_partitions P) (an_prepare answers) →
  (∀ sessions stats, schedule (λ s r, ∀ reply, r = Ok reply → Event_Executed s.2 stats reply ∈ shards s.1) sessions
                       (an_execute answers sessions stats)) →
  ∃ prepared answered failures,
    bset_sorted prepared ∧ answered ⊆ prepared ∧ (failures = [] → prepared = all_partitions P) ∧
    StronglySorted (λ f g, pf_partition f < pf_partition g)%N failures ∧
    answered ++ (pf_partition <$> failures) ≡ₚ all_partitions P ∧
    (search_until P generation request answers).1 =
      search_result P generation (pinned_ranking pin (sum_stats (pinned_stats pin <$> prepared))) request answered failures.
Proof.
  intros Hsv Hm Hv Hs1 Hs2.
  assert (∀ p, ∃ incarnation, session_trace incarnation (shards p)) as Htr.
  { intros p. destruct (Hsv p) as (st & st' & s & σ & Hn & Hr & ->). eexists. by eapply run_reach_inv. }
  apply global_search; [done|done|intros ??; apply pinned_ranking_ok| |].
  - eapply schedule_impl; [|exact Hs1]. intros p r _ Ha pr ->. destruct (Ha pr eq_refl) as (g & held & Hpin & Hev).
    destruct (Htr p) as [inc Hp]. unfold pinned_stats. by rewrite Hpin, (trace_statistics _ _ _ _ _ _ _ Hp Hev).
  - intros sessions stats Hsub. eapply schedule_impl; [|exact (Hs2 sessions stats)]. intros s r Hs Ha. destruct r as [reply|e]; [|done].
    apply Hsub in Hs. unfold learned in Hs. apply list_elem_of_fmap in Hs as ([p pr] & -> & Hpr%elem_of_values).
    destruct (schedule_arrivals _ _ _ Hs1) as [_ Hall]. rewrite Forall_forall in Hall.
    destruct (Hall _ Hpr pr eq_refl) as (g & held & Hpin & Hev). destruct (Htr p) as [inc Hp].
    by eapply executed_answer; [..|apply (Ha reply eq_refl)].
Qed.
End cluster.

(** ** Freshness *)

Section fresh.
Context `{RocksOk D} `{!Codec U64, !Codec U128, !Codec string, !Codec RaftApplied, !Codec SearchConsumerState, !Codec KeyRecord}
  `{!Codec SearchIndexDefinition, !Codec SearchHit, !Codec SearchReply, !Codec ShardStatistics} `{Hashes}.
Context `{TantivyOk TI Doc} `{!TantivyQuery Doc Q Term} (document : bytes → N → bytes → Extracted Doc).
Implicit Types (s : SearchService D TI Doc Q).

(** A loaded generation whose index is right except for keys the journal still
    names, or that is due for a rebuild. *)
Record serviceable s (p arc : N) (name : string) (i : LocalSearchIndex TI Doc) (v : SearchSourceView (D:=D)) : Prop := {
  sv_heap : ∃ closed, sx_heap s !! arc = Some (i, closed);
  sv_cache : cache_ok (sx_storage s);
  sv_view : search_source_view (sx_storage s) (GroupId_Data p) = Ok v;
  sv_epoch_ok : (sv_epoch v ≤ u64_max)%N;
  sv_clean : clean i;
  sv_covers : search_consumer_needs_rebuild (sx_storage s) (GroupId_Data p) name (sg_id (li_generation i)) = Ok true ∨
              covers document i v;
}.

Lemma catch_up_published s s' p arc name env i v c : serviceable s p arc name i v →
  with_worker arc (catch_up document (GroupId_Data p) name env) s = (s', Ready (Ok c)) →
  ∃ i' closed', sx_heap s' !! arc = Some (i', closed') ∧ published document i i' v.
Proof.
  intros [[closed Hh] Hca Hv He Hcl Hco]. unfold with_worker. rewrite Hh.
  destruct (catch_up _ _ _ _ _) as [w' r] eqn:Ec. intros [<- ->]%pair_equal_spec. cbn. exists (sw_index w'), (sw_closed w').
  split; [apply lookup_insert_eq|]. unfold catch_up in Ec.
  apply aio_bind_ready in Ec as [(w1 & g & [-> Eg]%read_index_inv & Ec)|[[_ ?]|(e & _ & ?)]]; [|done..]. injection Eg as ->.
  apply aio_bind_ready in Ec as [(w2 & force & [-> Ef]%read_store_inv & Ec)|[[_ ?]|(e & _ & ?)]]; [|done..].
  apply (run_pass_exact document (GroupId_Data p) name env _ _ _ v force) in Ec as [[[_ Hn]|Hp] _]; [|done..| |].
  - by destruct Hn; eexists.
  - done.
  - cbn in Ef |- *. destruct Hco as [Hco|]; [left; congruence|by right].
Qed.

(** What passes a gate with a barrier is published from a view that includes
    the barrier's entry. *)
Lemma gate_fresh s s' p name g arc arc' b env i v ck : sx_loaded s !! (p, name, g) = Some arc → serviceable s p arc name i v →
  shard_gate document env p (Ok (SearchBarrier_Ready (Some b))) name (GenerationSelection_Exact g) s = (s', Ready (Ok (GateOutcome_Ready arc' ck))) →
  ∃ i' closed', arc' = arc ∧ sx_heap s' !! arc = Some (i', closed') ∧ published document i i' v ∧ ck = fresh_checkpoint i v ∧
    ∃ id, sv_applied v = Some id ∧ (rl_index b ≤ rl_index id)%N.
Proof.
  intros Hl Hs. unfold shard_gate.
  intros (s1 & a & [-> [= <-]]%aio_read_ok & Eg)%aio_bind_ok.
  apply aio_bind_ok in Eg as (s1 & a & [-> [= <-]]%aio_read_ok & Eg).
  apply aio_bind_ok in Eg as (s1 & a & [-> Ea]%aio_read_ok & Eg). rewrite Hl in Ea. injection Ea as <-.
  apply aio_bind_ok in Eg as (s1 & c & (i' & closed' & Hh & Hp)%(catch_up_published _ _ _ _ _ _ _ _ _ Hs) & Eg).
  apply aio_bind_ok in Eg as (s2 & epoch & [-> _]%aio_read_ok & Eg).
  apply aio_bind_ok in Eg as (s2 & ck' & [-> Ec]%aio_read_ok & Eg). rewrite Hh in Ec. cbn in Ec.
  destruct (validate_checkpoint i' epoch) as [ck1|] eqn:Ev; [|done]. injection Ec as ->.
  apply validate_checkpoint_spec in Ev as (Ev & _). rewrite (pb_checkpoint _ _ _ _ Hp) in Ev. injection Ev as <-.
  destruct (covered_by b _) eqn:Eb; [|done]. injection Eg as <- <- <-.
  exists i', closed'. do 4 (split; [done|]). unfold covered_by in Eb. cbn in Eb.
  destruct (sv_applied v) as [id|]; [|done]. exists id. split; [done|]. by apply N.leb_le.
Qed.

End fresh.
