(* ===== verification/ApplyRaft.v ===== *)
(** * Applying committed Raft entries (src/src/storage/batch.rs, src/src/partition/sm.rs)

    [apply_raft] writes the mutations, the dirty-key journal, the applied
    record and the committed hint of a chunk of entries in one batch, through
    the database's write worker. [RocksStateMachine] decides a sequence of
    entries, either one write per entry or in bounded chunks decided against an
    overlay.

    What the environment does during one write is its [WriteEnv]: the clock,
    the registry operations other tasks performed before it, and the fate of
    the submitted batch. Clones of the state machine share one lock, so a call is
    one critical section of the group. Metrics are not modelled. *)

From S2P Require Import Prelude BTree Types Codec SearchDef Keyspace Outbox ApplyDurability Aio Rocks Storage DataSM SearchStore.

(** ** The write of one batch *)

(** What becomes of a batch once the group's budget admits it. *)
Inductive WriteFate :=
| Fate_Reserve (error : string)                    (* the WAL budget refuses it *)
| Fate_Submit (error : string)                     (* the worker's queue is closed *)
| Fate_Failed (error : string)                     (* the worker reports it unwritten, to both callbacks *)
| Fate_Stopped (written : bool)                    (* the worker goes away without an answer *)
| Fate_Written (durable : option (option string)). (* readable; the flush's answer, if any *)

Record WriteEnv := mkWriteEnv {
  we_now : N;
  we_before : list registry_op;
  we_fate : WriteFate;
}.

Definition SEARCH_OUTBOX_PRUNE_APPLIES : N := 4096.

(** [crossed_search_prune_boundary]. *)
Definition crossed_search_prune_boundary (applied_index applied_entries : N) : bool :=
  let previous_index := saturating_sub applied_index applied_entries in
  (previous_index / SEARCH_OUTBOX_PRUNE_APPLIES <? applied_index / SEARCH_OUTBOX_PRUNE_APPLIES)%N.

Definition KEY_COMMITTED : bytes := [x00; x63].

Section apply_raft.
Context `{Rocks D} `{!Codec U64, !Codec string, !Codec RaftApplied, !Codec SearchConsumerState}.
Implicit Types (s : Storage D) (group : GroupId) (env : WriteEnv).

Definition write_db (batch : list BatchOp) s : Storage D := set_db (write (st_db s) batch) s.
Definition cancel_apply env group (log_id : RaftLogId) (error : string) s : Storage D :=
  set_apply (registry_cancel (we_now env) group log_id error (st_apply_durability s)) s.

(** [Storage::write_state_batch]. *)
Definition write_state_batch env group (log_id : RaftLogId) (applied_entries : N) (batch : list BatchOp)
    (wal_bytes : N) : aio (Storage D) unit :=
  let now := we_now env in
  aio_io (io_modify (λ s, set_apply (registry_run (we_before env) (st_apply_durability s)) s)) ;;~
  aio_io (require_healthy now) ;;~
  (λ s, let '(r, p) := registry_begin now group log_id applied_entries wal_bytes (st_apply_durability s) in
        (set_apply r s, p)) ;;~
  λ s,
  let stopped := "database write worker stopped" in
  match we_fate env with
  | Fate_Reserve e | Fate_Submit e => (cancel_apply env group log_id e s, Ready (Err (Error_Io e)))
  | Fate_Failed e =>
      (cancel_apply env group log_id e (cancel_apply env group log_id e s), Ready (Err (Error_Io e)))
  | Fate_Stopped written =>
      (cancel_apply env group log_id stopped (if (written : bool) then write_db batch s else s),
       Ready (Err (Error_Io stopped)))
  | Fate_Written durable =>
      let s := set_apply (registry_visible now group log_id (st_apply_durability s)) (write_db batch s) in
      if is_data group then (s, Ready (Ok tt))
      else match durable with
           | Some None => (set_apply (registry_durable now group log_id (st_apply_durability s)) s, Ready (Ok tt))
           | Some (Some e) => (cancel_apply env group log_id e s, Ready (Err (Error_Io e)))
           | None => let e := "database durability worker stopped" in
                     (cancel_apply env group log_id e s, Ready (Err (Error_Io e)))
           end
  end.

(** The dirty-key entries of a batch: one per user key it touches. *)
Definition outbox_op group (epoch : N) (log_id : RaftLogId) (m : StateMutation) : Result (list BatchOp) :=
  match strip_prefix [TAG_USER] (mutation_key m) with
  | Some user_key => let! k := encode_outbox_key group epoch log_id user_key in Ok [BatchPut DEFAULT_CF k []]
  | None => Ok []
  end.

Definition search_ops s group (log_id : RaftLogId) (mutations : list StateMutation) : Result (list BatchOp) :=
  if is_data group then
    let! stored := get_local U64 s (search_epoch_key group) in
    let epoch : U64 := match stored with Some e => e | None => 1%N end in
    let! ops := mapR (outbox_op group epoch log_id) mutations in
    Ok (match stored with
        | None => [BatchPut DEFAULT_CF (search_epoch_key group) (encode epoch)]
        | Some _ => []
        end ++ concat ops)
  else Ok [].

(** The batch [apply_raft] writes. *)
Definition raft_batch s group (mutations : list StateMutation) (log_id : RaftLogId)
    (applied_record committed_record : bytes) : Result (list BatchOp) :=
  let! cf := state_cf s group in
  let! lcf := log_cf s group in
  let! ops := search_ops s group log_id mutations in
  Ok ((mutation_op cf <$> mutations) ++ ops ++
      [BatchPut cf raft_applied_key applied_record; BatchPut lcf KEY_COMMITTED committed_record]).

(** [Storage::apply_raft]. *)
Definition apply_raft env group (mutations : list StateMutation) (log_id : RaftLogId)
    (applied_record committed_record : bytes) (applied_entries : N) : aio (Storage D) unit :=
  let~ batch := aio_io (io_read (λ s, raft_batch s group mutations log_id applied_record committed_record)) in
  write_state_batch env group log_id applied_entries batch (size_in_bytes (D:=D) batch) ;;~
  λ s,
  if is_data group && crossed_search_prune_boundary (rl_index log_id) applied_entries
  then match prune_search_outbox group s with
       | (s, Ok _) => (s, Ready (Ok tt))
       | (s, Err e) => (poison_raft_error "search outbox prune failed" e s, Ready (Ok tt))
       end
  else (s, Ready (Ok tt)).
End apply_raft.

(** ** Raft entries *)

Record Membership := mkMembershipConfig { mb_configs : list (list NodeId); mb_nodes : list (NodeId * string) }.

(** openraft's [EntryPayload] and [Entry], over the command type of the group. *)
Inductive EntryPayload (R : Type) :=
| EntryPayload_Blank
| EntryPayload_Normal (req : R)
| EntryPayload_Membership (m : Membership).
Arguments EntryPayload_Blank {R}.
Arguments EntryPayload_Normal {R} _.
Arguments EntryPayload_Membership {R} _.
Record RaftEntry (R : Type) := mkEntry { en_log_id : RaftLogId; en_payload : EntryPayload R }.
Arguments mkEntry {R} _ _.
Arguments en_log_id {R} _.
Arguments en_payload {R} _.

#[global] Instance Membership_wf : Wf Membership := λ m,
  (vec_len_ok (mb_configs m) ∧ Forall node_ids_ok (mb_configs m)) ∧
  (vec_len_ok (mb_nodes m) ∧ Forall (λ x, (x.1 ≤ u64_max)%N ∧ str_ok x.2) (mb_nodes m)).
#[global] Instance EntryPayload_wf `{Wf R} : Wf (EntryPayload R) := λ p,
  match p with
  | EntryPayload_Blank => True
  | EntryPayload_Normal req => wf req
  | EntryPayload_Membership m => wf m
  end.
#[global] Instance RaftEntry_wf `{Wf R} : Wf (RaftEntry R) := λ e, wf (en_log_id e) ∧ wf (en_payload e).

(** [Entry] of a data group (partition/raft_types.rs). *)
Abbreviation Entry := (RaftEntry DataRequest).

(** [StoredMembership::new] and [StoredMembership::default]. *)
Definition stored_membership (log_id : RaftLogId) (m : Membership) : StoredMembership :=
  mkMembership (Some log_id) (mb_configs m) (mb_nodes m).
Definition default_membership : StoredMembership := mkMembership None [] [].

Definition APPLY_CHUNK_INPUT_BYTES : N := MAX_PENDING_STATE_BYTES / 2.
Definition APPLY_CHUNK_ENTRIES : N := MAX_PENDING_STATE_ENTRIES / 2.

(** [RocksStateMachine] of one group: the store and, when an observer is
    installed, what it has been told. *)
Record RocksStateMachine (D : Type) := mkStateMachine {
  rsm_storage : Storage D;
  rsm_observed : option (list ApplyObservation);
}.
Arguments mkStateMachine {D} _ _.
Arguments rsm_storage {D} _.
Arguments rsm_observed {D} _.

Section state_machine.
Context `{Rocks D} `{!Codec U64, !Codec U128, !Codec string, !Codec RaftApplied, !Codec SearchConsumerState}.
Context `{Hashes} `{!Codec DataOp, !Codec KeyRecord, !Codec SeqRecord}.
Context `{!Codec (option RaftLogId), !Codec Entry}.
Context (env : RaftLogId → WriteEnv) (group : GroupId).
Implicit Types (sm : RocksStateMachine D) (entries : list Entry).

(** A store computation inside the state machine. *)
Definition on_storage {A} (m : aio (Storage D) A) : aio (RocksStateMachine D) A := λ sm,
  let '(s, r) := m (rsm_storage sm) in (mkStateMachine s (rsm_observed sm), r).

(** [read_failure] and [write_failure]: poison the store, then fail. *)
Definition or_poison {A} (context : string) (m : aio (Storage D) A) : aio (Storage D) A := λ s,
  match m s with
  | (s, Ready (Err e)) => (poison_raft_error context e s, Ready (Err e))
  | r => r
  end.

(** [observe_applies]. *)
Definition observe_applies (observations : list ApplyObservation) : aio (RocksStateMachine D) unit := λ sm,
  (mkStateMachine (rsm_storage sm) ((λ l, l ++ observations) <$> rsm_observed sm), Ready (Ok tt)).

(** [read_applied]. *)
Definition read_applied (now : N) : aio (Storage D) RaftApplied :=
  or_poison "state-machine health check failed" (aio_io (require_healthy now)) ;;~
  let~ b := or_poison "state-machine applied record read failed" (aio_io (io_read (λ s, raft_applied s group))) in
  match b with
  | Some b => or_poison "state-machine applied record decode failed" (aio_io (io_read (λ _, decode (A:=RaftApplied) b)))
  | None => aio_ret (mkRaftApplied None default_membership)
  end.

(** The decision of one entry against a reader. *)
Definition decide_entry `{StateRead R} (reader : R) (e : Entry) : Result (ApplyResult * list StateMutation) :=
  match en_payload e with
  | EntryPayload_Normal req => evaluate group reader req (rl_index (en_log_id e))
  | EntryPayload_Blank | EntryPayload_Membership _ => Ok (ApplyResult_NoOp, [])
  end.
Definition next_membership {R} (membership : StoredMembership) (e : RaftEntry R) : StoredMembership :=
  match en_payload e with
  | EntryPayload_Membership m => stored_membership (en_log_id e) m
  | _ => membership
  end.
Definition observation (e : Entry) (result : ApplyResult) : list ApplyObservation :=
  match en_payload e with
  | EntryPayload_Normal req =>
      [mkObservationRecord group (en_log_id e) (req_client_id req) (req_sequence req) (digest (req_op req)) result]
  | _ => []
  end.

(** The loop of [apply_coalesced_chunk]. *)
Fixpoint decide_chunk (overlay : StateOverlay D) (membership : StoredMembership) (results : list ApplyResult)
    (observations : list ApplyObservation) (entries : list Entry)
    : Result (StateOverlay D * StoredMembership * list ApplyResult * list ApplyObservation) :=
  match entries with
  | [] => Ok (overlay, membership, results, observations)
  | e :: entries =>
      let! d := decide_entry overlay e in
      decide_chunk (stage overlay d.2) (next_membership membership e) (results ++ [d.1])
        (observations ++ observation e d.1) entries
  end.

(** The write that ends a chunk, or a single entry of the per-entry path. *)
Definition apply_write (mutations : list StateMutation) (log_id : RaftLogId) (membership : StoredMembership)
    (applied_entries : N) : aio (Storage D) unit :=
  or_poison "state-machine apply write failed"
    (apply_raft (env log_id) group mutations log_id (encode (mkRaftApplied (Some log_id) membership))
       (encode (Some log_id)) applied_entries).

(** The clock during the chunk that ends with its last entry. *)
Definition chunk_now entries : N :=
  match last entries with Some e => we_now (env (en_log_id e)) | None => 0%N end.

(** [apply_coalesced_chunk]. *)
Definition apply_coalesced_chunk entries : aio (RocksStateMachine D) (list ApplyResult) :=
  let~ applied := on_storage (read_applied (chunk_now entries)) in
  let~ decided := on_storage (or_poison "state-machine evaluation failed" (aio_io (io_read (λ s,
    decide_chunk (overlay_new s) (ra_membership applied) [] [] entries)))) in
  let '(overlay, membership, results, observations) := decided in
  match last entries with
  | None => aio_ret results
  | Some e =>
      on_storage (apply_write (into_mutations overlay) (en_log_id e) membership (N.of_nat (length results))) ;;~
      observe_applies observations ;;~ aio_ret results
  end.

(** The loop of [apply_coalesced]: the chunk gathered so far and its bytes. *)
Fixpoint coalesced_loop (chunk : list Entry) (chunk_bytes : N) (all_results : list ApplyResult)
    (entries : list Entry) : aio (RocksStateMachine D) (list ApplyResult) :=
  match entries with
  | [] => if bool_decide (chunk = []) then aio_ret all_results
          else let~ rs := apply_coalesced_chunk chunk in aio_ret (all_results ++ rs)
  | e :: entries =>
      let entry_bytes := encoded_len e in
      let would_exceed :=
        negb (bool_decide (chunk = [])) &&
        ((APPLY_CHUNK_ENTRIES <=? N.of_nat (length chunk))%N ||
         (APPLY_CHUNK_INPUT_BYTES <? saturating_add usize_max chunk_bytes entry_bytes)%N) in
      if would_exceed
      then let~ rs := apply_coalesced_chunk chunk in
           coalesced_loop [e] (saturating_add usize_max 0 entry_bytes) (all_results ++ rs) entries
      else coalesced_loop (chunk ++ [e]) (saturating_add usize_max chunk_bytes entry_bytes) all_results entries
  end.

(** [apply_coalesced]. *)
Definition apply_coalesced entries : aio (RocksStateMachine D) (list ApplyResult) :=
  coalesced_loop [] 0 [] entries.

(** The loop of [apply_per_entry]. *)
Fixpoint per_entry_loop (membership : StoredMembership) (results : list ApplyResult) (entries : list Entry)
    : aio (RocksStateMachine D) (list ApplyResult) :=
  match entries with
  | [] => aio_ret results
  | e :: entries =>
      let~ d := on_storage (or_poison "state-machine evaluation failed"
                  (aio_io (io_read (λ s, decide_entry s e)))) in
      let membership := next_membership membership e in
      on_storage (apply_write d.2 (en_log_id e) membership 1) ;;~
      observe_applies (observation e d.1) ;;~
      per_entry_loop membership (results ++ [d.1]) entries
  end.

(** [apply_per_entry]. *)
Definition apply_per_entry (now : N) entries : aio (RocksStateMachine D) (list ApplyResult) :=
  let~ applied := on_storage (read_applied now) in
  per_entry_loop (ra_membership applied) [] entries.

(** [RaftStateMachine::apply], with the value of the cached environment flag. *)
Definition sm_apply (coalesce : bool) (now : N) entries : aio (RocksStateMachine D) (list ApplyResult) :=
  if coalesce then apply_coalesced entries else apply_per_entry now entries.
End state_machine.
