(* ===== verification/LogStore.v ===== *)
(** * The Raft log of a group (src/src/partition/log_store.rs)

    [RocksLogStore] keeps the vote, the purge and committed markers and the
    entries of one group in its log column family. Every operation first checks
    the health of the store and poisons it on any error. The environment of one
    operation is its [LogEnv]: the clock, what other tasks do to the durability
    registry while the operation waits, the fate of a batch handed to the write
    worker and the outcome of each direct database call. The callbacks of
    [append] are recorded in the order they are invoked. *)

From S2P Require Import Prelude BTree Types Codec SearchDef Keyspace Outbox ApplyDurability Aio Rocks Storage DataSM SearchStore ApplyRaft.

Definition KEY_VOTE : bytes := [x00; x76].
Definition KEY_PURGED : bytes := [x00; x70].
Definition ENTRY_PREFIX : byte := x01.
Definition ENTRY_PREFIX_END : byte := x02.

Definition entry_key (index : N) : bytes := ENTRY_PREFIX :: be_bytes 8 index.

Definition entry_index (key : bytes) : option N :=
  match key with
  | b :: k => if bool_decide (length key = 9) && bool_decide (b = ENTRY_PREFIX) then Some (be_value k) else None
  | [] => None
  end.

(** openraft's [Vote<u64>] and [LogState]. *)
Record Vote := mkVote { vote_term : N; vote_node_id : N; vote_committed : bool }.
#[global] Instance Vote_wf : Wf Vote := λ v, (vote_term v ≤ u64_max)%N ∧ (vote_node_id v ≤ u64_max)%N.
Record LogState := mkLogState { lst_last_purged_log_id : option RaftLogId; lst_last_log_id : option RaftLogId }.

(** [std::ops::Bound<u64>]. *)
Inductive Bound := Included (i : N) | Excluded (i : N) | Unbounded.
Definition start_of (b : Bound) : N :=
  match b with Included i => i | Excluded i => wrapping_add u64_max i 1 | Unbounded => 0 end.
Definition end_of (b : Bound) : N :=
  match b with Included i => wrapping_add u64_max i 1 | Excluded i => i | Unbounded => u64_max end.

(** A failed database call: whether its batch took effect, and the message. *)
Definition fault : Type := bool * string.

Record LogEnv := mkLogEnv {
  le_now : N;
  le_started : N;
  le_waited : list registry_op;
  le_fate : WriteFate;
  le_fault : nat → option fault;
}.

(** A log store and the results its flush callbacks were given. *)
Record RocksLogStore (D : Type) := mkLogStore {
  ls_storage : Storage D;
  ls_flushed : list (option string); (* [None] for success *)
}.
Arguments mkLogStore {D} _ _.
Arguments ls_storage {D} _.
Arguments ls_flushed {D} _.

Section log_store.
Context `{Rocks D} `{!Codec U64, !Codec string, !Codec RaftLogId, !Codec (option RaftLogId), !Codec Vote}.
Context {R : Type} `{Wf R} `{!Codec (RaftEntry R)}.
Context (env : LogEnv) (group : GroupId).
Implicit Types (s : Storage D) (ls : RocksLogStore D) (entries : list (RaftEntry R)).

(** The [n]th direct write and the [n]th direct read of an operation. *)
Definition db_write (n : nat) (batch : list BatchOp) : aio (Storage D) unit := λ s,
  match le_fault env n with
  | None => (write_db batch s, Ready (Ok tt))
  | Some (applied, e) => ((if (applied : bool) then write_db batch s else s), Ready (Err (Error_Rocks e)))
  end.
Definition db_read {A} (n : nat) (f : D → A) : aio (Storage D) A := λ s,
  match le_fault env n with
  | None => (s, Ready (Ok (f (st_db s))))
  | Some (_, e) => (s, Ready (Err (Error_Rocks e)))
  end.

Definition log_healthy (context : string) : aio (Storage D) unit :=
  or_poison context (aio_io (require_group_healthy (le_now env) group)).
Definition open_log (context : string) : aio (Storage D) string :=
  or_poison context (aio_io (io_read (λ s, log_cf s group))).

(** [read_log_singleton]. *)
Definition read_log_singleton (T : Type) `{Codec T} (n : nat) (key : bytes) : aio (Storage D) (option T) :=
  log_healthy "Raft log health check failed" ;;~
  let~ cf := open_log "Raft log column-family lookup failed" in
  let~ raw := or_poison "Raft log singleton read failed" (db_read n (λ d, get_cf d cf key)) in
  match raw with
  | Some b => let~ x := or_poison "Raft log singleton decode failed" (aio_io (io_read (λ _, decode (A:=T) b))) in
              aio_ret (Some x)
  | None => aio_ret None
  end.

(** [iterator_cf(cf, From(start, Reverse)).next()]. *)
Definition last_at_or_before (d : D) (cf : string) (start : bytes) : option (bytes * bytes) :=
  last (filter (λ kv, bytes_le kv.1 start) (iter_cf d cf)).

(** [last_entry_id]. *)
Definition last_entry_id (n : nat) : aio (Storage D) (option RaftLogId) :=
  log_healthy "Raft log health check failed" ;;~
  let~ cf := open_log "Raft log column-family lookup failed" in
  let~ item := or_poison "Raft last-log read failed" (db_read n (λ d, last_at_or_before d cf [ENTRY_PREFIX_END])) in
  match item with
  | Some (k, v) =>
      match entry_index k with
      | Some _ => let~ entry := or_poison "Raft last-log decode failed"
                                  (aio_io (io_read (λ _, decode (A:=RaftEntry R) v))) in
                  aio_ret (Some (en_log_id entry))
      | None => aio_ret None
      end
  | None => aio_ret None
  end.

(** The loop of [try_get_log_entries]. *)
Fixpoint read_entries (end_ : N) (items : list (bytes * bytes)) : Result (list (RaftEntry R)) :=
  match items with
  | [] => Ok []
  | (k, v) :: items =>
      match entry_index k with
      | Some idx => if (idx <? end_)%N
                    then let! e := decode (A:=RaftEntry R) v in
                         let! es := read_entries end_ items in Ok (e :: es)
                    else Ok []
      | None => Ok []
      end
  end.

(** [try_get_log_entries]. *)
Definition try_get_log_entries (from to : Bound) : aio (Storage D) (list (RaftEntry R)) :=
  log_healthy "Raft log health check failed" ;;~
  let start := start_of from in
  let end_ := end_of to in
  let~ cf := open_log "Raft log column-family lookup failed" in
  let~ items := or_poison "Raft log range read failed" (db_read 0 (λ d, iter_from d cf (entry_key start))) in
  or_poison "Raft log entry decode failed" (aio_io (io_read (λ _, read_entries end_ items))).

(** [get_log_state]. *)
Definition get_log_state : aio (Storage D) LogState :=
  let~ last_purged := read_log_singleton RaftLogId 0 KEY_PURGED in
  let~ last := last_entry_id 1 in
  aio_ret (mkLogState last_purged (match last with Some l => Some l | None => last_purged end)).

(** [save_vote], [read_vote], [save_committed], [read_committed]. *)
Definition save_vote (vote : Vote) : aio (Storage D) unit :=
  log_healthy "Raft vote health check failed" ;;~
  let~ cf := open_log "Raft vote column-family lookup failed" in
  or_poison "Raft vote write failed" (db_write 0 [BatchPut cf KEY_VOTE (encode vote)]).
Definition read_vote : aio (Storage D) (option Vote) := read_log_singleton Vote 0 KEY_VOTE.
Definition save_committed (committed : option RaftLogId) : aio (Storage D) unit :=
  log_healthy "Raft committed health check failed".
Definition read_committed : aio (Storage D) (option RaftLogId) :=
  let~ c := read_log_singleton (option RaftLogId) 0 KEY_COMMITTED in
  aio_ret (mjoin c).

(** A store computation inside the log store. *)
Definition on_log {A} (m : aio (Storage D) A) : aio (RocksLogStore D) A := λ ls,
  let '(s, r) := m (ls_storage ls) in (mkLogStore s (ls_flushed ls), r).

(** [callback.log_io_completed]. *)
Definition log_io_completed (result : option string) ls : RocksLogStore D :=
  mkLogStore (ls_storage ls) (ls_flushed ls ++ [result]).

Definition poison_log (context : string) (e : Error) ls : RocksLogStore D :=
  mkLogStore (poison_raft_error context e (ls_storage ls)) (ls_flushed ls).

(** [Storage::write_log_batch] with the append's callback. *)
Definition write_log_batch (batch : list BatchOp) (wal_bytes : N) : aio (RocksLogStore D) unit :=
  on_log (aio_io (require_healthy (le_now env))) ;;~
  λ ls,
  let written ls := mkLogStore (write_db batch (ls_storage ls)) (ls_flushed ls) in
  let poisoned context e ls := (poison_log context (Error_Io e) ls, Ready (Err (Error_Io e))) in
  if (MAX_PENDING_WAL_BYTES <? wal_bytes)%N
  then (ls, Ready (Err (Error_Io "WAL batch exceeds durability limit")))
  else
  match le_fate env with
  | Fate_Reserve e => (ls, Ready (Err (Error_Io e)))
  | Fate_Submit e => poisoned "Raft log durability submission failed" e ls
  | Fate_Failed e => poisoned "Raft log WAL write failed" e (log_io_completed (Some e) ls)
  | Fate_Stopped applied =>
      poisoned "Raft log durability worker stopped" "database write worker stopped" (if (applied : bool) then written ls else ls)
  | Fate_Written durable =>
      let ls := written ls in
      (match durable with Some result => log_io_completed result ls | None => ls end, Ready (Ok tt))
  end.

Definition put_entry (cf : string) (e : RaftEntry R) : BatchOp :=
  BatchPut cf (entry_key (rl_index (en_log_id e))) (encode e).

(** [append], with the value of the cached environment flag. *)
Definition append (group_commit : bool) entries : aio (RocksLogStore D) unit :=
  on_log (log_healthy "Raft append health check failed") ;;~
  let~ cf := on_log (open_log "Raft append column-family lookup failed") in
  let batch := put_entry cf <$> entries in
  let wal_bytes := foldl (λ n e, saturating_add usize_max n (saturating_add usize_max 9 (encoded_len e))) 0%N entries in
  if group_commit
  then λ ls, match write_log_batch batch wal_bytes ls with
             | (ls, Ready (Err e)) => (poison_log "Raft append write failed" e ls, Ready (Err e))
             | r => r
             end
  else on_log (or_poison "synchronous Raft append failed" (db_write 0 batch)) ;;~
       λ ls, (log_io_completed None ls, Ready (Ok tt)).

(** [truncate]. *)
Definition truncate (log_id : RaftLogId) : aio (Storage D) unit :=
  log_healthy "Raft truncate health check failed" ;;~
  let~ cf := open_log "Raft truncate column-family lookup failed" in
  or_poison "Raft truncate range delete failed"
    (db_write 0 [BatchDeleteRange cf (entry_key (rl_index log_id)) (entry_key u64_max)]) ;;~
  or_poison "Raft truncate sync failed" (db_write 1 [BatchDelete cf (entry_key u64_max)]).

(** [wait_state_durable_for_purge], resolved after [le_waited]. *)
Definition wait_state_durable_for_purge (log_id : RaftLogId) : aio (Storage D) unit := λ s,
  let '(r, p) := registry_wait_durable (le_now env) (le_started env) group log_id DurabilityWaitKind_Purge
                   (registry_run (le_waited env) (st_apply_durability s)) in
  (set_apply r s, p).

(** [purge]. *)
Definition purge (log_id : RaftLogId) : aio (Storage D) unit :=
  log_healthy "Raft purge health check failed" ;;~
  or_poison "Raft purge durability fence failed" (wait_state_durable_for_purge log_id) ;;~
  let~ cf := open_log "Raft purge column-family lookup failed" in
  or_poison "Raft purge marker write failed" (db_write 0 [BatchPut cf KEY_PURGED (encode log_id)]) ;;~
  or_poison "Raft purge range delete failed"
    (db_write 1 [BatchDeleteRange cf (entry_key 0) (entry_key (rl_index log_id))]) ;;~
  or_poison "Raft purge sync failed" (db_write 2 [BatchDelete cf (entry_key (rl_index log_id))]).

(** [rebase_restored_log]: the operations it adds to a restore's batch. *)
Definition rebase_restored_log s (applied : RaftLogId) : Result (list BatchOp) :=
  let! cf := log_cf s group in
  Ok [BatchDeleteRange cf [ENTRY_PREFIX] [ENTRY_PREFIX_END];
      BatchPut cf KEY_PURGED (encode applied);
      BatchPut cf KEY_COMMITTED (encode (Some applied))].
End log_store.
