(* ===== verification/Snapshot.v ===== *)
(** * Snapshot streams (src/src/snapshot.rs)

    A snapshot file is a magic, length-delimited records, an end marker, the
    record count and the SHA-256 of the records. [decode_records_sync] hands
    each record to a callback before the footer is checked, so the callback is a
    parameter of the decoder and its effects are part of the result. Files are
    byte lists; their creation, naming and removal are not modelled, nor are the
    read and write errors of the file system. *)

From S2P Require Import Prelude BTree Types Codec.

Definition MAGIC : bytes := as_bytes "DALSNP02".
Definition END : N := u32_max.
Definition MAX_RECORD_COMPONENT_BYTES : N := 64 * 1024 * 1024.
Definition MAX_RECORD_BYTES : N := 65 * 1024 * 1024.

(** [validate_lengths]. *)
Definition validate_lengths (key_len value_len : N) : Result unit :=
  if (MAX_RECORD_COMPONENT_BYTES <? key_len)%N || (MAX_RECORD_COMPONENT_BYTES <? value_len)%N
  then Err (Error_Codec "snapshot record component exceeds limit")
  else if (MAX_RECORD_BYTES <? saturating_add usize_max key_len value_len)%N
  then Err (Error_Codec "snapshot record exceeds combined limit")
  else Ok tt.

(** [u32::try_from]. *)
Definition try_u32 (n : N) (error : string) : Result N :=
  if (n <=? u32_max)%N then Ok n else Err (Error_Codec error).

Section snapshot.
Context `{Hashes}.

(** The bytes [encode_records] writes, and hashes, for one record. *)
Definition record_bytes (key_len value_len : N) (key value : bytes) : bytes :=
  le_bytes 4 key_len ++ le_bytes 4 value_len ++ key ++ value.

(** The loop and the footer of [encode_records]: what the writer holds, what
    the hasher was fed and the count. *)
Fixpoint encode_loop (writer hasher : bytes) (count : N) (records : list (Result (bytes * bytes))) : Result bytes :=
  match records with
  | [] => Ok (writer ++ le_bytes 4 END ++ le_bytes 8 count ++ sha256 hasher)
  | record :: records =>
      let! kv := record in
      let '(key, value) := kv in
      let! _ := validate_lengths (N.of_nat (length key)) (N.of_nat (length value)) in
      let! key_len := try_u32 (N.of_nat (length key)) "snapshot key length exceeds u32" in
      let! value_len := try_u32 (N.of_nat (length value)) "snapshot value length exceeds u32" in
      let b := record_bytes key_len value_len key value in
      let! count := ok_or (checked_add u64_max count 1) (Error_Codec "snapshot record count exhausted") in
      encode_loop (writer ++ b) (hasher ++ b) count records
  end.

(** [encode_records]. *)
Definition encode_records (records : list (Result (bytes * bytes))) : Result bytes :=
  encode_loop MAGIC [] 0 records.

(** [Read::read_exact]: the bytes and the rest. *)
Definition read_exact (n : nat) (reader : bytes) : Result (bytes * bytes) :=
  if bool_decide (n ≤ length reader) then Ok (take n reader, drop n reader)
  else Err (Error_Io "failed to fill whole buffer").

(** One record of the loop of [decode_records_sync]: [None] at the end marker. *)
Definition read_record (reader : bytes) : Result (option (bytes * bytes * bytes) * bytes) :=
  let! r := read_exact 4 reader in
  let '(key_len_bytes, reader) := r in
  let key_len := le_value key_len_bytes in
  if (key_len =? END)%N then Ok (None, reader)
  else
    let! r := read_exact 4 reader in
    let '(value_len_bytes, reader) := r in
    let value_len := le_value value_len_bytes in
    let! _ := validate_lengths key_len value_len in
    let! r := read_exact (N.to_nat key_len) reader in
    let '(key, reader) := r in
    let! r := read_exact (N.to_nat value_len) reader in
    let '(value, reader) := r in
    Ok (Some (key, value, key_len_bytes ++ value_len_bytes ++ key ++ value), reader).

Section decode.
Context {S : Type} (record : bytes → bytes → io S unit).

(** The loop of [decode_records_sync]; [None] when the fuel runs out. *)
Fixpoint decode_loop (fuel : nat) (reader hasher : bytes) (count : N) (s : S)
    : option (S * Result (bytes * bytes * N)) :=
  match fuel with
  | O => None
  | Datatypes.S fuel =>
      match read_record reader with
      | Err e => Some (s, Err e)
      | Ok (None, reader) => Some (s, Ok (reader, hasher, count))
      | Ok (Some (key, value, b), reader) =>
          match record key value s with
          | (s, Err e) => Some (s, Err e)
          | (s, Ok _) =>
              match checked_add u64_max count 1 with
              | None => Some (s, Err (Error_Codec "snapshot record count exhausted"))
              | Some count => decode_loop fuel reader (hasher ++ b) count s
              end
          end
      end
  end.

(** The footer checks of [decode_records_sync]. *)
Definition check_footer (reader hasher : bytes) (count : N) : Result unit :=
  let! r := read_exact 8 reader in
  let '(expected_count, reader) := r in
  let! r := read_exact 32 reader in
  let '(expected_digest, reader) := r in
  if negb (le_value expected_count =? count)%N then Err (Error_Codec "snapshot record count mismatch")
  else if negb (bool_decide (sha256 hasher = expected_digest)) then Err (Error_Codec "snapshot checksum mismatch")
  else if negb (bool_decide (reader = [])) then Err (Error_Codec "trailing bytes after snapshot footer")
  else Ok tt.

(** [decode_records_sync]. A record takes at least eight bytes, so the length
    of the file is fuel enough. *)
Definition decode_records_sync (file : bytes) : io S unit := λ s,
  match (let! r := read_exact (length MAGIC) file in
         if negb (bool_decide (r.1 = MAGIC)) then Err (Error_Codec "invalid snapshot magic") else Ok r.2) with
  | Err e => (s, Err e)
  | Ok reader =>
      match decode_loop (Datatypes.S (length file)) reader [] 0 s with
      | None => (s, Err (Error_Codec "unreachable"))
      | Some (s, Err e) => (s, Err e)
      | Some (s, Ok (reader, hasher, count)) => (s, check_footer reader hasher count)
      end
  end.

(** The callback on a sequence of records. *)
Fixpoint run_records (records : list (bytes * bytes)) : io S unit :=
  match records with
  | [] => io_ret tt
  | (k, v) :: records => record k v ;;? run_records records
  end.
End decode.
End snapshot.

(** ** Reading back what was written *)

Lemma read_exact_ok n reader b rest : read_exact n reader = Ok (b, rest) ↔ reader = b ++ rest ∧ length b = n.
Proof.
  unfold read_exact. destruct (bool_decide_reflect (n ≤ length reader)) as [Hl|Hl].
  - split; [intros [= <- <-]; split; [by rewrite take_drop|rewrite length_take; lia]|].
    intros [-> <-]. by rewrite take_app_length, drop_app_length.
  - split; [done|]. intros [-> <-]. destruct Hl. rewrite length_app. lia.
Qed.

Lemma read_exact_app n b rest : length b = n → read_exact n (b ++ rest) = Ok (b, rest).
Proof. intros Hl. by apply read_exact_ok. Qed.

Lemma validate_lengths_ok k v : validate_lengths k v = Ok tt ↔
  (k ≤ MAX_RECORD_COMPONENT_BYTES ∧ v ≤ MAX_RECORD_COMPONENT_BYTES ∧ k + v ≤ MAX_RECORD_BYTES)%N.
Proof.
  unfold validate_lengths, saturating_add, usize_max, u64_max, MAX_RECORD_COMPONENT_BYTES, MAX_RECORD_BYTES.
  repeat case_match; rewrite ?orb_true_iff, ?orb_false_iff, ?N.ltb_lt, ?N.ltb_ge in *; naive_solver lia.
Qed.

Section proofs.
Context `{HashesOk}.
Context {S : Type} (record : bytes → bytes → io S unit).
Implicit Types (rs : list (bytes * bytes)).

(** A record the format can carry, and its bytes. *)
Definition record_ok (kv : bytes * bytes) : Prop :=
  validate_lengths (N.of_nat (length kv.1)) (N.of_nat (length kv.2)) = Ok tt.
Definition body_of (kv : bytes * bytes) : bytes :=
  record_bytes (N.of_nat (length kv.1)) (N.of_nat (length kv.2)) kv.1 kv.2.
Definition body rs : bytes := concat (body_of <$> rs).

Lemma encode_loop_ok w h c rs file : (c ≤ u64_max)%N →
  encode_loop w h c (Ok <$> rs) = Ok file ↔
  Forall record_ok rs ∧ (c + N.of_nat (length rs) ≤ u64_max)%N ∧
  file = w ++ body rs ++ le_bytes 4 END ++ le_bytes 8 (c + N.of_nat (length rs)) ++ sha256 (h ++ body rs).
Proof.
  intros Hc. revert w h c Hc. induction rs as [|[k v] rs IH]; intros w h c Hc; cbn [fmap list_fmap encode_loop].
  - change (body []) with (@nil byte). cbn [length app]. rewrite N.add_0_r, app_nil_r.
    split; [intros [= <-]; done|]. by intros (_ & _ & ->).
  - unfold body. cbn [rbind fmap list_fmap concat]. fold (body rs).
    destruct (validate_lengths _ _) as [[]|e] eqn:Ev; cbn [rbind].
    2: { split; [done|]. intros (Hf & _). apply Forall_cons in Hf as [Hf _]. unfold record_ok in Hf. simpl in Hf. congruence. }
    pose proof (proj1 (validate_lengths_ok _ _) Ev) as (Hk & Hv & _).
    unfold MAX_RECORD_COMPONENT_BYTES in Hk, Hv. unfold try_u32, u32_max.
    rewrite !(proj2 (N.leb_le _ _)) by lia. cbn [rbind].
    destruct (checked_add u64_max c 1) as [c'|] eqn:Ec; cbn [ok_or rbind].
    + apply checked_add_Some in Ec as [-> Hc']. rewrite IH by done. rewrite Forall_cons.
      cbn [length]. rewrite <-!(assoc_L (++)). change (body_of (k, v)) with (record_bytes (N.of_nat (length k)) (N.of_nat (length v)) k v).
      change (record_ok (k, v)) with (validate_lengths (N.of_nat (length k)) (N.of_nat (length v)) = Ok tt).
      assert (c + 1 + N.of_nat (length rs) = c + N.of_nat (Datatypes.S (length rs)))%N as -> by lia. naive_solver.
    + apply checked_add_None in Ec. split; [done|]. intros (_ & Hl & _). cbn [length] in Hl. lia.
Qed.

Lemma encode_records_ok rs file : encode_records (Ok <$> rs) = Ok file ↔
  Forall record_ok rs ∧ (N.of_nat (length rs) ≤ u64_max)%N ∧
  file = MAGIC ++ body rs ++ le_bytes 4 END ++ le_bytes 8 (N.of_nat (length rs)) ++ sha256 (body rs).
Proof. unfold encode_records. rewrite encode_loop_ok by (vm_compute; discriminate). by rewrite N.add_0_l. Qed.

(** One record is read back, and only from its own bytes. *)
Lemma read_record_app k v rest : record_ok (k, v) →
  read_record (body_of (k, v) ++ rest) = Ok (Some (k, v, body_of (k, v)), rest).
Proof.
  intros Hok. pose proof (proj1 (validate_lengths_ok _ _) Hok) as (Hk & Hv & _).
  unfold MAX_RECORD_COMPONENT_BYTES in Hk, Hv. simpl in Hk, Hv.
  assert (∀ n, (n ≤ 64 * 1024 * 1024)%N → le_value (le_bytes 4 n) = n) as Hle.
  { intros n Hn. apply le_value_le_bytes_small. change (256 ^ N.of_nat 4)%N with 4294967296%N. lia. }
  unfold read_record, body_of, record_bytes. cbn [fst snd]. rewrite <-!(assoc_L (++)).
  rewrite read_exact_app by apply length_le_bytes. cbn [rbind]. rewrite Hle by done.
  destruct (N.eqb_spec (N.of_nat (length k)) END) as [E|_]; [unfold END, u32_max in E; lia|].
  rewrite read_exact_app by apply length_le_bytes. cbn [rbind]. rewrite Hle by done.
  unfold record_ok in Hok. cbn [fst snd] in Hok. rewrite Hok. cbn [rbind].
  rewrite !Nat2N.id. rewrite read_exact_app by done. cbn [rbind]. by rewrite read_exact_app.
Qed.

Lemma read_record_end rest : read_record (le_bytes 4 END ++ rest) = Ok (None, rest).
Proof.
  unfold read_record. rewrite read_exact_app by apply length_le_bytes. cbn [rbind].
  rewrite le_value_le_bytes_small by (vm_compute; reflexivity). by rewrite N.eqb_refl.
Qed.

Lemma read_record_some reader k v b rest : read_record reader = Ok (Some (k, v, b), rest) →
  reader = b ++ rest ∧ record_ok (k, v) ∧ b = body_of (k, v).
Proof.
  unfold read_record. intros ([b1 r1] & E1 & E)%rbind_ok. apply read_exact_ok in E1 as [-> L1].
  destruct (le_value b1 =? END)%N; [done|].
  apply rbind_ok in E as ([b2 r2] & E2 & E). apply read_exact_ok in E2 as [-> L2].
  apply rbind_ok in E as ([] & Ev & E).
  apply rbind_ok in E as ([b3 r3] & E3 & E). apply read_exact_ok in E3 as [-> L3].
  apply rbind_ok in E as ([b4 r4] & E4 & E). apply read_exact_ok in E4 as [-> L4].
  injection E as <- <- <- <-. split; [by rewrite <-!(assoc_L (++))|].
  assert (N.of_nat (length b3) = le_value b1) as Lk by lia. assert (N.of_nat (length b4) = le_value b2) as Lv by lia.
  unfold record_ok, body_of, record_bytes. cbn [fst snd]. rewrite Lk, Lv. split; [done|].
  rewrite <-L1 at 1. rewrite le_bytes_le_value. rewrite <-L2 at 1. by rewrite le_bytes_le_value.
Qed.

Lemma read_record_none reader rest : read_record reader = Ok (None, rest) → reader = le_bytes 4 END ++ rest.
Proof.
  unfold read_record. intros ([b1 r1] & E1 & E)%rbind_ok. apply read_exact_ok in E1 as [-> L1].
  destruct (N.eqb_spec (le_value b1) END) as [Ee|_].
  - injection E as <-. rewrite <-Ee, <-L1, le_bytes_le_value. done.
  - exfalso. apply rbind_ok in E as ([b2 r2] & _ & E). apply rbind_ok in E as ([] & _ & E).
    apply rbind_ok in E as ([b3 r3] & _ & E). apply rbind_ok in E as ([b4 r4] & _ & [=]).
Qed.

(** The decoder on the bytes of records, up to the end marker. *)
Lemma decode_loop_body rs : ∀ fuel rest h c s, Forall record_ok rs → length rs < fuel →
  (c + N.of_nat (length rs) ≤ u64_max)%N →
  decode_loop record fuel (body rs ++ le_bytes 4 END ++ rest) h c s =
  match run_records record rs s with
  | (s, Ok _) => Some (s, Ok (rest, h ++ body rs, (c + N.of_nat (length rs))%N))
  | (s, Err e) => Some (s, Err e)
  end.
Proof.
  induction rs as [|[k v] rs IH]; intros fuel rest h c s Hok Hf Hc; (destruct fuel as [|fuel]; [lia|]).
  - change (body []) with (@nil byte). cbn [app decode_loop run_records io_ret]. rewrite read_record_end.
    by rewrite app_nil_r, N.add_0_r.
  - apply Forall_cons in Hok as [Hkv Hok]. unfold body. cbn [fmap list_fmap concat]. fold (body rs).
    rewrite <-(assoc_L (++)). cbn [decode_loop]. rewrite read_record_app by done.
    cbn [run_records]. unfold io_bind. destruct (record k v s) as [s1 [[]|e]]; [|done].
    cbn [length] in Hc, Hf. rewrite (proj2 (checked_add_Some _ _ _ (c + 1)%N)) by (split; [done|lia]).
    rewrite IH; [|done|lia|lia]. rewrite <-(assoc_L (++)).
    assert (c + 1 + N.of_nat (length rs) = c + N.of_nat (Datatypes.S (length rs)))%N as -> by lia. done.
Qed.

(** Every run of the decoder is a run of the callback on records whose bytes it
    has read. *)
Lemma decode_loop_sound fuel : ∀ reader h c s s' rest h' c',
  decode_loop record fuel reader h c s = Some (s', Ok (rest, h', c')) →
  ∃ rs, Forall record_ok rs ∧ reader = body rs ++ le_bytes 4 END ++ rest ∧ h' = h ++ body rs ∧
    c' = (c + N.of_nat (length rs))%N ∧ (c ≤ u64_max → c' ≤ u64_max)%N ∧ run_records record rs s = (s', Ok tt).
Proof.
  induction fuel as [|fuel IH]; intros reader h c s s' rest h' c'; cbn [decode_loop]; [done|].
  destruct (read_record reader) as [[[[[k v] b]|] r]|e] eqn:Er; [| |done].
  - apply read_record_some in Er as (-> & Hok & ->).
    destruct (record k v s) as [s1 [[]|e]] eqn:Erec; [|done].
    destruct (checked_add u64_max c 1) as [c1|] eqn:Ec; [|done].
    apply checked_add_Some in Ec as [-> Hc]. intros (rs & Hrs & -> & -> & -> & Hcc & Hrun)%IH.
    exists ((k, v) :: rs). split_and!; [by constructor| | |cbn [length]; lia|intros _; by apply Hcc|].
    + unfold body. cbn [fmap list_fmap concat]. by rewrite <-!(assoc_L (++)).
    + unfold body at 2. cbn [fmap list_fmap concat]. by rewrite <-!(assoc_L (++)).
    + cbn [run_records]. unfold io_bind. by rewrite Erec.
  - apply read_record_none in Er as ->. intros [= <- <- <- <-]. exists [].
    split_and!; [constructor|done|by rewrite app_nil_r|by rewrite N.add_0_r|done|done].
Qed.

Lemma check_footer_ok reader h c : (c ≤ u64_max)%N →
  check_footer reader h c = Ok tt ↔ reader = le_bytes 8 c ++ sha256 h.
Proof.
  intros Hc. assert (c < 256 ^ N.of_nat 8)%N as Hc' by (change (256 ^ N.of_nat 8)%N with (u64_max + 1)%N; lia).
  unfold check_footer. split.
  - intros ([b1 r1] & E1 & E)%rbind_ok. apply read_exact_ok in E1 as [-> L1].
    apply rbind_ok in E as ([b2 r2] & E2 & E). apply read_exact_ok in E2 as [-> L2].
    destruct (N.eqb_spec (le_value b1) c) as [<-|]; [|done]. cbn [negb] in E.
    destruct (bool_decide_reflect (sha256 h = b2)) as [<-|]; [|done]. cbn [negb] in E.
    destruct (bool_decide_reflect (r2 = [])) as [->|]; [|done]. rewrite app_nil_r.
    rewrite <-L1, le_bytes_le_value. done.
  - intros ->. rewrite read_exact_app by apply length_le_bytes. cbn [rbind].
    rewrite <-(app_nil_r (sha256 h)) at 1. rewrite read_exact_app by apply sha256_length. cbn [rbind].
    rewrite le_value_le_bytes_small by done. rewrite N.eqb_refl. cbn [negb]. by rewrite !bool_decide_true.
Qed.

Lemma length_body rs : length rs ≤ length (body rs).
Proof.
  induction rs as [|[k v] rs IH]; [done|]. unfold body. cbn [fmap list_fmap concat length]. rewrite length_app.
  fold (body rs). unfold body_of, record_bytes. rewrite !length_app, !length_le_bytes. lia.
Qed.

Lemma encode_decode rs file s : encode_records (Ok <$> rs) = Ok file →
  decode_records_sync record file s = run_records record rs s.
Proof.
  rewrite encode_records_ok. intros (Hok & Hl & ->). unfold decode_records_sync.
  rewrite read_exact_app by done. cbn [rbind fst snd]. rewrite bool_decide_true by done. cbn [negb].
  rewrite decode_loop_body; [|done|rewrite !length_app; pose proof (length_body rs); lia|lia].
  destruct (run_records record rs s) as [s' [[]|e]]; [|done]. rewrite N.add_0_l.
  by rewrite (proj2 (check_footer_ok _ _ _ Hl)).
Qed.

Lemma decode_encode_records file s s' : decode_records_sync record file s = (s', Ok tt) →
  ∃ rs, encode_records (Ok <$> rs) = Ok file ∧ run_records record rs s = (s', Ok tt).
Proof.
  unfold decode_records_sync. destruct (rbind _ _) as [reader|e] eqn:Em; [|done].
  apply rbind_ok in Em as ([m r] & E1 & E2). apply read_exact_ok in E1 as [-> _]. cbn [fst snd] in E2.
  destruct (bool_decide_reflect (m = MAGIC)) as [->|]; [|done]. injection E2 as ->.
  destruct (decode_loop _ _ _ _ _ _) as [[s1 [[[rest h] c]|e]]|] eqn:El; [|done..].
  apply decode_loop_sound in El as (rs & Hok & -> & -> & -> & Hc & Hrun). intros [= <- Hf].
  assert (0 + N.of_nat (length rs) ≤ u64_max)%N as Hl by (apply Hc; vm_compute; discriminate).
  apply check_footer_ok in Hf; [|done]. subst rest. exists rs. split; [|done].
  apply encode_records_ok. rewrite N.add_0_l in *. done.
Qed.

(** Decoding inverts encoding: on an encoded file the decoder runs its
    callback on exactly the encoded records, whatever the callback does, and the
    only files it accepts are encodings of the records it delivered. *)
Theorem snapshot_roundtrip file s :
  (∀ rs, encode_records (Ok <$> rs) = Ok file → decode_records_sync record file s = run_records record rs s) ∧
  (∀ s', decode_records_sync record file s = (s', Ok tt) →
     ∃ rs, encode_records (Ok <$> rs) = Ok file ∧ run_records record rs s = (s', Ok tt)).
Proof. split; [intros rs; apply encode_decode|intros s'; apply decode_encode_records]. Qed.

Lemma decode_loop_fuel fuel : ∀ reader h c s, length reader < fuel →
  ∃ r, ∀ more, decode_loop record (more + fuel) reader h c s = Some r.
Proof.
  induction fuel as [|fuel IH]; intros reader h c s Hf; [lia|].
  destruct (read_record reader) as [[[[[k v] b]|] r]|e] eqn:Er.
  - pose proof Er as (-> & _ & ->)%read_record_some. rewrite length_app in Hf.
    assert (length (body_of (k, v)) ≥ 8) as Hb.
    { unfold body_of, record_bytes. rewrite !length_app, !length_le_bytes. lia. }
    destruct (record k v s) as [s1 [[]|e]] eqn:Erec.
    2: { eexists. intros more. rewrite <-plus_n_Sm. cbn [decode_loop]. by rewrite Er, Erec. }
    destruct (checked_add u64_max c 1) as [c1|] eqn:Ec.
    2: { eexists. intros more. rewrite <-plus_n_Sm. cbn [decode_loop]. by rewrite Er, Erec, Ec. }
    destruct (IH r (h ++ body_of (k, v)) c1 s1) as [x Hx]; [lia|]. exists x. intros more.
    rewrite <-plus_n_Sm. cbn [decode_loop]. rewrite Er, Erec, Ec. apply Hx.
  - eexists. intros more. rewrite <-plus_n_Sm. cbn [decode_loop]. by rewrite Er.
  - eexists. intros more. rewrite <-plus_n_Sm. cbn [decode_loop]. by rewrite Er.
Qed.

(** The decoder terminates on every input, well formed or not: the fuel of
    [decode_records_sync] is never exhausted, and more fuel changes nothing. *)
Theorem decode_terminates reader h c s :
  ∃ r, ∀ more, decode_loop record (more + Datatypes.S (length reader)) reader h c s = Some r.
Proof. apply decode_loop_fuel. lia. Qed.

(** An invariant of the callback survives decoding, whatever the file. *)
Lemma decode_invariant (I : S → Prop) file s :
  (∀ k v s, I s → I (record k v s).1) → I s → I (decode_records_sync record file s).1.
Proof.
  intros Hrec Hs. unfold decode_records_sync. destruct (rbind _ _) as [reader|e]; [|done].
  destruct (decode_loop _ _ _ _ _ _) as [[s' r]|] eqn:El; [|done].
  assert (I s') as Hs'; [|by destruct r as [[[? ?] ?]|?]].
  revert El. generalize (Datatypes.S (length file)) as fuel. intros fuel. revert reader s Hs.
  generalize (@nil byte) as h. generalize 0%N as c. induction fuel as [|fuel IH]; intros c h reader s Hs; cbn [decode_loop]; [done|].
  destruct (read_record reader) as [[[[[k v] b]|] rr]|e]; [|by intros [= <- _]..].
  pose proof (Hrec k v s Hs) as Hs1. destruct (record k v s) as [s1 [[]|e]]; [|by intros [= <- _]].
  destruct (checked_add _ _ _) as [c1|]; [|by intros [= <- _]]. by apply IH.
Qed.
End proofs.
