(* ===== verification/Install.v ===== *)
(** * Building and installing snapshots

    [StateInstaller] of src/src/storage/rocks.rs fills a new state column
    family and switches the group's durable pointer to it; the snapshot half of
    the Raft state machines (src/src/partition/sm.rs, src/src/meta/sm.rs) builds
    a stream from one consistent view and installs a received one. Both state
    machines run the same code up to the wording of error contexts, so the
    wording is a parameter. The blocking task is run to completion; its loss is
    a crash of the process and not modelled here. *)

From S2P Require Import Prelude BTree Types Codec SearchDef Keyspace Outbox ApplyDurability Aio Rocks Storage DataSM SearchStore ApplyRaft Snapshot.

Record StateInstaller := mkInstaller {
  in_group : GroupId;
  in_name : string;
  in_batch : list BatchOp;
  in_last_key : option bytes;
  in_activated : bool;
}.

(** [SnapshotMeta] of openraft and the received or built file. *)
Record SnapshotMeta := mkSnapshotMeta {
  sn_last_log_id : option RaftLogId;
  sn_last_membership : StoredMembership;
  sn_snapshot_id : string;
}.

Definition BATCH_BYTES : N := 4 * 1024 * 1024.

(** What the environment decides during an install: the clock, whether the
    pending file writes can be flushed, which calls into the database fail
    (writes by their batch, creating the staging column family, flushing the
    write-ahead log, dropping the old and the abandoned column family), and
    whether old handles drain. A failing call changes nothing. *)
Record InstallEnv := mkInstallEnv {
  ie_now : N;
  ie_prepare : option string;
  ie_write : list BatchOp → option Error;
  ie_create : option Error;
  ie_flush_wal : option Error;
  ie_drained : bool;
  ie_drop : option Error;
  ie_abandon : option Error;
}.

Section install.
Context `{Rocks D} `{!Codec U64, !Codec U128, !Codec string, !Codec RaftApplied, !Codec SearchConsumerState} `{Hashes}.
Implicit Types (env : InstallEnv) (s : Storage D) (group : GroupId).

(** ** The installer *)

(** A call into the database that may fail. *)
Definition try_call {S} (fault : option Error) : io S unit := io_read (λ _, match fault with Some e => Err e | None => Ok tt end).

Definition staging_missing (name : string) : Error := Error_Corrupt name "snapshot staging CF disappeared".

(** [begin_state_install]. *)
Definition begin_state_install env group : io (Storage D) StateInstaller :=
  let? stored := io_read (λ s, or_zero (get_local U64 s (state_cf_generation_key group))) in
  let? generation := io_read (λ _, ok_or (checked_add u64_max stored 1)
                                     (Error_Config "snapshot state generation exhausted")) in
  try_call (ie_write env [BatchPut DEFAULT_CF (state_cf_generation_key group) (encode (generation : U64))]) ;;?
  put_local (T:=U64) (state_cf_generation_key group) generation ;;?
  let name := cf_state group +:+ "__snapshot_" +:+ pretty generation in
  let? exists_ := io_read (λ s, Ok (cf_exists (st_db s) name)) in
  if (exists_ : bool)
  then io_err (Error_Corrupt name "new snapshot state generation already exists")
  else try_call (ie_create env) ;;?
       io_modify (λ s, set_db (create_cf (st_db s) name) s) ;;?
       let? open := io_read (λ s, Ok (cf_exists (st_db s) name)) in
       if (open : bool) then io_ret (mkInstaller group name [] None false)
       else io_err (Error_Corrupt name "created snapshot state CF is missing").

Abbreviation install_state := (Storage D * StateInstaller)%type.

Definition set_batch (b : list BatchOp) (i : StateInstaller) : StateInstaller :=
  mkInstaller (in_group i) (in_name i) b (in_last_key i) (in_activated i).

(** [flush_batch]; the batch is taken before it is written. *)
Definition flush_batch env : io install_state unit := λ '(s, i),
  match in_batch i with
  | [] => ((s, i), Ok tt)
  | batch =>
      match ie_write env batch with
      | Some e => ((s, set_batch [] i), Err e)
      | None => ((set_db (write (st_db s) batch) s, set_batch [] i), Ok tt)
      end
  end.

(** [StateInstaller::put]. *)
Definition installer_put env (key value : bytes) : io install_state unit := λ '(s, i),
  let not_increasing := match in_last_key i with Some previous => bool_decide (bytes_le key previous) | None => false end in
  if not_increasing then ((s, i), Err (Error_Codec "snapshot state keys must be strictly increasing"))
  else if negb (cf_exists (st_db s) (in_name i)) then ((s, i), Err (staging_missing (in_name i)))
  else
    let batch := in_batch i ++ [BatchPut (in_name i) key value] in
    let i := mkInstaller (in_group i) (in_name i) batch (Some key) (in_activated i) in
    if (BATCH_BYTES <=? size_in_bytes (D:=D) batch)%N then flush_batch env (s, i) else ((s, i), Ok tt).

(** The pointer batch of [finish]. *)
Definition pointer_batch s (i : StateInstaller) (epoch : N) : Result (list BatchOp) :=
  let base := [BatchPut DEFAULT_CF local_recovery_epoch_key (encode (epoch : U128));
               BatchPut DEFAULT_CF (state_cf_pointer_key (in_group i)) (encode (in_name i))] in
  if is_data (in_group i) then
    let! current := search_projection_epoch s (in_group i) in
    let! next_epoch := ok_or (checked_add u64_max current 1) (Error_Search "search projection epoch exhausted") in
    Ok (base ++ [BatchPut DEFAULT_CF (search_epoch_key (in_group i)) (encode (next_epoch : U64))])
  else Ok base.

(** [retire_state_cf]; outstanding handles go away in time or not. *)
Definition retire_state_cf env (name : string) : io (Storage D) unit := λ s,
  if ie_drained env && cf_exists (st_db s) name
  then (try_call (ie_drop env) ;;? io_modify (λ s, set_db (drop_cf (st_db s) name) s)) s
  else (s, Ok tt).

(** A store computation of the installer. *)
Definition on_store {A} (m : io (Storage D) A) : io install_state A := λ '(s, i),
  let '(s, r) := m s in ((s, i), r).

(** [finish], up to the end of its body. *)
Definition finish env (applied_record : bytes) : io install_state unit :=
  let open := io_read (λ '(s, i), if cf_exists (st_db s) (in_name i) then Ok tt else Err (staging_missing (in_name i))) in
  open ;;?
  io_modify (λ '(s, i), (s, set_batch (in_batch i ++ [BatchPut (in_name i) raft_applied_key applied_record]) i)) ;;?
  flush_batch env ;;?
  try_call (ie_flush_wal env) ;;?
  open ;;?
  let? epoch := io_read (λ '(s, i), or_zero (decode_opt (T:=U128) (get_cf (st_db s) (in_name i) recovery_epoch_key))) in
  let? local_epoch := io_read (λ '(s, _), local_recovery_epoch s) in
  if negb (local_epoch =? 0)%N && negb (epoch =? local_epoch)%N
  then io_err (Error_Config "snapshot recovery epoch differs from local epoch")
  else
    let? old_name := λ '(s, i), on_store (active_state_cf_name_locked (in_group i)) (s, i) in
    let? old_cf := io_read (λ '(s, _), Ok (cf_exists (st_db s) old_name)) in
    let? pointer := io_read (λ '(s, i), pointer_batch s i epoch) in
    try_call (ie_write env pointer) ;;?
    io_modify (λ '(s, i),
      (set_active (<[in_group i := in_name i]> (st_active_state_cfs s)) (set_db (write (st_db s) pointer) s),
       mkInstaller (in_group i) (in_name i) (in_batch i) (in_last_key i) true)) ;;?
    λ '(s, i),
      if negb (bool_decide (old_name = in_name i)) && (old_cf : bool)
      then on_store (retire_state_cf env old_name) (s, i)
      else ((s, i), Ok tt).

(** [Drop for StateInstaller]. *)
Definition drop_installer env s (i : StateInstaller) : Storage D :=
  if negb (in_activated i) && cf_exists (st_db s) (in_name i) && bool_decide (ie_abandon env = None) then set_db (drop_cf (st_db s) (in_name i)) s else s.

(** ** The state machines' snapshot half *)

Definition validate_state_install (now : N) group (log_id : option RaftLogId) : io (Storage D) unit :=
  let? r := lift_apply (registry_validate_install now group log_id) in io_read (λ _, r).
Definition record_state_installed (now : N) group (log_id : option RaftLogId) : io (Storage D) unit :=
  io_modify (λ s, set_apply (registry_installed now group log_id (st_apply_durability s)) s).

(** Feed a stream to an installer, finish it and let it go out of scope. *)
Definition install_stream env (applied_record file : bytes) (installer : StateInstaller)
    : io (Storage D) unit := λ s,
  let '((s, i), r) :=
    (decode_records_sync (installer_put env) file ;;? finish env applied_record) (s, installer) in
  (drop_installer env s i, r).

(** The blocking task of [install_snapshot]. *)
Definition install_task env group (meta : SnapshotMeta) (file : bytes) : io (Storage D) unit :=
  validate_state_install (ie_now env) group (sn_last_log_id meta) ;;?
  let? installer := begin_state_install env group in
  install_stream env (encode (mkRaftApplied (sn_last_log_id meta) (sn_last_membership meta))) file installer ;;?
  record_state_installed (ie_now env) group (sn_last_log_id meta).

(** [install_snapshot]; [prefix] is the adapter's wording. *)
Definition install_snapshot (prefix : string) env group (meta : SnapshotMeta) (file : bytes)
    : aio (Storage D) unit :=
  or_poison (prefix +:+ "snapshot stream/install failed")
    (aio_io (io_read (λ _, match ie_prepare env with Some e => Err (Error_Io e) | None => Ok tt end))) ;;~
  or_poison (prefix +:+ "snapshot stream/install failed") (aio_io (install_task env group meta file)).

(** [state_snapshot] and [StateSnapshot::write_to]. *)
Definition snapshot_stream s group : Result bytes :=
  let! cf := state_cf s group in encode_records (Ok <$> iter_cf (st_db s) cf).

(** [wait_state_durable_for_snapshot], resolved after what other tasks do to the registry. *)
Definition wait_state_durable_for_snapshot (now started : N) (waited : list registry_op) group (log_id : RaftLogId)
    : aio (Storage D) unit := λ s,
  let '(r, p) := registry_wait_durable now started group log_id DurabilityWaitKind_Snapshot
                   (registry_run waited (st_apply_durability s)) in
  (set_apply r s, p).

(** [build_snapshot_now], with the adapter's [read_applied] and the text of a log id. *)
Definition build_snapshot_now (prefix : string) (read_applied : aio (Storage D) RaftApplied)
    (display_log_id : RaftLogId → string) (now started : N) (waited : list registry_op) group
    : aio (Storage D) (SnapshotMeta * bytes) :=
  let~ applied := read_applied in
  match ra_applied applied with
  | Some log_id => or_poison (prefix +:+ "snapshot durability fence failed")
                     (wait_state_durable_for_snapshot now started waited group log_id)
  | None => aio_ret tt
  end ;;~
  let~ file := or_poison (prefix +:+ "snapshot state stream failed")
                 (aio_io (io_read (λ s, snapshot_stream s group))) in
  let snapshot_id := match ra_applied applied with Some l => display_log_id l | None => "empty" end in
  aio_ret (mkSnapshotMeta (ra_applied applied) (ra_membership applied) snapshot_id, file).

(** [get_current_snapshot]. *)
Definition get_current_snapshot (prefix : string) (read_applied : aio (Storage D) RaftApplied)
    (display_log_id : RaftLogId → string) (now started : N) (waited : list registry_op) group
    : aio (Storage D) (option (SnapshotMeta * bytes)) :=
  let~ applied := read_applied in
  match ra_applied applied with
  | None => aio_ret None
  | Some _ => let~ snapshot := build_snapshot_now prefix read_applied display_log_id now started waited group in
              aio_ret (Some snapshot)
  end.
End install.
