(* ===== verification/DataSpec.v ===== *)
(** * Abstract specification of a data group

    A data group promises a versioned map with compare-and-set and an
    exactly-once stream per client. [AbsState] and [spec_step] state that
    contract on finite maps; [evaluate_spec] shows that the state machine of
    DataSM.v, which works on encoded records under byte keys, implements it
    for every reader that behaves like a byte map. *)

From S2P Require Import Prelude BTree Types Codec Keyspace ApplyDurability Rocks Storage DataSM.

Record AbsState := mkAbsState {
  as_epoch : N;
  as_kv : gmap bytes KeyRecord;
  as_seq : gmap N SeqRecord;
}.

Definition abs_init (epoch : N) : AbsState := mkAbsState epoch ∅ ∅.

(** The compare-and-set condition. *)
Definition cas_holds (current : option KeyRecord) (cond : option IfVersion) : bool :=
  match cond with
  | None => true
  | Some (IfVersion_Number v) => bool_decide (kr_version <$> current = Some v)
  | Some IfVersion_Absent => bool_decide (current = None)
  end.

Definition presence_of (current : option KeyRecord) : KeyPresence :=
  match current with Some r => KeyPresence_Present (kr_version r) | None => KeyPresence_Absent end.

Definition op_condition (op : DataOp) : option IfVersion :=
  match op with DataOp_Put _ _ c | DataOp_Delete _ c => c end.

(** The effect of an applied operation at a log index. *)
Definition op_effect (op : DataOp) (index : N) (kv : gmap bytes KeyRecord) : gmap bytes KeyRecord :=
  match op with
  | DataOp_Put k v _ => <[k := mkKeyRecord index v]> kv
  | DataOp_Delete k _ => delete k kv
  end.

Definition spec_decide (kv : gmap bytes KeyRecord) (op : DataOp) (index : N)
    : MutationResult * gmap bytes KeyRecord :=
  let current := kv !! op_key op in
  if cas_holds current (op_condition op)
  then (MutationResult_Applied index, op_effect op index kv)
  else (MutationResult_ConditionFailed (presence_of current), kv).

Definition malformed (op : DataOp) : bool := put_too_large op || delete_absent op.

(** What a client's stream says about a request. *)
Inductive gate :=
| gate_fresh
| gate_replay (r : MutationResult)
| gate_reject (r : RejectReason).

Definition stream_gate (rec : option SeqRecord) (sequence dg : N) : gate :=
  match rec with
  | None =>
      if (sequence =? 0)%N then gate_reject (RejectReason_StaleSequence 0 0)
      else if (sequence =? 1)%N then gate_fresh
      else gate_reject (RejectReason_SequenceGap 1 sequence)
  | Some r =>
      let highest := sq_highest r in
      if (sequence =? highest)%N
      then if (sq_digest r =? dg)%N then gate_replay (sq_result r) else gate_reject RejectReason_SequenceMismatch
      else if (sequence <? highest)%N then gate_reject (RejectReason_StaleSequence highest sequence)
      else if (sequence =? highest + 1)%N then gate_fresh
      else gate_reject (RejectReason_SequenceGap (highest + 1) sequence)
  end.

Section spec.
Context `{HashesOk} `{!Codec DataOp, !Codec KeyRecord, !Codec SeqRecord, !Codec U128}.

(** One committed entry. *)
Definition spec_step (a : AbsState) (req : DataRequest) (index : N) : ApplyResult * AbsState :=
  if negb (req_recovery_epoch req =? as_epoch a)%N
  then (ApplyResult_Rejected (RejectReason_RecoveryEpochMismatch (as_epoch a) (req_recovery_epoch req)), a)
  else if malformed (req_op req) then (ApplyResult_Rejected RejectReason_Malformed, a)
  else match stream_gate (as_seq a !! req_client_id req) (req_sequence req) (digest (req_op req)) with
  | gate_reject r => (ApplyResult_Rejected r, a)
  | gate_replay r => (ApplyResult_Replayed r, a)
  | gate_fresh =>
      let '(r, kv) := spec_decide (as_kv a) (req_op req) index in
      (ApplyResult_Decided r,
       mkAbsState (as_epoch a) kv
         (<[req_client_id req := mkSeqRecord (req_sequence req) (digest (req_op req)) r]> (as_seq a)))
  end.

(** ** Representation *)

(** A byte map [look] represents an abstract state. *)
Record abs_rep (look : bytes → option bytes) (a : AbsState) : Prop := {
  rep_kv k : decode_opt (look (user_key k)) = Ok (as_kv a !! k);
  rep_seq c : (c ≤ u128_max)%N → decode_opt (look (seq_key c)) = Ok (as_seq a !! c);
  rep_epoch : or_zero (decode_opt (T:=U128) (look recovery_epoch_key)) = Ok (as_epoch a);
  rep_wf k r : as_kv a !! k = Some r → wf r;
}.

(** A reader behaves like the byte map [look] on a group. *)
Definition reads_as {R} `{StateRead R} (reader : R) (group : GroupId) (look : bytes → option bytes) : Prop :=
  ∀ T (W : Wf T) (C : Codec T) key, read_state T reader group key = decode_opt (look key).

Lemma user_key_ne_seq k c : user_key k ≠ seq_key c.
Proof. done. Qed.
Lemma user_key_ne_epoch k : user_key k ≠ recovery_epoch_key.
Proof. done. Qed.
Lemma seq_key_ne_epoch c : seq_key c ≠ recovery_epoch_key.
Proof. done. Qed.

Lemma spec_decide_wf kv op index r kv' :
  spec_decide kv op index = (r, kv') → (∀ k v, kv !! k = Some v → wf v) → wf op → (index ≤ u64_max)%N →
  wf r ∧ (∀ k v, kv' !! k = Some v → wf v).
Proof.
  unfold spec_decide. intros E Hkv Hop Hi. destruct (cas_holds _ _); injection E as <- <-.
  - split; [done|]. intros k v. destruct op as [k' v' c|k' c]; simpl.
    + rewrite lookup_insert_Some. intros [[_ <-]|[_ ?]]; [|by eapply Hkv]. split; [done|]. apply Hop.
    + rewrite lookup_delete_Some. intros [_ ?]. by eapply Hkv.
  - split; [|done]. simpl. destruct (kv !! op_key op) as [v|] eqn:Ev; [|done]. simpl. by apply (Hkv _ _ Ev).
Qed.

Lemma version_matches_spec current v :
  version_matches current v = bool_decide (kr_version <$> current = Some v).
Proof.
  destruct current as [c|]; simpl; [|done]. destruct (N.eqb_spec (kr_version c) v) as [->|Hne].
  - by rewrite bool_decide_true.
  - rewrite bool_decide_false; naive_solver.
Qed.

(** The CAS decision and its mutation implement [spec_decide]. *)
Lemma decide_op_spec {R} `{StateRead R} (reader : R) group look a op index r kv' :
  reads_as reader group look → abs_rep look a → delete_absent op = false → wf op → (index ≤ u64_max)%N →
  spec_decide (as_kv a) op index = (r, kv') →
  ∃ m, decide_op group reader op index = Ok (r, m) ∧
    Forall (λ m, mutation_key m = user_key (op_key op)) (option_list m) ∧
    ∀ k, decode_opt (mutations_get (user_key k) (option_list m) (look (user_key k))) = Ok (kv' !! k).
Proof.
  intros Hr Hrep Hda Hop Hi. unfold spec_decide, decide_op, key_record.
  rewrite (Hr KeyRecord), (rep_kv _ _ Hrep). cbn [rbind].
  set (current := as_kv a !! op_key op).
  destruct op as [key v cond|key cond]; cbn [op_key op_condition op_effect] in *.
  - assert (match cond with None => true | Some (IfVersion_Number v) => version_matches current v
            | Some IfVersion_Absent => bool_decide (current = None) end = cas_holds current cond) as ->.
    { destruct cond as [[n|]|]; simpl; [apply version_matches_spec|done..]. }
    destruct (cas_holds current cond); intros [= <- <-]; simpl.
    + eexists. split; [done|]. split; [by repeat constructor|]. intros k. simpl.
      destruct (decide (key = k)) as [->|Hne].
      * rewrite decide_True by done. simpl. rewrite decode_encode by (split; [done|apply Hop]).
        by rewrite lookup_insert_eq.
      * rewrite decide_False by (by intros ?%user_key_inj). rewrite lookup_insert_ne by done. apply Hrep.
    + exists None. split; [by destruct current|]. split; [constructor|]. apply Hrep.
  - assert (match cond with None => true | Some (IfVersion_Number v) => version_matches current v
            | Some IfVersion_Absent => false end = cas_holds current cond) as ->.
    { destruct cond as [[n|]|]; simpl; [apply version_matches_spec|done..]. }
    destruct (cas_holds current cond); intros [= <- <-]; simpl.
    + eexists. split; [done|]. destruct current as [c|] eqn:Ec; simpl.
      * split; [by repeat constructor|]. intros k. simpl. destruct (decide (key = k)) as [->|Hne].
        -- rewrite decide_True by done. by rewrite lookup_delete_eq.
        -- rewrite decide_False by (by intros ?%user_key_inj). rewrite lookup_delete_ne by done. apply Hrep.
      * split; [constructor|]. intros k. simpl. rewrite (rep_kv _ _ Hrep). f_equal.
        symmetry. destruct (decide (key = k)) as [->|Hne]; [by rewrite lookup_delete_eq|by rewrite lookup_delete_ne].
    + exists None. split; [by destruct current|]. split; [constructor|]. apply Hrep.
Qed.

(** The mutations of an entry touch only user keys and sequence records. *)
Definition client_mutation (m : StateMutation) : Prop :=
  (∃ k, mutation_key m = user_key k) ∨ (∃ c, mutation_key m = seq_key c).

(** Updating the sequence record and the keys gives the new representation. *)
Lemma abs_rep_update look a ms c rec kv' :
  abs_rep look a → (c ≤ u128_max)%N → wf rec → Forall (λ m, ∃ k, mutation_key m = user_key k) ms →
  (∀ k, decode_opt (mutations_get (user_key k) ms (look (user_key k))) = Ok (kv' !! k)) →
  (∀ k r, kv' !! k = Some r → wf r) →
  abs_rep (λ k, mutations_get k (ms ++ [StateMutation_Put (seq_key c) (encode rec)]) (look k))
    (mkAbsState (as_epoch a) kv' (<[c := rec]> (as_seq a))).
Proof.
  intros Hrep Hc Hrec Hms Hkv Hwf.
  assert (∀ k, (∀ u, k ≠ user_key u) → ∀ o, mutations_get k ms o = o) as Hother.
  { intros k Hk o. apply mutations_get_none. eapply Forall_impl; [exact Hms|]. intros m [u ->] E. by apply (Hk u). }
  constructor; cbn [as_kv as_seq as_epoch].
  - intros k. rewrite mutations_get_app, mutations_get_one. cbn [mutation_key].
    rewrite decide_False by done. apply Hkv.
  - intros d Hd. rewrite mutations_get_app, Hother by done. rewrite mutations_get_one.
    cbn [mutation_key mutation_value]. destruct (decide (c = d)) as [->|Hne].
    + rewrite decide_True by done. cbn [decode_opt]. rewrite decode_encode by done. by rewrite lookup_insert_eq.
    + rewrite decide_False by (by intros ?%seq_key_inj). rewrite lookup_insert_ne by done. by apply Hrep.
  - rewrite mutations_get_app, Hother by done. rewrite mutations_get_one, decide_False by done. apply Hrep.
  - apply Hwf.
Qed.

Lemma digest_range op : (digest op ≤ u128_max)%N.
Proof. apply xxh3_128_range. Qed.

(** The sequence gate of [evaluate], as [stream_gate]. *)
Lemma evaluate_gate {R} `{StateRead R} (reader : R) group look a req index :
  reads_as reader group look → abs_rep look a → wf req →
  req_recovery_epoch req = as_epoch a → malformed (req_op req) = false →
  evaluate group reader req index =
  match stream_gate (as_seq a !! req_client_id req) (req_sequence req) (digest (req_op req)) with
  | gate_reject r => rejected r
  | gate_replay r => Ok (ApplyResult_Replayed r, [])
  | gate_fresh =>
      let! decided := decide_op group reader (req_op req) index in
      Ok (ApplyResult_Decided decided.1,
          option_list decided.2 ++
          [StateMutation_Put (seq_key (req_client_id req))
             (encode (mkSeqRecord (req_sequence req) (digest (req_op req)) decided.1))])
  end.
Proof.
  intros Hr Hrep (He & Hc & Hs & Hop) Ee [Hm1 Hm2]%orb_false_elim. unfold evaluate, seq_record.
  rewrite (Hr U128), (rep_epoch _ _ Hrep). cbn [rbind].
  rewrite Ee, N.eqb_refl, Hm1, Hm2. cbn [negb].
  rewrite (Hr SeqRecord), (rep_seq _ _ Hrep) by done. cbn [rbind]. unfold stream_gate.
  destruct (as_seq a !! req_client_id req) as [rec|].
  - destruct (N.eqb_spec (req_sequence req) (sq_highest rec)) as [E|Hne]; [by destruct (_ =? _)%N|].
    destruct (N.ltb_spec (req_sequence req) (sq_highest rec)); [done|].
    destruct (checked_add u64_max (sq_highest rec) 1) as [e|] eqn:Ea.
    2: { apply checked_add_None in Ea. lia. }
    apply checked_add_Some in Ea as [-> _].
    destruct (N.ltb_spec (sq_highest rec + 1) (req_sequence req));
      destruct (N.eqb_spec (req_sequence req) (sq_highest rec + 1)); try lia; done.
  - destruct (N.eqb_spec (req_sequence req) 0) as [->|Hne]; [done|].
    destruct (N.ltb_spec (req_sequence req) 0); [lia|].
    change (checked_add u64_max 0 1) with (Some 1%N). cbn iota.
    destruct (N.ltb_spec 1 (req_sequence req)); destruct (N.eqb_spec (req_sequence req) 1); try lia; done.
Qed.

(** [evaluate] implements [spec_step]: it decides the specified result, and
    its mutations take the representation to the specified next state. *)
Lemma evaluate_spec {R} `{StateRead R} (reader : R) group look a req index :
  reads_as reader group look → abs_rep look a → wf req → (index ≤ u64_max)%N →
  ∃ ms, evaluate group reader req index = Ok ((spec_step a req index).1, ms) ∧
    abs_rep (λ k, mutations_get k ms (look k)) (spec_step a req index).2 ∧
    Forall client_mutation ms ∧
    ((∀ r, (spec_step a req index).1 ≠ ApplyResult_Decided r) → ms = [] ∧ (spec_step a req index).2 = a).
Proof.
  intros Hr Hrep Hreq Hi. unfold spec_step.
  destruct (N.eqb_spec (req_recovery_epoch req) (as_epoch a)) as [Ee|Hne]; simpl.
  2: { exists []. split; [|done]. unfold evaluate. rewrite (Hr U128), (rep_epoch _ _ Hrep). cbn [rbind].
       by destruct (N.eqb_spec (req_recovery_epoch req) (as_epoch a)). }
  destruct (malformed (req_op req)) eqn:Em.
  { exists []. split; [|done]. unfold evaluate. rewrite (Hr U128), (rep_epoch _ _ Hrep). cbn [rbind].
    rewrite Ee, N.eqb_refl. cbn [negb]. apply orb_true_iff in Em as [->|E]; [done|]. rewrite E. by case_match. }
  rewrite (evaluate_gate reader group look a) by done.
  destruct (stream_gate _ _ _); [|by exists []..].
  destruct (spec_decide (as_kv a) (req_op req) index) as [r kv'] eqn:Ed.
  destruct Hreq as (He & Hc & Hs & Hop). apply orb_false_elim in Em as [_ Hda].
  destruct (decide_op_spec reader group look a _ _ _ _ Hr Hrep Hda Hop Hi Ed) as (m & -> & Hk & Hkv).
  destruct (spec_decide_wf _ _ _ _ _ Ed (rep_wf _ _ Hrep) Hop Hi) as [Hwr Hwkv]. cbn [rbind fst snd].
  eexists. split; [done|]. split; [|split].
  - apply abs_rep_update; [done|done| | |done|done].
    + split; [done|]. split; [apply digest_range|done].
    + eapply Forall_impl; [exact Hk|]. intros ? ->. eauto.
  - apply Forall_app. split; [|constructor; [right; by eexists|constructor]].
    eapply Forall_impl; [exact Hk|]. intros x Hx. left. eexists. exact Hx.
  - intros Hr'. by destruct (Hr' r).
Qed.

(** ** The store and the overlay as readers *)

Section readers.
Context `{RocksOk D} `{!Codec string, !Codec LogId}.

Lemma storage_reads_as (s : Storage D) group :
  is_ok (state_cf s group) = true → reads_as s group (state_map s group).
Proof.
  intros Hok T W C key. unfold read_state, storage_state_read, get_state_record, get_state, state_map.
  by destruct (state_cf s group).
Qed.

(** What a key reads as through the overlay. *)
Definition overlay_map (o : StateOverlay D) (group : GroupId) (key : bytes) : option bytes :=
  match ov_pending o !! key with Some v => v | None => state_map (ov_storage o) group key end.

Lemma overlay_reads_as (o : StateOverlay D) group :
  is_ok (state_cf (ov_storage o) group) = true → reads_as o group (overlay_map o group).
Proof.
  intros Hok T W C key. unfold read_state, overlay_state_read, overlay_map.
  destruct (ov_pending o !! key) as [[b|]|]; [done..|]. by apply storage_reads_as.
Qed.

Lemma foldl_stage_lookup (ms : list StateMutation) (p : gmap bytes (option bytes)) (k : bytes) (base : option bytes) :
  match foldl stage_one p ms !! k with Some v => v | None => base end =
  mutations_get k ms (match p !! k with Some v => v | None => base end).
Proof.
  revert p. induction ms as [|m ms IH]; intros p; [done|]. cbn [foldl]. rewrite IH.
  change (mutations_get k (m :: ms) ?x) with (mutations_get k ms (mutation_apply k x m)).
  f_equal. destruct m; simpl; (case_decide; [subst; by rewrite lookup_insert_eq|by rewrite lookup_insert_ne]).
Qed.

(** Staging mutations changes reads as writing them would. *)
Lemma overlay_map_stage (o : StateOverlay D) group ms k :
  overlay_map (stage o ms) group k = mutations_get k ms (overlay_map o group k).
Proof. apply foldl_stage_lookup. Qed.

(** Writing the collapsed overlay, in any order of its keys, gives what it reads as. *)
Lemma into_mutations_get (o : StateOverlay D) group ms k :
  ms ≡ₚ into_mutations o → mutations_get k ms (state_map (ov_storage o) group k) = overlay_map o group k.
Proof.
  intros Hms. unfold overlay_map.
  assert (NoDup (mutation_key <$> ms)) as Hnd.
  { rewrite Hms. unfold into_mutations. rewrite <-list_fmap_compose.
    erewrite list_fmap_ext; [apply NoDup_fst_map_to_list|]. intros i [k' v] _. simpl.
    unfold pending_mutation. by destruct v. }
  assert (∀ v, ov_pending o !! k = Some v ↔ pending_mutation (k, v) ∈ ms) as Hin.
  { intros v. rewrite Hms. unfold into_mutations. rewrite list_elem_of_fmap. split.
    - intros Hv. exists (k, v). split; [done|]. by apply elem_of_map_to_list.
    - intros ([k' v'] & E & Hv). apply elem_of_map_to_list in Hv.
      unfold pending_mutation in E; simpl in E. destruct v, v'; naive_solver. }
  destruct (ov_pending o !! k) as [v|] eqn:Ev.
  - assert (pending_mutation (k, v) ∈ ms) as (l1 & l2 & ->)%list_elem_of_split by (by apply Hin).
    rewrite mutations_get_app. change (mutations_get k (pending_mutation (k, v) :: l2) ?x)
      with (mutations_get k l2 (mutation_apply k x (pending_mutation (k, v)))).
    rewrite fmap_app, fmap_cons in Hnd. apply NoDup_app in Hnd as (_ & _ & Hnd).
    apply NoDup_cons in Hnd as [Hni _].
    rewrite mutations_get_none, mutation_apply_spec.
    + unfold pending_mutation; destruct v; simpl; by rewrite decide_True.
    + apply Forall_forall. intros m Hm E. apply Hni. apply list_elem_of_fmap. exists m. split; [|done].
      rewrite E. by destruct v.
  - apply mutations_get_none, Forall_forall. intros m Hm E.
    assert (pending_mutation (k, mutation_value m) ∈ ms) as Hx%Hin; [|congruence].
    by destruct m; simpl in *; subst.
Qed.
End readers.
End spec.
