(* ===== verification/Bincode.v ===== *)
(** * The bincode format (the crate behind src/src/codec.rs)

    bincode 1.x's default configuration as its documentation describes it:
    fixed-width little-endian integers, a u64 length before sequences and
    strings, a one-byte tag before options, a u32 index before enum variants,
    struct fields in declaration order, trailing input ignored on decoding.
    It gives the [Codec] instances the concrete evaluations run on; its byte
    vectors are those of the tests of types.rs. *)

From S2P Require Import Prelude BTree Types Codec SearchDef Keyspace Outbox ApplyDurability Rocks Storage DataSM SearchStore ApplyRaft.

#[local] Unset Program Cases.

(** A serializer, and a parser that consumes a prefix of its input. *)
Class Bin (A : Type) `{Wf A} := {
  put : A → bytes;
  get : bytes → option (A * bytes);
  get_put x rest : wf x → get (put x ++ rest) = Some (x, rest);
  put_length x : wf x → (1 ≤ length (put x))%nat;
}.

#[global] Program Instance bin_codec `{Bin A} : Codec A := {|
  encode := put;
  decode b := match get b with Some (x, _) => Ok x | None => Err (Error_Codec "malformed input") end;
|}.
Next Obligation.
  intros A ? ? x Hx. pose proof (get_put x [] Hx) as E. rewrite app_nil_r in E. simpl. by rewrite E.
Qed.

(** ** Fixed-width integers *)

Definition get_le (k : nat) (b : bytes) : option (N * bytes) :=
  if (k <=? length b)%nat then Some (le_value (take k b), drop k b) else None.

Lemma get_le_put k n rest : (n < 256 ^ N.of_nat k)%N → get_le k (le_bytes k n ++ rest) = Some (n, rest).
Proof.
  intros Hn. unfold get_le. rewrite length_app, length_le_bytes.
  destruct (Nat.leb_spec k (k + length rest)); [|lia].
  rewrite take_app_length', drop_app_length' by (by rewrite length_le_bytes).
  by rewrite le_value_le_bytes_small.
Qed.

#[global] Program Instance bin_byte_int : Bin U8 := {| put := le_bytes 1; get := get_le 1 |}.
Next Obligation. intros x rest Hx. apply get_le_put. unfold wf, U8_wf, u8_max in Hx. change (256 ^ N.of_nat 1)%N with 256%N. lia. Qed.
Next Obligation. intros x _. rewrite length_le_bytes. lia. Qed.
#[global] Program Instance bin_u16 : Bin U16 := {| put := le_bytes 2; get := get_le 2 |}.
Next Obligation. intros x rest Hx. apply get_le_put. unfold wf, U16_wf, u16_max in Hx. change (256 ^ N.of_nat 2)%N with 65536%N. lia. Qed.
Next Obligation. intros x _. rewrite length_le_bytes. lia. Qed.
#[global] Program Instance bin_u32 : Bin U32 := {| put := le_bytes 4; get := get_le 4 |}.
Next Obligation. intros x rest Hx. apply get_le_put. unfold wf, U32_wf, u32_max in Hx. change (256 ^ N.of_nat 4)%N with (2 ^ 32)%N. lia. Qed.
Next Obligation. intros x _. rewrite length_le_bytes. lia. Qed.
#[global] Program Instance bin_u64 : Bin U64 := {| put := le_bytes 8; get := get_le 8 |}.
Next Obligation. intros x rest Hx. apply get_le_put. unfold wf, U64_wf, u64_max in Hx. change (256 ^ N.of_nat 8)%N with (2 ^ 64)%N. lia. Qed.
Next Obligation. intros x _. rewrite length_le_bytes. lia. Qed.
#[global] Program Instance bin_u128 : Bin U128 := {| put := le_bytes 16; get := get_le 16 |}.
Next Obligation. intros x rest Hx. apply get_le_put. unfold wf, U128_wf, u128_max in Hx. change (256 ^ N.of_nat 16)%N with (2 ^ 128)%N. lia. Qed.
Next Obligation. intros x _. rewrite length_le_bytes. lia. Qed.

#[global] Program Instance bin_u8 : Bin byte := {|
  put b := [b];
  get b := match b with x :: rest => Some (x, rest) | [] => None end;
|}.
Next Obligation. done. Qed.
Next Obligation. intros; simpl; lia. Qed.

#[global] Program Instance bin_bool : Bin bool := {|
  put b := [if b then x01 else x00];
  get b := match b with x00 :: rest => Some (false, rest) | x01 :: rest => Some (true, rest) | _ => None end;
|}.
Next Obligation. by intros [] rest _. Qed.
Next Obligation. intros; simpl; lia. Qed.

(** ** Products, options, sequences, strings, arrays *)

#[global] Program Instance bin_prod `{Bin A, Bin B} : Bin (A * B) := {|
  put p := put p.1 ++ put p.2;
  get b := '(x, b) ← get b; '(y, b) ← get b; Some ((x, y), b);
|}.
Next Obligation.
  intros ?????? [x y] rest [Hx Hy]. simpl in *. rewrite <-(assoc_L (++)), get_put by done. simpl.
  by rewrite get_put.
Qed.
Next Obligation. intros ?????? [x y] [Hx Hy]. rewrite length_app. pose proof (put_length x Hx). simpl. lia. Qed.

#[global] Program Instance bin_option `{Bin A} : Bin (option A) := {|
  put o := match o with None => [x00] | Some x => x01 :: put x end;
  get b := match b with
    | x00 :: b => Some (None, b)
    | x01 :: b => '(x, b) ← get b; Some (Some x, b)
    | _ => None end;
|}.
Next Obligation. intros ??? [x|] rest Hx; [|done]. simpl. by rewrite get_put. Qed.
Next Obligation. intros ??? [x|]; simpl; lia. Qed.


(** Every element takes a byte, so the input length bounds the recursion. *)
Fixpoint get_many `{Bin A} (fuel : nat) (n : N) (b : bytes) : option (list A * bytes) :=
  if (n =? 0)%N then Some ([], b) else
  match fuel with
  | O => None
  | S fuel => '(x, b) ← get b; '(l, b) ← get_many fuel (n - 1) b; Some (x :: l, b)
  end.

Lemma get_many_put `{Bin A} (l : list A) rest fuel : Forall wf l → (length l ≤ fuel)%nat →
  get_many fuel (N.of_nat (length l)) (concat (put <$> l) ++ rest) = Some (l, rest).
Proof.
  intros Hl. revert fuel. induction Hl as [|x l Hx Hl IH]; intros fuel Hf; [by destruct fuel|].
  destruct fuel as [|fuel]; simpl in Hf; [lia|].
  cbn [get_many length]. destruct (N.eqb_spec (N.of_nat (S (length l))) 0); [lia|].
  cbn [fmap list_fmap concat]. rewrite <-(assoc_L (++)), get_put by done.
  cbn [mbind option_bind]. replace (N.of_nat (S (length l)) - 1)%N with (N.of_nat (length l)) by lia.
  by rewrite IH by lia.
Qed.

Lemma length_concat_put `{Bin A} (l : list A) :
  Forall wf l → (length l ≤ length (concat (put <$> l)))%nat.
Proof.
  induction 1 as [|x l Hx Hl IH]; cbn [fmap list_fmap concat length]; [lia|].
  rewrite length_app. pose proof (put_length x Hx). lia.
Qed.

#[global] Program Instance bin_list `{Bin A} : Bin (list A) := {|
  put l := put (A:=U64) (N.of_nat (length l)) ++ concat (put (A:=A) <$> l);
  get b := '(n, b) ← get (A:=U64) b; get_many (A:=A) (length b) n b;
|}.
Next Obligation.
  intros A ?? l rest [Hlen Hl]. rewrite <-(assoc_L (++)), get_put by exact Hlen. cbn [mbind option_bind].
  apply get_many_put; [done|]. rewrite length_app. pose proof (length_concat_put l Hl). lia.
Qed.
Next Obligation.
  intros A ?? l [Hl _]. cbn beta. rewrite length_app.
  pose proof (put_length (A:=U64) (N.of_nat (length l)) Hl). lia.
Qed.

#[global] Program Instance bin_string : Bin string := {|
  put s := put (A:=list byte) (as_bytes s);
  get b := '(l, b) ← get (A:=list byte) b; s ← from_utf8 l; Some (s, b);
|}.
Next Obligation.
  intros s rest [Hlen Hs]. rewrite get_put.
  - simpl. by rewrite from_utf8_as_bytes.
  - split; [unfold vec_len_ok; by rewrite length_as_bytes|]. by apply Forall_true.
Qed.
Next Obligation.
  intros s [Hlen _]. apply put_length.
  split; [unfold vec_len_ok; by rewrite length_as_bytes|]. by apply Forall_true.
Qed.

(** A fixed array [[u8; 32]] is written without a length. *)
Definition Digest32 := bytes.
#[global] Typeclasses Opaque Digest32.
#[global] Instance Digest32_wf : Wf Digest32 := λ d, length d = 32.
#[global] Program Instance bin_digest32 : Bin Digest32 := {|
  put d := d;
  get b := if decide (32 ≤ length b) then Some (take 32 b, drop 32 b) else None;
|}.
Next Obligation.
  intros d rest Hd. unfold wf, Digest32_wf in Hd. cbn beta. rewrite decide_True by (rewrite length_app; lia).
  by rewrite take_app_length', drop_app_length'.
Qed.
Next Obligation. intros d Hd. unfold wf, Digest32_wf in Hd. cbn beta. lia. Qed.

(** ** Structs and enums *)

(** A struct is serialized as the tuple of its fields. *)
Definition bin_iso {A B} `{Wf A, Bin B} (to : A → B) (from : B → A)
  (Hfrom : ∀ x, from (to x) = x) (Hwf : ∀ x, wf x → wf (to x)) : Bin A.
Proof.
  refine {| put x := put (to x); get b := '(y, b) ← get b; Some (from y, b) |}.
  - abstract (intros x rest Hx; rewrite get_put by auto; simpl; by rewrite Hfrom).
  - abstract (intros x Hx; apply put_length; auto).
Defined.

(** An enum is serialized as its u32 variant index followed by the fields. *)
Definition variant `{Bin A} (i : N) (fields : A) : bytes := put (A:=U32) i ++ put fields.
Definition unit_variant (i : N) : bytes := put (A:=U32) i.

Lemma get_tag i rest : (i ≤ u32_max)%N → get (A:=U32) (put (A:=U32) i ++ rest) = Some (i, rest).
Proof. intros Hi. by apply (get_put (A:=U32)). Qed.

Lemma bytes_wf (l : bytes) : vec_len_ok l → wf l.
Proof. intros. split; [done|]. by apply Forall_true. Qed.

(** Ranges of a tuple of fields from those of the record. *)
Ltac solve_wf :=
  first
  [ eassumption
  | apply bytes_wf; eassumption
  | match goal with
    | H : ?P |- _ => let P' := eval hnf in P in
        match P' with _ ∧ _ => destruct H as [? ?]; solve_wf end
    | |- ?G => let G' := eval hnf in G in
        match G' with _ ∧ _ => split; solve_wf end
    end
  | exact I | reflexivity ].

(** Round trip of an enum: one case per variant. *)
Ltac solve_enum :=
  let x := fresh "x" in
  intros x rest Hx; destruct x; unfold variant, unit_variant;
  rewrite <-?(assoc_L (++)), get_tag by (vm_compute; discriminate);
  cbn [mbind option_bind]; try done;
  match goal with |- context [get (put ?y ++ ?r)] => rewrite (get_put y r); [done|solve_wf] end.

Ltac solve_enum_length :=
  let x := fresh "x" in
  intros x Hx; clear Hx; destruct x; unfold variant, unit_variant; rewrite ?length_app; cbn [put bin_u32];
  rewrite length_le_bytes; lia.

#[global] Program Instance bin_GroupId : Bin GroupId := {|
  put g := match g with
    | GroupId_Meta => unit_variant 0
    | GroupId_Data p => variant 1 (p : U16) end;
  get b := '(i, b) ← get (A:=U32) b; match i with
    | 0%N => Some (GroupId_Meta, b)
    | 1%N => '(p, b) ← get (A:=U16) b; Some (GroupId_Data p, b)
    | _ => None end;
|}.
Next Obligation. solve_enum. Qed.
Next Obligation. solve_enum_length. Qed.

(** ** The records of types.rs *)

Ltac solve_struct := first [by intros [] | intros [] ?; solve_wf].

#[global] Instance bin_LogId : Bin LogId.
Proof.
  refine (bin_iso (B := U64 * U64) (λ l, (log_term l, log_index l)) (λ '(t, i), mkLogId t i) _ _);
    abstract solve_struct.
Defined.

#[global] Instance bin_RaftLogId : Bin RaftLogId.
Proof.
  refine (bin_iso (B := (U64 * U64) * U64) (λ l, ((rl_term l, rl_node l), rl_index l))
    (λ '((t, n), i), mkRaftLogId t n i) _ _); abstract solve_struct.
Defined.

#[global] Program Instance bin_IfVersion : Bin IfVersion := {|
  put i := match i with
    | IfVersion_Number v => variant 0 (v : U64)
    | IfVersion_Absent => unit_variant 1 end;
  get b := '(i, b) ← get (A:=U32) b; match i with
    | 0%N => '(v, b) ← get (A:=U64) b; Some (IfVersion_Number v, b)
    | 1%N => Some (IfVersion_Absent, b)
    | _ => None end;
|}.
Next Obligation. solve_enum. Qed.
Next Obligation. solve_enum_length. Qed.

#[global] Program Instance bin_DataOp : Bin DataOp := {|
  put op := match op with
    | DataOp_Put k v i => variant 0 (k, (v, i))
    | DataOp_Delete k i => variant 1 (k, i) end;
  get b := '(i, b) ← get (A:=U32) b; match i with
    | 0%N => '((k, (v, i)), b) ← get (A:=list byte * (list byte * option IfVersion)) b; Some (DataOp_Put k v i, b)
    | 1%N => '((k, i), b) ← get (A:=list byte * option IfVersion) b; Some (DataOp_Delete k i, b)
    | _ => None end;
|}.
Next Obligation. solve_enum. Qed.
Next Obligation. solve_enum_length. Qed.

#[global] Instance bin_DataRequest : Bin DataRequest.
Proof.
  refine (bin_iso (B := U128 * (U128 * (U64 * DataOp)))
    (λ r, (req_recovery_epoch r, (req_client_id r, (req_sequence r, req_op r))))
    (λ '(e, (c, (s, o))), mkDataRequest e c s o) _ _); abstract solve_struct.
Defined.

#[global] Program Instance bin_KeyPresence : Bin KeyPresence := {|
  put k := match k with
    | KeyPresence_Absent => unit_variant 0
    | KeyPresence_Present v => variant 1 (v : U64) end;
  get b := '(i, b) ← get (A:=U32) b; match i with
    | 0%N => Some (KeyPresence_Absent, b)
    | 1%N => '(v, b) ← get (A:=U64) b; Some (KeyPresence_Present v, b)
    | _ => None end;
|}.
Next Obligation. solve_enum. Qed.
Next Obligation. solve_enum_length. Qed.

#[global] Program Instance bin_MutationResult : Bin MutationResult := {|
  put m := match m with
    | MutationResult_Applied v => variant 0 (v : U64)
    | MutationResult_ConditionFailed c => variant 1 c end;
  get b := '(i, b) ← get (A:=U32) b; match i with
    | 0%N => '(v, b) ← get (A:=U64) b; Some (MutationResult_Applied v, b)
    | 1%N => '(c, b) ← get (A:=KeyPresence) b; Some (MutationResult_ConditionFailed c, b)
    | _ => None end;
|}.
Next Obligation. solve_enum. Qed.
Next Obligation. solve_enum_length. Qed.

#[global] Program Instance bin_HashAlgo : Bin HashAlgo := {|
  put x := match x with
    | HashAlgo_Xxh64 => unit_variant 0 end;
  get b := '(i, b) ← get (A:=U32) b; match i with
    | 0%N => Some (HashAlgo_Xxh64, b)
    | _ => None end;
|}.
Next Obligation. solve_enum. Qed.
Next Obligation. solve_enum_length. Qed.

#[global] Instance bin_HashSpec : Bin HashSpec.
Proof.
  refine (bin_iso (B := HashAlgo * U64)
    (λ r, (hs_algo r, hs_seed r))
    (λ '(x0, x1), mkHashSpec x0 x1) _ _); abstract solve_struct.
Defined.

#[global] Instance bin_ClusterConfig : Bin ClusterConfig.
Proof.
  refine (bin_iso (B := U128 * (U32 * (U16 * (U8 * HashSpec))))
    (λ r, (cc_cluster_id r, (cc_protocol_version r, (cc_p r, (cc_r r, cc_hash_spec r)))))
    (λ '(x0, (x1, (x2, (x3, x4)))), mkClusterConfig x0 x1 x2 x3 x4) _ _); abstract solve_struct.
Defined.

#[global] Instance bin_MovePlan : Bin MovePlan.
Proof.
  refine (bin_iso (B := U64 * (list U64 * bool))
    (λ r, (mp_plan_id r, (mp_target_voters r, mp_aborting r)))
    (λ '(x0, (x1, x2)), mkMovePlan x0 x1 x2) _ _); abstract solve_struct.
Defined.

#[global] Instance bin_Placement : Bin Placement.
Proof.
  refine (bin_iso (B := list U64 * (LogId * (option MovePlan)))
    (λ r, (pl_voters r, (pl_voters_log_id r, pl_move r)))
    (λ '(x0, (x1, x2)), mkPlacement x0 x1 x2) _ _); abstract solve_struct.
Defined.

#[global] Program Instance bin_NodeState : Bin NodeState := {|
  put x := match x with
    | NodeState_Active => unit_variant 0
    | NodeState_Suspect => unit_variant 1
    | NodeState_Down => unit_variant 2
    | NodeState_Draining => unit_variant 3 end;
  get b := '(i, b) ← get (A:=U32) b; match i with
    | 0%N => Some (NodeState_Active, b)
    | 1%N => Some (NodeState_Suspect, b)
    | 2%N => Some (NodeState_Down, b)
    | 3%N => Some (NodeState_Draining, b)
    | _ => None end;
|}.
Next Obligation. solve_enum. Qed.
Next Obligation. solve_enum_length. Qed.

#[global] Instance bin_NodeDirectoryEntry : Bin NodeDirectoryEntry.
Proof.
  refine (bin_iso (B := U64 * (string * (string * (NodeState * U64))))
    (λ r, (nd_node_id r, (nd_control_addr r, (nd_bulk_addr r, (nd_state r, nd_incarnation r)))))
    (λ '(x0, (x1, (x2, (x3, x4)))), mkNodeEntry x0 x1 x2 x3 x4) _ _); abstract solve_struct.
Defined.

#[global] Program Instance bin_MaintenanceStage : Bin MaintenanceStage := {|
  put x := match x with
    | MaintenanceStage_Preparing => unit_variant 0
    | MaintenanceStage_Quiesced => unit_variant 1
    | MaintenanceStage_Verifying => unit_variant 2
    | MaintenanceStage_Released => unit_variant 3 end;
  get b := '(i, b) ← get (A:=U32) b; match i with
    | 0%N => Some (MaintenanceStage_Preparing, b)
    | 1%N => Some (MaintenanceStage_Quiesced, b)
    | 2%N => Some (MaintenanceStage_Verifying, b)
    | 3%N => Some (MaintenanceStage_Released, b)
    | _ => None end;
|}.
Next Obligation. solve_enum. Qed.
Next Obligation. solve_enum_length. Qed.

#[global] Instance bin_MaintenanceRecord : Bin MaintenanceRecord.
Proof.
  refine (bin_iso (B := U128 * (U64 * (list U64 * (list U64 * (list U64 * (list (U64 * U64) * (list (U64 * Digest32) * (option Digest32 * (option U128 * MaintenanceStage)))))))))
    (λ r, (mr_operation_id r, (mr_generation r, (mr_participants r, (mr_acknowledged r, (mr_recovered r, (mr_recovery_processes r, (mr_recovery_policy_digests r, (mr_verification_policy_digest r, (mr_verification_recovery_epoch r, mr_stage r))))))))))
    (λ '(x0, (x1, (x2, (x3, (x4, (x5, (x6, (x7, (x8, x9))))))))), mkMaintenance x0 x1 x2 x3 x4 x5 x6 x7 x8 x9) _ _); abstract solve_struct.
Defined.

#[global] Instance bin_BootstrapGroup : Bin BootstrapGroup.
Proof.
  refine (bin_iso (B := U128 * (GroupId * (list U64)))
    (λ r, (bg_cluster_id r, (bg_group r, bg_members r)))
    (λ '(x0, (x1, x2)), mkBootstrapGroup x0 x1 x2) _ _); abstract solve_struct.
Defined.

#[global] Instance bin_LearnerAdmission : Bin LearnerAdmission.
Proof.
  refine (bin_iso (B := U128 * (GroupId * U64))
    (λ r, (la_cluster_id r, (la_group r, la_plan_id r)))
    (λ '(x0, (x1, x2)), mkLearnerAdmission x0 x1 x2) _ _); abstract solve_struct.
Defined.

#[global] Instance bin_RegistrationBinding : Bin RegistrationBinding.
Proof.
  refine (bin_iso (B := U128 * (U64 * (string * (string * U64))))
    (λ r, (rb_cluster_id r, (rb_node_id r, (rb_control_addr r, (rb_bulk_addr r, rb_directory_incarnation r)))))
    (λ '(x0, (x1, (x2, (x3, x4)))), mkRegistrationBinding x0 x1 x2 x3 x4) _ _); abstract solve_struct.
Defined.

#[global] Instance bin_DataConfigObservation : Bin DataConfigObservation.
Proof.
  refine (bin_iso (B := GroupId * (U64 * (list U64 * LogId)))
    (λ r, (ob_group r, (ob_plan_id r, (ob_voter_set r, ob_config_log_id r))))
    (λ '(x0, (x1, (x2, x3))), mkObservation x0 x1 x2 x3) _ _); abstract solve_struct.
Defined.

#[global] Program Instance bin_ServingState : Bin ServingState := {|
  put x := match x with
    | ServingState_Serving => unit_variant 0
    | ServingState_NonServing => unit_variant 1 end;
  get b := '(i, b) ← get (A:=U32) b; match i with
    | 0%N => Some (ServingState_Serving, b)
    | 1%N => Some (ServingState_NonServing, b)
    | _ => None end;
|}.
Next Obligation. solve_enum. Qed.
Next Obligation. solve_enum_length. Qed.

(** ** The records of the store and of the state machines *)

#[global] Instance bin_Identity : Bin Identity.
Proof.
  refine (bin_iso (B := U128 * U64)
    (λ r, (id_cluster_id r, id_node_id r))
    (λ '(x0, x1), mkIdentity x0 x1) _ _); abstract solve_struct.
Defined.

#[global] Instance bin_StoredMembership : Bin StoredMembership.
Proof.
  refine (bin_iso (B := option RaftLogId * (list (list U64) * (list (U64 * string))))
    (λ r, (sm_log_id r, (sm_configs r, sm_nodes r)))
    (λ '(x0, (x1, x2)), mkMembership x0 x1 x2) _ _); abstract solve_struct.
Defined.

#[global] Instance bin_RaftApplied : Bin RaftApplied.
Proof.
  refine (bin_iso (B := option RaftLogId * StoredMembership)
    (λ r, (ra_applied r, ra_membership r))
    (λ '(x0, x1), mkRaftApplied x0 x1) _ _); abstract solve_struct.
Defined.

#[global] Instance bin_KeyRecord : Bin KeyRecord.
Proof.
  refine (bin_iso (B := U64 * (list byte))
    (λ r, (kr_version r, kr_value r))
    (λ '(x0, x1), mkKeyRecord x0 x1) _ _); abstract solve_struct.
Defined.

#[global] Instance bin_SeqRecord : Bin SeqRecord.
Proof.
  refine (bin_iso (B := U64 * (U128 * MutationResult))
    (λ r, (sq_highest r, (sq_digest r, sq_result r)))
    (λ '(x0, (x1, x2)), mkSeqRecord x0 x1 x2) _ _); abstract solve_struct.
Defined.

#[global] Instance bin_IndexCheckpoint : Bin IndexCheckpoint.
Proof.
  refine (bin_iso (B := U64 * (Digest32 * (U32 * (option RaftLogId))))
    (λ r, (ck_projection_epoch r, (ck_definition_hash r, (ck_engine_revision r, ck_source_log_id r))))
    (λ '(x0, (x1, (x2, x3))), mkCheckpoint x0 x1 x2 x3) _ _); abstract solve_struct.
Defined.

#[global] Instance bin_SearchConsumerState : Bin SearchConsumerState.
Proof.
  refine (bin_iso (B := Digest32 * (U32 * (option IndexCheckpoint * (option (U64 * U64) * bool))))
    (λ r, (cs_definition_hash r, (cs_engine_revision r, (cs_checkpoint r, (cs_retention_floor r, cs_needs_rebuild r)))))
    (λ '(x0, (x1, (x2, (x3, x4)))), mkConsumer x0 x1 x2 x3 x4) _ _); abstract solve_struct.
Defined.

#[global] Program Instance bin_PathSegment : Bin PathSegment := {|
  put p := match p with
    | PathSegment_Key k => variant 0 k
    | PathSegment_Index i => variant 1 (i : U32) end;
  get b := '(i, b) ← get (A:=U32) b; match i with
    | 0%N => '(k, b) ← get (A:=string) b; Some (PathSegment_Key k, b)
    | 1%N => '(i, b) ← get (A:=U32) b; Some (PathSegment_Index i, b)
    | _ => None end;
|}.
Next Obligation. solve_enum. Qed.
Next Obligation. solve_enum_length. Qed.

#[global] Program Instance bin_FieldKind : Bin FieldKind := {|
  put k := match k with
    | FieldKind_Text t p => variant 0 (t, p)
    | FieldKind_Keyword => unit_variant 1
    | FieldKind_U64 => unit_variant 2
    | FieldKind_I64 => unit_variant 3
    | FieldKind_F64 => unit_variant 4
    | FieldKind_Bool => unit_variant 5
    | FieldKind_Date => unit_variant 6
    | FieldKind_Facet => unit_variant 7 end;
  get b := '(i, b) ← get (A:=U32) b; match i with
    | 0%N => '((t, p), b) ← get (A:=string * bool) b; Some (FieldKind_Text t p, b)
    | 1%N => Some (FieldKind_Keyword, b)
    | 2%N => Some (FieldKind_U64, b)
    | 3%N => Some (FieldKind_I64, b)
    | 4%N => Some (FieldKind_F64, b)
    | 5%N => Some (FieldKind_Bool, b)
    | 6%N => Some (FieldKind_Date, b)
    | 7%N => Some (FieldKind_Facet, b)
    | _ => None end;
|}.
Next Obligation. solve_enum. Qed.
Next Obligation. solve_enum_length. Qed.

#[global] Instance bin_SearchField : Bin SearchField.
Proof.
  refine (bin_iso (B := string * (list PathSegment * (FieldKind * (bool * (bool * (bool * (bool * bool)))))))
    (λ r, (sf_name r, (sf_source_path r, (sf_kind r, (sf_required r, (sf_multi_valued r, (sf_indexed r, (sf_stored r, sf_fast r))))))))
    (λ '(x0, (x1, (x2, (x3, (x4, (x5, (x6, x7))))))), mkSearchField x0 x1 x2 x3 x4 x5 x6 x7) _ _); abstract solve_struct.
Defined.

#[global] Instance bin_SearchIndexDefinition : Bin SearchIndexDefinition.
Proof.
  refine (bin_iso (B := string * (list SearchField * (list string)))
    (λ r, (sd_document_type r, (sd_fields r, sd_default_search_fields r)))
    (λ '(x0, (x1, x2)), mkSearchDefinition x0 x1 x2) _ _); abstract solve_struct.
Defined.

#[global] Instance bin_SearchIndexGeneration : Bin SearchIndexGeneration.
Proof.
  refine (bin_iso (B := U64 * (Digest32 * (U32 * SearchIndexDefinition)))
    (λ r, (sg_id r, (sg_definition_hash r, (sg_engine_revision r, sg_definition r))))
    (λ '(x0, (x1, (x2, x3))), mkSearchGeneration x0 x1 x2 x3) _ _); abstract solve_struct.
Defined.

#[global] Instance bin_SearchIndexRecord : Bin SearchIndexRecord.
Proof.
  refine (bin_iso (B := string * (option SearchIndexGeneration * (option SearchIndexGeneration * (list U64))))
    (λ r, (sr_name r, (sr_active r, (sr_building r, sr_retiring r))))
    (λ '(x0, (x1, (x2, x3))), mkSearchRecord x0 x1 x2 x3) _ _); abstract solve_struct.
Defined.

#[global] Instance bin_SearchIndexReady : Bin SearchIndexReady.
Proof.
  refine (bin_iso (B := U64 * (Digest32 * (U32 * (GroupId * (U64 * (LogId * (U64 * LogId)))))))
    (λ r, (ry_generation r, (ry_definition_hash r, (ry_engine_revision r, (ry_group r, (ry_node_id r, (ry_voters_log_id r, (ry_projection_epoch r, ry_source_log_id r))))))))
    (λ '(x0, (x1, (x2, (x3, (x4, (x5, (x6, x7))))))), mkSearchReady x0 x1 x2 x3 x4 x5 x6 x7) _ _); abstract solve_struct.
Defined.

(** The canonical bytes pinned by the tests of types.rs. *)
Example bytes_of_put :
  put (DataOp_Put [x6b] [x76] None) =
  byte_of_N <$> [0;0;0;0; 1;0;0;0;0;0;0;0; 107; 1;0;0;0;0;0;0;0; 118; 0]%N.
Proof. reflexivity. Qed.

Example bytes_of_delete :
  put (DataOp_Delete [x6b] (Some (IfVersion_Number 7))) =
  byte_of_N <$> [1;0;0;0; 1;0;0;0;0;0;0;0; 107; 1; 0;0;0;0; 7;0;0;0;0;0;0;0]%N.
Proof. reflexivity. Qed.

Example bytes_of_create :
  put (DataOp_Put [x6b] [x76] (Some IfVersion_Absent)) =
  byte_of_N <$> [0;0;0;0; 1;0;0;0;0;0;0;0; 107; 1;0;0;0;0;0;0;0; 118; 1; 1;0;0;0]%N.
Proof. reflexivity. Qed.

(** ** openraft's entries *)

#[global] Instance bin_Membership : Bin Membership.
Proof.
  refine (bin_iso (B := list (list U64) * list (U64 * string))
    (λ r, (mb_configs r, mb_nodes r)) (λ '(x0, x1), mkMembershipConfig x0 x1) _ _); abstract solve_struct.
Defined.

#[global] Program Instance bin_EntryPayload `{Bin R} : Bin (EntryPayload R) := {|
  put p := match p with
    | EntryPayload_Blank => unit_variant 0
    | EntryPayload_Normal req => variant 1 req
    | EntryPayload_Membership m => variant 2 m end;
  get b := '(i, b) ← get (A:=U32) b; match i with
    | 0%N => Some (EntryPayload_Blank, b)
    | 1%N => '(req, b) ← get (A:=R) b; Some (EntryPayload_Normal req, b)
    | 2%N => '(m, b) ← get (A:=Membership) b; Some (EntryPayload_Membership m, b)
    | _ => None end;
|}.
Next Obligation. intros R ? ?. solve_enum. Qed.
Next Obligation. intros R ? ?. solve_enum_length. Qed.

#[global] Instance bin_RaftEntry `{Bin R} : Bin (RaftEntry R).
Proof.
  refine (bin_iso (B := RaftLogId * EntryPayload R)
    (λ r, (en_log_id r, en_payload r)) (λ '(x0, x1), mkEntry x0 x1) _ _); abstract solve_struct.
Defined.
