(* ===== verification/Oracles.v ===== *)
(** * Whole-run oracles (src/src/verify/oracles.rs)

    The exactly-once, convergence and lost-write checks, and what passing each
    of them means. *)

From S2P Require Import Prelude BTree Types.

Record Applied := mkApplied {
  ap_client_id : N;
  ap_partition : N;
  ap_sequence : N;
  ap_digest : N;
  ap_fresh : bool;
}.

Definition applied_key (a : Applied) : N * N * N := (ap_client_id a, ap_partition a, ap_sequence a).

(** The loop of [exactly_once] over the remaining entries. *)
Fixpoint exactly_once_from (seen : gmap (N * N * N) (N * bool)) (applied : list Applied) : result string unit :=
  match applied with
  | [] => Ok tt
  | a :: applied =>
      let key := applied_key a in
      match seen !! key with
      | Some (digest, fresh_seen) =>
          if negb (digest =? ap_digest a)%N then Err "sequence applied for two different commands"
          else if fresh_seen && ap_fresh a then Err "sequence was reported as freshly decided more than once"
          else exactly_once_from (<[key := (digest, fresh_seen || ap_fresh a)]> seen) applied
      | None => exactly_once_from (<[key := (ap_digest a, ap_fresh a)]> seen) applied
      end
  end.

(** [exactly_once]. *)
Definition exactly_once (applied : list Applied) : result string unit := exactly_once_from ∅ applied.

Record PartitionState := mkPartitionState {
  ps_partition : N;
  ps_meta_voters : list NodeId;
  ps_data_voters : list NodeId;
  ps_plan : option bool;
}.

(** [converged]; voter sets are ascending lists. *)
Fixpoint converged (states : list PartitionState) : result string unit :=
  match states with
  | [] => Ok tt
  | s :: states =>
      if negb (bool_decide (ps_meta_voters s = ps_data_voters s)) then Err "partition diverged"
      else match ps_plan s with
      | Some false => Err "partition left with a live non-aborting plan"
      | _ => converged states
      end
  end.

(** [no_lost_write]. *)
Fixpoint no_lost_write (acknowledged : list (bytes * N)) (final_state : gmap bytes N) : result string unit :=
  match acknowledged with
  | [] => Ok tt
  | (key, acked_version) :: acknowledged =>
      match final_state !! key with
      | Some final_version =>
          if (acked_version <=? final_version)%N then no_lost_write acknowledged final_state
          else Err "key regressed"
      | None => Err "key acked but absent at end"
      end
  end.

(** ** What [exactly_once] decides *)

(** Entries of one key agree on the digest and at most one is fresh. *)
Definition once_per_key (l : list Applied) : Prop :=
  ∀ i j a b, (i < j)%nat → l !! i = Some a → l !! j = Some b → applied_key a = applied_key b →
    ap_digest a = ap_digest b ∧ (ap_fresh a && ap_fresh b) = false.

(** What the map remembers of the entries already read. *)
Definition remembers (seen : gmap (N * N * N) (N * bool)) (done_ : list Applied) : Prop :=
  ∀ k, match seen !! k with
       | Some (d, f) => (∀ a, a ∈ done_ → applied_key a = k → ap_digest a = d) ∧
                        (∃ a, a ∈ done_ ∧ applied_key a = k) ∧
                        (f = true ↔ ∃ a, a ∈ done_ ∧ applied_key a = k ∧ ap_fresh a = true)
       | None => ∀ a, a ∈ done_ → applied_key a ≠ k
       end.

Lemma once_per_key_snoc l a :
  once_per_key (l ++ [a]) ↔ once_per_key l ∧
    ∀ b, b ∈ l → applied_key b = applied_key a → ap_digest b = ap_digest a ∧ (ap_fresh b && ap_fresh a) = false.
Proof.
  split.
  - intros H. split.
    + intros i j x y Hij Hi Hj. apply (H i j); [done|by apply lookup_app_l_Some..].
    + intros b [i Hi]%list_elem_of_lookup. apply (H i (length l)).
      * by eapply lookup_lt_Some.
      * by apply lookup_app_l_Some.
      * by rewrite lookup_app_r, Nat.sub_diag by lia.
  - intros [H1 H2] i j x y Hij Hi Hj.
    apply lookup_app_Some in Hj as [Hj|[Hle Hj]].
    + apply lookup_lt_Some in Hj as Hlt. rewrite lookup_app_l in Hi by lia. by apply (H1 i j).
    + destruct (j - length l)%nat as [|n] eqn:E; [|by rewrite lookup_cons, lookup_nil in Hj].
      injection Hj as <-. rewrite lookup_app_l in Hi by lia. apply H2. by eapply list_elem_of_lookup_2.
Qed.

(** The three ways one entry extends what is remembered. *)
Lemma remembers_insert seen l a d f :
  remembers seen l →
  match seen !! applied_key a with
  | Some (d', f') => d' = ap_digest a ∧ d = d' ∧ f = f' || ap_fresh a
  | None => d = ap_digest a ∧ f = ap_fresh a
  end →
  remembers (<[applied_key a := (d, f)]> seen) (l ++ [a]).
Proof.
  intros Hr Hs k. destruct (decide (applied_key a = k)) as [<-|Hne].
  - rewrite lookup_insert_eq. specialize (Hr (applied_key a)). 
    setoid_rewrite elem_of_app. setoid_rewrite list_elem_of_singleton.
    destruct (seen !! applied_key a) as [[d' f']|].
    + destruct Hs as (-> & -> & ->). destruct Hr as (H1 & (b & Hb & Eb) & H3). split_and!.
      * intros x [Hx| ->] E; [by apply H1|done].
      * exists a. auto.
      * rewrite orb_true_iff, H3. split.
        -- intros [(x & Hx & E & F)|F]; [exists x; auto|exists a; auto].
        -- intros (x & [Hx| ->] & E & F); [left; exists x; auto|by right].
    + destruct Hs as [-> ->]. split_and!.
      * intros x [Hx| ->] E; [by destruct (Hr x Hx)|done].
      * exists a. auto.
      * split; [intros; exists a; auto|]. intros (x & [Hx| ->] & E & F); [by destruct (Hr x Hx)|done].
  - rewrite lookup_insert_ne by done. specialize (Hr k).
    assert (∀ x, x ∈ l ++ [a] → applied_key x = k → x ∈ l) as Hin.
    { intros x [?| ->%list_elem_of_singleton]%elem_of_app E; done. }
    destruct (seen !! k) as [[d' f']|].
    + destruct Hr as (H1 & (b & Hb & Eb) & H3). split_and!.
      * intros x Hx E. auto.
      * exists b. split; [|done]. apply elem_of_app. by left.
      * rewrite H3. split; intros (x & Hx & E & F); exists x; [|by auto].
        split; [|done]. apply elem_of_app. by left.
    + intros x Hx E. by apply (Hr x); [apply Hin|].
Qed.

Lemma exactly_once_from_spec seen done_ l :
  remembers seen done_ → once_per_key done_ →
  exactly_once_from seen l = Ok tt ↔ once_per_key (done_ ++ l).
Proof.
  revert seen done_. induction l as [|a l IH]; intros seen done_ Hr Ho; simpl.
  { by rewrite app_nil_r. }
  change (a :: l) with ([a] ++ l). rewrite (assoc_L (++)).
  assert (once_per_key ((done_ ++ [a]) ++ l) → once_per_key (done_ ++ [a])) as Hpre.
  { intros H i j x y Hij Hi Hj. apply (H i j); [done|by apply lookup_app_l_Some..]. }
  pose proof (once_per_key_snoc done_ a) as Hsnoc. pose proof (Hr (applied_key a)) as Hk.
  destruct (seen !! applied_key a) as [[d f]|] eqn:Es.
  - destruct Hk as (H1 & (b & Hb & Eb) & H3).
    destruct (N.eqb_spec d (ap_digest a)) as [->|Hne]; cbn [negb].
    2: { split; [done|]. intros H. apply Hpre, Hsnoc in H as [_ H]. destruct (H b Hb Eb) as [Ed _].
         rewrite (H1 b Hb Eb) in Ed. done. }
    destruct (f && ap_fresh a) eqn:Ef.
    + split; [done|]. intros H. apply Hpre, Hsnoc in H as [_ H].
      apply andb_true_iff in Ef as [Ef Efa]. apply H3 in Ef as (c & Hc & Ec & Fc).
      destruct (H c Hc Ec) as [_ Hf]. by rewrite Fc, Efa in Hf.
    + apply IH.
      * apply remembers_insert; [done|]. by rewrite Es.
      * apply Hsnoc. split; [done|]. intros c Hc Ec. split; [by apply H1|].
        destruct (ap_fresh c) eqn:Fc; [|done]. assert (f = true) as -> by (apply H3; eauto). done.
  - apply IH.
    + apply remembers_insert; [done|]. by rewrite Es.
    + apply Hsnoc. split; [done|]. intros c Hc Ec. by destruct (Hk c Hc).
Qed.

Lemma exactly_once_spec l : exactly_once l = Ok tt ↔ once_per_key l.
Proof.
  unfold exactly_once. rewrite (exactly_once_from_spec ∅ [] l); [done| |].
  - intros k. rewrite lookup_empty. intros a Ha. set_solver.
  - intros i j a b _ Hi. by rewrite lookup_nil in Hi.
Qed.

Lemma once_per_key_cons a l :
  once_per_key l →
  (∀ b, b ∈ l → applied_key a = applied_key b → ap_digest a = ap_digest b ∧ (ap_fresh a && ap_fresh b) = false) →
  once_per_key (a :: l).
Proof.
  intros H1 H2 [|i] [|j] x y Hij Hi Hj; simpl in *; [lia| |lia|].
  - injection Hi as <-. apply H2. by eapply list_elem_of_lookup_2.
  - apply (H1 i j); [lia|done|done].
Qed.

Lemma once_per_key_nil : once_per_key [].
Proof. intros i j a b _ Hi. by rewrite lookup_nil in Hi. Qed.
