(* ===== verification/Demo.v ===== *)
(** * Concrete parameters

    Small total functions in the place of the hash crates, and an empty
    in-memory store: what the concrete evaluations of the theorems run on. *)

From S2P Require Import Prelude BTree Types Codec Keyspace ApplyDurability Rocks Storage DataSM Bincode.

Definition sum_bytes (l : bytes) : N := foldr (λ b n, Byte.to_N b + 31 * n)%N 7%N l.

#[global] Instance demo_hashes : Hashes := {|
  xxh64 l seed := ((sum_bytes l + seed) mod (u64_max + 1))%N;
  xxh3_128 l := (sum_bytes l mod (u128_max + 1))%N;
  sha256 l := le_bytes 32 (sum_bytes l);
|}.

#[global] Instance demo_hashes_ok : HashesOk.
Proof.
  split; cbn [xxh64 xxh3_128 sha256 demo_hashes].
  - intros l seed. pose proof (N.mod_upper_bound (sum_bytes l + seed) (u64_max + 1)). unfold u64_max in *. lia.
  - intros l. pose proof (N.mod_upper_bound (sum_bytes l) (u128_max + 1)). unfold u128_max in *. lia.
  - intros l. apply length_le_bytes.
Qed.

(** A pair from its parts, one of them computed. *)
Lemma pair_snd {A B} (p : A * B) b : p.2 = b → p = (p.1, b).
Proof. destruct p. by intros <-. Qed.

(** A freshly opened directory. *)
Definition empty_storage : Storage MemDb :=
  mkStorage ∅ ∅ (registry_with_limits 1 ApplyDurabilityLimits_default).

Lemma empty_storage_cache_ok : cache_ok empty_storage.
Proof. intros g n. simpl. by rewrite lookup_empty. Qed.
