(* ===== verification/DataProofs.v ===== *)
(** * Correctness of a data group

    The committed entries of one data group, applied one by one: refinement of
    the abstract machine, exactly-once application, version discipline. *)

From S2P Require Import Prelude BTree Types Codec Keyspace ApplyDurability Rocks Storage DataSM DataSpec Bincode Demo Oracles.

(** The empty group: nothing stored under a freshly created state column family. *)
Lemma abs_rep_empty `{Hashes} `{!Codec DataOp, !Codec KeyRecord, !Codec SeqRecord, !Codec U128} look :
  (∀ k, look k = None) → abs_rep look (abs_init 0).
Proof.
  intros Hl. constructor; simpl.
  - intros k. by rewrite Hl, lookup_empty.
  - intros c _. by rewrite Hl, lookup_empty.
  - by rewrite Hl.
  - intros k r. by rewrite lookup_empty.
Qed.

(** The representation does not see the singletons of the state machine. *)
Lemma abs_rep_ext `{Hashes} `{!Codec DataOp, !Codec KeyRecord, !Codec SeqRecord, !Codec U128} look look' a :
  (∀ k, k ≠ last_applied_key → k ≠ raft_applied_key → look' k = look k) → abs_rep look a → abs_rep look' a.
Proof.
  intros He Hr. constructor.
  - intros k. rewrite He by done. apply Hr.
  - intros c Hc. rewrite He by done. by apply Hr.
  - rewrite He by done. apply Hr.
  - apply Hr.
Qed.

Section group.
Context `{RocksOk D} `{HashesOk} `{!Codec DataOp, !Codec KeyRecord, !Codec SeqRecord, !Codec U128}
  `{!Codec string, !Codec LogId}.

(** A store whose group's state column family represents [a]. *)
Record represents (s : Storage D) (group : GroupId) (a : AbsState) : Prop := {
  rp_cache : cache_ok s;
  rp_open : is_ok (state_cf s group) = true;
  rp_rep : abs_rep (state_map s group) a;
}.

(** Applying an entry is one atomic write of the mutations it decides. *)
Lemma data_apply_exec (s : Storage D) group a req index :
  represents s group a → wf req → (index ≤ u64_max)%N →
  ∃ ms s', data_apply group req index s = (s', Ok (spec_step a req index).1) ∧
    apply_state group ms (standalone_log_id index) s = (s', Ok tt) ∧
    abs_rep (λ k, mutations_get k ms (state_map s group k)) (spec_step a req index).2.
Proof.
  intros [Hc Ho Hrep] Hreq Hi.
  destruct (evaluate_spec s group (state_map s group) a req index) as (ms & Hev & Hrep' & Hms & _);
    [by apply storage_reads_as|done..|].
  destruct (apply_state group ms (standalone_log_id index) s) as [s' r] eqn:Hap.
  assert (r = Ok tt) as -> by (pose proof (apply_state_ok s group ms (standalone_log_id index) Ho); by rewrite Hap in *).
  exists ms, s'. split; [|done]. unfold data_apply, io_bind, io_read. rewrite Hev. simpl. by rewrite Hap.
Qed.

(** C1: refinement. On any store that represents an abstract state, applying a
    committed entry succeeds, returns exactly the result the abstract versioned
    map and client streams prescribe, leaves a store that represents the
    prescribed next state, records the entry as last applied, and changes no
    other group. A rejected or replayed entry changes no client state. *)
Theorem data_apply_refines (s : Storage D) group a req index :
  represents s group a → wf req → (index ≤ u64_max)%N →
  ∃ s', data_apply group req index s = (s', Ok (spec_step a req index).1) ∧
    represents s' group (spec_step a req index).2 ∧
    last_applied s' group = Ok (Some (standalone_log_id index)) ∧
    ∀ h k, h ≠ group → get_state s' h k = get_state s h k.
Proof.
  intros Hr Hreq Hi. destruct (data_apply_exec s group a req index Hr Hreq Hi) as (ms & s' & E & Hap & Hrep').
  destruct (apply_state_map s s' group ms _ (rp_cache _ _ _ Hr) Hap) as (Hc' & Ho' & Hmap & Hla & Hother).
  exists s'. split; [done|split; [|split; [|exact Hother]]].
  - constructor; [done..|]. eapply abs_rep_ext; [|exact Hrep']. intros k Hk _. by apply Hmap.
  - unfold last_applied, get_state_record, get_state. unfold state_map in Hla.
    destruct (state_cf s' group) as [cf|]; [|done]. simpl. rewrite Hla. simpl.
    rewrite decode_encode; [done|]. split; simpl; [|done]. unfold u64_max. lia.
Qed.
End group.

Definition demo_store : Storage MemDb :=
  set_db (create_cf (∅ : MemDb) (cf_state (GroupId_Data 1))) empty_storage.
Definition demo_put_req (seq : N) : DataRequest :=
  mkDataRequest 0 5 seq (DataOp_Put [x6b] [x76] (Some IfVersion_Absent)).

Lemma demo_store_represents : represents demo_store (GroupId_Data 1) (abs_init 0).
Proof.
  constructor; [intros g n; simpl; by rewrite lookup_empty|vm_compute; reflexivity|].
  apply abs_rep_empty. intros k.
  assert (state_cf demo_store (GroupId_Data 1) = Ok (cf_state (GroupId_Data 1))) as E by (vm_compute; reflexivity).
  unfold state_map. rewrite E. apply get_create. vm_compute. reflexivity.
Qed.

Lemma data_apply_refines_witness :
  ∃ s', data_apply (GroupId_Data 1) (demo_put_req 1) 9 demo_store =
          (s', Ok (ApplyResult_Decided (MutationResult_Applied 9))).
Proof.
  destruct (data_apply_refines demo_store (GroupId_Data 1) (abs_init 0) (demo_put_req 1) 9) as (s' & E & _).
  - apply demo_store_represents.
  - repeat split; vm_compute; discriminate.
  - vm_compute. discriminate.
  - exists s'. rewrite E. reflexivity.
Defined.

(** ** Logs of committed entries *)

Section runs.
Context `{HashesOk} `{!Codec DataOp, !Codec KeyRecord, !Codec SeqRecord, !Codec U128}.

(** The abstract machine over a log of (request, index) entries. *)
Fixpoint spec_run (a : AbsState) (log : list (DataRequest * N)) : list ApplyResult * AbsState :=
  match log with
  | [] => ([], a)
  | (req, index) :: log =>
      let '(r, a) := spec_step a req index in
      let '(rs, a) := spec_run a log in (r :: rs, a)
  end.

(** What the exactly-once oracle records of one applied entry. *)
Definition observed (partition : N) (req : DataRequest) (r : ApplyResult) : list Applied :=
  match r with
  | ApplyResult_Decided _ =>
      [mkApplied (req_client_id req) partition (req_sequence req) (digest (req_op req)) true]
  | ApplyResult_Replayed _ =>
      [mkApplied (req_client_id req) partition (req_sequence req) (digest (req_op req)) false]
  | _ => []
  end.

Definition trace (partition : N) (log : list (DataRequest * N)) (rs : list ApplyResult) : list Applied :=
  concat (zip_with (λ e r, observed partition e.1 r) log rs).

(** An observation against a client's recorded stream: beyond it, or a repeat
    of its last command. *)
Definition follows (a : AbsState) (x : Applied) : Prop :=
  ∀ rec, as_seq a !! ap_client_id x = Some rec →
    (sq_highest rec < ap_sequence x)%N ∨
    (ap_sequence x = sq_highest rec ∧ ap_digest x = sq_digest rec ∧ ap_fresh x = false).

Lemma stream_gate_fresh rec sequence dg :
  stream_gate rec sequence dg = gate_fresh →
  sequence = (match rec with Some r => sq_highest r | None => 0 end + 1)%N.
Proof.
  unfold stream_gate. repeat case_match; intros; try done;
    repeat match goal with H : (_ =? _)%N = true |- _ => apply N.eqb_eq in H end; lia.
Qed.

Lemma stream_gate_replay rec sequence dg r :
  stream_gate rec sequence dg = gate_replay r →
  ∃ s, rec = Some s ∧ sequence = sq_highest s ∧ dg = sq_digest s ∧ r = sq_result s.
Proof.
  unfold stream_gate. repeat case_match; intros E; try done; injection E as <-.
  repeat match goal with H : (_ =? _)%N = true |- _ => apply N.eqb_eq in H end. eauto.
Qed.

(** The cases of one step: a decision advances the client's stream by one; a
    replay answers its last command; anything else is a rejection. *)
Lemma spec_step_cases a req index r a' :
  spec_step a req index = (r, a') →
  (∃ m, r = ApplyResult_Decided m ∧ a' = mkAbsState (as_epoch a) (spec_decide (as_kv a) (req_op req) index).2
      (<[req_client_id req := mkSeqRecord (req_sequence req) (digest (req_op req)) m]> (as_seq a)) ∧
      m = (spec_decide (as_kv a) (req_op req) index).1 ∧
      req_sequence req = (match as_seq a !! req_client_id req with Some s => sq_highest s | None => 0 end + 1)%N) ∨
  (∃ m s, r = ApplyResult_Replayed m ∧ a' = a ∧ as_seq a !! req_client_id req = Some s ∧
      req_sequence req = sq_highest s ∧ digest (req_op req) = sq_digest s ∧ m = sq_result s) ∨
  (∃ e, r = ApplyResult_Rejected e ∧ a' = a).
Proof.
  unfold spec_step. case_match; [intros [= <- <-]; right; right; eauto|].
  case_match; [intros [= <- <-]; right; right; eauto|].
  destruct (stream_gate _ _ _) eqn:Eg.
  - apply stream_gate_fresh in Eg. destruct (spec_decide _ _ _) as [m kv] eqn:Ed.
    intros [= <- <-]. left. exists m. auto.
  - apply stream_gate_replay in Eg as (s & Es & E1 & E2 & E3). intros [= <- <-]. right. left. eauto 10.
  - intros [= <- <-]. right. right. eauto.
Qed.

Lemma spec_run_trace partition log a rs a' :
  spec_run a log = (rs, a') →
  Forall (follows a) (trace partition log rs) ∧ once_per_key (trace partition log rs).
Proof.
  revert a rs a'. induction log as [|[req index] log IH]; intros a rs a'; simpl.
  { intros [= <- <-]. split; [constructor|apply once_per_key_nil]. }
  destruct (spec_step a req index) as [r a1] eqn:Es. destruct (spec_run a1 log) as [rs1 a2] eqn:Er.
  intros [= <- <-]. destruct (IH a1 rs1 a2 Er) as [Hf Ho]. unfold trace. simpl. fold (trace partition log rs1).
  destruct (spec_step_cases a req index r a1 Es)
    as [(m & -> & -> & _ & Eq)|[(m & s & -> & -> & Hs & Eq & Ed & _)|(e & -> & ->)]]; simpl; [| |done].
  - split.
    + constructor.
      { intros rec Hrec. left. simpl in *. rewrite Hrec in Eq. lia. }
      eapply Forall_impl; [exact Hf|]. intros x Hx rec Hrec. unfold follows in Hx. simpl in Hx.
      destruct (decide (req_client_id req = ap_client_id x)) as [E|Hne].
      * left. rewrite E, Hrec in Eq. rewrite E, lookup_insert_eq in Hx.
        destruct (Hx _ eq_refl) as [?|(? & _)]; simpl in *; lia.
      * apply Hx. by rewrite lookup_insert_ne.
    + apply once_per_key_cons; [done|]. intros x Hx [= E1 E2 E3]. rewrite Forall_forall in Hf.
      specialize (Hf x Hx (mkSeqRecord (req_sequence req) (digest (req_op req)) m)). simpl in Hf.
      rewrite E1, lookup_insert_eq in Hf. destruct (Hf eq_refl) as [?|(_ & -> & ->)]; [lia|done].
  - split.
    + constructor; [|done]. intros rec Hrec. simpl in Hrec. rewrite Hs in Hrec. injection Hrec as <-. right. auto.
    + apply once_per_key_cons; [done|]. intros x Hx [= E1 E2 E3]. rewrite Forall_forall in Hf.
      specialize (Hf x Hx s). simpl in Hf. rewrite <-E1, Hs in Hf. destruct (Hf eq_refl) as [?|(_ & -> & ->)]; [lia|].
      split; [done|]. by rewrite andb_false_r.
Qed.

Lemma spec_run_length a log : length (spec_run a log).1 = length log.
Proof.
  revert a. induction log as [|[req index] log IH]; intros a; simpl; [done|].
  destruct (spec_step a req index) as [r a1]. specialize (IH a1). destruct (spec_run a1 log). simpl in *. lia.
Qed.

Lemma spec_run_app a log1 log2 :
  spec_run a (log1 ++ log2) =
  let '(rs1, a1) := spec_run a log1 in let '(rs2, a2) := spec_run a1 log2 in (rs1 ++ rs2, a2).
Proof.
  revert a. induction log1 as [|[req index] log1 IH]; intros a; simpl.
  { by destruct (spec_run a log2). }
  destruct (spec_step a req index) as [r a1]. rewrite IH.
  destruct (spec_run a1 log1) as [rs1 a1']. by destruct (spec_run a1' log2).
Qed.

(** A stream record was there at the start or stores a decision of the log. *)
Lemma spec_run_record a log rs a' c rec :
  spec_run a log = (rs, a') → as_seq a' !! c = Some rec →
  as_seq a !! c = Some rec ∨
  ∃ i req index, log !! i = Some (req, index) ∧ rs !! i = Some (ApplyResult_Decided (sq_result rec)) ∧
    req_client_id req = c ∧ req_sequence req = sq_highest rec ∧ digest (req_op req) = sq_digest rec.
Proof.
  revert a rs. induction log as [|[req index] log IH]; intros a rs; simpl.
  { intros [= <- <-]. by left. }
  destruct (spec_step a req index) as [r a1] eqn:Es. destruct (spec_run a1 log) as [rs1 a2] eqn:Er.
  intros [= <- <-] Hrec. destruct (IH a1 rs1 Er Hrec) as [Hrec1|(i & req' & index' & H1 & H2 & H3)].
  2: { right. exists (S i), req', index'. done. }
  destruct (spec_step_cases a req index r a1 Es) as [(m & -> & -> & _ & Eq)|[(m & s & -> & -> & _)|(e & -> & ->)]];
    [|by left..].
  simpl in Hrec1. apply lookup_insert_Some in Hrec1 as [[<- <-]|[_ Hrec1]]; [|by left].
  right. exists 0, req, index. done.
Qed.

(** The register view of a key. *)
Definition register (r : option KeyRecord) : option (N * bytes) := (λ r, (kr_version r, kr_value r)) <$> r.
End runs.

(** ** Applying a log to the store *)

Section store_runs.
Context `{RocksOk D} `{HashesOk} `{!Codec DataOp, !Codec KeyRecord, !Codec SeqRecord, !Codec U128}
  `{!Codec string, !Codec LogId}.

Fixpoint data_run (group : GroupId) (log : list (DataRequest * N)) : io (Storage D) (list ApplyResult) :=
  match log with
  | [] => io_ret []
  | (req, index) :: log =>
      let? r := data_apply group req index in
      let? rs := data_run group log in io_ret (r :: rs)
  end.

Definition entry_ok (e : DataRequest * N) : Prop := wf e.1 ∧ (e.2 ≤ u64_max)%N.

Lemma data_apply_step (s : Storage D) group a req index :
  represents s group a → wf req → (index ≤ u64_max)%N →
  ∃ s', data_apply group req index s = (s', Ok (spec_step a req index).1) ∧
    represents s' group (spec_step a req index).2.
Proof.
  intros Hr Hreq Hi. destruct (data_apply_exec s group a req index Hr Hreq Hi) as (ms & s' & E & Hap & Hrep').
  destruct (apply_state_map s s' group ms _ (rp_cache _ _ _ Hr) Hap) as (Hc' & Ho' & Hmap & _).
  exists s'. split; [done|]. constructor; [done..|].
  eapply abs_rep_ext; [|exact Hrep']. intros k Hk _. by apply Hmap.
Qed.

Lemma data_run_spec (s : Storage D) group a log :
  represents s group a → Forall entry_ok log →
  ∃ s', data_run group log s = (s', Ok (spec_run a log).1) ∧ represents s' group (spec_run a log).2.
Proof.
  intros Hrep Hlog. revert s a Hrep. induction Hlog as [|[req index] log [Hreq Hi] Hlog IH]; intros s a Hrep.
  { by exists s. }
  simpl. destruct (data_apply_step s group a req index Hrep Hreq Hi) as (s1 & E1 & Hrep1).
  destruct (spec_step a req index) as [r a1]. simpl in *.
  destruct (IH s1 a1 Hrep1) as (s2 & E2 & Hrep2). destruct (spec_run a1 log) as [rs a2]. simpl in *.
  exists s2. split; [|done]. unfold io_bind. by rewrite E1, E2.
Qed.

(** C2: exactly once. Whatever committed log a data group applies, with retries,
    reused sequence numbers and gaps, the decisions and replays it reports pass
    the exactly-once oracle: every (client, sequence) is freshly decided at most
    once and all its reports carry one command digest. *)
Theorem data_run_exactly_once (s : Storage D) group a partition log s' rs :
  represents s group a → Forall entry_ok log → data_run group log s = (s', Ok rs) →
  exactly_once (trace partition log rs) = Ok tt.
Proof.
  intros Hrep Hlog Hrun. destruct (data_run_spec s group a log Hrep Hlog) as (s2 & E2 & _).
  rewrite Hrun in E2. injection E2 as <- ->. apply exactly_once_spec.
  destruct (spec_run a log) as [rs a'] eqn:Er. by eapply spec_run_trace.
Qed.

(** A retry is answered from the stored decision. On a group that starts
    with empty client streams, when an entry is reported as replayed there is an
    earlier entry of the log, of the same client, sequence and command digest,
    that was freshly decided with the very result that is returned. *)
Theorem data_run_replay (s : Storage D) group kv epoch log s' rs j req index m :
  represents s group (mkAbsState epoch kv ∅) → Forall entry_ok log → data_run group log s = (s', Ok rs) →
  log !! j = Some (req, index) → rs !! j = Some (ApplyResult_Replayed m) →
  ∃ i req' index', (i < j)%nat ∧ log !! i = Some (req', index') ∧ rs !! i = Some (ApplyResult_Decided m) ∧
    req_client_id req' = req_client_id req ∧ req_sequence req' = req_sequence req ∧
    digest (req_op req') = digest (req_op req).
Proof.
  intros Hrep Hlog Hrun Hj Hm. destruct (data_run_spec s group _ log Hrep Hlog) as (s2 & E2 & _).
  rewrite Hrun in E2. injection E2 as <- ->.
  pose proof (take_drop_middle log j (req, index) Hj) as El. rewrite <-El in Hm.
  rewrite spec_run_app in Hm. set (a0 := mkAbsState epoch kv ∅) in *.
  destruct (spec_run a0 (take j log)) as [rs1 a1] eqn:E1. cbn [spec_run] in Hm.
  assert (length rs1 = j) as Hlen.
  { pose proof (spec_run_length a0 (take j log)) as Hl. rewrite E1 in Hl. simpl in Hl.
    rewrite length_take in Hl. apply lookup_lt_Some in Hj. lia. }
  destruct (spec_step a1 req index) as [r a2] eqn:Es. destruct (spec_run a2 (drop (S j) log)) as [rs2 a3].
  simpl in Hm. rewrite lookup_app_r, Hlen, Nat.sub_diag in Hm by lia. injection Hm as ->.
  destruct (spec_step_cases a1 req index _ a2 Es)
    as [(m' & ? & _)|[(m' & rec & [= <-] & _ & Hrec & Eq & Ed & ->)|(e & ? & _)]]; [done| |done].
  destruct (spec_run_record a0 (take j log) rs1 a1 _ rec E1 Hrec) as [Hz|(i & req' & index' & Hi1 & Hi2 & Hi3 & Hi4 & Hi5)].
  { subst a0. simpl in Hz. by apply lookup_empty_Some in Hz. }
  apply lookup_take_Some in Hi1 as [Hi1 Hij]. exists i, req', index'.
  split_and!; [done|done| |done|congruence|congruence].
  pose proof (f_equal fst (spec_run_app a0 (take j log) ((req, index) :: drop (S j) log))) as Ea.
  rewrite El in Ea. rewrite Ea, E1. simpl. rewrite Es. destruct (spec_run a2 (drop (S j) log)).
  simpl. by apply lookup_app_l_Some.
Qed.
End store_runs.

(** A create-only put, its retry, a second create and a retry with another command. *)
Definition demo_log : list (DataRequest * N) :=
  [(demo_put_req 1, 9%N); (demo_put_req 1, 10%N); (demo_put_req 2, 11%N);
   (mkDataRequest 0 5 2 (DataOp_Delete [x6b] None), 12%N)].

Lemma demo_log_ok : Forall entry_ok demo_log.
Proof. repeat constructor; vm_compute; discriminate. Qed.

Lemma demo_run :
  (data_run (GroupId_Data 1) demo_log demo_store).2 =
  Ok [ApplyResult_Decided (MutationResult_Applied 9); ApplyResult_Replayed (MutationResult_Applied 9);
      ApplyResult_Decided (MutationResult_ConditionFailed (KeyPresence_Present 9));
      ApplyResult_Rejected RejectReason_SequenceMismatch].
Proof. vm_compute. reflexivity. Qed.

Lemma data_run_exactly_once_witness :
  ∃ rs, (data_run (GroupId_Data 1) demo_log demo_store).2 = Ok rs ∧
        exactly_once (trace 1 demo_log rs) = Ok tt.
Proof.
  eexists. split; [apply demo_run|].
  eapply (data_run_exactly_once demo_store (GroupId_Data 1) (abs_init 0) 1 demo_log).
  - apply demo_store_represents.
  - apply demo_log_ok.
  - rewrite (surjective_pairing (data_run _ _ _)), demo_run. reflexivity.
Defined.

Lemma data_run_replay_witness :
  ∃ i req' index', (i < 1)%nat ∧ demo_log !! i = Some (req', index') ∧ req_sequence req' = 1%N.
Proof.
  destruct (data_run_replay demo_store (GroupId_Data 1) ∅ 0 demo_log
    (data_run (GroupId_Data 1) demo_log demo_store).1 _ 1 (demo_put_req 1) 10 (MutationResult_Applied 9)
    demo_store_represents demo_log_ok
    (eq_trans (surjective_pairing _) (f_equal (pair _) demo_run)) eq_refl eq_refl)
    as (i & req' & index' & Hi & Hl & _ & _ & Hs & _).
  exists i, req', index'. auto.
Defined.
