(* ===== verification/Service.v ===== *)
(** * The replicated write service

    What a client of the cluster may rely on: per partition a committed log that
    only grows, with requests that were sent to it, whose replies report the
    outcome of the committed entry under the abstract rules. *)

From S2P Require Import Prelude BTree Types Codec Keyspace ApplyDurability Aio Rocks Storage Envelope DataSM DataSpec Oracles DataProofs Api Client.

(** A frame that carries a mutation to a partition. *)
Definition carries `{!Codec ClientRequest} (env : Envelope) (p : N) (req : DataRequest) : Prop :=
  ev_msg_type env = MsgType_ClientOp ∧ ev_group_id env = GroupId_Data p ∧
  decode (ev_payload env) = Ok (ClientRequest_Mutate req).

(** The committed log of each partition, the requests that may still be committed, and the
    service's own invariant. *)
Class WriteService (W : Type) := {
  ws_log : W → N → list (DataRequest * N);
  ws_inflight : W → N → DataRequest → Prop;
  ws_ok : W → Prop;
}.

Section service.
Context `{WriteService W}.

Definition known (w : W) (p : N) (req : DataRequest) : Prop := ws_inflight w p req ∨ req ∈ (ws_log w p).*1.

(** The log only grows, and requests of the client appear only if they were known or are among [new]. *)
Definition evolves (c : N) (new : N → DataRequest → Prop) (w w' : W) : Prop := (ws_ok w → ws_ok w') ∧ ∀ p,
  ws_log w p `prefix_of` ws_log w' p ∧
  ∀ req, req_client_id req = c → known w' p req → known w p req ∨ new p req.

Lemma evolves_refl c new w : evolves c new w w.
Proof. split; [done|]. intros p. split; [done|auto]. Qed.

Lemma evolves_trans c new w1 w2 w3 : evolves c new w1 w2 → evolves c new w2 w3 → evolves c new w1 w3.
Proof.
  intros [O1 H1] [O2 H2]. split; [auto|]. intros p. destruct (H1 p) as [L1 K1], (H2 p) as [L2 K2]. split; [by etrans|].
  intros req Hc [Hk|?]%K2; [by apply K1|by right|done].
Qed.

Lemma evolves_weaken c (new new' : N → DataRequest → Prop) w w' :
  (∀ p req, new p req → new' p req) → evolves c new w w' → evolves c new' w w'.
Proof. intros Hn [Ho He]. split; [done|]. intros p. destruct (He p) as [L K]. split; [done|]. intros req Hc Hk. destruct (K req Hc Hk); auto. Qed.
End service.

(** The contract, for the client [c]; [refusable] requests are those the gateways refuse. *)
Class WriteServiceOk (W : Type) `{Transport W, WriteService W} `{Hashes} `{!Codec DataOp}
    `{!Codec ClientRequest, !Codec ClientReply} (c : N) (base : N → AbsState) (refusable : N → DataRequest → Prop) : Prop := {
  ws_call addr env w w' r : tr_call addr env w = (w', r) → evolves c (λ p req, carries env p req) w w';
  ws_sleep n w : evolves c (λ _ _, False) w (tr_sleep n w);
  ws_answer addr env w w' reply p req wr : ws_ok w → tr_call addr env w = (w', Some reply) → carries env p req →
    ev_cluster_id reply = ev_cluster_id env → decode (ev_payload reply) = Ok (ClientReply_Mutation wr) →
    ∃ i index r, ws_log w' p !! i = Some (req, index) ∧ (spec_run (base p) (ws_log w' p)).1 !! i = Some r ∧ wr = from_apply r;
  ws_refusal addr env w w' reply p req e : ws_ok w → tr_call addr env w = (w', Some reply) → carries env p req →
    ev_cluster_id reply = ev_cluster_id env → decode (ev_payload reply) = Ok (ClientReply_Refused e) → refusable p req;
  ws_refused w p req : ws_ok w → req ∈ (ws_log w p).*1 → ¬ refusable p req;
}.

