(* ===== verification/NodeProofs.v ===== *)
(** * Reads and writes of a partition node

    [RaftOk] is what openraft documents of a group's handle: a committed write is
    in the log with the result its state machine gave it; ReadIndex returns once
    everything committed before it is applied locally; the local store holds the
    state after the applied prefix. Under it the serving gate of a partition
    node gives linearizable reads and prefix-consistent stale ones. *)

From S2P Require Import Prelude BTree Types Codec Keyspace ApplyDurability Aio Rocks Storage Envelope DataSM PartitionNode DataSpec Oracles DataProofs Api Client Service.

(** How much of a partition's log a replica has applied. *)
Class Replica (W : Type) := rv_applied : W → nat.

(** Only the registry of the store differs. *)
Definition same_data {D} (s s' : Storage D) : Prop :=
  st_db s' = st_db s ∧ st_active_state_cfs s' = st_active_state_cfs s.

Class RaftOk (D W : Type) `{Rocks D} `{!Raft D W, !WriteService W, !Replica W} `{!Codec string}
    `{Hashes} `{!Codec DataOp, !Codec KeyRecord, !Codec SeqRecord, !Codec U128} (c p : N) (base : AbsState) (admissible : DataRequest → Prop) : Prop := {
  rk_get_set s w : rf_storage (rf_set_storage s w) = s;
  rk_set s w : same_data (rf_storage w) s → evolves c (λ _ _, False) w (rf_set_storage s w) ∧
    rv_applied (rf_set_storage s w) = rv_applied w ∧ rf_metrics (rf_set_storage s w) = rf_metrics w;
  rk_rep w : ws_ok w → represents (rf_storage w) (GroupId_Data p) (spec_run base (take (rv_applied w) (ws_log w p))).2;
  rk_last_applied w id i req index : ws_ok w → rm_last_applied (rf_metrics w) = Some id →
    ws_log w p !! i = Some (req, index) → (index ≤ rl_index id)%N → i < rv_applied w;
  rk_index w i req index : ws_ok w → ws_log w p !! i = Some (req, index) → index ≠ 0%N;
  rk_write req w w' r : admissible req → rf_client_write req w = (w', r) → evolves c (λ q x, q = p ∧ x = req) w w';
  rk_written req w w' id data : ws_ok w → admissible req → rf_client_write req w = (w', Ready (Ok (id, data))) →
    ∃ i index, ws_log w' p !! i = Some (req, index) ∧ (spec_run base (ws_log w' p)).1 !! i = Some data ∧
      wf (from_apply data);
  rk_barrier w w' r : rf_ensure_linearizable w = (w', r) → evolves c (λ _ _, False) w w';
  rk_linearizable w w' target : ws_ok w → rf_ensure_linearizable w = (w', Ready (Ok target)) →
    length (ws_log w p) ≤ rv_applied w';
}.

Lemma results_prefix `{Hashes} `{!Codec DataOp, !Codec KeyRecord, !Codec SeqRecord, !Codec U128} base log log' i r : log `prefix_of` log' →
  (spec_run base log).1 !! i = Some r → (spec_run base log').1 !! i = Some r.
Proof.
  intros [l ->]. revert base i. induction log as [|[req index] log IH]; intros base i; [done|]. cbn.
  destruct (spec_step base req index) as [r0 a0]. specialize (IH a0).
  destruct (spec_run a0 log) as [rs a1]. destruct (spec_run a0 (log ++ l)) as [rs2 a2]. cbn in *.
  destruct i as [|i]; [done|]. apply IH.
Qed.

Section node.
Context `{RocksOk D} `{!Codec U64, !Codec U128, !Codec string, !Codec LogId}
  `{!Codec Identity, !Codec ServingState, !Codec BootstrapGroup, !Codec LearnerAdmission}
  `{!Codec RegistrationBinding, !Codec RaftApplied} `{HashesOk} `{!Codec DataOp, !Codec KeyRecord, !Codec SeqRecord}.
Context {W : Type} `{!Raft D W, !WriteService W, !Replica W} (c p : N) (base : AbsState)
  (admissible : DataRequest → Prop) `{!RaftOk D W c p base admissible}.
Context (node : PartitionNode W) (Hgroup : pn_group node = GroupId_Data p).
Implicit Types (w : W).

(** ** The store's registry *)

Definition registry_only {A} (m : io (Storage D) A) : Prop := ∀ s s' r, m s = (s', r) → same_data s s'.

#[local] Instance same_data_preorder : PreOrder (same_data (D:=D)).
Proof. split; [done|]. intros s1 s2 s3 [? ?] [? ?]. split; congruence. Qed.

Lemma registry_only_lift {A} (f : ApplyDurabilityRegistry → ApplyDurabilityRegistry * A) : registry_only (lift_apply f).
Proof. intros s s' r. unfold lift_apply. destruct (f _) as [reg a]. by intros [= <- _]. Qed.

Lemma registry_only_serving now group : registry_only (require_serving now group).
Proof.
  apply (keeps_bind same_data); [apply (keeps_read same_data)|]. intros state.
  case_bool_decide; [|apply (keeps_err same_data)].
  apply (keeps_bind same_data). { apply (keeps_bind same_data); [apply registry_only_lift|intros; apply (keeps_read same_data)]. }
  intros _. apply (keeps_bind same_data); [apply registry_only_lift|].
  intros [e|]; [apply (keeps_err same_data)|apply (keeps_ret same_data)].
Qed.

Lemma represents_same_data s s' group a : same_data s s' → represents s group a → represents s' group a.
Proof.
  intros [Ed Ea] [Hc Ho Hr].
  assert (state_cf s' group = state_cf s group) as Ecf
    by (unfold state_cf, active_state_cf_name, pointer_name, get_local; by rewrite Ed, Ea).
  constructor.
  - intros g n. rewrite Ea. intros Hn. pose proof (Hc g n Hn) as Hp. unfold pointer_name, get_local in *. by rewrite Ed.
  - by rewrite Ecf.
  - eapply abs_rep_ext; [|exact Hr]. intros k _ _. unfold state_map. by rewrite Ecf, Ed.
Qed.

(** A step that changes nothing but the registry, from the outside. *)
Definition quiet (w w' : W) : Prop :=
  evolves c (λ _ _, False) w w' ∧ rv_applied w' = rv_applied w ∧ rf_metrics w' = rf_metrics w.
#[local] Instance quiet_preorder : PreOrder quiet.
Proof.
  split; [intros w; split_and!; [apply evolves_refl|done..]|].
  intros w1 w2 w3 (? & ? & ?) (? & ? & ?). split_and!; [by eapply evolves_trans|congruence..].
Qed.

Lemma quiet_storage {A} (m : N → io (Storage D) A) : (∀ now, registry_only (m now)) → keeps quiet (on_storage m).
Proof.
  intros Hm w w' r. unfold on_storage. destruct (m _ _) as [s a] eqn:E. intros [= <- _]. by apply rk_set, (Hm _ _ _ _ E).
Qed.

Lemma quiet_serving : keeps quiet (serving node).
Proof. apply quiet_storage. intros now. apply registry_only_serving. Qed.
Lemma quiet_ready : keeps quiet (state_recovery_ready node).
Proof. apply quiet_storage. intros now. apply registry_only_lift. Qed.
Lemma quiet_open target : keeps quiet (open_state_recovery node target).
Proof.
  apply (keeps_bind quiet); [apply quiet_ready|]. intros [|]; [apply (keeps_ret quiet)|].
  apply (keeps_bind quiet); [apply quiet_storage; intros; apply registry_only_lift|]. intros epoch.
  apply (keeps_bind quiet); [apply quiet_storage; intros; apply registry_only_lift|]. intros r. apply (keeps_read quiet).
Qed.

Lemma serving_ok w w' : serving node w = (w', Ok tt) → serving_state (rf_storage w) (GroupId_Data p) = Ok (Some ServingState_Serving).
Proof.
  unfold serving, on_storage, require_serving, io_bind, io_read. rewrite Hgroup.
  destruct (serving_state _ _) as [st|]; [|done]. case_bool_decide as E; [by subst st|done].
Qed.

(** ** Reads *)

Definition value_of (a : AbsState) (key : bytes) : option (N * bytes) := (λ r, (kr_version r, kr_value r)) <$> as_kv a !! key.

Lemma local_get_spec key w w' v : ws_ok w → local_get node key w = (w', Ok v) →
  w' = w ∧ v = value_of (spec_run base (take (rv_applied w) (ws_log w p))).2 key.
Proof.
  intros Hw. unfold local_get, io_read, data_get, key_record. rewrite Hgroup. pose proof (rk_rep w Hw) as Hr.
  rewrite (storage_reads_as _ _ (rp_open _ _ _ Hr)). rewrite (rep_kv _ _ (rp_rep _ _ _ Hr)). cbn. by intros [= <- <-].
Qed.

(** What a read returns: the value after a prefix of the log that has everything the consistency asks for. *)
Definition read_covers (consistency : Consistency) (before after : list (DataRequest * N)) (n : nat) : Prop :=
  match consistency with
  | Consistency_Linearizable => length before ≤ n
  | Consistency_Stale min_version =>
      ∀ m i req index, min_version = Some m → after !! i = Some (req, index) → (index ≤ m)%N → i < n
  end.

Lemma ok_evolves new w w' : evolves c new w w' → ws_ok w → ws_ok w'.
Proof. intros [? _]. auto. Qed.

Lemma read_value_spec key w w' v : ws_ok w →
  (let~ v := aio_io (local_get node key) in aio_ret (ReadOutcome_Value v)) w = (w', Ready (Ok (ReadOutcome_Value v))) →
  w' = w ∧ v = value_of (spec_run base (take (rv_applied w) (ws_log w p))).2 key.
Proof. intros Hw (w1 & a & E & E')%aio_io_bind_ok. injection E' as <- <-. by apply local_get_spec. Qed.

Lemma linearizable_read_spec key w w' v : ws_ok w →
  (let~ r := raft_call rf_ensure_linearizable in
   match r with
   | Ok target => λ w,
       match open_state_recovery node target w with
       | (w, Err _) => (w, Ready (Ok ReadOutcome_Recovering))
       | (w, Ok _) => (let~ v := aio_io (local_get node key) in aio_ret (ReadOutcome_Value v)) w
       end
   | Err (RaftError_ForwardToLeader leader) => aio_ret (ReadOutcome_NotLeader leader)
   | Err (RaftError_Other e) => aio_io (io_err (Error_Raft e))
   end) w = (w', Ready (Ok (ReadOutcome_Value v))) →
  ws_ok w' ∧ length (ws_log w p) ≤ rv_applied w' ∧ v = value_of (spec_run base (take (rv_applied w') (ws_log w' p))).2 key.
Proof.
  intros Hw [(w1 & x & E & E')|[[_ ?]|(e & _ & ?)]]%aio_bind_ready; [|done..]. unfold raft_call in E.
  destruct (rf_ensure_linearizable w) as [w2 [y|]] eqn:El; [|done]. injection E as <- <-.
  pose proof (ok_evolves _ _ _ (rk_barrier _ _ _ El) Hw) as Hw1. destruct y as [target|[leader|e]]; [|done..].
  pose proof (rk_linearizable _ _ _ Hw El) as Hn.
  destruct (open_state_recovery node target w2) as [w3 [[]|e]] eqn:Eo; [|done].
  destruct (quiet_open _ _ _ _ Eo) as (He & Ha & _). pose proof (ok_evolves _ _ _ He Hw1) as Hw3.
  apply read_value_spec in E' as [-> ->]; [|done]. split_and!; [done|lia|done].
Qed.

Lemma stale_read_spec key min_version w w' v : ws_ok w →
  (let~ voter := aio_io (is_committed_voter node) in
   let~ leader := aio_io current_leader in
   if negb voter then aio_ret (ReadOutcome_TooStale leader)
   else
     let~ ready := aio_io (state_recovery_ready node) in
     if negb ready then aio_ret ReadOutcome_Recovering
     else
       let~ applied := aio_io node_applied_index in
       if match min_version with Some min => (default 0%N applied <? min)%N | None => false end
       then aio_ret (ReadOutcome_TooStale leader)
       else let~ v := aio_io (local_get node key) in aio_ret (ReadOutcome_Value v)) w = (w', Ready (Ok (ReadOutcome_Value v))) →
  ws_ok w' ∧ pn_node_id node ∈ rm_voters (rf_metrics w) ∧
  read_covers (Consistency_Stale min_version) (ws_log w p) (ws_log w' p) (rv_applied w') ∧
  v = value_of (spec_run base (take (rv_applied w') (ws_log w' p))).2 key.
Proof.
  intros Hw (w1 & voter & Ev & E)%aio_io_bind_ok. injection Ev as <- <-.
  apply aio_io_bind_ok in E as (w1 & leader & El & E). injection El as <- <-.
  destruct (bool_decide_reflect (pn_node_id node ∈ rm_voters (rf_metrics w))) as [Hv|]; [|done]. cbn [negb] in E.
  apply aio_io_bind_ok in E as (w1 & [] & Er & E); [|done]. cbn [negb] in E. destruct (quiet_ready _ _ _ Er) as (He & _ & _).
  pose proof (ok_evolves _ _ _ He Hw) as Hw1. apply aio_io_bind_ok in E as (w2 & applied & Ea & E). injection Ea as <- <-.
  destruct (match min_version with Some _ => _ | None => _ end) eqn:Em; [done|].
  apply read_value_spec in E as [-> ->]; [|done]. split_and!; [done|done| |done].
  intros m i req index -> Hi Hle. apply N.ltb_ge in Em. destruct (rm_last_applied (rf_metrics w1)) as [id|] eqn:Eid; cbn in Em.
  - eapply rk_last_applied; [done|done|done|lia].
  - destruct (rk_index w1 i req index Hw1 Hi). lia.
Qed.

(** C5: a value read from a partition node, while other operations go on
    everywhere, is the value of the key after a prefix of the partition's
    committed log: for a linearizable read one that has every entry committed
    before the read began, for a stale read with a minimum version one that has
    every entry up to that version. The node was permitted to serve, and for a
    stale read it was a voter. *)
Theorem node_read_consistent key consistency w w' v : ws_ok w →
  node_read node key consistency w = (w', Ready (Ok (ReadOutcome_Value v))) →
  serving_state (rf_storage w) (GroupId_Data p) = Ok (Some ServingState_Serving) ∧
  (consistency ≠ Consistency_Linearizable → pn_node_id node ∈ rm_voters (rf_metrics w)) ∧
  ∃ n, read_covers consistency (ws_log w p) (ws_log w' p) n ∧ v = value_of (spec_run base (take n (ws_log w' p))).2 key.
Proof.
  intros Hw (w1 & [] & Es & E)%aio_io_bind_ok. split; [by eapply serving_ok|].
  destruct (quiet_serving _ _ _ Es) as (He & _ & Hm). pose proof (ok_evolves _ _ _ He Hw) as Hw1. destruct (He) as [_ Hlog].
  destruct consistency as [|min_version].
  - apply linearizable_read_spec in E as (Hw' & Hn & ->); [|done]. split; [done|]. eexists. split; [|done]. cbn.
    destruct (Hlog p) as [Hp%prefix_length _]. lia.
  - apply stale_read_spec in E as (Hw' & Hv & Hc & ->); [|done]. rewrite Hm in Hv. split; [done|]. eexists. by split.
Qed.

(** ** Writes *)

Context (Hgate : ∀ gate w w' r, pn_maintenance node = Some gate → gate w = (w', r) → evolves c (λ _ _, False) w w').

Lemma node_write_spec req w w' r : admissible req → node_write node req w = (w', r) →
  evolves c (λ q x, q = p ∧ x = req) w w' ∧
  (ws_ok w → ∀ data, r = Ready (Ok (WriteOutcome_Applied data)) →
    ∃ i index, ws_log w' p !! i = Some (req, index) ∧ (spec_run base (ws_log w' p)).1 !! i = Some data ∧
      wf (from_apply data)).
Proof.
  intros Hadm. assert (∀ w w', evolves c (λ _ _, False) w w' → evolves c (λ q x, q = p ∧ x = req) w w') as Hweak
    by (intros w1 w2; by apply evolves_weaken).
  intros [(w1 & adm & E & E')|[[E ->]|(e & E & ->)]]%aio_bind_ready.
  2,3: split; [|done]; destruct (pn_maintenance node) as [gate|] eqn:Eg; [|done];
    destruct (gate w) as [w2 [b|]] eqn:Eg2; try done; injection E as <-; by eapply Hweak, Hgate.
  assert (evolves c (λ _ _, False) w w1) as He1.
  { destruct (pn_maintenance node) as [gate|] eqn:Eg; [|injection E as <- _; apply evolves_refl].
    destruct (gate w) as [w2 [b|]] eqn:Eg2; [|done]. injection E as <- _. by eapply Hgate. }
  destruct adm; cbn [negb] in E'; [|injection E' as <- <-; split; [by apply Hweak|done]].
  apply aio_bind_ready in E' as [(w2 & [] & Es & E')|[[Es ->]|(e & Es & ->)]];
    apply aio_io_ready in Es as (x & Es & Hx); destruct (quiet_serving _ _ _ Es) as (He2 & _ & _);
    pose proof (evolves_trans _ _ _ _ _ He1 He2) as He12; [|done|split; [by apply Hweak|done]].
  destruct (match req_op req with DataOp_Put _ _ _ => _ | DataOp_Delete _ _ => _ end).
  { injection E' as <- <-. split; [by apply Hweak|done]. }
  unfold raft_call in E'. destruct (rf_client_write req w2) as [w3 o] eqn:Ew. pose proof (rk_write _ _ _ _ Hadm Ew) as He3.
  pose proof (evolves_trans _ _ _ _ _ (Hweak _ _ He12) He3) as He13. unfold aio_bind in E'. rewrite Ew in E'.
  destruct o as [[[id data]|[leader|e]]|]; try (injection E' as <- <-; by split).
  unfold aio_io in E'. destruct (open_state_recovery node (Some id) w3) as [w4 y] eqn:Eo.
  injection E' as <- <-. destruct (quiet_open _ _ _ _ Eo) as (He4 & _ & _).
  split; [eapply evolves_trans; [exact He13|by apply Hweak]|]. intros Hw data' [= <-].
  destruct (rk_written _ _ _ _ _ (ok_evolves _ _ _ He12 Hw) Hadm Ew) as (i & index & Hi & Hr & Hd).
  destruct He4 as [_ He4]. destruct (He4 p) as [Hp _]. exists i, index.
  split_and!; [by eapply prefix_lookup_Some|by eapply results_prefix|done].
Qed.

Lemma node_read_evolves key consistency w w' r : node_read node key consistency w = (w', r) → evolves c (λ _ _, False) w w'.
Proof.
  assert (PreOrder (evolves (W:=W) c (λ _ _, False))) as Hpre.
  { split; [intros ?; apply evolves_refl|intros ???; apply evolves_trans]. }
  assert (∀ A (m : io W A), keeps quiet m → akeeps (evolves c (λ _ _, False)) (aio_io m)) as Hq.
  { intros A m Hm. apply akeeps_io. intros w1 w2 x E. by apply (Hm _ _ _ E). }
  assert (akeeps (evolves c (λ _ _, False)) (let~ v := aio_io (local_get node key) in aio_ret (ReadOutcome_Value v))) as Hget.
  { apply (akeeps_bind _); [apply Hq, (keeps_read quiet)|intros; apply (akeeps_ret _)]. }
  revert w w' r. apply (akeeps_bind _); [apply Hq, quiet_serving|]. intros _. destruct consistency as [|min_version].
  - apply (akeeps_bind _).
    { intros w1 w2 r. unfold raft_call. destruct (rf_ensure_linearizable w1) as [w3 [x|]] eqn:E; intros [= <- _]; by eapply rk_barrier. }
    intros [target|[leader|e]]; [|apply (akeeps_ret _)|apply Hq, (keeps_err quiet)].
    intros w1 w2 r. destruct (open_state_recovery node target w1) as [w3 [x|e]] eqn:E; destruct (quiet_open _ _ _ _ E) as (He & _).
    + intros E'. etrans; [exact He|by eapply Hget].
    + by intros [= <- _].
  - apply (akeeps_bind _); [apply Hq; apply (keeps_bind quiet); [apply (keeps_bind quiet); [apply (keeps_read quiet)|intros; apply (keeps_ret quiet)]|intros; apply (keeps_ret quiet)]|].
    intros voter. apply (akeeps_bind _); [apply Hq, (keeps_read quiet)|]. intros leader. destruct (negb voter); [apply (akeeps_ret _)|].
    apply (akeeps_bind _); [apply Hq, quiet_ready|]. intros ready. destruct (negb ready); [apply (akeeps_ret _)|].
    apply (akeeps_bind _); [apply Hq, (keeps_read quiet)|]. intros applied.
    match goal with |- akeeps _ (if ?b then _ else _) => destruct b end; [apply (akeeps_ret _)|exact Hget].
Qed.
End node.
