(* ===== verification/GatewayProofs.v ===== *)
(** * Gateways over a network implement the write service

    [cluster_call]: a frame sent to an address may be lost, be delivered late or
    lose its reply, and otherwise is served by the gateway at that address. With
    Raft handles that satisfy [RaftOk] this is a [WriteService]: what a client
    relies on follows from the gateway's code. *)

From S2P Require Import Prelude BTree Types Codec Keyspace SearchDef ApplyDurability Aio Rocks Storage Maintenance Security Envelope DataSM PartitionNode Api Gateway Client DataSpec Oracles DataProofs Service NodeProofs.

(** The constructor of a reply survives encoding, whatever its payload. *)
Definition reply_tag (r : ClientReply) : nat :=
  match r with
  | ClientReply_RecoveryEpochMismatch _ _ => 0 | ClientReply_Mutation _ => 1 | ClientReply_Value _ => 2
  | ClientReply_Redirect _ => 3 | ClientReply_Recovering => 4 | ClientReply_Refused _ => 5 | ClientReply_Error _ => 6
  | ClientReply_Unavailable _ => 7 | ClientReply_Denied _ => 8
  end.
Class ReplyTags `{!Codec ClientReply} : Prop :=
  decode_tag r r' : decode (encode r) = Ok r' → reply_tag r' = reply_tag r.

(** Sending a frame and returning its reply: what happens in the meantime, and whether it arrives. *)
Class Network (W : Type) := {
  nt_send : string → Envelope → W → W * bool;
  nt_return : W → W * bool;
  nt_now : W → N;
  nt_sleep : N → W → W;
}.

Section cluster.
Context `{RocksOk D} `{!Codec U64, !Codec U128, !Codec string, !Codec LogId}
  `{!Codec Identity, !Codec ServingState, !Codec BootstrapGroup, !Codec LearnerAdmission}
  `{!Codec RegistrationBinding, !Codec RaftApplied} `{HashesOk} `{!Codec DataOp, !Codec KeyRecord, !Codec SeqRecord}.
Context `{!Codec ClientRequest, !Codec ClientReply, !ReplyTags, !Codec RoutingInfo, !Codec RoutingQuery}.
Context {Q R : Type} `{!Wf Q, !Codec Q} `{!Wf R, !Codec (SearchShardReply R)} `{!Codec SearchCatalogQuery, !Codec SearchCatalogReply}.
Context {W : Type} `{!WriteService W, !Network W}.
Context (gateways : string → option (ClientGateway (D:=D) (Q:=Q) (R:=R) W)) (user : option string).
Implicit Types (gw : ClientGateway (D:=D) (Q:=Q) (R:=R) W) (w : W) (env : Envelope).

Definition cluster_call (addr : string) env w : W * option Envelope :=
  let '(w, delivered) := nt_send addr env w in
  match (if (delivered : bool) then gateways addr else None) with
  | None => (w, None)
  | Some gw =>
      match serve_with_context gw env user w with
      | (w, Ready (Ok reply)) => let '(w, returned) := nt_return w in (w, if (returned : bool) then Some reply else None)
      | (w, _) => (w, None)
      end
  end.
Definition cluster_transport : Transport W := {| tr_call := cluster_call; tr_now := nt_now; tr_sleep := nt_sleep |}.

(** ** Contracts *)

Context (c : N) (base : N → AbsState) (P : N) (hash_spec : HashSpec).

Definition refusable (p : N) (req : DataRequest) : Prop :=
  is_ok (refusal P hash_spec (GroupId_Data p) (ClientRequest_Mutate req)) = false.
Abbreviation still := (evolves c (λ _ _, False)).

Class NetworkOk : Prop := {
  no_send addr env w w' b : nt_send addr env w = (w', b) → evolves c (λ p req, carries env p req) w w';
  no_return w w' b : nt_return w = (w', b) → still w w';
  no_sleep n w : still w (nt_sleep n w);
  no_refused w p req : ws_ok w → req ∈ (ws_log w p).*1 → ¬ refusable p req;
}.

(** A gateway of the cluster: its constants, its partitions, and that what it calls proposes nothing for [c]. *)
Record GatewayOk gw : Prop := {
  go_p : gw_p gw = P;
  go_hash : gw_hash_spec gw = hash_spec;
  go_partition w q raft node : gw_partitions gw w q = Some (raft, node) →
    pn_group node = GroupId_Data q ∧
    (∃ replica : Replica W, RaftOk D W (Raft0:=raft) c q (base q) (λ req, ¬ refusable q req)) ∧
    (∀ gate w w' r, pn_maintenance node = Some gate → gate w = (w', r) → still w w');
  go_routing b w w' r : gw_routing gw b w = (w', r) → still w w';
  go_search search node q : gw_search gw = Some search → akeeps still (search node q);
  go_coordinate env w w' r : gw_coordinate gw env w = (w', r) → still w w';
  go_index index catalog name b w w' r : gw_search_catalog gw = Some (index, catalog) → index name b w = (w', r) → still w w';
  go_catalog index catalog b w w' r : gw_search_catalog gw = Some (index, catalog) → catalog b w = (w', r) → still w w';
}.

Context `{!NetworkOk} (Hgateways : ∀ addr gw, gateways addr = Some gw → GatewayOk gw).

#[local] Instance evolves_preorder new : PreOrder (evolves (W:=W) c new).
Proof. split; [intros w; apply evolves_refl|intros w1 w2 w3; apply evolves_trans]. Qed.

Lemma still_evolves new w w' : still w w' → evolves c new w w'.
Proof. by apply evolves_weaken. Qed.

Lemma still_infallible {A} (m : W → W * poll A) : (∀ w w' r, m w = (w', r) → still w w') → akeeps still (infallible m).
Proof. intros Hm w w' r. unfold infallible. destruct (m w) as [w1 [a|]] eqn:E; intros [= <- _]; by eapply Hm. Qed.
Lemma still_attempt {A} (m : aio W A) : akeeps still m → akeeps still (attempt m).
Proof. intros Hm w w' r. unfold attempt. destruct (m w) as [w1 [a|]] eqn:E; intros [= <- _]; by eapply Hm. Qed.
Lemma still_then {A B} (m : aio W A) (f : A → B) : akeeps still m → akeeps still (let~ a := m in aio_ret (f a)).
Proof. intros Hm. apply (akeeps_bind _); [done|]. intros a. apply (akeeps_ret _). Qed.

Section gateway.
Context gw (Hgw : GatewayOk gw).

Lemma still_redirect {B} leader q (f : Redirect → B) : akeeps still (let~ r := redirect gw leader q in aio_ret (f r)).
Proof. apply still_then, still_then, still_then, still_infallible. apply (go_routing _ Hgw). Qed.

(** What the reply to a mutation says. *)
Definition answer_ok (q : N) (data : DataRequest) (w' : W) (reply : ClientReply) : Prop :=
  match reply with
  | ClientReply_Mutation wr => ∃ i index r, ws_log w' q !! i = Some (data, index) ∧
      (spec_run (base q) (ws_log w' q)).1 !! i = Some r ∧ wr = from_apply r ∧ wf wr
  | ClientReply_Refused _ => False
  | _ => True
  end.

Lemma serve_mutation_spec raft node q data w w' r : gw_partitions gw w q = Some (raft, node) → ¬ refusable q data →
  serve_mutation gw raft node q data w = (w', r) →
  evolves c (λ p req, p = q ∧ req = data) w w' ∧
  (ws_ok w → ∀ reply, r = Ready (Ok reply) → answer_ok q data w' reply).
Proof.
  intros (Hgroup & [replica Hraft] & Hgate)%(go_partition _ Hgw) Hadm. unfold serve_mutation.
  destruct (recovery_epoch _ _) as [expected|]; [|intros [= <- <-]; split; [done|by intros _ ? [= <-]]].
  destruct (negb _); [intros [= <- <-]; split; [done|by intros _ ? [= <-]]|].
  destruct (gate_closed gw w); [intros [= <- <-]; split; [done|by intros _ ? [= <-]]|].
  unfold aio_bind at 1, attempt. destruct (node_write node data w) as [w1 [x|]] eqn:Ew.
  2:{ intros [= <- <-]. split; [|done]. by eapply (node_write_spec c q (base q) _ node Hgate) in Ew as [? _]. }
  eapply (node_write_spec c q (base q) _ node Hgate) in Ew as [He Ha]; [|done].
  destruct x as [[data'| |leader]|e].
  - intros [= <- <-]. split; [done|]. intros Hw reply [= <-]. destruct (Ha Hw _ eq_refl) as (i & index & ? & ? & ?). cbn. eauto 10.
  - intros [= <- <-]. split; [done|]. by intros _ ? [= <-].
  - intros E. pose proof (still_redirect _ _ _ _ _ _ E) as He2. split; [etrans; [exact He|by apply still_evolves]|].
    intros _ reply ->. apply aio_bind_ready in E as [(w2 & x & _ & E)|[[_ ?]|(e & _ & ?)]]; [|done..]. by injection E as _ <-.
  - intros [= <- <-]. split; [done|]. by intros _ ? [= <-].
Qed.

Lemma serve_read_still raft node q key consistency w w' r : gw_partitions gw w q = Some (raft, node) →
  serve_read gw raft node q key consistency w = (w', r) → still w w'.
Proof.
  intros (Hgroup & [replica Hraft] & _)%(go_partition _ Hgw). revert w w' r.
  apply (akeeps_bind still).
  { apply still_attempt. intros w w' r E. exact (node_read_evolves c q (base q) _ node key consistency w w' r E). }
  intros [[v|leader| |leader]|e]; first [apply (akeeps_ret still)|apply still_redirect].
Qed.

Lemma refusal_spec group req partition : refusal P hash_spec group req = Ok partition → group = GroupId_Data partition.
Proof.
  unfold refusal. do 2 (match goal with |- (if ?b then _ else _) = _ → _ => destruct b end; [done|]).
  unfold check_partition. destruct group as [|claimed]; [done|]. destruct (negb _); [done|]. by intros [= ->].
Qed.

Lemma handle_client_op_spec env w w' r : ev_msg_type env = MsgType_ClientOp → handle_client_op gw env w = (w', r) →
  evolves c (λ p req, carries env p req) w w' ∧
  (ws_ok w → ∀ p req reply, carries env p req → r = Ready (Ok reply) →
     match reply with ClientReply_Refused _ => refusable p req | _ => answer_ok p req w' reply end).
Proof.
  intros Hmt. unfold handle_client_op. destruct (negb _); [intros [= <- <-]; split; [done|by intros _ p req ? _ [= <-]]|].
  destruct (decode (ev_payload env)) as [creq|e] eqn:Ed.
  2:{ intros [= <- <-]. split; [done|]. intros _ p req ? (_ & _ & Hc). congruence. }
  rewrite (go_p _ Hgw), (go_hash _ Hgw). destruct (refusal P hash_spec (ev_group_id env) creq) as [q|e] eqn:Er.
  2:{ intros [= <- <-]. split; [done|]. intros _ p req ? (_ & Hg & Hc) [= <-]. rewrite Hc in Ed. injection Ed as <-.
      unfold refusable. by rewrite <-Hg, Er. }
  pose proof (refusal_spec _ _ _ Er) as Hg.
  destruct (match creq with ClientRequest_Mutate _ => _ | ClientRequest_Read _ _ => _ end);
    [intros [= <- <-]; split; [done|by intros _ p req ? _ [= <-]]|].
  destruct (gw_partitions gw w q) as [[raft node]|] eqn:Ep.
  2:{ intros E. split; [by eapply still_evolves, still_redirect|]. intros _ p req reply _ ->.
      apply aio_bind_ready in E as [(w2 & x & _ & E)|[[_ ?]|(e & _ & ?)]]; [|done..]. by injection E as _ <-. }
  destruct creq as [data|key consistency].
  - intros E. apply serve_mutation_spec in E as [He Ha]; [|done|unfold refusable; by rewrite <-Hg, Er].
    split; [eapply evolves_weaken; [|exact He]; intros p req [-> ->]; by split_and!|].
    intros Hw p req reply (_ & Hg' & Hc) ->. rewrite Hg in Hg'. injection Hg' as <-. rewrite Hc in Ed. injection Ed as ->.
    specialize (Ha Hw _ eq_refl). by destruct reply.
  - intros E. split; [by eapply still_evolves, serve_read_still|]. intros _ p req reply (_ & _ & Hc). congruence.
Qed.

Lemma handle_search_op_still env : akeeps still (handle_search_op gw env).
Proof.
  intros w w' r. unfold handle_search_op. destruct (negb _); [by intros [= <- _]|].
  destruct (decode _) as [q|], (ev_group_id env) as [|partition]; try by intros [= <- _].
  destruct (gw_partitions gw w partition) as [[raft node]|]; [|apply still_redirect].
  destruct (gw_search gw) as [search|] eqn:Es; [|by intros [= <- _]]. revert w w' r.
  apply (akeeps_bind still); [by apply still_attempt, (go_search _ Hgw)|].
  intros [[x|leader]|e]; first [apply (akeeps_ret still)|apply still_redirect].
Qed.

Lemma handle_catalog_query_still env : akeeps still (handle_catalog_query gw env).
Proof.
  unfold handle_catalog_query. destruct (decode _) as [q|]; [|apply (akeeps_ret still)].
  destruct (gw_search_catalog gw) as [[index catalog]|] eqn:Es; [|apply (akeeps_ret still)].
  destruct (cq_all q); apply still_then, still_infallible; intros w w' r; [by eapply go_catalog|by eapply go_index].
Qed.

Lemma dispatch_evolves env w w' r : dispatch gw env w = (w', r) → evolves c (λ p req, carries env p req) w w'.
Proof.
  unfold dispatch. destruct (ev_msg_type env) eqn:Em; try by intros [= <- _].
  - intros E. apply aio_bind_ready in E as [(w2 & x & E1 & E)|[[E _]|(e & E & _)]]; [injection E as <- _|..];
      by (apply handle_client_op_spec in E as [? _] || apply handle_client_op_spec in E1 as [? _]).
  - intros E. eapply still_evolves, still_then, E. apply still_infallible. apply (go_routing _ Hgw).
  - intros E. eapply still_evolves, still_then, E.
    destruct (ev_group_id env); [apply still_infallible, (go_coordinate _ Hgw)|apply handle_search_op_still].
  - intros E. eapply still_evolves, still_then, E. apply handle_catalog_query_still.
Qed.

Lemma authorization_denied env p req denied : carries env p req → authorization gw env user = Some denied →
  ∃ e, ev_payload denied = encode (ClientReply_Denied e).
Proof.
  intros (Hm & _ & Hd). unfold authorization. rewrite Hm, Hd. destruct (_ && _); [done|]. intros [= <-]. by eexists.
Qed.

Lemma serve_spec env w w' r : serve_with_context gw env user w = (w', r) →
  evolves c (λ p req, carries env p req) w w' ∧
  (ws_ok w → ∀ p req reply x, carries env p req → r = Ready (Ok reply) → ev_cluster_id reply = ev_cluster_id env →
     decode (ev_payload reply) = Ok x →
     match x with ClientReply_Refused _ => refusable p req | ClientReply_Mutation _ => answer_ok p req w' x | _ => True end).
Proof.
  unfold serve_with_context. destruct (N.eqb_spec (ev_cluster_id env) (gw_cluster_id gw)) as [Hc|Hc]; cbn [negb].
  2:{ intros [= <- <-]. split; [done|]. intros _ p req reply x _ [= <-] Hcl. by destruct (ev_msg_type env). }
  destruct (is_peer_control _) eqn:Epc.
  { intros [= <- <-]. split; [done|]. intros _ p req reply x (Hm & _) [= <-]. by rewrite Hm in Epc. }
  destruct (authorization gw env user) as [denied|] eqn:Ea.
  { intros [= <- <-]. split; [done|]. intros _ p req reply x Hcar [= <-] _.
    destruct (authorization_denied _ _ _ _ Hcar Ea) as [e ->]. intros Ht%decode_tag. by destruct x. }
  intros E. split; [by eapply dispatch_evolves|]. intros Hw p req reply x Hcar -> _ Hd. pose proof Hcar as (Hm & _).
  unfold dispatch in E. rewrite Hm in E.
  apply aio_bind_ready in E as [(w2 & y & E1 & E)|[[_ ?]|(e & _ & ?)]]; [|done..]. injection E as <- <-. cbn [ev_payload client_reply reply] in Hd.
  apply handle_client_op_spec in E1 as [_ Ho]; [|done]. specialize (Ho Hw p req y Hcar eq_refl).
  pose proof (decode_tag _ _ Hd) as Ht. destruct y; destruct x; try done.
  destruct Ho as (i & index & r & Hi & Hr & -> & Hwf). rewrite decode_encode in Hd by done. injection Hd as <-. cbn. eauto 10.
Qed.
End gateway.

(** The client's contract, from the code of the gateways. *)
Lemma cluster_service_ok : WriteServiceOk W (H:=cluster_transport) c base refusable.
Proof.
  assert (∀ addr env w w' r, cluster_call addr env w = (w', r) →
    evolves c (λ p req, carries env p req) w w' ∧
    (ws_ok w → ∀ p req reply x, carries env p req → r = Some reply → ev_cluster_id reply = ev_cluster_id env →
       decode (ev_payload reply) = Ok x →
       match x with ClientReply_Refused _ => refusable p req | ClientReply_Mutation _ => answer_ok p req w' x | _ => True end)) as Hcall.
  { intros addr env w w' r. unfold cluster_call. destruct (nt_send addr env w) as [w1 b] eqn:Es. pose proof (no_send _ _ _ _ _ Es) as He1.
    destruct (if b then gateways addr else None) as [gw|] eqn:Eg; [|intros [= <- <-]; by split].
    assert (GatewayOk gw) as Hgw by (destruct b; [by eapply Hgateways|done]).
    destruct (serve_with_context gw env user w1) as [w2 o] eqn:E. destruct (serve_spec gw Hgw _ _ _ _ E) as [He2 Ha].
    pose proof (evolves_trans _ _ _ _ _ He1 He2) as He12.
    destruct o as [[reply|]|]; [|intros [= <- <-]; by split..].
    destruct (nt_return w2) as [w3 back] eqn:Er. pose proof (no_return _ _ _ Er) as He3. intros [= <- <-].
    split; [eapply evolves_trans; [exact He12|by apply still_evolves]|]. intros Hw p req reply' x Hcar Hb Hcl Hd.
    destruct back; [|done]. injection Hb as <-. destruct He1 as [Ho1 _]. specialize (Ha (Ho1 Hw) p req reply x Hcar eq_refl Hcl Hd).
    destruct x; try done. destruct Ha as (i & index & r & Hi & Hr & ? & ?). destruct He3 as [_ He3]. destruct (He3 p) as [Hp _].
    exists i, index, r. split_and!; [by eapply prefix_lookup_Some|by eapply results_prefix|done..]. }
  constructor.
  - intros addr env w w' r E. by apply Hcall in E as [? _].
  - apply no_sleep.
  - intros addr env w w' reply p req wr Hw E Hcar Hcl Hd. apply Hcall in E as [_ Ha].
    destruct (Ha Hw p req reply _ Hcar eq_refl Hcl Hd) as (i & index & r & ? & ? & ? & _). exists i, index, r. by split_and!.
  - intros addr env w w' reply p req e Hw E Hcar Hcl Hd. apply Hcall in E as [_ Ha]. by apply (Ha Hw p req reply _ Hcar eq_refl Hcl Hd).
  - apply no_refused.
Qed.
End cluster.
