(* ===== verification/WireBincode.v ===== *)
(** * The wire formats of search and of the client API

    The bincode instances of the types of src/src/search/definition.rs that
    shards and coordinator exchange, and of src/src/api/ops.rs. *)

From S2P Require Import Prelude BTree Types Codec SearchDef Query Envelope Security Keyspace Outbox ApplyDurability Aio Rocks Storage Maintenance DataSM PartitionNode Api Gateway Client SearchStore ApplyRaft DataSpec Bincode Oracles DataProofs Service NodeProofs GatewayProofs.

(** ** The wire format of search (src/src/search/definition.rs)

    The bincode instances of the replies and statistics the shards exchange
    with the coordinator. *)

#[local] Unset Program Cases.

(** A signed integer is its two's complement. *)
Definition I64 := Z.
#[global] Typeclasses Opaque I64.
#[global] Instance I64_wf : Wf I64 := λ z, (-9223372036854775808 ≤ z < 9223372036854775808)%Z.
Lemma two_complement (z : Z) : (-9223372036854775808 ≤ z < 9223372036854775808)%Z →
  let n := Z.to_N (z mod 18446744073709551616) in
  (n ≤ u64_max)%N ∧ (if (n <? 9223372036854775808)%N then Z.of_N n else (Z.of_N n - 18446744073709551616)%Z) = z.
Proof.
  intros Hz. cbn zeta. assert (z mod 18446744073709551616 = if (z <? 0)%Z then z + 18446744073709551616 else z)%Z as ->.
  { destruct (Z.ltb_spec z 0); [|by apply Z.mod_small; lia].
    rewrite <-(Z.mod_add z 1) by lia. apply Z.mod_small. lia. }
  unfold u64_max. destruct (Z.ltb_spec z 0); case_match eqn:E; rewrite ?N.ltb_lt, ?N.ltb_ge in E; lia.
Qed.
#[global] Program Instance bin_i64 : Bin I64 := {|
  put z := put (A:=U64) (Z.to_N (z mod 18446744073709551616));
  get b := '(n, b) ← get (A:=U64) b;
    Some (if (n <? 9223372036854775808)%N then Z.of_N n else (Z.of_N n - 18446744073709551616)%Z, b);
|}.
Next Obligation.
  intros z rest [Hn Hz]%two_complement. cbn beta. rewrite (get_put (A:=U64)) by exact Hn. cbn [mbind option_bind]. by rewrite Hz.
Qed.
Next Obligation. intros z [Hn _]%two_complement. by apply (put_length (A:=U64)). Qed.

#[global] Program Instance bin_SortValue : Bin SortValue := {|
  put v := match v with
    | SortValue_U64 n => variant 0 (n : U64)
    | SortValue_I64 z => variant 1 (z : I64)
    | SortValue_F64 b => variant 2 (b : U64)
    | SortValue_Bool b => variant 3 b
    | SortValue_String s => variant 4 s end;
  get b := '(i, b) ← get (A:=U32) b; match i with
    | 0%N => '(x, b) ← get (A:=U64) b; Some (SortValue_U64 x, b)
    | 1%N => '(x, b) ← get (A:=I64) b; Some (SortValue_I64 x, b)
    | 2%N => '(x, b) ← get (A:=U64) b; Some (SortValue_F64 x, b)
    | 3%N => '(x, b) ← get (A:=bool) b; Some (SortValue_Bool x, b)
    | 4%N => '(x, b) ← get (A:=string) b; Some (SortValue_String x, b)
    | _ => None end;
|}.
Next Obligation. solve_enum. Qed.
Next Obligation. solve_enum_length. Qed.

#[global] Instance bin_StoredField : Bin StoredField.
Proof.
  refine (bin_iso (B := string * list SortValue) (λ r, (fd_name r, fd_values r)) (λ '(x0, x1), mkStoredField x0 x1) _ _);
    abstract solve_struct.
Defined.

#[global] Instance bin_SearchHit : Bin SearchHit.
Proof.
  refine (bin_iso (B := U16 * (list byte * (U64 * (option U32 * (list SortValue * list StoredField)))))
    (λ r, (hit_partition r, (hit_key r, (hit_version r, (hit_score r, (hit_sort_values r, hit_stored_fields r))))))
    (λ '(x0, (x1, (x2, (x3, (x4, x5))))), mkSearchHit x0 x1 x2 x3 x4 x5) _ _); abstract solve_struct.
Defined.

#[global] Instance bin_PartitionFailure : Bin PartitionFailure.
Proof.
  refine (bin_iso (B := U16 * string) (λ r, (pf_partition r, pf_reason r)) (λ '(x0, x1), mkPartitionFailure x0 x1) _ _);
    abstract solve_struct.
Defined.

#[global] Instance bin_SearchReply : Bin SearchReply.
Proof.
  refine (bin_iso (B := U64 * (Digest32 * (list SearchHit * (U64 * (bool * list PartitionFailure)))))
    (λ r, (rp_generation r, (rp_definition_hash r, (rp_hits r, (rp_total_hits r, (rp_partial r, rp_failed_partitions r))))))
    (λ '(x0, (x1, (x2, (x3, (x4, x5))))), mkSearchReply x0 x1 x2 x3 x4 x5) _ _); abstract solve_struct.
Defined.

#[global] Instance bin_ShardStatistics : Bin ShardStatistics.
Proof.
  refine (bin_iso (B := U64 * (list (string * U64) * list (list byte * U64)))
    (λ r, (ss_total_docs r, (ss_field_tokens r, ss_term_doc_freq r)))
    (λ '(x0, (x1, x2)), mkShardStatistics x0 x1 x2) _ _).
  - abstract (by intros []).
  - abstract (intros [] (? & (? & ?) & (? & Ht)); split; [done|split; split; [done..|]];
              eapply Forall_impl; [exact Ht|]; intros kv [? ?]; split; [by apply bytes_wf|done]).
Defined.

(** ** The wire format of the client API

    The bincode instances of the types of src/src/api/ops.rs. *)
#[local] Unset Program Cases.

#[global] Program Instance bin_Consistency : Bin Consistency := {|
  put c := match c with
    | Consistency_Linearizable => unit_variant 0
    | Consistency_Stale m => variant 1 (m : option U64) end;
  get b := '(i, b) ← get (A:=U32) b; match i with
    | 0%N => Some (Consistency_Linearizable, b)
    | 1%N => '(m, b) ← get (A:=option U64) b; Some (Consistency_Stale m, b)
    | _ => None end;
|}.
Next Obligation. solve_enum. Qed.
Next Obligation. solve_enum_length. Qed.

#[global] Program Instance bin_ClientRequest : Bin ClientRequest := {|
  put r := match r with
    | ClientRequest_Mutate d => variant 0 d
    | ClientRequest_Read k c => variant 1 (k, c) end;
  get b := '(i, b) ← get (A:=U32) b; match i with
    | 0%N => '(d, b) ← get (A:=DataRequest) b; Some (ClientRequest_Mutate d, b)
    | 1%N => '((k, c), b) ← get (A:=list byte * Consistency) b; Some (ClientRequest_Read k c, b)
    | _ => None end;
|}.
Next Obligation. solve_enum. Qed.
Next Obligation. solve_enum_length. Qed.

#[global] Program Instance bin_RejectReason : Bin RejectReason := {|
  put r := match r with
    | RejectReason_RecoveryEpochMismatch e g => variant 0 ((e : U128), (g : U128))
    | RejectReason_SequenceGap e g => variant 1 ((e : U64), (g : U64))
    | RejectReason_StaleSequence h g => variant 2 ((h : U64), (g : U64))
    | RejectReason_SequenceMismatch => unit_variant 3
    | RejectReason_Malformed => unit_variant 4
    | RejectReason_SequenceExhausted => unit_variant 5 end;
  get b := '(i, b) ← get (A:=U32) b; match i with
    | 0%N => '((x, y), b) ← get (A:=U128 * U128) b; Some (RejectReason_RecoveryEpochMismatch x y, b)
    | 1%N => '((x, y), b) ← get (A:=U64 * U64) b; Some (RejectReason_SequenceGap x y, b)
    | 2%N => '((x, y), b) ← get (A:=U64 * U64) b; Some (RejectReason_StaleSequence x y, b)
    | 3%N => Some (RejectReason_SequenceMismatch, b)
    | 4%N => Some (RejectReason_Malformed, b)
    | 5%N => Some (RejectReason_SequenceExhausted, b)
    | _ => None end;
|}.
Next Obligation. solve_enum. Qed.
Next Obligation. solve_enum_length. Qed.

#[global] Program Instance bin_WriteReply : Bin WriteReply := {|
  put r := match r with
    | WriteReply_Applied v => variant 0 (v : U64)
    | WriteReply_ConditionFailed c => variant 1 c
    | WriteReply_Rejected r => variant 2 r end;
  get b := '(i, b) ← get (A:=U32) b; match i with
    | 0%N => '(v, b) ← get (A:=U64) b; Some (WriteReply_Applied v, b)
    | 1%N => '(c, b) ← get (A:=KeyPresence) b; Some (WriteReply_ConditionFailed c, b)
    | 2%N => '(r, b) ← get (A:=RejectReason) b; Some (WriteReply_Rejected r, b)
    | _ => None end;
|}.
Next Obligation. solve_enum. Qed.
Next Obligation. solve_enum_length. Qed.

#[global] Instance bin_Redirect : Bin Redirect.
Proof.
  refine (bin_iso (B := U128 * (option U64 * list U64))
    (λ r, (rd_cluster_id r, (rd_leader r, rd_candidates r)))
    (λ '(x0, (x1, x2)), mkRedirect x0 x1 x2) _ _); abstract solve_struct.
Defined.

#[global] Program Instance bin_ClientReply : Bin ClientReply := {|
  put r := match r with
    | ClientReply_RecoveryEpochMismatch e g => variant 0 ((e : U128), (g : U128))
    | ClientReply_Mutation w => variant 1 w
    | ClientReply_Value v => variant 2 (v : option (U64 * list byte))
    | ClientReply_Redirect r => variant 3 r
    | ClientReply_Recovering => unit_variant 4
    | ClientReply_Refused e => variant 5 e
    | ClientReply_Error e => variant 6 e
    | ClientReply_Unavailable e => variant 7 e
    | ClientReply_Denied e => variant 8 e end;
  get b := '(i, b) ← get (A:=U32) b; match i with
    | 0%N => '((x, y), b) ← get (A:=U128 * U128) b; Some (ClientReply_RecoveryEpochMismatch x y, b)
    | 1%N => '(x, b) ← get (A:=WriteReply) b; Some (ClientReply_Mutation x, b)
    | 2%N => '(x, b) ← get (A:=option (U64 * list byte)) b; Some (ClientReply_Value x, b)
    | 3%N => '(x, b) ← get (A:=Redirect) b; Some (ClientReply_Redirect x, b)
    | 4%N => Some (ClientReply_Recovering, b)
    | 5%N => '(x, b) ← get (A:=string) b; Some (ClientReply_Refused x, b)
    | 6%N => '(x, b) ← get (A:=string) b; Some (ClientReply_Error x, b)
    | 7%N => '(x, b) ← get (A:=string) b; Some (ClientReply_Unavailable x, b)
    | 8%N => '(x, b) ← get (A:=string) b; Some (ClientReply_Denied x, b)
    | _ => None end;
|}.
Next Obligation.
  intros x rest Hx. destruct x as [| |v| | | | | |]; unfold variant, unit_variant;
    rewrite <-?(assoc_L (++)), get_tag by (vm_compute; discriminate); cbn [mbind option_bind]; try done.
  all: match goal with |- context [get (put ?y ++ ?r)] => rewrite (get_put y r); [done|] end; try solve_wf.
  destruct v as [[n l]|]; [|done]. destruct Hx. split; [done|by apply bytes_wf].
Qed.
Next Obligation. solve_enum_length. Qed.

#[global] Instance bincode_reply_tags : ReplyTags.
Proof.
  intros r r'. unfold decode, encode, bin_codec. destruct (get (put r)) as [[x rest]|] eqn:E; [|done]. intros [= <-]. revert E.
  assert (∀ A (o : option (A * bytes)) (f : A → ClientReply) n, (∀ a, reply_tag (f a) = n) →
    ('(a, b) ← o; Some (f a, b)) = Some (x, rest) → reply_tag x = n) as Hf.
  { intros A [[a b]|] f n Hn; [|done]. by intros [= <- _]. }
  destruct r as [| | | | | | | |]; cbn [put get bin_ClientReply]; unfold variant, unit_variant.
  5: rewrite <-(app_nil_r (put (A:=U32) 4%N)).
  all: rewrite get_tag by (vm_compute; discriminate); cbn [mbind option_bind reply_tag].
  2,3,4,6,7,8,9: by apply Hf.
  - destruct (get _) as [[[a b] l]|]; [|done]. by intros [= <- _].
  - by intros [= <- _].
Qed.

#[global] Instance bin_RoutingInfo : Bin RoutingInfo.
Proof.
  refine (bin_iso (B := U128 * (U128 * (U16 * (HashSpec * (list NodeDirectoryEntry * list (U16 * Placement))))))
    (λ r, (ri_cluster_id r, (ri_recovery_epoch r, (ri_p r, (ri_hash_spec r, (ri_directory r, ri_placements r))))))
    (λ '(x0, (x1, (x2, (x3, (x4, x5))))), mkRoutingInfo x0 x1 x2 x3 x4 x5) _ _); abstract solve_struct.
Defined.
#[global] Instance bin_RoutingQuery : Bin RoutingQuery.
Proof. refine (bin_iso (B := bool) rq_local_only mkRoutingQuery _ _); abstract solve_struct. Defined.

#[global] Program Instance bin_SearchShardReply `{Bin R} : Bin (SearchShardReply R) := {|
  put r := match r with
    | SearchShardReply_Result r => variant 0 r
    | SearchShardReply_Redirect r => variant 1 r
    | SearchShardReply_Refused e => variant 2 e
    | SearchShardReply_Error e => variant 3 e
    | SearchShardReply_Denied e => variant 4 e end;
  get b := '(i, b) ← get (A:=U32) b; match i with
    | 0%N => '(x, b) ← get (A:=R) b; Some (SearchShardReply_Result x, b)
    | 1%N => '(x, b) ← get (A:=Redirect) b; Some (SearchShardReply_Redirect x, b)
    | 2%N => '(x, b) ← get (A:=string) b; Some (SearchShardReply_Refused x, b)
    | 3%N => '(x, b) ← get (A:=string) b; Some (SearchShardReply_Error x, b)
    | 4%N => '(x, b) ← get (A:=string) b; Some (SearchShardReply_Denied x, b)
    | _ => None end;
|}.
Next Obligation. intros R ? ?. solve_enum. Qed.
Next Obligation. intros R ? ?. solve_enum_length. Qed.

#[global] Instance bin_SearchCatalogQuery : Bin SearchCatalogQuery.
Proof.
  refine (bin_iso (B := string * (bool * bool)) (λ q, (cq_name q, (cq_local_only q, cq_all q)))
    (λ '(x0, (x1, x2)), mkSearchCatalogQuery x0 x1 x2) _ _); abstract solve_struct.
Defined.
#[global] Program Instance bin_SearchCatalogReply : Bin SearchCatalogReply := {|
  put r := match r with
    | SearchCatalogReply_Record r => variant 0 r
    | SearchCatalogReply_Catalog l => variant 1 l
    | SearchCatalogReply_Unavailable => unit_variant 2
    | SearchCatalogReply_Error e => variant 3 e
    | SearchCatalogReply_Denied e => variant 4 e end;
  get b := '(i, b) ← get (A:=U32) b; match i with
    | 0%N => '(x, b) ← get (A:=option SearchIndexRecord) b; Some (SearchCatalogReply_Record x, b)
    | 1%N => '(x, b) ← get (A:=list SearchIndexRecord) b; Some (SearchCatalogReply_Catalog x, b)
    | 2%N => Some (SearchCatalogReply_Unavailable, b)
    | 3%N => '(x, b) ← get (A:=string) b; Some (SearchCatalogReply_Error x, b)
    | 4%N => '(x, b) ← get (A:=string) b; Some (SearchCatalogReply_Denied x, b)
    | _ => None end;
|}.
Next Obligation. solve_enum. Qed.
Next Obligation. solve_enum_length. Qed.
