(* ===== verification/StorageDemo.v ===== *)
(** * Concrete stores

    A search journal with a registered index, and a directory that a crash left
    with unfinished work. *)

From S2P Require Import Prelude BTree Types Codec SearchDef Keyspace Outbox ApplyDurability Rocks Storage Startup DataSM SearchStore Bincode Demo.

(** ** A concrete search journal

    One data group with two dirty entries and one registered index whose
    checkpoint covers the first of them. *)

Definition journal_group : GroupId := GroupId_Data 0.
Definition journal_id (index : N) : RaftLogId := mkRaftLogId 1 1 index.
Definition outbox_key_of (index : N) (k : bytes) : bytes :=
  match encode_outbox_key journal_group 1 (journal_id index) k with Ok key => key | Err _ => [] end.
Definition journal_hash : bytes := replicate 32 x05.
Definition journal_consumer : SearchConsumerState :=
  mkConsumer journal_hash 2 (Some (mkCheckpoint 1 journal_hash 2 (Some (journal_id 3)))) None false.
Definition journal_consumer_key : bytes := search_consumer_key journal_group "idx" 7.
Definition journal_record : KeyRecord := mkKeyRecord 5 [x62].

Definition journal_store : Storage MemDb :=
  set_db (write (create_cf (∅ : MemDb) (cf_state journal_group))
    [BatchPut DEFAULT_CF (outbox_key_of 3 [x61]) []; BatchPut DEFAULT_CF (outbox_key_of 5 [x62]) [];
     BatchPut DEFAULT_CF journal_consumer_key (encode journal_consumer);
     BatchPut (cf_state journal_group) (user_key [x62]) (encode journal_record)]) empty_storage.

Lemma journal_cache_ok : cache_ok journal_store.
Proof. intros g n. simpl. by rewrite lookup_empty. Qed.

Lemma prune_search_outbox_exact_witness :
  db_get (st_db (prune_search_outbox journal_group journal_store).1) (outbox_key_of 3 [x61]) = None.
Proof.
  refine (proj1 (prune_search_outbox_exact journal_store journal_group _ 1
    [(journal_consumer_key, journal_consumer)] 1 journal_cache_ok _ _ _) _ _).
  - refine (eq_trans (surjective_pairing _) _). f_equal.
  - vm_compute. reflexivity.
  - vm_compute. reflexivity.
  - exists (mkOutboxEntry 1 (journal_id 3) [x61]). split; [vm_compute; reflexivity|].
    intros k c [= -> ->]%list_elem_of_singleton _.
    eapply discards_checkpoint; [reflexivity..|]. right. split; [reflexivity|vm_compute; discriminate].
Defined.

Definition journal_view : SearchSourceView :=
  mkSourceView (st_db journal_store) (cf_state journal_group) journal_group 1 (Some (journal_id 6)).

Lemma for_each_dirty_exact_witness :
  ([x62], Some (5%N, [x62])) ∈ match for_each_dirty journal_view 3 with Ok rows => rows | Err _ => [] end.
Proof.
  assert (for_each_dirty journal_view 3 = Ok [([x62], Some (5%N, [x62]))]) as E by (vm_compute; reflexivity).
  rewrite E. apply (for_each_dirty_exact journal_view 3 _ ltac:(vm_compute; discriminate) E).
  exists (outbox_key_of 5 [x62]), [], (mkOutboxEntry 1 (journal_id 5) [x62]).
  repeat split; vm_compute; first [reflexivity|discriminate].
Defined.

(** ** Opening a directory after a crash

    Partition 0 was switched to a staged generation, its old state not yet
    dropped; partition 1 was being reclaimed. *)
Definition hosted : GroupId := GroupId_Data 0.
Definition leaving : GroupId := GroupId_Data 1.
Definition generation_name : string := cf_state hosted +:+ "__snapshot_2".

Definition crashed_db : MemDb :=
  write (foldl create_cf (∅ : MemDb) [cf_log hosted; cf_state hosted; generation_name; cf_log leaving])
    [BatchPut DEFAULT_CF (state_cf_pointer_key hosted) (encode generation_name);
     BatchPut DEFAULT_CF (serving_key hosted) (encode ServingState_Serving);
     BatchPut DEFAULT_CF (serving_key leaving) (encode ServingState_NonServing);
     BatchPut (cf_log hosted) [x01] [x02]; BatchPut generation_name (user_key [x61]) [x62]; BatchPut (cf_log leaving) [x01] [x03]].

Lemma crashed_layout : layout_ok crashed_db.
Proof.
  constructor; intros k v Hk Hv.
  - assert ((k, v) ∈ scan_prefix crashed_db DEFAULT_CF state_cf_pointer_prefix) as Hin
      by (apply elem_of_scan_prefix; split; [by apply starts_with_spec|exact Hv]).
    assert (scan_prefix crashed_db DEFAULT_CF state_cf_pointer_prefix = [(state_cf_pointer_key hosted, encode generation_name)]) as E
      by (vm_compute; reflexivity).
    rewrite E in Hin. apply list_elem_of_singleton in Hin. injection Hin as -> ->.
    exists hosted, generation_name. split_and!; [by vm_compute|reflexivity|by vm_compute|].
    apply valid_cf_name_cases. right. by vm_compute.
  - assert ((k, v) ∈ scan_prefix crashed_db DEFAULT_CF serving_prefix) as Hin
      by (apply elem_of_scan_prefix; split; [by apply starts_with_spec|exact Hv]).
    assert (scan_prefix crashed_db DEFAULT_CF serving_prefix =
      [(serving_key hosted, encode ServingState_Serving); (serving_key leaving, encode ServingState_NonServing)]) as E
      by (vm_compute; reflexivity).
    rewrite E in Hin. apply elem_of_cons in Hin as [[-> ->]%pair_equal_spec|[-> ->]%list_elem_of_singleton%pair_equal_spec].
    + exists hosted, ServingState_Serving. split_and!; by vm_compute.
    + exists leaving, ServingState_NonServing. split_and!; by vm_compute.
Qed.

Definition reopened : Storage MemDb * Result unit := open_with_limits 1 0 ApplyDurabilityLimits_default crashed_db.

Lemma open_recovers_witness :
  cf_exists (st_db reopened.1) (cf_log leaving) = false ∧ cf_exists (st_db reopened.1) (cf_state hosted) = false ∧
  get_cf (st_db reopened.1) generation_name (user_key [x61]) = Some [x62].
Proof.
  destruct (open_recovers 1 0 ApplyDurabilityLimits_default crashed_db reopened.1 reopened.2 crashed_layout (surjective_pairing _))
    as (_ & _ & _ & Hg).
  destruct (Hg leaving) as [Hgone _]. destruct (Hg hosted) as [_ Hkept].
  assert (kept hosted crashed_db (st_db reopened.1)) as Hk.
  { apply Hkept. intros [Hn|(n & Hn & Hx)]; [by vm_compute in Hn|].
    assert (pointer_of crashed_db hosted = Some generation_name) as E by (vm_compute; reflexivity).
    rewrite E in Hn. injection Hn as <-. by vm_compute in Hx. }
  split_and!.
  - apply (nt_families _ _ (Hgone (or_introl eq_refl))). by vm_compute.
  - rewrite (kp_families _ _ _ Hk) by (by vm_compute). by vm_compute.
  - rewrite (kp_contents _ _ _ Hk) by ((right; by vm_compute) || (by vm_compute)). by vm_compute.
Defined.
