(* ===== verification/SearchServiceDemo.v ===== *)
(** * Concrete searches

    A small index in the place of Tantivy, projected, released and rebuilt;
    then a service and a coordinator over it. *)

From S2P Require Import Prelude SortBy BTree Types Codec SearchDef Query Coordinator CoordinatorProofs Keyspace Outbox ApplyDurability Aio Rocks Storage DataSM PartitionNode SearchStore SearchWorker SearchWorkerProofs SearchShard SearchService SearchServiceProofs SearchEndToEnd Bincode WireBincode Demo StorageDemo.

(** ** A concrete search index

    An in-memory index in the place of Tantivy, one pass over the journal of
    [StorageDemo], and the sequence of passes after which a released index
    reports itself caught up without the updates it missed. *)

Record MemIndex := mkMemIndex {
  mx_committed : gmap bytes bytes;
  mx_payload : option IndexCheckpoint;
  mx_pending : gmap bytes bytes;
}.

#[global] Instance mem_tantivy : Tantivy MemIndex bytes := {|
  tv_committed := mx_committed;
  tv_payload := mx_payload;
  tv_pending := mx_pending;
  tv_delete_term k i := mkMemIndex (mx_committed i) (mx_payload i) (delete k (mx_pending i));
  tv_add_document k d i := mkMemIndex (mx_committed i) (mx_payload i) (<[k := d]> (mx_pending i));
  tv_delete_all_documents i := mkMemIndex (mx_committed i) (mx_payload i) (mx_pending i ∖ mx_committed i);
  tv_rollback i := mkMemIndex (mx_committed i) (mx_payload i) (mx_committed i);
  tv_commit ck i := mkMemIndex (mx_pending i) (Some ck) (mx_pending i);
|}.

#[global] Instance mem_tantivy_ok : TantivyOk MemIndex bytes.
Proof. split; try done. intros i. simpl. intros ->. apply map_difference_diag. Qed.

Definition demo_document (key : bytes) (version : N) (value : bytes) : Extracted bytes := Extracted_Document value.
Definition demo_definition : SearchIndexDefinition := mkSearchDefinition "doc" [] [].
Definition demo_generation : SearchIndexGeneration := mkSearchGeneration 7 journal_hash 2 demo_definition.

(** The journal's store with everything up to entry 6 applied. *)
Definition worker_store : Storage MemDb :=
  set_db (write (st_db journal_store)
    [BatchPut (cf_state journal_group) raft_applied_key
       (encode (mkRaftApplied (Some (journal_id 6)) (mkMembership None [] [])))]) empty_storage.
Definition demo_checkpoint : IndexCheckpoint := mkCheckpoint 1 journal_hash 2 (Some (journal_id 3)).
Definition demo_index : LocalSearchIndex MemIndex bytes :=
  mkLocalIndex journal_group demo_generation (mkMemIndex ∅ (Some demo_checkpoint) ∅) ∅ (Some demo_checkpoint).
Definition demo_worker : SearchIndexWorker MemDb MemIndex bytes := mkWorker worker_store demo_index false.

(** Entry 6 is durable; the commit of the pass has the given fate. *)
Definition demo_env (fate : CommitFate) : PassEnv MemDb :=
  mkPassEnv 0 0 [op_register 0 journal_group (Some (journal_id 6))] id None (λ _, None) fate None.

Definition view_of (s : Storage MemDb) : SearchSourceView :=
  match search_source_view s journal_group with Ok v => v | Err _ => mkSourceView (st_db s) "" journal_group 0 None end.
Lemma view_of_ok s : is_ok (search_source_view s journal_group) = true → search_source_view s journal_group = Ok (view_of s).
Proof. unfold view_of. by destruct (search_source_view s journal_group). Qed.

Definition demo_view : SearchSourceView := view_of worker_store.
Lemma demo_view_ok : search_source_view worker_store journal_group = Ok demo_view.
Proof. apply view_of_ok. vm_compute. reflexivity. Qed.

Lemma worker_cache_ok : cache_ok worker_store.
Proof. intros g n. simpl. by rewrite lookup_empty. Qed.

(** The only record of the store is that of the journal's second key. *)
Lemma demo_image k : k ≠ [x62] → image demo_document demo_view k = None.
Proof.
  intros Hk. assert (for_each_user demo_view = Ok [([x62], (5%N, [x62]))]) as E by (vm_compute; reflexivity).
  apply for_each_user_source in E as (_ & _ & Hs). unfold image. destruct (source_of demo_view k) eqn:Es; [|done].
  specialize (Hs k ltac:(by eexists)). apply list_elem_of_singleton in Hs. destruct (Hk Hs).
Qed.

Lemma demo_covers : covers demo_document demo_index demo_view.
Proof.
  intros ck E k. assert (validate_checkpoint demo_index (sv_epoch demo_view) = Some demo_checkpoint) as E' by (vm_compute; reflexivity).
  rewrite E' in E. injection E as <-. clear E'.
  destruct (decide (k = [x62])) as [->|Hk].
  - left. exists (mkOutboxEntry 1 (journal_id 5) [x62]). split; [|reflexivity].
    exists (outbox_key_of 5 [x62]), []. repeat split; vm_compute; first [reflexivity|discriminate].
  - right. by rewrite demo_image.
Qed.

Definition pass_result : SearchIndexWorker MemDb MemIndex bytes * poll (Result SearchCatchUp) :=
  run_pass demo_document journal_group "idx" (demo_env Commit_Ok) false demo_worker.

Lemma search_pass_exact_witness :
  li_searcher (sw_index pass_result.1) !! [x62] = Some [x62] ∧ pass_result.2 = Ready (Ok (mkCatchUp false 1 0 (Some 6%N))).
Proof.
  assert (pass_result.2 = Ready (Ok (mkCatchUp false 1 0 (Some 6%N)))) as E by (vm_compute; reflexivity).
  destruct (search_pass_exact demo_document journal_group "idx" (demo_env Commit_Ok) demo_worker pass_result.1 pass_result.2
    demo_view false worker_cache_ok demo_view_ok ltac:(vm_compute; discriminate) eq_refl (or_intror demo_covers)
    (surjective_pairing _)) as [[[_ Hn]|Hp] _].
  - destruct Hn. rewrite E. by eexists.
  - split; [|exact E]. etransitivity; [exact (pb_searcher _ _ _ _ Hp [x62])|]. vm_compute. reflexivity.
Defined.

(** The index is released from retention, its journal pruned; the forced rebuild fails to commit; the next pass. *)
Definition released_worker : SearchIndexWorker MemDb MemIndex bytes :=
  mkWorker (enforce_search_outbox_bounds journal_group 0 0 worker_store).1 demo_index false.
Definition failed_rebuild : SearchIndexWorker MemDb MemIndex bytes * poll (Result SearchCatchUp) :=
  catch_up demo_document journal_group "idx" (demo_env (Commit_Failed "disk full")) released_worker.
Definition next_pass : SearchIndexWorker MemDb MemIndex bytes * poll (Result SearchCatchUp) :=
  catch_up demo_document journal_group "idx" (demo_env Commit_Ok) failed_rebuild.1.

Definition released_view : SearchSourceView := view_of (sw_storage released_worker).
Definition failed_view : SearchSourceView := view_of (sw_storage failed_rebuild.1).
Definition released_consumer : SearchConsumerState :=
  match read_consumer (sw_storage released_worker) journal_group "idx" 7 with
  | Ok (Some c) => c
  | _ => mkConsumer [] 0 None None false
  end.

Lemma released_view_ok : search_source_view (sw_storage released_worker) journal_group = Ok released_view.
Proof. apply view_of_ok. vm_compute. reflexivity. Qed.
Lemma failed_view_ok : search_source_view (sw_storage failed_rebuild.1) journal_group = Ok failed_view.
Proof. apply view_of_ok. vm_compute. reflexivity. Qed.
Lemma released_due : rebuild_due journal_group "idx" demo_index (sw_storage released_worker) released_consumer.
Proof. constructor; vm_compute; try reflexivity. repeat split; discriminate. Qed.
Lemma released_cache_ok : cache_ok (sw_storage released_worker).
Proof.
  intros g n. assert (st_active_state_cfs (sw_storage released_worker) = ∅) as -> by (vm_compute; reflexivity). by rewrite lookup_empty.
Qed.
(** The journal is empty after the release. *)
Lemma failed_not_dirty k : ¬ dirty failed_view 3 k.
Proof.
  intros Hd. assert (for_each_dirty failed_view 3 = Ok []) as E by (vm_compute; reflexivity).
  apply for_each_dirty_source in E as [_ Hall]; [|vm_compute; discriminate]. by apply Hall, not_elem_of_nil in Hd.
Qed.


(** ** A concrete search

    A query engine over byte strings in the place of Tantivy's, one search
    service that installs a generation, backfills it and answers both phases
    of a search, and the coordinator's reply. *)
(** A query is a byte the document contains, or everything; a document scores
    by how often it has the byte. *)
Definition occurrences (b : byte) (d : bytes) : N := N.of_nat (length (filter (λ c, c = b) d)).
Definition mem_matches (q : option byte) (d : bytes) : bool :=
  match q with None => true | Some b => bool_decide (b ∈ d) end.
Definition mem_score (q : option byte) (st : Bm25 byte) (d : bytes) : F32 :=
  match q with
  | None => 1065353216%N
  | Some b => match bm_doc_freq st b with Ok n => (1065353216 + 16 * occurrences b d - n)%N | Err _ => 0%N end
  end.
Definition mem_scored (docs : gmap bytes bytes) (q : option byte) (st : Bm25 byte) : list (F32 * bytes) :=
  (λ kd, (mem_score q st kd.2, kd.1)) <$> filter (λ kd, mem_matches q kd.2 = true) (map_to_list docs).

#[global] Instance mem_query : TantivyQuery bytes (option byte) byte := {|
  tq_all := None;
  tq_parse _ text := match as_bytes text with b :: _ => Ok (Some b) | [] => Err (Error_Search "empty query") end;
  tq_terms q := match q with None => [] | Some b => [b] end;
  tq_term_field _ := "body";
  tq_term_type _ := x73;
  tq_term_value b := [b];
  tq_doc_freq docs b := Ok (N.of_nat (size (filter (λ kd, b ∈ kd.2) docs)));
  tq_total_num_tokens docs _ := Ok (N.of_nat (length (concat (map_to_list docs).*2)));
  tq_matches := mem_matches;
  tq_score := mem_score;
  tq_count docs q := Ok (N.of_nat (length (filter (λ kd, mem_matches q kd.2 = true) (map_to_list docs))));
  tq_top docs q st limit := Ok (take limit (sort_by top_order (mem_scored docs q st)));
  tq_version _ := Some 5%N;
  tq_values d _ := [];
|}.
#[global] Instance mem_query_ok : TantivyQueryOk bytes (option byte) byte.
Proof.
  split.
  - intros docs q n [= <-] st. unfold scored. by rewrite length_fmap.
  - by intros docs q st limit top [= <-].
Qed.

Definition body_field : SearchField := mkSearchField "body" [PathSegment_Key "body"] (FieldKind_Text "default" false) false false true false false.
Definition body_definition : SearchIndexDefinition := mkSearchDefinition "doc" [body_field] ["body"].
Definition body_generation : SearchIndexGeneration := mkSearchGeneration 9 (sha256 (encode body_definition)) SEARCH_ENGINE_REVISION body_definition.

(** ** One service: the generation is installed and backfilled, a search is
    prepared behind a barrier at entry 6 and executed. *)

Definition the {A} (d : A) (r : Result A) : A := match r with Ok a => a | Err _ => d end.

Abbreviation demo_service := (SearchService MemDb MemIndex bytes (option byte)).
Definition demo_new : Storage MemDb * Result demo_service := SearchService_new worker_store.
Definition service_0 : demo_service := the (mkService worker_store ∅ ∅ ∅ ∅ ∅ 0 1 0) demo_new.2.
Definition body_key : GenerationKey := (0%N, "body", 9%N).
Definition body_index : LocalSearchIndex MemIndex bytes :=
  mkLocalIndex journal_group body_generation (mkMemIndex ∅ None ∅) ∅ None.
Definition demo_installed : demo_service * Result (Next bytes (option byte) unit) :=
  install_begin 0 "body" body_generation true (Ok body_index) 1 service_0.
Definition demo_backfill : demo_service * poll (Result SearchCatchUp) :=
  with_worker 1 (catch_up_rebuilding demo_document journal_group "body" (demo_env Commit_Ok) true) demo_installed.1.
Definition backfilled : Result SearchCatchUp := Ok (mkCatchUp true 1 0 (Some 6%N)).
Definition demo_finished : demo_service * Result unit := install_finish body_key 1 true true backfilled demo_backfill.1.

Definition body_prepare : ShardPrepareRequest :=
  mkShardPrepareRequest "body" 9 (sg_definition_hash body_generation) (SearchQuery_Text "b" []) SearchConsistency_Strict 10.
Definition demo_barrier : Result SearchBarrier := Ok (SearchBarrier_Ready (Some (journal_id 6))).
Definition demo_gated : demo_service * poll (Result (Next bytes (option byte) ShardPrepareReply)) :=
  prepare_begin demo_document (demo_env Commit_Ok) 0 demo_barrier body_prepare demo_finished.1.
Definition body_checkpoint : IndexCheckpoint := mkCheckpoint 1 (sg_definition_hash body_generation) SEARCH_ENGINE_REVISION (Some (journal_id 6)).
Definition prepared_index : LocalSearchIndex MemIndex bytes := (default (body_index, true) (sx_heap demo_gated.1 !! 1%N)).1.
Definition body_statistics : ShardStatistics :=
  mkShardStatistics 1 [("body", 1%N)] [(be_bytes 4 4 ++ as_bytes "body" ++ [x73; x62], 1%N)].
Definition body_held : HeldSearch bytes (option byte) := mkHeld {[ [x62] := [x62] ]} (Some x62) body_checkpoint.
Definition demo_prepared : demo_service * Result ShardPrepareReply :=
  prepare_finish 0 0 body_generation 10 body_held body_statistics demo_gated.1.
Definition body_session : SearchSessionId := mkSessionId 1 1.
Definition body_prepared : ShardPrepared := mkShardPrepared body_session 6 body_statistics.
Definition held_session : HeldSession bytes (option byte) := mkSession 0 body_generation body_held 10 1 SEARCH_SESSION_TTL_MS.
Definition demo_executing : demo_service * Result (Next bytes (option byte) ShardExecuteReply) :=
  execute_begin 1 (mkShardExecuteRequest body_session body_statistics) (release_slot demo_prepared.1).
Definition body_hit : SearchHit := mkSearchHit 0 [x62] 5 (Some 1065353231%N) [] [].
Definition body_reply : SearchReply := mkSearchReply 9 (sg_definition_hash body_generation) [body_hit] 1 false [].
Definition demo_executed : demo_service * ShardExecuteReply := execute_finish held_session (Ok body_reply) demo_executing.1.
Definition demo_trace : list (Event (Doc:=bytes) (Q:=option byte)) :=
  [Event_Prepared 0 body_generation 10 body_held body_prepared; Event_Executed body_session body_statistics body_reply].

#[local] Strategy expand [demo_installed demo_backfill demo_finished demo_gated demo_prepared demo_executing demo_executed].

Lemma demo_new_ok : demo_new = (demo_new.1, Ok service_0).
Proof.
  apply pair_snd. unfold service_0. assert (is_ok demo_new.2 = true) as Hok by (vm_compute; reflexivity).
  revert Hok. by destruct demo_new.2.
Qed.
Lemma demo_install : rtc (run_step demo_document) (mkRun service_0 [] []) (mkRun demo_finished.1 [] []).
Proof.
  eapply rtc_l; [apply (step_install_begin _ 0 "body" body_generation true (Ok body_index) 1 _ demo_installed.1
                   (Ok (Next_Task (Task_Install body_key 1 true true true)))); [vm_compute; reflexivity|]|].
  { apply (pair_snd demo_installed). vm_compute. reflexivity. }
  eapply rtc_l; [apply (step_backfill _ (demo_env Commit_Ok) body_key 1 true true true _ demo_backfill.1 backfilled [] [])|].
  { apply (pair_snd demo_backfill). vm_compute. reflexivity. }
  eapply rtc_l; [apply (step_install_finish _ body_key 1 true true backfilled _ demo_finished.1 (Ok tt) [] [])|].
  { apply (pair_snd demo_finished). vm_compute. reflexivity. }
  apply rtc_refl.
Qed.
Lemma demo_gate_ok : demo_gated = (demo_gated.1, Ready (Ok (Next_Task (Task_Prepare body_prepare 0 1 body_checkpoint)))).
Proof. apply pair_snd. vm_compute. reflexivity. Qed.
Lemma demo_hold_ok : prepare_hold body_prepare prepared_index body_checkpoint = Ok (body_held, body_statistics).
Proof. vm_compute. reflexivity. Qed.
Lemma prepared_index_ok : sx_heap demo_gated.1 !! 1%N = Some (prepared_index, false).
Proof.
  unfold prepared_index. assert (snd <$> (sx_heap demo_gated.1 !! 1%N) = Some false) as E by (vm_compute; reflexivity).
  revert E. destruct (sx_heap demo_gated.1 !! 1%N) as [[i c]|]; [|done]. by intros [= ->].
Qed.
Lemma demo_prepare : rtc (run_step demo_document) (mkRun demo_finished.1 [] [])
  (mkRun (release_slot demo_prepared.1) [] [Event_Prepared 0 body_generation 10 body_held body_prepared]).
Proof.
  eapply rtc_l; [eapply step_prepare_begin, demo_gate_ok|]. cbn [push].
  eapply rtc_l; [apply (step_prepare_hold _ body_prepare 0 1 body_checkpoint prepared_index false _ [] []), prepared_index_ok|].
  rewrite demo_hold_ok. replace (li_generation prepared_index) with body_generation by (vm_compute; reflexivity).
  eapply rtc_l; [apply (step_prepare_finish _ 0 0 body_generation 10 body_held body_statistics _ demo_prepared.1
                   (Ok (ShardPrepareReply_Prepared body_prepared)) [] [])|].
  { apply (pair_snd demo_prepared). vm_compute. reflexivity. }
  apply rtc_refl.
Qed.
Lemma demo_execute : rtc (run_step demo_document)
  (mkRun (release_slot demo_prepared.1) [] [Event_Prepared 0 body_generation 10 body_held body_prepared])
  (mkRun demo_executed.1 [] demo_trace).
Proof.
  eapply rtc_l; [apply (step_execute_begin _ 1 (mkShardExecuteRequest body_session body_statistics) _ demo_executing.1
                   (Ok (Next_Task (Task_Execute body_session held_session body_statistics))))|].
  { apply (pair_snd demo_executing). vm_compute. reflexivity. }
  eapply rtc_l; [apply (step_execute_score _ body_session held_session body_statistics _ [] [])|].
  replace (execute_score held_session body_statistics) with (Ok body_reply : Result SearchReply) by (vm_compute; reflexivity).
  eapply rtc_l; [apply (step_execute_finish _ body_session held_session body_statistics (Ok body_reply) _ demo_executed.1
                   (ShardExecuteReply_Result body_reply) [] [])|].
  { apply (pair_snd demo_executed). vm_compute. reflexivity. }
  apply rtc_refl.
Qed.
Lemma service_run : rtc (run_step demo_document) (mkRun service_0 [] []) (mkRun demo_executed.1 [] demo_trace).
Proof. etransitivity; [apply demo_install|]. etransitivity; [apply demo_prepare|apply demo_execute]. Qed.

(** The run prepared and executed a session; nothing is held at its end. *)
Lemma service_sessions_witness :
  session_trace (sx_session_incarnation service_0) demo_trace ∧
  sx_shard_slots demo_executed.1 = SEARCH_MAX_CONCURRENT_SHARD ∧ size (sx_sessions demo_executed.1) = 0.
Proof.
  destruct (service_sessions demo_document worker_store demo_new.1 service_0 (mkRun demo_executed.1 [] demo_trace) demo_new_ok service_run)
    as (Ht & _ & Hs).
  split_and!; [exact Ht|rewrite <-(Nat.add_0_r (sx_shard_slots _)); exact Hs|vm_compute; reflexivity].
Defined.

(** ** The coordinator over one partition *)

#[local] Instance ShardStatistics_eq_dec : EqDecision ShardStatistics.
Proof. solve_decision. Defined.

Definition body_request : SearchRequest :=
  mkSearchRequest "body" (GenerationSelection_Exact 9) (SearchQuery_Text "b" []) 10 0 [] ScoringMode_GlobalBm25 SearchConsistency_Strict false 1000.
Definition demo_answers : Answers :=
  mkAnswers [] [(0%N, Ok body_prepared)]
    (λ sessions stats, if bool_decide (sessions = [(0%N, body_session)] ∧ stats = body_statistics)
                       then [((0%N, body_session), Ok body_reply)] else []).
Definition demo_shards (p : N) : list (Event (Doc:=bytes) (Q:=option byte)) := if (p =? 0)%N then demo_trace else [].
Definition demo_pins : pins (Doc:=bytes) (Q:=option byte) := λ p, if (p =? 0)%N then Some (body_generation, body_held) else None.

Lemma schedule_one {I T} (answers : I → Result T → Prop) i r : answers i r → schedule answers [i] [(i, r)].
Proof.
  intros Hr. exists [], []. eapply rtc_l; [apply fan_call; cbn; unfold SEARCH_MAX_FAN_OUT_CONCURRENCY; lia|].
  eapply rtc_l; [apply (fan_answer answers i [] [] [] []), Hr|]. apply rtc_refl.
Qed.
Lemma demo_executes (answers : N * SearchSessionId → Result SearchReply → Prop) sessions stats :
  (stats = body_statistics → answers (0%N, body_session) (Ok body_reply)) → schedule answers sessions (an_execute demo_answers sessions stats).
Proof.
  intros Ha. cbn [an_execute demo_answers]. case_bool_decide as E.
  - destruct E as [-> E]. by apply schedule_one, Ha.
  - exists sessions, []. apply rtc_refl.
Qed.
Lemma demo_service_traces p : service_trace (TI:=MemIndex) demo_document (demo_shards p).
Proof.
  exists worker_store, demo_new.1, service_0. unfold demo_shards. destruct (p =? 0)%N.
  - exists (mkRun demo_executed.1 [] demo_trace). split_and!; [apply demo_new_ok|apply service_run|done].
  - exists (mkRun service_0 [] []). split_and!; [apply demo_new_ok|apply rtc_refl|done].
Qed.

Lemma search_sessions_accounted_witness :
  (search_until 1 body_generation body_request demo_answers).2 ++ executed 1 body_request demo_answers ≡ₚ [(0%N, body_session)].
Proof.
  change [(0%N, body_session)] with (learned demo_answers).
  apply (search_sessions_accounted 1 body_generation body_request demo_answers).
  - reflexivity.
  - vm_compute. reflexivity.
  - by apply schedule_one.
  - intros sessions stats. by apply demo_executes.
Defined.

Lemma cluster_search_exact_witness :
  (search_until 1 body_generation body_request demo_answers).1 = Ok body_reply ∧
  ∃ prepared answered failures, answered ++ (pf_partition <$> failures) ≡ₚ [0%N] ∧
    Ok body_reply = search_result 1 body_generation
      (pinned_ranking demo_pins (sum_stats (pinned_stats demo_pins <$> prepared))) body_request answered failures.
Proof.
  assert ((search_until 1 body_generation body_request demo_answers).1 = Ok body_reply) as E by (vm_compute; reflexivity).
  split; [exact E|].
  destruct (cluster_search_exact demo_document 1 body_generation body_request demo_answers demo_shards demo_pins)
    as (prepared & answered & failures & _ & _ & _ & _ & Hp & Hr).
  - apply demo_service_traces.
  - reflexivity.
  - vm_compute. reflexivity.
  - apply schedule_one. intros pr [= <-]. exists body_generation, body_held. split; [reflexivity|by left].
  - intros sessions stats. apply demo_executes. intros -> reply [= <-]. by right; left.
  - exists prepared, answered, failures. split; [exact Hp|]. by rewrite <-E.
Defined.

(** ** Freshness: the index stands at entry 3 and the barrier at entry 6 *)

Definition lagging_service : demo_service := mkService worker_store {[1%N := (demo_index, false)]} {[(0%N, "idx", 7%N) := 1%N]} ∅ ∅ ∅ 1 1 64.
Definition lagging_prepare : ShardPrepareRequest :=
  mkShardPrepareRequest "idx" 7 journal_hash SearchQuery_MatchAll SearchConsistency_Strict 10.
Definition lagging_gated : demo_service * poll (Result (Next bytes (option byte) ShardPrepareReply)) :=
  prepare_begin demo_document (demo_env Commit_Ok) 0 demo_barrier lagging_prepare lagging_service.
Definition lagging_checkpoint : IndexCheckpoint := mkCheckpoint 1 journal_hash 2 (Some (journal_id 6)).
Definition lagging_index : LocalSearchIndex MemIndex bytes := (default (demo_index, true) (sx_heap lagging_gated.1 !! 1%N)).1.
#[local] Strategy expand [lagging_gated].

Lemma lagging_serviceable : serviceable demo_document lagging_service 0 1 "idx" demo_index demo_view.
Proof.
  split; [by exists false|apply worker_cache_ok|apply demo_view_ok|vm_compute; discriminate|reflexivity|right; apply demo_covers].
Qed.

