(* ===== verification/SearchValueDemo.v ===== *)
(** * A concrete indexed record

    A small buffer format in the place of FlatBuffers and FlexBuffers, a
    document as the list of its values, and one record taken through both. *)

From S2P Require Import Prelude SortBy BTree Types Codec SearchDef Query Keyspace Outbox ApplyDurability Aio Rocks Storage DataSM SearchStore SearchWorker Coordinator SearchShard SearchValue Bincode Demo.

Inductive Flex := Flex_Map (l : list (string * Flex)) | Flex_Vec (l : list Flex) | Flex_Str (s : string) | Flex_U64 (n : N).

Definition flex_article : Flex :=
  Flex_Map [("meta", Flex_Map [("title", Flex_Str "rocq")]); ("tags", Flex_Vec [Flex_Str "proof"; Flex_Str "search"]); ("views", Flex_U64 42)].
Definition flex_lookup (l : list (string * Flex)) (k : string) : option (nat * (string * Flex)) := list_find (λ kv, kv.1 = k) l.

(** The payload is one byte naming the tree; the envelope is four bytes, the
    identifier, a length byte, the type and the payload. *)
#[global] Instance flex_reader : FlexReader Flex (list (string * Flex)) (list Flex) := {|
  fb_has_identifier b := bool_decide (take 4 (drop 4 b) = as_bytes "DALV");
  fb_root b := match drop 8 b with n :: rest => type ← from_utf8 (take (N.to_nat (Byte.to_N n)) rest); Some (type, drop (N.to_nat (Byte.to_N n)) rest) | [] => None end;
  fx_root b := match b with [x01] => Some flex_article | _ => None end;
  fx_is_map r := match r with Flex_Map _ => true | _ => false end;
  fx_get_map r := match r with Flex_Map l => Some l | _ => None end;
  fx_index_key l k := fst <$> flex_lookup l k;
  fx_index l k := (λ x, x.2.2) <$> flex_lookup l k;
  fx_get_vector r := match r with Flex_Vec l => Some l | _ => None end;
  fx_len := length;
  fx_at l i := l !! i;
  fx_iter l := l;
  fx_get_str r := match r with Flex_Str s => Some s | _ => None end;
  fx_get_u64 r := match r with Flex_U64 n => Some n | _ => None end;
  fx_get_i64 _ := None;
  fx_get_f64 _ := None;
  fx_get_bool _ := None;
|}.

Record ListDoc := mkListDoc { ld_version : N; ld_values : list (string * OwnedValue) }.
#[global] Instance list_document : TantivyDocument ListDoc := {|
  td_new _ version _ := mkListDoc version [];
  td_add name v d := mkListDoc (ld_version d) (ld_values d ++ [(name, v)]);
  td_facet s := if String.prefix "/" s then Some s else None;
  td_date millis := millis;
|}.
#[global] Instance list_query : TantivyQuery ListDoc unit string := {|
  tq_all := tt;
  tq_parse _ _ := Ok tt;
  tq_terms _ := [];
  tq_term_field f := f;
  tq_term_type _ := x73;
  tq_term_value _ := [];
  tq_doc_freq _ _ := Ok 0%N;
  tq_total_num_tokens _ _ := Ok 0%N;
  tq_matches _ _ := true;
  tq_score _ _ _ := 0%N;
  tq_count docs _ := Ok (N.of_nat (size docs));
  tq_top _ _ _ _ := Ok [];
  tq_version d := Some (ld_version d);
  tq_values d name := (filter (λ kv, kv.1 = name) (ld_values d)).*2;
|}.
#[global] Instance list_document_ok : TantivyDocumentOk ListDoc unit string.
Proof.
  split; try done. intros name v d name'. cbn. rewrite filter_app, fmap_app. f_equal.
  destruct (decide (name = name')) as [->|Hne]; [by rewrite filter_cons_True|by rewrite filter_cons_False].
Qed.

Definition article_definition : SearchIndexDefinition :=
  mkSearchDefinition "article"
    [mkSearchField "title" [PathSegment_Key "meta"; PathSegment_Key "title"] (FieldKind_Text "default" true) true false true true false;
     mkSearchField "tags" [PathSegment_Key "tags"] FieldKind_Keyword false true true true false;
     mkSearchField "author" [PathSegment_Key "author"] FieldKind_Keyword false false true true false;
     mkSearchField "views" [PathSegment_Key "views"] FieldKind_U64 true false true false true] ["title"].
Definition article_generation : SearchIndexGeneration := mkSearchGeneration 4 (sha256 (encode article_definition)) 2 article_definition.
Definition article_value : bytes := replicate 4 x00 ++ as_bytes "DALV" ++ [x07] ++ as_bytes "article" ++ [x01].
Definition article_document : ListDoc :=
  mkListDoc 6 [("title", OwnedValue_Str "rocq"); ("tags", OwnedValue_Str "proof"); ("tags", OwnedValue_Str "search"); ("views", OwnedValue_U64 42)].
Definition article_stored : list StoredField :=
  [mkStoredField "title" [SortValue_String "rocq"]; mkStoredField "tags" [SortValue_String "proof"; SortValue_String "search"]; mkStoredField "author" []].

Lemma indexed_stored_fields_witness :
  read_stored_fields article_generation article_document = Ok article_stored ∧ tq_version article_document = Some 6%N ∧
  Forall2 (stored_from flex_article) (filter (λ f, sf_stored f = true) (sd_fields article_definition)) article_stored.
Proof.
  assert (index_document article_generation [x61] 6 article_value = Extracted_Document article_document) as Hi by (vm_compute; reflexivity).
  destruct (indexed_stored_fields article_generation [x61] 6 article_value article_document Hi)
    as (payload & root & extracted & stored & Hb & Hr & _ & _ & Hv & Hs & Hf).
  assert (fb_root article_value = Some ("article", [x01])) as Eb by (vm_compute; reflexivity).
  rewrite Eb in Hb. assert (payload = [x01]) as -> by congruence.
  assert (root = flex_article) as -> by (by injection Hr).
  assert (read_stored_fields article_generation article_document = Ok article_stored) as Es by (vm_compute; reflexivity).
  assert (stored = article_stored) as -> by (rewrite Es in Hs; by injection Hs).
  split_and!; [exact Es|exact Hv|exact Hf].
Defined.
