(* ===== verification/Linearizability.v ===== *)
(** * The linearizability checker (src/src/verify/linearizability.rs)

    The Wing-Gong backtracking search over one register's history. The theorems
    say that the search decides linearizability: an order it returns is a legal
    sequential order that respects real time, and when it returns none there is
    no such order. *)

From S2P Require Import Prelude BTree Types.

Inductive Invocation :=
| Invocation_Read
| Invocation_Put (value : bytes) (if_version : option IfVersion).

Inductive Outcome :=
| Outcome_Applied (version : N)
| Outcome_ConditionFailed (present : option N)
| Outcome_Value (v : option (N * bytes)).

Record Op := mkOp { op_call : N; op_ret : N; op_inv : Invocation; op_out : Outcome }.

(** The register: the last committed version and value. *)
Definition State := option (N * bytes).

Definition version_of (state : State) : N := match state with Some (v, _) => v | None => 0%N end.

(** [apply]. *)
Definition apply (state : State) (op : Op) : option State :=
  match op_inv op, op_out op with
  | Invocation_Read, Outcome_Value v => if bool_decide (v = state) then Some state else None
  | Invocation_Put value None, Outcome_Applied version =>
      if (version_of state <? version)%N then Some (Some (version, value)) else None
  | Invocation_Put value (Some IfVersion_Absent), out =>
      match state, out with
      | None, Outcome_Applied version => if (0 <? version)%N then Some (Some (version, value)) else None
      | Some (v, _), Outcome_ConditionFailed (Some p) => if (p =? v)%N then Some state else None
      | _, _ => None
      end
  | Invocation_Put value (Some (IfVersion_Number n)), out =>
      match state, out with
      | Some (v, _), Outcome_Applied version =>
          if (v =? n)%N && (v <? version)%N then Some (Some (version, value)) else None
      | Some (v, _), Outcome_ConditionFailed (Some p) =>
          if (p =? v)%N && negb (v =? n)%N then Some state else None
      | None, Outcome_ConditionFailed None => Some state
      | _, _ => None
      end
  | _, _ => None
  end.

Definition is_used (used : list bool) (i : nat) : bool := default true (used !! i).

(** The least return time among the operations not yet placed. *)
Definition min_ret (ops : list Op) (used : list bool) : N :=
  let rets := op_ret <$> (snd <$> filter (λ p, is_used used p.1 = false) (imap pair ops)) in
  match rets with [] => 0%N | r :: rs => foldl N.min r rs end.

(** [search]: the order found, or [None]; [used] is restored on backtracking. *)
Fixpoint search (ops : list Op) (used : list bool) (state : State) (remaining : nat) : option (list nat) :=
  match remaining with
  | O => Some []
  | S remaining =>
      let min_ret := min_ret ops used in
      (fix try (candidates : list nat) : option (list nat) :=
         match candidates with
         | [] => None
         | i :: candidates =>
             match ops !! i with
             | None => try candidates
             | Some op =>
                 if is_used used i || (min_ret <? op_call op)%N then try candidates
                 else match apply state op with
                 | None => try candidates
                 | Some next =>
                     match search ops (<[i := true]> used) next remaining with
                     | Some rest => Some (i :: rest)
                     | None => try candidates
                     end
                 end
             end
         end) (seq 0 (length ops))
  end.

(** [linearize] and [is_linearizable]. *)
Definition linearize (ops : list Op) : option (list nat) :=
  search ops (replicate (length ops) false) None (length ops).
Definition is_linearizable (ops : list Op) : bool :=
  match linearize ops with Some _ => true | None => false end.

(** ** Linearizations *)

(** Executing the operations in an order is legal for the register. *)
Fixpoint legal_run (ops : list Op) (state : State) (order : list nat) : Prop :=
  match order with
  | [] => True
  | i :: order =>
      ∃ op next, ops !! i = Some op ∧ apply state op = Some next ∧ legal_run ops next order
  end.

(** No operation is placed before one that returned before it was called. *)
Definition respects_real_time (ops : list Op) (order : list nat) : Prop :=
  ∀ a b i j opi opj, (a < b)%nat → order !! a = Some i → order !! b = Some j →
    ops !! i = Some opi → ops !! j = Some opj → (op_call opi ≤ op_ret opj)%N.

Record linearization (ops : list Op) (order : list nat) : Prop := {
  lin_perm : order ≡ₚ seq 0 (length ops);
  lin_real_time : respects_real_time ops order;
  lin_legal : legal_run ops None order;
}.

(** The linearizations the search explores from an intermediate point. *)
Inductive explored (ops : list Op) : list bool → State → list nat → Prop :=
| explored_nil used state :
    (∀ i, (i < length ops)%nat → is_used used i = true) → explored ops used state []
| explored_cons used state i op next rest :
    ops !! i = Some op → is_used used i = false →
    (∀ j opj, ops !! j = Some opj → is_used used j = false → (op_call op ≤ op_ret opj)%N) →
    apply state op = Some next → explored ops (<[i := true]> used) next rest →
    explored ops used state (i :: rest).

Lemma foldl_min_le r rs : (foldl N.min r rs ≤ r)%N ∧ ∀ x, x ∈ rs → (foldl N.min r rs ≤ x)%N.
Proof.
  revert r. induction rs as [|y rs IH]; intros r; simpl; [split; [lia|set_solver]|].
  destruct (IH (N.min r y)) as [H1 H2]. split; [lia|].
  intros x [->|Hx]%elem_of_cons; [lia|by apply H2].
Qed.

Lemma foldl_min_in r rs : foldl N.min r rs ∈ r :: rs.
Proof.
  revert r. induction rs as [|y rs IH]; intros r; simpl; [set_solver|].
  specialize (IH (N.min r y)). destruct (N.min_spec r y) as [[_ E]|[_ E]]; rewrite E in *; set_solver.
Qed.

(** [call <= min_ret] says exactly that every unplaced operation returns no earlier. *)
Lemma min_ret_spec ops used c :
  (∃ j op, ops !! j = Some op ∧ is_used used j = false) →
  (c ≤ min_ret ops used)%N ↔
  (∀ j opj, ops !! j = Some opj → is_used used j = false → (c ≤ op_ret opj)%N).
Proof.
  intros (j0 & op0 & Hj0 & Hu0). unfold min_ret.
  set (unplaced := filter _ _).
  assert (∀ j op, (j, op) ∈ unplaced ↔ ops !! j = Some op ∧ is_used used j = false) as Hun.
  { intros j op. unfold unplaced. rewrite list_elem_of_filter, elem_of_lookup_imap. simpl. naive_solver. }
  assert (∀ r, r ∈ op_ret <$> (snd <$> unplaced) ↔ ∃ j op, (j, op) ∈ unplaced ∧ r = op_ret op) as Hr.
  { intros r. rewrite !list_elem_of_fmap. setoid_rewrite list_elem_of_fmap.
    split; [intros (op & -> & ([j op'] & -> & Hin)); by exists j, op'|].
    intros (j & op & Hin & ->). exists op. split; [done|]. by exists (j, op). }
  destruct (op_ret <$> (snd <$> unplaced)) as [|r rs] eqn:E.
  { exfalso. assert (op_ret op0 ∈ ([] : list N)) as Hx; [|set_solver]. apply Hr. exists j0, op0. by rewrite Hun. }
  destruct (foldl_min_le r rs) as [Hle Hall]. pose proof (foldl_min_in r rs) as Hin. split.
  - intros Hc j opj Hj Hu. assert (op_ret opj ∈ r :: rs) as Hx.
    { apply Hr. exists j, opj. by rewrite Hun. }
    apply elem_of_cons in Hx as [->|Hx]; [lia|]. specialize (Hall _ Hx). lia.
  - intros Hc. apply Hr in Hin as (j & op & Hj & ->). apply Hun in Hj as [Hj Hu]. by apply (Hc j op).
Qed.

Definition unused (ops : list Op) (used : list bool) : list nat :=
  filter (λ i, is_used used i = false) (seq 0 (length ops)).

Lemma elem_of_unused ops used i : i ∈ unused ops used ↔ (i < length ops)%nat ∧ is_used used i = false.
Proof. unfold unused. rewrite list_elem_of_filter, elem_of_seq. naive_solver lia. Qed.

Lemma NoDup_unused ops used : NoDup (unused ops used).
Proof. apply NoDup_filter, NoDup_seq. Qed.

Lemma is_used_insert used i j :
  is_used used i = false → is_used (<[i := true]> used) j = bool_decide (i = j) || is_used used j.
Proof.
  unfold is_used. intros Hi. destruct (used !! i) as [b|] eqn:E; [|done]. simpl in Hi. subst b.
  destruct (decide (i = j)) as [->|Hne].
  - rewrite list_lookup_insert_eq by (by eapply lookup_lt_Some). by rewrite bool_decide_true.
  - rewrite list_lookup_insert_ne by done. by rewrite bool_decide_false.
Qed.

(** Placing an operation removes it from the unplaced ones. *)
Lemma unused_insert ops used i :
  (i < length ops)%nat → is_used used i = false → unused ops used ≡ₚ i :: unused ops (<[i := true]> used).
Proof.
  intros Hi Hu. apply NoDup_Permutation; [apply NoDup_unused| |].
  - constructor; [|apply NoDup_unused]. rewrite elem_of_unused, is_used_insert by done.
    rewrite bool_decide_true by done. by intros [_ ?].
  - intros j. rewrite elem_of_cons, !elem_of_unused, is_used_insert by done.
    destruct (decide (i = j)) as [->|Hne].
    + rewrite bool_decide_true by done. naive_solver.
    + rewrite bool_decide_false by done. naive_solver.
Qed.

Lemma search_sound ops used state remaining order :
  length (unused ops used) = remaining → search ops used state remaining = Some order →
  explored ops used state order.
Proof.
  revert used state order. induction remaining as [|remaining IH]; intros used state order Hlen.
  { intros [= <-]. constructor. intros i Hi. destruct (is_used used i) eqn:E; [done|].
    apply nil_length_inv in Hlen. assert (i ∈ unused ops used) as Hin by (by apply elem_of_unused).
    rewrite Hlen in Hin. set_solver. }
  cbn [search]. generalize (seq 0 (length ops)). intros candidates.
  induction candidates as [|i candidates IHc]; [done|].
  destruct (ops !! i) as [op|] eqn:Hop; [|apply IHc].
  destruct (is_used used i) eqn:Hu; [apply IHc|]. cbn [orb].
  destruct (N.ltb_spec (min_ret ops used) (op_call op)) as [|Hle]; [apply IHc|].
  destruct (apply state op) as [next|] eqn:Hap; [|apply IHc].
  destruct (search ops (<[i := true]> used) next remaining) as [rest|] eqn:Hs; [|apply IHc].
  intros [= <-]. econstructor; [done|done| |done|].
  - apply min_ret_spec; [by eauto|done].
  - apply IH; [|done]. apply lookup_lt_Some in Hop.
    rewrite (unused_insert ops used i) in Hlen by done. simpl in Hlen. congruence.
Qed.

Lemma search_complete ops used state order :
  explored ops used state order → ∃ order', search ops used state (length order) = Some order'.
Proof.
  induction 1 as [used state Hall|used state i op next rest Hop Hu Hrt Hap Hex [rest' IH]]; [by exists []|].
  cbn [search length].
  assert (i ∈ seq 0 (length ops)) as Hin.
  { apply elem_of_seq. apply lookup_lt_Some in Hop. lia. }
  revert Hin. generalize (seq 0 (length ops)). intros candidates Hin.
  induction candidates as [|j candidates IHc]; [set_solver|].
  apply elem_of_cons in Hin as [<-|Hin].
  - rewrite Hop, Hu. cbn [orb].
    assert (op_call op ≤ min_ret ops used)%N as Hle by (apply min_ret_spec; eauto).
    destruct (N.ltb_spec (min_ret ops used) (op_call op)); [lia|].
    rewrite Hap, IH. by eexists.
  - specialize (IHc Hin). repeat case_match; eauto.
Qed.

Lemma explored_perm ops used state order : explored ops used state order → order ≡ₚ unused ops used.
Proof.
  induction 1 as [used state Hall|used state i op next rest Hop Hu Hrt Hap Hex IH].
  - destruct (unused ops used) as [|i l] eqn:E; [done|]. exfalso.
    assert (i ∈ unused ops used) as [Hi Hf]%elem_of_unused by (rewrite E; left).
    rewrite Hall in Hf by done. done.
  - rewrite (unused_insert ops used i) by (done || by eapply lookup_lt_Some). by rewrite IH.
Qed.

Lemma explored_linearization ops used state order :
  explored ops used state order → respects_real_time ops order ∧ legal_run ops state order.
Proof.
  induction 1 as [used state Hall|used state i op next rest Hop Hu Hrt Hap Hex [IHr IHl]].
  { split; [by intros a b i j opi opj Hab Ha|done]. }
  split; [|by exists op, next].
  intros [|a] b i' j opi opj Hab Ha Hb Hi Hj; (destruct b as [|b]; [lia|]); simpl in *.
  - injection Ha as <-. rewrite Hop in Hi. injection Hi as <-. eapply Hrt; [done|].
    assert (j ∈ rest) as Hin by (by eapply list_elem_of_lookup_2).
    rewrite (explored_perm _ _ _ _ Hex) in Hin. apply elem_of_unused in Hin as [_ Hin].
    rewrite is_used_insert in Hin by done. by apply orb_false_elim in Hin as [_ ?].
  - eapply (IHr a b); eauto. lia.
Qed.

Lemma linearization_explored ops used state order :
  Forall (λ op, op_call op ≤ op_ret op)%N ops → order ≡ₚ unused ops used →
  respects_real_time ops order → legal_run ops state order → explored ops used state order.
Proof.
  intros Hops. revert used state. induction order as [|i order IH]; intros used state Hperm Hrt Hlegal.
  { constructor. intros i Hi. destruct (is_used used i) eqn:E; [done|]. exfalso.
    assert (i ∈ unused ops used) as Hin by (by apply elem_of_unused). rewrite <-Hperm in Hin. set_solver. }
  destruct Hlegal as (op & next & Hop & Hap & Hlegal).
  assert (i ∈ unused ops used) as [Hi Hu]%elem_of_unused by (rewrite <-Hperm; left).
  econstructor; [done|done| |done|].
  - intros j opj Hj Huj. assert (j ∈ i :: order) as Hin.
    { rewrite Hperm. apply elem_of_unused. split; [by eapply lookup_lt_Some|done]. }
    apply elem_of_cons in Hin as [->|[b Hb]%list_elem_of_lookup].
    + rewrite Hop in Hj. injection Hj as <-. rewrite Forall_lookup in Hops. by eapply Hops.
    + apply (Hrt 0 (S b) i j); try done. lia.
  - apply IH; [| |done].
    + rewrite (unused_insert ops used i) in Hperm by done. by apply Permutation_cons_inv in Hperm.
    + intros a b i' j opi opj Hab Ha Hb. apply (Hrt (S a) (S b)); [lia|done|done].
Qed.

Lemma unused_all ops : unused ops (replicate (length ops) false) = seq 0 (length ops).
Proof.
  unfold unused. assert (∀ l, Forall (λ i, i < length ops)%nat l →
    filter (λ i, is_used (replicate (length ops) false) i = false) l = l) as H.
  { induction 1 as [|i l Hi Hl IH]; [done|]. rewrite filter_cons_True; [by f_equal|].
    unfold is_used. by rewrite lookup_replicate_2. }
  apply H, Forall_forall. intros i Hi. apply elem_of_seq in Hi. lia.
Qed.

(** The checker is sound. The order it returns places every operation
    exactly once, puts no operation before one that returned before it was
    called, and is legal for the register, versions and CAS outcomes included. *)
Theorem linearize_sound ops order : linearize ops = Some order → linearization ops order.
Proof.
  intros Hs. unfold linearize in Hs. apply search_sound in Hs; [|by rewrite unused_all, length_seq].
  destruct (explored_linearization _ _ _ _ Hs) as [Hrt Hl]. apply explored_perm in Hs.
  rewrite unused_all in Hs. by constructor.
Qed.

Definition demo_put (call ret v : N) : Op :=
  mkOp call ret (Invocation_Put [x61] None) (Outcome_Applied v).
Definition demo_read (call ret v : N) : Op :=
  mkOp call ret Invocation_Read (Outcome_Value (Some (v, [x61]))).

(** A read that overlaps two writes and returns the first: the writes are
    concurrent, so the order is read-first-possible. *)
Definition demo_history : list Op := [demo_put 1 6 5; demo_put 2 3 2; demo_read 2 7 2].

(** The checker is complete. On a history whose calls precede their
    returns, if any legal real-time order exists then the search finds one, so
    a reported violation is a real one. *)
Theorem linearize_complete ops order :
  Forall (λ op, op_call op ≤ op_ret op)%N ops → linearization ops order → is_linearizable ops = true.
Proof.
  intros Hops [Hp Hr Hl]. unfold is_linearizable, linearize.
  destruct (search_complete ops (replicate (length ops) false) None order) as [o Ho].
  { apply linearization_explored; [done|by rewrite unused_all|done|done]. }
  apply Permutation_length in Hp. rewrite length_seq in Hp. rewrite Hp in Ho. by rewrite Ho.
Qed.

(** C28: the checker decides linearizability. On a history whose calls precede
    their returns, an order it returns places every operation exactly once,
    puts no operation before one that returned before it was called, and is
    legal for the register, versions and CAS outcomes included; and when it
    returns none, no such order exists. *)
Theorem linearize_correct ops : Forall (λ op, op_call op ≤ op_ret op)%N ops →
  match linearize ops with
  | Some order => linearization ops order
  | None => ∀ order, ¬ linearization ops order
  end.
Proof.
  intros Hops. destruct (linearize ops) as [order|] eqn:E; [by apply linearize_sound|].
  intros order Hl%linearize_complete; [|done]. unfold is_linearizable in Hl. by rewrite E in Hl.
Qed.
Lemma linearize_correct_witness : linearization demo_history [1; 2; 0].
Proof.
  apply (linearize_correct demo_history). repeat constructor; vm_compute; discriminate.
Defined.
