(* ===== verification/ClientProofs.v ===== *)
(** * The client's streams are exactly-once

    [WriteService] is what a client relies on from the cluster behind its
    transport: requests reach a partition's committed log late, repeatedly or
    not at all, a reply to a mutation is the result of a committed entry that
    carries it, and a refused request is never committed. On any such service
    the decisions of a client's stream are, in order, the mutations that the
    client reported as decided, plus possibly the one it still holds pending. Gateways over Raft are such
    a service ([cluster_exactly_once]). *)

From S2P Require Import Prelude BTree Types Codec SearchDef Envelope Security Keyspace Outbox ApplyDurability Aio Rocks Storage Maintenance DataSM PartitionNode Api Gateway Client DataSpec Oracles DataProofs Service NodeProofs GatewayProofs.

(** ** Decisions of one client in a log *)

Section streams.
Context `{HashesOk} `{!Codec DataOp, !Codec KeyRecord, !Codec SeqRecord, !Codec U128}.
Context (c : N) (base : AbsState) (Hbase : as_seq base !! c = None).
Implicit Types (log : list (DataRequest * N)) (D : list (DataOp * MutationResult)).

Definition state_of log : AbsState := (spec_run base log).2.

(** What the entry adds to the decisions of the client. *)
Definition decision (a : AbsState) (e : DataRequest * N) : list (DataOp * MutationResult) :=
  match (spec_step a e.1 e.2).1 with
  | ApplyResult_Decided m => if bool_decide (req_client_id e.1 = c) then [(req_op e.1, m)] else []
  | _ => []
  end.

Fixpoint decided_from (a : AbsState) log : list (DataOp * MutationResult) :=
  match log with
  | [] => []
  | e :: log => decision a e ++ decided_from (spec_step a e.1 e.2).2 log
  end.
Definition decided log : list (DataOp * MutationResult) := decided_from base log.

Lemma state_of_snoc log e : state_of (log ++ [e]) = (spec_step (state_of log) e.1 e.2).2.
Proof.
  unfold state_of. rewrite spec_run_app. destruct (spec_run base log) as [rs a]. destruct e as [req index]. simpl.
  by destruct (spec_step a req index).
Qed.

Lemma decided_snoc log e : decided (log ++ [e]) = decided log ++ decision (state_of log) e.
Proof.
  unfold decided, state_of. generalize base. induction log as [|[req index] log IH]; intros a; simpl; [by rewrite app_nil_r|].
  rewrite IH, (assoc_L (++)). f_equal. destruct (spec_step a req index) as [r a1]. simpl. by destruct (spec_run a1 log).
Qed.

Lemma result_snoc log e i : i = length log →
  (spec_run base (log ++ [e])).1 !! i = Some (spec_step (state_of log) e.1 e.2).1.
Proof.
  intros ->. unfold state_of. rewrite spec_run_app. pose proof (spec_run_length base log) as Hl.
  destruct (spec_run base log) as [rs a]. destruct e as [req index]. simpl in *. destruct (spec_step a req index). simpl.
  by rewrite lookup_app_r, <-Hl, Nat.sub_diag by lia.
Qed.

(** A result does not change as the log grows. *)
Lemma result_at log i e : log !! i = Some e →
  (spec_run base log).1 !! i = Some (spec_step (state_of (take i log)) e.1 e.2).1.
Proof.
  intros Hi. rewrite <-(take_drop (S i) log) at 1. rewrite spec_run_app. rewrite (take_S_r _ _ _ Hi).
  pose proof (lookup_lt_Some _ _ _ Hi). assert (i = length (take i log)) as Hl by (rewrite length_take; lia).
  pose proof (result_snoc (take i log) e i Hl) as Hr. pose proof (spec_run_length base (take i log ++ [e])) as Hn.
  destruct (spec_run base (take i log ++ [e])) as [rs a]. destruct (spec_run a _). simpl in *.
  rewrite lookup_app_l; [done|]. rewrite Hn, length_app, <-Hl. simpl. lia.
Qed.

(** The record of the client is its last decision. *)
Lemma stream_record log :
  as_epoch (state_of log) = as_epoch base ∧
  as_seq (state_of log) !! c =
    (λ x, mkSeqRecord (N.of_nat (length (decided log))) (digest x.1) x.2) <$> last (decided log).
Proof.
  induction log as [|[req index] log [IHe IHs]] using rev_ind; [done|].
  rewrite state_of_snoc, decided_snoc. unfold decision. cbn [fst snd].
  destruct (spec_step (state_of log) req index) as [r a'] eqn:Es. cbn [fst snd].
  destruct (spec_step_cases _ _ _ _ _ Es) as [(m & -> & -> & _ & Eq)|[(m & s & -> & -> & _)|(e & -> & ->)]];
    [|by rewrite app_nil_r..]. cbn [as_epoch as_seq]. split; [done|]. case_bool_decide as Hc.
  - rewrite Hc in Eq |- *. rewrite lookup_insert_eq, last_snoc, length_app. cbn. f_equal. f_equal.
    rewrite Eq, IHs. destruct (last (decided log)) eqn:El; cbn; [lia|]. apply last_None in El. rewrite El. done.
  - rewrite app_nil_r, lookup_insert_ne by done. done.
Qed.

Definition nharmless (req : DataRequest) : Prop := req_recovery_epoch req = as_epoch base ∧ malformed (req_op req) = false.

(** One entry of the client after [log]. *)
Lemma step_client log req index : req_client_id req = c →
  let n := N.of_nat (length (decided log)) in
  let r := (spec_step (state_of log) req index).1 in
  (¬ nharmless req ∧ (r = ApplyResult_Rejected (RejectReason_RecoveryEpochMismatch (as_epoch base) (req_recovery_epoch req)) ∨
     r = ApplyResult_Rejected RejectReason_Malformed ∧ malformed (req_op req) = true)) ∨
  (nharmless req ∧ (req_sequence req < n)%N ∧ ∃ e, r = ApplyResult_Rejected e) ∨
  (nharmless req ∧ req_sequence req = n ∧ ((∃ e, r = ApplyResult_Rejected e) ∨
     ∃ x, last (decided log) = Some x ∧ r = ApplyResult_Replayed x.2) ∧
     (∀ x, last (decided log) = Some x → x.1 = req_op req → r = ApplyResult_Replayed x.2)) ∨
  (nharmless req ∧ req_sequence req = (n + 1)%N ∧ ∃ m, r = ApplyResult_Decided m) ∨
  (nharmless req ∧ (n + 1 < req_sequence req)%N ∧ ∃ e, r = ApplyResult_Rejected e).
Proof.
  intros Hc. destruct (stream_record log) as [He Hs]. cbn zeta. unfold spec_step. rewrite He, Hc, Hs.
  destruct (N.eqb_spec (req_recovery_epoch req) (as_epoch base)) as [Ee|Ee]; cbn [negb].
  2:{ left. split; [by intros [? _]|]. by left. }
  destruct (malformed (req_op req)) eqn:Em; [left; split; [intros [_ ?]; congruence|by right]|]. right.
  assert (nharmless req) as Hn by done. unfold stream_gate.
  destruct (last (decided log)) as [x|] eqn:El; cbn.
  - set (n := N.of_nat _). destruct (N.eqb_spec (req_sequence req) n) as [Eq|Nq].
    + right. left. split_and!; [done..| |].
      * destruct (N.eqb_spec (digest x.1) (digest (req_op req))); [right; by exists x|left; by eexists].
      * intros y [= <-] ->. by rewrite N.eqb_refl.
    + destruct (N.ltb_spec (req_sequence req) n); [left; split_and!; [done..|by eexists]|].
      destruct (N.eqb_spec (req_sequence req) (n + 1)) as [E1|N1]; [right; right; left|right; right; right].
      * destruct (spec_decide _ _ _). split_and!; [done..|by eexists].
      * split_and!; [done|lia|by eexists].
  - apply last_None in El. rewrite El. cbn. destruct (N.eqb_spec (req_sequence req) 0) as [Eq|Nq].
    + right. left. split_and!; [done..| |done]. left. by eexists.
    + destruct (N.eqb_spec (req_sequence req) 1) as [E1|N1]; [right; right; left|right; right; right].
      * destruct (spec_decide _ _ _). split_and!; [done..|by eexists].
      * split_and!; [done|lia|by eexists].
Qed.

Lemma decision_cases log e : decision (state_of log) e = [] ∨
  (req_client_id e.1 = c ∧ nharmless e.1 ∧ req_sequence e.1 = (N.of_nat (length (decided log)) + 1)%N ∧
   ∃ m, decision (state_of log) e = [(req_op e.1, m)]).
Proof.
  destruct e as [req index]. unfold decision. cbn [fst snd]. destruct (decide (req_client_id req = c)) as [Hc|Hc].
  - destruct (step_client log req index Hc) as [(_ & [-> |[-> _]])|[(_ & _ & e & ->)|[(_ & _ & [[e ->]|(x & _ & ->)] & _)|[(? & ? & m & ->)|(_ & _ & e & ->)]]]];
      [by left..| |by left]. right. rewrite bool_decide_true by done. eauto 10.
  - left. case_match; [|done..]. by rewrite bool_decide_false.
Qed.

Lemma decided_prefix log1 log2 : decided log1 `prefix_of` decided (log1 ++ log2).
Proof.
  induction log2 as [|e log2 IH] using rev_ind; [by rewrite app_nil_r|].
  rewrite (assoc_L (++)), decided_snoc. by apply prefix_app_r.
Qed.

(** Every decision is that of an entry. *)
Lemma decided_entry log k op m : decided log !! k = Some (op, m) →
  ∃ req, req ∈ log.*1 ∧ req_client_id req = c ∧ req_sequence req = (N.of_nat k + 1)%N ∧ req_op req = op ∧ nharmless req.
Proof.
  induction log as [|e log IH] using rev_ind; [done|]. rewrite decided_snoc, fmap_app. intros [Hk|[Hl Hk]]%lookup_app_Some.
  - destruct (IH Hk) as (req & Hin & ?). exists req. split; [apply elem_of_app; by left|done].
  - destruct (decision_cases log e) as [E|(Hc & Hn & Hs & m' & E)]; rewrite E in Hk; [done|].
    apply list_lookup_singleton_Some in Hk as [Hz [= <- <-]]. exists e.1. split_and!; try done; [|lia].
    apply elem_of_app. right. by left.
Qed.

(** ** A stream against its log *)

(** What the client may have in flight: the requests it has resolved, and the
    pending one. *)
Definition fits (D : list (DataOp * MutationResult)) (pending : option DataOp) (req : DataRequest) : Prop :=
  ¬ nharmless req ∨ (req_sequence req ≤ N.of_nat (length D))%N ∨
  (req_sequence req = N.of_nat (length D) + 1 ∧ pending = Some (req_op req))%N.

(** The log has decided what the client knows, and possibly the pending operation. *)
Definition decides log D (pending : option DataOp) : Prop :=
  decided log = D ∨ ∃ op m, pending = Some op ∧ decided log = D ++ [(op, m)].

Lemma decides_prefix log D pending : decides log D pending → D `prefix_of` decided log.
Proof. intros [->|(op & m & _ & ->)]; [done|by apply prefix_app_r]. Qed.

Lemma decides_snoc log D pending e : decides log D pending →
  (req_client_id e.1 = c → fits D pending e.1) → decides (log ++ [e]) D pending.
Proof.
  intros Hd Hf. unfold decides. rewrite decided_snoc. destruct (decision_cases log e) as [->|(Hc & Hn & Hs & m & ->)].
  { by rewrite app_nil_r. }
  destruct (Hf Hc) as [Hh|Hq]; [done|]. destruct Hd as [Hd|(op & m' & _ & Hd)]; rewrite Hd in *.
  - destruct Hq as [?|[_ ->]]; [lia|]. right. eauto.
  - rewrite length_app in Hs. cbn in Hs. destruct Hq as [?|[? _]]; lia.
Qed.

Lemma decides_app log D pending new : decides log D pending →
  (∀ e, e ∈ new → req_client_id e.1 = c → fits D pending e.1) → decides (log ++ new) D pending.
Proof.
  intros Hd. induction new as [|e new IH] using rev_ind; intros Hf; [by rewrite app_nil_r|].
  rewrite (assoc_L (++)). apply decides_snoc.
  - apply IH. intros e' He'. apply Hf. apply elem_of_app. by left.
  - apply Hf. apply elem_of_app. right. by left.
Qed.

(** The result of a committed entry that carries the pending operation. *)
Lemma pending_result log D op i req index :
  decides log D (Some op) → log !! i = Some (req, index) → req_client_id req = c →
  req_sequence req = (N.of_nat (length D) + 1)%N → req_op req = op → D `prefix_of` decided (take i log) → nharmless req →
  ∃ m, decided log = D ++ [(op, m)] ∧
    ((spec_run base log).1 !! i = Some (ApplyResult_Decided m) ∨ (spec_run base log).1 !! i = Some (ApplyResult_Replayed m)).
Proof.
  intros Hd Hi Hc Hs Ho HD Hn. rewrite (result_at _ _ _ Hi). cbn [fst snd].
  assert (decided (take i log) = D ∨ ∃ m, decided (take i log) = D ++ [(op, m)] ∧ decided log = D ++ [(op, m)]) as Hcase.
  { pose proof (decided_prefix (take i log) (drop i log)) as Hp. rewrite take_drop in Hp. destruct Hd as [Hd|(op' & m & [= <-] & Hd)].
    - left. rewrite Hd in Hp. by apply (anti_symm prefix).
    - rewrite Hd in Hp. destruct HD as [l El]. rewrite El in *. destruct Hp as [l' Hp]. rewrite <-(assoc_L (++)) in Hp.
      apply (inj (app D)) in Hp. destruct l as [|x [|y l]]; [left; apply app_nil_r|right; exists m|]; simplify_eq/=; done. }
  destruct Hcase as [E|(m & E & E')].
  - destruct (step_client (take i log) req index Hc) as [(Hh & _)|[(_ & ? & _)|[(_ & ? & _)|[(_ & _ & m & Hr)|(_ & ? & _)]]]];
      [done|rewrite E in *; lia..| |rewrite E in *; lia]. exists m. rewrite Hr. split; [|by left].
    assert (decided (take (S i) log) = D ++ [(op, m)]) as E'.
    { rewrite (take_S_r _ _ _ Hi), decided_snoc, E. f_equal. unfold decision. cbn [fst snd]. rewrite Hr, bool_decide_true by done. by subst. }
    pose proof (decided_prefix (take (S i) log) (drop (S i) log)) as Hp. rewrite take_drop, E' in Hp.
    destruct Hd as [Hd|(op' & m' & [= <-] & Hd)]; rewrite Hd in *.
    + apply prefix_length in Hp. rewrite length_app in Hp. cbn in Hp. lia.
    + destruct Hp as [l Hp]. rewrite <-(assoc_L (++)) in Hp. apply (inj (app D)) in Hp. by simplify_eq/=.
  - exists m. split; [done|]. right. f_equal.
    destruct (step_client (take i log) req index Hc) as [(Hh & _)|[(_ & ? & _)|[(_ & _ & _ & Hr)|[(_ & ? & _)|(_ & ? & _)]]]];
      [done|rewrite E, length_app in *; cbn in *; lia| |rewrite E, length_app in *; cbn in *; lia..].
    apply (Hr (op, m)); [by rewrite E, last_snoc|done].
Qed.
End streams.

(** ** The client's invariant *)

Section client.
Context `{HashesOk} `{!Codec DataOp, !Codec KeyRecord, !Codec SeqRecord, !Codec U128}.
Context `{!Codec ClientRequest, !Codec ClientReply, !Codec RoutingInfo}.
Context (c : N) (base : N → AbsState) (refusable : N → DataRequest → Prop).
Context (epoch : N) `{!Transport W, !WriteService W, !WriteServiceOk W c base refusable} (Hbase : ∀ p, as_seq (base p) !! c = None).
Implicit Types (cl : Client) (w : W) (D : list (DataOp * MutationResult)).

Definition pending_op cl (p : N) : option DataOp := pm_op <$> cl_pending cl !! p.

(** The client's counters for a partition whose decided operations it knows to be [D]. *)
Definition counters_ok cl (p : N) D : Prop :=
  let n := N.of_nat (length D) in
  if bool_decide (p ∈ ch_exhausted_streams (cl_cache cl)) then n = u64_max ∧ cl_pending cl !! p = None
  else (n < u64_max)%N ∧ default 1%N (ch_next_seq (cl_cache cl) !! p) = (n + 1)%N ∧
       ∀ m, cl_pending cl !! p = Some m → pm_sequence m = (n + 1)%N.

Record stream_inv cl w (p : N) D : Prop := {
  si_ok : ws_ok w;
  si_counters : counters_ok cl p D;
  si_decides : decides c (base p) (ws_log w p) D (pending_op cl p);
  si_known req : req_client_id req = c → known w p req → refusable p req ∨ fits (base p) D (pending_op cl p) req;
  si_epoch req : req_client_id req = c → known w p req → req_recovery_epoch req = epoch;
  si_late i req index : ws_log w p !! i = Some (req, index) → req_client_id req = c → nharmless (base p) req →
    (req_sequence req ≤ N.of_nat (length D))%N ∨ D `prefix_of` decided c (base p) (take i (ws_log w p));
}.

Lemma stream_inv_client cl cl' w p D : same_streams cl cl' → stream_inv cl w p D → stream_inv cl' w p D.
Proof.
  intros (En & Ee & Ep) [Hw Hc Hd Hk He Hl]. assert (pending_op cl' p = pending_op cl p) as Eo by (unfold pending_op; by rewrite Ep).
  constructor; rewrite ?Eo; try done. unfold counters_ok in *. by rewrite En, Ee, Ep.
Qed.

Lemma stream_inv_evolves cl w w' p D new : stream_inv cl w p D → evolves c new w w' →
  (∀ req, new p req → req_client_id req = c →
    req_recovery_epoch req = epoch ∧ (refusable p req ∨ fits (base p) D (pending_op cl p) req)) → stream_inv cl w' p D.
Proof.
  intros [Hw Hc Hd Hk Hep Hl] [Hok He] Hnew. destruct (He p) as [[l El] Hkn].
  assert (∀ req, req_client_id req = c → known w' p req → refusable p req ∨ fits (base p) D (pending_op cl p) req) as Hk'.
  { intros req Hr [?|?]%Hkn; [by apply Hk|by apply Hnew|done]. }
  constructor; [by apply Hok|done| |done| |].
  - rewrite El. apply decides_app; [done|done|]. intros [req index] He' Hr. cbn [fst] in *.
    assert (req ∈ (ws_log w' p).*1) as Hin by (rewrite El, fmap_app; apply elem_of_app; right; by apply (list_elem_of_fmap_2 fst _ (req, index))).
    destruct (Hk' req Hr ltac:(by right)) as [Hf|?]; [|done]. by apply (ws_refused w' p req (Hok Hw) Hin) in Hf.
  - intros req Hr [?|?]%Hkn; [by apply Hep|by apply Hnew|done].
  - intros i req index Hi Hr Hn. rewrite El in Hi |- *. apply lookup_app_Some in Hi as [Hi|[Hi _]].
    + rewrite take_app_le by (apply Nat.lt_le_incl; by eapply lookup_lt_Some). by eapply Hl.
    + right. rewrite take_app_ge by lia. etrans; [by eapply decides_prefix|]. apply decided_prefix.
Qed.

(** ** Steps that leave the streams alone *)

Definition calm_step (new : N → DataRequest → Prop) (s s' : Client * W) : Prop := same_streams s.1 s'.1 ∧ evolves c new s.2 s'.2.
Abbreviation calm new := (keeps (calm_step new)).
Abbreviation acalm new := (akeeps (calm_step new)).

#[local] Instance calm_preorder new : PreOrder (calm_step new).
Proof.
  split; [intros s; split; [done|apply evolves_refl]|]. intros s1 s2 s3 [(? & ? & ?) ?] [(? & ? & ?) ?].
  split; [split_and!; congruence|by eapply evolves_trans].
Qed.

Lemma calm_client new cl cl' w : same_streams cl cl' → calm_step new (cl, w) (cl', w).
Proof. intros Hs. split; [done|apply evolves_refl]. Qed.
Lemma calm_sleep new n cl w : calm_step new (cl, w) (cl, tr_sleep n w).
Proof. split; [done|]. eapply evolves_weaken; [|apply ws_sleep]. done. Qed.

(** What a message type, group and payload carry. *)
Definition carried (mt : MsgType) (group : GroupId) (payload : bytes) (p : N) (req : DataRequest) : Prop :=
  mt = MsgType_ClientOp ∧ group = GroupId_Data p ∧ decode payload = Ok (ClientRequest_Mutate req).

Lemma call_spec cluster_id addr mt group payload s s' r : call cluster_id addr mt group payload s = (s', r) →
  calm_step (carried mt group payload) s s' ∧
  ∀ env, r = Ok (Some env) → ∃ id, tr_call addr (mkEnvelope cluster_id mt group id payload) s.2 = (s'.2, Some env).
Proof.
  destruct s as [cl w]. unfold call. cbn. destruct (tr_call _ _ w) as [w' x] eqn:E. intros [= <- <-]. split.
  - split; [done|]. cbn. apply ws_call in E. done.
  - intros env [= ->]. eauto.
Qed.

Lemma calm_call cluster_id addr mt group payload : calm (carried mt group payload) (call cluster_id addr mt group payload).
Proof. intros s s' r E. by eapply call_spec. Qed.

Lemma calm_weaken (new new' : N → DataRequest → Prop) {A} (m : io (Client * W) A) :
  (∀ p req, new p req → new' p req) → calm new m → calm new' m.
Proof. intros Hn Hm s s' r E. destruct (Hm _ _ _ E) as [? ?]. split; [done|by eapply evolves_weaken]. Qed.

Lemma calm_meta new cluster_id addr : calm new (call (W:=W) cluster_id addr MsgType_MetaQuery GroupId_Meta []).
Proof. eapply calm_weaken; [|apply calm_call]. by intros p req (? & _). Qed.

(** What a reply to the request says. *)
Definition answered (p : N) (req : DataRequest) (w : W) (reply : ClientReply) : Prop :=
  match reply with
  | ClientReply_Mutation wr => ∃ i index r, ws_log w p !! i = Some (req, index) ∧
      (spec_run (base p) (ws_log w p)).1 !! i = Some r ∧ wr = from_apply r
  | ClientReply_Refused _ => refusable p req
  | _ => True
  end.

Definition answers mt group payload (s' : Client * W) (reply : ClientReply) : Prop :=
  ∀ p req, carried mt group payload p req → answered p req s'.2 reply.

Lemma call_answers cluster_id addr mt group payload s s' env reply :
  ws_ok s.2 → call cluster_id addr mt group payload s = (s', Ok (Some env)) → ev_cluster_id env = cluster_id →
  decode (ev_payload env) = Ok reply → answers mt group payload s' reply.
Proof.
  intros Hw E Hc Hd p req Hcar. destruct (call_spec _ _ _ _ _ _ _ _ E) as [_ Hcall]. destruct (Hcall _ eq_refl) as [id Ht].
  unfold answered. destruct reply; try done.
  - eapply (ws_answer (W:=W)); [exact Hw|exact Ht|exact Hcar|exact Hc|exact Hd].
  - eapply (ws_refusal (W:=W)); [exact Hw|exact Ht|exact Hcar|exact Hc|exact Hd].
Qed.

(** Steps preserve the invariant of the service. *)
Definition okstep (s s' : Client * W) : Prop := ws_ok s.2 → ws_ok s'.2.
#[local] Instance okstep_preorder : PreOrder okstep.
Proof. unfold okstep. split; [intros s; auto|intros s1 s2 s3; auto]. Qed.
Lemma okstep_client cl cl' (w : W) : same_streams cl cl' → okstep (cl, w) (cl', w).
Proof. by intros _ ?. Qed.
Lemma okstep_call cluster_id addr mt group payload : keeps okstep (call (W:=W) cluster_id addr mt group payload).
Proof. intros s s' r E. destruct (call_spec _ _ _ _ _ _ _ _ E) as [[_ [Ho _]] _]. exact Ho. Qed.
Lemma okstep_candidates cluster_id p mt group payload l rn : keeps okstep (try_candidates (W:=W) cluster_id p mt group payload rn l).
Proof. apply keeps_candidates; [apply _|apply okstep_client|intros; apply okstep_call]. Qed.
Lemma okstep_refresh cluster_id seeds (b : bool) :
  keeps okstep (if b then ignoring (refresh_routing (W:=W) cluster_id seeds) else refresh_routing cluster_id seeds).
Proof. destruct b; [apply keeps_ignoring|]; (apply keeps_refresh; [apply _|apply okstep_client|intros; apply okstep_call]). Qed.
Lemma okstep_sleep (b : bool) :
  keeps okstep (if b then (λ '(cl, w), ((cl, tr_sleep RECOVERY_RETRY_DELAY w), Ok tt)) else io_ret tt).
Proof. apply keeps_sleep; [apply _|]. intros n cl w. exact (proj1 (ws_sleep n w)). Qed.

Lemma candidates_answer cluster_id p mt group payload l : ∀ rn s s' rn' reply, ws_ok s.2 →
  try_candidates (W:=W) cluster_id p mt group payload rn l s = (s', Ok (rn', Some reply)) → answers mt group payload s' reply.
Proof.
  induction l as [|node l IH]; intros rn s s' rn' reply Hw; [done|]. cbn [try_candidates].
  destruct s as [cl w]. intros (s1 & addr & Er & E)%io_bind_ok. injection Er as <- <-.
  destruct (resolve_addr node cl) as [addr|]; [|by eapply IH in E].
  apply io_bind_ok in E as (s1 & o & Ec & E). pose proof (okstep_call _ _ _ _ _ _ _ _ Ec Hw) as Hw1. destruct o as [env|]; [|by eapply IH in E]. destruct (N.eqb_spec (ev_cluster_id env) cluster_id) as [Hc|]; [|done].
  cbn [negb] in E. apply io_bind_ok in E as (s2 & now & Er & E). unfold io_read in Er. destruct s1 as [cl1 w1]. injection Er as <- <-.
  destruct (decode (ev_payload env)) as [rep|] eqn:Ed; [|by eapply IH in E]. pose proof (call_answers _ _ _ _ _ _ _ _ _ Hw Ec Hc Ed) as Ha.
  destruct rep; try (injection E as <- _ <-; exact Ha); [|by eapply IH in E].
  destruct (negb _); [done|]. apply io_bind_ok in E as (s3 & [] & Em & E). injection Em as <-.
  match type of E with (if ?b then _ else _) _ = _ => destruct b end; [done|by eapply IH in E].
Qed.

Lemma route_answers cluster_id seeds p mt group payload order fuel : ∀ rounds since s s' reply, ws_ok s.2 →
  route_loop (W:=W) cluster_id seeds fuel p mt group payload order rounds since s = (s', Ready (Ok reply)) →
  answers mt group payload s' reply.
Proof.
  induction fuel as [|fuel IH]; intros rounds since s s' reply Hw; cbn [route_loop]; [done|].
  intros (s1 & l & E1 & E)%aio_io_bind_ok.
  assert (ws_ok s1.2) as Hw1 by (destruct s; unfold on_client in E1; destruct (candidate_nodes _ _ _); by injection E1 as <- _).
  apply aio_io_bind_ok in E as (s2 & [rn [rep|]] & Ec & E).
  - injection E as <- <-. by eapply candidates_answer.
  - apply okstep_candidates in Ec. apply aio_io_bind_ok in E as (s3 & u & Er & E). apply okstep_refresh in Er.
    apply aio_io_bind_ok in E as (s4 & now & En & E). injection En as <- _. cbn zeta in E.
    match type of E with (if ?b then _ else _) _ = _ => destruct b end; [done|].
    apply aio_io_bind_ok in E as (s5 & u' & Es & E). apply okstep_sleep in Es. eapply IH; [|exact E]. auto.
Qed.

(** ** Resolving a mutation *)

Definition reply_of (m : MutationResult) : WriteReply := from_apply (ApplyResult_Decided m).

Lemma known_log w p i req index : ws_log w p !! i = Some (req, index) → known w p req.
Proof. intros Hi%list_elem_of_lookup_2. right. by apply (list_elem_of_fmap_2 fst _ (req, index)). Qed.

Lemma inv_known_log cl w p D i req index : stream_inv cl w p D → ws_log w p !! i = Some (req, index) → req_client_id req = c →
  fits (base p) D (pending_op cl p) req.
Proof.
  intros Hi Hl Hc. pose proof (known_log _ _ _ _ _ Hl) as Hk. destruct (si_known _ _ _ _ Hi req Hc Hk) as [Hr|?]; [|done].
  destruct (ws_refused w p req); [apply Hi| |done]. apply list_elem_of_lookup_2 in Hl. by apply (list_elem_of_fmap_2 fst _ (req, index)).
Qed.

Definition release (p : N) cl : Client := set_pending (delete p (cl_pending cl)) cl.

Lemma pending_release p cl : pending_op (release p cl) p = None.
Proof. unfold pending_op, release. cbn. by rewrite lookup_delete_eq. Qed.
Lemma stream_inv_other cl cl' w p D :
  ch_next_seq (cl_cache cl') !! p = ch_next_seq (cl_cache cl) !! p →
  (p ∈ ch_exhausted_streams (cl_cache cl') ↔ p ∈ ch_exhausted_streams (cl_cache cl)) →
  cl_pending cl' !! p = cl_pending cl !! p → stream_inv cl w p D → stream_inv cl' w p D.
Proof.
  intros En Ee Ep [Hw Hc Hd Hk He Hl]. assert (pending_op cl' p = pending_op cl p) as Eo by (unfold pending_op; by rewrite Ep).
  constructor; rewrite ?Eo; try done. unfold counters_ok in *. by rewrite En, Ep, (bool_decide_ext _ _ Ee).
Qed.

(** The pending operation is decided: the stream moves on. *)
Lemma inv_commit cl w p D op m : stream_inv cl w p D → cl_pending cl !! p = Some (mkPending (N.of_nat (length D) + 1) op) →
  decided c (base p) (ws_log w p) = D ++ [(op, m)] →
  stream_inv (release p (commit_sequence p (N.of_nat (length D) + 1) cl)) w p (D ++ [(op, m)]).
Proof.
  intros Hi Hp Hdec. pose proof Hi as [Hw Hc Hd Hk He Hl]. assert (pending_op cl p = Some op) as Ho by (unfold pending_op; by rewrite Hp).
  assert (∀ req, fits (base p) D (pending_op cl p) req → ∀ o, fits (base p) (D ++ [(op, m)]) o req) as Hfits.
  { intros req Hf o. unfold fits in *. rewrite length_app. cbn. destruct Hf as [?|[?|[? _]]]; [by left|right; left; lia..]. }
  constructor; [done|..].
  - unfold counters_ok in *. rewrite length_app, Nat2N.inj_add. cbn [length]. change (N.of_nat 1) with 1%N.
    case_bool_decide as Hx; [destruct Hc; congruence|]. destruct Hc as (Hn & Hnext & _). set (n := N.of_nat (length D)) in *.
    unfold release, commit_sequence. cbn [cl_cache set_pending cl_pending]. rewrite Hnext, N.leb_refl. unfold checked_add.
    destruct (N.leb_spec (n + 1 + 1) u64_max) as [Hle|Hgt]; cbn.
    + rewrite bool_decide_false by done. rewrite lookup_insert_eq, lookup_delete_eq. cbn. split_and!; [lia|lia|done].
    + rewrite bool_decide_true by set_solver. rewrite lookup_delete_eq. split; [lia|done].
  - left. done.
  - intros req Hr Hkn. destruct (Hk req Hr Hkn) as [?|Hf]; [by left|right]. by apply Hfits.
  - done.
  - intros i req index Hlog Hr Hn. left. pose proof (inv_known_log _ _ _ _ _ _ _ Hi Hlog Hr) as [?|[?|[? _]]]; [done|..]; rewrite length_app; cbn; lia.
Qed.

(** The pending operation can never be decided: its sequence is free again. *)
Lemma inv_release cl w p D op : stream_inv cl w p D → cl_pending cl !! p = Some (mkPending (N.of_nat (length D) + 1) op) →
  (∀ req, req_client_id req = c → req_sequence req = (N.of_nat (length D) + 1)%N → req_op req = op → req_recovery_epoch req = epoch →
     refusable p req ∨ ¬ nharmless (base p) req) → stream_inv (release p cl) w p D.
Proof.
  intros Hi Hp Hnever. pose proof Hi as [Hw Hc Hd Hk He Hl]. assert (pending_op cl p = Some op) as Ho by (unfold pending_op; by rewrite Hp).
  constructor; [done|..].
  - unfold counters_ok in *. unfold release. cbn [cl_cache set_pending cl_pending]. rewrite lookup_delete_eq.
    case_bool_decide; [destruct Hc; congruence|]. destruct Hc as (? & ? & _). done.
  - destruct Hd as [?|(op' & m & Ho' & Hdec)]; [by left|exfalso].
    assert (decided c (base p) (ws_log w p) !! length D = Some (op', m)) as Hl' by (rewrite Hdec; by apply list_lookup_middle).
    destruct (decided_entry c (base p) (Hbase p) _ _ _ _ Hl') as (req & Hin & Hr & Hs & Hop & Hn).
    assert (known w p req) as Hkn by (by right). destruct (Hnever req) as [Hf|?]; try done; [congruence|by apply He|].
    by apply (ws_refused w p req Hw) in Hf.
  - intros req Hr Hkn. destruct (Hk req Hr Hkn) as [?|[?|[?|[Hs Hop]]]]; [by left|right; by left|right; right; by left|].
    destruct (Hnever req) as [?|?]; try done; [congruence|by apply He|by left|right; by left].
  - done.
  - done.
Qed.

(** What a mutation of [op] leaves behind: it is decided, it is rejected for good, or its outcome is unknown. *)
Definition settled (p : N) (op : DataOp) (D : list (DataOp * MutationResult)) (s' : Client * W) (r : poll (Result WriteReply)) : Prop :=
  (∃ m, r = Ready (Ok (reply_of m)) ∧ stream_inv s'.1 s'.2 p (D ++ [(op, m)])) ∨
  (r = Ready (Ok (WriteReply_Rejected RejectReason_Malformed)) ∧ malformed op = true ∧ stream_inv s'.1 s'.2 p D) ∨
  ((∀ a, r ≠ Ready (Ok a)) ∧ stream_inv s'.1 s'.2 p D).

Lemma resolve_spec cl w p D op reply cl' r : stream_inv cl w p D →
  cl_pending cl !! p = Some (mkPending (N.of_nat (length D) + 1) op) →
  answered p (mkDataRequest epoch c (N.of_nat (length D) + 1) op) w reply →
  resolve p (N.of_nat (length D) + 1) reply cl = (cl', r) → settled p op D (cl', w) (Ready r).
Proof.
  intros Hi Hp Ha. set (req := mkDataRequest epoch c (N.of_nat (length D) + 1) op) in *.
  assert (∀ e, (cl, Err e) = (cl', r) → settled p op D (cl', w) (Ready r)) as Hkeep.
  { intros e [= <- <-]. right. right. split; [done|exact Hi]. }
  assert (∀ reqd, req_client_id reqd = c → req_sequence reqd = (N.of_nat (length D) + 1)%N → req_op reqd = op →
    req_recovery_epoch reqd = epoch → reqd = req) as Huniq by (intros [] Ec Es Eo Ee; cbn in *; unfold req; by rewrite Ec, Es, Eo, Ee).
  unfold resolve. destruct reply as [x y|wr|v|rd| |e|e|e|e]; try (apply (Hkeep _)); try (unfold io_err; apply Hkeep).
  - destruct Ha as (i & index & res & Hlog & Hres & ->).
    pose proof (result_at (base p) _ _ _ Hlog) as Hres'. rewrite Hres in Hres'. injection Hres' as ->. cbn [fst snd].
    destruct (step_client c (base p) (Hbase p) (take i (ws_log w p)) req index eq_refl) as [(Hh & [Hr|[Hr Hm]])|Hn].
    + rewrite Hr. unfold io_err. apply Hkeep.
    + rewrite Hr. cbn. intros [= <- <-]. right. left. split_and!; [done..|]. eapply inv_release; [done..|].
      intros reqd Hd1 Hd2 Hd3 Hd4. rewrite (Huniq reqd) by done. by right.
    + assert (nharmless (base p) req) as Hnh by naive_solver. clear Hn.
      destruct (si_late _ _ _ _ Hi _ _ _ Hlog eq_refl Hnh) as [Hle|Hpre]; [cbn in Hle; lia|].
      pose proof (si_decides _ _ _ _ Hi) as Hd. unfold pending_op in Hd. rewrite Hp in Hd. cbn in Hd.
      destruct (pending_result c (base p) (Hbase p) _ _ _ _ _ _ Hd Hlog eq_refl eq_refl eq_refl Hpre Hnh) as (m & Hdec & Hm).
      rewrite Hres in Hm. assert (from_apply (spec_step (state_of (base p) (take i (ws_log w p))) req index).1 = reply_of m) as ->
        by (destruct Hm as [[= ->]|[= ->]]; by destruct m).
      pose proof (inv_commit _ _ _ _ _ _ Hi Hp Hdec) as Hi'.
      intros E. left. exists m. by destruct m; injection E as <- <-.
  - cbn. intros [= <- <-]. right. right. split; [done|]. eapply inv_release; [done..|].
    intros reqd Hd1 Hd2 Hd3 Hd4. rewrite (Huniq reqd) by done. by left.
Qed.

(** ** Starting a mutation *)

Lemma next_sequence_spec cl w p D op cl' r : stream_inv cl w p D → next_mutation_sequence p op cl = (cl', r) →
  stream_inv cl' w p D ∧ (∀ q, q ≠ p → ∀ E, stream_inv cl w q E → stream_inv cl' w q E) ∧
  ∀ s, r = Ok s → s = (N.of_nat (length D) + 1)%N ∧ (s ≤ u64_max)%N ∧
    (cl_pending cl' !! p = None ∨ cl_pending cl' !! p = Some (mkPending s op)).
Proof.
  intros Hi. pose proof (si_counters _ _ _ _ Hi) as Hc. unfold next_mutation_sequence.
  destruct (cl_pending cl !! p) as [[s o]|] eqn:Ep.
  - case_bool_decide as Hop; intros [= <- <-]; (split_and!; [done..|]); [|done]. intros s' [= ->].
    unfold counters_ok in Hc. rewrite Ep in Hc. case_bool_decide; [by destruct Hc|]. destruct Hc as (Hn & _ & Hs). rewrite <-(Hs _ eq_refl). cbn in *. subst o.
    split_and!; [done| |by right]. specialize (Hs _ eq_refl). cbn in Hs. lia.
  - case_bool_decide as Hx; [intros [= <- <-]; by split_and!|]. unfold counters_ok in Hc. rewrite bool_decide_false in Hc by done.
    destruct Hc as (Hn & Hnext & _). unfold reserve_sequence.
    destruct (ch_next_seq (cl_cache cl) !! p) as [s|] eqn:Es; intros [= <- <-]; cbn in Hnext.
    + split_and!; [done..|]. intros s' [= <-]. split_and!; [done|lia|by left].
    + split_and!.
      * pose proof Hi as [? ? ? ? ? ?]. constructor; try done. unfold counters_ok. cbn. rewrite bool_decide_false by done.
        rewrite lookup_insert_eq. cbn. split_and!; [done..|]. by rewrite Ep.
      * intros q Hq E. apply stream_inv_other; cbn; [by rewrite lookup_insert_ne|done..].
      * intros s' [= <-]. split_and!; [done|unfold u64_max; lia|left; exact Ep].
Qed.

Lemma mark_pending_spec cl w p D op : stream_inv cl w p D →
  cl_pending cl !! p = None ∨ cl_pending cl !! p = Some (mkPending (N.of_nat (length D) + 1) op) →
  p ∉ ch_exhausted_streams (cl_cache cl) →
  let cl' := mark_pending p (N.of_nat (length D) + 1) op cl in
  stream_inv cl' w p D ∧ (∀ q, q ≠ p → ∀ E, stream_inv cl w q E → stream_inv cl' w q E) ∧
  cl_pending cl' !! p = Some (mkPending (N.of_nat (length D) + 1) op).
Proof.
  intros Hi [Hp|Hp] Hx; cbn zeta; unfold mark_pending; rewrite Hp; [|by split_and!]. cbn. rewrite lookup_insert_eq. split_and!; [|..|done].
  - destruct Hi as [Hw Hc Hd Hk He Hl]. assert (pending_op cl p = None) as Ho by (unfold pending_op; by rewrite Hp). rewrite Ho in *.
    constructor; [done| | | |done|done].
    + unfold counters_ok in *. cbn. rewrite bool_decide_false in * by done. destruct Hc as (? & ? & _). split_and!; [done..|].
      rewrite lookup_insert_eq. by intros m [= <-].
    + destruct Hd as [?|(? & ? & ? & _)]; [by left|done].
    + intros req Hr Hkn. destruct (Hk req Hr Hkn) as [?|[?|[?|[_ ?]]]]; [by left|right; by left|right; right; by left|done].
  - intros q Hq E. apply stream_inv_other; cbn; [done..|]. by rewrite lookup_insert_ne.
Qed.

Lemma pending_not_exhausted cl w p D : stream_inv cl w p D → is_Some (cl_pending cl !! p) → p ∉ ch_exhausted_streams (cl_cache cl).
Proof. intros [_ Hc _ _ _ _] [m Hm]. unfold counters_ok in Hc. case_bool_decide; [|done]. destruct Hc. congruence. Qed.

Lemma next_sequence_exhausted p op cl cl' s : next_mutation_sequence p op cl = (cl', Ok s) →
  is_Some (cl_pending cl' !! p) ∨ p ∉ ch_exhausted_streams (cl_cache cl').
Proof.
  unfold next_mutation_sequence. destruct (cl_pending cl !! p) eqn:Ep; [case_bool_decide; intros [= <- <-]; left; rewrite Ep; by eexists|].
  case_bool_decide; [done|]. unfold reserve_sequence. destruct (ch_next_seq (cl_cache cl) !! p); intros [= <- <-]; by right.
Qed.

Definition inv (hist : N → list (DataOp * MutationResult)) (s : Client * W) : Prop := ∀ q, stream_inv s.1 s.2 q (hist q).

Lemma inv_calm hist s s' : inv hist s → calm_step (λ _ _, False) s s' → inv hist s'.
Proof.
  intros Hi [Hs He] q. eapply stream_inv_client; [done|]. eapply stream_inv_evolves; [apply Hi|done|done].
Qed.

(** The frames of one mutation carry its request and nothing else. *)
Lemma carried_request p req q req' : wf (ClientRequest_Mutate req) →
  carried MsgType_ClientOp (GroupId_Data p) (encode (ClientRequest_Mutate req)) q req' → q = p ∧ req' = req.
Proof. intros Hw (_ & [= <-] & Hd). rewrite decode_encode in Hd by done. by injection Hd as ->. Qed.

Lemma inv_sending hist s s' p op req : inv hist s → pending_op s.1 p = Some op → req_op req = op → req_recovery_epoch req = epoch →
  req_sequence req = (N.of_nat (length (hist p)) + 1)%N →
  calm_step (λ q r, q = p ∧ r = req) s s' → inv hist s' ∧ cl_pending s'.1 = cl_pending s.1.
Proof.
  intros Hi Hp Ho He Hs [Hss Hev]. split; [|apply Hss]. intros q. eapply stream_inv_client; [done|].
  eapply stream_inv_evolves; [apply Hi|done|]. intros r [-> ->] _. split; [done|]. right. right. right. by rewrite Hp, Ho.
Qed.

Lemma acalm_weaken (new new' : N → DataRequest → Prop) {A} (m : aio (Client * W) A) :
  (∀ p req, new p req → new' p req) → acalm new m → acalm new' m.
Proof. intros Hn Hm s s' r E. destruct (Hm _ _ _ E) as [? ?]. split; [done|by eapply evolves_weaken]. Qed.

Lemma resolve_other cl w p s reply cl' r q D : q ≠ p → resolve p s reply cl = (cl', r) → stream_inv cl w q D → stream_inv cl' w q D.
Proof.
  intros Hq E. assert (∀ x, stream_inv x w q D → stream_inv (release p x) w q D) as Hrel.
  { intros x. apply stream_inv_other; cbn; [done..|]. by rewrite lookup_delete_ne. }
  assert (stream_inv cl w q D → stream_inv (commit_sequence p s cl) w q D) as Hcom.
  { intros Hi. unfold commit_sequence. destruct (_ <=? s)%N; [destruct (checked_add _ _ _)|]; (eapply stream_inv_other; [..|exact Hi]); cbn;
      rewrite ?lookup_insert_ne, ?lookup_delete_ne by done; try done. rewrite elem_of_union, elem_of_singleton. naive_solver. }
  intros Hi. destruct reply as [x y|[v|cu|[]]|v|rd| |e|e|e|e]; injection E as <- <-; first [exact Hi|apply Hrel, Hcom, Hi|apply Hrel, Hi].
Qed.

(** From the pending mark to the end. *)
Lemma send_spec cluster_id seeds fuel p op hist cl w s' r :
  let sequence := (N.of_nat (length (hist p)) + 1)%N in
  let req := mkDataRequest epoch c sequence op in
  inv hist (cl, w) → wf (ClientRequest_Mutate req) →
  cl_pending cl !! p = None ∨ cl_pending cl !! p = Some (mkPending sequence op) → p ∉ ch_exhausted_streams (cl_cache cl) →
  (let~ reply := route (W:=W) cluster_id seeds fuel p MsgType_ClientOp (GroupId_Data p) (encode (ClientRequest_Mutate req)) RouteOrder_LeaderFirst in
   aio_io (with_client (resolve p sequence reply))) (mark_pending p sequence op cl, w) = (s', r) →
  (∀ q, q ≠ p → stream_inv s'.1 s'.2 q (hist q)) ∧ settled p op (hist p) s' r.
Proof.
  intros sequence req Hi Hw Hpend Hx E.
  destruct (mark_pending_spec _ _ _ _ _ (Hi p) Hpend Hx) as (Hp1 & Hq1 & Hpend1). cbn [fst snd] in *. fold sequence in Hp1, Hq1, Hpend1.
  set (cl1 := mark_pending p sequence op cl) in *.
  assert (inv hist (cl1, w)) as Hi1.
  { intros q. destruct (decide (q = p)) as [->|Hq]; [done|]. apply Hq1; [done|apply Hi]. }
  assert (acalm (λ q x, q = p ∧ x = req) (route (W:=W) cluster_id seeds fuel p MsgType_ClientOp (GroupId_Data p)
    (encode (ClientRequest_Mutate req)) RouteOrder_LeaderFirst)) as Hcalm.
  { eapply acalm_weaken; [intros q x; apply (carried_request p req); exact Hw|].
    apply akeeps_route; [apply _|apply calm_client|intros; apply calm_meta|intros; apply calm_call|intros; apply calm_sleep]. }
  assert (∀ s2, calm_step (λ q x, q = p ∧ x = req) (cl1, w) s2 → inv hist s2 ∧ cl_pending s2.1 = cl_pending cl1) as Hsend.
  { intros s2. apply (inv_sending hist (cl1, w) s2 p op req); try done. unfold pending_op. cbn [fst]. by rewrite Hpend1. }
  apply aio_bind_ready in E as [(s2 & reply & Er & E)|[[Er ->]|(e & Er & ->)]];
    destruct (Hsend _ (Hcalm _ _ _ Er)) as [Hi2 Hpend2].
  2,3: split; [intros q _; apply Hi2|right; right; split; [done|apply Hi2]].
  assert (answered p req s2.2 reply) as Ha.
  { apply aio_bind_ready in Er as [(s3 & [] & E3 & Er)|[[_ ?]|(e & _ & ?)]]; [|done..]. injection E3 as <-. eapply route_answers; [apply (si_ok _ _ _ _ (Hi1 p))|exact Er|].
    split_and!; [done..|]. by apply decode_encode. }
  destruct s2 as [cl2 w2]. unfold aio_io, with_client in E. destruct (resolve p sequence reply cl2) as [cl3 x] eqn:Ex.
  injection E as <- <-. cbn [fst snd] in *. split.
  - intros q Hq. pose proof (Hi2 q) as Hiq. cbn in Hiq. eapply resolve_other; [exact Hq|exact Ex|exact Hiq].
  - apply (resolve_spec cl2 w2 p _ op reply); [apply (Hi2 p)|rewrite Hpend2; exact Hpend1|exact Ha|exact Ex].
Qed.

Lemma mutate_spec cluster_id seeds fuel key op hist s s' r : wf op → (epoch ≤ u128_max)%N → (c ≤ u128_max)%N →
  inv hist s → mutate (W:=W) cluster_id c epoch seeds fuel key op s = (s', r) →
  ∃ p, (∀ q, q ≠ p → stream_inv s'.1 s'.2 q (hist q)) ∧ settled p op (hist p) s' r.
Proof.
  intros Hop Hep Hcl Hi E.
  assert (∀ s1, inv hist s1 → s' = s1 → (∀ a, r ≠ Ready (Ok a)) →
    ∃ p, (∀ q, q ≠ p → stream_inv s'.1 s'.2 q (hist q)) ∧ settled p op (hist p) s' r) as Hstop.
  { intros s1 Hi1 -> Hr. exists 0%N. split; [intros q _; apply Hi1|]. right. right. split; [done|apply Hi1]. }
  assert (acalm (λ _ _, False) (aio_io (client_partition_of (W:=W) cluster_id seeds key))) as Hpart
    by (apply akeeps_io, keeps_partition_of; [apply _|apply calm_client|intros; apply calm_meta]).
  apply aio_bind_ready in E as [(s1 & p & Ep & E)|[[Ep ->]|(e & Ep & ->)]];
    pose proof (inv_calm _ _ _ Hi (Hpart _ _ _ Ep)) as Hi1; [|by eapply Hstop..].
  destruct s1 as [cl1 w1]. unfold aio_bind at 1, aio_io at 1, with_client at 1 in E.
  destruct (next_mutation_sequence p op cl1) as [cl2 x] eqn:En.
  destruct (next_sequence_spec _ _ _ _ _ _ _ (Hi1 p) En) as (Hp2 & Hq2 & Hok). cbn [fst snd] in Hok, Hq2.
  assert (inv hist (cl2, w1)) as Hi2.
  { intros q. destruct (decide (q = p)) as [->|Hq]; [done|]. apply Hq2; [done|apply Hi1]. }
  destruct x as [sequence|e]; [|injection E as <- <-; by eapply Hstop].
  destruct (Hok _ eq_refl) as (Hs & Hmax & Hpend). cbn zeta in E. set (req := mkDataRequest epoch c sequence op) in *.
  apply aio_bind_ready in E as [(s3 & u & Ev & E)|[[Ev ->]|(e & Ev & ->)]]; unfold aio_io, io_read in Ev;
    [|done|injection Ev as <- _; by eapply Hstop]. injection Ev as <- _.
  exists p. subst sequence. apply (send_spec cluster_id seeds fuel p op hist cl2 w1); [done..| |exact E].
  destruct (next_sequence_exhausted _ _ _ _ _ En) as [Hsome|?]; [|done]. by eapply pending_not_exhausted.
Qed.

(** ** A session *)

(** Mutations one after the other, each with its outcome. *)
Fixpoint session (cluster_id : N) (seeds : list string) (fuel : nat) (calls : list (bytes * DataOp)) (s : Client * W)
    : (Client * W) * list (poll (Result WriteReply)) :=
  match calls with
  | [] => (s, [])
  | (key, op) :: calls =>
      let '(s, r) := mutate cluster_id c epoch seeds fuel key op s in
      let '(s, rs) := session cluster_id seeds fuel calls s in (s, r :: rs)
  end.

(** The calls to a partition that were reported as decided, with their replies. *)
Definition reported (p : N) (x : N * (bytes * DataOp) * poll (Result WriteReply)) : list (DataOp * WriteReply) :=
  match x with
  | (q, (_, op), Ready (Ok (WriteReply_Rejected _))) => []
  | (q, (_, op), Ready (Ok w)) => if bool_decide (q = p) then [(op, w)] else []
  | _ => []
  end.
Definition acked (p : N) (parts : list N) (calls : list (bytes * DataOp)) (rs : list (poll (Result WriteReply)))
    : list (DataOp * WriteReply) := concat (reported p <$> zip (zip parts calls) rs).

Definition replies (D : list (DataOp * MutationResult)) : list (DataOp * WriteReply) := prod_map id reply_of <$> D.

Lemma reply_of_reported p q key op m : reported p (q, (key, op), Ready (Ok (reply_of m))) = if bool_decide (q = p) then [(op, reply_of m)] else [].
Proof. by destruct m. Qed.

Lemma session_spec cluster_id seeds fuel calls : (epoch ≤ u128_max)%N → (c ≤ u128_max)%N → Forall (λ x, wf x.2) calls →
  ∀ hist s s' rs, inv hist s → session cluster_id seeds fuel calls s = (s', rs) →
  ∃ parts hist', length parts = length calls ∧ inv hist' s' ∧
    ∀ p, replies (hist' p) = replies (hist p) ++ acked p parts calls rs.
Proof.
  intros He Hc. induction 1 as [|[key op] calls Hop _ IH]; intros hist s s' rs Hi E; cbn [session] in E.
  { injection E as <- <-. exists [], hist. split_and!; [done..|]. intros p. by rewrite app_nil_r. }
  destruct (mutate _ _ _ _ _ _ _ s) as [s1 r] eqn:Em. destruct (session _ _ _ _ s1) as [s2 rs2] eqn:Es. injection E as <- <-.
  destruct (mutate_spec _ _ _ _ _ hist _ _ _ Hop He Hc Hi Em) as (p & Hq & Hset).
  assert (∃ hist1, inv hist1 s1 ∧ ∀ q, replies (hist1 q) = replies (hist q) ++ reported q (p, (key, op), r)) as (hist1 & Hi1 & Hrep).
  { destruct Hset as [(m & -> & Hp)|[(-> & _ & Hp)|[Hr Hp]]].
    - exists (λ q, hist q ++ (if bool_decide (p = q) then [(op, m)] else [])). split.
      + intros q. case_bool_decide as Epq; [by subst q|]. rewrite app_nil_r. apply Hq. congruence.
      + intros q. unfold replies. rewrite fmap_app, reply_of_reported. by case_bool_decide.
    - exists hist. split; [intros q; destruct (decide (q = p)) as [->|]; auto|]. intros q. by rewrite app_nil_r.
    - exists hist. split; [intros q; destruct (decide (q = p)) as [->|]; auto|]. intros q. rewrite <-(app_nil_r (replies _)) at 1. f_equal.
      destruct r as [[w|e]|]; [by destruct (Hr w)|done..]. }
  destruct (IH hist1 s1 s2 rs2 Hi1 Es) as (parts & hist' & Hl & Hi' & Hrep'). exists (p :: parts), hist'.
  split_and!; [cbn; lia|done|]. intros q. rewrite Hrep', Hrep. unfold acked. cbn. by rewrite (assoc_L (++)).
Qed.

Lemma decided_none p log : (∀ req, req ∈ log.*1 → req_client_id req ≠ c) → decided c (base p) log = [].
Proof.
  intros Hn. destruct (decided c (base p) log) as [|[op m] D] eqn:E; [done|exfalso].
  destruct (decided_entry c (base p) (Hbase p) log 0 op m) as (req & Hin & Hr & _); [by rewrite E|]. by eapply Hn.
Qed.

Lemma inv_new w : ws_ok w → (∀ p req, known w p req → req_client_id req ≠ c) → inv (λ _, []) (Client_new, w).
Proof.
  intros Hw Hn p. cbn [fst snd]. constructor; [done|..].
  - unfold counters_ok. cbn. rewrite bool_decide_false by set_solver. rewrite lookup_empty. done.
  - left. apply decided_none. intros req Hin. apply (Hn p). by right.
  - intros req Hr Hk. by destruct (Hn p req Hk).
  - intros req Hr Hk. by destruct (Hn p req Hk).
  - intros i req index Hl Hr. by destruct (Hn p req (known_log _ _ _ _ _ Hl)).
Qed.

(** A session of a new client identity over any such service. *)
Lemma session_exactly_once cluster_id seeds fuel calls w cl w' rs :
  (epoch ≤ u128_max)%N → (c ≤ u128_max)%N → Forall (λ x, wf x.2) calls →
  ws_ok w → (∀ p req, known w p req → req_client_id req ≠ c) →
  session cluster_id seeds fuel calls (Client_new, w) = ((cl, w'), rs) →
  ∃ parts, length parts = length calls ∧ ∀ p,
    let D := replies (decided c (base p) (ws_log w' p)) in
    D = acked p parts calls rs ∨ ∃ m wr, cl_pending cl !! p = Some m ∧ D = acked p parts calls rs ++ [(pm_op m, wr)].
Proof.
  intros He Hc Hw Hok Hn E. destruct (session_spec _ _ _ _ He Hc Hw _ _ _ _ (inv_new w Hok Hn) E) as (parts & hist & Hl & Hi & Hrep).
  exists parts. split; [done|]. intros p. cbn zeta. specialize (Hrep p). cbn in Hrep. rewrite <-Hrep.
  pose proof (si_decides _ _ _ _ (Hi p)) as Hd. cbn [fst snd] in Hd. destruct Hd as [-> |(op & m & Ho & ->)]; [by left|right]. unfold pending_op in Ho.
  destruct (cl_pending cl !! p) as [pm|] eqn:Ep; [|done]. exists pm, (reply_of m). split; [done|].
  unfold replies. rewrite fmap_app. cbn in Ho. cbn. by injection Ho as ->.
Qed.
End client.

(** ** From the client to the replicated log

    The client over gateways over Raft: what the parts guarantee together. *)
Section end_to_end.
Context `{RocksOk D} `{!Codec U64, !Codec U128, !Codec string, !Codec LogId}
  `{!Codec Identity, !Codec ServingState, !Codec BootstrapGroup, !Codec LearnerAdmission}
  `{!Codec RegistrationBinding, !Codec RaftApplied} `{HashesOk} `{!Codec DataOp, !Codec KeyRecord, !Codec SeqRecord}.
Context `{!Codec ClientRequest, !Codec ClientReply, !ReplyTags, !Codec RoutingInfo, !Codec RoutingQuery}.
Context {Q R : Type} `{!Wf Q, !Codec Q} `{!Wf R, !Codec (SearchShardReply R)} `{!Codec SearchCatalogQuery, !Codec SearchCatalogReply}.
Context {W : Type} `{!WriteService W, !Network W}.

(** C4: a new client identity that performs any sequence of mutations against
    the gateways of a cluster, over a network that may lose, delay, duplicate
    and reorder requests and lose replies, and Raft groups that may change
    leader, time out or commit late: in the committed log of every partition the
    decisions of its stream are, in order and with the reported outcomes, the
    mutations it reported as decided, except that the one operation it still
    holds as unresolved may be decided at the end. *)
Theorem cluster_exactly_once (gateways : string → option (ClientGateway (D:=D) (Q:=Q) (R:=R) W)) user
    c base P hash_spec epoch cluster_id seeds fuel calls w cl w' rs :
  NetworkOk c P hash_spec → (∀ addr gw, gateways addr = Some gw → GatewayOk c base P hash_spec gw) →
  (∀ p, as_seq (base p) !! c = None) → (epoch ≤ u128_max)%N → (c ≤ u128_max)%N → Forall (λ x, wf x.2) calls →
  ws_ok w → (∀ p req, known w p req → req_client_id req ≠ c) →
  session (Transport0 := cluster_transport gateways user) c epoch cluster_id seeds fuel calls (Client_new, w) = ((cl, w'), rs) →
  ∃ parts, length parts = length calls ∧ ∀ p,
    let D := replies (decided c (base p) (ws_log w' p)) in
    D = acked p parts calls rs ∨ ∃ m wr, cl_pending cl !! p = Some m ∧ D = acked p parts calls rs ++ [(pm_op m, wr)].
Proof.
  intros Hnet Hgw Hbase He Hc Hcalls Hw Hnew E.
  pose proof (cluster_service_ok gateways user c base P hash_spec Hgw) as Hok.
  exact (session_exactly_once (Transport0 := cluster_transport gateways user) c base (refusable P hash_spec) epoch Hbase
    cluster_id seeds fuel calls w cl w' rs He Hc Hcalls Hw Hnew E).
Qed.
End end_to_end.
