(* ===== verification/Cluster.v ===== *)
(** * A cluster behind an unreliable network, concretely

    One partition on one node: Raft commits by applying to the node's store with
    [data_apply]; requests may be lost, delayed past later ones and committed
    then, duplicated, or lose their reply, as the world's list of fates says.
    The contracts of the write service hold of it. *)

From S2P Require Import Prelude BTree Types Codec SearchDef Envelope Security Keyspace Outbox ApplyDurability Aio Rocks Storage Maintenance DataSM PartitionNode Api Gateway Client SearchStore ApplyRaft DataSpec Bincode Demo Oracles DataProofs Service NodeProofs GatewayProofs ClientProofs WireBincode.

(** ** Values stay within their Rust types *)

Section ranges.
Context `{HashesOk} `{!Codec DataOp, !Codec KeyRecord, !Codec SeqRecord, !Codec U128}.

Record abs_wf (a : AbsState) : Prop := {
  aw_epoch : (as_epoch a ≤ u128_max)%N;
  aw_kv k r : as_kv a !! k = Some r → wf r;
  aw_seq c r : as_seq a !! c = Some r → wf r;
}.

Lemma stream_gate_wf rec sequence dg : from_option wf True rec → (sequence ≤ u64_max)%N →
  match stream_gate rec sequence dg with gate_fresh => True | gate_replay r => wf r | gate_reject r => wf r end.
Proof.
  intros Hr Hs. unfold stream_gate. destruct rec as [r|].
  - destruct Hr as (Hh & _ & Hr). destruct (N.eqb_spec sequence (sq_highest r)); [by destruct (_ =? _)%N|].
    destruct (N.ltb_spec sequence (sq_highest r)); [by split|]. destruct (_ =? _)%N; [done|]. split; [lia|done].
  - destruct (_ =? 0)%N; [by split|]. destruct (_ =? 1)%N; [done|]. by split.
Qed.

Lemma spec_step_wf a req index : abs_wf a → wf req → (index ≤ u64_max)%N →
  abs_wf (spec_step a req index).2 ∧ wf (from_apply (spec_step a req index).1).
Proof.
  intros Ha (He & Hc & Hs & Hop) Hi. pose proof Ha as [Hae Hkv Hseq]. unfold spec_step.
  destruct (negb _); [by split|]. destruct (malformed _); [by split|].
  pose proof (stream_gate_wf (as_seq a !! req_client_id req) (req_sequence req) (digest (req_op req))) as Hg.
  destruct (stream_gate _ _ _) as [|r|r].
  - destruct (spec_decide _ _ _) as [r kv] eqn:Ed. destruct (spec_decide_wf _ _ _ _ _ Ed Hkv Hop Hi) as [Hr Hkv'].
    split; [|by destruct r]. constructor; cbn; [done|done|]. intros c x [[_ <-]|[_ ?]]%lookup_insert_Some; [|by eapply Hseq].
    split_and!; [done|apply xxh3_128_range|done].
  - split; [done|]. destruct r; cbn; apply Hg; try done; destruct (as_seq a !! _) eqn:E; try done; by eapply Hseq.
  - split; [done|]. cbn. apply Hg; [|done]. destruct (as_seq a !! _) eqn:E; [by eapply Hseq|done].
Qed.

Definition entry_ok (e : DataRequest * N) : Prop := wf e.1 ∧ (e.2 ≤ u64_max)%N.

Lemma spec_run_wf a log : abs_wf a → Forall entry_ok log → abs_wf (spec_run a log).2.
Proof.
  intros Ha Hl. revert a Ha. induction Hl as [|[req index] log [Hr Hi] _ IH]; intros a Ha; [done|]. cbn.
  destruct (spec_step_wf a req index Ha Hr Hi) as [Ha' _]. destruct (spec_step a req index) as [r a']. specialize (IH a' Ha').
  by destruct (spec_run a' log).
Qed.
End ranges.

(** ** The world *)

Inductive Fate :=
| FateArrives          (* the request arrives, the proposal commits, the reply arrives *)
| FateLost             (* it does not *)
| FateLate.            (* the request or proposal stays in flight; or one in flight commits now *)

Record World := mkWorld {
  wo_log : list (DataRequest * N);
  wo_inflight : list DataRequest;
  wo_store : Storage MemDb;
  wo_fates : list Fate;
  wo_clock : N;
}.

Definition the_group : GroupId := GroupId_Data 0.
Definition pop_fate (w : World) : World * Fate :=
  match wo_fates w with
  | [] => (w, FateArrives)
  | f :: l => (mkWorld (wo_log w) (wo_inflight w) (wo_store w) l (wo_clock w), f)
  end.

Definition op_ok (op : DataOp) : bool :=
  match op with
  | DataOp_Put k v i => (N.of_nat (length k) <=? u64_max)%N && (N.of_nat (length v) <=? u64_max)%N &&
      match i with Some (IfVersion_Number n) => (n <=? u64_max)%N | _ => true end
  | DataOp_Delete k i => (N.of_nat (length k) <=? u64_max)%N &&
      match i with Some (IfVersion_Number n) => (n <=? u64_max)%N | _ => true end
  end.
Definition req_ok (req : DataRequest) : bool :=
  (req_recovery_epoch req <=? u128_max)%N && (req_client_id req <=? u128_max)%N && (req_sequence req <=? u64_max)%N &&
  op_ok (req_op req).
Definition admitted (req : DataRequest) : bool :=
  is_ok (refusal 1 HashSpec_CANONICAL the_group (ClientRequest_Mutate req)).

Definition next_index (w : World) : N := N.of_nat (length (wo_log w)) + 1.

(** Commit an entry, apply it and publish it as visible. *)
Definition commit_entry (req : DataRequest) (w : World) : World * option (RaftLogId * ApplyResult) :=
  if req_ok req && admitted req && (next_index w <=? u64_max)%N then
    match data_apply the_group req (next_index w) (wo_store w) with
    | (s, Ok r) =>
        let id := mkRaftLogId 1 1 (next_index w) in
        let s := set_apply (registry_visible (wo_clock w) the_group id (st_apply_durability s)) s in
        (mkWorld (wo_log w ++ [(req, next_index w)]) (wo_inflight w) s (wo_fates w) (wo_clock w), Some (id, r))
    | (_, Err _) => (w, None)
    end
  else (w, None).

Definition add_inflight (req : DataRequest) (w : World) : World :=
  mkWorld (wo_log w) (req :: wo_inflight w) (wo_store w) (wo_fates w) (wo_clock w).
(** Something in flight commits; it may commit again. *)
Definition commit_late (w : World) : World :=
  match wo_inflight w with req :: _ => (commit_entry req w).1 | [] => w end.

Definition world_metrics (w : World) : RaftMetrics :=
  mkRaftMetrics (Some 1%N) 1 (Some (mkRaftLogId 1 1 0)) [1%N] [] (Some (mkRaftLogId 1 1 (N.of_nat (length (wo_log w))))) None.

#[global] Instance world_raft : Raft MemDb World := {|
  rf_storage := wo_store;
  rf_set_storage s w := mkWorld (wo_log w) (wo_inflight w) s (wo_fates w) (wo_clock w);
  rf_now := wo_clock;
  rf_sleep n w := mkWorld (wo_log w) (wo_inflight w) (wo_store w) (wo_fates w) (wo_clock w + n);
  rf_metrics := world_metrics;
  rf_client_write req w :=
    let '(w, f) := pop_fate w in
    match f with
    | FateArrives => match commit_entry req w with
                     | (w, Some x) => (w, Ready (Ok x))
                     | (w, None) => (w, Ready (Err (RaftError_Other "not proposed")))
                     end
    | FateLost => (w, Ready (Err (RaftError_ForwardToLeader None)))
    | FateLate => (add_inflight req w, Ready (Err (RaftError_Other "timed out")))
    end;
  rf_ensure_linearizable w := (w, Ready (Ok (rm_last_applied (world_metrics w))));
  rf_add_learner _ w := (w, Ready (Ok tt));
  rf_change_membership _ w := (w, Ready (Ok tt));
  rf_initialize _ w := (w, Ready (Ok tt));
|}.

#[global] Instance world_network : Network World := {|
  nt_send addr env w :=
    let '(w, f) := pop_fate w in
    match f with
    | FateArrives => (w, true)
    | FateLost => (w, false)
    | FateLate =>
        match ev_msg_type env, ev_group_id env, decode (A:=ClientRequest) (ev_payload env) with
        | MsgType_ClientOp, GroupId_Data 0, Ok (ClientRequest_Mutate req) => (add_inflight req w, false)
        | _, _, _ => (w, false)
        end
    end;
  nt_return w :=
    let '(w, f) := pop_fate w in
    match f with FateArrives => (w, true) | FateLost => (w, false) | FateLate => (commit_late w, true) end;
  nt_now := wo_clock;
  nt_sleep n w := commit_late (mkWorld (wo_log w) (wo_inflight w) (wo_store w) (wo_fates w) (wo_clock w + n));
|}.

(** ** Its invariant *)

Record world_ok (w : World) : Prop := {
  wk_rep : represents (wo_store w) the_group (spec_run (abs_init 0) (wo_log w)).2;
  wk_log : Forall (λ e, entry_ok e ∧ admitted e.1 = true) (wo_log w);
  wk_index i req index : wo_log w !! i = Some (req, index) → index = (N.of_nat i + 1)%N;
}.

#[global] Instance world_service : WriteService World := {|
  ws_log w p := if bool_decide (p = 0%N) then wo_log w else [];
  ws_inflight w p req := p = 0%N ∧ req ∈ wo_inflight w;
  ws_ok := world_ok;
|}.
#[global] Instance world_replica : Replica World := λ w, length (wo_log w).

(** ** Steps *)

Section steps.
Context (c : N).
Abbreviation still := (evolves (W:=World) c (λ _ _, False)).
Abbreviation adding req := (evolves (W:=World) c (λ q x, q = 0%N ∧ x = req)).

(** Changes to nothing the service speaks of. *)
Lemma still_same w w' : wo_log w' = wo_log w → wo_inflight w' = wo_inflight w → (world_ok w → world_ok w') → still w w'.
Proof.
  intros El Ei Ho. split; [done|]. intros p. cbn. rewrite El. split; [done|]. intros req _ [[-> Hi]|Hl]; left; [left; cbn; by rewrite <-Ei|right].
  cbn in *. by rewrite El in Hl.
Qed.

Lemma world_ok_same w w' : wo_log w' = wo_log w → wo_store w' = wo_store w → world_ok w → world_ok w'.
Proof. intros El Es [Hr Hl Hi]. constructor; rewrite ?El, ?Es; done. Qed.

Lemma pop_fate_still w w' f : pop_fate w = (w', f) → still w w' ∧ wo_log w' = wo_log w ∧ wo_inflight w' = wo_inflight w.
Proof.
  unfold pop_fate. destruct (wo_fates w); intros [= <- <-]; (split; [|done]); [apply evolves_refl|].
  apply still_same; [done..|]. by apply world_ok_same.
Qed.

Lemma req_ok_wf req : req_ok req = true → wf req.
Proof.
  unfold req_ok. rewrite !andb_true_iff, !N.leb_le. intros [[[? ?] ?] Ho]. split_and!; [done..|]. unfold op_ok in Ho.
  destruct (req_op req) as [k v i|k i]; rewrite !andb_true_iff, !N.leb_le in Ho.
  - destruct Ho as [[? ?] Hi]. split_and!; [done..|]. destruct i as [[n|]|]; [by apply N.leb_le|done..].
  - destruct Ho as [? Hi]. split_and!; [done..|]. destruct i as [[n|]|]; [by apply N.leb_le|done..].
Qed.

Lemma spec_run_snoc a log e : (spec_run a (log ++ [e])).2 = (spec_step (spec_run a log).2 e.1 e.2).2.
Proof. rewrite spec_run_app. destruct (spec_run a log) as [rs a1]. destruct e as [req index]. cbn. by destruct (spec_step a1 req index). Qed.

(** Outside a legal state a commit may do anything to it; the log and what is in flight are as said. *)
Lemma commit_entry_log req w w' o : commit_entry req w = (w', o) →
  wo_inflight w' = wo_inflight w ∧ (wo_log w' = wo_log w ∧ w' = w ∧ o = None ∨ wo_log w' = wo_log w ++ [(req, next_index w)]).
Proof.
  unfold commit_entry. destruct (_ && _); [|intros [= <- <-]; auto].
  destruct (data_apply _ _ _ _) as [s [r|e]]; intros [= <- <-]; auto.
Qed.

Lemma commit_entry_ok req w w' o : world_ok w → commit_entry req w = (w', o) → world_ok w' ∧
  ∀ id r, o = Some (id, r) → wo_log w' !! length (wo_log w) = Some (req, next_index w) ∧
    (spec_run (abs_init 0) (wo_log w')).1 !! length (wo_log w) = Some r ∧ wf (from_apply r).
Proof.
  intros Hw. pose proof Hw as [Hr Hl Hi]. unfold commit_entry.
  destruct (_ && _) eqn:Eb; [|by intros [= <- <-]]. apply andb_true_iff in Eb as [[Hq Ha]%andb_true_iff Hn%N.leb_le].
  apply req_ok_wf in Hq. destruct (data_apply_exec _ _ _ req (next_index w) Hr Hq Hn) as (ms & s & E & Hap & Hrep).
  destruct (apply_state_map _ _ _ _ _ (rp_cache _ _ _ Hr) Hap) as (Hc' & Ho' & Hmap & _ & _). rewrite E. intros [= <- <-]. split.
  - constructor; cbn [wo_store wo_log].
    + eapply represents_same_data; [by split|]. rewrite spec_run_snoc. constructor; [done..|]. eapply abs_rep_ext; [|exact Hrep]. intros k Hk _. by apply Hmap.
    + apply Forall_app. split; [done|]. apply Forall_singleton. split; [by split|done].
    + intros i req' index. rewrite lookup_app_Some, list_lookup_singleton_Some. intros [?|(Hge & Hz & [= <- <-])]; [by eapply Hi|].
      unfold next_index. assert (i = length (wo_log w)) as -> by lia. done.
  - intros id r [= <- <-]. cbn [wo_log]. split_and!.
    + by apply list_lookup_middle.
    + apply (result_snoc (abs_init 0) (wo_log w) (req, next_index w)). done.
    + apply spec_step_wf; [|done..]. apply spec_run_wf; [|eapply Forall_impl; [exact Hl|by intros ? [? _]]].
      constructor; cbn; [unfold u128_max; lia|by intros ? ? ?%lookup_empty_Some..].
Qed.

Lemma commit_adding req w w' o : commit_entry req w = (w', o) → adding req w w'.
Proof.
  intros E. split; [intros Hw; by apply (commit_entry_ok _ _ _ _ Hw E)|]. apply commit_entry_log in E as [Ei [(El & _)|El]]; intros p; cbn; rewrite El.
  - split; [done|]. intros x _ [[-> ?]|Hl]; left; [left; cbn; by rewrite <-Ei|right]. cbn in *. by rewrite El in Hl.
  - case_bool_decide as Hp.
    2:{ split; [done|]. intros x _ [[-> ?]|Hl]; [done|]. cbn in Hl. rewrite bool_decide_false in Hl by done. by apply elem_of_nil in Hl. }
    split; [by apply prefix_app_r|]. intros x _ [[_ ?]|Hl]; [left; left; split; [done|]; by rewrite <-Ei|]. cbn in Hl.
    rewrite bool_decide_true, El, fmap_app in Hl by done. apply elem_of_app in Hl as [?|Hl%list_elem_of_singleton]; [|right; by subst x].
    left. right. cbn. by rewrite bool_decide_true.
Qed.

Lemma adding_inflight req w : adding req w (add_inflight req w).
Proof.
  split; [by apply world_ok_same|]. intros p. cbn. split; [done|]. intros x _ [[-> [Hx|?]%elem_of_cons]|Hl]; [right; by subst x|left; by left|left; by right].
Qed.

Lemma adding_known req w w' : known w 0 req → adding req w w' → still w w'.
Proof. intros Hk [Ho He]. split; [done|]. intros p. destruct (He p) as [Hp Hn]. split; [done|]. intros x Hc [?|[Hp1 Hp2]]%Hn; [by left|left; by subst|done]. Qed.

Lemma commit_late_still w : still w (commit_late w).
Proof.
  unfold commit_late. destruct (wo_inflight w) as [|req l] eqn:El; [apply evolves_refl|].
  destruct (commit_entry req w) as [w' o] eqn:E. cbn [fst]. eapply adding_known; [|by eapply commit_adding].
  left. split; [done|]. rewrite El. by left.
Qed.

#[global] Instance world_raft_ok : RaftOk MemDb World c 0 (abs_init 0)
  (λ req, ¬ refusable 1 HashSpec_CANONICAL 0 req).
Proof.
  constructor.
  - done.
  - intros s w Hs. split; [|done]. apply still_same; [done..|]. intros [Hr Hl Hi]. constructor; [|done..].
    destruct w as [log inflight st fates clock]. cbn in *. by eapply represents_same_data.
  - intros w [Hr _ _]. cbn. unfold rv_applied, world_replica. by rewrite firstn_all.
  - intros w id i req index Hw [= <-] Hi Hle. rewrite (wk_index _ Hw _ _ _ Hi) in Hle. unfold rv_applied, world_replica. cbn in Hle. lia.
  - intros w i req index Hw Hi. rewrite (wk_index _ Hw _ _ _ Hi). lia.
  - intros req w w' r _. cbn. destruct (pop_fate w) as [w1 f] eqn:Ef. apply pop_fate_still in Ef as [Hs _].
    assert (∀ w2, adding req w1 w2 → adding req w w2) as Ht by (intros w2 H2; eapply evolves_trans; [eapply evolves_weaken; [|exact Hs]; done|exact H2]).
    destruct f.
    + destruct (commit_entry req w1) as [w2 [x|]] eqn:E; intros [= <- _]; by eapply Ht, commit_adding.
    + intros [= <- _]. apply Ht, evolves_refl.
    + intros [= <- _]. apply Ht, adding_inflight.
  - intros req w w' id data Hw _. cbn. destruct (pop_fate w) as [w1 f] eqn:Ef. apply pop_fate_still in Ef as [[Ho _] _].
    destruct f; [|done..]. destruct (commit_entry req w1) as [w2 [x|]] eqn:E; intros [= <- ->].
    destruct (commit_entry_ok _ _ _ _ (Ho Hw) E) as [_ Hx]. destruct (Hx _ _ eq_refl) as (Hi & Hr & Hwf). eauto.
  - intros w w' r [= <- _]. apply evolves_refl.
  - intros w w' target Hw [= <- _]. done.
Qed.

#[global] Instance world_network_ok : NetworkOk c 1 HashSpec_CANONICAL.
Proof.
  constructor.
  - intros addr env w w' b. cbn [nt_send world_network]. destruct (pop_fate w) as [w1 f] eqn:Ef. apply pop_fate_still in Ef as [Hs _].
    assert (evolves c (λ p req, carries env p req) w w1) as Hs' by (eapply evolves_weaken; [|exact Hs]; done).
    destruct f; [by intros [= <- _]..|]. destruct (ev_msg_type env) eqn:Em; try (by intros [= <- _]).
    destruct (ev_group_id env) as [|[|]] eqn:Eg; try (by intros [= <- _]).
    destruct (decode (ev_payload env)) as [[req|]|] eqn:Ed; try (by intros [= <- _]). intros [= <- _].
    eapply evolves_trans; [exact Hs'|]. eapply evolves_weaken; [|apply (adding_inflight req)]. intros p x [-> ->]. by split_and!.
  - intros w w' b. cbn. destruct (pop_fate w) as [w1 f] eqn:Ef. apply pop_fate_still in Ef as [Hs _].
    destruct f; intros [= <- _]; [done..|]. eapply evolves_trans; [exact Hs|apply commit_late_still].
  - intros n w. cbn. eapply evolves_trans; [|apply commit_late_still]. apply still_same; [done..|]. by apply world_ok_same.
  - intros w p req Hw Hl. cbn in Hl. case_bool_decide as Hp; [|by apply elem_of_nil in Hl]. subst p.
    apply list_elem_of_fmap in Hl as (e & -> & He). pose proof (wk_log _ Hw) as Hf. rewrite Forall_forall in Hf. destruct (Hf e He) as [_ Ha].
    unfold admitted in Ha. unfold refusable. change (GroupId_Data 0) with the_group. by rewrite Ha.
Qed.
End steps.

(** ** Concrete runs of a client against the cluster

    A principal's client writes, deletes and reads while its request is delayed,
    committed late and twice, and a reply is lost. *)
Definition the_client : N := 31.
Definition the_policy : option TrustPolicy :=
  match policy_new 7 1 [mkPrincipal "app:orders" demo_key [Permission_ClientWrite; Permission_ClientRead] ["0x1f"]] with
  | Ok policy => Some policy
  | Err _ => None
  end.

Definition the_routing : RoutingInfo :=
  mkRoutingInfo 7 0 1 HashSpec_CANONICAL [mkNodeEntry 1 "a" "b" NodeState_Active 1] [(0%N, mkPlacement [1%N] (mkLogId 1 1) None)].
Definition the_node : PartitionNode World := mkPartitionNode 1 the_group None.
Definition the_gateway : ClientGateway (D:=MemDb) (Q:=U8) (R:=U8) World :=
  mkGateway World 7 1 HashSpec_CANONICAL (λ _ q, if bool_decide (q = 0%N) then Some (world_raft, the_node) else None)
    (λ _ w, (w, Ready (Some the_routing))) None (λ _ w, (w, Ready (SearchShardReply_Error "not configured"))) None
    (Some (λ _, RuntimeLifecycle_Running)) None the_policy.
Definition the_gateways (addr : string) : option (ClientGateway (D:=MemDb) (Q:=U8) (R:=U8) World) :=
  if bool_decide (addr = "a") then Some the_gateway else None.
#[global] Instance the_transport : Transport World := cluster_transport the_gateways (Some "app:orders").

Definition serving_store : Storage MemDb :=
  set_db (write (create_cf (∅ : MemDb) (cf_state the_group)) [BatchPut DEFAULT_CF (serving_key the_group) (encode ServingState_Serving)])
    empty_storage.

Lemma serving_store_represents : represents serving_store the_group (abs_init 0).
Proof.
  constructor; [intros g n; simpl; by rewrite lookup_empty|vm_compute; reflexivity|].
  apply abs_rep_empty. intros k.
  assert (state_cf serving_store the_group = Ok (cf_state the_group)) as E by (vm_compute; reflexivity).
  unfold state_map. rewrite E. unfold serving_store. cbn [st_db set_db].
  rewrite get_write by (by rewrite exists_create, bool_decide_true). rewrite get_create by (vm_compute; reflexivity). reflexivity.
Qed.

Lemma the_gateways_ok c addr gw : the_gateways addr = Some gw → GatewayOk c (λ _, abs_init 0) 1 HashSpec_CANONICAL gw.
Proof.
  unfold the_gateways. case_bool_decide; [|done]. intros [= <-]. constructor; try done.
  - intros w q raft node. cbn. case_bool_decide as Eq; [|done]. subst q. intros [= <- <-].
    split_and!; [done| |done]. exists world_replica. apply world_raft_ok.
  - intros b w w' r [= <- _]. apply evolves_refl.
  - intros env w w' r [= <- _]. apply evolves_refl.
Qed.

(** The routing query passes. The proposal of the first write stays in flight and the client learns
    nothing; its retry commits; then the delayed proposal commits as well, before the delete. *)
Definition the_fates : list Fate :=
  [FateArrives; FateArrives;
   FateArrives; FateLate; FateArrives;
   FateArrives; FateArrives; FateLate].
Definition the_world : World := mkWorld [] [] serving_store the_fates 0.
Definition put_op : DataOp := DataOp_Put [x6b] [x76] None.
Definition delete_op : DataOp := DataOp_Delete [x6b] (Some (IfVersion_Number 1)).
Definition the_calls : list (bytes * DataOp) := [([x6b], put_op); ([x6b], put_op); ([x6b], delete_op)].

Definition the_session : (Client * World) * list (poll (Result WriteReply)) :=
  session the_client 0 7 ["a"] 96 the_calls (Client_new, the_world).

Lemma the_session_results : the_session.2 =
  [Ready (Err (Error_Raft "write rejected")); Ready (Ok (WriteReply_Applied 1)); Ready (Ok (WriteReply_Applied 3))].
Proof. vm_compute. reflexivity. Qed.
Lemma the_session_log : (λ e, (req_sequence e.1, e.2)) <$> wo_log the_session.1.2 = [(1, 1); (1, 2); (2, 3)]%N.
Proof. vm_compute. reflexivity. Qed.

Lemma the_world_ok : world_ok the_world.
Proof. constructor; [apply serving_store_represents|apply Forall_nil_2|intros i req index Hx; cbn in Hx; by rewrite lookup_nil in Hx]. Qed.

Lemma cluster_exactly_once_witness : ∃ parts, length parts = 3 ∧ ∀ p,
  let D := replies (decided the_client (abs_init 0) (ws_log the_session.1.2 p)) in
  D = acked p parts the_calls the_session.2 ∨
  ∃ m wr, cl_pending the_session.1.1 !! p = Some m ∧ D = acked p parts the_calls the_session.2 ++ [(pm_op m, wr)].
Proof.
  refine (cluster_exactly_once the_gateways (Some "app:orders") the_client (λ _, abs_init 0) 1 HashSpec_CANONICAL 0 7 ["a"] 96
    the_calls the_world the_session.1.1 the_session.1.2 the_session.2 (world_network_ok the_client) (the_gateways_ok the_client)
    _ _ _ _ the_world_ok _ _).
  - intros p. reflexivity.
  - vm_compute. discriminate.
  - vm_compute. discriminate.
  - repeat constructor; vm_compute; discriminate.
  - intros p req [[_ Hx]|Hx]; [by apply elem_of_nil in Hx|]. cbn in Hx. destruct (bool_decide _); by apply elem_of_nil in Hx.
  - rewrite <-!surjective_pairing. reflexivity.
Defined.

(** A read after the first write. *)
Definition put_req : DataRequest := mkDataRequest 0 the_client 1 put_op.
Definition written_world : World := (commit_entry put_req the_world).1.
Lemma written_world_ok : world_ok written_world.
Proof. apply (commit_entry_ok put_req the_world _ _ the_world_ok (surjective_pairing _)). Qed.
Definition read_world : World * poll (Result ReadOutcome) := node_read the_node [x6b] Consistency_Linearizable written_world.
Lemma read_world_value : read_world.2 = Ready (Ok (ReadOutcome_Value (Some (1%N, [x76])))).
Proof. vm_compute. reflexivity. Qed.

Lemma node_read_consistent_witness : ∃ n, length (wo_log written_world) ≤ n ∧
  Some (1%N, [x76]) = value_of (spec_run (abs_init 0) (take n (ws_log read_world.1 0))).2 [x6b].
Proof.
  destruct (node_read_consistent (WriteService0:=world_service) (Replica0:=world_replica) (Raft0:=world_raft) the_client 0 (abs_init 0) (λ req, ¬ refusable 1 HashSpec_CANONICAL 0 req) the_node eq_refl [x6b] Consistency_Linearizable written_world
    read_world.1 (Some (1%N, [x76])) written_world_ok) as (_ & _ & n & Hn & Hv).
  - rewrite <-read_world_value. apply surjective_pairing.
  - exists n. split; [exact Hn|exact Hv].
Defined.

(** ** A node that never recovers *)

Definition recovering_call (addr : string) (env : Envelope) (w : N) : N * option Envelope :=
  ((w + 1)%N, Some (mkEnvelope 7 (ev_msg_type env) (ev_group_id env) (ev_request_id env)
    (match ev_msg_type env with MsgType_MetaQuery => encode the_routing | _ => encode ClientReply_Recovering end))).
Definition recovering_transport : Transport N := {| tr_call := recovering_call; tr_now w := w; tr_sleep n w := (w + n)%N |}.

Lemma recovering_clock : ClockOk N (H:=recovering_transport).
Proof. constructor; [intros addr env w w' r [= <- _]; cbn; lia|intros n w; cbn; lia]. Qed.

Lemma client_calls_return_witness : ∃ s r, ∀ fuel, 96 ≤ fuel →
  client_put (H:=recovering_transport) 7 the_client 0 ["a"] fuel [x6b] [x76] None (Client_new, 0%N) = (s, Ready r).
Proof.
  destruct (client_calls_return (H:=recovering_transport) (H0:=recovering_clock) 7 ["a"] the_client 0
    (Client_new, 0%N) [x6b] [x76] None Consistency_Linearizable) as [Hput _].
  exact Hput.
Defined.

(** ** A maintenance operation *)

Definition preparing : MaintenanceRecord := mkMaintenance 5 1 [1%N] [] [] [] [] None None MaintenanceStage_Preparing.
Definition preparing_events : list GateEvent :=
  [GateReconcile None; GateCompare; GateAcquire; GateCheck; GateReconcile (Some preparing); GateCompare; GateClose; GateQueue;
   GateFinish; GateInstall true].
Definition the_gate : MaintenanceAdmission MemDb := mkGate empty_storage None false RcIdle 0 0.

Lemma the_gate_run : (λ g, (ga_record g, ga_open g, ga_admitted g)) <$> gate_run preparing_events the_gate = Some (Some preparing, false, 0).
Proof. vm_compute. reflexivity. Qed.

Lemma maintenance_gate_safe_witness : ∃ g, gate_run preparing_events the_gate = Some g ∧ ga_open g = false ∧ ga_admitted g = 0.
Proof.
  destruct (gate_run preparing_events the_gate) as [g|] eqn:E.
  - exists g. split; [reflexivity|]. pose proof the_gate_run as Hg. rewrite E in Hg. cbn in Hg. injection Hg as Hr _ _.
    apply (maintenance_gate_safe empty_storage the_gate preparing_events g); [reflexivity| |exact E|by rewrite Hr].
    repeat constructor; vm_compute; discriminate.
  - pose proof the_gate_run as Hg. rewrite E in Hg. discriminate Hg.
Defined.
