(* ===== verification/ApplyRaftProofs.v ===== *)
(** * Correctness of the Raft apply path

    A write of [apply_raft] is all or nothing on the group's state, its applied
    record and its committed hint. Deciding a chunk against an overlay is
    deciding its entries one after the other. From these: whatever happens
    during an apply the store holds a clean prefix of the entries, the
    coalesced and the per-entry paths agree, and an error fences the store. *)

From S2P Require Import Prelude BTree Types Codec SearchDef Keyspace Outbox ApplyDurability Aio Rocks Storage DataSM SearchStore DataSpec DataProofs ApplyRaft.

Section raft_laws.
Context `{RocksOk D} `{!Codec U64, !Codec U128, !Codec string, !Codec RaftApplied, !Codec SearchConsumerState}.
Implicit Types (s : Storage D) (group : GroupId) (env : WriteEnv).

(** ** One write *)

(** Admission, refusal and failure touch only the registry; an accepted batch
    is written once. *)
Lemma write_state_batch_cases env group l n batch wal s s' r :
  write_state_batch env group l n batch wal s = (s', r) →
  (∃ reg, s' = set_apply reg s ∧ r ≠ Ready (Ok tt)) ∨ (∃ reg, s' = set_apply reg (write_db batch s)).
Proof.
  unfold write_state_batch. cbv zeta. rewrite aio_modify_bind. set (r0 := registry_run _ _).
  intros [(s1 & [] & Hh & E)|[[E ->]|(e & E & ->)]]%aio_bind_ready.
  2,3: unfold aio_io, require_healthy, io_bind, lift_apply, io_read in E; destruct (ensure_healthy _ _) as [reg [u|e']];
    simpl in E; (done || (injection E as <- _; left; eexists; split; [reflexivity|done])).
  assert (∃ reg, s1 = set_apply reg s) as [reg ->].
  { unfold aio_io, require_healthy, io_bind, lift_apply, io_read in Hh. destruct (ensure_healthy _ _) as [reg [u|e']];
      simpl in Hh; [injection Hh as <-|done]. by eexists. }
  clear Hh. apply aio_bind_ready in E as [(s1 & [] & Hb & E)|[[E ->]|(e & E & ->)]].
  2,3: destruct (registry_begin _ _ _ _ _ _) as [reg' p]; injection E as <- _; left; eexists; split; [reflexivity|done].
  destruct (registry_begin _ _ _ _ _ _) as [reg' p]. injection Hb as <- ->. revert E. clear.
  destruct (we_fate env) as [e|e|e|[]|durable]; cbn beta iota; intros E;
    try (injection E as <- <-; first [right; by eexists|left; eexists; split; [reflexivity|done]]).
  right. destruct (is_data group); [injection E as <- _; by eexists|].
  destruct durable as [[e|]|]; injection E as <- _; by eexists.
Qed.

Lemma search_ops_default s group l ms ops : search_ops s group l ms = Ok ops →
  Forall search_op ops.
Proof.
  unfold search_ops. destruct (is_data group); [|by intros [= <-]].
  intros (stored & _ & E)%rbind_ok. apply rbind_ok in E as (opss & Hm & [= <-]). apply Forall_app. split.
  { destruct stored; repeat constructor. eexists _, _. unfold search_epoch_key, search_prefix. done. }
  apply mapR_ok in Hm. apply Forall_concat. clear -Hm. induction Hm as [|m ops ms opss Hop _ IH]; constructor; [|done].
  unfold outbox_op in Hop. destruct (strip_prefix _ _) as [uk|]; [|by injection Hop as <-].
  apply rbind_ok in Hop as (k & Hk & [= <-]). repeat constructor. unfold encode_outbox_key in Hk.
  case_match; [|done]. match type of Hk with Ok ?x = Ok k => assert (k = x) as -> by congruence end.
  eexists _, _. unfold search_outbox_prefix, search_prefix. simpl batch_key. by rewrite <-!(assoc_L (++)).
Qed.

(** What a completed write leaves behind. *)
Record raft_written s s' group (ms : list StateMutation) (applied_record committed_record : bytes) : Prop := {
  rw_cache : cache_ok s';
  rw_cf h : state_cf s' h = state_cf s h;
  rw_open : is_ok (state_cf s group) = true;
  rw_state k : state_map s' group k =
    if decide (k = raft_applied_key) then Some applied_record else mutations_get k ms (state_map s group k);
  rw_other h k : h ≠ group → get_state s' h k = get_state s h k;
  rw_log : cf_exists (st_db s') (cf_log group) = true;
  rw_committed : get_cf (st_db s') (cf_log group) KEY_COMMITTED = Some committed_record;
}.

Lemma raft_batch_written s group ms l ar cr batch : cache_ok s → raft_batch s group ms l ar cr = Ok batch →
  raft_written s (write_db batch s) group ms ar cr.
Proof.
  intros Hc (cf & Hcf & E)%rbind_ok. apply rbind_ok in E as (lcf & Hl & E). apply rbind_ok in E as (ops & Hops & [= <-]).
  apply search_ops_default in Hops. unfold log_cf in Hl. destruct (cf_exists _ (cf_log group)) eqn:Hle; [|done].
  injection Hl as <-. destruct (state_cf_valid s group cf Hc Hcf) as [Hv Hex].
  set (b := (mutation_op cf <$> ms) ++ ops ++ _).
  assert (∀ op, op ∈ b → op_cf op = cf ∨ op_cf op = cf_log group ∨ search_op op) as Hb.
  { intros op. unfold b. rewrite !elem_of_app, list_elem_of_fmap. rewrite Forall_forall in Hops.
    intros [(m & -> & _)|[Hop|Hop]]; [left; by destruct m|right; right; by apply Hops|]. set_solver. }
  pose proof (valid_cf_name_default _ _ Hv) as Hnd.
  destruct (write_pointer_free s b) as (_ & Hcf' & Hc').
  { apply Forall_forall. intros op Hop. apply Hb in Hop as [Ho'|[Ho'|Ho']]; [| |by apply search_op_pointer_free].
    - intros g Ht%op_touches_cf. congruence.
    - intros g Ht%op_touches_cf. rewrite Ht in Ho'. by unfold cf_log in Ho'. }
  assert (∀ k o, batch_get cf k ops o = o) as Hops'.
  { intros k o. apply batch_get_other_cf. eapply Forall_impl; [exact Hops|]. intros op [Ho _] E. rewrite Ho in E. by subst cf. }
  pose proof (valid_cf_name_log _ group _ Hv) as Hnl.
  constructor; [by apply Hc'|done|by rewrite Hcf| | |by cbn [st_db write_db set_db]; rewrite exists_write|].
  - intros k. unfold state_map. rewrite Hcf', Hcf. cbn [st_db write_db set_db]. rewrite get_write by done.
    unfold b. rewrite !batch_get_app, batch_get_mutations, Hops'. simpl.
    rewrite (decide_False (P:=cf_log group = cf ∧ _)) by naive_solver.
    repeat case_decide; naive_solver.
  - intros h k Hne. unfold get_state. rewrite Hcf'. destruct (state_cf s h) as [n|] eqn:En; [|done]. simpl.
    destruct (state_cf_valid s h n Hc En) as [Hvn Hen]. cbn [st_db write_db set_db]. rewrite get_write by done. f_equal.
    apply batch_get_other_cf, Forall_forall. intros op Hop <-. apply Hb in Hop as [Ho|[Ho|[Ho _]]].
    + rewrite Ho in Hvn. apply Hne. by eapply valid_cf_name_inj.
    + rewrite Ho in Hvn. by eapply valid_cf_name_log.
    + rewrite Ho in Hvn. by eapply valid_cf_name_default.
  - cbn [st_db write_db set_db]. rewrite get_write by done. unfold b. rewrite !batch_get_app. simpl.
    rewrite decide_True by done. done.
Qed.

Lemma raft_written_apply s s1 group ms ar cr reg :
  raft_written s s1 group ms ar cr → raft_written s (set_apply reg s1) group ms ar cr.
Proof. intros []. by constructor. Qed.

Lemma raft_written_prune s s1 s2 group ms ar cr r :
  raft_written s s1 group ms ar cr → prune_search_outbox group s1 = (s2, r) → raft_written s s2 group ms ar cr.
Proof.
  intros [Hc Hcf Ho Hst Hot Hl Hcm] Hp.
  destruct (prune_search_outbox_state _ _ _ _ Hc Hp) as (Hc2 & Hcf2 & Hg2 & He2 & Hd2).
  constructor; [done|intros h; by rewrite Hcf2|done| | |by rewrite He2|by rewrite Hd2].
  - intros k. rewrite <-Hst. specialize (Hg2 group k). unfold get_state in Hg2. unfold state_map. rewrite Hcf2 in *.
    destruct (state_cf s1 group); [|done]. simpl in Hg2. congruence.
  - intros h k Hne. rewrite Hg2. by apply Hot.
Qed.

(** [apply_raft] is atomic: the registry alone moves, or everything is written. *)
Lemma apply_raft_cases env group ms l ar cr n s s' r : cache_ok s → apply_raft env group ms l ar cr n s = (s', r) →
  (∃ reg, s' = set_apply reg s ∧ r ≠ Ready (Ok tt)) ∨ raft_written s s' group ms ar cr.
Proof.
  intros Hc. unfold apply_raft. intros [(s1 & batch & Hb & E)|[[E ->]|(e & E & ->)]]%aio_bind_ready.
  2,3: unfold aio_io, io_read in E; destruct (raft_batch _ _ _ _ _ _); try done;
    injection E as <- _; left; exists (st_apply_durability s); (split; [by destruct s|done]).
  unfold aio_io, io_read in Hb. destruct (raft_batch _ _ _ _ _ _) as [b|] eqn:Hrb; [|done]. injection Hb as <- ->.
  pose proof (raft_batch_written _ _ _ _ _ _ _ Hc Hrb) as Hw.
  apply aio_bind_ready in E as [(s1 & [] & Hwr & E)|[[E ->]|(e & E & ->)]].
  2,3: apply write_state_batch_cases in E as [(reg & -> & _)|(reg & ->)];
    [left; by eexists|right; by apply raft_written_apply].
  apply write_state_batch_cases in Hwr as [(reg & _ & ?)|(reg & ->)]; [done|]. right.
  apply (raft_written_apply _ _ _ _ _ _ reg) in Hw. destruct (_ && _); [|by injection E as <- _].
  destruct (prune_search_outbox group _) as [s2 [k|e]] eqn:Hp; injection E as <- _;
    [|apply raft_written_apply]; by eapply raft_written_prune.
Qed.
End raft_laws.

(** ** Deciding entries one after the other *)

(** A byte map as a reader. *)
#[local] Instance map_state_read : StateRead (bytes → option bytes) :=
  λ T _ _ look _ key, decode_opt (look key).

(** Two readers that agree on everything the decision of an entry reads. *)
Definition agree {R1 R2} `{StateRead R1, StateRead R2} (r1 : R1) (r2 : R2) (group : GroupId) : Prop :=
  ∀ T (W : Wf T) (C : Codec T) key, key ≠ raft_applied_key → read_state T r1 group key = read_state T r2 group key.

Section raw.
Context `{Hashes} `{!Codec DataOp, !Codec KeyRecord, !Codec SeqRecord, !Codec U128}.
Implicit Types (look : bytes → option bytes) (group : GroupId).

Lemma evaluate_agree {R1 R2} `{StateRead R1, StateRead R2} (r1 : R1) (r2 : R2) group req index :
  agree r1 r2 group → evaluate group r1 req index = evaluate group r2 req index.
Proof.
  intros Ha. unfold evaluate, seq_record, decide_op, key_record.
  rewrite (Ha U128), (Ha SeqRecord), (Ha KeyRecord) by done. done.
Qed.

Lemma evaluate_client {R} `{StateRead R} (reader : R) group req index r ms :
  evaluate group reader req index = Ok (r, ms) → Forall client_mutation ms.
Proof.
  unfold evaluate. intros (epoch & _ & E)%rbind_ok. revert E.
  repeat (case_match; [by intros [= <- <-]|]). intros (seq & _ & E)%rbind_ok. revert E.
  repeat (case_match; try by intros [= <- <-]). all: intros (d & Hd & [= <- <-])%rbind_ok; apply Forall_app.
  all: split; [|constructor; [right; by eexists|constructor]]; destruct (d.2) as [m|] eqn:Em; constructor; [|constructor].
  all: left; unfold decide_op in Hd; apply rbind_ok in Hd as (cur & _ & Hd).
  all: destruct (req_op req); repeat case_match; injection Hd as <-; simpl in Em; try done; injection Em as <-; by eexists.
Qed.

Lemma decide_entry_agree {R1 R2} `{StateRead R1, StateRead R2} (r1 : R1) (r2 : R2) group e :
  agree r1 r2 group → decide_entry group r1 e = decide_entry group r2 e.
Proof. intros Ha. unfold decide_entry. destruct (en_payload e); [done| |done]. by apply evaluate_agree. Qed.

Lemma decide_entry_client {R} `{StateRead R} (reader : R) group e r ms :
  decide_entry group reader e = Ok (r, ms) → Forall client_mutation ms.
Proof. unfold decide_entry. destruct (en_payload e); [by intros [= <- <-]|apply evaluate_client|by intros [= <- <-]]. Qed.

(** The entries decided in order, each against the map its predecessors leave:
    the results and the mutations in order. *)
Fixpoint raw_run group look (entries : list Entry) : Result (list ApplyResult * list StateMutation) :=
  match entries with
  | [] => Ok ([], [])
  | e :: entries =>
      let! d := decide_entry group look e in
      let! r := raw_run group (λ k, mutations_get k d.2 (look k)) entries in
      Ok (d.1 :: r.1, d.2 ++ r.2)
  end.

Lemma agree_maps look look' group : (∀ k, k ≠ raft_applied_key → look k = look' k) → agree look look' group.
Proof. intros Hl T W C k Hk. unfold read_state, map_state_read. by rewrite Hl. Qed.

Lemma raw_run_ext group look look' entries :
  (∀ k, k ≠ raft_applied_key → look k = look' k) → raw_run group look entries = raw_run group look' entries.
Proof.
  revert look look'. induction entries as [|e entries IH]; intros look look' Hl; [done|]. cbn [raw_run].
  rewrite (decide_entry_agree look look') by (by apply agree_maps). destruct (decide_entry group look' e) as [d|]; [|done].
  cbn [rbind]. erewrite IH; [done|]. intros k Hk. simpl. by rewrite Hl.
Qed.

Lemma raw_run_app group look xs ys : raw_run group look (xs ++ ys) =
  let! r := raw_run group look xs in
  let! r' := raw_run group (λ k, mutations_get k r.2 (look k)) ys in Ok (r.1 ++ r'.1, r.2 ++ r'.2).
Proof.
  revert look. induction xs as [|e xs IH]; intros look.
  { cbn [app raw_run rbind fst snd]. by destruct (raw_run group _ ys) as [[]|]. }
  cbn [app raw_run]. destruct (decide_entry group look e) as [d|]; [|done]. cbn [rbind]. rewrite IH.
  destruct (raw_run group _ xs) as [[rs ms]|]; [|done]. cbn [rbind fst snd].
  erewrite (raw_run_ext _ _ (λ k, mutations_get k (d.2 ++ ms) (look k))).
  - destruct (raw_run group _ ys) as [[rs' ms']|]; [|done]. simpl. by rewrite <-(assoc_L (++)).
  - intros k _. simpl. by rewrite mutations_get_app.
Qed.

Lemma raw_run_client group look entries rs ms :
  raw_run group look entries = Ok (rs, ms) → Forall client_mutation ms ∧ length rs = length entries.
Proof.
  revert look rs ms. induction entries as [|e entries IH]; intros look rs ms; cbn [raw_run].
  { intros [= <- <-]. by split. }
  intros ([r m] & Hd & E)%rbind_ok. apply rbind_ok in E as ([rs' ms'] & Hr & [= <- <-]). cbn [fst snd].
  destruct (IH _ _ _ Hr) as [Hc Hl]. split; [|simpl; by rewrite Hl]. apply Forall_app. split; [by eapply decide_entry_client|done].
Qed.
End raw.

(** ** A run over the store *)

Section runs.
Context `{RocksOk D} `{!Codec U64, !Codec U128, !Codec string, !Codec LogId, !Codec RaftApplied, !Codec SearchConsumerState}.
Context `{HashesOk} `{!Codec DataOp, !Codec KeyRecord, !Codec SeqRecord}.
Context `{!Codec (option RaftLogId), !Codec Entry}.
Context (env : RaftLogId → WriteEnv) (group : GroupId).
Implicit Types (s : Storage D) (sm : RocksStateMachine D).

(** What an observer is told of decided entries. *)
Definition observations (entries : list Entry) (rs : list ApplyResult) : list ApplyObservation :=
  concat (zip_with (observation group) entries rs).

Lemma stage_app (o : StateOverlay D) ms ms' : stage (stage o ms) ms' = stage o (ms ++ ms').
Proof. unfold stage. simpl. by rewrite foldl_app. Qed.

(** Deciding a chunk against the overlay is deciding its entries in order. *)
Lemma decide_chunk_raw (o : StateOverlay D) mem res obs entries :
  is_ok (state_cf (ov_storage o) group) = true →
  decide_chunk group o mem res obs entries =
    let! r := raw_run group (overlay_map o group) entries in
    Ok (stage o r.2, foldl next_membership mem entries, res ++ r.1, obs ++ observations entries r.1).
Proof.
  revert o mem res obs. induction entries as [|e entries IH]; intros o mem res obs Ho.
  { simpl. unfold observations, stage. simpl. rewrite !app_nil_r. by destruct o. }
  cbn [decide_chunk raw_run]. rewrite (decide_entry_agree o (overlay_map o group) group).
  2: { intros T W C k _. by apply overlay_reads_as. }
  destruct (decide_entry group (overlay_map o group) e) as [d|]; [|done]. cbn [rbind].
  rewrite IH by done. erewrite (raw_run_ext _ (overlay_map (stage o d.2) group)).
  2: { intros k _. apply overlay_map_stage. }
  destruct (raw_run group _ entries) as [r|]; [|done]. cbn [rbind]. rewrite stage_app.
  unfold observations. cbn [foldl zip_with concat fst snd]. by rewrite <-!(assoc_L (++)).
Qed.

(** The membership recorded with a store's applied position. *)
Definition recorded_membership s (mem : StoredMembership) : Prop :=
  match state_map s group raft_applied_key with
  | None => mem = default_membership
  | Some b => ∃ applied, decode b = Ok (mkRaftApplied applied mem)
  end.

(** The store after a prefix of entries, from the store [s0]. *)
Record run_done s0 (mem0 : StoredMembership) (done : list Entry) (rs : list ApplyResult) s : Prop := {
  rd_cache : cache_ok s;
  rd_open : is_ok (state_cf s group) = true;
  rd_run : ∃ ms, raw_run group (state_map s0 group) done = Ok (rs, ms) ∧
    ∀ k, k ≠ raft_applied_key → state_map s group k = mutations_get k ms (state_map s0 group k);
  rd_applied : state_map s group raft_applied_key =
    match last done with
    | None => state_map s0 group raft_applied_key
    | Some e => Some (encode (mkRaftApplied (Some (en_log_id e)) (foldl next_membership mem0 done)))
    end;
  rd_committed e : last done = Some e →
    get_cf (st_db s) (cf_log group) KEY_COMMITTED = Some (encode (Some (en_log_id e)));
  rd_other h k : h ≠ group → get_state s h k = get_state s0 h k;
}.

Lemma run_done_init s mem : cache_ok s → is_ok (state_cf s group) = true → run_done s mem [] [] s.
Proof. intros Hc Ho. constructor; [done..|by exists []|done|done|done]. Qed.

Lemma run_done_apply s0 mem0 done rs s reg : run_done s0 mem0 done rs s → run_done s0 mem0 done rs (set_apply reg s).
Proof. intros []. by constructor. Qed.

(** A completed write of decided entries extends the prefix. *)
Lemma run_done_write s0 mem0 done rs s s' chunk e rs' ms ms' :
  run_done s0 mem0 done rs s → last chunk = Some e →
  raw_run group (state_map s group) chunk = Ok (rs', ms) →
  (∀ k, mutations_get k ms' (state_map s group k) = mutations_get k ms (state_map s group k)) →
  raft_written s s' group ms' (encode (mkRaftApplied (Some (en_log_id e)) (foldl next_membership mem0 (done ++ chunk))))
    (encode (Some (en_log_id e))) →
  run_done s0 mem0 (done ++ chunk) (rs ++ rs') s'.
Proof.
  intros [Hc Ho (ms0 & Hr0 & Hm0) Ha Hcm Hot] Hl Hr Hms [Hc' Hcf' _ Hst' Hot' Hle' Hcm'].
  assert (last (done ++ chunk) = Some e) as Hl' by (by rewrite last_app, Hl).
  constructor; [done|by rewrite Hcf'| | | |].
  - exists (ms0 ++ ms). split.
    + rewrite raw_run_app, Hr0. cbn [rbind fst snd]. erewrite raw_run_ext; [by rewrite Hr|].
      intros k Hk. simpl. by rewrite Hm0.
    + intros k Hk. rewrite Hst', decide_False, Hms, mutations_get_app, Hm0 by done. done.
  - rewrite Hl', Hst'. by rewrite decide_True.
  - rewrite Hl'. by intros e' [= <-].
  - intros h k Hne. rewrite Hot' by done. by apply Hot.
Qed.

Lemma next_membership_wf `{Wf R} mem (e : RaftEntry R) : wf mem → wf e → wf (next_membership mem e).
Proof.
  intros Hm [Hl Hp]. unfold next_membership. destruct (en_payload e) as [| |m]; [done..|].
  destruct Hp as [Hc Hn]. by split.
Qed.

Lemma memberships_wf `{Wf R} mem (entries : list (RaftEntry R)) : wf mem → Forall wf entries → wf (foldl next_membership mem entries).
Proof.
  intros Hm He. revert mem Hm. induction He as [|e entries Hw _ IH]; intros mem Hm; [done|].
  cbn [foldl]. by apply IH, next_membership_wf.
Qed.

(** The two kinds of step of [read_applied] touch only the registry. *)
Lemma or_poison_read A ctx (m : Storage D → Result A) s s' x : or_poison ctx (aio_io (io_read m)) s = (s', x) →
  (∃ reg, s' = set_apply reg s) ∧ x = Ready (m s).
Proof.
  unfold or_poison, aio_io, io_read. destruct (m s); intros [= <- <-]; split; [|done| |done].
  - exists (st_apply_durability s). by destruct s.
  - by eexists.
Qed.

Lemma or_poison_health ctx now s s' x : or_poison ctx (aio_io (require_healthy now)) s = (s', x) →
  (∃ reg, s' = set_apply reg s) ∧ x ≠ Pending.
Proof.
  unfold or_poison, aio_io, require_healthy, io_bind, lift_apply, io_read.
  destruct (ensure_healthy now _) as [reg [u|e]]; simpl; intros [= <- <-]; (split; [by eexists|done]).
Qed.

(** Reading the applied record finds the membership of the prefix. *)
Lemma read_applied_spec s0 mem0 done rs s now s' r :
  run_done s0 mem0 done rs s → recorded_membership s0 mem0 → wf mem0 → Forall wf done →
  read_applied group now s = (s', r) →
  (∃ reg, s' = set_apply reg s) ∧ r ≠ Pending ∧
  ∀ a, r = Ready (Ok a) → ra_membership a = foldl next_membership mem0 done.
Proof.
  intros Hrd Hrec Hm0 Hw. unfold read_applied.
  intros [(s1 & [] & Hh & E)|[[E ->]|(e & E & ->)]]%aio_bind_ready.
  2: by apply or_poison_health in E as [_ ?].
  2: { apply or_poison_health in E as [Hreg _]. done. }
  apply or_poison_health in Hh as [[reg ->] _].
  apply aio_bind_ready in E as [(s1 & b & Hb & E)|[[E ->]|(e & E & ->)]].
  2: by apply or_poison_read in E as [_ ?].
  2: { apply or_poison_read in E as [[reg' ->] _]. split; [by eexists|done]. }
  apply or_poison_read in Hb as [[reg' ->] Hb].
  assert (b = state_map s group raft_applied_key) as ->.
  { unfold raft_applied, get_state in Hb. unfold state_map. destruct Hrd as [_ Ho _ _ _ _].
    change (state_cf (set_apply reg s) group) with (state_cf s group) in Hb.
    destruct (state_cf s group); [|done]. simpl in Hb. congruence. }
  rewrite (rd_applied _ _ _ _ _ Hrd) in E. destruct (last done) as [e|] eqn:El.
  - apply or_poison_read in E as [[reg'' ->] ->]. split; [by eexists|]. split; [done|]. intros a [= Ea].
    rewrite decode_encode in Ea; [by injection Ea as <-|]. split; [|by apply memberships_wf].
    apply last_Some_elem_of in El. rewrite Forall_forall in Hw. by destruct (Hw e El).
  - apply last_None in El as ->. unfold recorded_membership in Hrec.
    destruct (state_map s0 group raft_applied_key) as [b|].
    + apply or_poison_read in E as [[reg'' ->] ->]. split; [by eexists|]. split; [done|]. intros a [= Ea].
      destruct Hrec as [ap Hrec]. rewrite Hrec in Ea. by injection Ea as <-.
    + injection E as <- <-. split; [by eexists|]. split; [done|]. intros a [= <-]. by subst mem0.
Qed.

Lemma on_storage_inv {A} (m : aio (Storage D) A) sm sm' r : on_storage m sm = (sm', r) →
  m (rsm_storage sm) = (rsm_storage sm', r) ∧ rsm_observed sm' = rsm_observed sm.
Proof. unfold on_storage. destruct (m (rsm_storage sm)) as [s x]. by intros [= <- <-]. Qed.

Lemma or_poison_inv {A} ctx (m : aio (Storage D) A) s s' r : or_poison ctx m s = (s', r) →
  ∃ s1, m s = (s1, r) ∧ ∃ reg, s' = set_apply reg s1.
Proof.
  unfold or_poison. destruct (m s) as [s1 [[a|e]|]]; intros [= <- <-]; eexists; (split; [done|]);
    [exists (st_apply_durability s1); by destruct s1|by eexists|exists (st_apply_durability s1); by destruct s1].
Qed.

(** The write of decided entries leaves the prefix as it is, or extends it. *)
Lemma apply_write_done s0 mem0 done rs s chunk e rs' ms ms' n s' r :
  run_done s0 mem0 done rs s → last chunk = Some e →
  raw_run group (state_map s group) chunk = Ok (rs', ms) →
  (∀ k, mutations_get k ms' (state_map s group k) = mutations_get k ms (state_map s group k)) →
  apply_write env group ms' (en_log_id e) (foldl next_membership mem0 (done ++ chunk)) n s = (s', r) →
  (run_done s0 mem0 done rs s' ∧ r ≠ Ready (Ok tt)) ∨ run_done s0 mem0 (done ++ chunk) (rs ++ rs') s'.
Proof.
  intros Hrd Hl Hr Hms (s1 & Hap & reg & ->)%or_poison_inv.
  apply apply_raft_cases in Hap as [(reg' & -> & Hne)|Hw]; [| |by apply Hrd].
  - left. split; [|done]. by apply run_done_apply, run_done_apply.
  - right. by eapply run_done_apply, run_done_write.
Qed.

(** One chunk: nothing of it is applied and the call does not succeed, or all of it is. *)
Lemma chunk_done s0 mem0 done rs chunk sm sm' r :
  run_done s0 mem0 done rs (rsm_storage sm) → recorded_membership s0 mem0 → wf mem0 → Forall wf done → chunk ≠ [] →
  apply_coalesced_chunk env group chunk sm = (sm', r) →
  (run_done s0 mem0 done rs (rsm_storage sm') ∧ ∀ x, r ≠ Ready (Ok x)) ∨
  ∃ rs', run_done s0 mem0 (done ++ chunk) (rs ++ rs') (rsm_storage sm') ∧
    ∀ x, r = Ready (Ok x) → x = rs' ∧ rsm_observed sm' = (λ l, l ++ observations chunk rs') <$> rsm_observed sm.
Proof.
  intros Hrd Hrec Hm0 Hw Hne. unfold apply_coalesced_chunk.
  assert (∃ e, last chunk = Some e) as [e Hl].
  { destruct (last chunk) as [e|] eqn:E; [by eexists|by apply last_None in E]. }
  intros [(sm1 & ap & Hra & E)|[[E ->]|(er & E & ->)]]%aio_bind_ready.
  2,3: left; apply on_storage_inv in E as [E _]; eapply read_applied_spec in E as ([reg E] & _ & _); try done;
    rewrite E; (split; [by apply run_done_apply|done]).
  apply on_storage_inv in Hra as [Hra Ho1]. eapply read_applied_spec in Hra as ([reg E1] & _ & Hap); try done.
  specialize (Hap _ eq_refl). assert (run_done s0 mem0 done rs (rsm_storage sm1)) as Hrd1 by (rewrite E1; by apply run_done_apply).
  clear E1 reg. apply aio_bind_ready in E as [(sm2 & [[[o mem] rs'] obs] & Hdec & E)|[[E ->]|(er & E & ->)]].
  2,3: left; apply on_storage_inv in E as [(s1 & E & reg & ->)%or_poison_inv _];
    unfold aio_io, io_read in E; injection E as <- _; (split; [by apply run_done_apply|done]).
  apply on_storage_inv in Hdec as [(s1 & Hdec & reg & E2)%or_poison_inv Ho2]. unfold aio_io, io_read in Hdec.
  injection Hdec as <- Hdec. rewrite decide_chunk_raw in Hdec by apply Hrd1.
  apply rbind_ok in Hdec as ([rs'' ms] & Hraw & [= <- <- <- <-]). cbn [fst snd] in *.
  assert (run_done s0 mem0 done rs (rsm_storage sm2)) as Hrd2 by (rewrite E2; by apply run_done_apply).
  rewrite Hl in E.
  assert (∀ k, mutations_get k (into_mutations (stage (overlay_new (rsm_storage sm1)) ms)) (state_map (rsm_storage sm2) group k) =
    mutations_get k ms (state_map (rsm_storage sm2) group k)) as Hms.
  { intros k. rewrite E2. change (state_map (set_apply reg (rsm_storage sm1)) group k) with
      (state_map (ov_storage (stage (overlay_new (rsm_storage sm1)) ms)) group k).
    rewrite into_mutations_get by done. rewrite overlay_map_stage. unfold overlay_map, overlay_new. simpl.
    by rewrite lookup_empty. }
  assert (raw_run group (state_map (rsm_storage sm2) group) chunk = Ok (rs'', ms)) as Hraw2.
  { rewrite <-Hraw. apply raw_run_ext. intros k _. rewrite E2. unfold overlay_map, overlay_new. simpl. by rewrite lookup_empty. }
  rewrite Hap, <-foldl_app in E.
  apply aio_bind_ready in E as [(sm3 & [] & Hwr & E)|[[E ->]|(er & E & ->)]].
  - apply on_storage_inv in Hwr as [Hwr Ho3].
    eapply apply_write_done in Hwr as [[_ ?]|Hrd3]; [done| |done..]. right. exists rs''.
    injection E as <- <-. split; [done|]. intros x [= <-]. split; [done|]. cbn [rsm_observed]. by rewrite Ho3, Ho2, Ho1.
  - apply on_storage_inv in E as [E _]. eapply apply_write_done in E as [[Hrd3 _]|Hrd3]; [by left| |done..].
    right. by exists rs''.
  - apply on_storage_inv in E as [E _]. eapply apply_write_done in E as [[Hrd3 _]|Hrd3]; [by left| |done..].
    right. by exists rs''.
Qed.

Lemma run_done_length s0 mem0 done rs s : run_done s0 mem0 done rs s → length rs = length done.
Proof. intros [_ _ (ms & Hr & _) _ _ _]. by apply raw_run_client in Hr as [_ ?]. Qed.

Lemma observations_app xs ys rs rs' : length rs = length xs →
  observations (xs ++ ys) (rs ++ rs') = observations xs rs ++ observations ys rs'.
Proof. intros Hl. unfold observations. by rewrite zip_with_app, concat_app. Qed.

Lemma observed_app (o : option (list ApplyObservation)) a b :
  (λ l, l ++ b) <$> ((λ l, l ++ a) <$> o) = (λ l, l ++ a ++ b) <$> o.
Proof. destruct o; simpl; [|done]. by rewrite <-(assoc_L (++)). Qed.

(** What an apply call of any outcome has achieved. *)
Definition achieved s0 mem0 sm (done : list Entry) (rs all : list ApplyResult) (entries : list Entry)
    sm' (r : poll (Result (list ApplyResult))) : Prop :=
  ∃ done' rest rs', entries = done' ++ rest ∧
    run_done s0 mem0 (done ++ done') (rs ++ rs') (rsm_storage sm') ∧
    ∀ x, r = Ready (Ok x) → rest = [] ∧ x = all ++ rs' ∧
      rsm_observed sm' = (λ l, l ++ observations done' rs') <$> rsm_observed sm.

Lemma achieved_nothing s0 mem0 sm done rs all entries sm' r :
  run_done s0 mem0 done rs (rsm_storage sm') → (∀ x, r ≠ Ready (Ok x)) →
  achieved s0 mem0 sm done rs all entries sm' r.
Proof. intros Hrd Hr. exists [], entries, []. rewrite !app_nil_r. split_and!; [done..|]. naive_solver. Qed.

Lemma achieved_more s0 mem0 sm done rs all chunk rs' sm1 entries sm' r :
  length rs' = length chunk → rsm_observed sm1 = (λ l, l ++ observations chunk rs') <$> rsm_observed sm →
  achieved s0 mem0 sm1 (done ++ chunk) (rs ++ rs') (all ++ rs') entries sm' r →
  achieved s0 mem0 sm done rs all (chunk ++ entries) sm' r.
Proof.
  intros Hl Ho (done' & rest & rs'' & -> & Hrd & Hx). exists (chunk ++ done'), rest, (rs' ++ rs'').
  rewrite !(assoc_L (++)). split_and!; [done..|]. intros x Hr. apply Hx in Hr as (-> & -> & ->). split_and!; [done..|].
  by rewrite Ho, observed_app, observations_app.
Qed.

Lemma run_done_extra s0 mem0 done chunk rs rs' s s' :
  run_done s0 mem0 done rs s → run_done s0 mem0 (done ++ chunk) (rs ++ rs') s' → length rs' = length chunk.
Proof. intros Ha%run_done_length Hb%run_done_length. rewrite !length_app in Hb. lia. Qed.

Lemma coalesced_done s0 mem0 : recorded_membership s0 mem0 → wf mem0 →
  ∀ entries chunk bytes all done rs sm sm' r,
  run_done s0 mem0 done rs (rsm_storage sm) → Forall wf done → Forall wf chunk → Forall wf entries →
  coalesced_loop env group chunk bytes all entries sm = (sm', r) →
  achieved s0 mem0 sm done rs all (chunk ++ entries) sm' r.
Proof.
  intros Hrec Hm0. induction entries as [|e entries IH]; intros chunk bytes all done rs sm sm' r Hrd Hd Hc He; cbn [coalesced_loop].
  - rewrite app_nil_r. destruct (bool_decide_reflect (chunk = [])) as [->|Hne].
    { intros [= <- <-]. exists [], [], []. rewrite !app_nil_r. split_and!; [done..|]. intros x [= <-].
      split_and!; [done..|]. unfold observations. simpl. destruct (rsm_observed sm); simpl; [by rewrite app_nil_r|done]. }
    intros [(sm1 & rs' & Hch & E)|[[E ->]|(er & E & ->)]]%aio_bind_ready.
    + eapply chunk_done in Hch as [[_ Hx]|(rs1 & Hrd1 & Hx)]; try done; [by destruct (Hx rs')|].
      destruct (Hx _ eq_refl) as [-> Ho]. injection E as <- <-.
      exists chunk, [], rs1. rewrite app_nil_r. split_and!; [done..|]. by intros x [= <-].
    + eapply chunk_done in E as [[Hrd1 Hx]|(rs1 & Hrd1 & Hx)]; try done; [by apply achieved_nothing|].
      exists chunk, [], rs1. rewrite app_nil_r. done.
    + eapply chunk_done in E as [[Hrd1 Hx]|(rs1 & Hrd1 & Hx)]; try done; [by apply achieved_nothing|].
      exists chunk, [], rs1. rewrite app_nil_r. done.
  - apply Forall_cons in He as [Hwe He]. set (we := _ && _). destruct we eqn:Hwx.
    + assert (chunk ≠ []) as Hne by (intros ->; by unfold we in Hwx).
      intros [(sm1 & rs' & Hch & E)|[[E ->]|(er & E & ->)]]%aio_bind_ready.
      * eapply chunk_done in Hch as [[_ Hx]|(rs1 & Hrd1 & Hx)]; try done; [by destruct (Hx rs')|].
        destruct (Hx _ eq_refl) as [-> Ho]. eapply achieved_more; [by eapply run_done_extra, Hrd1|exact Ho|].
        eapply (IH [e]); [exact Hrd1|by apply Forall_app|by apply Forall_singleton|done|exact E].
      * eapply chunk_done in E as [[Hrd1 Hx]|(rs1 & Hrd1 & Hx)]; try done; [by apply achieved_nothing|].
        exists chunk, (e :: entries), rs1. done.
      * eapply chunk_done in E as [[Hrd1 Hx]|(rs1 & Hrd1 & Hx)]; try done; [by apply achieved_nothing|].
        exists chunk, (e :: entries), rs1. done.
    + intros E. replace (chunk ++ e :: entries) with ((chunk ++ [e]) ++ entries) by (by rewrite <-(assoc_L (++))).
      eapply IH; [exact Hrd|done| |done|exact E]. apply Forall_app. split; [done|by apply Forall_singleton].
Qed.

Lemma per_entry_done s0 mem0 : recorded_membership s0 mem0 →
  ∀ entries all done rs sm sm' r,
  run_done s0 mem0 done rs (rsm_storage sm) →
  per_entry_loop env group (foldl next_membership mem0 done) all entries sm = (sm', r) →
  achieved s0 mem0 sm done rs all entries sm' r.
Proof.
  intros Hrec. induction entries as [|e entries IH]; intros all done rs sm sm' r Hrd; cbn [per_entry_loop].
  { intros [= <- <-]. exists [], [], []. rewrite !app_nil_r. split_and!; [done..|]. intros x [= <-].
    split_and!; [done..|]. unfold observations. simpl. destruct (rsm_observed sm); simpl; [by rewrite app_nil_r|done]. }
  intros [(sm1 & [r1 ms] & Hdec & E)|[[E ->]|(er & E & ->)]]%aio_bind_ready.
  2,3: apply on_storage_inv in E as [(s1 & E & reg & E1)%or_poison_inv _]; unfold aio_io, io_read in E;
    injection E as <- _; apply achieved_nothing; [rewrite E1; by apply run_done_apply|done].
  apply on_storage_inv in Hdec as [(s1 & Hdec & reg & E1)%or_poison_inv Ho1]. unfold aio_io, io_read in Hdec.
  injection Hdec as <- Hdec. assert (run_done s0 mem0 done rs (rsm_storage sm1)) as Hrd1 by (rewrite E1; by apply run_done_apply).
  assert (raw_run group (state_map (rsm_storage sm1) group) [e] = Ok ([r1], ms)) as Hraw.
  { cbn [raw_run]. rewrite (decide_entry_agree _ (rsm_storage sm) group).
    - rewrite Hdec. simpl. by rewrite app_nil_r.
    - intros T W C k _. rewrite (storage_reads_as (rsm_storage sm)) by apply Hrd. rewrite E1. done. }
  cbn [fst snd] in E. replace (next_membership (foldl next_membership mem0 done) e)
    with (foldl next_membership mem0 (done ++ [e])) in E by (by rewrite foldl_app).
  assert (∀ (sm2 : RocksStateMachine D) p, on_storage (apply_write env group ms (en_log_id e) (foldl next_membership mem0 (done ++ [e])) 1) sm1 = (sm2, p) →
    (run_done s0 mem0 done rs (rsm_storage sm2) ∧ p ≠ Ready (Ok tt) ∨ run_done s0 mem0 (done ++ [e]) (rs ++ [r1]) (rsm_storage sm2)) ∧
    rsm_observed sm2 = rsm_observed sm) as Hstep.
  { intros sm2 p [Hwr Ho]%on_storage_inv. split; [|by rewrite Ho, Ho1]. by eapply apply_write_done. }
  apply aio_bind_ready in E as [(sm2 & [] & Hwr & E)|[[E ->]|(er & E & ->)]].
  - apply Hstep in Hwr as [[[_ ?]|Hrd2] Ho2]; [done|]. change (e :: entries) with ([e] ++ entries).
    eapply (achieved_more _ _ _ _ _ _ [e] [r1]); [done| |eapply (IH (all ++ [r1]) (done ++ [e])); [|exact E]].
    + cbn [rsm_observed]. rewrite Ho2. unfold observations. simpl. by rewrite app_nil_r.
    + exact Hrd2.
  - apply Hstep in E as [[[Hrd2 _]|Hrd2] _]; [by apply achieved_nothing|]. exists [e], entries, [r1]. done.
  - apply Hstep in E as [[[Hrd2 _]|Hrd2] _]; [by apply achieved_nothing|]. exists [e], entries, [r1]. done.
Qed.

(** ** Against the specification *)

(** The abstract machine over Raft entries: only normal entries are decided. *)
Fixpoint spec_entries (a : AbsState) (entries : list Entry) : list ApplyResult * AbsState :=
  match entries with
  | [] => ([], a)
  | e :: entries =>
      let '(r, a) := match en_payload e with
                     | EntryPayload_Normal req => spec_step a req (rl_index (en_log_id e))
                     | _ => (ApplyResult_NoOp, a)
                     end in
      let '(rs, a) := spec_entries a entries in (r :: rs, a)
  end.

Lemma raw_run_spec look a entries : abs_rep look a → Forall wf entries →
  ∃ ms, raw_run group look entries = Ok ((spec_entries a entries).1, ms) ∧
    abs_rep (λ k, mutations_get k ms (look k)) (spec_entries a entries).2.
Proof.
  intros Hrep He. revert look a Hrep. induction He as [|e entries [Hl Hp] _ IH]; intros look a Hrep; cbn [raw_run spec_entries].
  { exists []. split; [done|]. eapply abs_rep_ext; [|exact Hrep]. done. }
  set (st := match en_payload e with EntryPayload_Normal _ => _ | _ => _ end).
  assert (∃ ms, decide_entry group look e = Ok (st.1, ms) ∧ abs_rep (λ k, mutations_get k ms (look k)) st.2) as (ms & -> & Hrep1).
  { unfold st, decide_entry. destruct (en_payload e) as [|req|m]; [by exists []| |by exists []].
    destruct (evaluate_spec look group look a req (rl_index (en_log_id e))) as (ms & Hev & Hr & _); [done..|apply Hl|].
    exists ms. done. }
  destruct (IH _ _ Hrep1) as (ms' & Hr & Hrep2). cbn [rbind fst snd]. rewrite Hr. cbn [rbind fst snd].
  destruct st as [r a1]. cbn [fst snd] in *. destruct (spec_entries a1 entries) as [rs a2]. exists (ms ++ ms').
  split; [done|]. eapply abs_rep_ext; [|exact Hrep2]. intros k _ _. apply mutations_get_app.
Qed.

(** The apply call of either path, from any outcome. *)
Lemma sm_apply_achieved coalesce now entries s obs mem sm' r :
  cache_ok s → is_ok (state_cf s group) = true → recorded_membership s mem → wf mem → Forall wf entries →
  sm_apply env group coalesce now entries (mkStateMachine s obs) = (sm', r) →
  achieved s mem (mkStateMachine s obs) [] [] [] entries sm' r.
Proof.
  intros Hc Ho Hrec Hm He. pose proof (run_done_init s mem Hc Ho) as Hrd. destruct coalesce; cbn [sm_apply].
  - intros E. by eapply (coalesced_done s mem Hrec Hm entries []).
  - intros [(sm1 & ap & Hra & E)|[[E ->]|(er & E & ->)]]%aio_bind_ready.
    2,3: apply on_storage_inv in E as [E _]; eapply read_applied_spec in E as ([reg E1] & _ & _); try done;
      apply achieved_nothing; [rewrite E1; by apply run_done_apply|done].
    apply on_storage_inv in Hra as [Hra Ho1]. eapply read_applied_spec in Hra as ([reg E1] & _ & Hap); try done.
    specialize (Hap _ eq_refl). cbn [foldl] in Hap. rewrite Hap in E. simpl in Ho1, E1.
    assert (run_done s mem [] [] (rsm_storage sm1)) as Hrd1 by (rewrite E1; by apply run_done_apply).
    destruct (per_entry_done s mem Hrec entries [] [] [] sm1 sm' r Hrd1 E) as (done & rest & rs' & -> & Hd & Hx).
    exists done, rest, rs'. split_and!; [done..|]. intros x Hr. destruct (Hx x Hr) as (-> & -> & ->).
    simpl. by rewrite Ho1.
Qed.

Lemma run_done_represents s a mem done rs s' : represents s group a → Forall wf done → run_done s mem done rs s' →
  rs = (spec_entries a done).1 ∧ represents s' group (spec_entries a done).2.
Proof.
  intros [Hc Ho Hrep] Hw [Hc' Ho' (ms & Hr & Hst) _ _ _]. destruct (raw_run_spec _ _ _ Hrep Hw) as (ms' & Hr' & Hrep').
  rewrite Hr in Hr'. injection Hr' as -> ->. split; [done|]. constructor; [done..|].
  eapply abs_rep_ext; [|exact Hrep']. intros k _ Hk. by apply Hst.
Qed.

Lemma run_done_position s mem done rs s' : run_done s mem done rs s' → is_ok (state_cf s group) = true → wf mem → Forall wf done →
  recovered_raft_applied s' group =
    match last done with Some e => Ok (Some (en_log_id e)) | None => recovered_raft_applied s group end.
Proof.
  intros [_ Ho' _ Ha _ _] Ho Hm Hw. unfold recovered_raft_applied, raft_applied, get_state. unfold state_map in Ha.
  destruct (state_cf s' group) as [cf'|]; [|done]. destruct (state_cf s group) as [cf|]; [|done]. cbn [rbind]. rewrite Ha.
  destruct (last done) as [e|] eqn:El; [|done]. rewrite decode_encode; [done|]. split; [|by apply memberships_wf].
  apply last_Some_elem_of in El. rewrite Forall_forall in Hw. by destruct (Hw e El).
Qed.

(** C3: a clean prefix, whatever happens. Applying a sequence of committed
    entries to a store that represents an abstract state - coalesced or per
    entry, whether the writes succeed, fail, stop half way or park - leaves a
    store that represents the abstract state after some prefix of the entries,
    with the applied record naming exactly the last entry of that prefix and no
    other group touched; and when the call returns its results, the prefix is
    everything and the results are the specified ones. *)
Theorem apply_clean_prefix coalesce now entries s obs a mem sm' r :
  represents s group a → recorded_membership s mem → wf mem → Forall wf entries →
  sm_apply env group coalesce now entries (mkStateMachine s obs) = (sm', r) →
  ∃ done rest, entries = done ++ rest ∧ represents (rsm_storage sm') group (spec_entries a done).2 ∧
    recovered_raft_applied (rsm_storage sm') group =
      match last done with Some e => Ok (Some (en_log_id e)) | None => recovered_raft_applied s group end ∧
    (∀ h k, h ≠ group → get_state (rsm_storage sm') h k = get_state s h k) ∧
    ∀ rs, r = Ready (Ok rs) → rest = [] ∧ rs = (spec_entries a entries).1.
Proof.
  intros Hrep Hrec Hm He E. pose proof Hrep as [Hc Ho _].
  apply sm_apply_achieved with (mem := mem) in E as (pre & rest & rs & -> & Hrd & Hx); [|done..].
  simpl in Hrd. apply Forall_app in He as [Hd _]. destruct (run_done_represents _ _ _ _ _ _ Hrep Hd Hrd) as [-> Hrep'].
  exists pre, rest. split; [done|]. split; [done|]. split; [by eapply run_done_position|]. split; [apply Hrd|].
  intros rs Hr. destruct (Hx rs Hr) as (-> & -> & _). by rewrite app_nil_r.
Qed.

(** ** Errors fence the store *)

Lemma fail_all_failed e r : rg_failed (fail_all e r) ≠ None.
Proof. unfold fail_all. destruct r as [g f h c n lim]. simpl. case_bool_decide; simpl; [by destruct h|done]. Qed.

Definition fenced s : Prop := rg_failed (st_apply_durability s) ≠ None.
Definition fencing {A} (m : aio (RocksStateMachine D) A) : Prop :=
  ∀ sm sm' e, m sm = (sm', Ready (Err e)) → fenced (rsm_storage sm').

Lemma fencing_ret {A} (a : A) : fencing (aio_ret a).
Proof. by intros sm sm' e. Qed.
Lemma fencing_bind {A B} (m : aio (RocksStateMachine D) A) (k : A → aio (RocksStateMachine D) B) :
  fencing m → (∀ a, fencing (k a)) → fencing (aio_bind m k).
Proof. intros Hm Hk sm sm' e [(? & a & _ & E)|[[_ ?]|(? & E & _)]]%aio_bind_ready; [by eapply Hk|done|by eapply Hm]. Qed.
Lemma fencing_observe os : fencing (observe_applies os).
Proof. by intros sm sm' e. Qed.

(** Every store operation of the apply path is wrapped by a poisoning handler. *)
Definition poisoned {A} (m : aio (Storage D) A) : Prop := ∀ s s' e, m s = (s', Ready (Err e)) → fenced s'.
Lemma poisoned_or_poison {A} ctx (m : aio (Storage D) A) : poisoned (or_poison ctx m).
Proof.
  intros s s' e. unfold or_poison. destruct (m s) as [s1 [[a|e']|]]; intros [= <- <-].
  apply fail_all_failed.
Qed.
Lemma poisoned_bind {A B} (m : aio (Storage D) A) (k : A → aio (Storage D) B) :
  poisoned m → (∀ a, poisoned (k a)) → poisoned (aio_bind m k).
Proof. intros Hm Hk s s' e [(? & a & _ & E)|[[_ ?]|(? & E & _)]]%aio_bind_ready; [by eapply Hk|done|by eapply Hm]. Qed.
Lemma poisoned_read_applied now : poisoned (read_applied group now).
Proof.
  apply poisoned_bind; [apply poisoned_or_poison|]. intros _. apply poisoned_bind; [apply poisoned_or_poison|].
  intros [b|]; [apply poisoned_or_poison|]. by intros s s' e.
Qed.
Lemma fencing_on_storage {A} (m : aio (Storage D) A) : poisoned m → fencing (on_storage m).
Proof. intros Hm sm sm' e [E _]%on_storage_inv. by eapply Hm. Qed.

#[local] Hint Resolve fencing_ret fencing_observe fencing_on_storage poisoned_or_poison poisoned_read_applied : fence.
#[local] Hint Extern 1 (fencing (aio_bind _ _)) => apply fencing_bind; [|intros] : fence.
#[local] Hint Extern 1 (poisoned (apply_write _ _ _ _ _ _)) => apply poisoned_or_poison : fence.

Lemma fencing_chunk chunk : fencing (apply_coalesced_chunk env group chunk).
Proof.
  unfold apply_coalesced_chunk. apply fencing_bind; [auto with fence|]. intros ap.
  apply fencing_bind; [auto with fence|]. intros [[[o mem] rs] obs]. destruct (last chunk); auto 10 with fence.
Qed.

Lemma fencing_coalesced entries chunk bytes all : fencing (coalesced_loop env group chunk bytes all entries).
Proof.
  revert chunk bytes all. induction entries as [|e entries IH]; intros chunk bytes all; cbn [coalesced_loop].
  - case_match; auto using fencing_chunk with fence.
  - case_match; [apply fencing_bind; [apply fencing_chunk|]|]; auto.
Qed.

Lemma fencing_per_entry entries mem all : fencing (per_entry_loop env group mem all entries).
Proof.
  revert mem all. induction entries as [|e entries IH]; intros mem all; cbn [per_entry_loop]; auto 10 with fence.
Qed.

Lemma fenced_health now s : fenced s → ∃ s' e, require_healthy now s = (s', Err e).
Proof.
  intros Hf. unfold require_healthy, io_bind, lift_apply, io_read, ensure_healthy. rewrite expire_dirty_failed by done.
  destruct (rg_failed (st_apply_durability s)) eqn:E; [|done]. simpl. by eexists _, _.
Qed.

Lemma fenced_read_applied now s : fenced s → ∃ s' e, read_applied group now s = (s', Ready (Err e)).
Proof.
  intros (s' & e & Hh)%(fenced_health now). unfold read_applied, aio_bind at 1, or_poison at 1, aio_io at 1.
  rewrite Hh. by eexists _, _.
Qed.

Lemma fenced_chunk chunk sm : fenced (rsm_storage sm) → ∃ sm' e, apply_coalesced_chunk env group chunk sm = (sm', Ready (Err e)).
Proof.
  intros (s' & e & Hr)%(fenced_read_applied (chunk_now env chunk)). unfold apply_coalesced_chunk, aio_bind at 1, on_storage at 1.
  rewrite Hr. by eexists _, _.
Qed.

Lemma fenced_coalesced entries chunk bytes all sm : fenced (rsm_storage sm) → chunk ++ entries ≠ [] →
  ∃ sm' e, coalesced_loop env group chunk bytes all entries sm = (sm', Ready (Err e)).
Proof.
  revert chunk bytes all. induction entries as [|e entries IH]; intros chunk bytes all Hf Hne; cbn [coalesced_loop].
  - rewrite app_nil_r in Hne. rewrite bool_decide_false by done.
    destruct (fenced_chunk chunk sm Hf) as (sm' & e & E). unfold aio_bind. rewrite E. by eexists _, _.
  - case_match; [|apply IH; [done|by destruct chunk]].
    destruct (fenced_chunk chunk sm Hf) as (sm' & e' & E). unfold aio_bind. rewrite E. by eexists _, _.
Qed.

Lemma fenced_apply coalesce now entries sm : fenced (rsm_storage sm) → entries ≠ [] →
  ∃ e, (sm_apply env group coalesce now entries sm).2 = Ready (Err e).
Proof.
  intros Hf Hne. destruct coalesce; cbn [sm_apply].
  - destruct (fenced_coalesced entries [] 0 [] sm Hf Hne) as (sm' & e & E). unfold apply_coalesced. rewrite E. by eexists.
  - destruct (fenced_read_applied now _ Hf) as (s' & e & E). unfold apply_per_entry, aio_bind, on_storage. rewrite E. by eexists.
Qed.

Lemma fencing_apply coalesce now entries : fencing (sm_apply env group coalesce now entries).
Proof.
  destruct coalesce; [apply fencing_coalesced|]. apply fencing_bind; [auto with fence|]. intros ap. apply fencing_per_entry.
Qed.
End runs.

(** ** Claims over two runs *)

Section claims.
Context `{RocksOk D} `{!Codec U64, !Codec U128, !Codec string, !Codec LogId, !Codec RaftApplied, !Codec SearchConsumerState}.
Context `{HashesOk} `{!Codec DataOp, !Codec KeyRecord, !Codec SeqRecord}.
Context `{!Codec (option RaftLogId), !Codec Entry}.
Implicit Types (s : Storage D) (sm : RocksStateMachine D).

(** C8: an apply error is fatal. Once applying entries has returned an error -
    a failed read, an undecodable record, a refused or failed write - every
    later apply on the same store, of any group, path and entries, returns an
    error too: the node never goes on from a state that does not match its
    log. *)
Theorem apply_error_fences env group coalesce now entries sm sm' e :
  sm_apply env group coalesce now entries sm = (sm', Ready (Err e)) →
  ∀ env' group' coalesce' now' entries', entries' ≠ [] →
  ∃ e', (sm_apply env' group' coalesce' now' entries' sm').2 = Ready (Err e').
Proof. intros E%fencing_apply env' group' coalesce' now' entries' Hne. by apply fenced_apply. Qed.

(** C9: coalescing is invisible. For the same store and entries, when the
    coalesced path and the per-entry path both succeed - with any chunking and
    under any two environments - they return the same results, tell an observer
    the same applies, leave the same bytes under every state key including the
    applied record, and the same committed hint. *)
Theorem coalesced_equivalent env1 env2 group now entries s obs mem sm1 sm2 rs1 rs2 :
  cache_ok s → is_ok (state_cf s group) = true → recorded_membership group s mem → wf mem → Forall wf entries →
  sm_apply env1 group true now entries (mkStateMachine s obs) = (sm1, Ready (Ok rs1)) →
  sm_apply env2 group false now entries (mkStateMachine s obs) = (sm2, Ready (Ok rs2)) →
  rs1 = rs2 ∧ rsm_observed sm1 = rsm_observed sm2 ∧
  (∀ k, state_map (rsm_storage sm1) group k = state_map (rsm_storage sm2) group k) ∧
  (entries ≠ [] → get_cf (st_db (rsm_storage sm1)) (cf_log group) KEY_COMMITTED =
    get_cf (st_db (rsm_storage sm2)) (cf_log group) KEY_COMMITTED).
Proof.
  intros Hc Ho Hrec Hm He E1 E2.
  apply sm_apply_achieved with (mem := mem) in E1 as (p1 & q1 & r1 & Ee1 & Hd1 & Hx1); [|done..].
  apply sm_apply_achieved with (mem := mem) in E2 as (p2 & q2 & r2 & Ee2 & Hd2 & Hx2); [|done..].
  destruct (Hx1 _ eq_refl) as (-> & -> & ->). destruct (Hx2 _ eq_refl) as (-> & -> & ->).
  rewrite app_nil_r in Ee1, Ee2. subst p1 p2. simpl in Hd1, Hd2 |- *.
  destruct Hd1 as [_ _ (ms1 & Hr1 & Hs1) Ha1 Hcm1 _], Hd2 as [_ _ (ms2 & Hr2 & Hs2) Ha2 Hcm2 _].
  rewrite Hr1 in Hr2. injection Hr2 as <- <-. split_and!; [done..| |].
  - intros k. destruct (decide (k = raft_applied_key)) as [->|Hk]; [by rewrite Ha1, Ha2|by rewrite Hs1, Hs2].
  - intros Hne. destruct (last entries) as [e|] eqn:El; [|by apply last_None in El].
    by rewrite (Hcm1 e), (Hcm2 e).
Qed.
End claims.
