(* ===== verification/LogStoreProofs.v ===== *)
(** * The Raft log store against an abstract log

    An abstract log is a vote, the two markers and a list of entries of
    increasing index. [log_store_writes] shows that every operation performs
    its abstract counterpart or, where a call fails, stops at a state a retry
    completes; [log_store_reads] that the readers return the abstract answers;
    [purge_after_durable] that entries are discarded only when the state that
    covers them is durable. *)

From S2P Require Import Prelude BTree Types Codec SearchDef Keyspace Outbox ApplyDurability Aio Rocks Storage DataSM SearchStore ApplyRaft LogStore.

Lemma pair_inv {A B} (a a' : A) (b b' : B) : (a, b) = (a', b') → a = a' ∧ b = b'.
Proof. by intros [= -> ->]. Qed.

(** ** Keys of the log column family *)

Lemma entry_index_spec k i : entry_index k = Some i ↔ k = entry_key i ∧ (i ≤ u64_max)%N.
Proof.
  unfold entry_index, entry_key. destruct k as [|b k]; [naive_solver|].
  destruct (bool_decide_reflect (length (b :: k) = 9)) as [Hl|Hl]; simpl.
  - injection Hl as Hl. destruct (bool_decide_reflect (b = ENTRY_PREFIX)) as [->|Hb]; simpl; [|naive_solver].
    split.
    + intros [= <-]. rewrite <-Hl, be_bytes_be_value. split; [done|].
      pose proof (le_value_bound (reverse k)) as Hb. rewrite length_reverse, Hl in Hb.
      unfold be_value. change (256 ^ N.of_nat 8)%N with (u64_max + 1)%N in Hb. lia.
    + intros [[= ->] Hi]. f_equal. apply be_value_be_bytes_small.
      change (256 ^ N.of_nat 8)%N with (u64_max + 1)%N. lia.
  - split; [done|]. intros [E _]. destruct Hl. rewrite E. cbn [length]. by rewrite length_be_bytes.
Qed.

Lemma entry_key_index i : (i ≤ u64_max)%N → entry_index (entry_key i) = Some i.
Proof. intros Hi. by apply entry_index_spec. Qed.

Lemma entry_key_inj i j : (i ≤ u64_max)%N → (j ≤ u64_max)%N → entry_key i = entry_key j → i = j.
Proof. intros Hi%entry_key_index Hj%entry_key_index E. congruence. Qed.

Lemma entry_key_le i j : (i ≤ u64_max)%N → (j ≤ u64_max)%N → bytes_le (entry_key i) (entry_key j) ↔ (i ≤ j)%N.
Proof.
  intros Hi Hj. unfold entry_key. change (?x :: ?l) with ([x] ++ l). rewrite bytes_le_app_l.
  rewrite <-(app_nil_r (be_bytes 8 i)), <-(app_nil_r (be_bytes 8 j)), bytes_le_be_app by (by rewrite !length_be_bytes).
  rewrite !be_value_be_bytes_small by (change (256 ^ N.of_nat 8)%N with (u64_max + 1)%N; lia).
  split; [intros [?|[E _]]; [lia|]|].
  - apply be_bytes_inj in E; [lia|change (256 ^ N.of_nat 8)%N with (u64_max + 1)%N; lia..].
  - intros Hle. destruct (decide (i = j)) as [->|]; [by right|left; lia].
Qed.

Lemma entry_key_lt i j : (i ≤ u64_max)%N → (j ≤ u64_max)%N → bytes_lt (entry_key i) (entry_key j) ↔ (i < j)%N.
Proof.
  intros Hi Hj. unfold bytes_lt. rewrite entry_key_le by done. split.
  - intros [Hle Hne]. destruct (decide (i = j)) as [->|]; [done|lia].
  - intros Hlt. split; [lia|]. intros E%entry_key_inj; [lia|done..].
Qed.

(** The three singleton records sort before the entries. *)
Definition singleton_key (k : bytes) : Prop := k = KEY_VOTE ∨ k = KEY_PURGED ∨ k = KEY_COMMITTED.
#[global] Instance singleton_key_dec k : Decision (singleton_key k).
Proof. unfold singleton_key. apply _. Defined.

Lemma singleton_not_entry k : singleton_key k → entry_index k = None.
Proof. by intros [-> |[-> | ->]]. Qed.

Lemma singleton_lt_entry k i : singleton_key k → bytes_lt k (entry_key i).
Proof. unfold entry_key. intros [-> |[-> | ->]]; (split; [unfold bytes_le; exact I|discriminate]). Qed.

Lemma singleton_not_ge k i : singleton_key k → ¬ bytes_le (entry_key i) k.
Proof. intros Hk Hle. destruct (singleton_lt_entry k i Hk) as [Hle' []]. by apply (anti_symm bytes_le). Qed.

(** ** The abstract log *)

Section spec.
Context `{!Codec RaftLogId, !Codec (option RaftLogId), !Codec Vote}.
Context {R : Type} `{Wf R} `{!Codec (RaftEntry R)}.
Implicit Types (e : RaftEntry R) (l : list (RaftEntry R)).

Definition idx e : N := rl_index (en_log_id e).

Record ALog := mkALog {
  al_vote : option Vote;
  al_committed : option (option RaftLogId);
  al_purged : option RaftLogId;
  al_entries : list (RaftEntry R);
}.
Implicit Types (a : ALog).

Record alog_ok a : Prop := {
  ao_sorted : StronglySorted (λ e e', (idx e < idx e')%N) (al_entries a);
  ao_entries : Forall (λ e, wf e ∧ (idx e < u64_max)%N) (al_entries a);
  ao_vote : from_option wf True (al_vote a);
  ao_committed : from_option wf True (al_committed a);
  ao_purged : from_option wf True (al_purged a);
}.

Definition entry_at l (i : N) : option (RaftEntry R) := head (filter (λ e, idx e = i) l).

(** The record an abstract log keeps under a key. *)
Definition alog_get a (k : bytes) : option bytes :=
  if decide (k = KEY_VOTE) then encode <$> al_vote a
  else if decide (k = KEY_PURGED) then encode <$> al_purged a
  else if decide (k = KEY_COMMITTED) then encode <$> al_committed a
  else match entry_index k with Some i => encode <$> entry_at (al_entries a) i | None => None end.

Lemma entry_at_Some l i e : StronglySorted (λ e e', (idx e < idx e')%N) l →
  entry_at l i = Some e ↔ e ∈ l ∧ idx e = i.
Proof.
  intros Hs. unfold entry_at. induction Hs as [|x l Hs IH Hx]; [set_solver|].
  rewrite filter_cons. rewrite Forall_forall in Hx. case_decide as E; simpl.
  - split; [naive_solver set_solver|]. intros [[->|Hin]%elem_of_cons Hi]; [done|].
    specialize (Hx _ Hin). lia.
  - rewrite IH. set_solver.
Qed.

Lemma entry_at_filter l i (P : RaftEntry R → Prop) `{∀ e, Decision (P e)} (Q : N → Prop) `{!Decision (Q i)} :
  (∀ e, idx e = i → P e ↔ Q i) → entry_at (filter P l) i = if decide (Q i) then entry_at l i else None.
Proof.
  intros HP. unfold entry_at. rewrite list_filter_filter. case_decide as Hq.
  - f_equal. apply list_filter_iff. naive_solver.
  - rewrite filter_none; [done|]. naive_solver.
Qed.

Lemma entry_at_app l l' i : entry_at (l ++ l') i = match entry_at l i with Some e => Some e | None => entry_at l' i end.
Proof. unfold entry_at. rewrite filter_app. by destruct (filter _ l). Qed.

Lemma alog_get_entry a k : ¬ singleton_key k →
  alog_get a k = match entry_index k with Some i => encode <$> entry_at (al_entries a) i | None => None end.
Proof. unfold alog_get, singleton_key. intros Hk. by rewrite !decide_False by tauto. Qed.

Lemma alog_get_singleton a a' k : singleton_key k →
  al_vote a' = al_vote a → al_purged a' = al_purged a → al_committed a' = al_committed a → alog_get a' k = alog_get a k.
Proof. unfold alog_get. by intros [-> |[-> | ->]] -> -> ->. Qed.

(** ** Abstract operations *)

Inductive LogOp :=
| Op_vote (v : Vote)
| Op_append (group_commit : bool) (entries : list (RaftEntry R))
| Op_truncate (log_id : RaftLogId)
| Op_purge (log_id : RaftLogId).

Definition with_entries l a : ALog := mkALog (al_vote a) (al_committed a) (al_purged a) l.
Definition with_purged (p : RaftLogId) a : ALog := mkALog (al_vote a) (al_committed a) (Some p) (al_entries a).

Definition alog_apply (op : LogOp) a : ALog :=
  match op with
  | Op_vote v => mkALog (Some v) (al_committed a) (al_purged a) (al_entries a)
  | Op_append _ es => with_entries (al_entries a ++ es) a
  | Op_truncate p => with_entries (filter (λ e, (idx e < rl_index p)%N) (al_entries a)) a
  | Op_purge p => with_entries (filter (λ e, (rl_index p < idx e)%N) (al_entries a)) (with_purged p a)
  end.

(** What an operation may be asked: appended entries continue the log. *)
Definition op_ok (op : LogOp) a : Prop :=
  alog_ok (alog_apply op a) ∧ match op with Op_truncate p | Op_purge p => wf p | _ => True end.

(** Where an operation may stop when a call fails. A purge writes its marker,
    then deletes the entries below the purge point, then the entry at it. *)
Inductive alog_partial (op : LogOp) a : ALog → Prop :=
| partial_none : alog_partial op a a
| partial_all : alog_partial op a (alog_apply op a)
| partial_purge p (cut : N) : op = Op_purge p → (cut ≤ rl_index p)%N →
    alog_partial op a (with_entries (filter (λ e, (cut ≤ idx e)%N) (al_entries a)) (with_purged p a)).

Lemma alog_ok_filter a (P : RaftEntry R → Prop) `{∀ e, Decision (P e)} :
  alog_ok a → alog_ok (with_entries (filter P (al_entries a)) a).
Proof. intros []. by constructor; simpl; [apply StronglySorted_filter|apply Forall_filter|..]. Qed.

Lemma alog_ok_purged a p : alog_ok a → wf p → alog_ok (with_purged p a).
Proof. intros [] Hp. by constructor. Qed.

(** The effect of a batch operation on a stored record. *)
Lemma alog_get_delete_range a k cf x y :
  (x ≤ u64_max)%N → (y ≤ u64_max)%N →
  batch_op_apply cf k (BatchDeleteRange cf (entry_key x) (entry_key y)) (alog_get a k) =
  alog_get (with_entries (filter (λ e, ¬ (x ≤ idx e < y)%N) (al_entries a)) a) k.
Proof.
  intros Hx Hy. simpl. destruct (decide (singleton_key k)) as [Hs|Hs].
  { rewrite decide_False by (intros (_ & Hle & _); by eapply singleton_not_ge). by apply alog_get_singleton. }
  rewrite !alog_get_entry by done. simpl.
  destruct (entry_index k) as [i|] eqn:Ei; [|by case_decide]. apply entry_index_spec in Ei as [-> Hi].
  rewrite (entry_at_filter _ i (λ e, ¬ (x ≤ idx e < y)%N) (λ i, ¬ (x ≤ i < y)%N)) by (by intros ? ->).
  case_decide as Hr; case_decide as Hq; try done.
  - destruct Hr as (_ & H1 & H2). apply entry_key_le in H1; [|done..]. apply entry_key_lt in H2; [|done..]. lia.
  - destruct Hr. split; [done|]. rewrite entry_key_le, entry_key_lt by done. lia.
Qed.

Lemma alog_get_delete a k cf x : (x ≤ u64_max)%N →
  batch_op_apply cf k (BatchDelete cf (entry_key x)) (alog_get a k) =
  alog_get (with_entries (filter (λ e, idx e ≠ x) (al_entries a)) a) k.
Proof.
  intros Hx. simpl. destruct (decide (singleton_key k)) as [Hs|Hs].
  { rewrite decide_False; [by apply alog_get_singleton|]. intros [_ <-].
    apply singleton_not_entry in Hs. by rewrite entry_key_index in Hs. }
  rewrite !alog_get_entry by done. simpl.
  destruct (entry_index k) as [i|] eqn:Ei; [|by case_decide]. apply entry_index_spec in Ei as [-> Hi].
  rewrite (entry_at_filter _ i (λ e, idx e ≠ x) (λ i, i ≠ x)) by (by intros ? ->).
  case_decide as Hr; case_decide as Hq; try done.
  - destruct Hr as [_ E%entry_key_inj]; [congruence|done..].
  - destruct Hr. split; [done|]. f_equal. destruct (decide (i = x)); [done|tauto].
Qed.

Lemma alog_get_put_entry a k cf e : alog_ok (with_entries (al_entries a ++ [e]) a) →
  batch_op_apply cf k (put_entry cf e) (alog_get a k) = alog_get (with_entries (al_entries a ++ [e]) a) k.
Proof.
  intros [Hs He _ _ _]. simpl in Hs, He. apply Forall_app in He as [_ He]. apply Forall_cons in He as [[_ He] _].
  simpl. destruct (decide (singleton_key k)) as [Hk|Hk].
  { rewrite decide_False; [by apply alog_get_singleton|]. intros [_ <-].
    apply singleton_not_entry in Hk. unfold idx in He. by rewrite entry_key_index in Hk by lia. }
  rewrite !alog_get_entry by done. simpl.
  destruct (entry_index k) as [i|] eqn:Ei.
  2: { rewrite decide_False; [done|]. intros [_ <-]. unfold idx in He. by rewrite entry_key_index in Ei by lia. }
  apply entry_index_spec in Ei as [-> Hi]. rewrite entry_at_app. case_decide as Hd.
  - destruct Hd as [_ Ek%entry_key_inj]; [|unfold idx in He; lia|done]. subst i.
    destruct (entry_at (al_entries a) _) as [e'|] eqn:Ea.
    + apply StronglySorted_app in Hs as (Hs1 & Hs2 & _). apply entry_at_Some in Ea as [Hin Hi']; [|done].
      specialize (Hs1 e' e Hin). unfold idx in *. set_solver by lia.
    + unfold entry_at. rewrite filter_cons_True by done. done.
  - destruct (entry_at (al_entries a) i); [done|]. unfold entry_at. rewrite filter_cons_False; [done|].
    intros <-. by destruct Hd.
Qed.
End spec.

Arguments ALog R : clear implicits.
Arguments LogOp R : clear implicits.

(** ** Health checks only touch the registry *)

Lemma require_group_healthy_registry {D} (now : N) group (s : Storage D) :
  ∃ reg, (require_group_healthy now group s).1 = set_apply reg s.
Proof.
  unfold require_group_healthy, require_healthy, io_bind, lift_apply, io_read, io_err, io_ret.
  destruct (ensure_healthy _ _) as [r [u|e]]; cbn beta iota; [|by eexists].
  destruct (group_failure _ _ _) as [r' [f|]]; by eexists.
Qed.

(** A group found healthy is healthy still at the same instant. *)
Lemma expire_dirty_healthy now r : rg_failed (expire_dirty now r) = None →
  rg_failed r = None ∧ expire_dirty now r = r ∧
  ∀ g s, rg_groups r !! g = Some s → dirty_expired now (al_max_dirty_age_ms (rg_limits r)) s = false.
Proof.
  unfold expire_dirty. destruct (rg_failed r) as [e|] eqn:E; [congruence|].
  destruct (list_find _ _) as [x|] eqn:Ef.
  - intros Hf. exfalso. revert Hf. unfold fail_all. rewrite E, bool_decide_true by done.
    destruct r as [? ? [] ? ? ?]; done.
  - intros _. split_and!; [done..|]. intros g s Hg. apply list_find_None in Ef. rewrite Forall_forall in Ef.
    specialize (Ef (g, s)). rewrite elem_of_map_to_list in Ef. specialize (Ef Hg). simpl in Ef.
    by destruct (dirty_expired _ _ _).
Qed.

Lemma healthy_expire_dirty now r : rg_failed r = None →
  (∀ g s, rg_groups r !! g = Some s → dirty_expired now (al_max_dirty_age_ms (rg_limits r)) s = false) →
  expire_dirty now r = r.
Proof.
  intros Hf Hg. unfold expire_dirty. rewrite Hf. destruct (list_find _ _) as [[n [g s]]|] eqn:E; [|done].
  apply list_find_Some in E as (Hl & Hx & _). apply list_elem_of_lookup_2, elem_of_map_to_list in Hl.
  simpl in Hx. rewrite (Hg _ _ Hl) in Hx. done.
Qed.

(** What a passed health check says about the registry. *)
Definition registry_healthy (now : N) (group : GroupId) (r : ApplyDurabilityRegistry) : Prop :=
  rg_failed r = None ∧ (∀ s, rg_groups r !! group = Some s → gs_failed s = None) ∧
  (∀ g s, rg_groups r !! g = Some s → dirty_expired now (al_max_dirty_age_ms (rg_limits r)) s = false).

Lemma require_group_healthy_ok {D} now group (s s1 : Storage D) :
  require_group_healthy now group s = (s1, Ok tt) →
  registry_healthy now group (st_apply_durability s) ∧ registry_healthy now group (st_apply_durability s1).
Proof.
  unfold require_group_healthy, require_healthy, io_bind, lift_apply, io_read, io_err, io_ret, ensure_healthy.
  set (r := st_apply_durability s). destruct (rg_failed (expire_dirty now r)) as [e|] eqn:Hf; [done|].
  apply expire_dirty_healthy in Hf as (Hf & -> & Hg). cbn beta iota.
  unfold group_failure, with_tracker, registry_register. cbn [st_apply_durability set_apply]. rewrite Hf.
  destruct (rg_groups r !! group) as [gs|] eqn:Er; cbn -[tracker_new]; rewrite lookup_insert_eq; cbn -[tracker_new].
  - destruct (gs_failed gs) as [e|] eqn:Egs; [done|]. intros [= <-]. split; (split; [done|]).
    + split; [|done]. intros s0 ?. congruence.
    + simpl. rewrite insert_insert_eq. split.
      * intros s0. rewrite lookup_insert_eq. naive_solver.
      * intros g s0. rewrite lookup_insert_Some. naive_solver.
  - intros [= <-]. split; (split; [done|]).
    + split; [|done]. intros s0 ?. congruence.
    + simpl. rewrite insert_insert_eq. split.
      * intros s0. rewrite lookup_insert_eq. by intros [= <-].
      * intros g s0. rewrite lookup_insert_Some. intros [[<- <-]|[_ ?]]; [done|eauto].
Qed.

Lemma registry_healthy_pass {D} now group (s : Storage D) : registry_healthy now group (st_apply_durability s) →
  (require_healthy now s).2 = Ok tt ∧ (require_group_healthy now group s).2 = Ok tt.
Proof.
  intros (Hf & Hgf & Hg). pose proof (healthy_expire_dirty _ _ Hf Hg) as He.
  unfold require_group_healthy, require_healthy, io_bind, lift_apply, io_read, io_err, io_ret, ensure_healthy.
  rewrite He, Hf. cbn beta iota. split; [done|].
  unfold group_failure, with_tracker, registry_register. cbn [st_apply_durability set_apply]. rewrite Hf.
  destruct (rg_groups (st_apply_durability s) !! group) as [gs|] eqn:Er; cbn -[tracker_new]; rewrite lookup_insert_eq; cbn -[tracker_new].
  - by rewrite (Hgf _ eq_refl).
  - done.
Qed.

(** ** The store as a log *)

Section store.
Context `{RocksOk D} `{!Codec U64, !Codec string, !Codec RaftLogId, !Codec (option RaftLogId), !Codec Vote}.
Context {R : Type} `{Wf R} `{!Codec (RaftEntry R)}.
Context (env : LogEnv) (group : GroupId).
Implicit Types (s : Storage D) (a : ALog R) (op : LogOp R).

(** The log column family of the group holds an abstract log. *)
Record log_rep s a : Prop := {
  lr_open : cf_exists (st_db s) (cf_log group) = true;
  lr_get k : get_cf (st_db s) (cf_log group) k = alog_get a k;
  lr_ok : alog_ok a;
}.

(** Nothing outside the group's log changed. *)
Record log_frame s s' : Prop := {
  lf_exists n : cf_exists (st_db s') n = cf_exists (st_db s) n;
  lf_get cf k : cf ≠ cf_log group → cf_exists (st_db s) cf = true → get_cf (st_db s') cf k = get_cf (st_db s) cf k;
  lf_active : st_active_state_cfs s' = st_active_state_cfs s;
}.

Lemma log_frame_refl s : log_frame s s.
Proof. by constructor. Qed.

Lemma log_frame_trans s1 s2 s3 : log_frame s1 s2 → log_frame s2 s3 → log_frame s1 s3.
Proof.
  intros [E1 G1 A1] [E2 G2 A2]. constructor; [by intros; rewrite E2| |by rewrite A2].
  intros cf k Hne He. rewrite G2, G1; [done..|by rewrite E1].
Qed.

(** The registry is not part of a log. *)
Lemma log_rep_apply s reg a : log_rep s a → log_rep (set_apply reg s) a.
Proof. intros []. by constructor. Qed.
Lemma log_frame_apply s s' reg : log_frame s s' → log_frame s (set_apply reg s').
Proof. intros []. by constructor. Qed.

Lemma write_log_rep s a b a' : log_rep s a → Forall (λ o, op_cf o = cf_log group) b →
  (∀ k, batch_get (cf_log group) k b (alog_get a k) = alog_get a' k) → alog_ok a' →
  log_rep (write_db b s) a' ∧ log_frame s (write_db b s).
Proof.
  intros [Ho Hg Ha] Hb Hk Ha'. split; constructor; cbn [st_db write_db set_db]; try done.
  - by rewrite exists_write.
  - intros k. by rewrite get_write, Hg.
  - intros n. apply exists_write.
  - intros cf k Hne He. rewrite get_write by done. apply batch_get_other_cf.
    eapply Forall_impl; [exact Hb|]. naive_solver.
Qed.

(** ** Where an operation may leave the store *)

Definition outcome op a s0 s' (r : poll (Result unit)) : Prop :=
  ∃ a', log_rep s' a' ∧ log_frame s0 s' ∧ alog_partial op a a' ∧ (r = Ready (Ok tt) → a' = alog_apply op a).

Lemma outcome_stop op a s0 s' r : log_rep s' a → log_frame s0 s' → r ≠ Ready (Ok tt) → outcome op a s0 s' r.
Proof. intros Hr Hf Hn. exists a. split_and!; [done..|constructor|done]. Qed.

Lemma outcome_all op a s0 s' r : log_rep s' (alog_apply op a) → log_frame s0 s' → outcome op a s0 s' r.
Proof. intros Hr Hf. exists (alog_apply op a). split_and!; [done..|constructor|done]. Qed.

Lemma awp_or_poison {A} ctx (m : aio (Storage D) A) Q s :
  awp m (λ s' r, match r with Ready (Err e) => Q (poison_raft_error ctx e s') (Ready (Err e)) | _ => Q s' r end) s →
  awp (or_poison ctx m) Q s.
Proof. unfold awp, or_poison. by destruct (m s) as [s1 [[x|e]|]]. Qed.

Lemma awp_log_healthy ctx Q s :
  (∀ reg, Q (set_apply reg s) (Ready (Ok tt))) → (∀ reg e, Q (set_apply reg s) (Ready (Err e))) →
  awp (log_healthy env group ctx) Q s.
Proof.
  intros Hok Herr. unfold log_healthy. apply awp_or_poison. unfold awp, aio_io.
  destruct (require_group_healthy_registry (le_now env) group s) as [reg E].
  destruct (require_group_healthy _ _ s) as [s1 [[]|e]]; simpl in *; subst s1; [apply Hok|apply Herr].
Qed.

Lemma awp_open_log ctx Q s : cf_exists (st_db s) (cf_log group) = true →
  Q s (Ready (Ok (cf_log group))) → awp (open_log group ctx) Q s.
Proof. intros He Hq. apply awp_or_poison, awp_read. unfold log_cf. by rewrite He. Qed.

Lemma awp_db_write n b Q s :
  (∀ s' r, s' = s ∨ s' = write_db b s → (r = Ok tt → s' = write_db b s) → Q s' (Ready r)) → awp (db_write env n b) Q s.
Proof.
  intros Hq. unfold awp, db_write. destruct (le_fault env n) as [[[] e]|]; simpl; apply Hq; auto; done.
Qed.

(** A write of known effect, poisoning the store when it fails. *)
Lemma awp_log_write ctx n b a a' Q s : log_rep s a → Forall (λ o, op_cf o = cf_log group) b →
  (∀ k, batch_get (cf_log group) k b (alog_get a k) = alog_get a' k) → alog_ok a' →
  (∀ s', log_rep s' a' → log_frame s s' → Q s' (Ready (Ok tt))) →
  (∀ s' e, log_rep s' a ∨ log_rep s' a' → log_frame s s' → Q s' (Ready (Err e))) →
  awp (or_poison ctx (db_write env n b)) Q s.
Proof.
  intros Hr Hb Hk Ha Hok Herr. destruct (write_log_rep s a b a' Hr Hb Hk Ha) as [Hr' Hf'].
  apply awp_or_poison, awp_db_write. intros s' [[]|e] Hs' Heq.
  - rewrite (Heq eq_refl). by apply Hok.
  - apply Herr.
    + destruct Hs' as [-> | ->]; [left|right]; by apply log_rep_apply.
    + apply log_frame_apply. destruct Hs' as [-> | ->]; [apply log_frame_refl|done].
Qed.

(** The head of every operation: the health check, then the column family. *)
Lemma awp_log_open {A} ctx ctx' (k : string → aio (Storage D) A) (Q : Storage D → poll (Result A) → Prop) s a :
  log_rep s a →
  (∀ reg, awp (k (cf_log group)) Q (set_apply reg s)) → (∀ reg e, Q (set_apply reg s) (Ready (Err e))) →
  awp (log_healthy env group ctx ;;~ (let~ cf := open_log group ctx' in k cf)) Q s.
Proof.
  intros Hr Hk Herr. apply awp_bind, awp_log_healthy; [|done]. intros reg. simpl. apply awp_bind, awp_open_log.
  - by destruct Hr.
  - apply Hk.
Qed.

Lemma outcome_frame op a s0 s1 s' r : log_frame s0 s1 → outcome op a s1 s' r → outcome op a s0 s' r.
Proof. intros Hf (a' & ? & Hf' & ? & ?). exists a'. split_and!; [done| |done..]. by eapply log_frame_trans. Qed.

(** An operation is its head and then writes. *)
Lemma outcome_open op a s ctx ctx' (k : string → aio (Storage D) unit) : log_rep s a →
  (∀ s1, log_rep s1 a → awp (k (cf_log group)) (outcome op a s1) s1) →
  awp (log_healthy env group ctx ;;~ (let~ cf := open_log group ctx' in k cf)) (outcome op a s) s.
Proof.
  intros Hr Hk. assert (∀ reg, log_frame s (set_apply reg s)) as Hf by (intros; apply log_frame_apply, log_frame_refl).
  apply (awp_log_open _ _ _ _ _ a); [done|..]; intros reg.
  - eapply awp_mono; [apply Hk; by apply log_rep_apply|]. intros s' r. by apply outcome_frame.
  - intros e. apply outcome_stop; [by apply log_rep_apply|done|done].
Qed.

(** A last write that reaches the abstract result. *)
Lemma outcome_write op a s s1 a1 ctx n b : log_rep s1 a1 → log_frame s s1 → alog_partial op a a1 →
  Forall (λ o, op_cf o = cf_log group) b →
  (∀ k, batch_get (cf_log group) k b (alog_get a1 k) = alog_get (alog_apply op a) k) → alog_ok (alog_apply op a) →
  awp (or_poison ctx (db_write env n b)) (outcome op a s) s1.
Proof.
  intros Hr Hf Hp Hb Hk Ha. eapply awp_log_write; [done..| |].
  - intros s' Hr' Hf'. apply outcome_all; [done|by eapply log_frame_trans].
  - intros s' e Hr' Hf'. apply (log_frame_trans _ _ _ Hf) in Hf'.
    destruct Hr' as [Hr'|Hr']; [|by apply outcome_all]. exists a1. by split_and!.
Qed.

(** A write that reaches an intermediate state. *)
Lemma outcome_write_then op a s s1 a1 a2 ctx n b (k : aio (Storage D) unit) :
  log_rep s1 a1 → log_frame s s1 → alog_partial op a a1 → alog_partial op a a2 →
  Forall (λ o, op_cf o = cf_log group) b →
  (∀ key, batch_get (cf_log group) key b (alog_get a1 key) = alog_get a2 key) → alog_ok a2 →
  (∀ s2, log_rep s2 a2 → log_frame s s2 → awp k (outcome op a s) s2) →
  awp (or_poison ctx (db_write env n b) ;;~ k) (outcome op a s) s1.
Proof.
  intros Hr Hf Hp1 Hp2 Hb Hk Ha Hnext. apply awp_bind. eapply awp_log_write; [done..| |].
  - intros s' Hr' Hf'. apply Hnext; [done|by eapply log_frame_trans].
  - intros s' e Hr' Hf'. apply (log_frame_trans _ _ _ Hf) in Hf'.
    destruct Hr' as [Hr'|Hr']; [exists a1|exists a2]; by split_and!.
Qed.

Lemma save_vote_outcome v s a : log_rep s a → alog_ok (alog_apply (Op_vote v) a) →
  awp (save_vote env group v) (outcome (Op_vote v) a s) s.
Proof.
  intros Hr Ha. apply outcome_open; [done|]. intros s1 Hr1.
  eapply outcome_write; [exact Hr1|apply log_frame_refl|constructor|by repeat constructor| |exact Ha].
  intros k. unfold alog_get. simpl. repeat case_decide; naive_solver.
Qed.

Lemma truncate_outcome p s a : log_rep s a → wf p → awp (truncate env group p) (outcome (Op_truncate p) a s) s.
Proof.
  intros Hr Hp. assert (rl_index p ≤ u64_max)%N as Hi by apply Hp. pose proof (lr_ok _ _ Hr) as Ha.
  pose proof (ao_entries _ Ha) as He. rewrite Forall_forall in He.
  assert (alog_ok (alog_apply (Op_truncate p) a)) as Ha' by (by apply alog_ok_filter).
  apply outcome_open; [done|]. intros s1 Hr1.
  eapply (outcome_write_then _ _ _ _ a (alog_apply (Op_truncate p) a));
    [done|apply log_frame_refl|constructor|constructor|by repeat constructor| |done|].
  - intros k. change (batch_get _ _ [?o] ?x) with (batch_op_apply (cf_log group) k o x).
    rewrite alog_get_delete_range by (done || lia). simpl. do 2 f_equal.
    apply filter_ext. intros e Hin. destruct (He e Hin). lia.
  - intros s2 Hr2 Hf2. eapply outcome_write; [exact Hr2|done|constructor|by repeat constructor| |done].
    intros k. change (batch_get _ _ [?o] ?x) with (batch_op_apply (cf_log group) k o x).
    rewrite alog_get_delete by done. unfold alog_apply, with_entries. simpl. do 2 f_equal. apply filter_id.
    intros e [_ Hin]%list_elem_of_filter. destruct (He e Hin). lia.
Qed.

Lemma purge_outcome p s a : log_rep s a → wf p → awp (purge env group p) (outcome (Op_purge p) a s) s.
Proof.
  intros Hr Hp. assert (rl_index p ≤ u64_max)%N as Hi by apply Hp. pose proof (lr_ok _ _ Hr) as Ha.
  assert (∀ reg, log_frame s (set_apply reg s)) as Hf by (intros; apply log_frame_apply, log_frame_refl).
  assert (∀ reg e, outcome (Op_purge p) a s (set_apply reg s) (Ready (Err e))) as Hstop.
  { intros reg e. apply outcome_stop; [by apply log_rep_apply|done|done]. }
  apply awp_bind, awp_log_healthy; [intros reg; simpl|done].
  apply awp_bind, awp_or_poison. unfold awp, wait_state_durable_for_purge.
  destruct (registry_wait_durable _ _ _ _ _ _) as [reg' [[[]|e]|]]; simpl.
  2: apply Hstop.
  2: apply outcome_stop; [by do 2 apply log_rep_apply|by apply log_frame_apply|done].
  change (set_apply reg' (set_apply reg s)) with (set_apply reg' s). apply (log_rep_apply _ reg') in Hr.
  apply awp_bind, awp_open_log; [by destruct Hr|]. simpl.
  set (a1 := with_purged p a). assert (alog_ok a1) as Ha1 by (by apply alog_ok_purged).
  assert (a1 = with_entries (filter (λ e, (0 ≤ idx e)%N) (al_entries a)) (with_purged p a)) as Ea1.
  { unfold a1, with_entries, with_purged. f_equal. symmetry. apply filter_id. lia. }
  set (a2 := with_entries (filter (λ e, (rl_index p ≤ idx e)%N) (al_entries a)) (with_purged p a)).
  assert (alog_ok a2) as Ha2 by (by apply (alog_ok_filter a1)).
  eapply (outcome_write_then _ _ _ _ a a1); [done|done|constructor| |by repeat constructor| |done|].
  { rewrite Ea1. apply (partial_purge _ _ p); [done|lia]. }
  { intros k. unfold alog_get. simpl. repeat case_decide; naive_solver. }
  intros s2 Hr2 Hf2. eapply (outcome_write_then _ _ _ _ a1 a2); [done|done| | |by repeat constructor| |done|].
  { rewrite Ea1. apply (partial_purge _ _ p); [done|lia]. }
  { apply (partial_purge _ _ p); [done|lia]. }
  { intros k. change (batch_get _ _ [?o] ?x) with (batch_op_apply (cf_log group) k o x).
    rewrite alog_get_delete_range by (done || lia). unfold a2. do 2 f_equal. apply filter_ext. intros e _. lia. }
  intros s3 Hr3 Hf3. eapply outcome_write; [exact Hr3|done| |by repeat constructor| |].
  - apply (partial_purge _ _ p); [done|lia].
  - intros k. change (batch_get _ _ [?o] ?x) with (batch_op_apply (cf_log group) k o x).
    rewrite alog_get_delete by done. simpl. unfold with_entries, with_purged. simpl. do 2 f_equal.
    rewrite list_filter_filter. apply filter_ext. intros e _. lia.
  - by apply (alog_ok_filter a1).
Qed.

(** ** Appending *)

Lemma alog_get_put_entries cf es : ∀ a k, alog_ok (with_entries (al_entries a ++ es) a) →
  batch_get cf k (put_entry cf <$> es) (alog_get a k) = alog_get (with_entries (al_entries a ++ es) a) k.
Proof.
  induction es as [|e es IH]; intros a k Ha; [rewrite app_nil_r; by destruct a|].
  rewrite (cons_middle e), (assoc_L (++)) in Ha |- *. cbn [fmap list_fmap].
  change (batch_get cf k (?o :: ?b) ?x) with (batch_get cf k b (batch_op_apply cf k o x)).
  rewrite alog_get_put_entry; [by apply (IH (with_entries (al_entries a ++ [e]) a))|].
  destruct Ha as [Hs He Hv Hc Hp]. constructor; [|by apply Forall_app in He as [He _]|done..].
  by apply StronglySorted_app in Hs as (_ & Hs & _).
Qed.

Definition append_outcome gc es a (ls0 ls' : RocksLogStore D) (r : poll (Result unit)) : Prop :=
  ∃ acks a', ls_flushed ls' = ls_flushed ls0 ++ acks ∧ length acks ≤ 1 ∧
    log_rep (ls_storage ls') a' ∧ log_frame (ls_storage ls0) (ls_storage ls') ∧
    alog_partial (Op_append gc es) a a' ∧
    (r = Ready (Ok tt) ∨ None ∈ acks → a' = alog_apply (Op_append gc es) a).

Lemma awp_on_log {A} (m : aio (Storage D) A) Q ls :
  awp m (λ s r, Q (mkLogStore s (ls_flushed ls)) r) (ls_storage ls) → awp (on_log m) Q ls.
Proof. unfold awp, on_log. by destruct (m (ls_storage ls)). Qed.

(** The states an append may reach. *)
Lemma append_outcome_none acks gc es a ls0 ls' r : ls_flushed ls' = ls_flushed ls0 ++ acks → length acks ≤ 1 →
  None ∉ acks → log_rep (ls_storage ls') a → log_frame (ls_storage ls0) (ls_storage ls') → r ≠ Ready (Ok tt) →
  append_outcome gc es a ls0 ls' r.
Proof. intros. exists acks, a. split_and!; [done..|constructor|]. naive_solver. Qed.

Lemma append_outcome_all acks gc es a ls0 ls' r : ls_flushed ls' = ls_flushed ls0 ++ acks → length acks ≤ 1 →
  log_rep (ls_storage ls') (alog_apply (Op_append gc es) a) → log_frame (ls_storage ls0) (ls_storage ls') →
  append_outcome gc es a ls0 ls' r.
Proof. intros. exists acks, (alog_apply (Op_append gc es) a). split_and!; [done..|constructor|done]. Qed.

Lemma require_healthy_registry now s : ∃ reg, (require_healthy now s).1 = set_apply reg s.
Proof.
  unfold require_healthy, io_bind, lift_apply, io_read. destruct (ensure_healthy _ _) as [r [u|e]]; by eexists.
Qed.

Lemma write_log_batch_outcome gc es a b w ls s1 : log_rep s1 a → log_frame (ls_storage ls) s1 →
  (∀ reg, log_rep (write_db b (set_apply reg s1)) (alog_apply (Op_append gc es) a)) →
  (∀ reg, log_frame (ls_storage ls) (write_db b (set_apply reg s1))) →
  awp (write_log_batch env b w) (append_outcome gc es a ls) (mkLogStore s1 (ls_flushed ls)).
Proof.
  intros Hr Hf Hrw Hfw. apply awp_bind, awp_on_log. unfold awp, aio_io. cbn [ls_storage ls_flushed].
  destruct (require_healthy_registry (le_now env) s1) as [reg Ereg].
  destruct (require_healthy (le_now env) s1) as [s2 [[]|e]]; simpl in Ereg; subst s2; cbn [awp_k fst snd].
  2: { apply (append_outcome_none []);
         [by rewrite app_nil_r|simpl; lia|set_solver|by apply log_rep_apply|by apply log_frame_apply|done]. }
  specialize (Hrw reg). specialize (Hfw reg). unfold awp. cbn beta zeta.
  case_match; [|destruct (le_fate env) as [e|e|e|applied|durable]]; unfold poison_log, log_io_completed; cbn [fst snd ls_storage ls_flushed].
  4: apply (append_outcome_none [Some e]).
  1,2,3: apply (append_outcome_none []).
  all: try (simpl; rewrite ?app_nil_r; first [done|lia|set_solver|by repeat apply log_rep_apply|by repeat apply log_frame_apply]).
  - destruct applied; [apply (append_outcome_all [])|apply (append_outcome_none [])]; simpl; rewrite ?app_nil_r;
      first [done|lia|set_solver|by repeat apply log_rep_apply|by repeat apply log_frame_apply].
  - destruct durable as [result|]; [apply (append_outcome_all [result])|apply (append_outcome_all [])]; simpl;
      rewrite ?app_nil_r; first [done|lia].
Qed.

Lemma append_outcome_ok gc es ls a : log_rep (ls_storage ls) a → alog_ok (alog_apply (Op_append gc es) a) →
  awp (append env group gc es) (append_outcome gc es a ls) ls.
Proof.
  intros Hr Ha. assert (∀ reg, log_frame (ls_storage ls) (set_apply reg (ls_storage ls))) as Hf
    by (intros; apply log_frame_apply, log_frame_refl).
  assert (∀ s1, log_rep s1 a → log_frame (ls_storage ls) s1 →
    log_rep (write_db (put_entry (cf_log group) <$> es) s1) (alog_apply (Op_append gc es) a) ∧
    log_frame (ls_storage ls) (write_db (put_entry (cf_log group) <$> es) s1)) as Hw.
  { intros s1 Hr1 Hf1. destruct (write_log_rep s1 a (put_entry (cf_log group) <$> es) (alog_apply (Op_append gc es) a))
      as [? ?]; [done| |intros k; by apply alog_get_put_entries|done|split; [done|by eapply log_frame_trans]].
    by apply Forall_fmap, Forall_true. }
  apply awp_bind, awp_on_log, awp_log_healthy; [|intros reg e]; cbn [awp_k].
  2: { apply (append_outcome_none []); [by rewrite app_nil_r|simpl; lia|set_solver|by apply log_rep_apply|done|done]. }
  intros reg. apply awp_bind, awp_on_log, awp_open_log; [apply Hr|]. cbn [awp_k ls_storage ls_flushed].
  assert (log_rep (set_apply reg (ls_storage ls)) a) as Hr1 by (by apply log_rep_apply).
  destruct gc.
  - pose proof (write_log_batch_outcome true es a (put_entry (cf_log group) <$> es)
      (foldl (λ n e, saturating_add usize_max n (saturating_add usize_max 9 (encoded_len e))) 0%N es) ls _ Hr1 (Hf reg)) as Hb.
    unfold awp in *. destruct (write_log_batch _ _ _ _) as [ls' [[[]|e]|]]; cbn [fst snd] in *.
    + apply Hb; intros reg'; apply Hw; by try apply log_rep_apply.
    + destruct Hb as (acks & a' & E & Hl & Hr' & Hf' & Hp & Hk); [intros reg'; apply Hw; by try apply log_rep_apply..|].
      exists acks, a'. split_and!; [done|done|by apply log_rep_apply|by apply log_frame_apply|done|done].
    + apply Hb; intros reg'; apply Hw; by try apply log_rep_apply.
  - apply awp_bind, awp_on_log, awp_or_poison, awp_db_write. intros s' [[]|e] Hs' Heq; cbn [awp_k ls_storage ls_flushed].
    + rewrite (Heq eq_refl). apply (append_outcome_all [None]); [done|simpl; lia|by apply Hw|by apply Hw].
    + destruct Hs' as [-> | ->].
      * apply (append_outcome_none []);
          [by rewrite app_nil_r|simpl; lia|set_solver|by apply log_rep_apply|by apply log_frame_apply|done].
      * apply (append_outcome_all []);
          [by rewrite app_nil_r|simpl; lia|apply log_rep_apply|apply log_frame_apply]; by apply Hw.
Qed.

(** ** Reading *)

Definition entry_kv (e : RaftEntry R) : bytes * bytes := (entry_key (idx e), encode e).
Definition opt_kv {T} `{Codec T} (k : bytes) (o : option T) : list (bytes * bytes) :=
  match o with Some x => [(k, encode x)] | None => [] end.
Definition singles a : list (bytes * bytes) :=
  opt_kv KEY_COMMITTED (al_committed a) ++ opt_kv KEY_PURGED (al_purged a) ++ opt_kv KEY_VOTE (al_vote a).

Lemma elem_of_opt_kv {T} `{Codec T} k (o : option T) k' v :
  (k', v) ∈ opt_kv k o ↔ k' = k ∧ encode <$> o = Some v.
Proof. destruct o; simpl; set_solver. Qed.

Lemma singles_key a kv : kv ∈ singles a → singleton_key kv.1.
Proof.
  destruct kv as [k v]. unfold singles. rewrite !elem_of_app, !elem_of_opt_kv. unfold singleton_key. naive_solver.
Qed.

Lemma alog_kvs_spec a k v : alog_ok a →
  (k, v) ∈ singles a ++ (entry_kv <$> al_entries a) ↔ alog_get a k = Some v.
Proof.
  intros [Hs He _ _ _]. rewrite elem_of_app, list_elem_of_fmap. rewrite Forall_forall in He.
  destruct (decide (singleton_key k)) as [Hk|Hk].
  - trans ((k, v) ∈ singles a).
    + split; [|auto]. intros [?|(e & [-> _]%pair_inv & Hin)]; [done|]. apply singleton_not_entry in Hk.
      destruct (He e Hin) as [_ Hi]. by rewrite entry_key_index in Hk by lia.
    + unfold singles, alog_get. rewrite !elem_of_app, !elem_of_opt_kv.
      destruct Hk as [-> |[-> | ->]]; simpl; naive_solver.
  - rewrite alog_get_entry by done. trans (∃ e, (k, v) = entry_kv e ∧ e ∈ al_entries a).
    { split; [|auto]. intros [Hin%singles_key|?]; [done|done]. }
    destruct (entry_index k) as [i|] eqn:Ei.
    + apply entry_index_spec in Ei as [-> Hi]. split.
      * intros (e & [Ek ->]%pair_inv & Hin). apply entry_key_inj in Ek; [|done|destruct (He e Hin); lia]. subst i.
        assert (entry_at (al_entries a) (idx e) = Some e) as E by (by apply entry_at_Some). by rewrite E.
      * intros (e & Ea & ->)%fmap_Some. apply entry_at_Some in Ea as [Hin <-]; [|done]. by exists e.
    + split; [|done]. intros (e & [-> _]%pair_inv & Hin). destruct (He e Hin) as [_ Hi]. by rewrite entry_key_index in Ei by lia.
Qed.

Lemma entry_kvs_sorted l : StronglySorted (λ e e' : RaftEntry R, (idx e < idx e')%N) l →
  Forall (λ e, wf e ∧ (idx e < u64_max)%N) l → StronglySorted bytes_lt (entry_kv <$> l).*1.
Proof.
  intros Hs He. induction Hs as [|e l Hs IH Hx]; [constructor|]. apply Forall_cons in He as [[_ He] Hl].
  rewrite !fmap_cons. constructor; [by apply IH|]. rewrite !Forall_fmap, Forall_forall in *. intros e' Hin.
  apply entry_key_lt; [lia|destruct (Hl e' Hin); lia|]. by apply Hx.
Qed.

Lemma singles_sorted a : StronglySorted bytes_lt (singles a).*1.
Proof.
  unfold singles. destruct (al_committed a), (al_purged a), (al_vote a); simpl; repeat constructor;
    (try (unfold bytes_le; exact I)); discriminate.
Qed.

(** The database iterates over the singletons, then the entries. *)
Lemma iter_log s a : log_rep s a → iter_cf (st_db s) (cf_log group) = singles a ++ (entry_kv <$> al_entries a).
Proof.
  intros [_ Hg Ha]. apply sorted_kvs_ext; [apply iter_sorted| |].
  - rewrite fmap_app. apply StronglySorted_app_2; [|apply singles_sorted|apply entry_kvs_sorted; apply Ha].
    intros k k' (kv & -> & Hk)%list_elem_of_fmap (kv' & -> & Hk')%list_elem_of_fmap.
    apply singles_key in Hk. apply list_elem_of_fmap in Hk' as (e & -> & _). by apply singleton_lt_entry.
  - intros [k v]. rewrite iter_spec, Hg. by rewrite alog_kvs_spec.
Qed.

Lemma iter_from_log s a i : log_rep s a → (i ≤ u64_max)%N →
  iter_from (st_db s) (cf_log group) (entry_key i) = entry_kv <$> filter (λ e, (i ≤ idx e)%N) (al_entries a).
Proof.
  intros Hr Hi. unfold iter_from. rewrite (iter_log s a Hr), filter_app, filter_none; simpl.
  2: { intros kv Hk%singles_key. by apply singleton_not_ge. }
  pose proof (ao_entries _ (lr_ok _ _ Hr)) as He. induction He as [|e l [_ He] _ IH]; [done|].
  rewrite fmap_cons, !filter_cons, IH. pose proof (entry_key_le i (idx e) Hi ltac:(lia)). simpl.
  repeat case_decide; [done|tauto|tauto|done].
Qed.

Lemma last_at_or_before_log s a : log_rep s a →
  last_at_or_before (st_db s) (cf_log group) [ENTRY_PREFIX_END] =
  match last (al_entries a) with Some e => Some (entry_kv e) | None => last (singles a) end.
Proof.
  intros Hr. unfold last_at_or_before. rewrite (iter_log s a Hr), filter_id.
  2: { intros kv [Hk%singles_key|(e & -> & _)%list_elem_of_fmap]%elem_of_app; [|done].
       by destruct Hk as [-> |[-> | ->]]. }
  rewrite last_app, fmap_last. by destruct (last (al_entries a)).
Qed.

Lemma read_entries_spec end_ l : StronglySorted (λ e e' : RaftEntry R, (idx e < idx e')%N) l →
  Forall (λ e, wf e ∧ (idx e < u64_max)%N) l →
  read_entries end_ (entry_kv <$> l) = Ok (filter (λ e, (idx e < end_)%N) l).
Proof.
  intros Hs He. induction Hs as [|e l Hs IH Hx]; [done|]. apply Forall_cons in He as [[Hw He] Hl].
  cbn [fmap list_fmap read_entries entry_kv]. rewrite entry_key_index by lia. rewrite filter_cons.
  destruct (N.ltb_spec (idx e) end_) as [Hlt|Hge].
  - rewrite decide_True by done. rewrite decode_encode by done. cbn [rbind]. by rewrite IH.
  - rewrite decide_False by lia. rewrite filter_none; [done|]. intros e' Hin. rewrite Forall_forall in Hx.
    specialize (Hx e' Hin). lia.
Qed.

(** The environment of an undisturbed operation. *)
Definition no_faults : Prop := ∀ n, le_fault env n = None.
Definition healthy s : Prop := registry_healthy (le_now env) group (st_apply_durability s).

Lemma log_healthy_pass ctx s : healthy s →
  ∃ reg, log_healthy env group ctx s = (set_apply reg s, Ready (Ok tt)) ∧ healthy (set_apply reg s).
Proof.
  intros Hh. destruct (registry_healthy_pass _ _ _ Hh) as [_ Hp].
  destruct (require_group_healthy_registry (le_now env) group s) as [reg E].
  exists reg. unfold log_healthy, or_poison, aio_io.
  destruct (require_group_healthy (le_now env) group s) as [s1 r] eqn:Er. simpl in E, Hp. subst s1 r.
  split; [done|]. apply require_group_healthy_ok in Er. apply Er.
Qed.

Lemma open_log_pass ctx s a : log_rep s a → open_log group ctx s = (s, Ready (Ok (cf_log group))).
Proof. intros Hr. unfold open_log, or_poison, aio_io, io_read, log_cf. by rewrite (lr_open _ _ Hr). Qed.

Lemma db_read_pass {A} ctx n (f : D → A) s : no_faults →
  or_poison ctx (db_read env n f) s = (s, Ready (Ok (f (st_db s)))).
Proof. intros Hn. unfold or_poison, db_read. by rewrite Hn. Qed.

Lemma read_singleton_pass (T : Type) `{Codec T} n key (o : option T) s a :
  no_faults → healthy s → log_rep s a → alog_get a key = encode <$> o → from_option wf True o →
  ∃ reg, read_log_singleton env group T n key s = (set_apply reg s, Ready (Ok o)) ∧ healthy (set_apply reg s).
Proof.
  intros Hn Hh Hr Hk Hw. unfold read_log_singleton, aio_bind. destruct (log_healthy_pass "Raft log health check failed" s Hh) as (reg & -> & Hh').
  rewrite (open_log_pass _ _ a) by (by apply log_rep_apply). rewrite db_read_pass by done.
  cbn [st_db set_apply]. rewrite (lr_get _ _ Hr), Hk. exists reg. split; [|done].
  destruct o as [x|]; [|done]. simpl in *. unfold or_poison, aio_io, io_read. by rewrite decode_encode.
Qed.

Definition above (b : Bound) (i : N) : bool :=
  match b with Included x => (x <=? i)%N | Excluded x => (x <? i)%N | Unbounded => true end.
Definition below (b : Bound) (i : N) : bool :=
  match b with Included x => (i <=? x)%N | Excluded x => (i <? x)%N | Unbounded => true end.
(** A bound one past which is still a [u64]. *)
Definition bound_ok (b : Bound) : Prop := match b with Included x | Excluded x => (x < u64_max)%N | Unbounded => True end.

Lemma try_get_log_entries_pass from to s a : no_faults → healthy s → log_rep s a → bound_ok from → bound_ok to →
  (try_get_log_entries env group from to s).2 =
  Ready (Ok (filter (λ e, Is_true (above from (idx e) && below to (idx e))) (al_entries a))).
Proof.
  intros Hn Hh Hr Hf Ht. unfold try_get_log_entries, aio_bind.
  destruct (log_healthy_pass "Raft log health check failed" s Hh) as (reg & -> & _).
  rewrite (open_log_pass _ _ a) by (by apply log_rep_apply). rewrite db_read_pass by done. cbn [st_db set_apply].
  assert (start_of from ≤ u64_max ∧ ∀ i, start_of from ≤ i ↔ above from i = true)%N as [Hs1 Hs2].
  { destruct from as [x|x|]; simpl in *; [|unfold wrapping_add; rewrite N.mod_small by lia|]; (split; [lia|]); intros i;
      rewrite ?N.leb_le, ?N.ltb_lt; naive_solver lia. }
  assert (∀ i, i < u64_max → i < end_of to ↔ below to i = true)%N as He.
  { intros i Hi. destruct to as [x|x|]; simpl in *; [unfold wrapping_add; rewrite N.mod_small by lia|..];
      rewrite ?N.leb_le, ?N.ltb_lt; naive_solver lia. }
  rewrite (iter_from_log s a) by done. unfold or_poison, aio_io, io_read.
  rewrite read_entries_spec; [|apply StronglySorted_filter, Hr|apply Forall_filter, Hr]. cbn [snd].
  do 2 f_equal. rewrite list_filter_filter. apply filter_ext. intros e Hin.
  pose proof (ao_entries _ (lr_ok _ _ Hr)) as Hw. rewrite Forall_forall in Hw. destruct (Hw e Hin) as [_ Hi].
  rewrite Is_true_true, andb_true_iff, Hs2, He by done. tauto.
Qed.

Lemma last_entry_id_pass n s a : no_faults → healthy s → log_rep s a →
  (last_entry_id (R:=R) env group n s).2 = Ready (Ok (en_log_id <$> last (al_entries a))).
Proof.
  intros Hn Hh Hr. unfold last_entry_id, aio_bind.
  destruct (log_healthy_pass "Raft log health check failed" s Hh) as (reg & -> & _).
  rewrite (open_log_pass _ _ a) by (by apply log_rep_apply). rewrite db_read_pass by done. cbn [st_db set_apply].
  rewrite (last_at_or_before_log s a) by done. pose proof (ao_entries _ (lr_ok _ _ Hr)) as Hw.
  destruct (last (al_entries a)) as [e|] eqn:El.
  - apply last_Some_elem_of in El. rewrite Forall_forall in Hw. destruct (Hw e El) as [Hwf Hi].
    cbn [entry_kv]. rewrite entry_key_index by lia. unfold or_poison, aio_io, io_read. by rewrite decode_encode.
  - destruct (last (singles a)) as [[k v]|] eqn:Es; [|done]. apply last_Some_elem_of in Es.
    apply singles_key in Es. simpl in Es. by rewrite (singleton_not_entry _ Es).
Qed.

Lemma get_log_state_pass s a : no_faults → healthy s → log_rep s a →
  (get_log_state (R:=R) env group s).2 =
  Ready (Ok (mkLogState (al_purged a)
    (match last (al_entries a) with Some e => Some (en_log_id e) | None => al_purged a end))).
Proof.
  intros Hn Hh Hr. unfold get_log_state, aio_bind at 1.
  destruct (read_singleton_pass RaftLogId 0 KEY_PURGED (al_purged a) s a) as (reg & -> & Hh'); [done..|apply Hr|].
  pose proof (last_entry_id_pass 1 (set_apply reg s) a Hn Hh' (log_rep_apply _ _ _ Hr)) as El. unfold aio_bind.
  destruct (last_entry_id _ _ _ _) as [s' r]. simpl in El. subst r. simpl. by destruct (last (al_entries a)).
Qed.

(** ** The operations of the store *)

Definition run_op op : aio (RocksLogStore D) unit :=
  match op with
  | Op_vote v => on_log (save_vote env group v)
  | Op_append gc es => append env group gc es
  | Op_truncate p => on_log (truncate env group p)
  | Op_purge p => on_log (purge env group p)
  end.

Definition wal_bytes_of (es : list (RaftEntry R)) : N :=
  foldl (λ n e, saturating_add usize_max n (saturating_add usize_max 9 (encoded_len e))) 0%N es.

(** Nothing goes wrong: no call fails, the group is healthy, a batch handed to
    the worker fits its budget and is written, and a purge finds the state durable. *)
Definition undisturbed op (ls : RocksLogStore D) : Prop :=
  no_faults ∧ healthy (ls_storage ls) ∧
  match op with
  | Op_append true es => (∃ d, le_fate env = Fate_Written d) ∧ (wal_bytes_of es ≤ MAX_PENDING_WAL_BYTES)%N
  | Op_purge p => ∀ reg, log_healthy env group "Raft purge health check failed" (ls_storage ls) = (set_apply reg (ls_storage ls), Ready (Ok tt)) →
      (wait_state_durable_for_purge env group p (set_apply reg (ls_storage ls))).2 = Ready (Ok tt)
  | _ => True
  end.

Lemma db_write_pass ctx n b s : no_faults → or_poison ctx (db_write env n b) s = (write_db b s, Ready (Ok tt)).
Proof. intros Hn. unfold or_poison, db_write. by rewrite Hn. Qed.

Lemma open_log_pass' ctx s : cf_exists (st_db s) (cf_log group) = true →
  open_log group ctx s = (s, Ready (Ok (cf_log group))).
Proof. intros Ho. unfold open_log, or_poison, aio_io, io_read, log_cf. by rewrite Ho. Qed.

Lemma run_op_total op ls a : log_rep (ls_storage ls) a → undisturbed op ls → (run_op op ls).2 = Ready (Ok tt).
Proof.
  intros Hr (Hn & Hh & Hop). pose proof (lr_open _ _ Hr) as Ho. destruct op as [v|gc es|p|p]; simpl.
  - unfold on_log, save_vote, aio_bind. destruct (log_healthy_pass "Raft vote health check failed" _ Hh) as (reg & -> & _).
    rewrite open_log_pass' by done. by rewrite db_write_pass.
  - unfold append, on_log at 1 2, aio_bind at 1. destruct (log_healthy_pass "Raft append health check failed" _ Hh) as (reg & -> & Hh').
    unfold aio_bind at 1. cbn [ls_storage]. rewrite open_log_pass' by done. destruct gc.
    + destruct Hop as [[d Hd] Hw]. unfold write_log_batch, aio_bind, on_log, aio_io. cbn [ls_storage].
      pose proof (proj1 (registry_healthy_pass _ _ _ Hh')) as Hrh.
      destruct (require_healthy (le_now env) _) as [s1 r]. simpl in Hrh. subst r. cbn [fst snd].
      unfold wal_bytes_of in Hw. rewrite (proj2 (N.ltb_ge _ _)) by done. by rewrite Hd.
    + unfold aio_bind, on_log. by rewrite db_write_pass.
  - unfold on_log, truncate, aio_bind. destruct (log_healthy_pass "Raft truncate health check failed" _ Hh) as (reg & -> & _).
    rewrite open_log_pass' by done. by rewrite !db_write_pass.
  - unfold on_log, purge, aio_bind. destruct (log_healthy_pass "Raft purge health check failed" _ Hh) as (reg & E & _).
    specialize (Hop _ E). rewrite E. unfold or_poison at 1 in |- *. revert Hop. unfold wait_state_durable_for_purge.
    destruct (registry_wait_durable _ _ _ _ _ _) as [reg' q]. simpl. intros ->.
    rewrite open_log_pass' by done. by rewrite !db_write_pass.
Qed.

Definition is_append op : bool := match op with Op_append _ _ => true | _ => false end.

Lemma partial_retry op a a' : is_append op = false → alog_partial op a a' → alog_apply op a' = alog_apply op a.
Proof.
  intros Hop Hp. destruct op as [v|gc es|p|p]; [| | |].
  - inversion Hp; subst; done.
  - done.
  - inversion Hp; subst; [done| |done]. unfold alog_apply, with_entries. simpl. f_equal.
    rewrite list_filter_filter. apply filter_ext. tauto.
  - inversion Hp as [| |p' cut E Hcut]; subst; [done| |].
    + unfold alog_apply, with_entries, with_purged. simpl. f_equal. rewrite list_filter_filter. apply filter_ext. tauto.
    + injection E as <-. unfold alog_apply, with_entries, with_purged. simpl. f_equal. rewrite list_filter_filter.
      apply filter_ext. intros e _. lia.
Qed.

(** C10: The log store performs the abstract operation. Whatever fails on the
    way, the log column family holds an abstract log: the old one, the new one,
    or one a purge has partly discarded below its marker, which repeating the
    operation completes. A success answer, or a success callback of an append,
    implies the whole operation. Undisturbed operations succeed. Nothing
    outside the group's log changes. *)
Theorem log_store_writes op ls a ls' r :
  log_rep (ls_storage ls) a → op_ok op a → run_op op ls = (ls', r) →
  ∃ acks a', ls_flushed ls' = ls_flushed ls ++ acks ∧ log_rep (ls_storage ls') a' ∧
    log_frame (ls_storage ls) (ls_storage ls') ∧ alog_partial op a a' ∧
    (r = Ready (Ok tt) ∨ None ∈ acks → a' = alog_apply op a) ∧
    (is_append op = false → alog_apply op a' = alog_apply op a) ∧
    (undisturbed op ls → r = Ready (Ok tt)).
Proof.
  intros Hr [Ha Hop] E. assert (undisturbed op ls → r = Ready (Ok tt)) as Htot.
  { intros Hu. pose proof (run_op_total op ls a Hr Hu) as Ht. by rewrite E in Ht. }
  assert (is_append op = false → outcome op a (ls_storage ls) (ls_storage ls') r → ls_flushed ls' = ls_flushed ls →
    ∃ acks a', ls_flushed ls' = ls_flushed ls ++ acks ∧ log_rep (ls_storage ls') a' ∧
    log_frame (ls_storage ls) (ls_storage ls') ∧ alog_partial op a a' ∧
    (r = Ready (Ok tt) ∨ None ∈ acks → a' = alog_apply op a) ∧
    (is_append op = false → alog_apply op a' = alog_apply op a) ∧ (undisturbed op ls → r = Ready (Ok tt))) as Hfin.
  { intros Hna (a' & H1' & H2' & H3' & H4') Ef. exists [], a'. rewrite app_nil_r.
    split_and!; [done..| |intros; by apply partial_retry|done]. intros [?|?]; [auto|set_solver]. }
  assert (∀ m : aio (Storage D) unit, run_op op = on_log m → awp m (outcome op a (ls_storage ls)) (ls_storage ls) →
    outcome op a (ls_storage ls) (ls_storage ls') r ∧ ls_flushed ls' = ls_flushed ls) as Hon.
  { intros m Em Hm. rewrite Em in E. unfold on_log in E. unfold awp in Hm. destruct (m (ls_storage ls)) as [s' r'].
    injection E as <- <-. done. }
  destruct op as [v|gc es|p|p].
  - destruct (Hon _ eq_refl) as [? ?]; [by apply save_vote_outcome|auto].
  - pose proof (awp_intro _ _ _ _ _ (append_outcome_ok gc es ls a Hr Ha) E) as (acks & a' & ? & ? & ? & ? & ? & ?).
    exists acks, a'. by split_and!.
  - destruct (Hon _ eq_refl) as [? ?]; [by apply truncate_outcome|auto].
  - destruct (Hon _ eq_refl) as [? ?]; [by apply purge_outcome|auto].
Qed.

(** A healthy store with no failing call answers every read from the
    abstract log: the entries within the bounds in index order, the purge marker
    and the last log id, the vote and the committed hint. *)
Theorem log_store_reads s a from to :
  log_rep s a → no_faults → healthy s → bound_ok from → bound_ok to →
  (try_get_log_entries env group from to s).2 =
    Ready (Ok (filter (λ e, Is_true (above from (idx e) && below to (idx e))) (al_entries a))) ∧
  (get_log_state (R:=R) env group s).2 =
    Ready (Ok (mkLogState (al_purged a)
      (match last (al_entries a) with Some e => Some (en_log_id e) | None => al_purged a end))) ∧
  (read_vote env group s).2 = Ready (Ok (al_vote a)) ∧
  (read_committed env group s).2 = Ready (Ok (mjoin (al_committed a))).
Proof.
  intros Hr Hn Hh Hf Ht. split_and!; [by apply try_get_log_entries_pass|by apply get_log_state_pass|..].
  - unfold read_vote. destruct (read_singleton_pass Vote 0 KEY_VOTE (al_vote a) s a) as (reg & -> & _); [done..|apply Hr|done].
  - unfold read_committed, aio_bind.
    destruct (read_singleton_pass (option RaftLogId) 0 KEY_COMMITTED (al_committed a) s a) as (reg & -> & _); [done..|apply Hr|done].
Qed.

(** ** Purging waits for durability *)

(** The group's durable watermark has reached a log id. *)
Definition durable_covers (p : RaftLogId) (r : ApplyDurabilityRegistry) : Prop :=
  ∃ gs d, rg_groups r !! group = Some gs ∧ gs_durable gs = Some d ∧
    (rl_index p ≤ rl_index d)%N ∧ (rl_index p = rl_index d → p = d).

Lemma durable_covers_fail_all p e r : durable_covers p r → durable_covers p (fail_all e r).
Proof.
  intros (gs & d & Hg & Hd & ?). exists (tracker_fail e gs), d. split_and!; [|by destruct gs as [? ? ? ? ? ? ? ? ? ? ? ? ? ? ? ? ? ? ? ? ? []]|naive_solver..].
  destruct r as [gm f hook calls lim ep]. unfold fail_all. simpl in *.
  destruct (bool_decide (f = None)), hook; simpl; by rewrite lookup_fmap, Hg.
Qed.

Lemma reaches_true current p : reaches current p = Ok true →
  ∃ d, current = Some d ∧ (rl_index p ≤ rl_index d)%N ∧ (rl_index p = rl_index d → p = d).
Proof.
  unfold reaches. destruct current as [d|]; [|done]. destruct (N.ltb_spec (rl_index d) (rl_index p)); [done|].
  destruct (N.eqb_spec (rl_index d) (rl_index p)) as [E|]; simpl.
  - destruct (bool_decide_reflect (d = p)) as [->|]; simpl; [|done]. intros _. by exists p.
  - intros _. exists d. split_and!; [done|lia|]. lia.
Qed.

Lemma wait_durable_covers now started p k r r' :
  registry_wait_durable now started group p k r = (r', Ready (Ok tt)) → durable_covers p r'.
Proof.
  unfold registry_wait_durable, with_tracker. set (r1 := registry_register now group None r).
  set (gs := default _ (rg_groups r1 !! group)). destruct (poll_wait_durable p gs) as [[u|e]|] eqn:Ep; cbn beta iota zeta.
  - intros [= <-]. unfold poll_wait_durable, poll_reaches in Ep. destruct (gs_failed gs); [done|].
    destruct (reaches (gs_durable gs) p) as [[]|] eqn:Er; [|done..].
    apply reaches_true in Er as (d & Hd & ?). exists (tracker_record_wait k (now - started) gs), d.
    destruct r1 as [gm f hook calls lim ep]. simpl. split_and!; [by rewrite lookup_insert_eq| |naive_solver..].
    rewrite <-Hd. by destruct k, gs.
  - intros E. exfalso. revert E. unfold fail_on_corruption. simpl. by destruct e.
  - done.
Qed.

(** C11: A purge answers success, or changes the database at all, only when the
    materialized state of the group is durable up to the purge point. *)
Theorem purge_after_durable p s s' r : purge env group p s = (s', r) →
  r = Ready (Ok tt) ∨ st_db s' ≠ st_db s → durable_covers p (st_apply_durability s').
Proof.
  intros E Hch. cut ((r ≠ Ready (Ok tt) ∧ st_db s' = st_db s) ∨ durable_covers p (st_apply_durability s')).
  { intros [[? ?]|?]; [|done]. destruct Hch; done. }
  clear Hch. revert E. apply (awp_intro _ (λ s' r, (r ≠ Ready (Ok tt) ∧ st_db s' = st_db s) ∨ durable_covers p (st_apply_durability s'))).
  apply awp_bind, awp_log_healthy; [intros reg; cbn [awp_k]|intros reg e; by left].
  apply awp_bind, awp_or_poison. unfold awp at 1, wait_state_durable_for_purge.
  destruct (registry_wait_durable _ _ _ _ _ _) as [reg' [[[]|e]|]] eqn:Ew; cbn [awp_k fst snd]; [|by left..].
  apply wait_durable_covers in Ew. cbn [st_apply_durability set_apply].
  set (s1 := set_apply reg' (set_apply reg s)). assert (durable_covers p (st_apply_durability s1)) as Hd by exact Ew.
  clearbody s1. clear Ew reg reg'.
  assert (∀ ctx n b s1, durable_covers p (st_apply_durability s1) → awp (or_poison ctx (db_write env n b))
    (λ s' r, durable_covers p (st_apply_durability s')) s1) as Hw.
  { intros ctx n b s2 Hs2. apply awp_or_poison, awp_db_write. intros s3 [[]|e] Hs3 _; cbn;
      [|apply durable_covers_fail_all]; by destruct Hs3 as [-> | ->]. }
  assert (∀ ctx n b (k : aio (Storage D) unit) s1, durable_covers p (st_apply_durability s1) →
    (∀ s2, durable_covers p (st_apply_durability s2) → awp k (λ s' r, durable_covers p (st_apply_durability s')) s2) →
    awp (or_poison ctx (db_write env n b) ;;~ k) (λ s' r, durable_covers p (st_apply_durability s')) s1) as Hwk.
  { intros ctx n b k s2 Hs2 Hk. apply awp_bind. eapply awp_mono; [by apply Hw|]. intros s3 [[[]|e]|] Hs3; cbn; auto. }
  eapply awp_mono; [|intros s2 r2 Hq; by right; exact Hq].
  apply awp_bind. unfold open_log. apply awp_or_poison, awp_read. destruct (log_cf s1 group) as [cf|e]; cbn [awp_k].
  - apply Hwk; [done|]. intros s2 Hs2. apply Hwk; [done|]. intros s3 Hs3. by apply Hw.
  - by apply durable_covers_fail_all.
Qed.
End store.
