(* ===== verification/InstallProofs.v ===== *)
(** * Snapshot installation is atomic

    [install_snapshot_atomic]: an install either replaces the whole state of
    its group by the records of the stream or changes no group's state, whichever
    database call fails.
    [snapshot_transfer]: what one replica builds and another installs. *)

From S2P Require Import Prelude BTree Types Codec SearchDef Keyspace Outbox ApplyDurability Aio Rocks Storage DataSM SearchStore ApplyRaft LogStore Snapshot Install DataSpec Bincode Demo Oracles DataProofs ApplyRaftProofs LogStoreProofs.

(** ** Names of staged generations *)

Definition staged_name (group : GroupId) (generation : N) : string :=
  cf_state group +:+ "__snapshot_" +:+ pretty generation.

Lemma staged_name_valid group n : valid_cf_name group (staged_name group n).
Proof. exists ("__snapshot_" +:+ pretty n). split; [right; by eexists|done]. Qed.

Lemma staged_name_wf group n : wf group → (n ≤ u64_max)%N → wf (staged_name group n).
Proof.
  intros Hg Hn.
  pose proof (token_ascii group) as Ht. pose proof (token_length group Hg) as Hl.
  unfold staged_name, cf_state. split.
  - rewrite <-length_as_bytes, !as_bytes_app, !length_app, !length_as_bytes. pose proof (pretty_length n Hn).
    unfold u64_max. simpl. lia.
  - unfold utf8_string, utf8_valid. apply bool_decide_eq_true, utf8_ascii. rewrite !as_bytes_app.
    rewrite !Forall_app. split_and!; [repeat constructor; vm_compute; reflexivity|done|repeat constructor; vm_compute; reflexivity|].
    apply all_digits_ascii, all_digits_pretty.
Qed.

Lemma generation_not_pointer g h : state_cf_generation_key g ≠ state_cf_pointer_key h.
Proof. unfold state_cf_generation_key, state_cf_pointer_key, state_cf_pointer_prefix. cbn. intros [=]. Qed.

(** ** What staging leaves alone *)

Section frame.
Context `{RocksOk D} `{!Codec U64, !Codec U128, !Codec string, !Codec RaftApplied, !Codec SearchConsumerState} `{HashesOk}.
Implicit Types (env : InstallEnv) (s : Storage D) (group : GroupId).

(** Only the staging column family [name], the generation counter of [group]
    and cached pointers have changed. *)
Record staging_frame group (name : string) s s' : Prop := {
  sf_active h : st_active_state_cfs s' !! h = st_active_state_cfs s !! h ∨
    (st_active_state_cfs s !! h = None ∧ ∃ n, st_active_state_cfs s' !! h = Some n ∧ pointer_name s h = Ok n);
  sf_local k : k ≠ state_cf_generation_key group → db_get (st_db s') k = db_get (st_db s) k;
  sf_exists n : n ≠ name → cf_exists (st_db s') n = cf_exists (st_db s) n;
  sf_get cf k : cf ≠ name → cf ≠ DEFAULT_CF → cf_exists (st_db s) cf = true →
    get_cf (st_db s') cf k = get_cf (st_db s) cf k;
}.

Lemma staging_frame_refl group name s : staging_frame group name s s.
Proof. constructor; auto. Qed.

Lemma staging_pointer group name s s' h : staging_frame group name s s' → pointer_name s' h = pointer_name s h.
Proof.
  intros Hf. unfold pointer_name, get_local.
  by rewrite (sf_local _ _ _ _ Hf) by (intros E; by apply (generation_not_pointer group h)).
Qed.

Lemma staging_frame_trans group name s1 s2 s3 :
  staging_frame group name s1 s2 → staging_frame group name s2 s3 → staging_frame group name s1 s3.
Proof.
  intros F1 F2. pose proof (λ h, staging_pointer _ _ _ _ h F1) as Hp.
  destruct F1 as [A1 L1 E1 G1], F2 as [A2 L2 E2 G2]. constructor.
  - intros h. destruct (A2 h) as [-> |(Hn & n & Hs & Hpt)]; [apply A1|]. right. rewrite Hp in Hpt.
    destruct (A1 h) as [E|(Hn' & n' & E & _)]; [rewrite <-E; eauto|congruence].
  - intros k Hk. by rewrite L2, L1.
  - intros n Hn. by rewrite E2, E1.
  - intros cf k Hn Hd He. rewrite G2, G1; [done..|by rewrite E1].
Qed.

Lemma staging_frame_apply group name s s' reg : staging_frame group name s s' → staging_frame group name s (set_apply reg s').
Proof. intros []. by constructor. Qed.

(** Groups see none of it. *)
Record quiet s s' : Prop := {
  qu_cache : cache_ok s';
  qu_cf h : state_cf s' h = state_cf s h;
  qu_get h k : get_state s' h k = get_state s h k;
  qu_log h k : cf_exists (st_db s) (cf_log h) = true →
    cf_exists (st_db s') (cf_log h) = true ∧ get_cf (st_db s') (cf_log h) k = get_cf (st_db s) (cf_log h) k;
}.

Lemma staging_active group name s s' h : staging_frame group name s s' →
  active_state_cf_name s' h = active_state_cf_name s h.
Proof.
  intros Hf. unfold active_state_cf_name. rewrite (staging_pointer group name s s' h Hf).
  destruct (sf_active _ _ _ _ Hf h) as [-> |(-> & n & -> & Hp)]; [done|]. by rewrite Hp.
Qed.

Lemma staging_cache group name s s' : staging_frame group name s s' → cache_ok s → cache_ok s'.
Proof.
  intros Hf Hc h n Hn. rewrite (staging_pointer group name s s' h Hf).
  destruct (sf_active _ _ _ _ Hf h) as [E|(_ & n' & E & Hp)]; [apply Hc; by rewrite <-E|congruence].
Qed.

(** A name no group reads. *)
Definition unread group (name : string) s : Prop :=
  (∀ h, cf_log h ≠ name) ∧ ∀ h n, active_state_cf_name s h = Ok n → cf_exists (st_db s) n = true ∨ h ≠ group → n ≠ name.

Lemma unread_staged group name s : cache_ok s → valid_cf_name group name → cf_exists (st_db s) name = false → unread group name s.
Proof.
  intros Hc Hv Hn. split; [intros h E; by apply (valid_cf_name_log group h name)|].
  intros h n Ha [He|Hh] ->; [congruence|]. apply Hh. by eapply valid_cf_name_inj; [eapply active_name_valid|].
Qed.

Lemma unread_default group s : cache_ok s → unread group DEFAULT_CF s.
Proof. intros Hc. split; [done|]. intros h n Ha _. by eapply valid_cf_name_default, active_name_valid. Qed.

Lemma staging_quiet group name s s' : cache_ok s → is_ok (state_cf s group) = true → unread group name s →
  staging_frame group name s s' → quiet s s'.
Proof.
  intros Hc Ho [Hl Hne] Hf.
  assert (∀ h, state_cf s' h = state_cf s h) as Hcf.
  { intros h. unfold state_cf. rewrite (staging_active group name s s' h Hf).
    destruct (active_state_cf_name s h) as [n|] eqn:Ea; [|done]. cbn [rbind].
    rewrite (sf_exists _ _ _ _ Hf); [done|]. apply (Hne h n Ea).
    destruct (decide (h = group)) as [->|]; [left|by right].
    unfold state_cf in Ho. rewrite Ea in Ho. cbn [rbind] in Ho. by destruct (cf_exists (st_db s) n). }
  constructor; [by eapply staging_cache|done| |].
  - intros h k. unfold get_state. rewrite Hcf. destruct (state_cf s h) as [n|] eqn:En; [|done]. cbn [rbind]. f_equal.
    destruct (state_cf_valid s h n Hc En) as [Hvn Hen]. apply rbind_ok in En as (n' & Hn' & En).
    destruct (cf_exists (st_db s) n') eqn:En'; [|done]. injection En as ->.
    apply (sf_get _ _ _ _ Hf); [by apply (Hne h n); [|left]|by eapply valid_cf_name_default|done].
  - intros h k He. rewrite (sf_exists _ _ _ _ Hf) by done. split; [done|]. by apply (sf_get _ _ _ _ Hf).
Qed.

(** ** The steps of staging *)

Lemma write_staging group name s b : Forall (λ o, op_cf o = name) b → name ≠ DEFAULT_CF →
  staging_frame group name s (set_db (write (st_db s) b) s).
Proof.
  intros Hb Hd. constructor; cbn [st_db set_db st_active_state_cfs]; [by left| | |].
  - intros k _. rewrite db_get_write. apply batch_get_other_cf. eapply Forall_impl; [exact Hb|]. by intros op ->.
  - intros n _. apply exists_write.
  - intros cf k Hn _ He. rewrite get_write by done. apply batch_get_other_cf. eapply Forall_impl; [exact Hb|].
    intros op -> E. by subst.
Qed.

Lemma generation_staging group name s v :
  staging_frame group name s (set_db (db_put (st_db s) (state_cf_generation_key group) v) s).
Proof.
  constructor; cbn [st_db set_db st_active_state_cfs]; unfold db_put; [by left| | |].
  - intros k Hk. rewrite db_get_write. simpl. by rewrite decide_False by naive_solver.
  - intros n _. apply exists_write.
  - intros cf k _ Hd He. rewrite get_write by done. simpl. by rewrite decide_False by naive_solver.
Qed.

Lemma create_staging group name s : name ≠ DEFAULT_CF → staging_frame group name s (set_db (create_cf (st_db s) name) s).
Proof.
  intros Hd. constructor; cbn [st_db set_db st_active_state_cfs]; [by left| | |].
  - intros k _. unfold db_get. by apply get_create_ne.
  - intros n Hn. rewrite exists_create. by rewrite bool_decide_false.
  - intros cf k Hn _ He. by apply get_create_ne.
Qed.

Lemma drop_staging group name s : name ≠ DEFAULT_CF → staging_frame group name s (set_db (drop_cf (st_db s) name) s).
Proof.
  intros Hd. constructor; cbn [st_db set_db st_active_state_cfs]; [by left| | |].
  - intros k _. unfold db_get. by apply get_drop_ne.
  - intros n Hn. rewrite exists_drop by done. by rewrite bool_decide_false.
  - intros cf k Hn _ He. by apply get_drop_ne.
Qed.
End frame.

Section steps.
Context `{RocksOk D} `{!Codec U64, !Codec U128, !Codec string, !Codec RaftApplied, !Codec SearchConsumerState} `{HashesOk}.
Implicit Types (env : InstallEnv) (s : Storage D) (group : GroupId).

(** A fresh staging column family, or nothing but the generation counter. *)
Lemma begin_state_install_spec env group s s' r : begin_state_install env group s = (s', r) →
  match r with
  | Ok i => ∃ n, (n ≤ u64_max)%N ∧ i = mkInstaller group (staged_name group n) [] None false ∧
      cf_exists (st_db s) (staged_name group n) = false ∧ cf_exists (st_db s') (staged_name group n) = true ∧
      (∀ k, get_cf (st_db s') (staged_name group n) k = None) ∧ staging_frame group (staged_name group n) s s'
  | Err _ => staging_frame group DEFAULT_CF s s'
  end.
Proof.
  unfold begin_state_install, try_call, io_bind, io_read, put_local, io_modify, io_err, io_ret.
  destruct (or_zero _) as [stored|e]; [|intros [= <- <-]; apply staging_frame_refl].
  destruct (ok_or _ _) as [n|e] eqn:En; [|intros [= <- <-]; apply staging_frame_refl].
  apply ok_or_ok, checked_add_Some in En as [En Hn]. rewrite <-En in Hn. clear En.
  cbv beta iota zeta. fold (staged_name group n).
  destruct (ie_write env _) as [e|]; [intros [= <- <-]; apply staging_frame_refl|]. set (s1 := set_db (db_put _ _ _) s).
  assert (∀ name, staging_frame group name s s1) as Hf1 by (intros; apply generation_staging).
  pose proof (staged_name_valid group n) as Hv. pose proof (valid_cf_name_default _ _ Hv) as Hd.
  destruct (cf_exists (st_db s1) (staged_name group n)) eqn:Ee; [intros [= <- <-]; apply Hf1|].
  destruct (ie_create env) as [e|]; [intros [= <- <-]; apply Hf1|]. set (s2 := set_db (create_cf (st_db s1) (staged_name group n)) s1).
  assert (cf_exists (st_db s2) (staged_name group n) = true) as Hopen.
  { unfold s2. cbn [st_db set_db]. rewrite exists_create. by rewrite bool_decide_true. }
  rewrite Hopen. intros [= <- <-]. exists n. split_and!; [done|done| |done| |].
  - revert Ee. unfold s1. cbn [st_db set_db]. unfold db_put. by rewrite exists_write.
  - intros k. unfold s2. cbn [st_db set_db]. by apply get_create.
  - eapply staging_frame_trans; [apply Hf1|]. by apply create_staging.
Qed.

(** ** Filling the staging column family *)

(** The value the staged generation will have under a key. *)
Definition pend (x : Storage D * StateInstaller) (k : bytes) : option bytes :=
  batch_get (in_name x.2) k (in_batch x.2) (get_cf (st_db x.1) (in_name x.2) k).

Record staging group (name : string) s0 (x : Storage D * StateInstaller) : Prop := {
  sg_frame : staging_frame group name s0 x.1;
  sg_open : cf_exists (st_db x.1) name = true;
  sg_name : in_name x.2 = name;
  sg_group : in_group x.2 = group;
  sg_inactive : in_activated x.2 = false;
  sg_batch : Forall (λ o, op_cf o = name) (in_batch x.2);
}.

Lemma flush_batch_spec env group name s0 x : name ≠ DEFAULT_CF → staging group name s0 x →
  ∃ x' r, flush_batch env x = (x', r) ∧ staging group name s0 x' ∧ in_last_key x'.2 = in_last_key x.2 ∧ in_batch x'.2 = [] ∧
    (r = Ok tt → ∀ k, pend x' k = pend x k).
Proof.
  destruct x as [s i]. intros Hd [Hf Ho Hn Hg Ha Hb]. simpl in *. unfold flush_batch.
  destruct (in_batch i) as [|op b] eqn:Eb.
  { exists (s, i), (Ok tt). split_and!; [done| |done|done|done]. constructor; simpl; try done. rewrite Eb. constructor. }
  destruct (ie_write env (op :: b)) as [e|]; eexists _, _; (split; [done|]); split_and!; try done.
  constructor; simpl; try done; [|by rewrite exists_write]. eapply staging_frame_trans; [exact Hf|]. by apply write_staging.
  intros _ k. unfold pend. cbn [fst snd in_name in_batch set_batch st_db set_db]. rewrite Hn, Eb. by rewrite get_write.
Qed.

Lemma installer_put_spec env group name s0 x k v : name ≠ DEFAULT_CF → staging group name s0 x →
  staging group name s0 (installer_put env k v x).1 ∧
  ((installer_put env k v x).2 = Ok tt →
     in_last_key (installer_put env k v x).1.2 = Some k ∧
     (∀ p, in_last_key x.2 = Some p → bytes_lt p k) ∧
     ∀ k', pend (installer_put env k v x).1 k' = if decide (k = k') then Some v else pend x k').
Proof.
  intros Hd Hx. pose proof Hx as [Hf Ho Hn Hg Ha Hb]. destruct x as [s i]. simpl in *. unfold installer_put.
  set (bad := match in_last_key i with Some _ => _ | None => _ end). destruct bad eqn:Ebad; [done|].
  rewrite Hn, Ho. cbn [negb]. cbv zeta. cbn [in_group in_name in_activated].
  set (i1 := mkInstaller _ _ (in_batch i ++ [BatchPut name k v]) (Some k) (in_activated i)).
  assert (staging group name s0 (s, i1)) as Hx1.
  { constructor; simpl; try done. apply Forall_app. split; [done|by repeat constructor]. }
  assert (∀ p, in_last_key i = Some p → bytes_lt p k) as Hlt.
  { intros p Hp. unfold bad in Ebad. rewrite Hp in Ebad. apply bool_decide_eq_false in Ebad.
    destruct (bytes_le_total p k) as [Hle|Hle]; [|done]. split; [done|]. intros ->. done. }
  assert (∀ k', pend (s, i1) k' = if decide (k = k') then Some v else pend (s, i) k') as Hp.
  { intros k'. unfold pend. cbn [fst snd in_name in_batch i1]. rewrite batch_get_app, Hn. simpl.
    repeat case_decide; naive_solver. }
  destruct (_ <=? _)%N; [|done]. change (staging group name s0 (flush_batch env (s, i1)).1 ∧ ((flush_batch env (s, i1)).2 = Ok tt →
    in_last_key (flush_batch env (s, i1)).1.2 = Some k ∧ (∀ p, in_last_key i = Some p → bytes_lt p k) ∧
    ∀ k', pend (flush_batch env (s, i1)).1 k' = if decide (k = k') then Some v else pend (s, i) k')).
  destruct (flush_batch_spec env group name s0 (s, i1) Hd Hx1) as (x' & r & -> & Hx' & Hl & _ & Hp'). cbn [fst snd].
  split; [done|]. intros Hr. split_and!; [by rewrite Hl|done|]. intros k'. by rewrite Hp'.
Qed.

Definition kv_get (rs : list (bytes * bytes)) (k : bytes) (o : option bytes) : option bytes :=
  foldl (λ o kv, if decide (kv.1 = k) then Some kv.2 else o) o rs.

Lemma run_installer_put env group name s0 rs : ∀ x x', name ≠ DEFAULT_CF → staging group name s0 x →
  run_records (installer_put env) rs x = (x', Ok tt) →
  staging group name s0 x' ∧ (∀ k, pend x' k = kv_get rs k (pend x k)) ∧
  StronglySorted bytes_lt (from_option (λ p, [p]) [] (in_last_key x.2) ++ rs.*1).
Proof.
  induction rs as [|[k v] rs IH]; intros x x' Hd Hx; cbn [run_records].
  { intros [= <-]. split_and!; [done|done|]. destruct (in_last_key x.2); simpl; repeat constructor. }
  unfold io_bind. destruct (installer_put_spec env group name s0 x k v Hd Hx) as [Hx1 Hok].
  destruct (installer_put env k v x) as [x1 [[]|e]]; [|done]. cbn [fst snd] in *.
  destruct (Hok eq_refl) as (Hl & Hlt & Hp). intros Hrun.
  destruct (IH x1 x' Hd Hx1 Hrun) as (Hx' & Hp' & Hs). split_and!; [done| |].
  - intros k'. rewrite Hp', Hp. done.
  - rewrite Hl in Hs. simpl in Hs. destruct (in_last_key x.2) as [p|]; [|done]. simpl.
    specialize (Hlt p eq_refl). constructor; [done|]. apply StronglySorted_inv in Hs as [_ Hs].
    constructor; [done|]. eapply Forall_impl; [exact Hs|]. intros q [Hle Hne]. destruct Hlt as [Hle' Hne'].
    split; [by etrans|]. intros ->. apply Hne. by apply (anti_symm bytes_le).
Qed.

(** ** Switching the pointer *)

Lemma active_locked_spec g s : ∃ s', active_state_cf_name_locked g s = (s', active_state_cf_name s g) ∧
  st_db s' = st_db s ∧ ∀ group name, staging_frame group name s s'.
Proof.
  unfold active_state_cf_name_locked, active_state_cf_name.
  destruct (st_active_state_cfs s !! g) as [n|] eqn:Ea.
  { exists s. split_and!; [done|done|]. intros. apply staging_frame_refl. }
  destruct (pointer_name s g) as [n|e] eqn:Ep.
  2: { exists s. split_and!; [done|done|]. intros. apply staging_frame_refl. }
  eexists. split_and!; [done|done|]. intros group name. constructor; simpl; try done.
  intros h. destruct (decide (g = h)) as [<-|Hne]; [|left; by rewrite lookup_insert_ne].
  right. split; [done|]. exists n. by rewrite lookup_insert_eq.
Qed.

(** A group whose state has been replaced by [look]. *)
Record installed group s s' (look : bytes → option bytes) : Prop := {
  ins_cache : cache_ok s';
  ins_get k : get_state s' group k = Ok (look k);
  ins_other h k : h ≠ group → get_state s' h k = get_state s h k;
  ins_log h k : cf_exists (st_db s) (cf_log h) = true →
    cf_exists (st_db s') (cf_log h) = true ∧ get_cf (st_db s') (cf_log h) k = get_cf (st_db s) (cf_log h) k;
  ins_search e : is_data group = true → search_projection_epoch s group = Ok e →
    search_projection_epoch s' group = Ok (e + 1)%N;
}.

Lemma search_epoch_not_pointer g h : search_epoch_key g ≠ state_cf_pointer_key h.
Proof. unfold search_epoch_key, search_prefix. apply search_key_not_pointer. Qed.

Lemma search_epoch_not_generation g h : search_epoch_key g ≠ state_cf_generation_key h.
Proof. unfold search_epoch_key, search_prefix, state_cf_generation_key. cbn. intros [=]. Qed.

Lemma local_epoch_not_pointer h : local_recovery_epoch_key ≠ state_cf_pointer_key h.
Proof. unfold local_recovery_epoch_key, state_cf_pointer_key, state_cf_pointer_prefix. cbn. intros [=]. Qed.

Lemma local_epoch_not_search h : local_recovery_epoch_key ≠ search_epoch_key h.
Proof. unfold local_recovery_epoch_key, search_epoch_key, search_prefix. cbn. intros [=]. Qed.

(** The pointer batch moves one pointer, to the staged name. *)
Lemma pointer_batch_spec group name i s epoch ptr : in_group i = group → in_name i = name →
  pointer_batch s i epoch = Ok ptr →
  Forall (λ o, op_cf o = DEFAULT_CF) ptr ∧
  (∀ old, batch_get DEFAULT_CF (state_cf_pointer_key group) ptr old = Some (encode name)) ∧
  (∀ h old, h ≠ group → batch_get DEFAULT_CF (state_cf_pointer_key h) ptr old = old) ∧
  (is_data group = true → ∀ old, ∃ e, search_projection_epoch s group = Ok e ∧ (e + 1 ≤ u64_max)%N ∧
     batch_get DEFAULT_CF (search_epoch_key group) ptr old = Some (encode ((e + 1)%N : U64))).
Proof.
  intros <- <-. unfold pointer_batch. destruct (is_data (in_group i)) eqn:Ed.
  - intros (e & He & E)%rbind_ok. apply rbind_ok in E as (n & Hn & [= <-]).
    apply ok_or_ok, checked_add_Some in Hn as [-> Hn].
    pose proof (local_epoch_not_pointer (in_group i)) as N1. pose proof (search_epoch_not_pointer (in_group i) (in_group i)) as N2.
    split_and!; [by repeat constructor|..].
    + intros old. unfold batch_get. cbn [app foldl batch_op_apply]. rewrite (decide_False (P:=DEFAULT_CF = DEFAULT_CF ∧ search_epoch_key _ = _)) by naive_solver.
      by rewrite decide_True by done.
    + intros h old Hh. pose proof (local_epoch_not_pointer h). pose proof (search_epoch_not_pointer (in_group i) h).
      unfold batch_get. cbn [app foldl batch_op_apply]. rewrite !decide_False; [done|naive_solver| |naive_solver]. intros [_ E%pointer_key_inj]. congruence.
    + intros _ old. exists e. split_and!; [done|done|]. unfold batch_get. cbn [app foldl batch_op_apply]. by rewrite decide_True by done.
  - intros [= <-]. pose proof (local_epoch_not_pointer (in_group i)) as N1.
    split_and!; [by repeat constructor|..|done].
    + intros old. unfold batch_get. cbn [foldl batch_op_apply]. by rewrite decide_True by done.
    + intros h old Hh. pose proof (local_epoch_not_pointer h). unfold batch_get. cbn [foldl batch_op_apply]. rewrite !decide_False; [done|naive_solver|].
      intros [_ E%pointer_key_inj]. congruence.
Qed.

(** The store after the switch, whether or not the old generation was dropped. *)
Record switched group (name old : string) (ptr : list BatchOp) s s' : Prop := {
  sw_active : st_active_state_cfs s' = <[group := name]> (st_active_state_cfs s);
  sw_local k : db_get (st_db s') k = batch_get DEFAULT_CF k ptr (db_get (st_db s) k);
  sw_exists n : n ≠ old → cf_exists (st_db s') n = cf_exists (st_db s) n;
  sw_get cf k : cf ≠ DEFAULT_CF → cf ≠ old → cf_exists (st_db s) cf = true → get_cf (st_db s') cf k = get_cf (st_db s) cf k;
}.

Lemma switched_written group name old ptr s : Forall (λ o, op_cf o = DEFAULT_CF) ptr →
  switched group name old ptr s (set_active (<[group := name]> (st_active_state_cfs s)) (set_db (write (st_db s) ptr) s)).
Proof.
  intros Hp. constructor; cbn [st_db set_db set_active st_active_state_cfs]; [done|intros; apply db_get_write|intros; apply exists_write|].
  intros cf k Hd _ He. rewrite get_write by done. apply batch_get_other_cf.
  eapply Forall_impl; [exact Hp|]. intros op -> E. by subst.
Qed.

Lemma switched_dropped group name old ptr s s' : old ≠ DEFAULT_CF → switched group name old ptr s s' →
  switched group name old ptr s (set_db (drop_cf (st_db s') old) s').
Proof.
  intros Hd [A L E G]. constructor; cbn [st_db set_db st_active_state_cfs]; [done| | |].
  - intros k. rewrite <-L. unfold db_get. by apply get_drop_ne.
  - intros n Hn. rewrite exists_drop by done. rewrite bool_decide_false by done. by apply E.
  - intros cf k H1' H2' He. rewrite get_drop_ne by done. by apply G.
Qed.

Lemma switched_installed group n s0 s i epoch ptr old s' :
  let name := staged_name group n in
  cache_ok s0 → wf group → (n ≤ u64_max)%N → cf_exists (st_db s0) name = false → is_ok (state_cf s0 group) = true →
  staging_frame group name s0 s → cf_exists (st_db s) name = true → active_state_cf_name s group = Ok old →
  in_group i = group → in_name i = name → pointer_batch s i epoch = Ok ptr →
  switched group name old ptr s s' → installed group s0 s' (λ k, get_cf (st_db s) name k).
Proof.
  intros name Hc0 Hg Hn Hn0 Ho0 Hf Ho Ha Hig Hin Hptr [A L E G].
  pose proof (staged_name_valid group n) as Hv. fold name in Hv. pose proof (staging_cache _ _ _ _ Hf Hc0) as Hc.
  destruct (pointer_batch_spec group name i s epoch ptr Hig Hin Hptr) as (_ & Hpg & Hph & Hps).
  assert (valid_cf_name group old) as Hvo by (by eapply active_name_valid).
  assert (old ≠ name) as Hon.
  { intros ->. rewrite (staging_active _ _ _ _ group Hf) in Ha. unfold state_cf in Ho0. rewrite Ha in Ho0. cbn [rbind] in Ho0.
    rewrite Hn0 in Ho0. done. }
  assert (∀ h, pointer_name s' h = if decide (h = group) then Ok name else pointer_name s h) as Hp.
  { intros h. unfold pointer_name, get_local. rewrite L. case_decide as Eh.
    - subst h. rewrite Hpg. cbn [decode_opt]. rewrite decode_encode by (by apply staged_name_wf). cbn [rbind]. cbn [from_option]. unfold id at 1 2 3.
      cbv zeta. assert (String.prefix (cf_state group +:+ "__snapshot_") name = true) as ->.
      { apply string_prefix_spec. exists (pretty n). unfold name, staged_name. by rewrite string_app_assoc. }
      by rewrite andb_false_r.
    - by rewrite Hph. }
  assert (cache_ok s') as Hc'.
  { intros h m. rewrite A, Hp. rewrite lookup_insert_Some. intros [[<- <-]|[Hne Hm]]; [by rewrite decide_True|].
    rewrite decide_False by done. by apply Hc. }
  assert (∀ h, active_state_cf_name s' h = if decide (h = group) then Ok name else active_state_cf_name s h) as Ha'.
  { intros h. unfold active_state_cf_name. rewrite A, Hp. case_decide as Eh; [subst h; by rewrite lookup_insert_eq|].
    by rewrite lookup_insert_ne. }
  destruct (staging_quiet group name s0 s Hc0 Ho0 (unread_staged _ _ _ Hc0 Hv Hn0) Hf) as [_ Hq2 Hq3 Hq4].
  constructor; [done| | | |].
  - intros k. unfold get_state, state_cf. rewrite Ha', decide_True by done. cbn [rbind].
    rewrite E by done. rewrite Ho. cbn [rbind]. f_equal. apply G; [by eapply valid_cf_name_default|done|done].
  - intros h k Hh. rewrite <-Hq3. unfold get_state, state_cf. rewrite Ha', decide_False by done.
    destruct (active_state_cf_name s h) as [m|] eqn:Eh; [|done]. cbn [rbind].
    assert (m ≠ old) as Hmo.
    { intros ->. apply Hh. exact (valid_cf_name_inj h group old (active_name_valid _ _ _ Hc Eh) Hvo). }
    rewrite E by done. destruct (cf_exists (st_db s) m) eqn:Em; [|done]. cbn [rbind]. f_equal.
    apply G; [exact (valid_cf_name_default h m (active_name_valid _ _ _ Hc Eh))|done|done].
  - intros h k He. destruct (Hq4 h k He) as [He1 Hg1]. rewrite <-Hg1.
    assert (cf_log h ≠ old) as Hlo by (intros Eo; by apply (valid_cf_name_log group h old)).
    rewrite E by done. split; [done|]. by apply G.
  - intros e Hd He. destruct (Hps Hd (db_get (st_db s) (search_epoch_key group))) as (e' & He' & Hle & Hb).
    assert (∀ x y, db_get (st_db x) (search_epoch_key group) = db_get (st_db y) (search_epoch_key group) →
      search_projection_epoch x group = search_projection_epoch y group) as Hsame.
    { intros x y Exy. unfold search_projection_epoch, get_local. by rewrite Exy. }
    rewrite (Hsame s s0) in He' by (apply (sf_local _ _ _ _ Hf), search_epoch_not_generation).
    assert (e' = e) as -> by congruence. destruct group as [|p]; [done|].
    unfold search_projection_epoch, get_local. rewrite L, Hb. cbn [decode_opt]. rewrite decode_encode by done. done.
Qed.

(** A step that stops leaves the staging state. *)
Lemma staging_store group name s0 s s1 i : staging group name s0 (s, i) → st_db s1 = st_db s →
  staging_frame group name s s1 → staging group name s0 (s1, i).
Proof.
  intros [Hf Ho Hn Hg Ha Hb] Hdb Hf1. constructor; simpl in *; try done; [by eapply staging_frame_trans|by rewrite Hdb].
Qed.

(** The tail of [finish], from the pointer lookup on. *)
Lemma finish_switch env group n s0 s i epoch old ptr x' r :
  let name := staged_name group n in
  cache_ok s0 → wf group → (n ≤ u64_max)%N → cf_exists (st_db s0) name = false → is_ok (state_cf s0 group) = true →
  staging group name s0 (s, i) → active_state_cf_name s group = Ok old → pointer_batch s i epoch = Ok ptr →
  let s1 := set_active (<[group := name]> (st_active_state_cfs s)) (set_db (write (st_db s) ptr) s) in
  let i1 := mkInstaller (in_group i) (in_name i) (in_batch i) (in_last_key i) true in
  (if negb (bool_decide (old = name)) && cf_exists (st_db s) old
   then on_store (retire_state_cf env old) (s1, i1) else ((s1, i1), Ok tt)) = (x', r) →
  (∀ e, r = Err e → ie_drop env = Some e) ∧ in_activated x'.2 = true ∧ installed group s0 x'.1 (λ k, get_cf (st_db s) name k).
Proof.
  intros name Hc0 Hg Hn Hn0 Ho0 [Hf Ho Hin Hig Hia Hb] Ha Hptr s1 i1 E. simpl in *.
  destruct (pointer_batch_spec group name i s epoch ptr Hig Hin Hptr) as (Hd & _).
  pose proof (switched_written group name old ptr s Hd) as Hsw. fold s1 in Hsw.
  assert (valid_cf_name group old) as Hvo.
  { eapply active_name_valid; [|exact Ha]. by eapply staging_cache. }
  assert (∀ s', switched group name old ptr s s' → installed group s0 s' (λ k, get_cf (st_db s) name k)) as Hins.
  { intros s' Hs'. by eapply switched_installed. }
  assert (∃ s', x' = (s', i1) ∧ (∀ e, r = Err e → ie_drop env = Some e) ∧ switched group name old ptr s s') as (s' & -> & Hr & Hs'); [|auto].
  revert E. unfold on_store, retire_state_cf, try_call, io_bind, io_read, io_modify.
  destruct (_ && _); [|intros [= <- <-]; by eexists]. destruct (_ && _); [|intros [= <- <-]; by eexists].
  destruct (ie_drop env) as [e|]; intros [= <- <-]; eexists; split_and!; [done|by intros ? [= <-]|done|done|done|].
  apply (switched_dropped group name old ptr s s1); [by eapply valid_cf_name_default|done].
Qed.

Lemma finish_spec env ar group n s0 x x' r :
  let name := staged_name group n in
  cache_ok s0 → wf group → (n ≤ u64_max)%N → cf_exists (st_db s0) name = false → is_ok (state_cf s0 group) = true →
  staging group name s0 x → finish env ar x = (x', r) →
  (staging group name s0 x' ∧ is_ok r = false) ∨
  ((∀ e, r = Err e → ie_drop env = Some e) ∧ in_activated x'.2 = true ∧
   installed group s0 x'.1 (λ k, if decide (raft_applied_key = k) then Some ar else pend x k)).
Proof.
  intros name Hc0 Hg Hn Hn0 Ho0 Hx. pose proof Hx as [Hf Ho Hin Hig Hia Hb]. destruct x as [s i]. simpl in Hf, Ho, Hin, Hig, Hia, Hb.
  assert (name ≠ DEFAULT_CF) as Hd by (eapply valid_cf_name_default, staged_name_valid).
  unfold finish, try_call, io_bind, io_read, io_modify. rewrite Hin, Ho. cbv beta iota zeta.
  set (i1 := set_batch _ i).
  assert (staging group name s0 (s, i1)) as Hx1.
  { constructor; simpl; try done. apply Forall_app. split; [done|by repeat constructor]. }
  assert (∀ k, pend (s, i1) k = if decide (raft_applied_key = k) then Some ar else pend (s, i) k) as Hp1.
  { intros k. unfold pend. cbn [fst snd in_name in_batch i1 set_batch]. rewrite batch_get_app, Hin. unfold batch_get at 1.
    cbn [foldl batch_op_apply]. repeat case_decide; naive_solver. }
  destruct (flush_batch_spec env group name s0 (s, i1) Hd Hx1) as ([s2 i2] & rf & -> & Hx2 & _ & Hb2 & Hp2).
  destruct rf as [[]|e]; [specialize (Hp2 eq_refl)|intros [= <- <-]; by left].
  destruct (ie_flush_wal env); [intros [= <- <-]; by left|].
  pose proof Hx2 as [Hf2 Ho2 Hin2 Hig2 Hia2 _]. simpl in Hf2, Ho2, Hin2, Hig2, Hia2, Hb2. rewrite Hin2, Ho2. cbv beta iota zeta.
  assert (∀ k, get_cf (st_db s2) name k = pend (s2, i2) k) as Hg2.
  { intros k. unfold pend. cbn [fst snd]. by rewrite Hb2, Hin2. }
  destruct (or_zero _) as [epoch|e]; [|intros [= <- <-]; by left].
  destruct (local_recovery_epoch s2) as [local|e]; [|intros [= <- <-]; by left].
  destruct (negb (local =? 0)%N && negb (epoch =? local)%N); [intros [= <- <-]; by left|].
  unfold on_store at 1. rewrite Hig2.
  destruct (active_locked_spec group s2) as (s3 & -> & Hdb3 & Hf3).
  assert (staging group name s0 (s3, i2)) as Hx3 by (by eapply staging_store).
  destruct (active_state_cf_name s2 group) as [old|e] eqn:Ea; [|intros [= <- <-]; by left].
  assert (active_state_cf_name s3 group = Ok old) as Ea3.
  { by rewrite (staging_active group name s2 s3 group (Hf3 _ _)). }
  destruct (pointer_batch s3 i2 epoch) as [ptr|e] eqn:Eptr; [|intros [= <- <-]; by left].
  destruct (ie_write env ptr); [intros [= <- <-]; by left|]. rewrite Hig2, Hin2. intros E. right.
  destruct (finish_switch env group n s0 s3 i2 epoch old ptr x' r) as (Hr & Hact & Hins); [done..| |].
  { rewrite Hig2, Hin2. exact E. }
  split_and!; [done|done|]. destruct Hins as [I1 I2 I3 I4 I5]. constructor; [done| |done..].
  intros k. rewrite I2. f_equal. rewrite Hdb3. fold name. rewrite Hg2, Hp2, Hp1. done.
Qed.

Lemma kv_get_map rs : NoDup rs.*1 → ∀ k o, kv_get rs k o = match (list_to_map rs : gmap bytes bytes) !! k with Some v => Some v | None => o end.
Proof.
  induction rs as [|[k' v] rs IH]; intros Hnd k o; [simpl; by rewrite lookup_empty|].
  rewrite fmap_cons in Hnd. apply NoDup_cons in Hnd as [Hni Hnd]. cbn [kv_get foldl fst snd].
  change (kv_get rs k (if decide (k' = k) then Some v else o) = match (list_to_map ((k', v) :: rs) : gmap bytes bytes) !! k with Some v => Some v | None => o end).
  rewrite IH by done. cbn [list_to_map]. destruct (decide (k' = k)) as [->|Hne].
  - rewrite (not_elem_of_list_to_map_1 rs k) by done. simpl. by rewrite lookup_insert_eq.
  - simpl. by rewrite lookup_insert_ne.
Qed.

(** The records of a stream as a byte map, with the installed applied record. *)
Definition stream_look (rs : list (bytes * bytes)) (applied_record : bytes) (k : bytes) : option bytes :=
  if decide (raft_applied_key = k) then Some applied_record else (list_to_map rs : gmap bytes bytes) !! k.

Lemma drop_installer_active env s i : in_activated i = true → drop_installer env s i = s.
Proof. intros Ha. unfold drop_installer. by rewrite Ha. Qed.

(** Everything between the generation counter and the registry. *)
Lemma install_body env ar group n s0 s1 file s2 r :
  let name := staged_name group n in
  cache_ok s0 → wf group → (n ≤ u64_max)%N → cf_exists (st_db s0) name = false → is_ok (state_cf s0 group) = true →
  cf_exists (st_db s1) name = true → (∀ k, get_cf (st_db s1) name k = None) → staging_frame group name s0 s1 →
  install_stream env ar file (mkInstaller group name [] None false) s1 = (s2, r) →
  (quiet s0 s2 ∧ is_ok r = false) ∨
  ((∀ e, r = Err e → ie_drop env = Some e) ∧
   ∃ rs, encode_records (Ok <$> rs) = Ok file ∧ StronglySorted bytes_lt rs.*1 ∧ installed group s0 s2 (stream_look rs ar)).
Proof.
  intros name Hc0 Hg Hn Hn0 Ho0 Ho1 He1 Hf1. pose proof (staged_name_valid group n) as Hv. fold name in Hv.
  assert (name ≠ DEFAULT_CF) as Hd by (by eapply valid_cf_name_default).
  set (i0 := mkInstaller group name [] None false). unfold install_stream, io_bind.
  assert (staging group name s0 (s1, i0)) as Hx0 by (by constructor).
  assert (∀ s i, staging group name s0 (s, i) → quiet s0 (drop_installer env s i)) as Hdrop.
  { intros s i [Hf Ho Hin Hig Hia _]. simpl in *. eapply (staging_quiet group name); [done|done|by apply unread_staged|].
    unfold drop_installer. rewrite Hia, Hin, Ho. cbn [negb andb]. destruct (bool_decide _); [|done].
    eapply staging_frame_trans; [exact Hf|by apply drop_staging]. }
  assert (staging group name s0 (decode_records_sync (installer_put env) file (s1, i0)).1) as Hx1.
  { apply (decode_invariant (installer_put env) (staging group name s0)); [|done]. intros k v x Hx. by apply installer_put_spec. }
  destruct (decode_records_sync (installer_put env) file (s1, i0)) as [[s i] [[]|e]] eqn:Ed; [|intros [= <- <-]; left; split; [by apply Hdrop|done]].
  destruct (decode_encode_records _ _ _ _ Ed) as (rs & Henc & Hrun).
  destruct (run_installer_put env group name s0 rs _ _ Hd Hx0 Hrun) as (_ & Hp & Hs). simpl in Hs.
  destruct (finish env ar (s, i)) as [[s' i'] r'] eqn:Ef. intros [= <- <-].
  pose proof (finish_spec env ar group n s0 (s, i) (s', i') r' Hc0 Hg Hn Hn0 Ho0 Hx1 Ef) as Hfin.
  destruct Hfin as [[Hst Hr]|(Hr & Hact & [I1 I2 I3 I4 I5])]; [left; split; [by apply Hdrop|done]|right; split; [done|]]. simpl in *.
  rewrite drop_installer_active by done. exists rs. split_and!; [done|done|].
  constructor; [done| |done..]. intros k. rewrite I2. unfold stream_look. case_decide; [done|]. f_equal. rewrite Hp.
  assert (pend (s1, i0) k = None) as -> by (unfold pend; simpl; apply He1).
  rewrite kv_get_map by (by apply sorted_NoDup). by destruct (_ !! k).
Qed.

Lemma quiet_apply s s' reg : quiet s s' → quiet s (set_apply reg s').
Proof. intros []. by constructor. Qed.
Lemma installed_apply group s s' look reg : installed group s s' look → installed group s (set_apply reg s') look.
Proof. intros []. by constructor. Qed.
Lemma quiet_refl s : cache_ok s → quiet s s.
Proof. by constructor. Qed.
End steps.

Section theorems.
Context `{RocksOk D} `{!Codec U64, !Codec U128, !Codec string, !Codec RaftApplied, !Codec SearchConsumerState} `{HashesOk}.
Implicit Types (env : InstallEnv) (s : Storage D) (group : GroupId).

Definition applied_of (meta : SnapshotMeta) : RaftApplied := mkRaftApplied (sn_last_log_id meta) (sn_last_membership meta).

(** The group's whole state is the records of the file with the snapshot's
    position, and its search epoch has moved on. *)
Definition installed_file group (meta : SnapshotMeta) (file : bytes) s s' : Prop :=
  ∃ rs, encode_records (Ok <$> rs) = Ok file ∧ StronglySorted bytes_lt rs.*1 ∧
    installed group s s' (stream_look rs (encode (applied_of meta))).

Lemma install_task_cases env group meta file s s' r : cache_ok s → is_ok (state_cf s group) = true → wf group →
  install_task env group meta file s = (s', r) →
  (quiet s s' ∧ is_ok r = false) ∨ ((∀ e, r = Err e → ie_drop env = Some e) ∧ installed_file group meta file s s').
Proof.
  intros Hc Ho Hg. unfold install_task, validate_state_install, lift_apply. unfold io_bind at 1 2.
  destruct (registry_validate_install _ _ _ _) as [reg [u|e]]; cbn [io_read fst snd]; unfold io_read;
    [|intros [= <- <-]; left; split; [by apply quiet_apply, quiet_refl|done]].
  unfold io_bind at 1. set (s0 := set_apply reg s).
  assert (∀ x, quiet s0 x → quiet s x) as Hq by (by intros x []; constructor).
  assert (∀ x l, installed group s0 x l → installed group s x l) as Hi by (by intros x l []; constructor).
  destruct (begin_state_install env group s0) as [s2 [i|e]] eqn:Eb; apply begin_state_install_spec in Eb.
  2: { intros [= <- <-]. left. split; [|done]. apply Hq. eapply staging_quiet; [exact Hc|exact Ho|by apply (unread_default group)|exact Eb]. }
  destruct Eb as (n & Hn & -> & Hn0 & Ho1 & He1 & Hf1). unfold io_bind at 1. cbv beta.
  destruct (install_stream _ _ _ _ _) as [s3 r3] eqn:Ebody.
  destruct (install_body env _ group n s0 s2 file s3 r3 Hc Hg Hn Hn0 Ho Ho1 He1 Hf1 Ebody) as [[Hqt Hr]|[Hr (rs & Henc & Hs & Hins)]].
  { destruct r3; [done|]. intros [= <- <-]. left. split; [by apply Hq|done]. }
  destruct r3 as [v|e]; intros [= <- <-]; right; (split; [by auto|]); exists rs; split_and!; [done|done| |done|done|by apply Hi].
  by apply installed_apply, Hi.
Qed.

Lemma install_snapshot_cases prefix env group meta file s s' r :
  cache_ok s → wf group → is_ok (state_cf s group) = true →
  install_snapshot prefix env group meta file s = (s', r) →
  match r with
  | Ready (Ok _) => installed_file group meta file s s'
  | Ready (Err e) => quiet s s' ∨ (ie_drop env ≠ None ∧ installed_file group meta file s s')
  | Pending => False
  end.
Proof.
  intros Hc Hg Ho. unfold install_snapshot, aio_bind, or_poison at 1, aio_io at 1, io_read.
  destruct (ie_prepare env) as [e|]; [intros [= <- <-]; left; by apply quiet_apply, quiet_refl|].
  unfold or_poison, aio_io. destruct (install_task env group meta file s) as [s1 r1] eqn:Et.
  destruct (install_task_cases _ _ _ _ _ _ _ Hc Ho Hg Et) as [[Hq Hr]|[Hr (rs & Henc & Hs & Hins)]]; destruct r1 as [u|e]; try done; intros [= <- <-].
  - left. by apply quiet_apply.
  - by exists rs.
  - right. split; [by rewrite (Hr e)|]. exists rs. split_and!; [done|done|]. by apply installed_apply.
Qed.

(** C27: Installing a received snapshot is atomic, whichever call into the
    database fails. On success the stream was a valid encoding of records with
    increasing keys, the group's whole state is those records with the snapshot's
    applied position, and its search epoch has moved on. On an error every group
    reads what it read before, with one exception: dropping the replaced state is
    attempted after the switch, and when that call fails the error is returned
    with the new state in place. Other groups and all logs are never touched. *)
Theorem install_snapshot_atomic prefix env group meta file s s' r :
  cache_ok s → wf group → is_ok (state_cf s group) = true →
  install_snapshot prefix env group meta file s = (s', r) →
  match r with
  | Ready (Ok _) => installed_file group meta file s s'
  | Ready (Err e) => quiet s s' ∨ (ie_drop env ≠ None ∧ installed_file group meta file s s')
  | Pending => False
  end.
Proof. intros. by eapply install_snapshot_cases. Qed.
End theorems.

(** ** A snapshot from one replica to another

    The stream built on one store and installed on another carries the whole
    state of the group, its membership and a position that is durable on the
    source. *)
(** A stream encodes one sequence of records. *)
Lemma encode_records_inj `{HashesOk} rs rs' file :
  encode_records (Ok <$> rs) = Ok file → encode_records (Ok <$> rs') = Ok file → rs = rs'.
Proof.
  set (collect := λ (k v : bytes), io_modify (λ l : list (bytes * bytes), l ++ [(k, v)])).
  assert (∀ l acc, run_records collect l acc = (acc ++ l, Ok tt)) as Hrun.
  { induction l as [|[k v] l IH]; intros acc; [by rewrite app_nil_r|]. cbn [run_records].
    unfold io_bind, collect at 1, io_modify. rewrite IH. by rewrite <-(assoc_L (++)). }
  intros E E'. pose proof (encode_decode collect rs file [] E) as D1. pose proof (encode_decode collect rs' file [] E') as D2.
  rewrite Hrun in D1, D2. rewrite D1 in D2. by injection D2.
Qed.

Section transfer.
Context `{RocksOk D} `{!Codec U64, !Codec U128, !Codec string, !Codec LogId, !Codec RaftApplied, !Codec SearchConsumerState}.
Context `{HashesOk} `{!Codec DataOp, !Codec KeyRecord, !Codec SeqRecord}.
Implicit Types (env : InstallEnv) (s : Storage D) (group : GroupId).

Lemma read_applied_ok group now s s' applied : read_applied group now s = (s', Ready (Ok applied)) →
  (∃ reg, s' = set_apply reg s) ∧
  match state_map s group raft_applied_key with
  | None => applied = mkRaftApplied None default_membership
  | Some b => decode b = Ok applied
  end ∧ is_ok (state_cf s group) = true.
Proof.
  unfold read_applied, aio_bind, or_poison at 1, aio_io at 1.
  destruct (require_healthy_registry now s) as [reg E].
  destruct (require_healthy now s) as [s1 [[]|e]]; simpl in E; subst s1; [|done].
  unfold or_poison at 1, aio_io, io_read, raft_applied, get_state. 
  change (state_cf (set_apply reg s) group) with (state_cf s group). unfold state_map.
  destruct (state_cf s group) as [cf|e]; cbn [rbind]; [|done]. cbn [st_db set_apply].
  destruct (get_cf (st_db s) cf raft_applied_key) as [b|].
  - unfold or_poison. destruct (decode b) as [a|e] eqn:Ed; [|done]. intros [= <- <-]. split_and!; [by eexists|done|done].
  - intros [= <- <-]. split_and!; [by eexists|done|done].
Qed.

(** What a built snapshot holds. *)
Lemma build_snapshot_ok prefix disp now started waited group s s' meta file :
  build_snapshot_now prefix (read_applied group now) disp now started waited group s = (s', Ready (Ok (meta, file))) →
  ∃ cf, state_cf s group = Ok cf ∧ encode_records (Ok <$> iter_cf (st_db s) cf) = Ok file ∧
    (match state_map s group raft_applied_key with
     | None => applied_of meta = mkRaftApplied None default_membership
     | Some b => decode b = Ok (applied_of meta) end) ∧
    (∀ l, sn_last_log_id meta = Some l → durable_covers group l (st_apply_durability s')).
Proof.
  unfold build_snapshot_now. intros [(s1 & applied & Ha & E)|[[_ [=]]|(e & _ & [=])]]%aio_bind_ready.
  apply read_applied_ok in Ha as ([reg ->] & Ha & Ho).
  apply aio_bind_ready in E as [(s2 & [] & Hw & E)|[[_ [=]]|(e & _ & [=])]].
  assert (∃ reg', s2 = set_apply reg' s ∧ ∀ l, ra_applied applied = Some l → durable_covers group l reg') as (reg' & -> & Hd).
  { destruct (ra_applied applied) as [l|]; [|injection Hw as <-; eexists; split; [done|by intros l]].
    revert Hw. unfold or_poison, wait_state_durable_for_snapshot. destruct (registry_wait_durable _ _ _ _ _ _) as [r [[[]|e]|]] eqn:Ew; try done.
    intros [= <-]. exists r. split; [done|]. intros l' [= <-]. by eapply wait_durable_covers. }
  apply aio_bind_ready in E as [(s3 & f & Hs & E)|[[_ [=]]|(e & _ & [=])]].
  injection E as <- <- <-. revert Hs. unfold or_poison, aio_io, io_read, snapshot_stream.
  change (state_cf (set_apply reg' s) group) with (state_cf s group). cbn [st_db set_apply].
  destruct (state_cf s group) as [cf|] eqn:Ecf; [|done]. cbn [rbind].
  destruct (encode_records _) as [f'|] eqn:Ee; [|done]. intros [= <- ->]. exists cf.
  destruct applied as [ap mem]. split_and!; [done|done|done|exact Hd].
Qed.

(** C26: A snapshot built on one replica and installed on another makes the
    second represent exactly the abstract state the first represents, with the
    same applied position and membership, a position that was durable on the
    source when the snapshot was built. *)
Theorem snapshot_transfer prefix disp now started waited group a s1 s1' meta file prefix' env s2 s2' :
  represents s1 group a →
  build_snapshot_now prefix (read_applied group now) disp now started waited group s1 = (s1', Ready (Ok (meta, file))) →
  cache_ok s2 → wf group → is_ok (state_cf s2 group) = true → wf (applied_of meta) →
  install_snapshot prefix' env group meta file s2 = (s2', Ready (Ok tt)) →
  represents s2' group a ∧
  recovered_raft_applied s1 group = Ok (sn_last_log_id meta) ∧ recovered_raft_applied s2' group = Ok (sn_last_log_id meta) ∧
  recorded_membership group s1 (sn_last_membership meta) ∧ recorded_membership group s2' (sn_last_membership meta) ∧
  (∀ l, sn_last_log_id meta = Some l → durable_covers group l (st_apply_durability s1')).
Proof.
  intros [Hc1 Ho1 Hr1] (cf & Hcf & Henc & Happ & Hd)%build_snapshot_ok Hc2 Hg Ho2 Hwf Hin.
  apply install_snapshot_cases in Hin as (rs & Henc' & Hs & [I1 I2 I3 I4 I5]); [|done..].
  assert (rs = iter_cf (st_db s1) cf) as -> by (by eapply encode_records_inj).
  assert (∀ k, (list_to_map (iter_cf (st_db s1) cf) : gmap bytes bytes) !! k = state_map s1 group k) as Hmap.
  { intros k. unfold state_map. rewrite Hcf. destruct (get_cf (st_db s1) cf k) as [v|] eqn:E.
    - apply elem_of_list_to_map; [by apply sorted_NoDup|]. by apply iter_spec.
    - apply not_elem_of_list_to_map. rewrite list_elem_of_fmap. intros ([k' v] & -> & Hin%iter_spec). simpl in *. congruence. }
  assert (∃ cf', state_cf s2' group = Ok cf' ∧ ∀ k, get_cf (st_db s2') cf' k = stream_look (iter_cf (st_db s1) cf) (encode (applied_of meta)) k)
    as (cf' & Hcf' & Hget).
  { specialize (I2 raft_applied_key) as I2'. unfold get_state in I2'. destruct (state_cf s2' group) as [cf'|] eqn:E; [|done].
    exists cf'. split; [done|]. intros k. specialize (I2 k). unfold get_state in I2. rewrite E in I2. by injection I2. }
  assert (∀ k, state_map s2' group k = stream_look (iter_cf (st_db s1) cf) (encode (applied_of meta)) k) as Hmap2.
  { intros k. unfold state_map. by rewrite Hcf'. }
  split_and!.
  - constructor; [done|by rewrite Hcf'|]. eapply abs_rep_ext; [|exact Hr1]. intros k _ Hk.
    rewrite Hmap2. unfold stream_look. rewrite decide_False by done. apply Hmap.
  - unfold recovered_raft_applied, raft_applied, get_state. rewrite Hcf. cbn [rbind]. unfold state_map in Happ. rewrite Hcf in Happ.
    destruct (get_cf (st_db s1) cf raft_applied_key) as [b|]; [by rewrite Happ|by injection Happ as -> _].
  - unfold recovered_raft_applied, raft_applied, get_state. rewrite Hcf'. cbn [rbind]. rewrite Hget. unfold stream_look.
    rewrite decide_True by done. by rewrite decode_encode.
  - unfold recorded_membership. destruct (state_map s1 group raft_applied_key) as [b|]; [by eexists|by injection Happ as _ ->].
  - unfold recorded_membership. rewrite Hmap2. unfold stream_look. rewrite decide_True by done.
    eexists. by rewrite decode_encode.
  - exact Hd.
Qed.
End transfer.
