(* ===== verification/RaftStorageDemo.v ===== *)
(** * Concrete applies, log operations and snapshots *)

From S2P Require Import Prelude BTree Types Codec SearchDef Keyspace Outbox ApplyDurability Aio Rocks Storage DataSM SearchStore ApplyRaft LogStore Snapshot Install DataSpec Bincode Demo Oracles DataProofs ApplyRaftProofs LogStoreProofs InstallProofs.

(** ** Concrete applies of Raft entries *)

Definition raft_group : GroupId := GroupId_Data 1.
Definition raft_store : Storage MemDb :=
  set_db (create_cf (create_cf (∅ : MemDb) (cf_state raft_group)) (cf_log raft_group)) empty_storage.
Definition raft_id (index : N) : RaftLogId := mkRaftLogId 1 1 index.
Definition good_env (l : RaftLogId) : WriteEnv := mkWriteEnv 0 [] (Fate_Written None).
Definition bad_env (l : RaftLogId) : WriteEnv := mkWriteEnv 0 [] (Fate_Failed "disk").

(** A blank entry, a put, its replay, a membership change and a conditional delete. *)
Definition raft_entries : list Entry :=
  [mkEntry (raft_id 1) EntryPayload_Blank;
   mkEntry (raft_id 2) (EntryPayload_Normal (mkDataRequest 0 7 1 (DataOp_Put [x6b] [x76] None)));
   mkEntry (raft_id 3) (EntryPayload_Normal (mkDataRequest 0 7 1 (DataOp_Put [x6b] [x76] None)));
   mkEntry (raft_id 4) (EntryPayload_Membership (mkMembershipConfig [[1; 2; 3]%N] [(1%N, "a")]));
   mkEntry (raft_id 5) (EntryPayload_Normal (mkDataRequest 0 7 2 (DataOp_Delete [x6b] (Some (IfVersion_Number 2)))))].

Lemma raft_entries_wf : Forall wf raft_entries.
Proof. repeat constructor; vm_compute; discriminate. Qed.

Lemma raft_store_represents : represents raft_store raft_group (abs_init 0).
Proof.
  constructor; [intros g n; simpl; by rewrite lookup_empty|vm_compute; reflexivity|].
  apply abs_rep_empty. intros k.
  assert (state_cf raft_store raft_group = Ok (cf_state raft_group)) as E by (vm_compute; reflexivity).
  unfold state_map. rewrite E. unfold raft_store. cbn [st_db set_db].
  rewrite get_create_ne by done. by apply get_create.
Qed.

Lemma raft_store_membership : recorded_membership raft_group raft_store default_membership.
Proof. vm_compute. reflexivity. Qed.

Lemma default_membership_wf : wf default_membership.
Proof. repeat constructor; vm_compute; discriminate. Qed.

Definition raft_results : list ApplyResult :=
  [ApplyResult_NoOp; ApplyResult_Decided (MutationResult_Applied 2); ApplyResult_Replayed (MutationResult_Applied 2);
   ApplyResult_NoOp; ApplyResult_Decided (MutationResult_Applied 5)].

Definition raft_run (env : RaftLogId → WriteEnv) (coalesce : bool) : RocksStateMachine MemDb * poll (Result (list ApplyResult)) :=
  sm_apply env raft_group coalesce 0 raft_entries (mkStateMachine raft_store (Some [])).

Lemma raft_run_results coalesce : (raft_run good_env coalesce).2 = Ready (Ok raft_results).
Proof. destruct coalesce; vm_compute; reflexivity. Qed.

Lemma raft_run_pair env coalesce r : (raft_run env coalesce).2 = r →
  sm_apply env raft_group coalesce 0 raft_entries (mkStateMachine raft_store (Some [])) = ((raft_run env coalesce).1, r).
Proof. intros <-. apply surjective_pairing. Qed.

Lemma apply_clean_prefix_witness :
  recovered_raft_applied (rsm_storage (raft_run good_env true).1) raft_group = Ok (Some (raft_id 5)).
Proof.
  destruct (apply_clean_prefix good_env raft_group true 0 raft_entries raft_store (Some []) (abs_init 0)
    default_membership _ _ raft_store_represents raft_store_membership default_membership_wf raft_entries_wf
    (raft_run_pair _ _ _ (raft_run_results true))) as (pre & rest & E & _ & Hp & _ & Hr).
  destruct (Hr _ eq_refl) as [-> _]. rewrite app_nil_r in E. subst pre. exact Hp.
Defined.

Lemma apply_error_fences_witness :
  ∃ e, (sm_apply good_env raft_group false 0 raft_entries (raft_run bad_env true).1).2 = Ready (Err e).
Proof.
  apply (apply_error_fences bad_env raft_group true 0 raft_entries (mkStateMachine raft_store (Some []))
    (raft_run bad_env true).1 (Error_Io "disk")).
  - apply raft_run_pair. vm_compute. reflexivity.
  - discriminate.
Defined.

Lemma coalesced_equivalent_witness :
  state_map (rsm_storage (raft_run good_env true).1) raft_group raft_applied_key =
  state_map (rsm_storage (raft_run good_env false).1) raft_group raft_applied_key.
Proof.
  refine (proj1 (proj2 (proj2 (coalesced_equivalent good_env good_env raft_group 0 raft_entries raft_store (Some [])
    default_membership _ _ raft_results raft_results (rp_cache _ _ _ raft_store_represents)
    (rp_open _ _ _ raft_store_represents) raft_store_membership default_membership_wf raft_entries_wf _ _))) _).
  - exact (raft_run_pair _ _ _ (raft_run_results true)).
  - exact (raft_run_pair _ _ _ (raft_run_results false)).
Defined.

(** ** Concrete log-store operations *)
#[global] Instance bin_Vote : Bin Vote.
Proof.
  refine (bin_iso (B := (U64 * U64) * bool) (λ v, ((vote_term v, vote_node_id v), vote_committed v))
    (λ '((t, n), c), mkVote t n c) _ _); abstract solve_struct.
Defined.

Definition log_group : GroupId := GroupId_Data 1.
Definition log_id_at (i : N) : RaftLogId := mkRaftLogId 1 1 i.
Definition log_entry (i : N) : Entry := mkEntry (log_id_at i) EntryPayload_Blank.
Definition log_env : LogEnv := mkLogEnv 0 0 [op_visible 0 log_group (log_id_at 2); op_durable 0 log_group (log_id_at 2)]
  (Fate_Written (Some None)) (λ _, None).

Definition empty_log : ALog DataRequest := mkALog None None None [].
Definition empty_log_store : RocksLogStore MemDb :=
  mkLogStore (set_db (create_cf (∅ : MemDb) (cf_log log_group)) empty_storage) [].

Lemma empty_log_rep : log_rep log_group (ls_storage empty_log_store) empty_log.
Proof.
  constructor; [vm_compute; reflexivity| |by repeat constructor].
  intros k. trans (None : option bytes).
  - unfold empty_log_store. cbn [ls_storage st_db set_db]. by apply get_create.
  - unfold alog_get, empty_log. simpl. repeat case_decide; [done..|]. by destruct (entry_index k).
Qed.

Lemma empty_log_healthy : healthy log_env log_group (ls_storage empty_log_store).
Proof. split; [done|]. split; intros *; simpl; by rewrite lookup_empty. Qed.

Definition log_entries : list Entry := [log_entry 1; log_entry 2; log_entry 3].
Definition full_log : ALog DataRequest := mkALog None None None log_entries.

Lemma full_log_ok : alog_ok full_log.
Proof. constructor; repeat constructor; vm_compute; congruence. Qed.

Definition full_log_store : RocksLogStore MemDb :=
  (run_op log_env log_group (Op_append true log_entries) empty_log_store).1.

Lemma log_store_writes_witness :
  (run_op log_env log_group (Op_append true log_entries) empty_log_store).2 = Ready (Ok tt) ∧
  log_rep log_group (ls_storage full_log_store) full_log.
Proof.
  destruct (log_store_writes log_env log_group (Op_append true log_entries) empty_log_store empty_log _ _
    empty_log_rep (conj full_log_ok I) (surjective_pairing _))
    as (acks & a' & _ & Hr & _ & _ & Hok & _ & Hu).
  assert ((run_op log_env log_group (Op_append true log_entries) empty_log_store).2 = Ready (Ok tt)) as E.
  { apply Hu. split; [done|]. split; [exact empty_log_healthy|]. split; [by eexists|]. vm_compute. discriminate. }
  split; [exact E|]. rewrite (Hok (or_introl E)) in Hr. exact Hr.
Defined.

Lemma full_log_rep : log_rep log_group (ls_storage full_log_store) full_log.
Proof.
  destruct (append_outcome_ok log_env log_group true log_entries empty_log_store empty_log empty_log_rep full_log_ok)
    as (acks & a' & _ & _ & Hr & _ & _ & Hok).
  rewrite Hok in Hr by (left; vm_compute; reflexivity). exact Hr.
Qed.

Lemma full_log_healthy : healthy log_env log_group (ls_storage full_log_store).
Proof.
  destruct (require_group_healthy_ok 0 log_group (ls_storage full_log_store)
    (require_group_healthy 0 log_group (ls_storage full_log_store)).1) as [Hh _]; [|exact Hh].
  rewrite (surjective_pairing (require_group_healthy 0 log_group (ls_storage full_log_store))) at 1.
  f_equal; vm_compute; reflexivity.
Qed.

Lemma log_store_reads_witness :
  (try_get_log_entries log_env log_group (Included 2) Unbounded (ls_storage full_log_store)).2 =
    Ready (Ok [log_entry 2; log_entry 3]).
Proof.
  destruct (log_store_reads log_env log_group (ls_storage full_log_store) full_log (Included 2) Unbounded
    full_log_rep (λ _, eq_refl) full_log_healthy) as (E & _); [done|done|]. exact E.
Defined.

Lemma purge_after_durable_witness :
  durable_covers log_group (log_id_at 2)
    (st_apply_durability (purge log_env log_group (log_id_at 2) (ls_storage full_log_store)).1).
Proof.
  apply (purge_after_durable log_env log_group (log_id_at 2) (ls_storage full_log_store) _
    (Ready (Ok tt))); [|by left].
  rewrite (surjective_pairing (purge log_env log_group (log_id_at 2) (ls_storage full_log_store))) at 1.
  f_equal; vm_compute; reflexivity.
Defined.

(** ** Concrete snapshots *)
Definition demo_records : list (bytes * bytes) := [([x61], [x01; x02]); ([x62], [])].

Lemma snapshot_roundtrip_witness :
  ∃ file, encode_records (Ok <$> demo_records) = Ok file ∧
    decode_records_sync (λ k v, io_modify (λ l, l ++ [(k, v)])) file [] = (demo_records, Ok tt).
Proof.
  destruct (encode_records (Ok <$> demo_records)) as [file|e] eqn:E; [|vm_compute in E; discriminate E].
  exists file. split; [reflexivity|].
  exact (proj1 (snapshot_roundtrip (λ k v, io_modify (λ l, l ++ [(k, v)])) file []) demo_records E).
Defined.

(** The source: the store after a run of Raft entries, its state durable. *)
Definition source_store : Storage MemDb := rsm_storage (raft_run good_env true).1.
Definition source_waited : list registry_op := [op_durable 0 raft_group (raft_id 5)].
Definition source_build : Storage MemDb * poll (Result (SnapshotMeta * bytes)) :=
  build_snapshot_now "" (read_applied raft_group 0) (λ l, pretty (rl_index l)) 0 0 source_waited raft_group source_store.
Definition demo_meta : SnapshotMeta :=
  mkSnapshotMeta (Some (raft_id 5)) (mkMembership (Some (raft_id 4)) [[1; 2; 3]%N] [(1%N, "a")]) "5".
Definition demo_file : bytes :=
  match source_build.2 with Ready (Ok (_, file)) => file | _ => [] end.
Definition demo_install_env : InstallEnv := mkInstallEnv 0 None (λ _, None) None None true None None.
Definition target_install : Storage MemDb * poll (Result unit) :=
  install_snapshot "" demo_install_env raft_group demo_meta demo_file raft_store.

Lemma source_build_ok : source_build.2 = Ready (Ok (demo_meta, demo_file)).
Proof. vm_compute. reflexivity. Qed.
Lemma target_install_ok : target_install.2 = Ready (Ok tt).
Proof. vm_compute. reflexivity. Qed.

Definition source_state : AbsState := (spec_entries (abs_init 0) raft_entries).2.
Lemma source_represents : represents source_store raft_group source_state.
Proof.
  destruct (sm_apply_achieved good_env raft_group true 0 raft_entries raft_store (Some []) default_membership _ _
    (rp_cache _ _ _ raft_store_represents) (rp_open _ _ _ raft_store_represents) raft_store_membership
    default_membership_wf raft_entries_wf (raft_run_pair _ _ _ (raft_run_results true)))
    as (pre & rest & rs & E & Hrd & Hx).
  destruct (Hx _ eq_refl) as (-> & _). rewrite app_nil_r in E. subst pre.
  exact (proj2 (run_done_represents raft_group _ _ _ _ _ _ raft_store_represents raft_entries_wf Hrd)).
Qed.

Lemma demo_meta_wf : wf (applied_of demo_meta).
Proof. repeat constructor; vm_compute; congruence. Qed.

Lemma snapshot_transfer_witness :
  represents target_install.1 raft_group source_state ∧
  recovered_raft_applied target_install.1 raft_group = Ok (Some (raft_id 5)).
Proof.
  destruct (snapshot_transfer "" (λ l, pretty (rl_index l)) 0 0 source_waited raft_group source_state
    source_store source_build.1 demo_meta demo_file "" demo_install_env raft_store target_install.1)
    as (Hr & _ & Ha & _).
  - exact source_represents.
  - exact (pair_of source_build _ source_build_ok).
  - exact (rp_cache _ _ _ raft_store_represents).
  - vm_compute. discriminate.
  - vm_compute. reflexivity.
  - exact demo_meta_wf.
  - exact (pair_of target_install _ target_install_ok).
  - split; [exact Hr|exact Ha].
Defined.

(** The same install, with a disk error when the replaced state is dropped. *)
Definition undropped_env : InstallEnv := mkInstallEnv 0 None (λ _, None) None None true (Some (Error_Io "disk")) None.
Definition undropped_install : Storage MemDb * poll (Result unit) :=
  install_snapshot "" undropped_env raft_group demo_meta demo_file raft_store.
Lemma undropped_install_fails : undropped_install.2 = Ready (Err (Error_Io "disk")).
Proof. vm_compute. reflexivity. Qed.

Lemma install_snapshot_atomic_witness :
  installed_file raft_group demo_meta demo_file raft_store target_install.1 ∧
  (quiet raft_store undropped_install.1 ∨ installed_file raft_group demo_meta demo_file raft_store undropped_install.1).
Proof.
  split.
  - refine (install_snapshot_atomic "" demo_install_env raft_group demo_meta demo_file raft_store target_install.1 (Ready (Ok tt)) _ _ _ _).
    + exact (rp_cache _ _ _ raft_store_represents).
    + vm_compute. discriminate.
    + vm_compute. reflexivity.
    + exact (pair_of target_install _ target_install_ok).
  - destruct (install_snapshot_atomic "" undropped_env raft_group demo_meta demo_file raft_store undropped_install.1
      (Ready (Err (Error_Io "disk")))) as [Hq|[_ Hi]].
    + exact (rp_cache _ _ _ raft_store_represents).
    + vm_compute. discriminate.
    + vm_compute. reflexivity.
    + exact (pair_of undropped_install _ undropped_install_fails).
    + left. exact Hq.
    + right. exact Hi.
Defined.
