(* ===== verification/MetaSM.v ===== *)
(** * The meta group's state machine (src/src/meta/state_machine.rs)

    Cluster identity, node directory, placement map, maintenance operations and
    the search catalog. Each handler reads the meta group's state column family
    and returns its decision with the mutations that commit it; [meta_apply]
    writes them in one batch. Rejection texts are the source's; a text that
    quotes a validation error carries the static part of it. *)

From S2P Require Import Prelude BTree Types Codec Config SearchDef Keyspace Outbox MetaTypes ApplyDurability Rocks Storage.
From coqutil Require Import Datatypes.RecordSetters.
Import TriangleBracketNotations.

Definition LEGACY_SEARCH_ENGINE_REVISION : N := 1.

Definition reject (r : MetaReject) : MetaApplyResult := MetaApplyResult_Rejected r.
Definition invalid (msg : string) : MetaApplyResult := MetaApplyResult_Rejected (MetaReject_InvalidConfig msg).
Definition illegal (msg : string) : MetaApplyResult := MetaApplyResult_Rejected (MetaReject_IllegalVoterChange msg).

(** [put]. *)
Definition put_mutation `{Codec T} (key : bytes) (value : T) : StateMutation :=
  StateMutation_Put key (encode value).

(** A decision: the outcome and the state mutations. *)
Definition decision : Type := Result (MetaApplyResult * list StateMutation).
Definition refuse (r : MetaApplyResult) : decision := Ok (r, []).
Definition noop : decision := Ok (MetaApplyResult_NoOp, []).
Definition applied (ms : list StateMutation) : decision := Ok (MetaApplyResult_Applied, ms).

(** [!windows(2).any(|pair| pair[0] >= pair[1])]. *)
Fixpoint strictly_ascending (l : list N) : bool :=
  match l with
  | a :: (b :: _) as l' => (a <? b)%N && strictly_ascending l'
  | _ => true
  end.

(** [matches!(cmd, ..)]: the commands a maintenance operation lets through. *)
Definition is_maintenance_command (cmd : MetaCommand) : bool :=
  match cmd with
  | MetaCommand_BeginMaintenance _ _ _ | MetaCommand_ReleaseMaintenance _ _ _ _ _
  | MetaCommand_AcknowledgeMaintenance _ _ _ _ | MetaCommand_QuiesceMaintenance _ _
  | MetaCommand_EnterMaintenanceVerification _ _
  | MetaCommand_AcknowledgeMaintenanceRecovery _ _ _ _ _ _ _ _ => true
  | _ => false
  end.

(** The node-directory test of [directory]. *)
Definition has_node_prefix (k : bytes) : bool :=
  match k, meta_node_prefix with
  | k0 :: k1 :: _, [p0; p1] => bool_decide (k0 = p0) && bool_decide (k1 = p1)
  | _, _ => false
  end.

(** [binary_search(..).is_ok()]. *)
Definition found (r : nat + nat) : bool := match r with inl _ => true | inr _ => false end.

Definition zero_digest : bytes := replicate 32 x00.

Section meta.
Context `{Rocks D} `{Hashes} `{!Codec U64, !Codec U128, !Codec string, !Codec LogId, !Codec Identity}
  `{!Codec ClusterConfig, !Codec NodeDirectoryEntry, !Codec MaintenanceRecord, !Codec Placement}
  `{!Codec SearchIndexDefinition, !Codec SearchIndexRecord, !Codec SearchIndexReady}.
Implicit Types (s : Storage D).

(** ** Typed accessors *)

Definition meta_cluster s : Result (option ClusterConfig) :=
  get_state_record ClusterConfig s GroupId_Meta meta_cluster_key.
Definition meta_node s (id : NodeId) : Result (option NodeDirectoryEntry) :=
  get_state_record NodeDirectoryEntry s GroupId_Meta (meta_node_key id).
Definition meta_maintenance s : Result (option MaintenanceRecord) :=
  get_state_record MaintenanceRecord s GroupId_Meta meta_maintenance_key.
Definition meta_placement s (g : GroupId) : Result (option Placement) :=
  get_state_record Placement s GroupId_Meta (meta_placement_key g).
Definition meta_retired s (id : NodeId) : Result (option N) :=
  get_state_record U64 s GroupId_Meta (meta_retired_node_key id).

Definition meta_directory s : Result (list NodeDirectoryEntry) :=
  let! kvs := scan_state s GroupId_Meta in
  mapR (λ kv, decode kv.2) (filter (λ kv, has_node_prefix kv.1 = true) kvs).

Definition active_entry (e : NodeDirectoryEntry) : bool := bool_decide (nd_state e = NodeState_Active).
Definition is_active s (id : NodeId) : Result bool :=
  let! e := meta_node s id in
  Ok (match e with Some e => active_entry e | None => false end).
Definition eligible_count s : Result nat :=
  let! directory := meta_directory s in
  Ok (length (filter (λ e, active_entry e = true) directory)).

(** ** Maintenance *)

(** The loop of [begin_maintenance] over every group: placed, no move, every
    voter Active. *)
Fixpoint groups_quiet s (active : list NodeId) (groups : list GroupId) : Result bool :=
  match groups with
  | [] => Ok true
  | g :: groups =>
      let! p := meta_placement s g in
      match p with
      | None => Ok false
      | Some p =>
          if negb (bool_decide (pl_move p = None)) || existsb (λ v, negb (bool_decide (v ∈ active))) (pl_voters p)
          then Ok false else groups_quiet s active groups
      end
  end.

(** Its loop over the search catalog: nothing building or retiring. *)
Fixpoint catalog_quiet (kvs : list (bytes * bytes)) : Result bool :=
  match kvs with
  | [] => Ok true
  | (key, value) :: kvs =>
      if starts_with meta_search_index_prefix key
      then let! record := decode (A:=SearchIndexRecord) value in
           if negb (bool_decide (sr_building record = None)) || negb (bool_decide (sr_retiring record = []))
           then Ok false else catalog_quiet kvs
      else catalog_quiet kvs
  end.

Definition begin_maintenance s (operation_id generation : N) (participants : list NodeId) : decision :=
  let! c := meta_cluster s in
  match c with
  | None => refuse (reject MetaReject_ClusterNotInitialized)
  | Some cluster =>
  if (operation_id =? 0)%N || (generation =? 0)%N || bool_decide (participants = [])
  then refuse (invalid "maintenance identity and participants are required")
  else if negb (strictly_ascending participants)
  then refuse (invalid "maintenance participants must be sorted and unique")
  else
  let! directory := meta_directory s in
  let active := bset_of_list (nd_node_id <$> filter (λ e, active_entry e = true) directory) in
  if negb (bool_decide (participants = active)) then refuse (invalid "maintenance must include every Active node")
  else
  let! quiet := groups_quiet s active (all_groups (cc_p cluster)) in
  if negb quiet then refuse (reject MetaReject_MaintenanceBusy)
  else
  let! kvs := scan_state s GroupId_Meta in
  let! quiet := catalog_quiet kvs in
  if negb quiet then refuse (reject MetaReject_MaintenanceBusy)
  else
  let! previous := meta_maintenance s in
  let record := mkMaintenance operation_id generation participants [] [] [] [] None None
                  MaintenanceStage_Preparing in
  let install := applied [put_mutation meta_maintenance_key record] in
  match previous with
  | Some previous =>
      if negb (bool_decide (mr_stage previous = MaintenanceStage_Released))
      then if (mr_operation_id previous =? operation_id)%N && (mr_generation previous =? generation)%N &&
              bool_decide (mr_participants previous = participants)
           then noop else refuse (reject MetaReject_MaintenanceActive)
      else if (mr_operation_id previous =? operation_id)%N ||
              negb (bool_decide (checked_add u64_max (mr_generation previous) 1 = Some generation))
      then refuse (reject MetaReject_MaintenanceMismatch)
      else install
  | None => if negb (generation =? 1)%N then refuse (reject MetaReject_MaintenanceMismatch) else install
  end
  end.

(** The liveness loop of [release_maintenance]. *)
Fixpoint live_incarnations_match s (l : list (NodeId * (NodeId * N))) : Result bool :=
  match l with
  | [] => Ok true
  | (node_id, (claimed_node, incarnation)) :: l =>
      if negb (node_id =? claimed_node)%N then Ok false
      else
      let! e := meta_node s node_id in
      if match e with Some e => active_entry e && (nd_incarnation e =? incarnation)%N | None => false end
      then live_incarnations_match s l else Ok false
  end.

(** Read the record of the named operation, or refuse. *)
Definition with_operation s (operation_id generation : N) (k : MaintenanceRecord → decision) : decision :=
  let! r := meta_maintenance s in
  match r with
  | None => refuse (reject MetaReject_MaintenanceMismatch)
  | Some record =>
      if negb (mr_operation_id record =? operation_id)%N || negb (mr_generation record =? generation)%N
      then refuse (reject MetaReject_MaintenanceMismatch) else k record
  end.

Definition release_maintenance s (operation_id generation : N) (live_processes live_incarnations : list (NodeId * N))
    (policy_digest : bytes) : decision :=
  with_operation s operation_id generation (λ record,
  let released := applied [put_mutation meta_maintenance_key (record <| mr_stage := MaintenanceStage_Released |>)] in
  match mr_stage record with
  | MaintenanceStage_Released => noop
  | MaintenanceStage_Preparing => released
  | MaintenanceStage_Verifying =>
      if bool_decide (mr_recovered record = mr_participants record) &&
         bool_decide ((mr_recovery_processes record).*1 = mr_participants record)
      then
        if negb (bool_decide (mr_verification_policy_digest record = Some policy_digest))
        then refuse (reject MetaReject_MaintenancePolicyMismatch)
        else
        let! epoch := recovery_epoch s GroupId_Meta in
        if negb (bool_decide (mr_verification_recovery_epoch record = Some epoch))
        then refuse (reject MetaReject_MaintenanceMismatch)
        else if negb (bool_decide (mr_recovery_processes record = live_processes))
        then refuse (reject MetaReject_MaintenanceLivenessMismatch)
        else if negb (length live_incarnations =? length (mr_participants record))
        then refuse (reject MetaReject_MaintenanceLivenessMismatch)
        else
        let! live := live_incarnations_match s (zip (mr_participants record) live_incarnations) in
        if negb live then refuse (reject MetaReject_MaintenanceLivenessMismatch) else released
      else refuse (reject MetaReject_MaintenanceBusy)
  | MaintenanceStage_Quiesced => refuse (reject MetaReject_MaintenanceBusy)
  end).

(** The participant checks shared by both acknowledgements. *)
Definition with_participant s (record : MaintenanceRecord) (node_id : NodeId) (incarnation : N)
    (k : decision) : decision :=
  if negb (found (binary_search node_id (mr_participants record))) then refuse (reject MetaReject_IneligibleTarget)
  else
  let! e := meta_node s node_id in
  match e with
  | None => refuse (reject MetaReject_UnknownNode)
  | Some entry =>
      if negb (nd_incarnation entry =? incarnation)%N then refuse (reject MetaReject_StaleIncarnation)
      else if negb (active_entry entry) then refuse (reject MetaReject_IneligibleTarget)
      else k
  end.

Definition acknowledge_maintenance s (operation_id generation : N) (node_id : NodeId) (incarnation : N) : decision :=
  with_operation s operation_id generation (λ record,
  if negb (bool_decide (mr_stage record = MaintenanceStage_Preparing))
  then refuse (reject MetaReject_MaintenanceBusy)
  else with_participant s record node_id incarnation
  match binary_search node_id (mr_acknowledged record) with
  | inl _ => noop
  | inr index => applied [put_mutation meta_maintenance_key
      (record <| mr_acknowledged := vec_insert index node_id (mr_acknowledged record) |>)]
  end).

Definition quiesce_maintenance s (operation_id generation : N) : decision :=
  with_operation s operation_id generation (λ record,
  if bool_decide (mr_stage record = MaintenanceStage_Quiesced) then noop
  else if negb (bool_decide (mr_stage record = MaintenanceStage_Preparing)) ||
          negb (bool_decide (mr_acknowledged record = mr_participants record))
  then refuse (reject MetaReject_MaintenanceBusy)
  else applied [put_mutation meta_maintenance_key (record <| mr_stage := MaintenanceStage_Quiesced |>)]).

Definition enter_maintenance_verification s (operation_id generation : N) : decision :=
  with_operation s operation_id generation (λ record,
  if bool_decide (mr_stage record = MaintenanceStage_Verifying) then noop
  else if negb (bool_decide (mr_stage record = MaintenanceStage_Quiesced))
  then refuse (reject MetaReject_MaintenanceBusy)
  else applied [put_mutation meta_maintenance_key
    (record <| mr_stage := MaintenanceStage_Verifying |> <| mr_recovered := [] |>
            <| mr_recovery_processes := [] |> <| mr_recovery_policy_digests := [] |>
            <| mr_verification_policy_digest := None |> <| mr_verification_recovery_epoch := None |>)]).

(** The expected topology of a participant, or the rejection the loop returns. *)
Fixpoint expected_topology s (node_id : NodeId) (groups : list GroupId)
    : Result (MetaReject + list (GroupId * list NodeId)) :=
  match groups with
  | [] => Ok (inr [])
  | g :: groups =>
      let! p := meta_placement s g in
      match p with
      | None => Ok (inl MetaReject_NoPlacement)
      | Some p =>
          if negb (bool_decide (pl_move p = None)) then Ok (inl MetaReject_MaintenanceBusy)
          else
          let! rest := expected_topology s node_id groups in
          match rest with
          | inl r => Ok (inl r)
          | inr l => Ok (inr (if bool_decide (node_id ∈ pl_voters p) then (g, pl_voters p) :: l else l))
          end
      end
  end.

(** [match v.binary_search_by_key(..) { Ok(i) => v[i].1 = x, Err(i) => v.insert(i, (key, x)) }]. *)
Definition upsert {A} (key : N) (x : A) (l : list (N * A)) : list (N * A) :=
  match binary_search_by_key fst key l with
  | inl index => alter (λ kv, (kv.1, x)) index l
  | inr index => vec_insert index (key, x) l
  end.

(** The early exit for a process already recorded as recovered, or stale. *)
Definition recorded_process (record : MaintenanceRecord) (node_id : NodeId) (process_incarnation : N)
    : option MetaApplyResult :=
  match binary_search_by_key fst node_id (mr_recovery_processes record) with
  | inl index =>
      match mr_recovery_processes record !! index with
      | Some (_, previous) =>
          if (process_incarnation <? previous)%N then Some (reject MetaReject_StaleMaintenanceProcess)
          else if (process_incarnation =? previous)%N && found (binary_search node_id (mr_recovered record))
          then Some MetaApplyResult_NoOp else None
      | None => None
      end
  | inr _ => None
  end.

(** The record after a participant's recovery acknowledgement. *)
Definition record_recovery (record : MaintenanceRecord) (node_id : NodeId) (process_incarnation : N)
    (policy_digest : bytes) (epoch : N) : MaintenanceRecord :=
  let recovered := match binary_search node_id (mr_recovered record) with
                   | inl _ => mr_recovered record
                   | inr index => vec_insert index node_id (mr_recovered record)
                   end in
  let processes := upsert node_id process_incarnation (mr_recovery_processes record) in
  let digests := upsert node_id policy_digest (mr_recovery_policy_digests record) in
  let complete := bool_decide (recovered = mr_participants record) in
  record <| mr_recovered := recovered |> <| mr_recovery_processes := processes |>
         <| mr_recovery_policy_digests := digests |>
         <| mr_verification_policy_digest :=
              if complete && (length digests =? length (mr_participants record)) &&
                 bool_decide (digests.*1 = mr_participants record) &&
                 forallb (λ d, bool_decide (d.2 = policy_digest)) digests
              then Some policy_digest else None |>
         <| mr_verification_recovery_epoch := if complete then Some epoch else None |>.

Definition acknowledge_maintenance_recovery s (operation_id generation : N) (node_id : NodeId)
    (incarnation process_incarnation : N) (topology_digest policy_digest : bytes) (epoch : N) : decision :=
  with_operation s operation_id generation (λ record,
  if negb (bool_decide (mr_stage record = MaintenanceStage_Verifying))
  then refuse (reject MetaReject_MaintenanceBusy)
  else with_participant s record node_id incarnation
  (if (process_incarnation =? 0)%N then refuse (invalid "maintenance process incarnation is required")
   else if bool_decide (policy_digest = zero_digest)
   then refuse (invalid "maintenance trust-policy digest is required")
   else
   let! current := recovery_epoch s GroupId_Meta in
   if negb (epoch =? current)%N then refuse (reject MetaReject_MaintenanceMismatch)
   else
   match recorded_process record node_id process_incarnation with
   | Some result => refuse result
   | None =>
   let! c := meta_cluster s in
   match c with
   | None => refuse (reject MetaReject_ClusterNotInitialized)
   | Some cluster =>
   let! expected := expected_topology s node_id (all_groups (cc_p cluster)) in
   match expected with
   | inl r => refuse (reject r)
   | inr expected =>
       if negb (bool_decide (topology_digest = maintenance_topology_digest expected))
       then refuse (reject MetaReject_MaintenanceTopologyMismatch)
       else applied [put_mutation meta_maintenance_key
              (record_recovery record node_id process_incarnation policy_digest epoch)]
   end
   end
   end)).

(** ** Cluster and node directory *)

Definition cluster_init s (config : ClusterConfig) (meta_voters : list NodeId) (log_id : LogId) : decision :=
  let! existing := meta_cluster s in
  match existing with
  | Some existing =>
      let! p := meta_placement s GroupId_Meta in
      if bool_decide (existing = config) &&
         bool_decide ((λ p, voter_set (pl_voters p)) <$> p = Some (voter_set meta_voters))
      then noop else refuse (reject MetaReject_ClusterConflict)
  | None =>
  let! id := identity s in
  match id with
  | None => refuse (invalid "cluster init requires a bound storage identity")
  | Some id =>
  if negb (cc_cluster_id config =? id_cluster_id id)%N
  then refuse (invalid "cluster_id differs from the storage identity")
  else if negb (cc_protocol_version config =? PROTOCOL_VERSION)%N
  then refuse (invalid "unsupported protocol version")
  else if (cc_r config <? MIN_REPLICATION)%N then refuse (invalid "R below minimum")
  else if (cc_p config =? 0)%N then refuse (invalid "P must be non-zero")
  else match validate_routing_shape (cc_p config) (cc_r config) with
  | Err error => refuse (invalid (error_display error))
  | Ok _ =>
  let mv := voter_set meta_voters in
  if negb (length mv =? length meta_voters) then refuse (invalid "duplicate meta voter")
  else if (length mv <? MIN_META_VOTERS) || Nat.even (length mv)
  then refuse (invalid "meta voters must be an odd set of >= 3")
  else if MAX_CLUSTER_NODES <? length mv
  then refuse (invalid "meta voter set exceeds the cluster node limit")
  else applied [put_mutation meta_cluster_key config;
                put_mutation (meta_placement_key GroupId_Meta) (mkPlacement mv log_id None)]
  end
  end
  end.

(** Another node owns one of the two endpoints, on either lane. *)
Definition endpoint_taken (node_id : NodeId) (control_addr bulk_addr : string) (other : NodeDirectoryEntry) : bool :=
  negb (nd_node_id other =? node_id)%N &&
  (bool_decide (nd_control_addr other = control_addr) || bool_decide (nd_bulk_addr other = control_addr) ||
   bool_decide (nd_control_addr other = bulk_addr) || bool_decide (nd_bulk_addr other = bulk_addr)).

Definition register_node s (node_id : NodeId) (control_addr bulk_addr : string) : decision :=
  let! c := meta_cluster s in
  if bool_decide (c = None) then refuse (reject MetaReject_ClusterNotInitialized)
  else if (node_id =? 0)%N then refuse (invalid "node_id must be non-zero")
  else if bool_decide (control_addr = "") || bool_decide (bulk_addr = "")
  then refuse (invalid "node addresses must be non-empty")
  else if (MAX_ENDPOINT_BYTES <? String.length control_addr) || (MAX_ENDPOINT_BYTES <? String.length bulk_addr)
  then refuse (invalid "node addresses must be <= 256 bytes")
  else if bool_decide (control_addr = bulk_addr) then refuse (invalid "control_addr and bulk_addr must differ")
  else
  let! retired := meta_retired s node_id in
  if negb (bool_decide (retired = None)) then refuse (invalid "retired node ids cannot be reused")
  else
  let! directory := meta_directory s in
  if existsb (endpoint_taken node_id control_addr bulk_addr) directory
  then refuse (invalid "node addresses are already registered to another node")
  else if (MAX_CLUSTER_NODES <=? length directory) &&
          negb (existsb (λ e, (nd_node_id e =? node_id)%N) directory)
  then refuse (invalid "cluster node count must be <= 8")
  else
  let commit entry := applied [put_mutation (meta_node_key node_id) entry] in
  let! e := meta_node s node_id in
  match e with
  | Some e =>
      if bool_decide (nd_control_addr e = control_addr) && bool_decide (nd_bulk_addr e = bulk_addr)
      then
        if negb (bool_decide (nd_state e = NodeState_Down)) then noop
        else match checked_add u64_max (nd_incarnation e) 1 with
        | None => refuse (invalid "node incarnation exhausted")
        | Some incarnation => commit (e <| nd_state := NodeState_Active |> <| nd_incarnation := incarnation |>)
        end
      else match checked_add u64_max (nd_incarnation e) 1 with
      | None => refuse (invalid "node incarnation exhausted")
      | Some incarnation => commit (mkNodeEntry node_id control_addr bulk_addr NodeState_Active incarnation)
      end
  | None => commit (mkNodeEntry node_id control_addr bulk_addr NodeState_Active 1)
  end.

(** A transition [set_node_state] refuses whatever the incarnation. *)
Definition sticky_state (current next : NodeState) : bool :=
  match current with
  | NodeState_Down => negb (bool_decide (next = NodeState_Down) || bool_decide (next = NodeState_Draining))
  | NodeState_Draining => negb (bool_decide (next = NodeState_Draining))
  | _ => false
  end.

Definition set_node_state s (node_id : NodeId) (state : NodeState) (incarnation : N) : decision :=
  let! e := meta_node s node_id in
  match e with
  | None => refuse (reject MetaReject_UnknownNode)
  | Some entry =>
      if negb (incarnation =? nd_incarnation entry)%N then refuse (reject MetaReject_StaleIncarnation)
      else if sticky_state (nd_state entry) state then refuse (reject MetaReject_StaleIncarnation)
      else if bool_decide (nd_state entry = state) then noop
      else applied [put_mutation (meta_node_key node_id) (entry <| nd_state := state |>)]
  end.

(** The loop of [retire_node]: the first rejection, if any. *)
Fixpoint unreferenced s (node_id : NodeId) (groups : list GroupId) : Result (option MetaApplyResult) :=
  match groups with
  | [] => Ok None
  | g :: groups =>
      let! p := meta_placement s g in
      match p with
      | None => Ok (Some (reject MetaReject_NoPlacement))
      | Some p =>
          if references_node p node_id
          then Ok (Some (invalid "node is still referenced by a placement or move"))
          else unreferenced s node_id groups
      end
  end.

Definition retire_node s (node_id : NodeId) (incarnation : N) : decision :=
  let! retired := meta_retired s node_id in
  match retired with
  | Some retired =>
      refuse (if (retired =? incarnation)%N then MetaApplyResult_NoOp else reject MetaReject_StaleIncarnation)
  | None =>
  let! e := meta_node s node_id in
  match e with
  | None => refuse (reject MetaReject_UnknownNode)
  | Some entry =>
  if negb (nd_incarnation entry =? incarnation)%N then refuse (reject MetaReject_StaleIncarnation)
  else if negb (bool_decide (nd_state entry = NodeState_Draining)) then refuse (reject MetaReject_IneligibleTarget)
  else
  let! c := meta_cluster s in
  match c with
  | None => refuse (reject MetaReject_ClusterNotInitialized)
  | Some cluster =>
      let! found := unreferenced s node_id (all_groups (cc_p cluster)) in
      match found with
      | Some r => refuse r
      | None => applied [put_mutation (T:=U64) (meta_retired_node_key node_id) incarnation;
                         StateMutation_Delete (meta_node_key node_id)]
      end
  end
  end
  end.

(** ** Placement and move plans *)

Fixpoint all_active s (voters : list NodeId) : Result bool :=
  match voters with
  | [] => Ok true
  | v :: voters => let! active := is_active s v in if negb active then Ok false else all_active s voters
  end.

Definition seed_placement s (group : GroupId) (voters : list NodeId) (log_id : LogId) : decision :=
  let! c := meta_cluster s in
  match c with
  | None => refuse (reject MetaReject_ClusterNotInitialized)
  | Some config =>
  match group with
  | GroupId_Meta => refuse (reject MetaReject_SeedMetaForbidden)
  | GroupId_Data partition =>
  if (cc_p config <=? partition)%N then refuse (illegal "partition is outside the configured range")
  else
  let vs := voter_set voters in
  if negb (length vs =? length voters) then refuse (illegal "duplicate voter")
  else if negb (N.of_nat (length vs) =? cc_r config)%N
  then refuse (illegal "initial voters must number exactly R")
  else
  let! active := all_active s voters in
  if negb active then refuse (reject MetaReject_IneligibleTarget)
  else
  let! existing := meta_placement s group in
  match existing with
  | Some existing =>
      if bool_decide (pl_move existing = None) && bool_decide (voter_set (pl_voters existing) = vs)
      then noop else refuse (reject MetaReject_PlacementConflict)
  | None => applied [put_mutation (meta_placement_key group) (mkPlacement vs log_id None)]
  end
  end
  end.

(** The shape checks of [create_plan] for one group: a rejection, or none. *)
Definition plan_shape s (config : ClusterConfig) (group : GroupId) (current target : list NodeId)
    : Result (option MetaApplyResult) :=
  let added := length (bset_difference target current) in
  let removed := length (bset_difference current target) in
  match group with
  | GroupId_Data _ =>
      if negb (N.of_nat (length target) =? cc_r config)%N
      then Ok (Some (illegal "data target must have exactly R voters"))
      else if negb (added =? 1) || negb (removed =? 1)
      then Ok (Some (illegal "data move must change exactly one voter"))
      else
      let! eligible := eligible_count s in
      if (N.of_nat eligible <? cc_r config)%N then Ok (Some (reject MetaReject_IneligibleTarget)) else Ok None
  | GroupId_Meta =>
      if length target <? MIN_META_VOTERS then Ok (Some (illegal "meta move must not leave < 3 voters"))
      else
      let replacement := (added =? 1) && (removed =? 1) && (length target =? length current) in
      let removal := (added =? 0) && (removed =? 1) && (length target + 1 =? length current) in
      if negb (replacement || removal)
      then Ok (Some (illegal "meta move must be single-voter replacement or removal")) else Ok None
  end.

Definition create_plan s (group : GroupId) (target_voters : list NodeId) (log_id : LogId) : decision :=
  let! c := meta_cluster s in
  match c with
  | None => refuse (reject MetaReject_ClusterNotInitialized)
  | Some config =>
  let! p := meta_placement s group in
  match p with
  | None => refuse (reject MetaReject_NoPlacement)
  | Some placement =>
  if negb (bool_decide (pl_move placement = None)) then refuse (reject MetaReject_PlanExists)
  else
  let current := voter_set (pl_voters placement) in
  let target := voter_set target_voters in
  if negb (length target =? length target_voters) then refuse (illegal "duplicate voter")
  else
  let! shape := plan_shape s config group current target in
  match shape with
  | Some r => refuse r
  | None =>
  let! active := all_active s (bset_difference target current) in
  if negb active then refuse (reject MetaReject_IneligibleTarget)
  else applied [put_mutation (meta_placement_key group)
         (placement <| pl_move := Some (mkMovePlan (log_index log_id) (sort_unstable target) false) |>)]
  end
  end
  end.

Definition mark_aborting s (group : GroupId) (plan_id : N) : decision :=
  let! p := meta_placement s group in
  match p with
  | None => refuse (reject MetaReject_NoPlan)
  | Some placement =>
      match pl_move placement with
      | Some m =>
          if (mp_plan_id m =? plan_id)%N
          then if mp_aborting m then noop
               else applied [put_mutation (meta_placement_key group)
                      (placement <| pl_move := Some (m <| mp_aborting := true |>) |>)]
          else refuse (reject MetaReject_PlanIdMismatch)
      | None => refuse (reject MetaReject_NoPlan)
      end
  end.

Definition finalize_plan s (group : GroupId) (plan_id : N) (observation : DataConfigObservation)
    (is_abort : bool) : decision :=
  let! p := meta_placement s group in
  match p with
  | None => refuse (reject MetaReject_NoPlan)
  | Some placement =>
  match pl_move placement with
  | None => refuse (reject MetaReject_NoPlan)
  | Some plan =>
  if negb (mp_plan_id plan =? plan_id)%N then refuse (reject MetaReject_PlanIdMismatch)
  else if negb (bool_decide (ob_group observation = group)) || negb (ob_plan_id observation =? plan_id)%N
  then refuse (reject MetaReject_ObservationMismatch)
  else
  let observed := voter_set (ob_voter_set observation) in
  let finish (ok : bool) (new_voters : list NodeId) :=
    if negb ok then refuse (reject MetaReject_ObservationMismatch)
    else applied [put_mutation (meta_placement_key group)
           (mkPlacement (sort_unstable new_voters) (ob_config_log_id observation) None)] in
  if is_abort
  then
    if negb (mp_aborting plan) then refuse (reject MetaReject_NotAborting)
    else if bool_decide (observed = voter_set (pl_voters placement)) then finish true (pl_voters placement)
    else if bool_decide (observed = voter_set (mp_target_voters plan)) then finish true (mp_target_voters plan)
    else finish false (pl_voters placement)
  else
    if mp_aborting plan then refuse (reject MetaReject_PlanAborting)
    else finish (bool_decide (observed = voter_set (mp_target_voters plan))) (mp_target_voters plan)
  end
  end.

(** ** Search catalog *)

Definition search_index s (name : string) : Result (option SearchIndexRecord) :=
  let! r := get_state_record SearchIndexRecord s GroupId_Meta (meta_search_index_key name) in
  match r with
  | Some record => let! _ := SearchIndexRecord_validate record in Ok (Some record)
  | None => Ok None
  end.

(** The building generation already is the proposed one. *)
Definition same_generation (generation : SearchIndexGeneration) (building : option SearchIndexGeneration) : bool :=
  match building with
  | Some building =>
      bool_decide (sg_definition_hash building = sg_definition_hash generation) &&
      (sg_engine_revision building =? sg_engine_revision generation)%N
  | None => false
  end.

(** The tail of [create_search_index], from the record it works on. *)
Definition start_generation (name : string) (record : SearchIndexRecord) (generation : SearchIndexGeneration)
    (update : bool) : decision :=
  if negb (bool_decide (sr_building record = None))
  then if same_generation generation (sr_building record) then noop
       else refuse (reject MetaReject_SearchGenerationExists)
  else if update && bool_decide (sr_active record = None) then refuse (reject MetaReject_SearchIndexNotFound)
  else if update && (SEARCH_MAX_RETIRING_GENERATIONS <=? vec_len (sr_retiring record))%N
  then refuse (invalid "too many retiring search generations; finalize one before updating")
  else
  let record := record <| sr_building := Some generation |> in
  match SearchIndexRecord_validate record with
  | Err error => refuse (invalid (error_display error))
  | Ok _ => applied [put_mutation (meta_search_index_key name) record]
  end.

Definition create_search_index s (name : string) (definition : SearchIndexDefinition) (engine_revision : N)
    (log_id : LogId) (update : bool) : decision :=
  let! c := meta_cluster s in
  if bool_decide (c = None) then refuse (reject MetaReject_ClusterNotInitialized)
  else match validate_index_name name with
  | Err error => refuse (invalid (error_display error))
  | Ok _ =>
  match with_revision (log_index log_id) engine_revision definition with
  | Err error => refuse (invalid (error_display error))
  | Ok generation =>
  let! existing := search_index s name in
  let! full := (if bool_decide (existing = None) && negb update
                then let! kvs := scan_state s GroupId_Meta in
                     Ok (SEARCH_MAX_INDEXES <=?
                           vec_len (filter (λ kv, starts_with meta_search_index_prefix kv.1 = true) kvs))%N
                else Ok false) in
  if (full : bool) then refuse (invalid "search catalog has reached its maximum index count")
  else match existing, update with
  | None, false => start_generation name (mkSearchRecord name None None []) generation update
  | None, true => refuse (reject MetaReject_SearchIndexNotFound)
  | Some record, false =>
      if bool_decide (sr_active record = None) && same_generation generation (sr_building record)
      then noop else refuse (reject MetaReject_SearchIndexExists)
  | Some record, true => start_generation name record generation update
  end
  end
  end.

Definition report_search_ready s (name : string) (observation : SearchIndexReady) : decision :=
  let! r := search_index s name in
  match r with
  | None => refuse (reject MetaReject_SearchIndexNotFound)
  | Some record =>
  match sr_building record with
  | None => refuse (reject MetaReject_SearchGenerationMismatch)
  | Some building =>
  if negb (ry_generation observation =? sg_id building)%N ||
     negb (bool_decide (ry_definition_hash observation = sg_definition_hash building)) ||
     negb (ry_engine_revision observation =? sg_engine_revision building)%N
  then refuse (reject MetaReject_SearchGenerationMismatch)
  else match ry_group observation with
  | GroupId_Meta => refuse (reject MetaReject_ObservationMismatch)
  | GroupId_Data partition =>
  let! c := meta_cluster s in
  match c with
  | None => refuse (reject MetaReject_ClusterNotInitialized)
  | Some config =>
  if (cc_p config <=? partition)%N || (ry_projection_epoch observation =? 0)%N
  then refuse (reject MetaReject_ObservationMismatch)
  else
  let! p := meta_placement s (ry_group observation) in
  match p with
  | None => refuse (reject MetaReject_NoPlacement)
  | Some placement =>
  if negb (bool_decide (pl_move placement = None)) ||
     negb (bool_decide (pl_voters_log_id placement = ry_voters_log_id observation)) ||
     negb (bool_decide (ry_node_id observation ∈ pl_voters placement))
  then refuse (reject MetaReject_ObservationMismatch)
  else
  let ready_key := meta_search_ready_key name (ry_generation observation) (ry_group observation)
                     (ry_node_id observation) in
  let commit := applied [put_mutation ready_key observation] in
  let! previous := get_state_record SearchIndexReady s GroupId_Meta ready_key in
  match previous with
  | Some previous =>
      if bool_decide (previous = observation) then noop
      else if (ry_projection_epoch observation <? ry_projection_epoch previous)%N ||
              (ry_projection_epoch observation =? ry_projection_epoch previous)%N &&
              (log_index (ry_source_log_id observation) <? log_index (ry_source_log_id previous))%N
      then refuse (reject MetaReject_ObservationMismatch)
      else commit
  | None => commit
  end
  end
  end
  end
  end
  end.

(** The readiness observations of one generation, with their keys. *)
Definition readiness_of s (name : string) (generation : N) : Result (list (bytes * SearchIndexReady)) :=
  let! kvs := scan_state s GroupId_Meta in
  mapR (λ kv, let! ready := decode kv.2 in Ok (kv.1, ready))
    (filter (λ kv, starts_with (meta_search_ready_prefix name generation) kv.1 = true) kvs).

Definition ready_matches (generation : N) (group : GroupId) (placement : Placement)
    (building : SearchIndexGeneration) (node_id : NodeId) (ready : SearchIndexReady) : bool :=
  (ry_generation ready =? generation)%N && bool_decide (ry_group ready = group) &&
  (ry_node_id ready =? node_id)%N && bool_decide (ry_voters_log_id ready = pl_voters_log_id placement) &&
  bool_decide (ry_definition_hash ready = sg_definition_hash building) &&
  (ry_engine_revision ready =? sg_engine_revision building)%N.

(** The loop of [activate_search_generation] over the partitions. *)
Fixpoint partitions_ready s (generation : N) (building : SearchIndexGeneration)
    (readiness : list (bytes * SearchIndexReady)) (groups : list GroupId) : Result bool :=
  match groups with
  | [] => Ok true
  | group :: groups =>
      let! p := meta_placement s group in
      match p with
      | None => Ok false
      | Some placement =>
          if negb (bool_decide (pl_move placement = None)) then Ok false
          else if forallb (λ node_id, existsb (λ kr, ready_matches generation group placement building node_id kr.2)
                                        readiness) (pl_voters placement)
          then partitions_ready s generation building readiness groups else Ok false
      end
  end.

Definition data_groups (p : N) : list GroupId := (λ i, GroupId_Data (N.of_nat i)) <$> seq 0 (N.to_nat p).

(** [if !retiring.contains(&id) { retiring.push(id) }]. *)
Definition push_retiring (retiring : list N) (id : N) : list N :=
  if bool_decide (id ∈ retiring) then retiring else retiring ++ [id].

Definition activate_search_generation s (name : string) (generation : N) : decision :=
  let! r := search_index s name in
  match r with
  | None => refuse (reject MetaReject_SearchIndexNotFound)
  | Some record =>
  if bool_decide (sg_id <$> sr_active record = Some generation) && bool_decide (sr_building record = None)
  then noop
  else match sr_building record with
  | None => refuse (reject MetaReject_SearchGenerationMismatch)
  | Some building =>
  if negb (sg_id building =? generation)%N then refuse (reject MetaReject_SearchGenerationMismatch)
  else
  let! c := meta_cluster s in
  match c with
  | None => refuse (reject MetaReject_ClusterNotInitialized)
  | Some config =>
  let! readiness := readiness_of s name generation in
  let! ready := partitions_ready s generation building readiness (data_groups (cc_p config)) in
  if negb ready then refuse (reject MetaReject_SearchGenerationNotReady)
  else if match sr_active record with
          | Some previous => negb (bool_decide (sg_id previous ∈ sr_retiring record)) &&
                             (SEARCH_MAX_RETIRING_GENERATIONS <=? vec_len (sr_retiring record))%N
          | None => false
          end
  then refuse (invalid "too many retiring search generations; finalize one before activation")
  else
  let retiring := match sr_active record with
                  | Some previous => push_retiring (sr_retiring record) (sg_id previous)
                  | None => sr_retiring record
                  end in
  let record := record <| sr_building := None |> <| sr_active := Some building |> <| sr_retiring := retiring |> in
  match SearchIndexRecord_validate record with
  | Err error => refuse (invalid (error_display error))
  | Ok _ => applied (put_mutation (meta_search_index_key name) record ::
                     ((λ kr, StateMutation_Delete kr.1) <$> readiness))
  end
  end
  end
  end.

Definition opt_list {A} (o : option A) : list A := match o with Some x => [x] | None => [] end.

Definition drop_search_index s (name : string) : decision :=
  let! r := search_index s name in
  match r with
  | None => noop
  | Some record =>
  if bool_decide (sr_active record = None) && bool_decide (sr_building record = None) then noop
  else
  let building := sr_building record in
  let ready_prefix := (λ g, meta_search_ready_prefix name (sg_id g)) <$> building in
  let retiring := opt_list (sr_active record) ++ opt_list building in
  let additions := vec_len (filter (λ g, sg_id g ∉ sr_retiring record) retiring) in
  if (SEARCH_MAX_RETIRING_GENERATIONS <? saturating_add usize_max (vec_len (sr_retiring record)) additions)%N
  then refuse (invalid "too many retiring search generations; finalize one before dropping")
  else
  let record := record <| sr_active := None |> <| sr_building := None |>
                       <| sr_retiring := foldl push_retiring (sr_retiring record) (sg_id <$> retiring) |> in
  match SearchIndexRecord_validate record with
  | Err error => refuse (invalid (error_display error))
  | Ok _ =>
      let! deletions := match ready_prefix with
                        | Some prefix =>
                            let! kvs := scan_state s GroupId_Meta in
                            Ok ((λ kv, StateMutation_Delete kv.1) <$>
                                  filter (λ kv, starts_with prefix kv.1 = true) kvs)
                        | None => Ok []
                        end in
      applied (put_mutation (meta_search_index_key name) record :: deletions)
  end
  end.

Definition finalize_search_drop s (name : string) (generation : N) : decision :=
  let! r := search_index s name in
  match r with
  | None => noop
  | Some record =>
      let retiring := filter (λ id, id ≠ generation) (sr_retiring record) in
      if length retiring =? length (sr_retiring record) then noop
      else
      let record := record <| sr_retiring := retiring |> in
      applied [if bool_decide (sr_active record = None) && bool_decide (sr_building record = None) &&
                  bool_decide (sr_retiring record = [])
               then StateMutation_Delete (meta_search_index_key name)
               else put_mutation (meta_search_index_key name) record]
  end.

(** ** Dispatch *)

Definition meta_dispatch s (cmd : MetaCommand) (log_id : LogId) : decision :=
  match cmd with
  | MetaCommand_ClusterInit config meta_voters => cluster_init s config meta_voters log_id
  | MetaCommand_RegisterNode node_id control_addr bulk_addr => register_node s node_id control_addr bulk_addr
  | MetaCommand_SeedPlacement group voters => seed_placement s group voters log_id
  | MetaCommand_SetNodeState node_id state incarnation => set_node_state s node_id state incarnation
  | MetaCommand_RetireNode node_id incarnation => retire_node s node_id incarnation
  | MetaCommand_CreatePlan group _ target_voters => create_plan s group target_voters log_id
  | MetaCommand_MarkAborting group plan_id => mark_aborting s group plan_id
  | MetaCommand_FinalizePlan group plan_id observation => finalize_plan s group plan_id observation false
  | MetaCommand_AbortReport group plan_id observation => finalize_plan s group plan_id observation true
  | MetaCommand_CreateSearchIndex name definition =>
      create_search_index s name definition LEGACY_SEARCH_ENGINE_REVISION log_id false
  | MetaCommand_CreateSearchIndexGeneration name definition =>
      create_search_index s name definition LEGACY_SEARCH_ENGINE_REVISION log_id true
  | MetaCommand_ReportSearchIndexReady name observation => report_search_ready s name observation
  | MetaCommand_ActivateSearchIndexGeneration name generation => activate_search_generation s name generation
  | MetaCommand_DropSearchIndex name => drop_search_index s name
  | MetaCommand_FinalizeSearchIndexDrop name generation => finalize_search_drop s name generation
  | MetaCommand_CreateSearchIndexWithRevision name definition engine_revision =>
      create_search_index s name definition engine_revision log_id false
  | MetaCommand_CreateSearchIndexGenerationWithRevision name definition engine_revision =>
      create_search_index s name definition engine_revision log_id true
  | MetaCommand_BeginMaintenance operation_id generation participants =>
      begin_maintenance s operation_id generation participants
  | MetaCommand_ReleaseMaintenance operation_id generation live_processes live_incarnations policy_digest =>
      release_maintenance s operation_id generation live_processes live_incarnations policy_digest
  | MetaCommand_AcknowledgeMaintenance operation_id generation node_id incarnation =>
      acknowledge_maintenance s operation_id generation node_id incarnation
  | MetaCommand_QuiesceMaintenance operation_id generation => quiesce_maintenance s operation_id generation
  | MetaCommand_EnterMaintenanceVerification operation_id generation =>
      enter_maintenance_verification s operation_id generation
  | MetaCommand_AcknowledgeMaintenanceRecovery operation_id generation node_id incarnation process_incarnation
      topology_digest policy_digest epoch =>
      acknowledge_maintenance_recovery s operation_id generation node_id incarnation process_incarnation
        topology_digest policy_digest epoch
  end.

(** [MetaStateMachine::evaluate]. *)
Definition meta_evaluate s (cmd : MetaCommand) (log_id : LogId) : decision :=
  let! m := meta_maintenance s in
  if match m with Some record => negb (bool_decide (mr_stage record = MaintenanceStage_Released)) | None => false end &&
     negb (is_maintenance_command cmd)
  then refuse (reject MetaReject_MaintenanceActive)
  else meta_dispatch s cmd log_id.

(** [MetaStateMachine::apply]. *)
Definition meta_apply (cmd : MetaCommand) (log_id : LogId) : io (Storage D) MetaApplyResult :=
  let? d := io_read (λ s, meta_evaluate s cmd log_id) in
  apply_state GroupId_Meta d.2 log_id ;;?
  io_ret d.1.
End meta.
