(* ===== verification/MetaSpec.v ===== *)
(** * Abstract specification of the meta group

    [MetaState] is the replicated control-plane state as finite maps,
    [meta_rep] says which byte map of the state column family represents it,
    [meta_inv] is its well-formedness invariant, and [meta_step] is the
    transition relation of the commands that are applied, each with its
    guard. *)

From S2P Require Import Prelude BTree Types Codec Config SearchDef Keyspace Outbox MetaTypes ApplyDurability Rocks Storage MetaSM.
From coqutil Require Import Datatypes.RecordSetters.
Import TriangleBracketNotations.

Record MetaState := mkMeta {
  ms_identity : option Identity;
  ms_epoch : option N;
  ms_cluster : option ClusterConfig;
  ms_maintenance : option MaintenanceRecord;
  ms_nodes : gmap N NodeDirectoryEntry;
  ms_retired : gmap N N;
  ms_placements : gmap GroupId Placement;
  ms_indexes : gmap string SearchIndexRecord;
  ms_ready : gmap (string * N * GroupId * N) SearchIndexReady;
}.

(** A freshly bound meta group. *)
Definition meta_init (id : Identity) : MetaState := mkMeta (Some id) None None None ∅ ∅ ∅ ∅ ∅.

(** ** Typed keys *)

Inductive meta_key :=
| MK_Epoch | MK_Cluster | MK_Maintenance
| MK_Node (id : N) | MK_Retired (id : N) | MK_Placement (g : GroupId)
| MK_Index (name : string) | MK_Ready (name : string) (generation : N) (g : GroupId) (id : N).
#[global] Instance meta_key_eq_dec : EqDecision meta_key.
Proof. solve_decision. Defined.

Definition key_bytes (k : meta_key) : bytes :=
  match k with
  | MK_Epoch => recovery_epoch_key
  | MK_Cluster => meta_cluster_key
  | MK_Maintenance => meta_maintenance_key
  | MK_Node id => meta_node_key id
  | MK_Retired id => meta_retired_node_key id
  | MK_Placement g => meta_placement_key g
  | MK_Index name => meta_search_index_key name
  | MK_Ready name generation g id => meta_search_ready_key name generation g id
  end.

Definition short_name (name : string) : Prop := (N.of_nat (String.length name) ≤ u32_max)%N.

Definition key_ok (k : meta_key) : Prop :=
  match k with
  | MK_Node id | MK_Retired id => (id ≤ u64_max)%N
  | MK_Ready name generation g id =>
      short_name name ∧ (generation ≤ u64_max)%N ∧ wf g ∧ (id ≤ u64_max)%N
  | _ => True
  end.

Lemma key_bytes_inj j k : key_ok j → key_ok k → key_bytes j = key_bytes k → j = k.
Proof.
  destruct j, k; intros Hj Hk E; try done; simpl in Hj, Hk, E.
  - by apply meta_node_key_inj in E as ->.
  - by apply meta_retired_node_key_inj in E as ->.
  - by apply meta_placement_key_inj in E as ->.
  - by apply meta_search_index_key_inj in E as ->.
  - destruct Hj as (? & ? & ? & ?), Hk as (? & ? & ? & ?).
    by apply meta_search_ready_key_inj in E as (-> & -> & -> & ->).
Qed.

Lemma key_bytes_internal k : key_bytes k ≠ last_applied_key ∧ key_bytes k ≠ raft_applied_key.
Proof. by destruct k. Qed.

(** ** Representation *)

Section rep.
Context `{!Codec U64, !Codec U128, !Codec ClusterConfig, !Codec NodeDirectoryEntry, !Codec MaintenanceRecord}
  `{!Codec Placement, !Codec SearchIndexRecord, !Codec SearchIndexReady}.

Definition meta_lookup (m : MetaState) (k : meta_key) : option bytes :=
  match k with
  | MK_Epoch => (λ n : N, encode (A:=U128) n) <$> ms_epoch m
  | MK_Cluster => encode (A:=ClusterConfig) <$> ms_cluster m
  | MK_Maintenance => encode (A:=MaintenanceRecord) <$> ms_maintenance m
  | MK_Node id => encode (A:=NodeDirectoryEntry) <$> ms_nodes m !! id
  | MK_Retired id => (λ n : N, encode (A:=U64) n) <$> ms_retired m !! id
  | MK_Placement g => encode (A:=Placement) <$> ms_placements m !! g
  | MK_Index name => encode (A:=SearchIndexRecord) <$> ms_indexes m !! name
  | MK_Ready name generation g id => encode (A:=SearchIndexReady) <$> ms_ready m !! (name, generation, g, id)
  end.

(** The byte map holds exactly the encodings of the state, besides the two
    singletons that record the applied position. *)
Record meta_rep (look : bytes → option bytes) (m : MetaState) : Prop := {
  mrep_lookup k : key_ok k → look (key_bytes k) = meta_lookup m k;
  mrep_keys b v : look b = Some v →
    b = last_applied_key ∨ b = raft_applied_key ∨ ∃ k, key_ok k ∧ b = key_bytes k;
}.

(** An edit of one typed key, as the mutation that performs it. *)
Definition edit_mutation (e : meta_key * option bytes) : StateMutation :=
  match e.2 with
  | Some v => StateMutation_Put (key_bytes e.1) v
  | None => StateMutation_Delete (key_bytes e.1)
  end.
Definition edit_lookup (k : meta_key) (o : option bytes) (es : list (meta_key * option bytes)) : option bytes :=
  foldl (λ o e, if decide (e.1 = k) then e.2 else o) o es.

Lemma edit_mutations_get k es o :
  key_ok k → Forall (λ e, key_ok e.1) es →
  mutations_get (key_bytes k) (edit_mutation <$> es) o = edit_lookup k o es.
Proof.
  intros Hk Hes. revert o. induction Hes as [|[j v] es Hj Hes IH]; intros o; [done|]. simpl in Hj.
  cbn [fmap list_fmap]. unfold mutations_get in *. cbn [foldl]. rewrite IH. unfold edit_lookup. cbn [foldl].
  f_equal. rewrite mutation_apply_spec. unfold edit_mutation. simpl.
  destruct v; simpl; repeat case_decide; subst; try done; by destruct (key_bytes_inj j k).
Qed.

Lemma meta_rep_edits look m m' es :
  meta_rep look m → Forall (λ e, key_ok e.1) es →
  (∀ k, key_ok k → meta_lookup m' k = edit_lookup k (meta_lookup m k) es) →
  meta_rep (λ b, mutations_get b (edit_mutation <$> es) (look b)) m'.
Proof.
  intros Hr Hes Hm. constructor.
  - intros k Hk. rewrite edit_mutations_get, (mrep_lookup _ _ Hr) by done. by rewrite Hm.
  - intros b v. destruct (decide (Exists (λ e, key_bytes e.1 = b) es)) as [Hx|Hx].
    + intros _. right. right. apply Exists_exists in Hx as (e & He & <-). exists e.1. split; [|done].
      rewrite Forall_forall in Hes. by apply Hes.
    + rewrite mutations_get_none; [apply Hr|]. rewrite Forall_fmap. apply Forall_forall. intros e He E.
      apply Hx, Exists_exists. exists e. split; [done|]. unfold edit_mutation in E. simpl in E. by destruct e.2.
Qed.

(** The representation does not see the applied position. *)
Lemma meta_rep_ext look look' m :
  (∀ b, b ≠ last_applied_key → b ≠ raft_applied_key → look' b = look b) → meta_rep look m → meta_rep look' m.
Proof.
  intros He Hr. constructor.
  - intros k Hk. rewrite He by apply key_bytes_internal. by apply Hr.
  - intros b v Hb. destruct (decide (b = last_applied_key)) as [->|Hne]; [by left|].
    destruct (decide (b = raft_applied_key)) as [->|Hne']; [by right; left|].
    rewrite He in Hb by done. by eapply Hr.
Qed.
End rep.

(** ** Well-formedness invariant *)

Definition endpoints (e : NodeDirectoryEntry) : list string := [nd_control_addr e; nd_bulk_addr e].
Definition endpoint_ok (a : string) : Prop := a ≠ "" ∧ String.length a ≤ MAX_ENDPOINT_BYTES.

Record node_ok (id : N) (e : NodeDirectoryEntry) : Prop := {
  nk_id : nd_node_id e = id;
  nk_nonzero : id ≠ 0%N;
  nk_wf : wf e;
  nk_incarnation : (1 ≤ nd_incarnation e)%N;
  nk_endpoints : Forall endpoint_ok (endpoints e);
  nk_lanes : nd_control_addr e ≠ nd_bulk_addr e;
}.

Record cluster_ok (c : ClusterConfig) : Prop := {
  ck_wf : wf c;
  ck_r : (MIN_REPLICATION ≤ cc_r c)%N;
  ck_p : (0 < cc_p c)%N;
  ck_shape : validate_routing_shape (cc_p c) (cc_r c) = Ok tt;
}.

(** The voters a plan adds and removes. *)
Definition voters_added (current target : list NodeId) : list NodeId := bset_difference target current.
Definition voters_removed (current target : list NodeId) : list NodeId := bset_difference current target.

(** A legal target: one voter replaced, or, for the meta group, one removed. *)
Definition single_change (g : GroupId) (current target : list NodeId) : Prop :=
  length (voters_removed current target) = 1 ∧
  match g with
  | GroupId_Data _ => length (voters_added current target) = 1
  | GroupId_Meta => length (voters_added current target) ≤ 1 ∧ MIN_META_VOTERS ≤ length target
  end.

Record placement_ok (c : ClusterConfig) (g : GroupId) (p : Placement) : Prop := {
  pk_wf : wf p;
  pk_sorted : bset_sorted (pl_voters p);
  pk_size : match g with
            | GroupId_Data i => (i < cc_p c)%N ∧ N.of_nat (length (pl_voters p)) = cc_r c
            | GroupId_Meta => MIN_META_VOTERS ≤ length (pl_voters p) ≤ MAX_CLUSTER_NODES
            end;
  pk_move plan : pl_move p = Some plan →
    bset_sorted (mp_target_voters plan) ∧ single_change g (pl_voters p) (mp_target_voters plan);
}.

Record maintenance_ok (r : MaintenanceRecord) : Prop := {
  mk_wf : wf r;
  mk_ids : mr_operation_id r ≠ 0%N ∧ mr_generation r ≠ 0%N;
  mk_participants : bset_sorted (mr_participants r) ∧ mr_participants r ≠ [];
  mk_acknowledged : bset_sorted (mr_acknowledged r) ∧ mr_acknowledged r ⊆ mr_participants r;
  mk_recovered : bset_sorted (mr_recovered r) ∧ mr_recovered r ⊆ mr_participants r;
  mk_processes : (mr_recovery_processes r).*1 = mr_recovered r;
  mk_digests : (mr_recovery_policy_digests r).*1 = mr_recovered r;
  mk_digest d : mr_verification_policy_digest r = Some d →
    mr_recovered r = mr_participants r ∧ Forall (λ nd, nd.2 = d) (mr_recovery_policy_digests r);
  mk_quiesced : mr_stage r = MaintenanceStage_Quiesced ∨ mr_stage r = MaintenanceStage_Verifying →
    mr_acknowledged r = mr_participants r;
}.

Section invariant.
Context `{Hashes} `{!Codec SearchIndexDefinition, !Codec SearchIndexRecord}.

Record index_ok (name : string) (r : SearchIndexRecord) : Prop := {
  ik_name : sr_name r = name;
  ik_wf : wf r;
  ik_valid : SearchIndexRecord_validate r = Ok tt;
}.

(** A readiness observation is stored under its own coordinates, for the
    generation its index is building. *)
Record ready_ok (m : MetaState) (name : string) (generation : N) (g : GroupId) (id : N) (o : SearchIndexReady)
    : Prop := {
  yk_wf : wf o;
  yk_key : ry_generation o = generation ∧ ry_group o = g ∧ ry_node_id o = id;
  yk_building : ∃ r b, ms_indexes m !! name = Some r ∧ sr_building r = Some b ∧ sg_id b = generation ∧
    ry_definition_hash o = sg_definition_hash b ∧ ry_engine_revision o = sg_engine_revision b;
}.

Record meta_inv (m : MetaState) : Prop := {
  mi_epoch e : ms_epoch m = Some e → (e ≤ u128_max)%N;
  mi_cluster c : ms_cluster m = Some c → cluster_ok c ∧ is_Some (ms_placements m !! GroupId_Meta);
  mi_nodes id e : ms_nodes m !! id = Some e → node_ok id e;
  mi_endpoints i j ei ej a : ms_nodes m !! i = Some ei → ms_nodes m !! j = Some ej →
    a ∈ endpoints ei → a ∈ endpoints ej → i = j;
  mi_node_count : size (ms_nodes m) ≤ MAX_CLUSTER_NODES;
  mi_retired id i : ms_retired m !! id = Some i →
    is_Some (ms_cluster m) ∧ (id ≤ u64_max)%N ∧ (i ≤ u64_max)%N ∧ ms_nodes m !! id = None ∧
    ∀ g p, ms_placements m !! g = Some p → references_node p id = false;
  mi_placements g p : ms_placements m !! g = Some p → ∃ c, ms_cluster m = Some c ∧ placement_ok c g p;
  mi_maintenance r : ms_maintenance m = Some r → is_Some (ms_cluster m) ∧ maintenance_ok r;
  mi_indexes name r : ms_indexes m !! name = Some r → index_ok name r;
  mi_index_count : (N.of_nat (size (ms_indexes m)) ≤ SEARCH_MAX_INDEXES)%N;
  mi_ready name generation g id o : ms_ready m !! (name, generation, g, id) = Some o →
    ready_ok m name generation g id o;
}.
End invariant.

(** ** Transitions *)

Definition node_active (m : MetaState) (id : N) : Prop :=
  ∃ e, ms_nodes m !! id = Some e ∧ nd_state e = NodeState_Active.

(** The Active nodes, ascending. *)
Definition active_nodes (m : MetaState) : list NodeId :=
  bset_of_list (nd_node_id <$> filter (λ e, active_entry e = true) ((map_to_list (ms_nodes m)).*2)).

(** No operation in progress. *)
Definition fence_open (m : MetaState) : Prop :=
  ∀ r, ms_maintenance m = Some r → mr_stage r = MaintenanceStage_Released.

Record register_guard (m : MetaState) (id : N) (control bulk : string) : Prop := {
  rg_cluster : is_Some (ms_cluster m);
  rg_id : id ≠ 0%N;
  rg_endpoints : endpoint_ok control ∧ endpoint_ok bulk ∧ control ≠ bulk;
  rg_retired : ms_retired m !! id = None;
  rg_free j e : ms_nodes m !! j = Some e → j ≠ id → control ∉ endpoints e ∧ bulk ∉ endpoints e;
}.

(** ** Updates of one part of the state *)

Definition set_cluster (c : ClusterConfig) (m : MetaState) : MetaState :=
  mkMeta (ms_identity m) (ms_epoch m) (Some c) (ms_maintenance m) (ms_nodes m) (ms_retired m) (ms_placements m) (ms_indexes m) (ms_ready m).
Definition set_node (id : N) (e : NodeDirectoryEntry) (m : MetaState) : MetaState :=
  mkMeta (ms_identity m) (ms_epoch m) (ms_cluster m) (ms_maintenance m) (<[id := e]> (ms_nodes m)) (ms_retired m) (ms_placements m) (ms_indexes m) (ms_ready m).
Definition retire (id incarnation : N) (m : MetaState) : MetaState :=
  mkMeta (ms_identity m) (ms_epoch m) (ms_cluster m) (ms_maintenance m) (delete id (ms_nodes m)) (<[id := incarnation]> (ms_retired m)) (ms_placements m) (ms_indexes m) (ms_ready m).
Definition set_placement (g : GroupId) (p : Placement) (m : MetaState) : MetaState :=
  mkMeta (ms_identity m) (ms_epoch m) (ms_cluster m) (ms_maintenance m) (ms_nodes m) (ms_retired m) (<[g := p]> (ms_placements m)) (ms_indexes m) (ms_ready m).
Definition set_maintenance (r : MaintenanceRecord) (m : MetaState) : MetaState :=
  mkMeta (ms_identity m) (ms_epoch m) (ms_cluster m) (Some r) (ms_nodes m) (ms_retired m) (ms_placements m) (ms_indexes m) (ms_ready m).
Definition set_index (name : string) (r : SearchIndexRecord) (m : MetaState) : MetaState :=
  mkMeta (ms_identity m) (ms_epoch m) (ms_cluster m) (ms_maintenance m) (ms_nodes m) (ms_retired m) (ms_placements m) (<[name := r]> (ms_indexes m)) (ms_ready m).
Definition delete_index (name : string) (m : MetaState) : MetaState :=
  mkMeta (ms_identity m) (ms_epoch m) (ms_cluster m) (ms_maintenance m) (ms_nodes m) (ms_retired m) (ms_placements m) (delete name (ms_indexes m)) (ms_ready m).
Definition set_ready (name : string) (o : SearchIndexReady) (m : MetaState) : MetaState :=
  mkMeta (ms_identity m) (ms_epoch m) (ms_cluster m) (ms_maintenance m) (ms_nodes m) (ms_retired m) (ms_placements m) (ms_indexes m) (<[(name, ry_generation o, ry_group o, ry_node_id o) := o]> (ms_ready m)).
(** Forget the readiness of one generation of an index. *)
Definition clear_ready (name : string) (generation : N) (m : MetaState) : MetaState :=
  mkMeta (ms_identity m) (ms_epoch m) (ms_cluster m) (ms_maintenance m) (ms_nodes m) (ms_retired m) (ms_placements m) (ms_indexes m) (filter (λ kv, ¬ (kv.1.1.1.1 = name ∧ kv.1.1.1.2 = generation)) (ms_ready m)).

Section steps.
Context `{Hashes} `{!Codec SearchIndexDefinition, !Codec SearchIndexRecord}.

(** The applied commands, one rule each; [log] is the entry's log id. *)
Inductive meta_rule (m : MetaState) (log : LogId) : MetaCommand → MetaState → Prop :=
| rule_cluster_init config voters id :
    ms_cluster m = None → ms_identity m = Some id → cc_cluster_id config = id_cluster_id id →
    cc_protocol_version config = PROTOCOL_VERSION → (MIN_REPLICATION ≤ cc_r config)%N → (0 < cc_p config)%N →
    validate_routing_shape (cc_p config) (cc_r config) = Ok tt →
    NoDup voters → MIN_META_VOTERS ≤ length voters ≤ MAX_CLUSTER_NODES → Nat.even (length voters) = false →
    meta_rule m log (MetaCommand_ClusterInit config voters)
      (set_placement GroupId_Meta (mkPlacement (voter_set voters) log None) (set_cluster config m))
| rule_register_new id control bulk :
    register_guard m id control bulk → ms_nodes m !! id = None → size (ms_nodes m) < MAX_CLUSTER_NODES →
    meta_rule m log (MetaCommand_RegisterNode id control bulk)
      (set_node id (mkNodeEntry id control bulk NodeState_Active 1) m)
| rule_register_rejoin id control bulk e :
    register_guard m id control bulk → ms_nodes m !! id = Some e →
    nd_state e = NodeState_Down ∨ endpoints e ≠ [control; bulk] → (nd_incarnation e < u64_max)%N →
    meta_rule m log (MetaCommand_RegisterNode id control bulk)
      (set_node id (mkNodeEntry id control bulk NodeState_Active (nd_incarnation e + 1)) m)
| rule_set_node_state id state e :
    ms_nodes m !! id = Some e → sticky_state (nd_state e) state = false → nd_state e ≠ state →
    meta_rule m log (MetaCommand_SetNodeState id state (nd_incarnation e))
      (set_node id (e <| nd_state := state |>) m)
| rule_retire_node id e c :
    ms_retired m !! id = None → ms_nodes m !! id = Some e → nd_state e = NodeState_Draining →
    ms_cluster m = Some c →
    (∀ g, g ∈ all_groups (cc_p c) → ∃ p, ms_placements m !! g = Some p ∧ references_node p id = false) →
    meta_rule m log (MetaCommand_RetireNode id (nd_incarnation e))
      (retire id (nd_incarnation e) m)
| rule_seed_placement partition voters c :
    ms_cluster m = Some c → (partition < cc_p c)%N → NoDup voters → N.of_nat (length voters) = cc_r c →
    Forall (node_active m) voters → ms_placements m !! GroupId_Data partition = None →
    meta_rule m log (MetaCommand_SeedPlacement (GroupId_Data partition) voters)
      (set_placement (GroupId_Data partition) (mkPlacement (voter_set voters) log None) m)
| rule_create_plan g plan_id target p c :
    ms_cluster m = Some c →
    (is_data g = true → (cc_r c ≤ N.of_nat (length (filter (λ e, active_entry e = true) (map_to_list (ms_nodes m)).*2)))%N) →
    ms_placements m !! g = Some p → pl_move p = None → NoDup target →
    single_change g (pl_voters p) (voter_set target) →
    Forall (node_active m) (voters_added (pl_voters p) (voter_set target)) →
    meta_rule m log (MetaCommand_CreatePlan g plan_id target)
      (set_placement g (p <| pl_move := Some (mkMovePlan (log_index log) (voter_set target) false) |>) m)
| rule_mark_aborting g p plan :
    ms_placements m !! g = Some p → pl_move p = Some plan → mp_aborting plan = false →
    meta_rule m log (MetaCommand_MarkAborting g (mp_plan_id plan))
      (set_placement g (p <| pl_move := Some (plan <| mp_aborting := true |>) |>) m)
| rule_finalize_plan g p plan o :
    ms_placements m !! g = Some p → pl_move p = Some plan → mp_aborting plan = false →
    ob_group o = g → ob_plan_id o = mp_plan_id plan → voter_set (ob_voter_set o) = mp_target_voters plan →
    meta_rule m log (MetaCommand_FinalizePlan g (mp_plan_id plan) o)
      (set_placement g (mkPlacement (mp_target_voters plan) (ob_config_log_id o) None) m)
| rule_abort_report g p plan o voters :
    ms_placements m !! g = Some p → pl_move p = Some plan → mp_aborting plan = true →
    ob_group o = g → ob_plan_id o = mp_plan_id plan → voter_set (ob_voter_set o) = voters →
    voters = pl_voters p ∨ voters = mp_target_voters plan →
    meta_rule m log (MetaCommand_AbortReport g (mp_plan_id plan) o)
      (set_placement g (mkPlacement voters (ob_config_log_id o) None) m)
| rule_begin_maintenance op generation participants c :
    ms_cluster m = Some c → op ≠ 0%N → generation ≠ 0%N → participants ≠ [] → participants = active_nodes m →
    (∀ g, g ∈ all_groups (cc_p c) →
       ∃ p, ms_placements m !! g = Some p ∧ pl_move p = None ∧ pl_voters p ⊆ participants) →
    (∀ name r, ms_indexes m !! name = Some r → sr_building r = None ∧ sr_retiring r = []) →
    match ms_maintenance m with
    | None => generation = 1%N
    | Some r => mr_stage r = MaintenanceStage_Released ∧ mr_operation_id r ≠ op ∧
                generation = (mr_generation r + 1)%N
    end →
    meta_rule m log (MetaCommand_BeginMaintenance op generation participants)
      (set_maintenance (mkMaintenance op generation participants [] [] [] [] None None
                          MaintenanceStage_Preparing) m)
| rule_release_maintenance r live_processes live_incarnations digest :
    ms_maintenance m = Some r →
    mr_stage r = MaintenanceStage_Preparing ∨
    (mr_stage r = MaintenanceStage_Verifying ∧ mr_recovered r = mr_participants r ∧
     mr_verification_policy_digest r = Some digest ∧
     mr_verification_recovery_epoch r = Some (default 0%N (ms_epoch m)) ∧
     mr_recovery_processes r = live_processes ∧
     Forall2 (λ id ni, ni.1 = id ∧ ∃ e, ms_nodes m !! id = Some e ∧ nd_state e = NodeState_Active ∧
                         nd_incarnation e = ni.2) (mr_participants r) live_incarnations) →
    meta_rule m log (MetaCommand_ReleaseMaintenance (mr_operation_id r) (mr_generation r)
                       live_processes live_incarnations digest)
      (set_maintenance (r <| mr_stage := MaintenanceStage_Released |>) m)
| rule_acknowledge_maintenance r id e index :
    ms_maintenance m = Some r → mr_stage r = MaintenanceStage_Preparing → id ∈ mr_participants r →
    ms_nodes m !! id = Some e → nd_state e = NodeState_Active →
    binary_search id (mr_acknowledged r) = inr index →
    meta_rule m log (MetaCommand_AcknowledgeMaintenance (mr_operation_id r) (mr_generation r) id (nd_incarnation e))
      (set_maintenance (r <| mr_acknowledged := vec_insert index id (mr_acknowledged r) |>) m)
| rule_quiesce_maintenance r :
    ms_maintenance m = Some r → mr_stage r = MaintenanceStage_Preparing →
    mr_acknowledged r = mr_participants r →
    meta_rule m log (MetaCommand_QuiesceMaintenance (mr_operation_id r) (mr_generation r))
      (set_maintenance (r <| mr_stage := MaintenanceStage_Quiesced |>) m)
| rule_enter_verification r :
    ms_maintenance m = Some r → mr_stage r = MaintenanceStage_Quiesced →
    meta_rule m log (MetaCommand_EnterMaintenanceVerification (mr_operation_id r) (mr_generation r))
      (set_maintenance (r <| mr_stage := MaintenanceStage_Verifying |> <| mr_recovered := [] |>
            <| mr_recovery_processes := [] |> <| mr_recovery_policy_digests := [] |>
            <| mr_verification_policy_digest := None |> <| mr_verification_recovery_epoch := None |>) m)
| rule_acknowledge_recovery r id e process topology digest c expected :
    ms_maintenance m = Some r → mr_stage r = MaintenanceStage_Verifying → id ∈ mr_participants r →
    ms_nodes m !! id = Some e → nd_state e = NodeState_Active → process ≠ 0%N → digest ≠ zero_digest →
    recorded_process r id process = None → ms_cluster m = Some c →
    (* the topology the node must report: the groups it votes in *)
    expected = omap (λ g, p ← ms_placements m !! g; if decide (id ∈ pl_voters p) then Some (g, pl_voters p) else None)
                 (all_groups (cc_p c)) →
    (∀ g, g ∈ all_groups (cc_p c) → ∃ p, ms_placements m !! g = Some p ∧ pl_move p = None) →
    topology = maintenance_topology_digest expected →
    meta_rule m log (MetaCommand_AcknowledgeMaintenanceRecovery (mr_operation_id r) (mr_generation r) id
                       (nd_incarnation e) process topology digest (default 0%N (ms_epoch m)))
      (set_maintenance (record_recovery r id process digest (default 0%N (ms_epoch m))) m)
| rule_create_index cmd name definition revision generation :
    (cmd = MetaCommand_CreateSearchIndexWithRevision name definition revision ∨
     cmd = MetaCommand_CreateSearchIndex name definition ∧ revision = LEGACY_SEARCH_ENGINE_REVISION) →
    is_Some (ms_cluster m) → with_revision (log_index log) revision definition = Ok generation →
    ms_indexes m !! name = None → (N.of_nat (size (ms_indexes m)) < SEARCH_MAX_INDEXES)%N →
    SearchIndexRecord_validate (mkSearchRecord name None (Some generation) []) = Ok tt →
    meta_rule m log cmd (set_index name (mkSearchRecord name None (Some generation) []) m)
| rule_create_generation cmd name definition revision generation r :
    (cmd = MetaCommand_CreateSearchIndexGenerationWithRevision name definition revision ∨
     cmd = MetaCommand_CreateSearchIndexGeneration name definition ∧ revision = LEGACY_SEARCH_ENGINE_REVISION) →
    is_Some (ms_cluster m) → with_revision (log_index log) revision definition = Ok generation →
    ms_indexes m !! name = Some r → sr_building r = None → is_Some (sr_active r) →
    SearchIndexRecord_validate (r <| sr_building := Some generation |>) = Ok tt →
    meta_rule m log cmd (set_index name (r <| sr_building := Some generation |>) m)
| rule_report_ready name o r b c partition p :
    ms_indexes m !! name = Some r → sr_building r = Some b → ry_generation o = sg_id b →
    ry_definition_hash o = sg_definition_hash b → ry_engine_revision o = sg_engine_revision b →
    ry_group o = GroupId_Data partition → ms_cluster m = Some c → (partition < cc_p c)%N →
    ry_projection_epoch o ≠ 0%N → ms_placements m !! GroupId_Data partition = Some p → pl_move p = None →
    pl_voters_log_id p = ry_voters_log_id o → ry_node_id o ∈ pl_voters p →
    (∀ old, ms_ready m !! (name, ry_generation o, ry_group o, ry_node_id o) = Some old →
       (ry_projection_epoch old < ry_projection_epoch o)%N ∨
       (ry_projection_epoch old = ry_projection_epoch o ∧
        (log_index (ry_source_log_id old) ≤ log_index (ry_source_log_id o))%N)) →
    meta_rule m log (MetaCommand_ReportSearchIndexReady name o)
      (set_ready name o m)
| rule_activate name r b c retiring :
    ms_indexes m !! name = Some r → sr_building r = Some b → ms_cluster m = Some c →
    (* every voter of every partition is ready at its current configuration *)
    (∀ g, g ∈ data_groups (cc_p c) → ∃ p, ms_placements m !! g = Some p ∧ pl_move p = None ∧
       ∀ v, v ∈ pl_voters p → ∃ o, ms_ready m !! (name, sg_id b, g, v) = Some o ∧
         ry_voters_log_id o = pl_voters_log_id p) →
    retiring = match sr_active r with Some a => push_retiring (sr_retiring r) (sg_id a) | None => sr_retiring r end →
    SearchIndexRecord_validate (mkSearchRecord (sr_name r) (Some b) None retiring) = Ok tt →
    meta_rule m log (MetaCommand_ActivateSearchIndexGeneration name (sg_id b))
      (clear_ready name (sg_id b) (set_index name (mkSearchRecord (sr_name r) (Some b) None retiring) m))
| rule_drop_index name r r' :
    ms_indexes m !! name = Some r → is_Some (sr_active r) ∨ is_Some (sr_building r) →
    r' = mkSearchRecord (sr_name r) None None
           (foldl push_retiring (sr_retiring r) (sg_id <$> (opt_list (sr_active r) ++ opt_list (sr_building r)))) →
    SearchIndexRecord_validate r' = Ok tt →
    meta_rule m log (MetaCommand_DropSearchIndex name)
      (match sr_building r with
       | Some b => clear_ready name (sg_id b) (set_index name r' m)
       | None => set_index name r' m
       end)
| rule_finalize_drop name generation r retiring :
    ms_indexes m !! name = Some r → generation ∈ sr_retiring r →
    retiring = filter (λ id, id ≠ generation) (sr_retiring r) →
    meta_rule m log (MetaCommand_FinalizeSearchIndexDrop name generation)
      (if bool_decide (sr_active r = None) && bool_decide (sr_building r = None) && bool_decide (retiring = [])
       then delete_index name m
       else set_index name (r <| sr_retiring := retiring |>) m).

(** A command takes effect when its rule applies and, unless it drives the
    maintenance operation itself, no operation is in progress. *)
Definition meta_step (m : MetaState) (log : LogId) (cmd : MetaCommand) (m' : MetaState) : Prop :=
  (is_maintenance_command cmd = true ∨ fence_open m) ∧ meta_rule m log cmd m'.
End steps.
