(* ===== verification/MetaReads.v ===== *)
(** * Reading the meta group's store

    Every accessor and scan of the meta state machine, on a store that
    represents an abstract state satisfying [meta_inv], returns the abstract
    value. *)

From S2P Require Import Prelude BTree Types Codec Config SearchDef Keyspace Outbox MetaTypes ApplyDurability Rocks Storage MetaSM MetaSpec.

Lemma decode_opt_encode `{Codec T} (o : option T) :
  (∀ x, o = Some x → wf x) → decode_opt (encode <$> o) = Ok o.
Proof. destruct o as [x|]; intros Hw; [|done]. simpl. by rewrite decode_encode by auto. Qed.

(** A scan of one key family lists exactly the entries of its map. *)
Lemma scan_family {K A} `{Countable K} (M : gmap K A) (key : K → bytes) (enc : A → bytes)
    (P : bytes → bool) (kvs : list (bytes * bytes)) :
  NoDup kvs.*1 →
  (∀ b v, (b, v) ∈ kvs ∧ P b = true ↔ ∃ i x, M !! i = Some x ∧ b = key i ∧ v = enc x) →
  (∀ i j x y, M !! i = Some x → M !! j = Some y → key i = key j → i = j) →
  filter (λ kv, P kv.1 = true) kvs ≡ₚ (λ ix, (key ix.1, enc ix.2)) <$> map_to_list M.
Proof.
  intros Hnd Hin Hinj. apply NoDup_Permutation.
  - apply NoDup_filter. by eapply NoDup_fmap_1.
  - apply NoDup_fmap_2_strong; [|apply NoDup_map_to_list]. intros [i x] [j y] Hi Hj E. simpl in E.
    apply elem_of_map_to_list in Hi, Hj. injection E as E _.
    assert (i = j) as -> by eauto. congruence.
  - intros [b v]. rewrite list_elem_of_filter, list_elem_of_fmap. simpl.
    rewrite (comm and), Hin. split.
    + intros (i & x & Hi & -> & ->). exists (i, x). split; [done|]. by apply elem_of_map_to_list.
    + intros ([i x] & [= -> ->] & Hi). apply elem_of_map_to_list in Hi. eauto.
Qed.

Section reads.
Context `{RocksOk D} `{HashesOk} `{!Codec U64, !Codec U128, !Codec string, !Codec LogId, !Codec Identity}
  `{!Codec ClusterConfig, !Codec NodeDirectoryEntry, !Codec MaintenanceRecord, !Codec Placement}
  `{!Codec SearchIndexDefinition, !Codec SearchIndexRecord, !Codec SearchIndexReady}.
Implicit Types (s : Storage D) (m : MetaState).

(** A store whose meta group represents [m]. *)
Record meta_store s m : Prop := {
  mst_cache : cache_ok s;
  mst_open : is_ok (state_cf s GroupId_Meta) = true;
  mst_rep : meta_rep (state_map s GroupId_Meta) m;
  mst_identity : identity s = Ok (ms_identity m);
}.

Section accessors.
Context (s : Storage D) (m : MetaState) (Hs : meta_store s m) (Hi : meta_inv m).

Lemma read_key T `{Codec T} k : key_ok k →
  get_state_record T s GroupId_Meta (key_bytes k) = decode_opt (meta_lookup m k).
Proof.
  intros Hk. rewrite <-(mrep_lookup _ _ (mst_rep _ _ Hs)) by done.
  unfold get_state_record, get_state, state_map. pose proof (mst_open _ _ Hs).
  by destruct (state_cf s GroupId_Meta).
Qed.

Lemma meta_cluster_read : meta_cluster s = Ok (ms_cluster m).
Proof.
  unfold meta_cluster. rewrite (read_key _ MK_Cluster) by done. apply decode_opt_encode.
  intros c Hc. by apply (mi_cluster m Hi).
Qed.

Lemma meta_node_read id : (id ≤ u64_max)%N → meta_node s id = Ok (ms_nodes m !! id).
Proof.
  intros Hid. unfold meta_node. rewrite (read_key _ (MK_Node id)) by done. apply decode_opt_encode.
  intros e He. by eapply nk_wf, mi_nodes.
Qed.

Lemma meta_maintenance_read : meta_maintenance s = Ok (ms_maintenance m).
Proof.
  unfold meta_maintenance. rewrite (read_key _ MK_Maintenance) by done. apply decode_opt_encode.
  intros r Hr. apply mk_wf. by apply (mi_maintenance m Hi).
Qed.

Lemma meta_placement_read g : meta_placement s g = Ok (ms_placements m !! g).
Proof.
  unfold meta_placement. rewrite (read_key _ (MK_Placement g)) by done. apply decode_opt_encode.
  intros p Hp. destruct (mi_placements m Hi g p Hp) as (c & _ & Hok). apply Hok.
Qed.

Lemma meta_retired_read id : (id ≤ u64_max)%N → meta_retired s id = Ok (ms_retired m !! id).
Proof.
  intros Hid. unfold meta_retired. rewrite (read_key _ (MK_Retired id)) by done.
  apply (decode_opt_encode (T:=U64)). intros i Hr. by eapply mi_retired.
Qed.

Lemma recovery_epoch_read : recovery_epoch s GroupId_Meta = Ok (default 0%N (ms_epoch m)).
Proof.
  unfold recovery_epoch. rewrite (read_key _ MK_Epoch) by done. simpl.
  assert (decode_opt (T:=U128) ((λ n : N, encode (A:=U128) n) <$> ms_epoch m) = Ok (ms_epoch m)) as ->; [|done].
  apply (decode_opt_encode (T:=U128)). intros e He. by apply (mi_epoch m Hi).
Qed.

Lemma search_index_read name : search_index s name = Ok (ms_indexes m !! name).
Proof.
  unfold search_index. rewrite (read_key _ (MK_Index name)) by done. cbn [meta_lookup].
  rewrite decode_opt_encode by (intros r Hr; by eapply ik_wf, mi_indexes). cbn [rbind].
  destruct (ms_indexes m !! name) as [r|] eqn:Er; [|done].
  by rewrite (ik_valid _ _ (mi_indexes m Hi _ _ Er)).
Qed.

Lemma is_active_read id : (id ≤ u64_max)%N → ∃ b, is_active s id = Ok b ∧ (b = true ↔ node_active m id).
Proof.
  intros Hid. unfold is_active. rewrite meta_node_read by done. eexists. split; [done|].
  unfold node_active. destruct (ms_nodes m !! id) as [e|]; [|naive_solver].
  unfold active_entry. rewrite bool_decide_eq_true. naive_solver.
Qed.

Lemma all_active_read voters : Forall (λ v, v ≤ u64_max)%N voters →
  ∃ b, all_active s voters = Ok b ∧ (b = true ↔ Forall (node_active m) voters).
Proof.
  induction 1 as [|v voters Hv Hvs (b & IHb & IH)]; simpl.
  { exists true. split; [done|]. by split. }
  destruct (is_active_read v Hv) as (a & -> & Ha). simpl. destruct a; simpl.
  - exists b. split; [done|]. rewrite Forall_cons, IH. naive_solver.
  - exists false. split; [done|]. rewrite Forall_cons. naive_solver.
Qed.

(** ** Scans *)

Definition scanned (kvs : list (bytes * bytes)) : Prop :=
  NoDup kvs.*1 ∧ ∀ b v, (b, v) ∈ kvs ↔ state_map s GroupId_Meta b = Some v.

Lemma scan_read : ∃ kvs, scan_state s GroupId_Meta = Ok kvs ∧ scanned kvs.
Proof.
  unfold scanned, scan_state, state_map. pose proof (mst_open _ _ Hs) as Ho.
  destruct (state_cf s GroupId_Meta) as [cf|]; [|done]. eexists. split; [done|]. split; [|intros; apply iter_spec].
  pose proof (iter_sorted (st_db s) cf) as Hsrt. induction Hsrt as [|x l Hl IH Hx]; constructor; [|done].
  intros Hin. rewrite Forall_forall in Hx. by destruct (Hx _ Hin).
Qed.

(** The entries whose key passes a test that singles out a family of typed keys. *)
Lemma scan_typed kvs b v (P : bytes → bool) :
  scanned kvs → P last_applied_key = false → P raft_applied_key = false →
  (b, v) ∈ kvs ∧ P b = true ↔
  ∃ k, key_ok k ∧ b = key_bytes k ∧ P (key_bytes k) = true ∧ meta_lookup m k = Some v.
Proof.
  intros [_ Hkvs] Hl Hr. rewrite Hkvs. split.
  - intros [Hb HP]. destruct (mrep_keys _ _ (mst_rep _ _ Hs) b v Hb) as [->|[->|(k & Hk & ->)]]; [congruence..|].
    exists k. rewrite (mrep_lookup _ _ (mst_rep _ _ Hs)) in Hb by done. done.
  - intros (k & Hk & -> & HP & Hb). by rewrite (mrep_lookup _ _ (mst_rep _ _ Hs)).
Qed.

Lemma node_family kvs : scanned kvs →
  filter (λ kv, has_node_prefix kv.1 = true) kvs ≡ₚ
  (λ ix, (meta_node_key ix.1, encode ix.2)) <$> map_to_list (ms_nodes m).
Proof.
  intros Hkvs.
  apply (scan_family (K:=N) (ms_nodes m) meta_node_key encode has_node_prefix); [apply Hkvs| |].
  - intros b v. rewrite scan_typed by done. split.
    + intros (k & Hk & -> & HP & Hb). destruct k; try done. simpl in Hb.
      apply fmap_Some in Hb as (e & He & ->). eauto.
    + intros (id & e & He & -> & ->). exists (MK_Node id).
      split_and!; [|done|done|cbn [meta_lookup]; by rewrite He]. destruct (mi_nodes m Hi id e He) as [<- _ Hw _ _ _]. apply Hw.
  - intros i j ei ej Hei Hej. apply meta_node_key_inj.
    + destruct (mi_nodes m Hi i ei Hei) as [<- _ Hw _ _ _]. apply Hw.
    + destruct (mi_nodes m Hi j ej Hej) as [<- _ Hw _ _ _]. apply Hw.
Qed.

Lemma meta_directory_read : ∃ l, meta_directory s = Ok l ∧ l ≡ₚ (map_to_list (ms_nodes m)).*2.
Proof.
  unfold meta_directory. destruct scan_read as (kvs & -> & Hkvs). cbn [rbind].
  eapply mapR_perm; [by apply node_family|]. intros [id e] He. apply elem_of_map_to_list in He. simpl.
  apply decode_encode. by eapply nk_wf, mi_nodes.
Qed.

(** The directory lists each registered node once. *)
Lemma meta_directory_entries : ∃ l, meta_directory s = Ok l ∧ l ≡ₚ (map_to_list (ms_nodes m)).*2 ∧
  NoDup (nd_node_id <$> l) ∧ ∀ e, e ∈ l ↔ ms_nodes m !! nd_node_id e = Some e.
Proof.
  destruct meta_directory_read as (l & El & Hl). exists l. split_and!; [done..| |].
  - rewrite Hl, <-list_fmap_compose, (list_fmap_ext _ fst); [apply NoDup_fst_map_to_list|]. intros j [n e] Hx. cbn.
    apply list_elem_of_lookup_2, elem_of_map_to_list in Hx. by eapply nk_id, mi_nodes.
  - intros e. rewrite Hl, list_elem_of_fmap. split.
    + intros ([n e'] & -> & Hx%elem_of_map_to_list). cbn. by rewrite (nk_id _ _ (mi_nodes m Hi n e' Hx)).
    + intros Hx. exists (nd_node_id e, e). split; [done|]. by apply elem_of_map_to_list.
Qed.

Lemma index_family kvs : scanned kvs →
  filter (λ kv, starts_with meta_search_index_prefix kv.1 = true) kvs ≡ₚ
  (λ ix, (meta_search_index_key ix.1, encode ix.2)) <$> map_to_list (ms_indexes m).
Proof.
  intros Hkvs. apply (scan_family (ms_indexes m) meta_search_index_key encode
    (λ b, starts_with meta_search_index_prefix b)); [apply Hkvs| |].
  - intros b v. rewrite scan_typed by done. split.
    + intros (k & Hk & -> & HP & Hb). destruct k; try done. simpl in Hb.
      apply fmap_Some in Hb as (r & Hr & ->). eauto.
    + intros (name & r & Hr & -> & ->). exists (MK_Index name).
      split_and!; [done|done|done|cbn [meta_lookup]; by rewrite Hr].
  - intros i j ei ej _ _. apply meta_search_index_key_inj.
Qed.

Lemma active_nodes_read l : l ≡ₚ (map_to_list (ms_nodes m)).*2 →
  bset_of_list (nd_node_id <$> filter (λ e, active_entry e = true) l) = active_nodes m.
Proof.
  intros Hl. apply bset_of_list_eq. intros x.
  by rewrite !list_elem_of_fmap; setoid_rewrite list_elem_of_filter; setoid_rewrite Hl.
Qed.

Lemma elem_of_active_nodes id : id ∈ active_nodes m ↔ node_active m id.
Proof.
  unfold active_nodes. rewrite elem_of_bset, list_elem_of_fmap. setoid_rewrite list_elem_of_filter.
  unfold node_active, active_entry. split.
  - intros (e & -> & Ha%bool_decide_eq_true & Hin). apply list_elem_of_fmap in Hin as ([j e'] & -> & Hin).
    apply elem_of_map_to_list in Hin. simpl in *. rewrite (nk_id _ _ (mi_nodes m Hi _ _ Hin)). eauto.
  - intros (e & He & Ha). exists e. split; [by rewrite (nk_id _ _ (mi_nodes m Hi _ _ He))|].
    split; [by apply bool_decide_eq_true|]. apply list_elem_of_fmap. exists (id, e). split; [done|].
    by apply elem_of_map_to_list.
Qed.

Lemma eligible_count_read : eligible_count s =
  Ok (length (filter (λ e, active_entry e = true) (map_to_list (ms_nodes m)).*2)).
Proof.
  unfold eligible_count. destruct meta_directory_read as (l & -> & Hl). cbn [rbind]. f_equal.
  apply Permutation_length. by rewrite Hl.
Qed.

(** ** Loops over the groups *)

Lemma groups_quiet_read active groups : ∃ b, groups_quiet s active groups = Ok b ∧
  (b = true → ∀ g, g ∈ groups →
     ∃ p, ms_placements m !! g = Some p ∧ pl_move p = None ∧ pl_voters p ⊆ active).
Proof.
  induction groups as [|g groups (b & IHb & IH)]; simpl.
  { exists true. split; [done|]. intros _ g Hg. by apply not_elem_of_nil in Hg. }
  rewrite meta_placement_read. cbn [rbind]. destruct (ms_placements m !! g) as [p|] eqn:Ep; [|by exists false].
  destruct (_ || _) eqn:Eb; [by exists false|]. exists b. split; [done|]. intros -> g' [->|Hg']%elem_of_cons; [|by apply IH].
  bools. exists p. split_and!; [done..|]. intros v Hv. destruct (decide (v ∈ active)) as [|Hn]; [done|].
  assert (existsb (λ v, negb (bool_decide (v ∈ active))) (pl_voters p) = true); [|congruence].
  apply existsb_exists. exists v. split; [by apply list_elem_of_In|]. by rewrite bool_decide_false.
Qed.

Lemma unreferenced_read id groups : ∃ o, unreferenced s id groups = Ok o ∧
  (∀ r, o = Some r → r ≠ MetaApplyResult_Applied) ∧
  (o = None → ∀ g, g ∈ groups → ∃ p, ms_placements m !! g = Some p ∧ references_node p id = false).
Proof.
  induction groups as [|g groups (o & IHo & IHr & IH)]; simpl.
  { exists None. split_and!; [done..|]. intros _ g Hg. by apply not_elem_of_nil in Hg. }
  rewrite meta_placement_read. cbn [rbind]. destruct (ms_placements m !! g) as [p|] eqn:Ep.
  2: { eexists. split; [done|]. split; [by intros ? [= <-]|done]. }
  destruct (references_node p id) eqn:Er.
  { eexists. split; [done|]. split; [by intros ? [= <-]|done]. }
  exists o. split_and!; [done..|]. intros -> g' [->|Hg']%elem_of_cons; [by exists p|by apply IH].
Qed.

Lemma expected_topology_read id groups : ∃ r, expected_topology s id groups = Ok r ∧
  (∀ l, r = inr l →
     l = omap (λ g, p ← ms_placements m !! g; if decide (id ∈ pl_voters p) then Some (g, pl_voters p) else None) groups ∧
     ∀ g, g ∈ groups → ∃ p, ms_placements m !! g = Some p ∧ pl_move p = None).
Proof.
  induction groups as [|g groups (r & IHr & IH)]; simpl.
  { exists (inr []). split; [done|]. intros l [= <-]. split; [done|]. intros g Hg. by apply not_elem_of_nil in Hg. }
  rewrite meta_placement_read. cbn [rbind]. destruct (ms_placements m !! g) as [p|] eqn:Ep; [|by eexists].
  destruct (bool_decide (pl_move p = None)) eqn:Em; cbn [negb]; [|by eexists]. bools.
  rewrite IHr. cbn [rbind]. destruct r as [e|l]; [by eexists|].
  destruct (IH l eq_refl) as [-> Hg]. eexists. split; [done|]. intros l [= <-]. split.
  - simpl. case_bool_decide; by case_decide.
  - intros g' [->|Hg']%elem_of_cons; [by exists p|by apply Hg].
Qed.

Lemma live_incarnations_match_read ids live : Forall (λ v, v ≤ u64_max)%N ids → length live = length ids →
  ∃ b, live_incarnations_match s (zip ids live) = Ok b ∧
  (b = true → Forall2 (λ id ni, ni.1 = id ∧ ∃ e, ms_nodes m !! id = Some e ∧ nd_state e = NodeState_Active ∧
                                  nd_incarnation e = ni.2) ids live).
Proof.
  intros Hids. revert live. induction Hids as [|id ids Hid Hids IH]; intros [|[n i] live] Hl; try discriminate Hl; simpl.
  { exists true. split; [done|constructor]. }
  destruct (N.eqb_spec id n) as [->|Hne]; simpl; [|by exists false].
  rewrite meta_node_read by done. cbn [rbind].
  destruct (ms_nodes m !! n) as [e|] eqn:Ee; [|by exists false].
  destruct (active_entry e && (nd_incarnation e =? i)%N) eqn:Eb; [|by exists false].
  destruct (IH live) as (b & Hb & IHb); [by injection Hl|]. exists b. split; [done|]. intros ->.
  unfold active_entry in Eb. bools. constructor; [|by apply IHb]. simpl. eauto 10.
Qed.

(** ** The search catalog *)

Definition quiet_record (r : SearchIndexRecord) : bool :=
  negb (negb (bool_decide (sr_building r = None)) || negb (bool_decide (sr_retiring r = []))).

Lemma catalog_quiet_forallb kvs rs :
  mapR (λ kv, decode (A:=SearchIndexRecord) kv.2) (filter (λ kv, starts_with meta_search_index_prefix kv.1 = true) kvs) = Ok rs →
  catalog_quiet kvs = Ok (forallb quiet_record rs).
Proof.
  revert rs. induction kvs as [|[k v] kvs IH]; intros rs.
  { intros [= <-]. done. }
  cbn [catalog_quiet]. rewrite filter_cons. simpl. case_decide as E.
  - rewrite E. simpl. intros (r & -> & (rs' & Hrs & [= <-])%bind_ok)%bind_ok. simpl.
    unfold quiet_record at 1. destruct (_ || _); [done|]. by apply IH.
  - apply not_true_iff_false in E. rewrite E. apply IH.
Qed.

Lemma catalog_quiet_read kvs : scanned kvs → ∃ b, catalog_quiet kvs = Ok b ∧
  (b = true → ∀ name r, ms_indexes m !! name = Some r → sr_building r = None ∧ sr_retiring r = []).
Proof.
  intros Hkvs. destruct (mapR_perm (λ kv, decode (A:=SearchIndexRecord) kv.2) _ snd _ _ (index_family kvs Hkvs))
    as (rs & Hrs & Hp).
  { intros [name r] Hr. apply elem_of_map_to_list in Hr. apply decode_encode. by eapply ik_wf, mi_indexes. }
  eexists. split; [by apply catalog_quiet_forallb|]. intros Hall name r Hr.
  rewrite forallb_forall in Hall. specialize (Hall r). unfold quiet_record in Hall.
  assert (In r rs) as Hin.
  { apply list_elem_of_In. rewrite Hp. apply list_elem_of_fmap. exists (name, r). split; [done|].
    by apply elem_of_map_to_list. }
  specialize (Hall Hin). bools. done.
Qed.

Lemma index_count_read kvs : scanned kvs →
  vec_len (filter (λ kv, starts_with meta_search_index_prefix kv.1 = true) kvs) = N.of_nat (size (ms_indexes m)).
Proof.
  intros Hkvs. unfold vec_len. rewrite index_family by done. rewrite length_fmap. by rewrite length_map_to_list.
Qed.

Lemma ready_prefix_key k name generation : key_ok k → short_name name → (generation ≤ u64_max)%N →
  starts_with (meta_search_ready_prefix name generation) (key_bytes k) = true →
  ∃ g id, k = MK_Ready name generation g id.
Proof.
  intros Hk Hn Hg. rewrite starts_with_spec. intros [rest E]. destruct k as [| | | | | | |n' g' g id]; try done.
  destruct Hk as (Hn' & Hg' & Hg2 & Hid). cbn [key_bytes] in E.
  unfold meta_search_ready_key, meta_search_ready_prefix in E. rewrite <-!(assoc_L (++)) in E.
  apply app_inv_head in E. apply named_key_inj in E as [-> E]; [|done..].
  apply app_inj_length in E as [E _]; [|by rewrite !length_be_bytes]. apply be8_inj in E as ->; [|done..]. eauto.
Qed.

Lemma ready_scan kvs name generation b v : scanned kvs → short_name name → (generation ≤ u64_max)%N →
  (b, v) ∈ kvs ∧ starts_with (meta_search_ready_prefix name generation) b = true ↔
  ∃ g id o, b = meta_search_ready_key name generation g id ∧ v = encode o ∧
    ms_ready m !! (name, generation, g, id) = Some o ∧ key_ok (MK_Ready name generation g id).
Proof.
  intros Hkvs Hn Hg. rewrite (scan_typed kvs b v (λ b, starts_with _ b)) by done. split.
  - intros (k & Hk & -> & HP & Hb). destruct (ready_prefix_key k name generation) as (g & id & ->); [done..|].
    simpl in Hb. apply fmap_Some in Hb as (o & Ho & ->). exists g, id, o. done.
  - intros (g & id & o & -> & -> & Ho & Hk). exists (MK_Ready name generation g id).
    split_and!; [done|done| |cbn [meta_lookup]; by rewrite Ho].
    apply starts_with_spec. by eexists.
Qed.

Lemma readiness_of_read name generation : short_name name → (generation ≤ u64_max)%N →
  ∃ l, readiness_of s name generation = Ok l ∧
    ∀ b o, (b, o) ∈ l ↔ ∃ g id, b = meta_search_ready_key name generation g id ∧
      ms_ready m !! (name, generation, g, id) = Some o ∧ key_ok (MK_Ready name generation g id).
Proof.
  intros Hn Hg. unfold readiness_of. destruct scan_read as (kvs & -> & Hkvs). cbn [rbind].
  destruct (mapR_total (λ kv : bytes * bytes, let! ready := decode (A:=SearchIndexReady) kv.2 in Ok (kv.1, ready))
    (filter (λ kv, starts_with (meta_search_ready_prefix name generation) kv.1 = true) kvs)) as (l & Hl & Hin).
  { intros [b v] Hb. rewrite list_elem_of_filter, (comm and), ready_scan in Hb by done.
    destruct Hb as (g & id & o & -> & -> & Ho & _). simpl. rewrite decode_encode; [by eexists|].
    by eapply yk_wf, mi_ready. }
  exists l. split; [done|]. intros b o. rewrite Hin. split.
  - intros ([b' v] & Hb & E). rewrite list_elem_of_filter, (comm and), ready_scan in Hb by done.
    destruct Hb as (g & id & o' & -> & -> & Ho & Hk). simpl in E.
    rewrite decode_encode in E by (by eapply yk_wf, mi_ready). injection E as <- <-. eauto.
  - intros (g & id & -> & Ho & Hk). exists (meta_search_ready_key name generation g id, encode o). split.
    + rewrite list_elem_of_filter, (comm and), ready_scan by done. eauto 10.
    + simpl. by rewrite decode_encode by (by eapply yk_wf, mi_ready).
Qed.

Lemma partitions_ready_read name generation building readiness groups :
  (∀ b o, (b, o) ∈ readiness → ∃ g id, ms_ready m !! (name, generation, g, id) = Some o) →
  ∃ b, partitions_ready s generation building readiness groups = Ok b ∧
  (b = true → ∀ g, g ∈ groups → ∃ p, ms_placements m !! g = Some p ∧ pl_move p = None ∧
     ∀ v, v ∈ pl_voters p → ∃ o, ms_ready m !! (name, generation, g, v) = Some o ∧
       ry_voters_log_id o = pl_voters_log_id p).
Proof.
  intros Hready. induction groups as [|g groups (b & IHb & IH)]; simpl.
  { exists true. split; [done|]. intros _ g Hg. by apply not_elem_of_nil in Hg. }
  rewrite meta_placement_read. cbn [rbind]. destruct (ms_placements m !! g) as [p|] eqn:Ep; [|by exists false].
  destruct (bool_decide (pl_move p = None)) eqn:Em; cbn [negb]; [|by exists false]. bools.
  destruct (forallb _ (pl_voters p)) eqn:Ef; [|by exists false].
  exists b. split; [done|]. intros -> g' [->|Hg']%elem_of_cons; [|by apply IH].
  exists p. split_and!; [done..|]. intros v Hv. rewrite forallb_forall in Ef.
  apply list_elem_of_In, Ef, existsb_exists in Hv as ([k o] & Hin & Hmatch).
  unfold ready_matches in Hmatch. simpl in Hmatch. bools.
  destruct (Hready k o) as (g' & id & Ho); [by apply list_elem_of_In|].
  destruct (yk_key _ _ _ _ _ _ (mi_ready m Hi _ _ _ _ _ Ho)) as (_ & Eg & En). exists o. split; [|done]. congruence.
Qed.
End accessors.
End reads.
