(* ===== verification/MetaHandlers.v ===== *)
(** * The meta handlers implement the rules

    For every command handler: on a store that represents a state satisfying
    the invariant it never fails, and either changes nothing or performs
    exactly one rule of [meta_rule]. *)

From S2P Require Import Prelude BTree Types Codec Config SearchDef Keyspace Outbox MetaTypes ApplyDurability Rocks Storage MetaSM MetaSpec MetaReads.
From coqutil Require Import Datatypes.RecordSetters.
Import TriangleBracketNotations.

Section handlers.
Context `{RocksOk D} `{HashesOk} `{!Codec U64, !Codec U128, !Codec string, !Codec LogId, !Codec Identity}
  `{!Codec ClusterConfig, !Codec NodeDirectoryEntry, !Codec MaintenanceRecord, !Codec Placement}
  `{!Codec SearchIndexDefinition, !Codec SearchIndexRecord, !Codec SearchIndexReady}.
Implicit Types (s : Storage D) (m : MetaState).

(** The edits [es] take the stored state from [m] to [m']. *)
Record edits m (es : list (meta_key * option bytes)) m' : Prop := {
  ed_keys : Forall (λ e, key_ok e.1) es;
  ed_lookup k : key_ok k → meta_lookup m' k = edit_lookup k (meta_lookup m k) es;
  ed_identity : ms_identity m' = ms_identity m;
}.

(** A decision that changes nothing, or performs a rule. *)
Definition outcome m (log : LogId) (cmd : MetaCommand) (d : decision) : Prop :=
  ∃ r ms, d = Ok (r, ms) ∧
    ((r ≠ MetaApplyResult_Applied ∧ ms = []) ∨
     (r = MetaApplyResult_Applied ∧ ∃ m' es, meta_rule m log cmd m' ∧ edits m es m' ∧ ms = edit_mutation <$> es)).

Lemma outcome_refuse m log cmd r : r ≠ MetaApplyResult_Applied → outcome m log cmd (refuse r).
Proof. intros Hr. exists r, []. split; [done|]. by left. Qed.

Lemma outcome_noop m log cmd : outcome m log cmd noop.
Proof. exists MetaApplyResult_NoOp, []. split; [done|]. by left. Qed.

Lemma outcome_edits m log cmd m' es ms :
  meta_rule m log cmd m' → edits m es m' → ms = edit_mutation <$> es → outcome m log cmd (applied ms).
Proof. intros Hr He Hm. eexists _, _. split; [done|]. right. split; [done|]. eauto. Qed.

(** One put. *)
Lemma outcome_put m log cmd m' k v :
  meta_rule m log cmd m' → key_ok k → meta_lookup m' k = Some v →
  (∀ j, j ≠ k → meta_lookup m' j = meta_lookup m j) → ms_identity m' = ms_identity m →
  outcome m log cmd (applied [StateMutation_Put (key_bytes k) v]).
Proof.
  intros Hr Hk Hv Hne Hid. apply (outcome_edits m log cmd m' [(k, Some v)]); [done| |done].
  constructor; [by repeat constructor| |done]. intros j Hj. unfold edit_lookup. simpl.
  case_decide as E; [by subst|]. by apply Hne.
Qed.

(** Walk through the refuse_all of a handler. *)
Ltac step_guard :=
  match goal with
  | |- outcome _ _ _ (refuse _) => by apply outcome_refuse
  | |- outcome _ _ _ noop => apply outcome_noop
  | |- outcome _ _ _ (if ?b then _ else _) => destruct b eqn:?
  | |- outcome _ _ _ (match ?o with Some _ => _ | None => _ end) => destruct o eqn:?
  | |- outcome _ _ _ (rbind (Ok _) _) => cbn [rbind]
  end.
Ltac refuse_all := repeat step_guard.

(** The other keys of an updated state. *)
Ltac other_keys :=
  let j := fresh "j" in let Hne := fresh "Hne" in
  intros j Hne; destruct j; cbn; rewrite ?lookup_insert_ne by congruence; congruence || done.

Section one.
Context s m (log : LogId) (Hs : meta_store s m) (Hi : meta_inv m).

Lemma directory_taken l id control bulk :
  l ≡ₚ (map_to_list (ms_nodes m)).*2 → existsb (endpoint_taken id control bulk) l = false →
  ∀ j e, ms_nodes m !! j = Some e → j ≠ id → control ∉ endpoints e ∧ bulk ∉ endpoints e.
Proof.
  intros Hl Hx j e He Hj. pose proof (nk_id _ _ (mi_nodes m Hi _ _ He)) as Hid.
  assert (endpoint_taken id control bulk e = false) as Ht.
  { apply not_true_iff_false. intros Ht. apply not_true_iff_false in Hx. apply Hx, existsb_exists.
    exists e. split; [|done]. apply list_elem_of_In. rewrite Hl. apply list_elem_of_fmap.
    exists (j, e). split; [done|]. by apply elem_of_map_to_list. }
  unfold endpoint_taken in Ht. rewrite Hid in Ht.
  destruct (N.eqb_spec j id) as [|_]; [done|]. simpl in Ht. bools. unfold endpoints. set_solver.
Qed.

Lemma directory_absent l id :
  l ≡ₚ (map_to_list (ms_nodes m)).*2 → ms_nodes m !! id = None →
  existsb (λ e, (nd_node_id e =? id)%N) l = false ∧ length l = size (ms_nodes m).
Proof.
  intros Hl Hn. split.
  - apply not_true_iff_false. rewrite existsb_exists. intros (e & Hin & He). bools.
    apply list_elem_of_In in Hin. rewrite Hl in Hin. apply list_elem_of_fmap in Hin as ([j e'] & -> & Hin).
    apply elem_of_map_to_list in Hin. simpl in He. rewrite (nk_id _ _ (mi_nodes m Hi _ _ Hin)) in He. congruence.
  - rewrite Hl, length_fmap. apply length_map_to_list.
Qed.

Lemma register_node_outcome id control bulk :
  wf (MetaCommand_RegisterNode id control bulk) →
  outcome m log (MetaCommand_RegisterNode id control bulk) (register_node s id control bulk).
Proof.
  intros (Hid & Hc & Hb). unfold register_node. rewrite (meta_cluster_read s m Hs Hi). cbn [rbind]. refuse_all.
  rewrite (meta_retired_read s m Hs Hi id Hid). cbn [rbind]. step_guard; [refuse_all|].
  destruct (meta_directory_read s m Hs Hi) as (l & -> & Hl). cbn [rbind]. step_guard; [refuse_all|].
  step_guard; [refuse_all|]. rewrite (meta_node_read s m Hs Hi id Hid). cbn [rbind].
  assert (register_guard m id control bulk) as Hg.
  { bools. constructor; [by destruct (ms_cluster m)|done| |by destruct (ms_retired m !! id)|by eapply directory_taken].
    unfold endpoint_ok, MAX_ENDPOINT_BYTES in *. split_and!; (done || lia). }
  destruct (ms_nodes m !! id) as [e|] eqn:Ee.
  - pose proof (mi_nodes m Hi id e Ee) as Hok. pose proof (nk_id _ _ Hok) as He.
    destruct (bool_decide (nd_control_addr e = control) && bool_decide (nd_bulk_addr e = bulk)) eqn:Ea.
    + step_guard; [refuse_all|]. bools. subst control bulk.
      destruct (checked_add u64_max (nd_incarnation e) 1) as [i|] eqn:Ei; [|refuse_all].
      apply checked_add_Some in Ei as [-> Hi1].
      apply (outcome_put m log _ (set_node id (mkNodeEntry id (nd_control_addr e) (nd_bulk_addr e) NodeState_Active
        (nd_incarnation e + 1)) m) (MK_Node id)); [|done| |other_keys|done].
      * apply rule_register_rejoin; [done|done|by left|lia].
      * cbn. rewrite lookup_insert_eq. cbn. subst id. by destruct e.
    + destruct (checked_add u64_max (nd_incarnation e) 1) as [i|] eqn:Ei; [|refuse_all].
      apply checked_add_Some in Ei as [-> Hi1].
      eapply (outcome_put m log _ (set_node id _ m) (MK_Node id));
        [|done|cbn; by rewrite lookup_insert_eq|other_keys|done].
      apply rule_register_rejoin; [done|done| |lia]. right. unfold endpoints. intros [= <- <-].
      by rewrite !bool_decide_true in Ea.
  - destruct (directory_absent l id Hl Ee) as [Hx Hlen].
    eapply (outcome_put m log _ (set_node id _ m) (MK_Node id));
      [|done|cbn; by rewrite lookup_insert_eq|other_keys|done].
    apply rule_register_new; [done..|]. rewrite Hx, andb_true_r in *. bools. lia.
Qed.

Lemma cluster_init_outcome config voters :
  outcome m log (MetaCommand_ClusterInit config voters) (cluster_init s config voters log).
Proof.
  unfold cluster_init. rewrite (meta_cluster_read s m Hs Hi). cbn [rbind].
  destruct (ms_cluster m) as [c|] eqn:Ec.
  { rewrite (meta_placement_read s m Hs Hi). cbn [rbind]. refuse_all. }
  rewrite (mst_identity _ _ Hs). cbn [rbind]. refuse_all.
  destruct (validate_routing_shape (cc_p config) (cc_r config)) as [[]|e] eqn:Ev; refuse_all.
  bools. assert (NoDup voters) as Hnd by (by apply length_bset_nodup).
  eapply (outcome_edits m log _ _ [(MK_Cluster, Some (encode config));
    (MK_Placement GroupId_Meta, Some (encode (mkPlacement (voter_set voters) log None)))]); [| |done].
  - eapply rule_cluster_init; try done; unfold voter_set in *; [lia|lia|congruence].
  - constructor; [by repeat constructor| |done]. intros k _. unfold edit_lookup. cbn [foldl fst snd].
    destruct k; cbn; repeat case_decide; simplify_eq; rewrite ?lookup_insert_eq, ?lookup_insert_ne by congruence; done.
Qed.

Lemma set_node_state_outcome id state incarnation : (id ≤ u64_max)%N →
  outcome m log (MetaCommand_SetNodeState id state incarnation) (set_node_state s id state incarnation).
Proof.
  intros Hid. unfold set_node_state. rewrite (meta_node_read s m Hs Hi id Hid). cbn [rbind]. refuse_all.
  bools. subst incarnation.
  eapply (outcome_put m log _ (set_node id _ m) (MK_Node id));
    [|done|cbn; by rewrite lookup_insert_eq|other_keys|done].
  by apply rule_set_node_state.
Qed.

Lemma retire_node_outcome id incarnation : (id ≤ u64_max)%N →
  outcome m log (MetaCommand_RetireNode id incarnation) (retire_node s id incarnation).
Proof.
  intros Hid. unfold retire_node. rewrite (meta_retired_read s m Hs Hi id Hid). cbn [rbind].
  step_guard; [apply outcome_refuse; by case_match|].
  rewrite (meta_node_read s m Hs Hi id Hid). cbn [rbind]. refuse_all.
  rewrite (meta_cluster_read s m Hs Hi). cbn [rbind]. step_guard; [|refuse_all].
  destruct (unreferenced_read s m Hs Hi id (all_groups (cc_p c))) as (o & -> & Hr & Ho). cbn [rbind].
  destruct o as [r|]; [by apply outcome_refuse, Hr|]. bools. subst incarnation.
  eapply (outcome_edits m log _ _ [(MK_Retired id, Some (encode (A:=U64) _)); (MK_Node id, None)]);
    [by eapply rule_retire_node; eauto| |done].
  constructor; [by repeat constructor| |done]. intros k _. unfold edit_lookup. cbn [foldl fst snd].
  destruct k; cbn; repeat case_decide; simplify_eq;
    rewrite ?lookup_insert_eq, ?lookup_delete_eq, ?lookup_insert_ne, ?lookup_delete_ne by congruence; done.
Qed.

Lemma seed_placement_outcome g voters : node_ids_ok voters →
  outcome m log (MetaCommand_SeedPlacement g voters) (seed_placement s g voters log).
Proof.
  intros [_ Hv]. unfold seed_placement. rewrite (meta_cluster_read s m Hs Hi). cbn [rbind]. step_guard; [|refuse_all].
  destruct g as [|partition]; refuse_all.
  destruct (all_active_read s m Hs Hi voters Hv) as (b & -> & Hb). cbn [rbind]. step_guard; [refuse_all|].
  rewrite (meta_placement_read s m Hs Hi). cbn [rbind]. step_guard; [refuse_all|].
  bools. assert (NoDup voters) by (by apply length_bset_nodup).
  eapply (outcome_put m log _ (set_placement _ _ m) (MK_Placement _));
    [|done|cbn; by rewrite lookup_insert_eq|other_keys|done].
  eapply rule_seed_placement; try done; [|by apply Hb]. unfold voter_set in *. congruence.
Qed.

(** The shape test accepts exactly the legal changes. *)
Lemma plan_shape_outcome c g current target : ∃ o, plan_shape s c g current target = Ok o ∧
  (∀ r, o = Some r → r ≠ MetaApplyResult_Applied) ∧
  (o = None → single_change g current target ∧
     (is_data g = true → N.of_nat (length target) = cc_r c ∧
        (cc_r c ≤ N.of_nat (length (filter (λ e, active_entry e = true) (map_to_list (ms_nodes m)).*2)))%N)).
Proof.
  unfold plan_shape, single_change, voters_added, voters_removed. rewrite (eligible_count_read s m Hs Hi). cbn [rbind].
  destruct g as [|p].
  - destruct (length target <? MIN_META_VOTERS) eqn:E1; [eexists; split; [done|]; split; [by intros ? [= <-]|done]|].
    destruct (negb _) eqn:E2; [eexists; split; [done|]; split; [by intros ? [= <-]|done]|].
    eexists. split; [done|]. split; [done|]. intros _. split; [|done]. apply negb_false_iff, orb_true_iff in E2.
    destruct E2; bools; lia.
  - destruct (negb (N.of_nat (length target) =? cc_r c)%N) eqn:E1;
      [eexists; split; [done|]; split; [by intros ? [= <-]|done]|].
    destruct (_ || _) eqn:E2; [eexists; split; [done|]; split; [by intros ? [= <-]|done]|].
    destruct (_ <? _)%N eqn:E3; [eexists; split; [done|]; split; [by intros ? [= <-]|done]|].
    eexists. split; [done|]. split; [done|]. intros _. bools. done.
Qed.

Lemma create_plan_outcome g plan_id target : node_ids_ok target →
  outcome m log (MetaCommand_CreatePlan g plan_id target) (create_plan s g target log).
Proof.
  intros [_ Ht]. unfold create_plan. rewrite (meta_cluster_read s m Hs Hi). cbn [rbind]. step_guard; [|refuse_all].
  rewrite (meta_placement_read s m Hs Hi). cbn [rbind]. step_guard; [|refuse_all]. step_guard; [refuse_all|].
  step_guard; [refuse_all|]. bools. destruct (mi_placements m Hi g p) as (c' & _ & Hok); [done|].
  assert (voter_set (pl_voters p) = pl_voters p) as Ev by (apply bset_of_list_id, Hok). rewrite Ev.
  assert (NoDup target) by (by apply length_bset_nodup).
  destruct (plan_shape_outcome c g (pl_voters p) (voter_set target)) as (o & -> & Hr & Ho). cbn [rbind].
  destruct o as [r|]; [by apply outcome_refuse, Hr|]. destruct (Ho eq_refl) as [Hch Hel].
  destruct (all_active_read s m Hs Hi (bset_difference (voter_set target) (pl_voters p))) as (b & -> & Hb).
  { apply Forall_forall. intros v [Hv _]%elem_of_bset_difference. unfold voter_set in Hv.
    rewrite elem_of_bset in Hv. rewrite Forall_forall in Ht. by apply Ht. }
  cbn [rbind]. step_guard; [refuse_all|]. bools.
  rewrite sort_unstable_id by apply bset_of_list_sorted.
  eapply (outcome_put m log _ (set_placement _ _ m) (MK_Placement _));
    [|done|cbn; by rewrite lookup_insert_eq|other_keys|done].
  eapply rule_create_plan; try done; [intros Hd; by apply Hel|by apply Hb].
Qed.

Lemma mark_aborting_outcome g plan_id :
  outcome m log (MetaCommand_MarkAborting g plan_id) (mark_aborting s g plan_id).
Proof.
  unfold mark_aborting. rewrite (meta_placement_read s m Hs Hi). cbn [rbind]. refuse_all. bools. subst plan_id.
  eapply (outcome_put m log _ (set_placement _ _ m) (MK_Placement _));
    [|done|cbn; by rewrite lookup_insert_eq|other_keys|done].
  by apply rule_mark_aborting.
Qed.

Lemma finalize_plan_outcome g plan_id o abort :
  outcome m log (if (abort : bool) then MetaCommand_AbortReport g plan_id o else MetaCommand_FinalizePlan g plan_id o)
    (finalize_plan s g plan_id o abort).
Proof.
  unfold finalize_plan. rewrite (meta_placement_read s m Hs Hi). cbn [rbind].
  step_guard; [|refuse_all]. step_guard; [|refuse_all]. step_guard; [refuse_all|]. step_guard; [refuse_all|]. bools.
  destruct (mi_placements m Hi g p) as (c & Ec & Hok); [done|].
  destruct (pk_move _ _ _ Hok m0) as [Hst _]; [done|]. pose proof (pk_sorted _ _ _ Hok) as Hsv.
  assert (voter_set (pl_voters p) = pl_voters p) as -> by (by apply bset_of_list_id).
  assert (voter_set (mp_target_voters m0) = mp_target_voters m0) as -> by (by apply bset_of_list_id).
  rewrite !sort_unstable_id by done. subst plan_id.
  destruct abort; cbn [negb]; refuse_all; bools; try done.
  1, 2: eapply (outcome_put m log _ (set_placement _ _ m) (MK_Placement _));
    [|done|cbn; by rewrite lookup_insert_eq|other_keys|done]; eapply rule_abort_report; eauto.
  eapply (outcome_put m log _ (set_placement _ _ m) (MK_Placement _));
    [|done|cbn; by rewrite lookup_insert_eq|other_keys|done]. by eapply rule_finalize_plan.
Qed.

(** ** Maintenance *)

Lemma with_operation_outcome op generation cmd k :
  (∀ r, ms_maintenance m = Some r → mr_operation_id r = op → mr_generation r = generation →
     outcome m log cmd (k r)) →
  outcome m log cmd (with_operation s op generation k).
Proof.
  intros Hk. unfold with_operation. rewrite (meta_maintenance_read s m Hs Hi). cbn [rbind]. step_guard; [|refuse_all].
  step_guard; [refuse_all|]. bools. by apply Hk.
Qed.

Lemma with_participant_outcome r id incarnation cmd k :
  bset_sorted (mr_participants r) → (id ≤ u64_max)%N →
  (∀ e, id ∈ mr_participants r → ms_nodes m !! id = Some e → nd_state e = NodeState_Active →
     incarnation = nd_incarnation e → outcome m log cmd k) →
  outcome m log cmd (with_participant s r id incarnation k).
Proof.
  intros Hsr Hid Hk. unfold with_participant. destruct (found _) eqn:Ef; [|cbn [negb]; refuse_all]. cbn [negb].
  rewrite (meta_node_read s m Hs Hi id Hid). cbn [rbind]. step_guard; [|refuse_all]. refuse_all.
  unfold active_entry in *. bools. apply (Hk n); [|done..]. apply binary_search_mem; [done|].
  unfold found in Ef. by destruct (binary_search id (mr_participants r)); eauto.
Qed.

(** One put of the maintenance record. *)
Lemma outcome_maintenance cmd r :
  meta_rule m log cmd (set_maintenance r m) → outcome m log cmd (applied [put_mutation meta_maintenance_key r]).
Proof.
  intros Hr. eapply (outcome_put m log _ (set_maintenance r m) MK_Maintenance); [done|done|done|other_keys|done].
Qed.

Lemma begin_maintenance_outcome op generation participants :
  outcome m log (MetaCommand_BeginMaintenance op generation participants)
    (begin_maintenance s op generation participants).
Proof.
  unfold begin_maintenance. rewrite (meta_cluster_read s m Hs Hi). cbn [rbind]. step_guard; [|refuse_all].
  step_guard; [refuse_all|]. step_guard; [refuse_all|].
  destruct (meta_directory_read s m Hs Hi) as (l & -> & Hl). cbn [rbind].
  rewrite (active_nodes_read m l Hl). step_guard; [refuse_all|].
  destruct (groups_quiet_read s m Hs Hi (active_nodes m) (all_groups (cc_p c))) as (b & -> & Hb). cbn [rbind].
  step_guard; [refuse_all|]. destruct (scan_read s m Hs) as (kvs & -> & Hkvs). cbn [rbind].
  destruct (catalog_quiet_read s m Hs Hi kvs Hkvs) as (b' & -> & Hb'). cbn [rbind]. step_guard; [refuse_all|].
  rewrite (meta_maintenance_read s m Hs Hi). cbn [rbind].
  destruct (ms_maintenance m) as [r|] eqn:Er; refuse_all; bools; apply outcome_maintenance;
    (eapply rule_begin_maintenance; [done|done|done|done|done| |by apply Hb'|rewrite Er]).
  1, 3: subst participants; by apply Hb.
  - split; [done|]. split; [done|]. match goal with Ha : checked_add _ _ _ = _ |- _ => by apply checked_add_Some in Ha as [-> _] end.
  - done.
Qed.

Lemma release_maintenance_outcome op generation live_processes live_incarnations digest :
  outcome m log (MetaCommand_ReleaseMaintenance op generation live_processes live_incarnations digest)
    (release_maintenance s op generation live_processes live_incarnations digest).
Proof.
  apply with_operation_outcome. intros r Hr <- <-. destruct (mi_maintenance m Hi r Hr) as [_ Hok].
  cbn zeta. destruct (mr_stage r) eqn:Est; [|refuse_all| |refuse_all].
  { apply outcome_maintenance, rule_release_maintenance; [done|by left]. }
  step_guard; [|refuse_all]. step_guard; [refuse_all|]. rewrite (recovery_epoch_read s m Hs Hi). cbn [rbind].
  step_guard; [refuse_all|]. step_guard; [refuse_all|]. step_guard; [refuse_all|]. bools.
  destruct (live_incarnations_match_read s m Hs Hi (mr_participants r) live_incarnations) as (b & -> & Hb).
  { destruct (mk_wf _ Hok) as (_ & _ & [_ Hw] & _). done. }
  { done. }
  cbn [rbind]. step_guard; [refuse_all|]. bools.
  apply outcome_maintenance, rule_release_maintenance; [done|]. right. split_and!; auto.
Qed.

Lemma acknowledge_maintenance_outcome op generation id incarnation : (id ≤ u64_max)%N →
  outcome m log (MetaCommand_AcknowledgeMaintenance op generation id incarnation)
    (acknowledge_maintenance s op generation id incarnation).
Proof.
  intros Hid. apply with_operation_outcome. intros r Hr <- <-. destruct (mi_maintenance m Hi r Hr) as [_ Hok].
  step_guard; [refuse_all|]. apply with_participant_outcome; [apply Hok|done|]. intros e Hin He Ha ->.
  destruct (binary_search id (mr_acknowledged r)) as [j|j] eqn:Ej; refuse_all. bools.
  by apply outcome_maintenance, rule_acknowledge_maintenance.
Qed.

Lemma quiesce_maintenance_outcome op generation :
  outcome m log (MetaCommand_QuiesceMaintenance op generation) (quiesce_maintenance s op generation).
Proof.
  apply with_operation_outcome. intros r Hr <- <-. refuse_all. bools.
  by apply outcome_maintenance, rule_quiesce_maintenance.
Qed.

Lemma enter_maintenance_verification_outcome op generation :
  outcome m log (MetaCommand_EnterMaintenanceVerification op generation)
    (enter_maintenance_verification s op generation).
Proof.
  apply with_operation_outcome. intros r Hr <- <-. refuse_all. bools.
  by apply outcome_maintenance, rule_enter_verification.
Qed.

Lemma recorded_process_result r id process d : recorded_process r id process = Some d → d ≠ MetaApplyResult_Applied.
Proof. unfold recorded_process. repeat case_match; naive_solver. Qed.

Lemma acknowledge_maintenance_recovery_outcome op generation id incarnation process topology digest epoch :
  (id ≤ u64_max)%N →
  outcome m log (MetaCommand_AcknowledgeMaintenanceRecovery op generation id incarnation process topology digest epoch)
    (acknowledge_maintenance_recovery s op generation id incarnation process topology digest epoch).
Proof.
  intros Hid. apply with_operation_outcome. intros r Hr <- <-. destruct (mi_maintenance m Hi r Hr) as [_ Hok].
  step_guard; [refuse_all|]. apply with_participant_outcome; [apply Hok|done|]. intros e Hin He Ha ->.
  step_guard; [refuse_all|]. step_guard; [refuse_all|]. rewrite (recovery_epoch_read s m Hs Hi). cbn [rbind].
  step_guard; [refuse_all|].
  destruct (recorded_process r id process) as [d|] eqn:Ep; [by eapply outcome_refuse, recorded_process_result|].
  rewrite (meta_cluster_read s m Hs Hi). cbn [rbind]. step_guard; [|refuse_all].
  destruct (expected_topology_read s m Hs Hi id (all_groups (cc_p c))) as (x & -> & Hx). cbn [rbind].
  destruct x as [x|l]; [by apply outcome_refuse|]. destruct (Hx l eq_refl) as [-> Hg]. step_guard; [refuse_all|]. bools.
  subst epoch. apply outcome_maintenance. by eapply rule_acknowledge_recovery.
Qed.

(** ** Search catalog *)

Lemma outcome_index cmd name r :
  meta_rule m log cmd (set_index name r m) → outcome m log cmd (applied [put_mutation (meta_search_index_key name) r]).
Proof.
  intros Hr. eapply (outcome_put m log _ (set_index name r m) (MK_Index name));
    [done|done|cbn; by rewrite lookup_insert_eq|other_keys|done].
Qed.

Lemma create_search_index_outcome cmd name definition revision update :
  (if (update : bool)
   then cmd = MetaCommand_CreateSearchIndexGenerationWithRevision name definition revision ∨
        cmd = MetaCommand_CreateSearchIndexGeneration name definition ∧ revision = LEGACY_SEARCH_ENGINE_REVISION
   else cmd = MetaCommand_CreateSearchIndexWithRevision name definition revision ∨
        cmd = MetaCommand_CreateSearchIndex name definition ∧ revision = LEGACY_SEARCH_ENGINE_REVISION) →
  outcome m log cmd (create_search_index s name definition revision log update).
Proof.
  intros Hcmd. unfold create_search_index. rewrite (meta_cluster_read s m Hs Hi). cbn [rbind]. step_guard; [refuse_all|].
  destruct (validate_index_name name) as [[]|] eqn:En; [|refuse_all].
  destruct (with_revision _ _ _) as [generation|] eqn:Eg; [|refuse_all].
  rewrite (search_index_read s m Hs Hi). cbn [rbind]. bools.
  assert (is_Some (ms_cluster m)) as Hc by (by destruct (ms_cluster m)).
  destruct (scan_read s m Hs) as (kvs & -> & Hkvs). cbn [rbind]. rewrite (index_count_read s m Hs kvs Hkvs).
  destruct (ms_indexes m !! name) as [r|] eqn:Er.
  - rewrite bool_decide_false by done. cbn [andb rbind]. destruct update; refuse_all.
    unfold start_generation. refuse_all. destruct (SearchIndexRecord_validate _) as [[]|] eqn:Ev; refuse_all. bools.
    apply outcome_index. eapply rule_create_generation; eauto.
    match goal with Ha : true && bool_decide (sr_active r = None) = false |- _ => simpl in Ha; bools end.
    by destruct (sr_active r).
  - rewrite bool_decide_true by done. destruct update; cbn [andb negb rbind]; refuse_all.
    unfold start_generation. rewrite bool_decide_true by done. cbn [negb andb]. 
    destruct (SearchIndexRecord_validate _) as [[]|] eqn:Ev; refuse_all. bools.
    apply outcome_index. eapply rule_create_index; eauto.
Qed.

Lemma valid_name_short name r : index_ok name r → short_name name.
Proof.
  intros [<- _ Hv]. unfold SearchIndexRecord_validate in Hv. apply bind_ok in Hv as ([] & Hv & _).
  apply bind_ok in Hv as ([] & Hv & _). unfold validate_name, SEARCH_MAX_NAME_BYTES, str_len in Hv.
  destruct (_ || _) eqn:E; [done|]. bools. unfold short_name, u32_max. lia.
Qed.

Lemma index_generation_ok name r b : ms_indexes m !! name = Some r → sr_building r = Some b →
  short_name name ∧ (sg_id b ≤ u64_max)%N.
Proof.
  intros Hr Hb. pose proof (mi_indexes m Hi _ _ Hr) as Hok. split; [by eapply valid_name_short|].
  destruct (ik_wf _ _ Hok) as (_ & _ & Hw & _). rewrite Hb in Hw. apply Hw.
Qed.

Lemma report_search_ready_outcome name o : wf o →
  outcome m log (MetaCommand_ReportSearchIndexReady name o) (report_search_ready s name o).
Proof.
  intros (Hwg & _ & _ & Hwgr & Hwn & _). unfold report_search_ready. rewrite (search_index_read s m Hs Hi). cbn [rbind].
  destruct (ms_indexes m !! name) as [r|] eqn:Er; [|refuse_all].
  destruct (sr_building r) as [b|] eqn:Eb; [|refuse_all]. step_guard; [refuse_all|].
  destruct (ry_group o) as [|partition] eqn:Egr; [refuse_all|].
  rewrite (meta_cluster_read s m Hs Hi). cbn [rbind]. step_guard; [|refuse_all]. step_guard; [refuse_all|].
  rewrite (meta_placement_read s m Hs Hi). cbn [rbind]. step_guard; [|refuse_all]. step_guard; [refuse_all|].
  destruct (index_generation_ok name r b Er Eb) as [Hsn Hsg].
  assert (key_ok (MK_Ready name (ry_generation o) (GroupId_Data partition) (ry_node_id o))) as Hk by done.
  rewrite (read_key s m Hs SearchIndexReady (MK_Ready name (ry_generation o) (GroupId_Data partition) (ry_node_id o)) Hk).
  cbn [meta_lookup]. rewrite decode_opt_encode by (intros old Hold; by eapply yk_wf, mi_ready). cbn [rbind].
  destruct (ms_ready m !! _) as [old|] eqn:Eo; refuse_all; bools.
  all: eapply (outcome_put m log _ (set_ready name o m)
      (MK_Ready name (ry_generation o) (GroupId_Data partition) (ry_node_id o)));
      [|done|cbn; by rewrite Egr, lookup_insert_eq|unfold set_ready; rewrite Egr; other_keys|done].
  all: eapply rule_report_ready; eauto; rewrite Egr, Eo; try done.
  intros ? [= <-]. match goal with Ha : _ && _ = false |- _ => apply andb_false_iff in Ha as [Ha|Ha] end; bools; lia.
Qed.

(** Deleting the keys of one generation's readiness. *)
Lemma edit_lookup_deletes k o es : Forall (λ e, e.2 = None) es →
  edit_lookup k o es = if decide (k ∈ es.*1) then None else o.
Proof.
  unfold edit_lookup. revert o. induction es as [|[j v] es IH]; intros o Hes.
  { by rewrite decide_False by apply not_elem_of_nil. }
  apply Forall_cons in Hes as [Hv Hes]. simpl in *. subst v. rewrite IH by done. repeat case_decide; set_solver.
Qed.

Lemma clear_ready_edits name generation m1 es1 (l : list bytes) :
  (∀ b, b ∈ l ↔ ∃ g id o, b = meta_search_ready_key name generation g id ∧
     ms_ready m !! (name, generation, g, id) = Some o ∧ key_ok (MK_Ready name generation g id)) →
  edits m es1 m1 → ms_ready m1 = ms_ready m →
  ∃ es, edits m (es1 ++ es) (clear_ready name generation m1) ∧
    StateMutation_Delete <$> l = edit_mutation <$> es.
Proof.
  intros Hl He Hm1.
  assert (∃ es, Forall2 (λ (b : bytes) (e : meta_key * option bytes), b = key_bytes e.1 ∧ e.2 = None ∧ key_ok e.1 ∧
            ∃ g id, e.1 = MK_Ready name generation g id) l es) as [es Hes].
  { assert (Forall (λ b : bytes, ∃ e : meta_key * option bytes, b = key_bytes e.1 ∧ e.2 = None ∧ key_ok e.1 ∧
      ∃ g id, e.1 = MK_Ready name generation g id) l) as Hex.
    { apply Forall_forall. intros b (g & id & o & -> & _ & Hk)%Hl.
      exists (MK_Ready name generation g id, None). simpl. eauto 10. }
    clear -Hex. induction Hex as [|b l [e Hb] _ [es IH]]; [by exists []|]. exists (e :: es). by constructor. }
  exists es. split.
  - constructor; [| |apply He].
    + apply Forall_app. split; [apply He|]. apply Forall_forall. intros e Hin.
      apply list_elem_of_lookup in Hin as [j Hj]. destruct (Forall2_lookup_r _ _ _ _ _ Hes Hj) as (b & _ & _ & _ & Hk & _). done.
    + intros k Hk. unfold edit_lookup. rewrite foldl_app. fold (edit_lookup k (meta_lookup m k) es1).
      rewrite <-(ed_lookup _ _ _ He k Hk). fold (edit_lookup k (meta_lookup m1 k) es).
      rewrite edit_lookup_deletes.
      2: { apply Forall_forall. intros e (j & Hj)%list_elem_of_lookup.
           destruct (Forall2_lookup_r _ _ _ _ _ Hes Hj) as (b & _ & _ & Hn & _). done. }
      case_decide as Hin.
      * apply list_elem_of_fmap in Hin as (e & -> & (j & Hj)%list_elem_of_lookup).
        destruct (Forall2_lookup_r _ _ _ _ _ Hes Hj) as (b & _ & _ & _ & _ & g & id & ->). cbn.
        rewrite map_lookup_filter_None_2; [done|]. right. simpl. naive_solver.
      * destruct k as [| | | | | | |n' g' g id]; try done. cbn. rewrite Hm1.
        destruct (ms_ready m !! (n', g', g, id)) as [o|] eqn:Eo;
          [|by rewrite map_lookup_filter_None_2 by (by left)].
        rewrite (map_lookup_filter_Some_2 _ _ _ o); [done|done|]. simpl. intros [-> ->]. apply Hin.
        assert (meta_search_ready_key name generation g id ∈ l) as (j & Hj)%list_elem_of_lookup by (apply Hl; eauto 10).
        destruct (Forall2_lookup_l _ _ _ _ _ Hes Hj) as (e & Hej & Eb & _ & Hek & _).
        apply list_elem_of_fmap. exists e. split; [|by eapply list_elem_of_lookup_2].
        symmetry. by apply key_bytes_inj.
  - clear -Hes. induction Hes as [|b e l es (-> & Hn & _) _ IH]; [done|]. cbn [fmap list_fmap].
    f_equal; [|done]. unfold edit_mutation. by rewrite Hn.
Qed.

Lemma put_index_edits name r : edits m [(MK_Index name, Some (encode r))] (set_index name r m).
Proof.
  constructor; [by repeat constructor| |done]. intros k _. unfold edit_lookup. cbn [foldl fst snd].
  destruct k; cbn; repeat case_decide; simplify_eq; rewrite ?lookup_insert_eq, ?lookup_insert_ne by congruence; done.
Qed.

Lemma outcome_clear cmd name generation r (l : list bytes) :
  (∀ b, b ∈ l ↔ ∃ g id o, b = meta_search_ready_key name generation g id ∧
     ms_ready m !! (name, generation, g, id) = Some o ∧ key_ok (MK_Ready name generation g id)) →
  meta_rule m log cmd (clear_ready name generation (set_index name r m)) →
  outcome m log cmd (applied (put_mutation (meta_search_index_key name) r :: (StateMutation_Delete <$> l))).
Proof.
  intros Hl Hr. destruct (clear_ready_edits name generation _ _ l Hl (put_index_edits name r)) as (es & He & ->); [done|].
  by eapply outcome_edits; [exact Hr|exact He|].
Qed.

Lemma activate_search_generation_outcome name generation :
  outcome m log (MetaCommand_ActivateSearchIndexGeneration name generation)
    (activate_search_generation s name generation).
Proof.
  unfold activate_search_generation. rewrite (search_index_read s m Hs Hi). cbn [rbind].
  destruct (ms_indexes m !! name) as [r|] eqn:Er; [|refuse_all]. step_guard; [refuse_all|].
  destruct (sr_building r) as [b|] eqn:Eb; [|refuse_all]. step_guard; [refuse_all|]. bools. subst generation.
  rewrite (meta_cluster_read s m Hs Hi). cbn [rbind]. step_guard; [|refuse_all].
  destruct (index_generation_ok name r b Er Eb) as [Hsn Hsg].
  destruct (readiness_of_read s m Hs Hi name (sg_id b) Hsn Hsg) as (l & -> & Hl). cbn [rbind].
  destruct (partitions_ready_read s m Hs Hi name (sg_id b) b l (data_groups (cc_p c))) as (ok & -> & Hok).
  { intros k o (g & id & _ & Ho & _)%Hl. eauto. }
  cbn [rbind]. step_guard; [refuse_all|]. step_guard; [refuse_all|]. bools.
  destruct (SearchIndexRecord_validate _) as [[]|] eqn:Ev; refuse_all.
  replace ((λ kr, StateMutation_Delete kr.1) <$> l) with (StateMutation_Delete <$> l.*1)
    by (by rewrite <-list_fmap_compose).
  apply (outcome_clear _ name (sg_id b)).
  - intros k. rewrite list_elem_of_fmap. split.
    + intros ([k' o] & -> & (g & id & -> & Ho & Hk)%Hl). eauto 10.
    + intros (g & id & o & -> & Ho & Hk). eexists (_, o). split; [done|]. apply Hl. eauto.
  - eapply rule_activate; eauto.
Qed.

Lemma drop_search_index_outcome name :
  outcome m log (MetaCommand_DropSearchIndex name) (drop_search_index s name).
Proof.
  unfold drop_search_index. rewrite (search_index_read s m Hs Hi). cbn [rbind].
  destruct (ms_indexes m !! name) as [r|] eqn:Er; [|refuse_all]. step_guard; [refuse_all|]. step_guard; [refuse_all|].
  destruct (SearchIndexRecord_validate _) as [[]|] eqn:Ev; [|refuse_all].
  assert (is_Some (sr_active r) ∨ is_Some (sr_building r)) as Hsome.
  { match goal with Ha : _ && _ = false |- _ => apply andb_false_iff in Ha as [Ha|Ha] end; bools;
      [left; by destruct (sr_active r)|right; by destruct (sr_building r)]. }
  eapply rule_drop_index in Ev as Hrule; [|done..].
  destruct (sr_building r) as [b|] eqn:Eb; cbn [fmap option_fmap option_map].
  - destruct (index_generation_ok name r b Er Eb) as [Hsn Hsg].
    destruct (scan_read s m Hs) as (kvs & -> & Hkvs). cbn [rbind].
    replace ((λ kv, StateMutation_Delete kv.1) <$> filter _ kvs)
      with (StateMutation_Delete <$> (filter (λ kv, starts_with (meta_search_ready_prefix name (sg_id b)) kv.1 = true) kvs).*1)
      by (by rewrite <-list_fmap_compose).
    apply (outcome_clear _ name (sg_id b)); [|exact Hrule].
    intros k. rewrite list_elem_of_fmap. split.
    + intros ([k' v] & -> & Hin). rewrite list_elem_of_filter, (comm and), (ready_scan s m Hs) in Hin by done.
      destruct Hin as (g & id & o & -> & _ & Ho & Hk). eauto 10.
    + intros (g & id & o & -> & Ho & Hk). eexists (_, encode o). split; [done|].
      rewrite list_elem_of_filter, (comm and), (ready_scan s m Hs) by done. eauto 10.
  - cbn [rbind]. by apply outcome_index.
Qed.

Lemma finalize_search_drop_outcome name generation :
  outcome m log (MetaCommand_FinalizeSearchIndexDrop name generation) (finalize_search_drop s name generation).
Proof.
  unfold finalize_search_drop. rewrite (search_index_read s m Hs Hi). cbn [rbind].
  destruct (ms_indexes m !! name) as [r|] eqn:Er; [|refuse_all]. step_guard; [refuse_all|]. bools.
  assert (generation ∈ sr_retiring r) as Hin.
  { destruct (decide (generation ∈ sr_retiring r)) as [|Hn]; [done|]. exfalso. apply Heqb.
    rewrite filter_id; [done|]. intros x Hx ->. done. }
  pose proof (rule_finalize_drop m log name generation r _ Er Hin eq_refl) as Hrule. cbn [sr_active sr_building sr_retiring].
  destruct (_ && _).
  - eapply (outcome_edits m log _ _ [(MK_Index name, None)]); [exact Hrule| |done].
    constructor; [by repeat constructor| |done]. intros k _. unfold edit_lookup. cbn [foldl fst snd].
    destruct k; cbn; repeat case_decide; simplify_eq; rewrite ?lookup_delete_eq, ?lookup_delete_ne by congruence; done.
  - by apply outcome_index.
Qed.

(** ** Dispatch *)

Lemma meta_dispatch_outcome cmd : wf cmd → outcome m log cmd (meta_dispatch s cmd log).
Proof.
  intros Hcmd. destruct cmd; cbn [meta_dispatch].
  - apply cluster_init_outcome.
  - by apply register_node_outcome.
  - apply seed_placement_outcome, Hcmd.
  - apply set_node_state_outcome, Hcmd.
  - apply create_plan_outcome, Hcmd.
  - apply mark_aborting_outcome.
  - apply (finalize_plan_outcome _ _ _ false).
  - apply (finalize_plan_outcome _ _ _ true).
  - apply create_search_index_outcome. by right.
  - apply create_search_index_outcome. by right.
  - apply report_search_ready_outcome, Hcmd.
  - apply activate_search_generation_outcome.
  - apply drop_search_index_outcome.
  - apply finalize_search_drop_outcome.
  - apply create_search_index_outcome. by left.
  - apply create_search_index_outcome. by left.
  - apply begin_maintenance_outcome.
  - apply release_maintenance_outcome.
  - apply acknowledge_maintenance_outcome, Hcmd.
  - apply quiesce_maintenance_outcome.
  - apply enter_maintenance_verification_outcome.
  - apply acknowledge_maintenance_recovery_outcome, Hcmd.
  - apply retire_node_outcome, Hcmd.
Qed.
End one.
End handlers.
