(* ===== verification/MetaInv.v ===== *)
(** * Every rule preserves the invariant of the meta state

    Grouped by what a rule changes: a directory entry, a placement, the
    maintenance record, the catalog. *)

From S2P Require Import Prelude BTree Types Codec Config SearchDef Keyspace Outbox MetaTypes ApplyDurability Rocks Storage MetaSM MetaSpec MetaReads MetaHandlers.
From coqutil Require Import Datatypes.RecordSetters.
Import TriangleBracketNotations.

(** What the catalog relies on of the record encoding: dropping retiring
    generations does not lengthen it. *)
Class CatalogCodec `{!Codec SearchIndexRecord} : Prop :=
  retiring_shrinks r l : length l ≤ length (sr_retiring r) →
    (encoded_len (r <| sr_retiring := l |>) ≤ encoded_len r)%N.

(** ** Sorted vectors *)

Lemma binary_search_by_key_fmap {A} (key : A → N) x l :
  binary_search_by_key key x l = binary_search x (key <$> l).
Proof.
  unfold binary_search. induction l as [|y l IH]; [done|]. simpl. by rewrite IH.
Qed.

Lemma binary_search_inr x l i : bset_sorted l → binary_search x l = inr i → x ∉ l.
Proof. intros Hs E Hx. apply binary_search_mem in Hx as [j Hj]; [|done]. congruence. Qed.

Lemma vec_insert_sorted x l i : bset_sorted l → binary_search x l = inr i → bset_sorted (vec_insert i x l).
Proof.
  intros Hs E. pose proof (vec_insert_keys_sorted id x l i) as Hv. unfold keys_sorted in Hv.
  rewrite !list_fmap_id in Hv. by apply Hv.
Qed.

(** The keys after an upsert. *)
Definition insert_key (x : N) (l : list N) : list N :=
  match binary_search x l with inl _ => l | inr i => vec_insert i x l end.

Lemma insert_key_sorted x l : bset_sorted l → bset_sorted (insert_key x l).
Proof. intros Hs. unfold insert_key. destruct (binary_search x l) eqn:E; [done|]. by apply vec_insert_sorted. Qed.

Lemma insert_key_subset x l l' : x ∈ l' → l ⊆ l' → insert_key x l ⊆ l'.
Proof.
  intros Hx Hl y. unfold insert_key. destruct (binary_search x l); [apply Hl|].
  rewrite elem_of_vec_insert. intros [->|Hy]; [done|by apply Hl].
Qed.

Lemma upsert_fst {A} (x : N) (v : A) l : (upsert x v l).*1 = insert_key x l.*1.
Proof.
  unfold upsert, insert_key. rewrite binary_search_by_key_fmap. destruct (binary_search x l.*1) as [i|i].
  - rewrite (list_fmap_alter _ _ id); [by apply list_alter_id|]. apply Forall_forall. done.
  - unfold vec_insert. by rewrite fmap_app, fmap_take, fmap_cons, fmap_drop.
Qed.

Lemma elem_of_upsert {A} (x : N) (v : A) l y : y ∈ upsert x v l → y = (x, v) ∨ y ∈ l.
Proof.
  unfold upsert. destruct (binary_search_by_key fst x l) as [i|i] eqn:E.
  - apply binary_search_found in E as (z & Hz & <-). intros (j & Hj)%list_elem_of_lookup.
    destruct (decide (i = j)) as [<-|Hne].
    + rewrite list_lookup_alter_eq, Hz in Hj. simpl in Hj. injection Hj as <-. by left.
    + rewrite list_lookup_alter_ne in Hj by done. right. by eapply list_elem_of_lookup_2.
  - by rewrite elem_of_vec_insert.
Qed.

(** A sorted sublist of a vector is no longer than it. *)
Lemma sorted_subset_length l l' : bset_sorted l → l ⊆ l' → length l ≤ length l'.
Proof. intros Hs Hl. apply submseteq_length, NoDup_submseteq; [by apply bset_sorted_nodup|done]. Qed.

Lemma sorted_subset_ok l l' : bset_sorted l → l ⊆ l' → node_ids_ok l' → node_ids_ok l.
Proof.
  intros Hs Hl [Hlen Hall]. split.
  - pose proof (sorted_subset_length l l' Hs Hl). unfold vec_len_ok in *. lia.
  - apply Forall_forall. intros x Hx. rewrite Forall_forall in Hall. by apply Hall, Hl.
Qed.

(** A voter set no larger than a valid list is valid. *)
Lemma voter_set_ok l : node_ids_ok l → node_ids_ok (voter_set l).
Proof.
  intros Hl. eapply sorted_subset_ok; [apply bset_of_list_sorted| |exact Hl].
  intros x Hx. by rewrite <-elem_of_bset.
Qed.

Section inv.
Context `{HashesOk} `{!Codec SearchIndexDefinition, !Codec SearchIndexRecord} `{!CatalogCodec}.
Implicit Types (m : MetaState).

(** ** Directory entries *)

Lemma set_node_inv m id e :
  meta_inv m → node_ok id e → ms_retired m !! id = None →
  (∀ j ej, ms_nodes m !! j = Some ej → j ≠ id → Forall (λ a, a ∉ endpoints ej) (endpoints e)) →
  (ms_nodes m !! id = None → size (ms_nodes m) < MAX_CLUSTER_NODES) →
  meta_inv (set_node id e m).
Proof.
  intros Hi He Hret Hfree Hsize. constructor; cbn; try apply Hi.
  - intros j ej. rewrite lookup_insert_Some. intros [[<- <-]|[_ Hj]]; [done|by eapply mi_nodes].
  - intros i j ei ej a. rewrite !lookup_insert_Some.
    intros [[<- <-]|[Hni Hei]] [[<- <-]|[Hnj Hej]] Ha1 Ha2; [done| | |by eapply mi_endpoints].
    + exfalso. specialize (Hfree j ej Hej (not_eq_sym Hnj)). rewrite Forall_forall in Hfree. by eapply Hfree.
    + exfalso. specialize (Hfree i ei Hei (not_eq_sym Hni)). rewrite Forall_forall in Hfree. by eapply Hfree.
  - destruct (ms_nodes m !! id) as [old|] eqn:E.
    + rewrite map_size_insert_Some by (by eexists). apply Hi.
    + rewrite map_size_insert_None by done. specialize (Hsize eq_refl). lia.
  - intros j i Hj. destruct (mi_retired m Hi j i Hj) as (Hc & H1' & H2' & Hn & Hp). split_and!; [done..| |done].
    rewrite lookup_insert_ne; [done|]. intros ->. congruence.
  - intros name g gr j o Ho. destruct (mi_ready m Hi _ _ _ _ _ Ho). by constructor.
Qed.

(** An active node is not retired. *)
Lemma active_not_retired m id i : meta_inv m → node_active m id → ms_retired m !! id = Some i → False.
Proof. intros Hi (e & He & _) Hr. destruct (mi_retired m Hi id i Hr) as (_ & _ & _ & Hn & _). congruence. Qed.

(** ** Placements *)

Lemma set_placement_inv m c g p :
  meta_inv m → ms_cluster m = Some c → placement_ok c g p →
  (∀ id i, ms_retired m !! id = Some i → references_node p id = false) →
  meta_inv (set_placement g p m).
Proof.
  intros Hi Hc Hp Hret. constructor; cbn; try apply Hi.
  - intros c' Hc'. split; [by apply (mi_cluster m Hi)|]. destruct (decide (g = GroupId_Meta)) as [->|Hne].
    + rewrite lookup_insert_eq. by eexists.
    + rewrite lookup_insert_ne by done. by eapply mi_cluster.
  - intros id i Hr. destruct (mi_retired m Hi id i Hr) as (H1' & H2' & H3' & Hn & Hpl). split_and!; [done..|].
    intros g' p'. rewrite lookup_insert_Some. intros [[<- <-]|[_ Hg']]; [by eapply Hret|by eapply Hpl].
  - intros g' p'. rewrite lookup_insert_Some. intros [[<- <-]|[_ Hg']]; [by exists c|by eapply mi_placements].
  - intros name g' gr j o Ho. destruct (mi_ready m Hi _ _ _ _ _ Ho). by constructor.
Qed.

Lemma references_node_false p id : references_node p id = false ↔
  id ∉ pl_voters p ∧ ∀ plan, pl_move p = Some plan → id ∉ mp_target_voters plan.
Proof.
  unfold references_node. rewrite orb_false_iff, bool_decide_eq_false. destruct (pl_move p) as [plan|].
  - rewrite bool_decide_eq_false. naive_solver.
  - naive_solver.
Qed.

(** A single change keeps the size of a data group and never grows a meta group. *)
Lemma single_change_length g current target :
  bset_sorted current → bset_sorted target → single_change g current target →
  match g with
  | GroupId_Data _ => length target = length current
  | GroupId_Meta => length target ≤ length current
  end.
Proof.
  intros Hc Ht [Hr Ha]. unfold voters_added, voters_removed, bset_difference in *.
  assert (∀ a b : list N, length (filter (λ x, x ∉ b) a) + length (filter (λ x, x ∈ b) a) = length a) as Hsplit.
  { intros a b. induction a as [|x a IH]; [done|]. rewrite !filter_cons. repeat case_decide; simpl; try done; lia. }
  assert (filter (λ x, x ∈ current) target ≡ₚ filter (λ x, x ∈ target) current) as Hp.
  { apply NoDup_Permutation; [by apply NoDup_filter, bset_sorted_nodup..|].
    intros x. rewrite !list_elem_of_filter. naive_solver. }
  pose proof (Hsplit target current). pose proof (Hsplit current target). apply Permutation_length in Hp.
  destruct g; lia.
Qed.

(** ** The maintenance record *)

Lemma set_maintenance_inv m r :
  meta_inv m → is_Some (ms_cluster m) → maintenance_ok r → meta_inv (set_maintenance r m).
Proof.
  intros Hi Hc Hr. constructor; cbn; try apply Hi.
  - by intros ? [= <-].
  - intros name g gr j o Ho. destruct (mi_ready m Hi _ _ _ _ _ Ho). by constructor.
Qed.

Lemma acknowledge_ok r id i : maintenance_ok r → mr_stage r = MaintenanceStage_Preparing → id ∈ mr_participants r →
  binary_search id (mr_acknowledged r) = inr i →
  maintenance_ok (r <| mr_acknowledged := vec_insert i id (mr_acknowledged r) |>).
Proof.
  destruct r as [op gen ps ack rec proc dig vd ve st]. intros [Hw Hids Hps [Has Hasub] Hrec Hproc Hdig Hvd Hq] Hst Hin Ei.
  cbn in *. assert (bset_sorted (vec_insert i id ack)) as Hs by (by apply vec_insert_sorted).
  assert (vec_insert i id ack ⊆ ps) as Hsub.
  { intros x. rewrite elem_of_vec_insert. intros [->|Hx]; [done|by apply Hasub]. }
  constructor; cbn; try done.
  - destruct Hw as (W1 & W2 & W3 & W4 & W5). do 3 (split; [done|]). split; [by eapply sorted_subset_ok|done].
  - subst st. intros [?|?]; done.
Qed.

Lemma insert_key_ok x l l' : node_ids_ok l' → bset_sorted l → x ∈ l' → l ⊆ l' → node_ids_ok (insert_key x l).
Proof.
  intros Hl Hs Hx Hsub. eapply sorted_subset_ok; [by apply insert_key_sorted| |exact Hl]. by apply insert_key_subset.
Qed.

Lemma record_recovery_ok r id process digest epoch :
  maintenance_ok r → mr_stage r = MaintenanceStage_Verifying → id ∈ mr_participants r →
  (id ≤ u64_max)%N → (process ≤ u64_max)%N → length digest = 32 → (epoch ≤ u128_max)%N →
  maintenance_ok (record_recovery r id process digest epoch).
Proof.
  destruct r as [op gen ps ack rec proc dig vd ve st].
  intros [Hw Hids Hps Hack [Hrs Hrsub] Hproc Hdig Hvd Hq] Hst Hin Hid Hp Hd He. unfold record_recovery. cbn in *.
  fold (insert_key id rec). set (rec' := insert_key id rec).
  assert (bset_sorted rec') as Hs' by (by apply insert_key_sorted).
  assert (rec' ⊆ ps) as Hsub' by (by apply insert_key_subset).
  destruct Hw as (W1 & W2 & W3 & W4 & W5 & W6 & W7 & W8 & W9 & W10 & W11). cbn in *.
  assert (node_ids_ok rec') as [Wlen Wrec] by (by eapply sorted_subset_ok).
  assert ((upsert id process proc).*1 = rec') as Ep by (rewrite upsert_fst; by subst rec).
  assert ((upsert id digest dig).*1 = rec') as Ed by (rewrite upsert_fst; by rewrite Hdig).
  assert (∀ A (l : list (N * A)), l.*1 = rec' → vec_len_ok l) as Hvl.
  { intros A l El. unfold vec_len_ok in *. rewrite <-El, length_fmap in Wlen. done. }
  constructor; cbn; try done.
  - split_and!; cbn; try done.
    + by apply (Hvl _ _ Ep).
    + apply Forall_forall. intros x [->|Hx]%elem_of_upsert; [done|]. rewrite Forall_forall in W7. by apply W7.
    + by apply (Hvl _ _ Ed).
    + apply Forall_forall. intros x [->|Hx]%elem_of_upsert; [done|]. rewrite Forall_forall in W9. by apply W9.
    + by case_match.
    + by case_match.
  - intros d. destruct (_ && _) eqn:E; [|done]. intros [= <-]. bools. split; [done|].
    apply Forall_forall. intros x Hx.
    match goal with Ha : forallb _ _ = true |- _ => rewrite forallb_forall in Ha; apply list_elem_of_In, Ha in Hx end.
    by bools.
Qed.

(** ** The catalog *)

Lemma set_index_inv m name r :
  meta_inv m → index_ok name r →
  (ms_indexes m !! name = None → (N.of_nat (size (ms_indexes m)) < SEARCH_MAX_INDEXES)%N) →
  (∀ generation g id o, ms_ready m !! (name, generation, g, id) = Some o → ∃ b, sr_building r = Some b ∧
     sg_id b = generation ∧ ry_definition_hash o = sg_definition_hash b ∧ ry_engine_revision o = sg_engine_revision b) →
  meta_inv (set_index name r m).
Proof.
  intros Hi Hr Hsize Hready. constructor; cbn; try apply Hi.
  - intros n r'. rewrite lookup_insert_Some. intros [[<- <-]|[_ Hn]]; [done|by eapply mi_indexes].
  - destruct (ms_indexes m !! name) as [old|] eqn:E.
    + rewrite map_size_insert_Some by (by eexists). apply Hi.
    + rewrite map_size_insert_None by done. specialize (Hsize eq_refl). lia.
  - intros n g gr j o Ho. destruct (mi_ready m Hi _ _ _ _ _ Ho) as [H1' H2' (r' & b & Hr' & Hb)].
    constructor; [done..|]. destruct (decide (name = n)) as [<-|Hne].
    + destruct (Hready _ _ _ _ Ho) as (b' & Hb'). exists r, b'. cbn. by rewrite lookup_insert_eq.
    + exists r', b. cbn. by rewrite lookup_insert_ne.
Qed.

(** No readiness is left for an index that builds nothing. *)
Lemma not_building_no_ready m name generation g id o :
  meta_inv m → ms_ready m !! (name, generation, g, id) = Some o →
  ∃ r b, ms_indexes m !! name = Some r ∧ sr_building r = Some b ∧ sg_id b = generation ∧
    ry_definition_hash o = sg_definition_hash b ∧ ry_engine_revision o = sg_engine_revision b.
Proof. intros Hi Ho. by destruct (mi_ready m Hi _ _ _ _ _ Ho). Qed.

(** Replacing a record and forgetting the readiness of its building generation. *)
Lemma clear_index_inv m name r r' b :
  meta_inv m → ms_indexes m !! name = Some r → sr_building r = Some b → index_ok name r' →
  meta_inv (clear_ready name (sg_id b) (set_index name r' m)).
Proof.
  intros Hi Hr Hb Hr'. constructor; cbn; try apply Hi.
  - intros n x. rewrite lookup_insert_Some. intros [[<- <-]|[_ Hn]]; [done|by eapply mi_indexes].
  - rewrite map_size_insert_Some by (by eexists). apply Hi.
  - intros n g gr j o [Ho Hn]%map_lookup_filter_Some. simpl in Hn.
    destruct (mi_ready m Hi _ _ _ _ _ Ho) as [H1' H2' (x & b' & Hx & Hb' & Hid & Hrest)].
    constructor; [done..|]. exists x, b'. cbn. rewrite lookup_insert_ne; [done|].
    intros ->. apply Hn. split; [done|]. congruence.
Qed.

(** ** Rules on the cluster and the directory *)

Lemma cluster_init_inv m log config voters :
  meta_inv m → wf config → node_ids_ok voters → wf log → ms_cluster m = None →
  (MIN_REPLICATION ≤ cc_r config)%N → (0 < cc_p config)%N →
  validate_routing_shape (cc_p config) (cc_r config) = Ok tt → NoDup voters →
  MIN_META_VOTERS ≤ length voters ≤ MAX_CLUSTER_NODES →
  meta_inv (set_placement GroupId_Meta (mkPlacement (voter_set voters) log None) (set_cluster config m)).
Proof.
  intros Hi Hwc Hwv Hwl Hnone Hr Hp Hsh Hnd Hlen.
  assert (∀ g, ms_placements m !! g = None) as Hnp.
  { intros g. destruct (ms_placements m !! g) as [p|] eqn:E; [|done].
    destruct (mi_placements m Hi g p E) as (c & Hc & _). congruence. }
  assert (ms_retired m = ∅) as Hnr.
  { apply map_empty. intros id. destruct (ms_retired m !! id) as [i|] eqn:E; [|done].
    destruct (mi_retired m Hi id i E) as [[c Hc] _]. congruence. }
  constructor; cbn; try apply Hi.
  - intros c [= <-]. split; [done|]. rewrite lookup_insert_eq. by eexists.
  - intros id i. rewrite Hnr. intros Hx. by apply lookup_empty_Some in Hx.
  - intros g p. rewrite lookup_insert_Some, Hnp. intros [[<- <-]|[_ ?]]; [|done]. exists config. split; [done|].
    constructor; cbn; [|apply bset_of_list_sorted| |done].
    + split; [by apply voter_set_ok|done].
    + unfold voter_set. rewrite (proj2 (length_bset_nodup voters)) by done. done.
  - intros r Hmr. destruct (mi_maintenance m Hi r Hmr) as [_ Hok]. split; [by eexists|done].
  - intros name g gr j o Ho. destruct (mi_ready m Hi _ _ _ _ _ Ho). by constructor.
Qed.

Lemma register_guard_free m id control bulk st i : register_guard m id control bulk →
  ∀ j ej, ms_nodes m !! j = Some ej → j ≠ id →
    Forall (λ a, a ∉ endpoints ej) (endpoints (mkNodeEntry id control bulk st i)).
Proof. intros Hg j ej Hj Hne. destruct (rg_free _ _ _ _ Hg j ej Hj Hne). by repeat constructor. Qed.

Lemma register_node_ok m id control bulk i : register_guard m id control bulk →
  (id ≤ u64_max)%N → str_ok control → str_ok bulk → (1 ≤ i ≤ u64_max)%N →
  node_ok id (mkNodeEntry id control bulk NodeState_Active i).
Proof.
  intros Hg Hid Hc Hb Hi. destruct (rg_endpoints _ _ _ _ Hg) as (Hec & Heb & Hne).
  constructor; cbn; [done|apply Hg|by destruct Hi|lia|apply Forall_cons_2; [done|by apply Forall_singleton]|done].
Qed.

Lemma retire_inv m id e c : meta_inv m → ms_nodes m !! id = Some e → ms_cluster m = Some c →
  (∀ g, g ∈ all_groups (cc_p c) → ∃ p, ms_placements m !! g = Some p ∧ references_node p id = false) →
  meta_inv (retire id (nd_incarnation e) m).
Proof.
  intros Hi He Hc Hfree. pose proof (mi_nodes m Hi id e He) as Hok. constructor; cbn; try apply Hi.
  - intros j ej [_ Hj]%lookup_delete_Some. by eapply mi_nodes.
  - intros i j ei ej a [_ Hei]%lookup_delete_Some [_ Hej]%lookup_delete_Some. by eapply mi_endpoints.
  - pose proof (mi_node_count m Hi). rewrite map_size_delete_Some by (by eexists). lia.
  - intros j i. rewrite lookup_insert_Some. intros [[<- <-]|[Hne Hj]].
    + destruct (nk_wf _ _ Hok) as (Hw1 & _ & _ & Hw2). rewrite (nk_id _ _ Hok) in Hw1.
      split_and!; [by eexists|done|done|by rewrite lookup_delete_eq|].
      intros g p Hg. destruct (mi_placements m Hi g p Hg) as (c' & Hc' & Hp). assert (c' = c) as -> by congruence.
      destruct (Hfree g) as (p' & Hp' & Href); [|congruence]. unfold all_groups.
      destruct g as [|k]; [left|right]. apply list_elem_of_fmap. exists (N.to_nat k). split; [by rewrite N2Nat.id|].
      apply elem_of_seq. destruct (pk_size _ _ _ Hp). lia.
    + destruct (mi_retired m Hi j i Hj) as (H1' & H2' & H3' & Hn & Hpl). split_and!; [done..| |done].
      by rewrite lookup_delete_ne.
  - intros name g gr j o Ho. destruct (mi_ready m Hi _ _ _ _ _ Ho). by constructor.
Qed.

(** ** Rules on placements *)

Lemma seed_placement_inv m log partition voters c :
  meta_inv m → node_ids_ok voters → wf log → ms_cluster m = Some c → (partition < cc_p c)%N → NoDup voters →
  N.of_nat (length voters) = cc_r c → Forall (node_active m) voters →
  meta_inv (set_placement (GroupId_Data partition) (mkPlacement (voter_set voters) log None) m).
Proof.
  intros Hi Hwv Hwl Hc Hp Hnd Hlen Hact. apply (set_placement_inv m c); [done..| |].
  - constructor; cbn; [|apply bset_of_list_sorted| |done].
    + split; [by apply voter_set_ok|done].
    + unfold voter_set. rewrite (proj2 (length_bset_nodup voters)) by done. done.
  - intros id i Hr. apply references_node_false. cbn. split; [|done]. unfold voter_set. rewrite elem_of_bset.
    intros Hin. rewrite Forall_forall in Hact. by eapply active_not_retired; [| |exact Hr]; [|apply Hact].
Qed.

(** Setting the plan of an existing placement. *)
Lemma set_plan_inv m g p plan :
  meta_inv m → ms_placements m !! g = Some p → wf plan → bset_sorted (mp_target_voters plan) →
  single_change g (pl_voters p) (mp_target_voters plan) →
  (∀ id i, ms_retired m !! id = Some i → id ∉ mp_target_voters plan) →
  meta_inv (set_placement g (p <| pl_move := Some plan |>) m).
Proof.
  intros Hi Hp Hwp Hs Hch Hret. destruct (mi_placements m Hi g p Hp) as (c & Hc & [Hw Hsv Hsz Hmv]).
  apply (set_placement_inv m c); [done..| |].
  - destruct p as [vs vl mv]. constructor; cbn in *; [|done|done|by intros ? [= <-]].
    destruct Hw as (Hw1 & Hw2 & _). done.
  - intros id i Hr. destruct (mi_retired m Hi id i Hr) as (_ & _ & _ & _ & Hpl).
    specialize (Hpl g p Hp). rewrite references_node_false in Hpl |- *. destruct p. cbn in *.
    split; [apply Hpl|]. intros ? [= <-]. by eapply Hret.
Qed.

Lemma create_plan_inv m log g target p :
  meta_inv m → node_ids_ok target → wf log → ms_placements m !! g = Some p → NoDup target →
  single_change g (pl_voters p) (voter_set target) →
  Forall (node_active m) (voters_added (pl_voters p) (voter_set target)) →
  meta_inv (set_placement g (p <| pl_move := Some (mkMovePlan (log_index log) (voter_set target) false) |>) m).
Proof.
  intros Hi Hwt [_ Hwl] Hp Hnd Hch Hact. apply set_plan_inv; cbn; [done|done| |apply bset_of_list_sorted|done|].
  - split; cbn; [done|]. by apply voter_set_ok.
  - intros id i Hr Hin. destruct (mi_retired m Hi id i Hr) as (_ & _ & _ & _ & Hpl).
    specialize (Hpl g p Hp). rewrite references_node_false in Hpl. rewrite Forall_forall in Hact.
    eapply active_not_retired; [done| |exact Hr]. apply Hact. apply elem_of_bset_difference. split; [done|apply Hpl].
Qed.

Lemma mark_aborting_inv m g p plan :
  meta_inv m → ms_placements m !! g = Some p → pl_move p = Some plan →
  meta_inv (set_placement g (p <| pl_move := Some (plan <| mp_aborting := true |>) |>) m).
Proof.
  intros Hi Hp Hm. destruct (mi_placements m Hi g p Hp) as (c & Hc & Hok).
  destruct (pk_move _ _ _ Hok plan Hm) as [Hs Hch]. destruct (pk_wf _ _ _ Hok) as (_ & _ & Hw). rewrite Hm in Hw.
  apply set_plan_inv; [done|done|by destruct plan|by destruct plan|by destruct plan|].
  intros id i Hr Hin. destruct (mi_retired m Hi id i Hr) as (_ & _ & _ & _ & Hpl).
  specialize (Hpl g p Hp). rewrite references_node_false in Hpl. destruct Hpl as [_ Hpl].
  apply (Hpl plan Hm). by destruct plan.
Qed.

(** A resolved plan leaves the old voters or the target. *)
Lemma resolve_plan_inv m g p plan voters log :
  meta_inv m → ms_placements m !! g = Some p → pl_move p = Some plan → wf log →
  voters = pl_voters p ∨ voters = mp_target_voters plan →
  meta_inv (set_placement g (mkPlacement voters log None) m).
Proof.
  intros Hi Hp Hm Hwl Hv. destruct (mi_placements m Hi g p Hp) as (c & Hc & Hok).
  destruct (pk_move _ _ _ Hok plan Hm) as [Hs Hch]. destruct (pk_wf _ _ _ Hok) as (Hw1 & _ & Hw2). rewrite Hm in Hw2.
  pose proof (single_change_length g _ _ (pk_sorted _ _ _ Hok) Hs Hch) as Hlen. pose proof (pk_size _ _ _ Hok) as Hsz.
  apply (set_placement_inv m c); [done..| |].
  - constructor; cbn; [| | |done].
    + split; [|done]. destruct Hv as [->| ->]; [done|apply Hw2].
    + destruct Hv as [->| ->]; [apply Hok|done].
    + destruct Hv as [->| ->]; [done|]. destruct g; [|by rewrite Hlen]. destruct Hch as [_ [_ Hmin]]. lia.
  - intros id i Hr. destruct (mi_retired m Hi id i Hr) as (_ & _ & _ & _ & Hpl). specialize (Hpl g p Hp).
    rewrite references_node_false in Hpl |- *. cbn. split; [|done]. destruct Hv as [->| ->]; [apply Hpl|].
    destruct Hpl as [_ Hpl]. by apply Hpl.
Qed.

(** ** Rules on the catalog *)

Lemma with_revision_wf id revision d g :
  with_revision id revision d = Ok g → wf d → (id ≤ u64_max)%N → (revision ≤ u32_max)%N → wf g.
Proof.
  unfold with_revision, definition_hash. intros E Hd Hid Hr. repeat case_match; try done.
  apply bind_ok in E as (hash & (x & _ & [= <-])%bind_ok & [= <-]). split_and!; cbn; try apply Hd; try done.
  apply sha256_length.
Qed.

Lemma check_ok b msg x : check b msg = Ok x ↔ b = true.
Proof. unfold check. destruct b, x; naive_solver. Qed.

Lemma validate_record_ok r : SearchIndexRecord_validate r = Ok tt ↔
  validate_index_name (sr_name r) = Ok tt ∧ (vec_len (sr_retiring r) ≤ SEARCH_MAX_RETIRING_GENERATIONS)%N ∧
  (∀ g, sr_active r = Some g → validate_integrity g = Ok tt) ∧
  (∀ g, sr_building r = Some g → validate_integrity g = Ok tt) ∧
  (encoded_len r ≤ SEARCH_MAX_CATALOG_BYTES)%N.
Proof.
  unfold SearchIndexRecord_validate, check. destruct (validate_index_name (sr_name r)) as [[]|]; simpl; [|naive_solver].
  destruct (N.leb_spec (vec_len (sr_retiring r)) SEARCH_MAX_RETIRING_GENERATIONS) as [Hl|Hl]; simpl; [|naive_solver lia].
  assert (∀ o, (match o with Some g => validate_integrity g | None => Ok tt end = Ok tt ↔
    ∀ g, o = Some g → validate_integrity g = Ok tt)) as Ho by (intros []; naive_solver).
  rewrite <-!Ho. destruct (match sr_active r with Some g => _ | None => _ end) as [[]|]; simpl; [|naive_solver].
  destruct (match sr_building r with Some g => _ | None => _ end) as [[]|]; simpl; [|naive_solver].
  destruct (N.leb_spec (encoded_len r) SEARCH_MAX_CATALOG_BYTES); naive_solver lia.
Qed.

(** Retiring lists stay in range. *)
Lemma push_retiring_range l id : Forall (λ i, i ≤ u64_max)%N l → (id ≤ u64_max)%N →
  Forall (λ i, i ≤ u64_max)%N (push_retiring l id).
Proof. intros Hl Hid. unfold push_retiring. case_bool_decide; [done|]. apply Forall_app. by repeat constructor. Qed.

Lemma foldl_push_range ids l : Forall (λ i, i ≤ u64_max)%N l → Forall (λ i, i ≤ u64_max)%N ids →
  Forall (λ i, i ≤ u64_max)%N (foldl push_retiring l ids).
Proof.
  intros Hl Hids. revert l Hl. induction Hids as [|id ids Hid _ IH]; intros l Hl; [done|].
  simpl. by apply IH, push_retiring_range.
Qed.

Lemma index_ok_valid name r :
  sr_name r = name → str_ok name → from_option wf True (sr_active r) → from_option wf True (sr_building r) →
  Forall (λ i, i ≤ u64_max)%N (sr_retiring r) → SearchIndexRecord_validate r = Ok tt → index_ok name r.
Proof.
  intros Hn Hs Ha Hb Hr Hv. constructor; [done| |done]. split_and!; try done; rewrite ?Hn; try apply Hs.
  apply validate_record_ok in Hv as (_ & Hl & _). unfold vec_len, SEARCH_MAX_RETIRING_GENERATIONS in Hl.
  split; [unfold vec_len_ok, u64_max; lia|done].
Qed.

Lemma create_index_inv m log name d revision g :
  meta_inv m → str_ok name → wf d → wf log → (revision ≤ u32_max)%N →
  with_revision (log_index log) revision d = Ok g → ms_indexes m !! name = None →
  (N.of_nat (size (ms_indexes m)) < SEARCH_MAX_INDEXES)%N →
  SearchIndexRecord_validate (mkSearchRecord name None (Some g) []) = Ok tt →
  meta_inv (set_index name (mkSearchRecord name None (Some g) []) m).
Proof.
  intros Hi Hn Hd [_ Hl] Hr Hg Hnone Hsz Hv. apply set_index_inv; [done| |done|].
  - apply index_ok_valid; cbn; try done. by eapply with_revision_wf.
  - intros ge gr id o Ho. destruct (not_building_no_ready m _ _ _ _ _ Hi Ho) as (r & b & Hx & _). congruence.
Qed.

Lemma create_generation_inv m log name d revision g r :
  meta_inv m → str_ok name → wf d → wf log → (revision ≤ u32_max)%N →
  with_revision (log_index log) revision d = Ok g → ms_indexes m !! name = Some r → sr_building r = None →
  SearchIndexRecord_validate (r <| sr_building := Some g |>) = Ok tt →
  meta_inv (set_index name (r <| sr_building := Some g |>) m).
Proof.
  intros Hi Hn Hd [_ Hl] Hr Hg Hx Hb Hv. destruct (mi_indexes m Hi _ _ Hx) as [Hname (_ & Ha & _ & _ & Hret) _].
  apply set_index_inv; [done| |congruence|].
  - destruct r. apply index_ok_valid; cbn in *; try done. by eapply with_revision_wf.
  - intros ge gr id o Ho. destruct (not_building_no_ready m _ _ _ _ _ Hi Ho) as (r' & b & Hx' & Hb' & _). congruence.
Qed.

Lemma report_ready_inv m name o r b : meta_inv m → wf o → ms_indexes m !! name = Some r → sr_building r = Some b →
  ry_generation o = sg_id b → ry_definition_hash o = sg_definition_hash b →
  ry_engine_revision o = sg_engine_revision b → meta_inv (set_ready name o m).
Proof.
  intros Hi Hw Hr Hb H1' H2' H3'. constructor; cbn; try apply Hi.
  intros n g gr j o'. rewrite lookup_insert_Some. intros [[[= <- <- <- <-] <-]|[_ Ho]].
  - constructor; [done..|]. exists r, b. done.
  - destruct (mi_ready m Hi _ _ _ _ _ Ho). by constructor.
Qed.

Lemma activate_inv m name r b retiring : meta_inv m → ms_indexes m !! name = Some r → sr_building r = Some b →
  retiring = match sr_active r with Some a => push_retiring (sr_retiring r) (sg_id a) | None => sr_retiring r end →
  SearchIndexRecord_validate (mkSearchRecord (sr_name r) (Some b) None retiring) = Ok tt →
  meta_inv (clear_ready name (sg_id b) (set_index name (mkSearchRecord (sr_name r) (Some b) None retiring) m)).
Proof.
  intros Hi Hr Hb -> Hv. destruct (mi_indexes m Hi _ _ Hr) as [Hname (Hs & Ha & Hwb & _ & Hret) _].
  rewrite Hb in Hwb. eapply clear_index_inv; [done..|]. apply index_ok_valid; cbn; try done.
  - by rewrite <-Hname.
  - destruct (sr_active r) as [a|]; [|done]. apply push_retiring_range; [done|apply Ha].
Qed.

Lemma drop_index_inv m name r r' : meta_inv m → ms_indexes m !! name = Some r →
  r' = mkSearchRecord (sr_name r) None None
         (foldl push_retiring (sr_retiring r) (sg_id <$> (opt_list (sr_active r) ++ opt_list (sr_building r)))) →
  SearchIndexRecord_validate r' = Ok tt →
  meta_inv (match sr_building r with
            | Some b => clear_ready name (sg_id b) (set_index name r' m)
            | None => set_index name r' m
            end).
Proof.
  intros Hi Hr Er' Hv. destruct (mi_indexes m Hi _ _ Hr) as [Hname (Hs & Ha & Hwb & _ & Hret) _].
  assert (index_ok name r') as Hok.
  { subst r'. apply index_ok_valid; cbn; try done; [by rewrite <-Hname|]. apply foldl_push_range; [done|].
    rewrite Forall_fmap. apply Forall_app. split;
      [destruct (sr_active r); cbn in *; [|done]|destruct (sr_building r); cbn in *; [|done]];
      apply Forall_singleton; [apply Ha|apply Hwb]. }
  destruct (sr_building r) as [b|] eqn:Eb; [by eapply clear_index_inv|].
  apply set_index_inv; [done|done|congruence|]. intros ge gr id o Ho.
  destruct (not_building_no_ready m _ _ _ _ _ Hi Ho) as (x & b & Hx & Hb & _). congruence.
Qed.

Lemma finalize_drop_inv m name generation r retiring : meta_inv m → ms_indexes m !! name = Some r →
  retiring = filter (λ id, id ≠ generation) (sr_retiring r) →
  meta_inv (if bool_decide (sr_active r = None) && bool_decide (sr_building r = None) && bool_decide (retiring = [])
            then delete_index name m else set_index name (r <| sr_retiring := retiring |>) m).
Proof.
  intros Hi Hr ->. destruct (mi_indexes m Hi _ _ Hr) as [Hname (Hs & Ha & Hwb & _ & Hret) Hv].
  destruct (_ && _) eqn:E; bools.
  - constructor; cbn; try apply Hi.
    + intros n x [_ Hx]%lookup_delete_Some. by eapply mi_indexes.
    + pose proof (mi_index_count m Hi). rewrite map_size_delete_Some by (by eexists). lia.
    + intros n g gr j o Ho. destruct (mi_ready m Hi _ _ _ _ _ Ho) as [H1' H2' (x & b & Hx & Hb)].
      constructor; [done..|]. exists x, b. cbn. rewrite lookup_delete_ne; [done|]. intros ->.
      assert (x = r) as -> by congruence. naive_solver.
  - apply set_index_inv; [done| |congruence|].
    + pose proof (length_filter (λ id, id ≠ generation) (sr_retiring r)) as Hlen.
      pose proof (retiring_shrinks r _ Hlen) as Henc. apply validate_record_ok in Hv as (V1 & V2 & V3 & V4 & V5).
      apply index_ok_valid; [by destruct r|by rewrite <-Hname|by destruct r|by destruct r| |].
      * destruct r. cbn in *. apply Forall_forall. intros x [_ Hx]%list_elem_of_filter.
        rewrite Forall_forall in Hret. by apply Hret.
      * apply validate_record_ok. split_and!; [by destruct r| |by destruct r..|lia].
        destruct r. cbn in *. unfold vec_len in *. lia.
    + intros ge gr id o Ho. destruct (not_building_no_ready m _ _ _ _ _ Hi Ho) as (x & b & Hx & Hb & Hrest).
      assert (x = r) as -> by congruence. exists b. by destruct r.
Qed.

(** ** All rules *)

Lemma maintenance_begin_ok op generation participants : (op ≤ u128_max)%N → (generation ≤ u64_max)%N →
  node_ids_ok participants → op ≠ 0%N → generation ≠ 0%N → participants ≠ [] → bset_sorted participants →
  maintenance_ok (mkMaintenance op generation participants [] [] [] [] None None MaintenanceStage_Preparing).
Proof.
  intros Ho Hg Hp Ho0 Hg0 Hp0 Hs. constructor; cbn; try done.
  - split; [constructor|apply list_subseteq_nil].
  - split; [constructor|apply list_subseteq_nil].
  - by intros [|].
Qed.

Lemma maintenance_restage r st : maintenance_ok r →
  (st = MaintenanceStage_Released ∨ mr_acknowledged r = mr_participants r) →
  maintenance_ok (r <| mr_stage := st |>).
Proof.
  destruct r. intros [Hw Hids Hps Hack Hrec Hproc Hdig Hvd Hq] Hst. constructor; cbn in *; try done.
  intros [->| ->]; by destruct Hst.
Qed.

Lemma enter_verification_ok r : maintenance_ok r → mr_stage r = MaintenanceStage_Quiesced →
  maintenance_ok (r <| mr_stage := MaintenanceStage_Verifying |> <| mr_recovered := [] |>
    <| mr_recovery_processes := [] |> <| mr_recovery_policy_digests := [] |>
    <| mr_verification_policy_digest := None |> <| mr_verification_recovery_epoch := None |>).
Proof.
  destruct r. intros [Hw Hids Hps Hack Hrec Hproc Hdig Hvd Hq] Hst. cbn in *. subst.
  constructor; cbn in *; try done.
  - destruct Hw as (W1 & W2 & W3 & W4 & _). repeat split; try apply W3; try apply W4; try done; constructor.
  - split; [constructor|apply list_subseteq_nil].
  - intros _. apply Hq. by left.
Qed.

(** Every rule preserves the invariant. *)
Lemma meta_rule_inv m log cmd m' :
  meta_inv m → wf cmd → wf log → meta_rule m log cmd m' → meta_inv m'.
Proof.
  intros Hi Hw Hl Hr. assert (LEGACY_SEARCH_ENGINE_REVISION ≤ u32_max)%N by (vm_compute; discriminate). destruct Hr.
  - destruct Hw. by apply cluster_init_inv.
  - destruct Hw as (W1 & W2 & W3). apply set_node_inv; [done| |by eapply rg_retired|by eapply register_guard_free|done].
    eapply register_node_ok; [done..|unfold u64_max; lia].
  - destruct Hw as (W1 & W2 & W3). pose proof (nk_incarnation _ _ (mi_nodes m Hi _ _ H4)).
    apply set_node_inv; [done| |by eapply rg_retired|by eapply register_guard_free|congruence].
    eapply register_node_ok; [done..|lia].
  - pose proof (mi_nodes m Hi _ _ H3) as Hok. apply set_node_inv; [done| | | |congruence].
    + destruct e, Hok. by constructor.
    + destruct (ms_retired m !! id) eqn:E; [|done]. destruct (mi_retired m Hi _ _ E) as (_ & _ & _ & ? & _). congruence.
    + intros j ej Hj Hne. apply Forall_forall. intros a Ha Ha'. apply Hne.
      eapply mi_endpoints; [done|exact Hj|exact H3|exact Ha'|by destruct e].
  - by eapply retire_inv.
  - destruct Hw. by eapply seed_placement_inv.
  - destruct Hw as (W1 & W2 & W3). by apply create_plan_inv.
  - by apply mark_aborting_inv.
  - destruct Hw as (_ & _ & _ & _ & _ & W). eapply resolve_plan_inv; eauto.
  - destruct Hw as (_ & _ & _ & _ & _ & W). eapply resolve_plan_inv; eauto.
  - destruct Hw as (W1 & W2 & W3). apply set_maintenance_inv; [done|by eexists|].
    apply maintenance_begin_ok; try done. subst participants. apply bset_of_list_sorted.
  - destruct (mi_maintenance m Hi _ H3) as [Hc Hok]. apply set_maintenance_inv; [done|done|].
    apply maintenance_restage; [done|by left].
  - destruct (mi_maintenance m Hi _ H3) as [Hc Hok]. apply set_maintenance_inv; [done|done|]. by apply acknowledge_ok.
  - destruct (mi_maintenance m Hi _ H3) as [Hc Hok]. apply set_maintenance_inv; [done|done|].
    apply maintenance_restage; [done|by right].
  - destruct (mi_maintenance m Hi _ H3) as [Hc Hok]. apply set_maintenance_inv; [done|done|]. by apply enter_verification_ok.
  - destruct (mi_maintenance m Hi _ H3) as [Hc Hok]. destruct Hw as (W1 & W2 & W3 & W4 & W5 & W6 & W7 & W8).
    apply set_maintenance_inv; [done|done|]. by apply record_recovery_ok.
  - destruct H3 as [->|[-> ->]]; [destruct Hw as (W1 & W2 & W3)|destruct Hw as (W1 & W2)]; (eapply create_index_inv; [done|done|done|done| |eassumption|..]; done).
  - destruct H3 as [->|[-> ->]]; [destruct Hw as (W1 & W2 & W3)|destruct Hw as (W1 & W2)]; (eapply create_generation_inv; [done|done|done|done| |eassumption|..]; done).
  - destruct Hw. by eapply report_ready_inv.
  - by eapply activate_inv.
  - by eapply drop_index_inv.
  - by eapply finalize_drop_inv.
Qed.
End inv.
