(* ===== verification/MetaProofs.v ===== *)
(** * Correctness of the meta state machine

    Applying a command implements one step of [meta_step] or changes nothing;
    from a freshly bound store every log of commands keeps the invariant; and
    the safety properties of the control plane follow by induction over the
    steps. *)

From S2P Require Import Prelude BTree Types Codec Config SearchDef Keyspace Outbox MetaTypes ApplyDurability Rocks Storage Bincode Demo MetaSM MetaSpec MetaReads MetaHandlers MetaInv.
From coqutil Require Import Datatypes.RecordSetters.
Import TriangleBracketNotations.

Section meta.
Context `{RocksOk D} `{HashesOk} `{!Codec U64, !Codec U128, !Codec string, !Codec LogId, !Codec Identity}
  `{!Codec ClusterConfig, !Codec NodeDirectoryEntry, !Codec MaintenanceRecord, !Codec Placement}
  `{!Codec SearchIndexDefinition, !Codec SearchIndexRecord, !Codec SearchIndexReady} `{!CatalogCodec}.
Implicit Types (s : Storage D) (m : MetaState).

Lemma meta_evaluate_outcome s m cmd log : meta_store s m → meta_inv m → wf cmd →
  ∃ r ms, meta_evaluate s cmd log = Ok (r, ms) ∧
    ((r ≠ MetaApplyResult_Applied ∧ ms = []) ∨
     (r = MetaApplyResult_Applied ∧ ∃ m' es, meta_step m log cmd m' ∧ edits m es m' ∧ ms = edit_mutation <$> es)).
Proof.
  intros Hs Hi Hw. unfold meta_evaluate. rewrite (meta_maintenance_read s m Hs Hi). cbn [rbind].
  destruct (_ && _) eqn:Eg; [eexists _, _; split; [done|]; by left|].
  destruct (meta_dispatch_outcome s m log Hs Hi cmd Hw) as (r & ms & -> & [Ho|(-> & m' & es & Hr & He & ->)]).
  { exists r, ms. split; [done|]. by left. }
  exists MetaApplyResult_Applied, (edit_mutation <$> es). split; [done|]. right. split; [done|].
  exists m', es. split; [|done]. split; [|done]. apply andb_false_iff in Eg as [Eg|Eg]; [right|left; by bools].
  intros r Hr'. rewrite Hr' in Eg. by bools.
Qed.

Lemma meta_store_write s s' m m' es log :
  meta_store s m → edits m es m' → apply_state GroupId_Meta (edit_mutation <$> es) log s = (s', Ok tt) →
  meta_store s' m'.
Proof.
  intros [Hc Ho Hr Hid] He Hap.
  destruct (apply_state_map s s' GroupId_Meta _ log Hc Hap) as (Hc' & Ho' & Hmap & _).
  constructor; [done|done| |].
  - eapply meta_rep_ext; [|eapply (meta_rep_edits _ m m' es); [done|apply He|apply He]].
    intros b Hb _. by apply Hmap.
  - unfold identity in *. rewrite (apply_state_local s s' _ _ _ _ Hc Hap), Hid. f_equal. symmetry. apply He.
Qed.

(** The effect of one command on a represented store. *)
Lemma meta_apply_exec s m cmd log : meta_store s m → meta_inv m → wf cmd → wf log →
  ∃ s' r m', meta_apply cmd log s = (s', Ok r) ∧ meta_store s' m' ∧ meta_inv m' ∧
    ((r = MetaApplyResult_Applied ∧ meta_step m log cmd m') ∨ (r ≠ MetaApplyResult_Applied ∧ m' = m)).
Proof.
  intros Hs Hi Hw Hl. destruct (meta_evaluate_outcome s m cmd log Hs Hi Hw) as (r & ms & Hev & Hout).
  destruct (apply_state GroupId_Meta ms log s) as [s' x] eqn:Hap.
  assert (x = Ok tt) as ->
    by (pose proof (apply_state_ok s GroupId_Meta ms log (mst_open _ _ Hs)) as E; by rewrite Hap in E).
  exists s', r. unfold meta_apply, io_bind, io_read. rewrite Hev. cbn. rewrite Hap. cbn.
  destruct Hout as [[Hr ->]|(-> & m' & es & Hst & He & ->)].
  - exists m. split_and!; [done| |done|by right].
    eapply (meta_store_write s s' m m []); [done| |exact Hap]. by constructor.
  - exists m'. split_and!; [done|by eapply meta_store_write|by eapply meta_rule_inv; [..|apply Hst]|by left].
Qed.

Lemma meta_apply_write s s' cmd log r :
  meta_apply cmd log s = (s', Ok r) → ∃ ms, apply_state GroupId_Meta ms log s = (s', Ok tt).
Proof.
  unfold meta_apply. intros (s1 & [r1 ms] & E1 & (s2 & [] & E2 & E3)%io_bind_ok)%io_bind_ok.
  injection E1 as <- _. injection E3 as -> _. eauto.
Qed.

(** A command that evaluates to Applied is applied. *)
Lemma meta_command_applies s m cmd log ms : meta_store s m → meta_inv m → wf cmd → wf log →
  meta_evaluate s cmd log = Ok (MetaApplyResult_Applied, ms) →
  ∃ s' m', meta_apply cmd log s = (s', Ok MetaApplyResult_Applied) ∧ meta_store s' m' ∧ meta_inv m' ∧ meta_step m log cmd m'.
Proof.
  intros Hs Hi Hw Hl Hev. destruct (meta_apply_exec s m cmd log Hs Hi Hw Hl) as (s' & r & m' & E & Hs' & Hi' & Hst).
  assert (r = MetaApplyResult_Applied) as ->.
  { unfold meta_apply, io_bind, io_read in E. rewrite Hev in E. cbn in E.
    destruct (apply_state _ _ _ _) as [s1 [[]|]]; cbn in E; [|done]. by injection E. }
  exists s', m'. split_and!; [done..|]. by destruct Hst as [[_ Hst]|[[] _]].
Qed.

(** C12: refinement. On a store that represents an abstract control-plane state
    satisfying the invariant, applying any command succeeds; if it reports
    Applied, the new store represents the state after exactly one step of the
    specification, otherwise the same state; the invariant holds again, the
    entry is recorded as last applied, and no other group changes. *)
Theorem meta_apply_refines s m cmd log : meta_store s m → meta_inv m → wf cmd → wf log →
  ∃ s' r m', meta_apply cmd log s = (s', Ok r) ∧ meta_store s' m' ∧ meta_inv m' ∧
    ((r = MetaApplyResult_Applied ∧ meta_step m log cmd m') ∨ (r ≠ MetaApplyResult_Applied ∧ m' = m)) ∧
    last_applied s' GroupId_Meta = Ok (Some log) ∧
    ∀ h k, h ≠ GroupId_Meta → get_state s' h k = get_state s h k.
Proof.
  intros Hs Hi Hw Hl. destruct (meta_apply_exec s m cmd log Hs Hi Hw Hl) as (s' & r & m' & E & Hs' & Hi' & Hst).
  destruct (meta_apply_write s s' cmd log r E) as [ms Hap].
  destruct (apply_state_map s s' _ _ _ (mst_cache _ _ Hs) Hap) as (_ & _ & _ & Hla & Hother).
  exists s', r, m'. split_and!; [done..| |done].
  unfold last_applied, get_state_record, get_state. unfold state_map in Hla.
  destruct (state_cf s' GroupId_Meta) as [cf|]; [|done]. cbn. rewrite Hla. cbn. by rewrite decode_encode.
Qed.

(** ** Logs of commands *)

Fixpoint meta_run (log : list (MetaCommand * LogId)) : io (Storage D) (list MetaApplyResult) :=
  match log with
  | [] => io_ret []
  | (cmd, log_id) :: log =>
      let? r := meta_apply cmd log_id in
      let? rs := meta_run log in io_ret (r :: rs)
  end.

Definition meta_entry_ok (e : MetaCommand * LogId) : Prop := wf e.1 ∧ wf e.2.

(** One step between states that satisfy the invariant. *)
Definition meta_next m m' : Prop := meta_inv m ∧ meta_inv m' ∧ ∃ log cmd, meta_step m log cmd m'.

Lemma meta_run_exec log s m : meta_store s m → meta_inv m → Forall meta_entry_ok log →
  ∃ s' rs m', meta_run log s = (s', Ok rs) ∧ meta_store s' m' ∧ meta_inv m' ∧ rtc meta_next m m'.
Proof.
  intros Hs Hi Hlog. revert s m Hs Hi. induction Hlog as [|[cmd l] log [Hw Hl] Hlog IH]; intros s m Hs Hi.
  { exists s, [], m. split_and!; [done..|]. apply rtc_refl. }
  destruct (meta_apply_exec s m cmd l Hs Hi Hw Hl) as (s1 & r & m1 & E1 & Hs1 & Hi1 & Hst).
  destruct (IH s1 m1 Hs1 Hi1) as (s2 & rs & m2 & E2 & Hs2 & Hi2 & Hrtc).
  exists s2, (r :: rs), m2. split_and!; [|done|done|].
  - cbn [meta_run]. unfold io_bind. by rewrite E1, E2.
  - destruct Hst as [[_ Hst]|[_ ->]]; [|done]. eapply rtc_l; [|done]. split_and!; [done..|]. eauto.
Qed.

(** A meta group that holds nothing yet, on a store bound to an identity. *)
Record meta_fresh s (id : Identity) : Prop := {
  mf_cache : cache_ok s;
  mf_open : is_ok (state_cf s GroupId_Meta) = true;
  mf_empty k : state_map s GroupId_Meta k = None;
  mf_identity : identity s = Ok (Some id);
}.

Lemma meta_fresh_store s id : meta_fresh s id → meta_store s (meta_init id) ∧ meta_inv (meta_init id).
Proof.
  intros [Hc Ho He Hid]. split.
  - constructor; [done|done| |done]. constructor; [|intros b v; by rewrite He].
    intros k _. rewrite He. by destruct k; cbn; rewrite ?lookup_empty.
  - constructor; cbn; try done; intros *; rewrite ?lookup_empty; try done.
    by apply Nat.le_0_l.
Qed.

(** C13: from a freshly bound meta group, every log of commands is applied without
    an error, whatever the commands say, and the store then represents a
    well-formed control-plane state: voter sets ascending and of the configured
    size, at most one single-voter plan per group, unique endpoints, at most
    eight nodes, retired identities unreferenced, a consistent maintenance
    record, and a valid catalog. *)
Theorem meta_run_invariant log s id : meta_fresh s id → Forall meta_entry_ok log →
  ∃ s' rs m, meta_run log s = (s', Ok rs) ∧ meta_store s' m ∧ meta_inv m.
Proof.
  intros [Hs Hi]%meta_fresh_store Hlog. destruct (meta_run_exec log s _ Hs Hi Hlog) as (s' & rs & m & E & Hs' & Hi' & _).
  eauto 10.
Qed.

(** ** Node identities *)

(** How a directory entry may evolve: a later incarnation, or the same one with
    Down never revived and Draining final. *)
Definition node_le (e e' : NodeDirectoryEntry) : Prop :=
  (nd_incarnation e < nd_incarnation e')%N ∨
  (nd_incarnation e = nd_incarnation e' ∧
   (nd_state e = NodeState_Down → nd_state e' = NodeState_Down ∨ nd_state e' = NodeState_Draining) ∧
   (nd_state e = NodeState_Draining → nd_state e' = NodeState_Draining)).

Lemma node_le_refl e : node_le e e.
Proof. right. naive_solver. Qed.
Lemma node_le_trans e1 e2 e3 : node_le e1 e2 → node_le e2 e3 → node_le e1 e3.
Proof. intros [?|(? & ? & ?)] [?|(? & ? & ?)]; [left; lia|left; lia|left; lia|right]. split; [congruence|]. naive_solver. Qed.

(** What a step does to an identity: its entry evolves or it is retired; a
    retired identity stays so. *)
Lemma meta_step_node m m' log cmd id e : meta_step m log cmd m' → ms_nodes m !! id = Some e →
  (∃ e', ms_nodes m' !! id = Some e' ∧ node_le e e') ∨ is_Some (ms_retired m' !! id).
Proof.
  intros [_ Hr] He.
  assert (∀ m1, ms_nodes m1 = ms_nodes m → ∃ e', ms_nodes m1 !! id = Some e' ∧ node_le e e') as Hsame.
  { intros m1 ->. exists e. split; [done|apply node_le_refl]. }
  destruct Hr; try (left; by apply Hsame).
  - left. cbn. destruct (decide (id0 = id)) as [->|Hne]; [congruence|]. rewrite lookup_insert_ne by done. by apply Hsame.
  - left. cbn. destruct (decide (id0 = id)) as [->|Hne]; [|rewrite lookup_insert_ne by done; by apply Hsame].
    rewrite lookup_insert_eq. eexists. split; [done|]. left. cbn. assert (e0 = e) as -> by congruence. lia.
  - left. cbn. destruct (decide (id0 = id)) as [->|Hne]; [|rewrite lookup_insert_ne by done; by apply Hsame].
    rewrite lookup_insert_eq. eexists. split; [done|]. assert (e0 = e) as -> by congruence. right. destruct e as [? ? ? st ?].
    cbn in *. split; [done|]. split; intros ->; cbn in *; bools; [|done].
    match goal with Hx : _ || _ = true |- _ => apply orb_true_iff in Hx as [Hx|Hx] end; bools; auto.
  - cbn. destruct (decide (id0 = id)) as [->|Hne].
    + right. rewrite lookup_insert_eq. by eexists.
    + left. rewrite lookup_delete_ne by done. by apply Hsame.
  - left. destruct (sr_building r); by apply Hsame.
  - left. case_match; by apply Hsame.
Qed.

Lemma meta_step_retired m m' log cmd id i : meta_step m log cmd m' → ms_retired m !! id = Some i →
  ms_retired m' !! id = Some i.
Proof.
  intros [_ Hr] He. destruct Hr; cbn; try done.
  - rewrite lookup_insert_ne; [done|]. congruence.
  - by destruct (sr_building r).
  - by case_match.
Qed.

Lemma meta_next_retired m m' id i : rtc meta_next m m' → ms_retired m !! id = Some i → ms_retired m' !! id = Some i.
Proof. induction 1 as [|m m1 m' (_ & _ & l & c & Hst) _ IH]; [done|]. intros Hr. by eapply IH, meta_step_retired. Qed.

Lemma meta_next_node m m' id e e' : meta_inv m' → rtc meta_next m m' → ms_nodes m !! id = Some e →
  ms_nodes m' !! id = Some e' → node_le e e'.
Proof.
  intros Hi' Hrtc. revert e Hi'. induction Hrtc as [m|m m1 m' (Hi & Hi1 & l & c & Hst) Hrtc IH]; intros e Hi' He He'.
  { assert (e = e') as -> by congruence. apply node_le_refl. }
  destruct (meta_step_node m m1 l c id e Hst He) as [(e1 & He1 & Hle)|[i Hret]].
  - eapply node_le_trans; [done|]. by apply IH.
  - apply (meta_next_retired m1 m') in Hret; [|done].
    destruct (mi_retired m' Hi' id i Hret) as (_ & _ & _ & Hn & _). congruence.
Qed.

(** C14: incarnations are fences. Across any log of commands the incarnation of a
    registered node never decreases, and at an unchanged incarnation a node
    declared Down stays Down or is drained and a draining node stays draining:
    only a re-registration, which takes a higher incarnation, revives it. *)
Theorem meta_incarnation_fence log s m s' rs id e e' : meta_store s m → meta_inv m → Forall meta_entry_ok log →
  (id ≤ u64_max)%N → meta_run log s = (s', Ok rs) → meta_node s id = Ok (Some e) → meta_node s' id = Ok (Some e') →
  node_le e e'.
Proof.
  intros Hs Hi Hlog Hid Hrun He He'. destruct (meta_run_exec log s m Hs Hi Hlog) as (s2 & rs2 & m' & E & Hs' & Hi' & Hrtc).
  rewrite Hrun in E. injection E as <- <-. rewrite (meta_node_read s m) in He by done.
  rewrite (meta_node_read s' m') in He' by done. injection He as He. injection He' as He'. by eapply meta_next_node.
Qed.

(** Retirement is final. Once an identity is retired, then after any log of
    commands it is still retired at the same incarnation, has no directory
    entry, and is referenced by no placement and no move plan. *)
Theorem meta_retired_final log s m s' rs id i : meta_store s m → meta_inv m → Forall meta_entry_ok log →
  (id ≤ u64_max)%N → meta_run log s = (s', Ok rs) → meta_retired s id = Ok (Some i) →
  meta_retired s' id = Ok (Some i) ∧ meta_node s' id = Ok None ∧
  ∀ g p, meta_placement s' g = Ok (Some p) → references_node p id = false.
Proof.
  intros Hs Hi Hlog Hid Hrun Hr. destruct (meta_run_exec log s m Hs Hi Hlog) as (s2 & rs2 & m' & E & Hs' & Hi' & Hrtc).
  rewrite Hrun in E. injection E as <- <-. rewrite (meta_retired_read s m) in Hr by done. injection Hr as Hr.
  apply (meta_next_retired m m') in Hr; [|done]. destruct (mi_retired m' Hi' id i Hr) as (_ & _ & _ & Hn & Hp).
  rewrite (meta_retired_read s' m'), (meta_node_read s' m') by done. rewrite Hr, Hn. split_and!; [done..|].
  intros g p. rewrite (meta_placement_read s' m') by done. intros [= Hg]. by eapply Hp.
Qed.

(** ** Move plans *)

(** [out] leaves the voters, [into] joins them. *)
Definition replaces_voter (voters target : list NodeId) (out into : NodeId) : Prop :=
  ∃ kept, voters ≡ₚ out :: kept ∧ target ≡ₚ into :: kept ∧ into ∉ voters ∧ out ∉ target.

(** A target the group may move to in one plan: one voter replaced by an active
    node, or one voter of the meta group removed while enough remain. *)
Definition one_voter_move (active : NodeId → Prop) (g : GroupId) (voters target : list NodeId) : Prop :=
  (∃ out into, replaces_voter voters target out into ∧ active into) ∨
  (g = GroupId_Meta ∧ ∃ out, voters ≡ₚ out :: target).

(** How one applied entry may change the placement of a group. *)
Inductive plan_evolves (active : NodeId → Prop) (log : LogId) (cmd : MetaCommand) (g : GroupId) (p : Placement) : Placement → Prop :=
| evolves_unchanged : plan_evolves active log cmd g p p
| evolves_opened hint requested target :
    cmd = MetaCommand_CreatePlan g hint requested → pl_move p = None → target ≡ₚ requested →
    one_voter_move active g (pl_voters p) target → (g = GroupId_Meta → MIN_META_VOTERS ≤ length target) →
    plan_evolves active log cmd g p
      (mkPlacement (pl_voters p) (pl_voters_log_id p) (Some (mkMovePlan (log_index log) target false)))
| evolves_aborting plan :
    cmd = MetaCommand_MarkAborting g (mp_plan_id plan) → pl_move p = Some plan → mp_aborting plan = false →
    plan_evolves active log cmd g p
      (mkPlacement (pl_voters p) (pl_voters_log_id p) (Some (mkMovePlan (mp_plan_id plan) (mp_target_voters plan) true)))
| evolves_finalized plan o :
    cmd = MetaCommand_FinalizePlan g (mp_plan_id plan) o → pl_move p = Some plan → mp_aborting plan = false →
    ob_group o = g → ob_plan_id o = mp_plan_id plan → (∀ v, v ∈ ob_voter_set o ↔ v ∈ mp_target_voters plan) →
    plan_evolves active log cmd g p (mkPlacement (mp_target_voters plan) (ob_config_log_id o) None)
| evolves_aborted plan o voters :
    cmd = MetaCommand_AbortReport g (mp_plan_id plan) o → pl_move p = Some plan → mp_aborting plan = true →
    ob_group o = g → ob_plan_id o = mp_plan_id plan → (∀ v, v ∈ ob_voter_set o ↔ v ∈ voters) →
    voters = pl_voters p ∨ voters = mp_target_voters plan →
    plan_evolves active log cmd g p (mkPlacement voters (ob_config_log_id o) None).

(** The one element a difference of two sorted sets holds. *)
Lemma difference_singleton (a b : list NodeId) x : bset_sorted a → bset_difference a b = [x] →
  x ∈ a ∧ x ∉ b ∧ a ≡ₚ x :: filter (λ y, y ∈ b) a.
Proof.
  intros Ha E. assert (∀ y, y ∈ bset_difference a b ↔ y = x) as Hx by (intros y; by rewrite E, list_elem_of_singleton).
  setoid_rewrite elem_of_bset_difference in Hx. pose proof (proj2 (Hx x) eq_refl) as [Hxa Hxb]. split_and!; [done..|].
  apply NoDup_Permutation; [by apply bset_sorted_nodup| |].
  - constructor; [rewrite list_elem_of_filter; naive_solver|by apply NoDup_filter, bset_sorted_nodup].
  - intros y. rewrite elem_of_cons, list_elem_of_filter. destruct (decide (y ∈ b)); naive_solver.
Qed.

Lemma single_change_moves active g current target : bset_sorted current → bset_sorted target → single_change g current target →
  Forall active (voters_added current target) → one_voter_move active g current target.
Proof.
  intros Hc Ht [Hr Ha] Hact. unfold voters_added, voters_removed in *.
  destruct (bset_difference current target) as [|out [|]] eqn:Er; [done| |done].
  destruct (difference_singleton _ _ _ Hc Er) as (Ho1 & Ho2 & Hpc).
  assert (filter (λ y, y ∈ target) current ≡ₚ filter (λ y, y ∈ current) target) as Hkept.
  { apply NoDup_Permutation; [by apply NoDup_filter, bset_sorted_nodup..|]. intros y. rewrite !list_elem_of_filter. naive_solver. }
  destruct (bset_difference target current) as [|into [|]] eqn:Ea.
  - right. destruct g; [|done]. split; [done|]. exists out. rewrite Hpc. constructor. rewrite Hkept.
    assert (∀ y, y ∈ target → y ∈ current) as Hsub.
    { intros y Hy. destruct (decide (y ∈ current)) as [|Hn]; [done|].
      assert (y ∈ bset_difference target current) as Hd by (by apply elem_of_bset_difference). rewrite Ea in Hd. by apply elem_of_nil in Hd. }
    apply NoDup_Permutation; [by apply NoDup_filter, bset_sorted_nodup|by apply bset_sorted_nodup|].
    intros y. rewrite list_elem_of_filter. naive_solver.
  - left. destruct (difference_singleton _ _ _ Ht Ea) as (Hi1 & Hi2 & Hpt). exists out, into. split; [|by inversion Hact].
    exists (filter (λ y, y ∈ target) current). split_and!; [done| |done|done]. by rewrite Hkept.
  - exfalso. destruct g; cbn in Ha; lia.
Qed.

Lemma meta_step_placement m m' log cmd g p : meta_inv m → meta_step m log cmd m' →
  ms_placements m !! g = Some p → ∃ p', ms_placements m' !! g = Some p' ∧ plan_evolves (node_active m) log cmd g p p'.
Proof.
  intros Hi [_ Hr] Hp.
  assert (∀ m1, ms_placements m1 = ms_placements m → ∃ p', ms_placements m1 !! g = Some p' ∧ plan_evolves (node_active m) log cmd g p p') as Hsame.
  { intros m1 ->. exists p. split; [done|constructor]. }
  assert (∀ g0 x, (g0 = g → plan_evolves (node_active m) log cmd g p x) →
    ∃ p', ms_placements (set_placement g0 x m) !! g = Some p' ∧ plan_evolves (node_active m) log cmd g p p') as Hset.
  { intros g0 x Hx. cbn. destruct (decide (g0 = g)) as [->|Hne]; [rewrite lookup_insert_eq; eauto|].
    rewrite lookup_insert_ne by done. by apply Hsame. }
  destruct (mi_placements m Hi _ p Hp) as (c0 & Hc0 & Hok).
  destruct Hr; try (by apply Hsame); try (apply Hset; intros Hg; subst g); try congruence;
    try (assert (p0 = p) as -> by congruence).
  - match goal with Hch : single_change _ _ _ |- _ => pose proof Hch as [_ Hlen]; apply (single_change_moves (node_active m)) in Hch;
      [|apply Hok|apply bset_of_list_sorted|done] end.
    destruct p as [vs vl mv]. eapply evolves_opened; [done|done| |done|].
    + by apply bset_of_list_perm.
    + intros ->. apply Hlen.
  - destruct p as [vs vl mv], plan as [i t b]. cbn in *. by apply (evolves_aborting _ _ _ _ (mkPlacement vs vl mv) (mkMovePlan i t b)).
  - eapply evolves_finalized; [done..|]. intros v.
    match goal with Hv : voter_set _ = _ |- _ => rewrite <-Hv end. unfold voter_set. by rewrite elem_of_bset.
  - eapply evolves_aborted; [done..| |done]. intros v.
    match goal with Hv : voter_set _ = _ |- _ => rewrite <-Hv end. unfold voter_set. by rewrite elem_of_bset.
  - destruct (sr_building r); by apply Hsame.
  - case_match; by apply Hsame.
Qed.

Lemma plan_evolves_mono (P Q : NodeId → Prop) log cmd g p p' : (∀ v, P v → Q v) → plan_evolves P log cmd g p p' → plan_evolves Q log cmd g p p'.
Proof.
  intros Himp []; [constructor|eapply evolves_opened|eapply evolves_aborting|eapply evolves_finalized|eapply evolves_aborted]; try done.
  unfold one_voter_move in *. naive_solver.
Qed.

(** An active node, as the directory of the store has it. *)
Definition directory_active (s : Storage D) (v : NodeId) : Prop := ∃ e, meta_node s v = Ok (Some e) ∧ nd_state e = NodeState_Active.

(** C20: the life of a move plan. One applied command changes the placement of a
    group only by opening a plan where there is none, marking the plan present as
    aborting, or resolving it. An opened plan has the log index of its command as
    id and replaces exactly one voter by an active node, or removes one voter of
    the meta group and leaves at least three; the recorded voters stay. A plan that
    is not aborting is resolved only onto its own target, one that is aborting
    only onto the old voters or its target, each time onto the voter set that an
    observation of this group and plan reports, whose log id is recorded with it. *)
Theorem meta_plan_lifecycle s m cmd log s' r g p : meta_store s m → meta_inv m → wf cmd → wf log →
  meta_apply cmd log s = (s', Ok r) → meta_placement s g = Ok (Some p) →
  ∃ p', meta_placement s' g = Ok (Some p') ∧ plan_evolves (directory_active s) log cmd g p p'.
Proof.
  intros Hs Hi Hw Hl Hap Hp. destruct (meta_apply_exec s m cmd log Hs Hi Hw Hl) as (s2 & r2 & m' & E & Hs' & Hi' & Hst).
  rewrite Hap in E. injection E as <- <-. rewrite (meta_placement_read s m) in Hp by done. injection Hp as Hp.
  rewrite (meta_placement_read s' m') by done. destruct Hst as [[_ Hst]|[_ ->]].
  - destruct (meta_step_placement m m' log cmd g p Hi Hst Hp) as (p' & -> & Hpl). exists p'. split; [done|].
    eapply plan_evolves_mono; [|exact Hpl]. intros v (e & He & Hst'). exists e. split; [|done].
    destruct (mi_nodes m Hi v e He) as [Hid _ Hwf]. assert (v ≤ u64_max)%N as Hv by (rewrite <-Hid; apply Hwf). by rewrite (meta_node_read s m), He.
  - rewrite Hp. exists p. split; [done|constructor].
Qed.

(** ** Maintenance *)

(** While an operation is in progress a step only moves the operation on. *)
Lemma meta_step_fence m m' log cmd r : meta_step m log cmd m' → ms_maintenance m = Some r →
  mr_stage r ≠ MaintenanceStage_Released →
  ∃ r', m' = set_maintenance r' m ∧ mr_operation_id r' = mr_operation_id r ∧ mr_generation r' = mr_generation r ∧
    mr_participants r' = mr_participants r.
Proof.
  intros [Hgate Hr] Hm Hst.
  assert (is_maintenance_command cmd = true) as Hc by (destruct Hgate as [?|Hf]; [done|by destruct Hst; apply Hf]).
  destruct Hr; try discriminate Hc;
    try (match goal with Hx : ms_maintenance m = Some ?r0 |- _ =>
      assert (r0 = r) as -> by congruence; eexists; split; [done|]; by destruct r end).
  - exfalso. match goal with Hx : match ms_maintenance m with Some _ => _ | None => _ end |- _ =>
      rewrite Hm in Hx; by destruct Hx end.
  - match goal with Hx : cmd = _ ∨ _ |- _ => destruct Hx as [->|[-> _]] end; discriminate Hc.
  - match goal with Hx : cmd = _ ∨ _ |- _ => destruct Hx as [->|[-> _]] end; discriminate Hc.
Qed.

(** C21: the maintenance fence. While an operation is in progress no command
    changes anything but the operation's own record, and not its identity,
    generation or participants: membership, placement and the catalog are
    frozen until it is released. *)
Theorem meta_maintenance_fence s m cmd log s' res r : meta_store s m → meta_inv m → wf cmd → wf log →
  meta_apply cmd log s = (s', Ok res) → meta_maintenance s = Ok (Some r) → mr_stage r ≠ MaintenanceStage_Released →
  ∃ r', meta_store s' (set_maintenance r' m) ∧ mr_operation_id r' = mr_operation_id r ∧
    mr_generation r' = mr_generation r ∧ mr_participants r' = mr_participants r.
Proof.
  intros Hs Hi Hw Hl Hap Hr Hst. destruct (meta_apply_exec s m cmd log Hs Hi Hw Hl) as (s2 & r2 & m' & E & Hs' & Hi' & Hstep).
  rewrite Hap in E. injection E as <- <-. rewrite (meta_maintenance_read s m) in Hr by done. injection Hr as Hr.
  destruct Hstep as [[_ Hstep]|[_ ->]].
  - destruct (meta_step_fence m m' log cmd r Hstep Hr Hst) as (r' & -> & Hrest). eauto.
  - exists r. split; [|done]. unfold set_maintenance. rewrite <-Hr. by destruct m.
Qed.

(** Everything placed belongs to the operation in progress. *)
Definition captured m : Prop := ∀ r, ms_maintenance m = Some r → mr_stage r ≠ MaintenanceStage_Released →
  ∀ g p, ms_placements m !! g = Some p → pl_move p = None ∧ pl_voters p ⊆ mr_participants r.

Lemma meta_step_captured m m' log cmd : meta_inv m → meta_step m log cmd m' → captured m → captured m'.
Proof.
  intros Hi Hstep Hcap r' Hr' Hst' g p Hp.
  assert (fence_open m ∨ ∃ r, ms_maintenance m = Some r ∧ mr_stage r ≠ MaintenanceStage_Released) as [Hopen|(r & Hr & Hst)].
  { unfold fence_open. destruct (ms_maintenance m) as [r|]; [|by left].
    destruct (decide (mr_stage r = MaintenanceStage_Released)); [left; by intros ? [= <-]|right; eauto]. }
  2: { destruct (meta_step_fence m m' log cmd r Hstep Hr Hst) as (x & -> & _ & _ & Hps). cbn in *.
       injection Hr' as ->. rewrite Hps. by eapply Hcap. }
  destruct Hstep as [_ Hrule].
  assert (ms_maintenance m' = ms_maintenance m → False) as Hsame.
  { intros E. rewrite E in Hr'. by apply Hst', Hopen. }
  destruct Hrule; try (by destruct Hsame); cbn in Hr'; try injection Hr' as <-.
  - cbn in *. destruct (mi_placements m Hi g p Hp) as (c' & Hc' & Hok). assert (c' = c) as -> by congruence.
    match goal with Hall : ∀ g, g ∈ all_groups _ → _ |- _ => destruct (Hall g) as (p' & Hp' & Hmv & Hsub) end.
    { unfold all_groups. destruct g as [|k]; [left|right]. apply list_elem_of_fmap. exists (N.to_nat k).
      split; [by rewrite N2Nat.id|]. apply elem_of_seq. destruct (pk_size _ _ _ Hok). lia. }
    assert (p' = p) as -> by congruence. done.
  - by destruct Hst'; destruct r.
  - exfalso. match goal with Hx : ms_maintenance m = Some _ |- _ => apply Hopen in Hx; congruence end.
  - exfalso. match goal with Hx : ms_maintenance m = Some _ |- _ => apply Hopen in Hx; congruence end.
  - exfalso. match goal with Hx : ms_maintenance m = Some _ |- _ => apply Hopen in Hx; congruence end.
  - exfalso. match goal with Hx : ms_maintenance m = Some _ |- _ => apply Hopen in Hx; congruence end.
  - exfalso. apply Hsame. by destruct (sr_building r).
  - exfalso. apply Hsame. by case_match.
Qed.

Lemma meta_next_captured m m' : rtc meta_next m m' → captured m → captured m'.
Proof. induction 1 as [|m m1 m' (Hi & _ & l & c & Hst) _ IH]; [done|]. intros Hc. by eapply IH, meta_step_captured. Qed.

(** A quiesced operation covers the whole cluster. In every state reached
    from a fresh meta group, when the operation is Quiesced, no group has a
    move in progress and every voter of every placed group is a participant
    that has acknowledged the fence. *)
Theorem meta_quiesced_capture log s id s' rs r g p : meta_fresh s id → Forall meta_entry_ok log →
  meta_run log s = (s', Ok rs) → meta_maintenance s' = Ok (Some r) → mr_stage r = MaintenanceStage_Quiesced →
  meta_placement s' g = Ok (Some p) →
  pl_move p = None ∧ ∀ v, v ∈ pl_voters p → v ∈ mr_participants r ∧ v ∈ mr_acknowledged r.
Proof.
  intros [Hs Hi]%meta_fresh_store Hlog Hrun Hr Hst Hp.
  destruct (meta_run_exec log s _ Hs Hi Hlog) as (s2 & rs2 & m' & E & Hs' & Hi' & Hrtc).
  rewrite Hrun in E. injection E as <- <-. rewrite (meta_maintenance_read s' m') in Hr by done.
  rewrite (meta_placement_read s' m') in Hp by done. injection Hr as Hr. injection Hp as Hp.
  assert (captured m') as Hcap by (by eapply meta_next_captured; [exact Hrtc|]).
  destruct (Hcap r Hr) with (g := g) (p := p) as [Hmv Hsub]; [congruence|done|]. split; [done|]. intros v Hv%Hsub.
  destruct (mi_maintenance m' Hi' r Hr) as [_ Hok]. by rewrite (mk_quiesced _ Hok) by (by left).
Qed.

(** An operation is released from verification only when it is safe. If a
    release of a verifying operation is applied, every participant is Active at
    the incarnation the release names, has acknowledged its recovery with
    exactly the trust-policy digest of the release, and did so in the current
    recovery epoch. *)
Theorem meta_release_verified s m op generation procs incs digest log ms r : meta_store s m → meta_inv m →
  wf (MetaCommand_ReleaseMaintenance op generation procs incs digest) →
  meta_evaluate s (MetaCommand_ReleaseMaintenance op generation procs incs digest) log = Ok (MetaApplyResult_Applied, ms) →
  meta_maintenance s = Ok (Some r) → mr_stage r = MaintenanceStage_Verifying →
  (mr_recovery_policy_digests r).*1 = mr_participants r ∧ Forall (λ nd, nd.2 = digest) (mr_recovery_policy_digests r) ∧
  recovery_epoch s GroupId_Meta = or_zero (Ok (mr_verification_recovery_epoch r)) ∧
  incs.*1 = mr_participants r ∧
  ∀ id i, (id, i) ∈ incs → ∃ e, meta_node s id = Ok (Some e) ∧ nd_state e = NodeState_Active ∧ nd_incarnation e = i.
Proof.
  intros Hs Hi Hw Hev Hr Hst. destruct (meta_evaluate_outcome s m _ log Hs Hi Hw) as (x & xs & E & Hout).
  rewrite Hev in E. injection E as <- <-. destruct Hout as [[? _]|(_ & m' & es & [_ Hrule] & _)]; [done|].
  rewrite (meta_maintenance_read s m) in Hr by done. injection Hr as Hr. rewrite (recovery_epoch_read s m Hs Hi).
  destruct (mi_maintenance m Hi r Hr) as [_ Hok].
  inversion Hrule as [| | | | | | | | | | |r' lp li d Hr' Hcase| | | | | | | | | |]; subst.
  2, 3: match goal with Hx : _ = _ ∨ _ |- _ => by destruct Hx as [?|[? _]] end.
  assert (r' = r) as -> by congruence. destruct Hcase as [?|(_ & Hrec & Hd & He & _ & Hlive)]; [congruence|].
  destruct (mk_digest _ Hok _ Hd) as [_ Hall]. rewrite (mk_digests _ Hok), Hrec, He. split_and!; [done..| |].
  - clear -Hlive. induction Hlive as [|id [n i] ids incs [E _] _ IH]; [done|]. cbn in *. by rewrite E, IH.
  - intros id i (j & Hj)%list_elem_of_lookup. destruct (Forall2_lookup_r _ _ _ _ _ Hlive Hj) as (id' & Hid' & E & e & He' & Ha & Hinc).
    cbn in *. subst id'. exists e. split; [|done]. rewrite (meta_node_read s m); [by rewrite He'|done|done|].
    destruct (mi_nodes m Hi _ _ He') as [<- _ Hwe _ _ _]. apply Hwe.
Qed.

(** A search generation goes live only when the whole cluster has built it.
    If an activation is applied, then for every partition, no move is in
    progress and every voter of its current configuration has a stored
    readiness report for this generation, made under that configuration and
    for the definition and engine revision being activated. *)
Theorem meta_activation_ready s m name generation log ms c r b : meta_store s m → meta_inv m →
  wf (MetaCommand_ActivateSearchIndexGeneration name generation) →
  meta_evaluate s (MetaCommand_ActivateSearchIndexGeneration name generation) log = Ok (MetaApplyResult_Applied, ms) →
  meta_cluster s = Ok (Some c) → search_index s name = Ok (Some r) → sr_building r = Some b →
  sg_id b = generation ∧ ∀ partition, (partition < cc_p c)%N →
  ∃ p, meta_placement s (GroupId_Data partition) = Ok (Some p) ∧ pl_move p = None ∧
    ∀ v, v ∈ pl_voters p → ∃ o, ms_ready m !! (name, generation, GroupId_Data partition, v) = Some o ∧
      ry_voters_log_id o = pl_voters_log_id p ∧ ry_definition_hash o = sg_definition_hash b ∧
      ry_engine_revision o = sg_engine_revision b.
Proof.
  intros Hs Hi Hw Hev Hc Hr Hb. destruct (meta_evaluate_outcome s m _ log Hs Hi Hw) as (x & xs & E & Hout).
  rewrite Hev in E. injection E as <- <-. destruct Hout as [[? _]|(_ & m' & es & [_ Hrule] & _)]; [done|].
  rewrite (meta_cluster_read s m Hs Hi) in Hc. rewrite (search_index_read s m Hs Hi) in Hr.
  injection Hc as Hc. injection Hr as Hr.
  inversion Hrule as [| | | | | | | | | | | | | | | | | | |n r' b' c' ret Hr' Hb' Hc' Hready| |]; subst.
  1, 2: match goal with Hx : _ = _ ∨ _ |- _ => by destruct Hx as [?|[? _]] end.
  assert (r' = r) as -> by congruence. assert (b' = b) as -> by congruence. assert (c' = c) as -> by congruence.
  split; [done|]. intros partition Hp. destruct (Hready (GroupId_Data partition)) as (p & Hpl & Hmv & Hv).
  { apply list_elem_of_fmap. exists (N.to_nat partition). split; [by rewrite N2Nat.id|]. apply elem_of_seq. lia. }
  exists p. rewrite (meta_placement_read s m Hs Hi), Hpl. split_and!; [done..|]. intros v Hv'.
  destruct (Hv v Hv') as (o & Ho & Hl). exists o. split_and!; [done..| |].
  all: destruct (mi_ready m Hi _ _ _ _ _ Ho) as [_ _ (x & y & Hx & Hy & _ & Hh & Hrev)]; congruence.
Qed.
End meta.
