(* ===== verification/Failure.v ===== *)
(** * Failure detection (src/src/meta/failure.rs, the detector loop of
    src/src/runtime/node.rs and the heartbeat handler of src/src/runtime/dispatch.rs)

    The liveness classifier, the directory transition table, the heartbeat
    tracker of the meta leader, and one round of the detector loop. Time is an
    argument, in milliseconds; [Duration]s are nanoseconds. A [HashMap] is a
    finite map. The theorem about every interleaving follows the model. *)

From S2P Require Import Prelude BTree Types Config Codec SearchDef Keyspace Outbox MetaTypes ApplyDurability Rocks Storage MetaSM MetaSpec MetaReads MetaHandlers MetaInv MetaProofs.
From coqutil Require Import Datatypes.RecordSetters.

Import TriangleBracketNotations.

Inductive Liveness := Liveness_Alive | Liveness_Suspect | Liveness_Down.
#[global] Instance Liveness_eq_dec : EqDecision Liveness.
Proof. solve_decision. Defined.

(** [Duration::from_millis] and [Duration::as_millis]. *)
Definition from_millis (ms : N) : N := (ms * 1000000)%N.
Definition as_millis (d : N) : N := (d / 1000000)%N.

Definition classify (since_last_heartbeat : N) (timeouts : Timeouts) : Liveness :=
  if (to_down timeouts <=? since_last_heartbeat)%N then Liveness_Down
  else if (to_suspect timeouts <=? since_last_heartbeat)%N then Liveness_Suspect
  else Liveness_Alive.

Definition next_state (current : NodeState) (evidence : Liveness) : option NodeState :=
  match current, evidence with
  | NodeState_Suspect, Liveness_Alive => Some NodeState_Active
  | NodeState_Active, Liveness_Suspect => Some NodeState_Suspect
  | NodeState_Active, Liveness_Down | NodeState_Suspect, Liveness_Down => Some NodeState_Down
  | _, _ => None
  end.

(** ** The tracker *)

(** [ht_last_stamp]: directory incarnation, process incarnation, sequence. The
    last two maps hold a directory incarnation and the start of a grace period. *)
Record HeartbeatTracker := mkTracker {
  ht_last_seen_ms : gmap N N;
  ht_last_stamp : gmap N (N * N * N);
  ht_unobserved_since_ms : gmap N (N * N);
  ht_maintenance_grace_since_ms : gmap N (N * N);
}.

Definition MAX_TRACKED_NODES : nat := MAX_CLUSTER_NODES.
Definition tracker_new : HeartbeatTracker := mkTracker ∅ ∅ ∅ ∅.

(** A row of the directory: node, committed state, committed incarnation. *)
Definition state_row : Type := NodeId * NodeState * N.
Definition row_node (row : state_row) : NodeId := row.1.1.

Definition retain_known_nodes (states : list state_row) (t : HeartbeatTracker) : HeartbeatTracker :=
  let known := row_node <$> states in
  mkTracker (filter (λ kv, kv.1 ∈ known) (ht_last_seen_ms t)) (filter (λ kv, kv.1 ∈ known) (ht_last_stamp t))
    (filter (λ kv, kv.1 ∈ known) (ht_unobserved_since_ms t))
    (filter (λ kv, kv.1 ∈ known) (ht_maintenance_grace_since_ms t)).

Definition suspend_timeouts (now_ms : N) (states : list state_row) (t : HeartbeatTracker) : HeartbeatTracker :=
  foldl (λ t '(node, _, incarnation),
           t <| ht_maintenance_grace_since_ms := <[node := (incarnation, now_ms)]> (ht_maintenance_grace_since_ms t) |>)
    (retain_known_nodes states t) states.

(** The stale test of [observe]. *)
Definition stale_stamp (previous : N * N * N) (incarnation process_incarnation seq : N) : bool :=
  let '(previous_incarnation, previous_process, previous_seq) := previous in
  (incarnation <? previous_incarnation)%N ||
  (incarnation =? previous_incarnation)%N &&
  ((process_incarnation <? previous_process)%N ||
   (process_incarnation =? previous_process)%N && (seq <=? previous_seq)%N).

Definition observe (node : NodeId) (incarnation process_incarnation seq now_ms : N) (t : HeartbeatTracker)
    : HeartbeatTracker * bool :=
  if match ht_last_stamp t !! node with
     | Some previous => stale_stamp previous incarnation process_incarnation seq
     | None => MAX_TRACKED_NODES <=? size (ht_last_stamp t)
     end
  then (t, false)
  else
    (mkTracker (<[node := now_ms]> (ht_last_seen_ms t))
       (<[node := (incarnation, process_incarnation, seq)]> (ht_last_stamp t)) (ht_unobserved_since_ms t)
       (match ht_maintenance_grace_since_ms t !! node with
        | Some (expected, _) =>
            if (expected =? incarnation)%N then delete node (ht_maintenance_grace_since_ms t)
            else ht_maintenance_grace_since_ms t
        | None => ht_maintenance_grace_since_ms t
        end), true).

Definition fresh_process_sequence (t : HeartbeatTracker) (node : NodeId) (incarnation process_incarnation now_ms max_age : N)
    : option N :=
  match ht_last_stamp t !! node with
  | None => None
  | Some (observed_incarnation, observed_process, sequence) =>
  match ht_last_seen_ms t !! node with
  | None => None
  | Some seen_ms =>
      if (observed_incarnation =? incarnation)%N && (observed_process =? process_incarnation)%N &&
         (0 <? sequence)%N && (seen_ms <=? now_ms)%N && (now_ms - seen_ms <=? as_millis max_age `mod` 2 ^ 64)%N
      then Some sequence else None
  end
  end.

(** Whether the last accepted heartbeat names this directory incarnation. *)
Definition has_heartbeat (t : HeartbeatTracker) (node : NodeId) (incarnation : N) : bool :=
  match ht_last_stamp t !! node with Some (observed, _, _) => (observed =? incarnation)%N | None => false end.

Definition silence_ms (node : NodeId) (incarnation now_ms : N) (t : HeartbeatTracker) : HeartbeatTracker * option N :=
  if has_heartbeat t node incarnation
  then
    (t <| ht_unobserved_since_ms := delete node (ht_unobserved_since_ms t) |>,
     (λ seen, (now_ms - seen)%N) <$> ht_last_seen_ms t !! node)
  else
    let restart := t <| ht_unobserved_since_ms := <[node := (incarnation, now_ms)]> (ht_unobserved_since_ms t) |> in
    match ht_unobserved_since_ms t !! node with
    | Some (expected, since) => if (expected =? incarnation)%N then (t, Some (now_ms - since)%N) else (restart, None)
    | None => (restart, None)
    end.

(** The closure of [evaluate] up to the silence: the maintenance grace. [None]
    when the grace still runs. *)
Definition maintenance_grace (timeouts : Timeouts) (node : NodeId) (incarnation now_ms : N) (t : HeartbeatTracker)
    : option HeartbeatTracker :=
  match ht_maintenance_grace_since_ms t !! node with
  | None => Some t
  | Some (expected, since) =>
      if (expected =? incarnation)%N && (now_ms - since <? as_millis (to_down timeouts))%N then None
      else
      let t := t <| ht_maintenance_grace_since_ms := delete node (ht_maintenance_grace_since_ms t) |> in
      Some (if (expected =? incarnation)%N && negb (has_heartbeat t node incarnation)
            then t <| ht_unobserved_since_ms := <[node := (incarnation, since)]> (ht_unobserved_since_ms t) |>
            else t)
  end.

(** The closure of [evaluate]. *)
Definition evaluate_node (now_ms : N) (timeouts : Timeouts) (row : state_row) (t : HeartbeatTracker)
    : HeartbeatTracker * option (NodeId * NodeState) :=
  let '(node, current, incarnation) := row in
  match maintenance_grace timeouts node incarnation now_ms t with
  | None => (t, None)
  | Some t =>
      let heard := has_heartbeat t node incarnation in
      let (t, silence) := silence_ms node incarnation now_ms t in
      match silence with
      | None => (t, None)
      | Some silence =>
          let evidence := classify (from_millis silence) timeouts in
          if negb heard && bool_decide (evidence = Liveness_Alive) then (t, None)
          else (t, (λ s, (node, s)) <$> next_state current evidence)
      end
  end.

Fixpoint evaluate_nodes (now_ms : N) (timeouts : Timeouts) (states : list state_row) (t : HeartbeatTracker)
    : HeartbeatTracker * list (NodeId * NodeState) :=
  match states with
  | [] => (t, [])
  | row :: states =>
      let (t, o) := evaluate_node now_ms timeouts row t in
      let (t, out) := evaluate_nodes now_ms timeouts states t in
      (t, match o with Some x => x :: out | None => out end)
  end.

Definition tracker_evaluate (now_ms : N) (timeouts : Timeouts) (states : list state_row) (t : HeartbeatTracker)
    : HeartbeatTracker * list (NodeId * NodeState) :=
  evaluate_nodes now_ms timeouts states (retain_known_nodes states t).

(** ** The detector loop and the heartbeat handler *)

Section detector.
Context `{Rocks D} `{Hashes} `{!Codec U64, !Codec U128, !Codec string, !Codec LogId, !Codec Identity}
  `{!Codec ClusterConfig, !Codec NodeDirectoryEntry, !Codec MaintenanceRecord, !Codec Placement}
  `{!Codec SearchIndexDefinition, !Codec SearchIndexRecord, !Codec SearchIndexReady}.
Implicit Types s : Storage D.

Definition directory_rows (directory : list NodeDirectoryEntry) : list state_row :=
  (λ e, (nd_node_id e, nd_state e, nd_incarnation e)) <$> directory.

(** The command of one transition. *)
Definition transition_command (directory : list NodeDirectoryEntry) (tr : NodeId * NodeState) : MetaCommand :=
  let incarnation := match list_find (λ e, nd_node_id e = tr.1) directory with
                     | Some (_, e) => nd_incarnation e | None => 0%N end in
  MetaCommand_SetNodeState tr.1 tr.2 incarnation.

(** One round of [failure_detector] on a node that hosts the meta group:
    [is_leader] is Raft's view, [generation] the observed maintenance
    generation. The commands are the proposals of the round, in order. *)
Definition failure_detector_round s (is_leader : bool) (now_ms : N) (timeouts : Timeouts) (generation : N)
    (t : HeartbeatTracker) : HeartbeatTracker * N * list MetaCommand :=
  match meta_maintenance s with
  | Err _ => (t, generation, [])
  | Ok maintenance =>
  let active := match maintenance with
                | Some r => negb (bool_decide (mr_stage r = MaintenanceStage_Released)) | None => false end in
  let unseen := match maintenance with Some r => (generation <? mr_generation r)%N | None => false end in
  if negb active && negb unseen && negb is_leader then (t, generation, [])
  else
  match meta_directory s with
  | Err _ => (t, generation, [])
  | Ok directory =>
      let states := directory_rows directory in
      let (t, generation) :=
        if active || unseen
        then (suspend_timeouts now_ms states t, match maintenance with Some r => mr_generation r | None => generation end)
        else (t, generation) in
      if active || negb is_leader then (t, generation, [])
      else
      let (t, transitions) := tracker_evaluate now_ms timeouts states t in
      (t, generation, transition_command directory <$> transitions)
  end
  end.

(** [serve_heartbeat] on a node that hosts the meta group, for a body whose
    sender is authenticated: it records the evidence only for the committed
    incarnation. *)
Definition serve_heartbeat s (authenticated : bool) (node_id incarnation process_incarnation seq now_ms : N)
    (t : HeartbeatTracker) : HeartbeatTracker :=
  if negb authenticated then t
  else
  match meta_node s node_id with
  | Ok (Some entry) =>
      if (nd_incarnation entry =? incarnation)%N then (observe node_id incarnation process_incarnation seq now_ms t).1 else t
  | _ => t
  end.
End detector.

(** ** The failure detector raises no false alarm

    [det_step] interleaves heartbeats, rounds of the detector and applied meta
    commands, under a clock that does not run backwards. In every reachable state
    a node is proposed Down or Suspect only after the timeout of silence, measured
    from every heartbeat accepted for its committed incarnation; maintenance
    suspensions hold proposals back, and a node is never proposed on first sight. *)
Import TriangleBracketNotations.

(** A dated event: node, directory incarnation, time. *)
Definition dated : Type := N * N * N.
Definition date_rows (now : N) (states : list state_row) : list dated :=
  (λ row : state_row, (row_node row, row.2, now)) <$> states.

(** ** The tracker's invariant *)

(** The identity was committed at this incarnation or a later one, or is retired. *)
Definition past (m : MetaState) (n i : N) : Prop :=
  is_Some (ms_retired m !! n) ∨ ∃ e, ms_nodes m !! n = Some e ∧ (i ≤ nd_incarnation e)%N.
Definition committed (m : MetaState) (n i : N) : Prop :=
  ∃ e, ms_nodes m !! n = Some e ∧ nd_incarnation e = i.

(** A suspension still protects the node, was followed by a heartbeat, or is
    older than the down timeout. *)
Definition suspension_spent (timeouts : Timeouts) (t : HeartbeatTracker) (clock n i τ : N) : Prop :=
  (∃ g, (τ ≤ g)%N ∧ ht_maintenance_grace_since_ms t !! n = Some (i, g)) ∨
  (has_heartbeat t n i = true ∧ ∃ g, ht_last_seen_ms t !! n = Some g ∧ (τ ≤ g)%N) ∨
  (as_millis (to_down timeouts) ≤ clock - τ)%N.

Record tracker_inv (timeouts : Timeouts) (m : MetaState) (t : HeartbeatTracker) (clock : N)
    (heard suspended listed : list dated) : Prop := {
  ti_clock n i τ : (n, i, τ) ∈ heard ++ suspended → (τ ≤ clock)%N ∧ past m n i;
  ti_stamp n i p q : ht_last_stamp t !! n = Some (i, p, q) →
    ∃ τ, ht_last_seen_ms t !! n = Some τ ∧ (n, i, τ) ∈ heard ∧ ∀ τ', (n, i, τ') ∈ heard → (τ' ≤ τ)%N;
  ti_heard n i τ : (n, i, τ) ∈ heard → committed m n i → has_heartbeat t n i = true;
  ti_listed n i τ : ht_unobserved_since_ms t !! n = Some (i, τ) ∨ ht_maintenance_grace_since_ms t !! n = Some (i, τ) →
    (n, i, τ) ∈ listed;
  ti_suspended n i τ : (n, i, τ) ∈ suspended → committed m n i → suspension_spent timeouts t clock n i τ;
}.

Section tracker.
Context (timeouts : Timeouts).
Implicit Types (t : HeartbeatTracker) (m : MetaState).

Lemma tracker_inv_new m : tracker_inv timeouts m tracker_new 0 [] [] [].
Proof. constructor; try (intros * ?%not_elem_of_nil; done); cbn; intros *; rewrite ?lookup_empty; naive_solver. Qed.

(** Time passes. *)
Lemma tracker_inv_clock m t clock now heard suspended listed : (clock ≤ now)%N →
  tracker_inv timeouts m t clock heard suspended listed → tracker_inv timeouts m t now heard suspended listed.
Proof.
  intros Hle [Hc Hst Hh Hl Hs]. constructor; try done.
  - intros n i τ Hin. destruct (Hc n i τ Hin). split; [lia|done].
  - intros n i τ Hin Hm. destruct (Hs n i τ Hin Hm) as [?|[?|?]]; [by left|by right; left|right; right; lia].
Qed.

(** The directory evolves. *)
Lemma tracker_inv_meta m m' t clock heard suspended listed :
  (∀ n i, past m n i → past m' n i) → (∀ n i, past m n i → committed m' n i → committed m n i) →
  tracker_inv timeouts m t clock heard suspended listed → tracker_inv timeouts m' t clock heard suspended listed.
Proof.
  intros Hp Hc [Hk Hst Hh Hl Hs]. constructor; try done.
  - intros n i τ Hin. destruct (Hk n i τ Hin). auto.
  - intros n i τ Hin Hm. apply (Hh n i τ Hin), Hc; [|done]. eapply Hk, elem_of_app; eauto.
  - intros n i τ Hin Hm. apply (Hs n i τ Hin), Hc; [|done]. eapply Hk, elem_of_app; eauto.
Qed.

(** An accepted heartbeat for the committed incarnation. *)
Lemma tracker_inv_observe m t clock heard suspended listed n i p q t' :
  tracker_inv timeouts m t clock heard suspended listed → committed m n i →
  observe n i p q clock t = (t', true) → tracker_inv timeouts m t' clock ((n, i, clock) :: heard) suspended listed.
Proof.
  intros [Hk Hst Hh Hl Hs] Hm Ho. unfold observe in Ho.
  match type of Ho with (if ?b then _ else _) = _ => destruct b; [done|] end.
  injection Ho as <-. constructor; cbn.
  - intros n' i' τ [[= -> -> ->]|Hin]%elem_of_cons; [|by apply Hk]. split; [lia|]. right. destruct Hm as (e & He & <-).
    by exists e.
  - intros n' i' p' q'. destruct (decide (n' = n)) as [->|Hne].
    + rewrite !lookup_insert_eq. intros [= <- <- <-]. exists clock. split_and!; [done|by left|].
      intros τ' [[= ->]|Hin]%elem_of_cons; [lia|]. eapply Hk, elem_of_app. eauto.
    + rewrite !lookup_insert_ne by done. intros Hx. destruct (Hst n' i' p' q' Hx) as (τ & Hτ & Hin & Hmax).
      exists τ. split_and!; [done|by right|]. intros τ' [[= -> -> ->]|Hin']%elem_of_cons; [done|by apply Hmax].
  - intros n' i' τ Hin Hm'. unfold has_heartbeat. cbn. destruct (decide (n' = n)) as [->|Hne].
    + rewrite lookup_insert_eq. destruct Hm as (e & He & <-), Hm' as (e' & He' & <-). apply N.eqb_eq. congruence.
    + rewrite lookup_insert_ne by done. apply elem_of_cons in Hin as [[= -> -> ->]|Hin]; [done|].
      by apply (Hh n' i' τ).
  - intros n' i' τ Hor. apply Hl. destruct Hor as [?|Hg]; [by left|right]. destruct (ht_maintenance_grace_since_ms t !! n)
      as [[expected g]|]; [|done]. destruct (_ =? _)%N; [|done]. by apply lookup_delete_Some in Hg as [_ Hg].
  - intros n' i' τ Hin Hm'. unfold suspension_spent, has_heartbeat. cbn. destruct (decide (n' = n)) as [->|Hne].
    + rewrite !lookup_insert_eq. right. left. split; [|exists clock; split; [done|eapply Hk, elem_of_app; eauto]].
      destruct Hm as (e & He & <-), Hm' as (e' & He' & <-). apply N.eqb_eq. congruence.
    + rewrite !lookup_insert_ne by done. destruct (Hs n' i' τ Hin Hm') as [(g & Hg & Hx)|[?|?]]; [|by right; left|by right; right].
      left. exists g. split; [done|]. destruct (ht_maintenance_grace_since_ms t !! n) as [[expected g']|]; [|done].
      destruct (_ =? _)%N; [|done]. by rewrite lookup_delete_ne.
Qed.

(** The rows are the committed directory, one row per node. *)
Record rows_of (states : list state_row) m : Prop := {
  ro_nodup : NoDup (row_node <$> states);
  ro_elem n st i : (n, st, i) ∈ states ↔ ∃ e, ms_nodes m !! n = Some e ∧ nd_state e = st ∧ nd_incarnation e = i;
}.

Lemma rows_of_committed states m n i : rows_of states m → committed m n i → n ∈ row_node <$> states.
Proof.
  intros [_ Hr] (e & He & Hi). apply list_elem_of_fmap. exists (n, nd_state e, i). split; [done|]. apply Hr. eauto.
Qed.

(** Restricting a map to the known nodes. *)
Lemma lookup_known {A} (M : gmap N A) (known : list N) n : n ∈ known → filter (λ kv, kv.1 ∈ known) M !! n = M !! n.
Proof.
  intros Hn. destruct (M !! n) as [x|] eqn:E; [by apply map_lookup_filter_Some_2|].
  apply map_lookup_filter_None. by left.
Qed.
Lemma lookup_restricted {A} (M : gmap N A) (known : list N) n x : filter (λ kv, kv.1 ∈ known) M !! n = Some x → M !! n = Some x.
Proof. by intros [? _]%map_lookup_filter_Some. Qed.

Lemma tracker_inv_retain m t clock heard suspended listed states : rows_of states m →
  tracker_inv timeouts m t clock heard suspended listed →
  tracker_inv timeouts m (retain_known_nodes states t) clock heard suspended listed.
Proof.
  intros Hr [Hk Hst Hh Hl Hs]. constructor; try done; cbn.
  - intros n i p q Hx. pose proof (proj2 (proj1 (map_lookup_filter_Some _ _ _ _) Hx)) as Hn. cbn in Hn.
    rewrite lookup_known by done. apply lookup_restricted in Hx. by eapply Hst.
  - intros n i τ Hin Hm. unfold has_heartbeat. cbn. rewrite lookup_known by (by eapply rows_of_committed).
    by apply (Hh n i τ).
  - intros n i τ Hor. apply Hl. destruct Hor as [Hx|Hx]; apply lookup_restricted in Hx; auto.
  - intros n i τ Hin Hm. unfold suspension_spent, has_heartbeat. cbn.
    rewrite !lookup_known by (by eapply rows_of_committed). by apply Hs.
Qed.

(** Suspension sets the grace of every row. *)
Lemma suspend_lookup now states t :
  let t' := foldl (λ t '(node, _, incarnation),
           t <| ht_maintenance_grace_since_ms := <[node := (incarnation, now)]> (ht_maintenance_grace_since_ms t) |>) t
           (states : list state_row) in
  ht_last_seen_ms t' = ht_last_seen_ms t ∧ ht_last_stamp t' = ht_last_stamp t ∧
  ht_unobserved_since_ms t' = ht_unobserved_since_ms t ∧
  ∀ n, (∃ st i, (n, st, i) ∈ states ∧ ht_maintenance_grace_since_ms t' !! n = Some (i, now)) ∨
       (n ∉ row_node <$> states ∧ ht_maintenance_grace_since_ms t' !! n = ht_maintenance_grace_since_ms t !! n).
Proof.
  revert t. induction states as [|[[n0 st0] i0] states IH]; intros t; cbn [foldl].
  { split_and!; [done..|]. intros n. right. split; [apply not_elem_of_nil|done]. }
  destruct (IH (t <| ht_maintenance_grace_since_ms := <[n0 := (i0, now)]> (ht_maintenance_grace_since_ms t) |>))
    as (-> & -> & -> & Hg). split_and!; [done..|]. intros n. destruct (Hg n) as [(st & i & Hin & Hx)|[Hn Hx]].
  { left. exists st, i. split; [by right|done]. }
  destruct (decide (n = n0)) as [->|Hne].
  - left. exists st0, i0. split; [by left|]. rewrite Hx. cbn. by rewrite lookup_insert_eq.
  - right. split; [|rewrite Hx; cbn; by rewrite lookup_insert_ne]. cbn. by rewrite not_elem_of_cons.
Qed.

Lemma elem_of_date_rows now states n i τ : (n, i, τ) ∈ date_rows now states ↔ τ = now ∧ ∃ st, (n, st, i) ∈ states.
Proof.
  unfold date_rows. rewrite list_elem_of_fmap. split.
  - intros ([[n' st] i'] & [= -> -> ->] & Hin). eauto.
  - intros (-> & st & Hin). by exists (n, st, i).
Qed.

Lemma tracker_inv_suspend m t clock heard suspended listed states : rows_of states m →
  tracker_inv timeouts m t clock heard suspended listed →
  tracker_inv timeouts m (suspend_timeouts clock states t) clock heard
    (date_rows clock states ++ suspended) (date_rows clock states ++ listed).
Proof.
  intros Hr Hi%(tracker_inv_retain _ _ _ _ _ _ states Hr). unfold suspend_timeouts.
  destruct (suspend_lookup clock states (retain_known_nodes states t)) as (Es & Et & Eu & Hg). cbn zeta in *.
  revert Es Et Eu Hg Hi. generalize (retain_known_nodes states t) as t0. intros t0.
  generalize (foldl (λ t '(node, _, incarnation),
     t <| ht_maintenance_grace_since_ms := <[node := (incarnation, clock)]> (ht_maintenance_grace_since_ms t) |>) t0 states) as t'.
  intros t' Es Et Eu Hg [Hk Hst Hh Hl Hs]. constructor.
  - intros n i τ. rewrite !elem_of_app, elem_of_date_rows. intros [Hin|[(-> & st & (e & He & _ & <-)%(ro_elem _ _ Hr))|Hin]].
    + apply Hk, elem_of_app. by left.
    + split; [lia|]. right. eauto.
    + apply Hk, elem_of_app. by right.
  - intros n i p q. rewrite Es, Et. apply Hst.
  - intros n i τ. unfold has_heartbeat. rewrite Et. apply Hh.
  - intros n i τ. rewrite Eu, elem_of_app, elem_of_date_rows. intros [Hx|Hx]; [right; by apply Hl; left|].
    destruct (Hg n) as [(st & i' & Hin & Hy)|[_ Hy]]; rewrite Hx in Hy; [injection Hy as -> ->; eauto|].
    right. apply Hl. by right.
  - intros n i τ Hin Hm. left. exists clock. destruct (Hg n) as [(st & i' & Hin' & Hy)|[Hn _]].
    + apply (ro_elem _ _ Hr) in Hin' as (e & He & _ & <-). destruct Hm as (e' & He' & <-).
      assert (e = e') as <- by congruence. split; [|done]. apply elem_of_app in Hin as [Hin|Hin].
      * apply elem_of_date_rows in Hin as [-> _]. lia.
      * eapply Hk, elem_of_app. eauto.
    + destruct Hn. by eapply rows_of_committed.
Qed.

(** ** One row of an evaluation *)

(** Changes of the grace and unobserved maps that keep the invariant. *)
Lemma tracker_inv_edit m t t' clock heard suspended listed :
  tracker_inv timeouts m t clock heard suspended listed →
  ht_last_seen_ms t' = ht_last_seen_ms t → ht_last_stamp t' = ht_last_stamp t →
  (∀ n i τ, ht_unobserved_since_ms t' !! n = Some (i, τ) → (n, i, τ) ∈ listed) →
  (∀ n x, ht_maintenance_grace_since_ms t' !! n = Some x → ht_maintenance_grace_since_ms t !! n = Some x) →
  (∀ n i τ, (n, i, τ) ∈ suspended → committed m n i → suspension_spent timeouts t' clock n i τ) →
  tracker_inv timeouts m t' clock heard suspended listed.
Proof.
  intros [Hk Hst Hh Hl Hs] Es Et Hu Hg Hs'. constructor; [done|by rewrite Es, Et|..|done].
  - intros n i τ. unfold has_heartbeat. rewrite Et. apply Hh.
  - intros n i τ [Hx|Hx]; [by apply Hu|]. apply Hl. right. by apply Hg.
Qed.

Lemma maintenance_grace_inv m t t' clock heard suspended listed n i : committed m n i →
  tracker_inv timeouts m t clock heard suspended listed → maintenance_grace timeouts n i clock t = Some t' →
  tracker_inv timeouts m t' clock heard suspended listed ∧
  ht_maintenance_grace_since_ms t' !! n = None.
Proof.
  intros Hm Hi Hg. unfold maintenance_grace in Hg.
  destruct (ht_maintenance_grace_since_ms t !! n) as [[expected since]|] eqn:Eg; [|by injection Hg as <-].
  destruct ((expected =? i)%N && _) eqn:Ew in Hg; [done|].
  assert (∀ t1, ht_last_seen_ms t1 = ht_last_seen_ms t → ht_last_stamp t1 = ht_last_stamp t →
    ht_maintenance_grace_since_ms t1 = delete n (ht_maintenance_grace_since_ms t) →
    (∀ n' i' τ, ht_unobserved_since_ms t1 !! n' = Some (i', τ) → (n', i', τ) ∈ listed) →
    tracker_inv timeouts m t1 clock heard suspended listed ∧ ht_maintenance_grace_since_ms t1 !! n = None) as Hedit.
  { intros t1 Es Et Ed Hu. split; [|by rewrite Ed, lookup_delete_eq]. apply (tracker_inv_edit m t); try done.
    - intros n' x. rewrite Ed. by intros [_ ?]%lookup_delete_Some.
    - intros n' i' τ Hin Hm'. unfold suspension_spent, has_heartbeat. rewrite Es, Et, Ed.
      destruct (ti_suspended _ _ _ _ _ _ _ Hi n' i' τ Hin Hm') as [(g & Hle & Hx)|[?|?]]; [|by right; left|by right; right].
      destruct (decide (n' = n)) as [->|Hne]; [|left; exists g; by rewrite lookup_delete_ne].
      right. right. rewrite Hx in Eg. injection Eg as <- <-.
      assert (i' = i) as -> by (destruct Hm as (? & ? & <-), Hm' as (? & ? & <-); congruence).
      rewrite N.eqb_refl in Ew. apply N.ltb_ge in Ew. lia. }
  pose proof (ti_listed _ _ _ _ _ _ _ Hi) as Hl.
  destruct ((expected =? i)%N && negb _) eqn:Eb in Hg; injection Hg as <-; apply Hedit; try done; cbn; [|by auto].
  intros n' i' τ. destruct (decide (n' = n)) as [->|Hne]; [|rewrite lookup_insert_ne by done; auto].
  apply andb_true_iff in Eb as [->%N.eqb_eq _]. rewrite lookup_insert_eq. intros [= <- <-]. apply Hl. by right.
Qed.

(** Silence is measured from the last accepted heartbeat of the incarnation, or
    from the start of its grace. *)
Definition silent_since t (n i τ : N) : Prop :=
  if has_heartbeat t n i then ht_last_seen_ms t !! n = Some τ else ht_unobserved_since_ms t !! n = Some (i, τ).

Lemma silence_ms_inv m t t' clock heard suspended listed n i o : (n, i, clock) ∈ listed →
  tracker_inv timeouts m t clock heard suspended listed → silence_ms n i clock t = (t', o) →
  tracker_inv timeouts m t' clock heard suspended listed ∧
  ∀ d, o = Some d → ∃ τ, silent_since t n i τ ∧ d = (clock - τ)%N.
Proof.
  intros Hin Hi Hx. pose proof (ti_listed _ _ _ _ _ _ _ Hi) as Hl. unfold silence_ms in Hx. unfold silent_since.
  assert (∀ u, (∀ n' i' τ, u !! n' = Some (i', τ) → (n', i', τ) ∈ listed) →
    tracker_inv timeouts m (t <| ht_unobserved_since_ms := u |>) clock heard suspended listed) as Hedit.
  { intros u Hu. apply (tracker_inv_edit m t); try done. apply (ti_suspended _ _ _ _ _ _ _ Hi). }
  destruct (has_heartbeat t n i).
  { apply pair_equal_spec in Hx as [<- <-]. split.
    - apply (Hedit (delete n (ht_unobserved_since_ms t))). intros n' i' τ [_ ?]%lookup_delete_Some. auto.
    - intros d. destruct (ht_last_seen_ms t !! n) as [τ|]; [|done]. intros [= <-]. eauto. }
  assert (tracker_inv timeouts m (t <| ht_unobserved_since_ms := <[n := (i, clock)]> (ht_unobserved_since_ms t) |>)
    clock heard suspended listed) as Hrestart.
  { apply (Hedit (<[n := (i, clock)]> (ht_unobserved_since_ms t))). intros n' i' τ.
    destruct (decide (n' = n)) as [->|Hne]; [|rewrite lookup_insert_ne by done; auto].
    rewrite lookup_insert_eq. by intros [= <- <-]. }
  destruct (ht_unobserved_since_ms t !! n) as [[expected since]|]; [destruct (N.eqb_spec expected i) as [->|]|];
    apply pair_equal_spec in Hx as [<- <-]; split; try done. intros d [= <-]. eauto.
Qed.

(** What justifies a proposed transition of a node from its committed state. *)
Definition justified (clock : N) (heard suspended listed : list dated) (n : N) (current : NodeState) (i : N)
    (next : NodeState) : Prop :=
  match next with
  | NodeState_Active =>
      current = NodeState_Suspect ∧ ∃ τ, (n, i, τ) ∈ heard ∧ (from_millis (clock - τ) < to_suspect timeouts)%N
  | NodeState_Suspect =>
      current = NodeState_Active ∧
      (∀ τ, (n, i, τ) ∈ heard → (to_suspect timeouts ≤ from_millis (clock - τ))%N) ∧
      (∀ τ, (n, i, τ) ∈ suspended → (as_millis (to_down timeouts) ≤ clock - τ)%N ∨ ∃ τ', (n, i, τ') ∈ heard ∧ (τ ≤ τ')%N) ∧
      ∃ τ, (n, i, τ) ∈ heard ++ listed ∧ (to_suspect timeouts ≤ from_millis (clock - τ))%N
  | NodeState_Down =>
      (current = NodeState_Active ∨ current = NodeState_Suspect) ∧
      (∀ τ, (n, i, τ) ∈ heard → (to_down timeouts ≤ from_millis (clock - τ))%N) ∧
      (∀ τ, (n, i, τ) ∈ suspended → (as_millis (to_down timeouts) ≤ clock - τ)%N) ∧
      ∃ τ, (n, i, τ) ∈ heard ++ listed ∧ (to_down timeouts ≤ from_millis (clock - τ))%N
  | NodeState_Draining => False
  end.

Lemma as_millis_le d ms : (d ≤ from_millis ms)%N → (as_millis d ≤ ms)%N.
Proof. unfold as_millis, from_millis. intros Hle. apply N.Div0.div_le_upper_bound. lia. Qed.

Lemma from_millis_mono a b : (a ≤ b)%N → (from_millis a ≤ from_millis b)%N.
Proof. unfold from_millis. lia. Qed.

(** The measured silence bounds the silence since every heartbeat. *)
Lemma silent_since_heard m t clock heard suspended listed n i τ : committed m n i →
  tracker_inv timeouts m t clock heard suspended listed → silent_since t n i τ →
  (n, i, τ) ∈ heard ++ listed ∧ (has_heartbeat t n i = true → (n, i, τ) ∈ heard) ∧
  ∀ τ', (n, i, τ') ∈ heard → (clock - τ ≤ clock - τ')%N.
Proof.
  intros Hm Hi Hx. unfold silent_since in Hx. destruct (has_heartbeat t n i) eqn:Eh.
  - unfold has_heartbeat in Eh. destruct (ht_last_stamp t !! n) as [[[i' p] q]|] eqn:Es; [|done].
    apply N.eqb_eq in Eh as ->. destruct (ti_stamp _ _ _ _ _ _ _ Hi n i p q Es) as (τ0 & Hτ0 & Hin & Hmax).
    assert (τ0 = τ) as -> by congruence. split_and!; [apply elem_of_app; by left|done|].
    intros τ' Hin'%Hmax. lia.
  - split_and!; [|done|].
    + apply elem_of_app. right. apply (ti_listed _ _ _ _ _ _ _ Hi). by left.
    + intros τ' Hin. pose proof (ti_heard _ _ _ _ _ _ _ Hi n i τ' Hin Hm). congruence.
Qed.

(** The time of the last heartbeat is that of an accepted one. *)
Lemma last_seen_heard m t clock heard suspended listed n i g : tracker_inv timeouts m t clock heard suspended listed →
  has_heartbeat t n i = true → ht_last_seen_ms t !! n = Some g → (n, i, g) ∈ heard.
Proof.
  intros Hi Hh Hg. unfold has_heartbeat in Hh. destruct (ht_last_stamp t !! n) as [[[i' p] q]|] eqn:Es; [|done].
  apply N.eqb_eq in Hh as ->. destruct (ti_stamp _ _ _ _ _ _ _ Hi n i p q Es) as (τ & Hτ & Hin & _). congruence.
Qed.

Lemma evaluate_node_inv m t t' clock heard suspended listed n st i o :
  (∃ e, ms_nodes m !! n = Some e ∧ nd_state e = st ∧ nd_incarnation e = i) → (n, i, clock) ∈ listed →
  tracker_inv timeouts m t clock heard suspended listed → evaluate_node clock timeouts (n, st, i) t = (t', o) →
  tracker_inv timeouts m t' clock heard suspended listed ∧
  ∀ x, o = Some x → x.1 = n ∧ justified clock heard suspended listed n st i x.2.
Proof.
  intros (e & He & Hst & Hinc) Hin Hi Hx. assert (committed m n i) as Hm by (exists e; done).
  unfold evaluate_node in Hx. destruct (maintenance_grace _ _ _ _ _) as [t1|] eqn:Eg; [|by injection Hx as <- <-].
  apply (maintenance_grace_inv m t t1 clock heard suspended listed n i Hm Hi) in Eg as [Hi1 Hg].
  destruct (silence_ms n i clock t1) as [t2 o2] eqn:Es.
  destruct (silence_ms_inv m t1 t2 clock heard suspended listed n i o2 Hin Hi1 Es) as [Hi2 Hd].
  destruct o2 as [d|]; [|by injection Hx as <- <-]. destruct (Hd d eq_refl) as (τ & Hτ & ->).
  destruct (silent_since_heard m t1 clock heard suspended listed n i τ Hm Hi1 Hτ) as (Hev & Hfresh & Hall).
  assert (∀ τ', (n, i, τ') ∈ heard → (from_millis (clock - τ) ≤ from_millis (clock - τ'))%N) as Hall'
    by (intros τ' ?%Hall; by apply from_millis_mono).
  unfold classify in Hx.
  destruct (N.leb_spec (to_down timeouts) (from_millis (clock - τ))) as [Hdown|Hdown].
  - rewrite andb_false_r in Hx. injection Hx as <- <-. split; [done|]. intros [n' s] Hx.
    assert (n' = n ∧ s = NodeState_Down ∧ (st = NodeState_Active ∨ st = NodeState_Suspect)) as (-> & -> & Hcur)
      by (destruct st; cbn in Hx; try done; injection Hx as <- <-; auto). split; [done|].
    cbn. split_and!; [done| | |by exists τ].
    + intros τ' ?%Hall'. lia.
    + intros τ' Hin'. destruct (ti_suspended _ _ _ _ _ _ _ Hi1 n i τ' Hin' Hm) as [(g & _ & ?)|[(Hh & g & Hg' & Hle)|?]];
        [congruence| |done].
      unfold silent_since in Hτ. rewrite Hh in Hτ. apply as_millis_le in Hdown. rewrite Hτ in Hg'. injection Hg' as <-. lia.
  - destruct (N.leb_spec (to_suspect timeouts) (from_millis (clock - τ))) as [Hsus|Hsus].
    + rewrite andb_false_r in Hx. injection Hx as <- <-. split; [done|]. intros [n' s] Hx.
      assert (n' = n ∧ s = NodeState_Suspect ∧ st = NodeState_Active) as (-> & -> & ->)
        by (destruct st; cbn in Hx; try done; injection Hx as <- <-; auto). split; [done|]. cbn.
      split_and!; [done| | |by exists τ]; [intros τ' ?%Hall'; lia|]. intros τ' Hin'.
      destruct (ti_suspended _ _ _ _ _ _ _ Hi1 n i τ' Hin' Hm) as [(g & _ & ?)|[(Hh & g & Hg' & Hle)|?]]; [congruence| |by left].
      right. exists g. split; [|done]. by apply (last_seen_heard m t1 clock heard suspended listed).
    + destruct (has_heartbeat t1 n i); cbn in Hx; [|by injection Hx as <- <-]. injection Hx as <- <-. split; [done|].
      intros [n' s] Hx. assert (n' = n ∧ s = NodeState_Active ∧ st = NodeState_Suspect) as (-> & -> & ->)
        by (destruct st; cbn in Hx; try done; injection Hx as <- <-; auto). split; [done|]. cbn. eauto.
Qed.

Lemma evaluate_nodes_inv m t t' clock heard suspended listed states out :
  Forall (λ row : state_row, ∃ e, ms_nodes m !! row_node row = Some e ∧ nd_state e = row.1.2 ∧ nd_incarnation e = row.2) states →
  date_rows clock states ⊆ listed → tracker_inv timeouts m t clock heard suspended listed →
  evaluate_nodes clock timeouts states t = (t', out) →
  tracker_inv timeouts m t' clock heard suspended listed ∧ out.*1 `sublist_of` (row_node <$> states) ∧
  ∀ n s, (n, s) ∈ out → ∃ st i, (n, st, i) ∈ states ∧ justified clock heard suspended listed n st i s.
Proof.
  intros Hrows. revert t t' out. induction Hrows as [|[[n st] i] states Hrow Hrows IH]; intros t t' out Hsub Hi Hx.
  { injection Hx as <- <-. split_and!; [done|apply sublist_nil|]. by intros n s ?%not_elem_of_nil. }
  cbn [evaluate_nodes] in Hx. destruct (evaluate_node clock timeouts (n, st, i) t) as [t1 o] eqn:E1.
  destruct (evaluate_nodes clock timeouts states t1) as [t2 out2] eqn:E2. injection Hx as <- <-.
  destruct (evaluate_node_inv m t t1 clock heard suspended listed n st i o Hrow) as [Hi1 Ho]; [|done..|].
  { apply Hsub. by left. }
  destruct (IH t1 t2 out2) as (Hi2 & Hs2 & Hout); [set_solver|done..|]. split; [done|].
  assert (∀ n' s, (n', s) ∈ out2 → ∃ st' i', (n', st', i') ∈ (n, st, i) :: states ∧
    justified clock heard suspended listed n' st' i' s) as Hout'.
  { intros n' s (st' & i' & Hin & Hj)%Hout. exists st', i'. split; [by right|done]. }
  destruct o as [[n0 s0]|]; [|split; [by apply sublist_cons|done]].
  destruct (Ho (n0, s0) eq_refl) as [E Hj]. cbn in E, Hj. subst n0. split; [by apply sublist_skip|].
  intros n' s' [[= -> ->]|Hin]%elem_of_cons; [|by apply Hout']. exists st, i. split; [by left|done].
Qed.
End tracker.

(** ** The system *)

Section system.
Context `{RocksOk D} `{HashesOk} `{!Codec U64, !Codec U128, !Codec string, !Codec LogId, !Codec Identity}
  `{!Codec ClusterConfig, !Codec NodeDirectoryEntry, !Codec MaintenanceRecord, !Codec Placement}
  `{!Codec SearchIndexDefinition, !Codec SearchIndexRecord, !Codec SearchIndexReady} `{!CatalogCodec}.
Implicit Types (s : Storage D) (m : MetaState).

(** The detector of a meta host with its store; the last three fields record
    the accepted heartbeats, the suspensions and the rows seen by a round. *)
Record DetSys := mkDetSys {
  ds_store : Storage D;
  ds_tracker : HeartbeatTracker;
  ds_generation : N;
  ds_clock : N;
  ds_heard : list dated;
  ds_suspended : list dated;
  ds_listed : list dated;
}.
Definition det_start s : DetSys := mkDetSys s tracker_new 0 0 [] [] [].

(** Whether [serve_heartbeat] records the frame. *)
Definition heartbeat_accepted s (authenticated : bool) (node_id incarnation process_incarnation seq now : N)
    (t : HeartbeatTracker) : bool :=
  authenticated &&
  match meta_node s node_id with
  | Ok (Some entry) => (nd_incarnation entry =? incarnation)%N && (observe node_id incarnation process_incarnation seq now t).2
  | _ => false
  end.

(** Whether a round suspends the timeouts. *)
Definition round_suspends s (generation : N) : bool :=
  match meta_maintenance s with
  | Ok (Some r) => negb (bool_decide (mr_stage r = MaintenanceStage_Released)) || (generation <? mr_generation r)%N
  | _ => false
  end.
Definition round_rows s : list state_row :=
  match meta_directory s with Ok directory => directory_rows directory | Err _ => [] end.

(** Node ids and commands are well formed. The code reads the wall clock
    ([now_ms]); that it never runs backwards is an assumption of the steps. *)
Inductive det_step (timeouts : Timeouts) (σ : DetSys) : list MetaCommand → DetSys → Prop :=
| det_apply cmd log s' r :
    wf cmd → wf log → meta_apply cmd log (ds_store σ) = (s', Ok r) →
    det_step timeouts σ []
      (mkDetSys s' (ds_tracker σ) (ds_generation σ) (ds_clock σ) (ds_heard σ) (ds_suspended σ) (ds_listed σ))
| det_heartbeat authenticated node_id incarnation process_incarnation seq now :
    (ds_clock σ ≤ now)%N → (node_id ≤ u64_max)%N →
    det_step timeouts σ []
      (mkDetSys (ds_store σ)
         (serve_heartbeat (ds_store σ) authenticated node_id incarnation process_incarnation seq now (ds_tracker σ))
         (ds_generation σ) now
         (if heartbeat_accepted (ds_store σ) authenticated node_id incarnation process_incarnation seq now (ds_tracker σ)
          then (node_id, incarnation, now) :: ds_heard σ else ds_heard σ)
         (ds_suspended σ) (ds_listed σ))
| det_round is_leader now t' generation' cmds :
    (ds_clock σ ≤ now)%N →
    failure_detector_round (ds_store σ) is_leader now timeouts (ds_generation σ) (ds_tracker σ) = (t', generation', cmds) →
    det_step timeouts σ cmds
      (mkDetSys (ds_store σ) t' generation' now (ds_heard σ)
         (if round_suspends (ds_store σ) (ds_generation σ)
          then date_rows now (round_rows (ds_store σ)) ++ ds_suspended σ else ds_suspended σ)
         (date_rows now (round_rows (ds_store σ)) ++ ds_listed σ)).
Definition det_next (timeouts : Timeouts) (σ σ' : DetSys) : Prop := ∃ cmds, det_step timeouts σ cmds σ'.

Definition det_inv (timeouts : Timeouts) (σ : DetSys) : Prop :=
  ∃ m, meta_store (ds_store σ) m ∧ meta_inv m ∧
    tracker_inv timeouts m (ds_tracker σ) (ds_clock σ) (ds_heard σ) (ds_suspended σ) (ds_listed σ).

Lemma past_step m m' log cmd n i : meta_step m log cmd m' → past m n i → past m' n i.
Proof.
  intros Hst [[j Hr]|(e & He & Hle)]; [left; exists j; by eapply meta_step_retired|].
  destruct (meta_step_node m m' log cmd n e Hst He) as [(e' & He' & [?|(? & _)])|Hr]; [..|by left];
    right; exists e'; split; (done || lia).
Qed.

Lemma committed_step m m' log cmd n i : meta_inv m' → meta_step m log cmd m' → past m n i → committed m' n i →
  committed m n i.
Proof.
  intros Hi' Hst Hp (e' & He' & Hinc).
  assert (ms_retired m' !! n = None) as Hret.
  { destruct (ms_retired m' !! n) as [j|] eqn:Er; [|done].
    destruct (mi_retired m' Hi' n j Er) as (_ & _ & _ & Hn & _). congruence. }
  destruct Hp as [[j Hr]|(e & He & Hle)]; [apply (meta_step_retired m m' log cmd n j Hst) in Hr; congruence|].
  destruct (meta_step_node m m' log cmd n e Hst He) as [(e1 & He1 & Hnle)|[j Hr]]; [|congruence].
  assert (e1 = e') as -> by congruence. exists e. split; [done|]. destruct Hnle as [?|[? _]]; [lia|congruence].
Qed.

(** The rows of a round are the committed directory. *)
Lemma round_rows_of s m : meta_store s m → meta_inv m → ∃ directory, meta_directory s = Ok directory ∧
  NoDup (nd_node_id <$> directory) ∧ rows_of (directory_rows directory) m.
Proof.
  intros Hs Hi. destruct (meta_directory_entries s m Hs Hi) as (l & El & _ & Hnd & Hin). exists l.
  split_and!; [done..|]. constructor.
  - unfold directory_rows. rewrite <-list_fmap_compose. exact Hnd.
  - intros n st i. unfold directory_rows. rewrite list_elem_of_fmap. split.
    + intros (e & [= -> -> ->] & Hx%Hin). eauto.
    + intros (e & Hx & <- & <-). pose proof (nk_id _ _ (mi_nodes m Hi n e Hx)) as <-. exists e. split; [done|]. by apply Hin.
Qed.

Lemma transition_command_row directory n (s : NodeState) st i : NoDup (nd_node_id <$> directory) →
  (n, st, i) ∈ directory_rows directory → transition_command directory (n, s) = MetaCommand_SetNodeState n s i.
Proof.
  intros Hnd Hin. unfold directory_rows in Hin. apply list_elem_of_fmap in Hin as (e & [= -> -> ->] & [j Hj]%list_elem_of_lookup).
  unfold transition_command. cbn [fst snd]. destruct (list_find _ directory) as [[k e']|] eqn:Ef.
  - apply list_find_Some in Ef as (He' & Hid & _). assert (k = j) as ->.
    { eapply (NoDup_lookup _ _ _ (nd_node_id e)); [exact Hnd|rewrite list_lookup_fmap, He'; cbn; by rewrite Hid|].
      by rewrite list_lookup_fmap, Hj. }
    congruence.
  - apply list_find_None in Ef. rewrite Forall_forall in Ef. by destruct (Ef e (list_elem_of_lookup_2 _ _ _ Hj)).
Qed.

(** Proposed transitions of distinct nodes, each quoting the committed
    incarnation and justified by the evidence. *)
Definition proposals (timeouts : Timeouts) m (now : N) (heard suspended listed : list dated) (cmds : list MetaCommand) : Prop :=
  ∃ out : list (N * NodeState * N), NoDup out.*1.*1 ∧ cmds = (λ x, MetaCommand_SetNodeState x.1.1 x.1.2 x.2) <$> out ∧
    ∀ n next i, (n, next, i) ∈ out → ∃ e, ms_nodes m !! n = Some e ∧ nd_incarnation e = i ∧
      justified timeouts now heard suspended listed n (nd_state e) i next.

Lemma proposals_nil timeouts m now heard suspended listed : proposals timeouts m now heard suspended listed [].
Proof. exists []. split_and!; [apply NoDup_nil_2|done|]. by intros * ?%not_elem_of_nil. Qed.

(** The evaluating part of a round. *)
Lemma evaluation_inv timeouts m t t' now heard suspended listed directory transitions :
  NoDup (nd_node_id <$> directory) → rows_of (directory_rows directory) m →
  date_rows now (directory_rows directory) ⊆ listed → tracker_inv timeouts m t now heard suspended listed →
  tracker_evaluate now timeouts (directory_rows directory) t = (t', transitions) →
  tracker_inv timeouts m t' now heard suspended listed ∧
  proposals timeouts m now heard suspended listed (transition_command directory <$> transitions).
Proof.
  intros Hnd Hrows Hsub Hi Hx. unfold tracker_evaluate in Hx.
  apply (evaluate_nodes_inv timeouts m _ t' now heard suspended listed) in Hx as (Hi' & Hsl & Hout);
    [|apply Forall_forall; intros [[n st] i] Hin; by apply (ro_elem _ _ Hrows) in Hin|done|by apply tracker_inv_retain].
  split; [done|]. set (inc := λ n, match list_find (λ e, nd_node_id e = n) directory with
                                    | Some (_, e) => nd_incarnation e | None => 0%N end).
  exists ((λ x, (x, inc x.1)) <$> transitions). split_and!.
  - rewrite <-!list_fmap_compose. eapply sublist_NoDup; [apply Hrows|exact Hsl].
  - by rewrite <-list_fmap_compose.
  - intros n next i ([n' next'] & [= -> -> ->] & Hin)%list_elem_of_fmap. destruct (Hout n' next' Hin) as (st & i & Hrow & Hj).
    pose proof (transition_command_row directory n' next' st i Hnd Hrow) as E. injection E as E.
    apply (ro_elem _ _ Hrows) in Hrow as (e & He & <- & <-). exists e. split_and!; [done|done|].
    unfold inc. cbn [fst]. by rewrite E.
Qed.

Lemma tracker_inv_listed timeouts m t clock heard suspended listed listed' : listed ⊆ listed' →
  tracker_inv timeouts m t clock heard suspended listed → tracker_inv timeouts m t clock heard suspended listed'.
Proof. intros Hsub [Hk Hst Hh Hl Hs]. constructor; try done. intros n i τ Hx. by apply Hsub, Hl. Qed.

(** One round keeps the tracker's invariant; it proposes only when no
    maintenance is in progress, and only justified transitions. *)
Lemma round_inv timeouts s m is_leader now generation t t' generation' cmds heard suspended listed :
  meta_store s m → meta_inv m → tracker_inv timeouts m t now heard suspended listed →
  failure_detector_round s is_leader now timeouts generation t = (t', generation', cmds) →
  let suspended' := if round_suspends s generation then date_rows now (round_rows s) ++ suspended else suspended in
  let listed' := date_rows now (round_rows s) ++ listed in
  tracker_inv timeouts m t' now heard suspended' listed' ∧ (cmds ≠ [] → fence_open m) ∧
  proposals timeouts m now heard suspended' listed' cmds.
Proof.
  intros Hs Hi Ht Hx. destruct (round_rows_of s m Hs Hi) as (directory & Ed & Hnd & Hrows).
  unfold round_suspends, round_rows. unfold failure_detector_round in Hx. rewrite Ed in Hx |- *.
  rewrite (meta_maintenance_read s m Hs Hi) in Hx |- *. cbn zeta.
  set (active := match ms_maintenance m with
                 | Some r => negb (bool_decide (mr_stage r = MaintenanceStage_Released)) | None => false end) in Hx.
  set (unseen := match ms_maintenance m with Some r => (generation <? mr_generation r)%N | None => false end) in Hx.
  assert (match ms_maintenance m with
          | Some r => negb (bool_decide (mr_stage r = MaintenanceStage_Released)) || (generation <? mr_generation r)%N
          | None => false end = active || unseen) as -> by (unfold active, unseen; by destruct (ms_maintenance m)).
  assert (active = false → fence_open m) as Hfence.
  { unfold active, fence_open. intros Ha r Er. rewrite Er in Ha. by bools. }
  set (suspended' := if active || unseen then date_rows now (directory_rows directory) ++ suspended else suspended).
  set (listed' := date_rows now (directory_rows directory) ++ listed).
  assert (tracker_inv timeouts m (if active || unseen then suspend_timeouts now (directory_rows directory) t else t)
    now heard suspended' listed') as Ht'.
  { unfold suspended', listed'. destruct (active || unseen); [by apply tracker_inv_suspend|].
    eapply tracker_inv_listed; [|exact Ht]. set_solver. }
  destruct (negb active && negb unseen && negb is_leader) eqn:Eidle.
  { injection Hx as <- <- <-. split_and!; [|done|apply proposals_nil]. by destruct active, unseen. }
  destruct (if active || unseen then _ else _) as [t1 generation1] eqn:Et1 in Hx.
  assert (t1 = if active || unseen then suspend_timeouts now (directory_rows directory) t else t) as ->
    by (destruct (active || unseen); by injection Et1).
  destruct (active || negb is_leader) eqn:El.
  { injection Hx as <- <- <-. split_and!; [done|done|apply proposals_nil]. }
  destruct (tracker_evaluate _ _ _ _) as [t2 transitions] eqn:Et. injection Hx as <- <- <-.
  apply (evaluation_inv _ m _ _ _ heard suspended' listed') in Et as [Hi2 Hp];
    [|done|done|intros x Hin; apply elem_of_app; by left|done].
  split_and!; [done| |done]. intros _. apply Hfence. by bools.
Qed.

Lemma heartbeat_inv timeouts s m authenticated n i p q now t heard suspended listed :
  meta_store s m → meta_inv m → (n ≤ u64_max)%N → tracker_inv timeouts m t now heard suspended listed →
  tracker_inv timeouts m (serve_heartbeat s authenticated n i p q now t) now
    (if heartbeat_accepted s authenticated n i p q now t then (n, i, now) :: heard else heard) suspended listed.
Proof.
  intros Hs Hi Hn Ht. unfold serve_heartbeat, heartbeat_accepted. destruct authenticated; cbn [negb andb]; [|done].
  rewrite (meta_node_read s m Hs Hi n Hn). destruct (ms_nodes m !! n) as [e|] eqn:He; [|done].
  destruct (N.eqb_spec (nd_incarnation e) i) as [Hinc|]; cbn [andb]; [|done].
  destruct (observe n i p q now t) as [t' b] eqn:Eo. cbn [fst snd]. destruct b.
  - eapply tracker_inv_observe; [done| |done]. by exists e.
  - unfold observe in Eo. match type of Eo with (if ?b then _ else _) = _ => destruct b; [|done] end. by injection Eo as <-.
Qed.

Lemma det_step_inv timeouts σ cmds σ' : det_inv timeouts σ → det_step timeouts σ cmds σ' →
  det_inv timeouts σ' ∧ (cmds ≠ [] → ds_store σ' = ds_store σ) ∧
  ∃ m, meta_store (ds_store σ) m ∧ meta_inv m ∧ (cmds ≠ [] → fence_open m) ∧
    proposals timeouts m (ds_clock σ') (ds_heard σ') (ds_suspended σ') (ds_listed σ') cmds.
Proof.
  intros (m & Hs & Hi & Ht) [cmd log s' r Hw Hl Hap|a n i p q now Hle Hn|is_leader now t' g cmds' Hle Hx]; cbn.
  - split; [|split; [done|]; exists m; split_and!; [done..|apply proposals_nil]].
    destruct (meta_apply_exec (ds_store σ) m cmd log Hs Hi Hw Hl) as (s1 & r1 & m1 & E & Hs1 & Hi1 & Hst).
    rewrite Hap in E. injection E as <- <-. exists m1. cbn. split_and!; [done..|].
    destruct Hst as [[_ Hst]|[_ ->]]; [|done]. eapply tracker_inv_meta; [..|exact Ht]; intros n i.
    + by eapply past_step.
    + by eapply committed_step.
  - split; [|split; [done|]; exists m; split_and!; [done..|apply proposals_nil]]. exists m. cbn. split_and!; [done..|].
    apply heartbeat_inv; try done. by eapply tracker_inv_clock.
  - apply (tracker_inv_clock _ _ _ _ now) in Ht; [|done].
    destruct (round_inv timeouts (ds_store σ) m is_leader now _ _ _ _ _ _ _ _ Hs Hi Ht Hx) as (Ht' & Hf & Hp).
    split; [by exists m|]. split; [done|]. by exists m.
Qed.

Lemma det_reachable_inv timeouts s m σ : meta_store s m → meta_inv m → rtc (det_next timeouts) (det_start s) σ →
  det_inv timeouts σ.
Proof.
  intros Hs Hi Hr. assert (det_inv timeouts (det_start s)) as H0' by (exists m; split_and!; [done..|apply tracker_inv_new]).
  revert H0'. induction Hr as [|σ1 σ2 σ3 [cmds Hst] _ IH]; [done|]. intros Hinv. by apply IH, (det_step_inv _ σ1 cmds).
Qed.

(** C23: no false alarm. However heartbeats, detector rounds, maintenance and
    applied commands interleave, as long as the clock the detector reads does not
    run backwards, a transition that a round proposes for a node quotes the node's
    committed incarnation and is justified. Down: only from Active or Suspect,
    after the down timeout since every heartbeat accepted for this incarnation
    and since every maintenance suspension. Suspect: only from Active, after the
    suspect timeout since every accepted heartbeat, and after a suspension only
    when the node has sent a heartbeat since or the down timeout has passed.
    Neither on first sight: a heartbeat of this incarnation, or an earlier round
    that listed it, lies the timeout back. Active: only from Suspect, on a heartbeat
    of this incarnation within the suspect timeout. *)
Theorem detector_no_false_alarm timeouts s m σ σ' cmds n next i :
  meta_store s m → meta_inv m → rtc (det_next timeouts) (det_start s) σ → det_step timeouts σ cmds σ' →
  (n ≤ u64_max)%N → MetaCommand_SetNodeState n next i ∈ cmds →
  ∃ e, meta_node (ds_store σ) n = Ok (Some e) ∧ nd_incarnation e = i ∧
    justified timeouts (ds_clock σ') (ds_heard σ') (ds_suspended σ') (ds_listed σ') n (nd_state e) i next.
Proof.
  intros Hs Hi Hr Hst Hn Hin. apply (det_reachable_inv timeouts s m σ Hs Hi) in Hr.
  destruct (det_step_inv timeouts σ cmds σ' Hr Hst) as (_ & _ & m' & Hs' & Hi' & _ & out & _ & -> & Hout).
  apply list_elem_of_fmap in Hin as ([[n' next'] i'] & [= -> -> ->] & Hin). destruct (Hout n' next' i' Hin) as (e & He & Hj).
  exists e. split; [|done]. by rewrite (meta_node_read _ m' Hs' Hi'), He.
Qed.
End system.
