(* ===== verification/Planner.v ===== *)
(** * The meta leader's planner (src/src/runtime/rebalance.rs)

    [drive_meta_role]: the leadership handoff of an ineligible meta leader, and
    the commands the meta leader proposes in one tick from its applied state:
    aborts of plans whose learner is gone, retirements, one data move from the
    balancer, and one meta voter replacement. Raft's view of the leader and the
    replication progress, the address book and the answers of
    [genesis_data_ready] are arguments. Every command of a tick is applied
    ([planner_commands_apply]). *)

From S2P Require Import Prelude BTree Types Placement Config Codec SearchDef Keyspace Outbox MetaTypes ApplyDurability Rocks Storage MetaSM MetaSpec MetaReads MetaHandlers MetaInv MetaProofs.

(** [state_of]. *)
Definition state_of (directory : list NodeDirectoryEntry) (id : NodeId) : option NodeState :=
  match list_find (λ e, nd_node_id e = id) directory with Some (_, e) => Some (nd_state e) | None => None end.

Definition is_active_node (directory : list NodeDirectoryEntry) (id : NodeId) : bool :=
  bool_decide (state_of directory id = Some NodeState_Active).

(** [target_set.difference(&current).next()]. *)
Definition plan_learner (placement : Placement) (plan : MovePlan) : option NodeId :=
  head (bset_difference (voter_set (mp_target_voters plan)) (voter_set (pl_voters placement))).

(** A healthy plan whose learner is Down or Draining is aborted. *)
Definition abort_plan (directory : list NodeDirectoryEntry) (group : GroupId) (placement : Placement) : option MetaCommand :=
  match pl_move placement with
  | Some plan =>
      if mp_aborting plan then None
      else
      match plan_learner placement plan with
      | Some learner =>
          if bool_decide (state_of directory learner = Some NodeState_Down) ||
             bool_decide (state_of directory learner = Some NodeState_Draining)
          then Some (MetaCommand_MarkAborting group (mp_plan_id plan)) else None
      | None => None
      end
  | None => None
  end.

(** A draining node that no placement references any more is retired. *)
Definition retirements (directory : list NodeDirectoryEntry) (meta_placement : Placement)
    (placements : list (N * Placement)) : list MetaCommand :=
  (λ e, MetaCommand_RetireNode (nd_node_id e) (nd_incarnation e)) <$>
  filter (λ e, nd_state e = NodeState_Draining ∧ references_node meta_placement (nd_node_id e) = false ∧
               Forall (λ kv, references_node kv.2 (nd_node_id e) = false) placements) directory.

(** At most one data move is in flight cluster-wide. *)
Definition data_plan (directory : list NodeDirectoryEntry) (placements : list (N * Placement)) (r : nat)
    : option MetaCommand :=
  if existsb (λ kv, negb (bool_decide (pl_move kv.2 = None))) placements then None
  else (λ pr, MetaCommand_CreatePlan (pp_group pr) 0 (pp_target_voters pr)) <$> propose directory placements r.

(** Replace an ineligible meta voter other than this node by an Active non-voter. *)
Definition meta_plan (directory : list NodeDirectoryEntry) (self : NodeId) (placement : Placement) : option MetaCommand :=
  match pl_move placement with
  | None =>
      let active := nd_node_id <$> filter (λ e, nd_state e = NodeState_Active) directory in
      match list_find (λ v, is_active_node directory v = false ∧ v ≠ self) (pl_voters placement),
            list_find (λ a, a ∉ pl_voters placement) active with
      | Some (_, drained), Some (_, replacement) =>
          Some (MetaCommand_CreatePlan GroupId_Meta 0
                  (sort_unstable (filter (λ v, v ≠ drained) (pl_voters placement) ++ [replacement])))
      | _, _ => None
      end
  | Some _ => abort_plan directory GroupId_Meta placement
  end.

(** What a tick does: ask a voter to campaign, or propose commands. *)
Inductive MetaRoleAction :=
| MetaRole_Idle
| MetaRole_Transfer (target : NodeId)
| MetaRole_Propose (commands : list MetaCommand).

Section planner.
Context `{Rocks D} `{Hashes} `{!Codec U64, !Codec U128, !Codec string, !Codec LogId, !Codec Identity}
  `{!Codec ClusterConfig, !Codec NodeDirectoryEntry, !Codec MaintenanceRecord, !Codec Placement}
  `{!Codec SearchIndexDefinition, !Codec SearchIndexRecord, !Codec SearchIndexReady}.
Implicit Types s : Storage D.

(** [MetaNode::automatic_meta_changes_allowed]. *)
Definition automatic_meta_changes_allowed s : bool :=
  match meta_maintenance s with
  | Ok None => true
  | Ok (Some r) => bool_decide (mr_stage r = MaintenanceStage_Released)
  | Err _ => false
  end.

(** The placements read in ascending order, and whether all were present: an
    incomplete load snapshot is never balanced. *)
Fixpoint load_snapshot s (partitions : list N) : list (N * Placement) * bool :=
  match partitions with
  | [] => ([], true)
  | partition :: partitions =>
      match meta_placement s (GroupId_Data partition) with
      | Ok (Some placement) =>
          let (rest, complete) := load_snapshot s partitions in ((partition, placement) :: rest, complete)
      | _ => ([], false)
      end
  end.

(** The commands of a leader's tick, in the order of the proposals. The meta
    placement is read twice in the source; no command before the second read
    touches it. *)
Definition leader_commands s (directory : list NodeDirectoryEntry) (self : NodeId) (r : nat)
    (placements : list (N * Placement)) (complete : bool) : list MetaCommand :=
  omap (λ kv, abort_plan directory (GroupId_Data kv.1) kv.2) placements ++
  if negb complete then [] else
  match meta_placement s GroupId_Meta with
  | Ok (Some meta_placement) => retirements directory meta_placement placements
  | _ => []
  end ++
  opt_list (data_plan directory placements r) ++
  match meta_placement s GroupId_Meta with
  | Ok (Some meta_placement) => opt_list (meta_plan directory self meta_placement)
  | _ => []
  end.

Definition drive_meta_role s (self : NodeId) (current_leader : option NodeId)
    (leadership_transfer_target : list NodeId → option NodeId) (has_address : NodeId → bool)
    (genesis_data_ready : bool) (partition_count : N) (replication_factor : nat) : MetaRoleAction :=
  if negb (automatic_meta_changes_allowed s) then MetaRole_Idle
  else
  match meta_directory s with
  | Err _ => MetaRole_Idle
  | Ok directory =>
      let handoff :=
        if is_active_node directory self then None
        else
        match meta_placement s GroupId_Meta with
        | Ok (Some meta_placement) => if bool_decide (self ∈ pl_voters meta_placement) then Some meta_placement else None
        | _ => None
        end in
      match handoff with
      | Some meta_placement =>
          let candidates := filter (λ id, id ≠ self ∧ is_active_node directory id = true) (pl_voters meta_placement) in
          let target := match current_leader with
                        | Some leader => if (leader =? self)%N then leadership_transfer_target candidates else None
                        | None => head candidates
                        end in
          match target with
          | Some target => if has_address target then MetaRole_Transfer target else MetaRole_Idle
          | None => MetaRole_Idle
          end
      | None =>
          if negb (bool_decide (current_leader = Some self)) then MetaRole_Idle
          else if negb genesis_data_ready then MetaRole_Idle
          else
          let (placements, complete) := load_snapshot s (N.of_nat <$> seq 0 (N.to_nat partition_count)) in
          MetaRole_Propose (leader_commands s directory self replication_factor placements complete)
      end
  end.
End planner.

(** ** Every planner command is applied

    On the state they were computed from, the commands of a planner tick are
    accepted by the meta state machine: the balancer's and the planner's
    decisions satisfy the guards of the replicated handlers. *)
(** ** Replacing one voter *)

Lemma singleton_list {A} (l : list A) a : NoDup l → (∀ x, x ∈ l ↔ x = a) → l = [a].
Proof.
  intros Hnd Hl. apply Permutation_singleton_r. apply NoDup_Permutation; [done|apply NoDup_singleton|].
  intros x. by rewrite Hl, list_elem_of_singleton.
Qed.

(** The target of a replacement: one voter added, one removed. *)
Record replaced (voters target : list NodeId) (drop add : NodeId) : Prop := {
  rd_nodup : NoDup target;
  rd_length : length target = length voters;
  rd_elem x : x ∈ target ↔ x = add ∨ (x ∈ voters ∧ x ≠ drop);
  rd_added : bset_difference (voter_set target) voters = [add];
  rd_removed : bset_difference voters (voter_set target) = [drop];
}.

Lemma replaced_intro g voters drop add : bset_sorted voters → drop ∈ voters → add ∉ voters →
  replaced voters (pp_target_voters (replacement g voters drop add)) drop add.
Proof.
  intros Hs Hd Ha. pose proof (bset_sorted_nodup _ Hs) as Hnd.
  destruct (replacement_target g voters drop add Hnd Hd Ha) as [Hn Hl].
  assert (∀ x, x ∈ pp_target_voters (replacement g voters drop add) ↔ x = add ∨ (x ∈ voters ∧ x ≠ drop)) as Hel.
  { intros x. cbn. rewrite sort_unstable_perm, elem_of_app, list_elem_of_filter, list_elem_of_singleton. naive_solver. }
  constructor; try done; apply singleton_list.
  - apply NoDup_filter, bset_sorted_nodup, bset_of_list_sorted.
  - intros x. rewrite elem_of_bset_difference. unfold voter_set. rewrite elem_of_bset, Hel. naive_solver.
  - by apply NoDup_filter.
  - intros x. rewrite elem_of_bset_difference. unfold voter_set. rewrite elem_of_bset, Hel.
    destruct (decide (x = drop)); naive_solver.
Qed.

Section planner.
Context `{RocksOk D} `{HashesOk} `{!Codec U64, !Codec U128, !Codec string, !Codec LogId, !Codec Identity}
  `{!Codec ClusterConfig, !Codec NodeDirectoryEntry, !Codec MaintenanceRecord, !Codec Placement}
  `{!Codec SearchIndexDefinition, !Codec SearchIndexRecord, !Codec SearchIndexReady} `{!CatalogCodec}.

Section state.
Context (s : Storage D) (m : MetaState) (Hs : meta_store s m) (Hi : meta_inv m).

(** Evaluating a command outside maintenance is dispatching it. *)
Lemma meta_evaluate_open cmd log : fence_open m → meta_evaluate s cmd log = meta_dispatch s cmd log.
Proof.
  intros Hf. unfold meta_evaluate. rewrite (meta_maintenance_read s m Hs Hi). cbn [rbind].
  destruct (ms_maintenance m) as [r|] eqn:Er; [|done]. by rewrite (bool_decide_true _ (Hf r Er)).
Qed.

Lemma changes_allowed_open : automatic_meta_changes_allowed s = true → fence_open m.
Proof.
  unfold automatic_meta_changes_allowed, fence_open. rewrite (meta_maintenance_read s m Hs Hi). intros Ha r Er.
  rewrite Er in Ha. by bools.
Qed.

(** The directory of the applied state. *)
Lemma directory_read : ∃ directory, meta_directory s = Ok directory ∧ NoDup (nd_node_id <$> directory) ∧
  (∀ e, e ∈ directory ↔ ms_nodes m !! nd_node_id e = Some e) ∧
  length (eligible_nodes directory) = length (filter (λ e, active_entry e = true) (map_to_list (ms_nodes m)).*2).
Proof.
  destruct (meta_directory_entries s m Hs Hi) as (l & El & Hl & Hnd & Hin). exists l. split_and!; [done..|].
  unfold eligible_nodes. rewrite (proj2 (length_bset_nodup _)), length_fmap.
  - rewrite Hl. apply f_equal, list_filter_iff. intros e. unfold active_entry. by rewrite bool_decide_eq_true.
  - eapply sublist_NoDup; [exact Hnd|]. apply fmap_sublist, sublist_filter.
Qed.

Lemma eligible_active directory n : (∀ e, e ∈ directory ↔ ms_nodes m !! nd_node_id e = Some e) →
  n ∈ eligible_nodes directory → node_active m n.
Proof.
  intros Hd. unfold eligible_nodes. rewrite elem_of_bset, list_elem_of_fmap. intros (e & -> & [Ha Hin]%list_elem_of_filter).
  exists e. split; [by apply Hd|done].
Qed.

Lemma node_active_wf n : node_active m n → (n ≤ u64_max)%N.
Proof. intros (e & He & _). destruct (mi_nodes m Hi n e He) as [<- _ Hw _ _ _]. apply Hw. Qed.

(** ** Creating a plan *)

Lemma create_plan_applies g c p target drop add log :
  ms_cluster m = Some c → ms_placements m !! g = Some p → pl_move p = None →
  replaced (pl_voters p) target drop add → node_active m add →
  (is_data g = true → (cc_r c ≤ N.of_nat (length (filter (λ e, active_entry e = true) (map_to_list (ms_nodes m)).*2)))%N) →
  ∃ ms, create_plan s g target log = Ok (MetaApplyResult_Applied, ms).
Proof.
  intros Hc Hp Hm [Hnd Hlen Hel Hadd Hrem] Ha Hel'. unfold create_plan.
  rewrite (meta_cluster_read s m Hs Hi), (meta_placement_read s m Hs Hi), Hc, Hp. cbn [rbind].
  rewrite bool_decide_true by done. cbn [negb].
  assert (length (voter_set target) = length target) as Hvt by (by apply length_bset_nodup).
  rewrite (proj2 (Nat.eqb_eq _ _)) by done. cbn [negb].
  destruct (mi_placements m Hi g p Hp) as (c' & Ec & Hok). assert (c' = c) as -> by congruence.
  assert (voter_set (pl_voters p) = pl_voters p) as Ev by (apply bset_of_list_id, Hok). rewrite Ev.
  assert (plan_shape s c g (pl_voters p) (voter_set target) = Ok None) as ->.
  { unfold plan_shape. rewrite Hadd, Hrem, (eligible_count_read s m Hs Hi), Hvt, Hlen. cbn [length rbind].
    destruct g as [|k]; destruct (pk_size _ _ _ Hok) as [Hsz1 Hsz2].
    - rewrite (proj2 (Nat.ltb_ge _ _)) by done. cbn. by rewrite Nat.eqb_refl.
    - rewrite Hsz2, N.eqb_refl. cbn. rewrite (proj2 (N.ltb_ge _ _)); [done|]. by apply Hel'. }
  cbn [rbind]. rewrite Hadd.
  destruct (all_active_read s m Hs Hi [add]) as (b & -> & Hb); [apply Forall_singleton; by apply node_active_wf|].
  cbn [rbind]. assert (b = true) as -> by (apply Hb, Forall_singleton; done). cbn. eauto.
Qed.

Lemma replaced_wf g p target drop add : ms_placements m !! g = Some p → replaced (pl_voters p) target drop add →
  node_active m add → node_ids_ok target.
Proof.
  intros Hp [_ Hlen Hel _ _] Ha. destruct (mi_placements m Hi g p Hp) as (c & _ & Hok).
  destruct (pk_wf _ _ _ Hok) as [[Hl Hv] _]. split; [unfold vec_len_ok; by rewrite Hlen|].
  rewrite Forall_forall in Hv. apply Forall_forall. intros x [->|[Hx _]]%Hel; [by apply node_active_wf|by apply Hv].
Qed.

(** ** The other commands *)

Lemma mark_aborting_applies g p plan : ms_placements m !! g = Some p → pl_move p = Some plan → mp_aborting plan = false →
  ∃ ms, mark_aborting s g (mp_plan_id plan) = Ok (MetaApplyResult_Applied, ms).
Proof.
  intros Hp Hm Ha. unfold mark_aborting. rewrite (meta_placement_read s m Hs Hi), Hp. cbn [rbind].
  rewrite Hm, N.eqb_refl, Ha. eexists. reflexivity.
Qed.

Lemma unreferenced_all id groups : (∀ g, g ∈ groups → ∃ p, ms_placements m !! g = Some p ∧ references_node p id = false) →
  unreferenced s id groups = Ok None.
Proof.
  induction groups as [|g groups IH]; intros Hg; cbn [unreferenced]; [done|].
  destruct (Hg g) as (p & Hp & Hr); [by left|]. rewrite (meta_placement_read s m Hs Hi), Hp. cbn [rbind]. rewrite Hr.
  apply IH. intros g' Hin. apply Hg. by right.
Qed.

Lemma retire_node_applies e c : ms_cluster m = Some c → ms_nodes m !! nd_node_id e = Some e →
  nd_state e = NodeState_Draining →
  (∀ g, g ∈ all_groups (cc_p c) → ∃ p, ms_placements m !! g = Some p ∧ references_node p (nd_node_id e) = false) →
  ∃ ms, retire_node s (nd_node_id e) (nd_incarnation e) = Ok (MetaApplyResult_Applied, ms).
Proof.
  intros Hc He Hst Hg. destruct (mi_nodes m Hi _ e He) as [_ _ Hw _ _ _]. unfold retire_node.
  rewrite (meta_retired_read s m Hs Hi) by apply Hw. cbn [rbind].
  destruct (ms_retired m !! nd_node_id e) as [j|] eqn:Er.
  { destruct (mi_retired m Hi _ j Er) as (_ & _ & _ & Hn & _). congruence. }
  rewrite (meta_node_read s m Hs Hi) by apply Hw. cbn [rbind]. rewrite He, N.eqb_refl. cbn [negb].
  rewrite bool_decide_true by done. cbn [negb]. rewrite (meta_cluster_read s m Hs Hi), Hc. cbn [rbind].
  rewrite (unreferenced_all _ _ Hg). cbn. eauto.
Qed.

Lemma load_snapshot_read partitions ps complete : load_snapshot s partitions = (ps, complete) →
  ps.*1 `prefix_of` partitions ∧ (∀ k p, (k, p) ∈ ps → ms_placements m !! GroupId_Data k = Some p) ∧
  (complete = true → ps.*1 = partitions).
Proof.
  revert ps complete. induction partitions as [|k ks IH]; intros ps complete; cbn [load_snapshot].
  { intros [= <- <-]. split_and!; [done| |done]. by intros * ?%not_elem_of_nil. }
  rewrite (meta_placement_read s m Hs Hi).
  destruct (ms_placements m !! GroupId_Data k) as [p|] eqn:Ep.
  2: { intros [= <- <-]. split_and!; [apply prefix_nil| |done]. by intros * ?%not_elem_of_nil. }
  destruct (load_snapshot s ks) as [rest c] eqn:El. intros [= <- <-]. destruct (IH rest c eq_refl) as (Hpre & Hin & Hc).
  split_and!; [by apply prefix_cons| |intros ?; cbn; by rewrite Hc].
  intros k' p' [[= -> ->]|Hx]%elem_of_cons; [done|by apply Hin].
Qed.

(** A command the state machine applies here. *)
Definition applicable (log : LogId) (cmd : MetaCommand) : Prop :=
  wf cmd ∧ ∃ ms, meta_dispatch s cmd log = Ok (MetaApplyResult_Applied, ms).

Lemma placement_group_wf g p : ms_placements m !! g = Some p → wf g.
Proof.
  intros Hp. destruct (mi_placements m Hi g p Hp) as (c & Hc & Hok). destruct g as [|k]; [done|].
  destruct (pk_size _ _ _ Hok) as [Hlt _]. destruct (mi_cluster m Hi c Hc) as [[(_ & _ & Hcp & _) _ _ _] _]. cbn. lia.
Qed.

Lemma abort_plan_applicable directory g p cmd log : ms_placements m !! g = Some p →
  abort_plan directory g p = Some cmd → applicable log cmd.
Proof.
  intros Hp Ha. unfold abort_plan in Ha. destruct (pl_move p) as [plan|] eqn:Em; [|done].
  destruct (mp_aborting plan) eqn:Eab; [done|]. destruct (plan_learner p plan); [|done].
  destruct (_ || _); [|done]. injection Ha as <-. split; [|by eapply mark_aborting_applies].
  split; [by eapply placement_group_wf|]. destruct (mi_placements m Hi g p Hp) as (c & _ & Hok).
  destruct (pk_wf _ _ _ Hok) as (_ & _ & Hw). rewrite Em in Hw. apply Hw.
Qed.

Lemma replacement_applicable g c p drop add log : ms_cluster m = Some c → ms_placements m !! g = Some p →
  pl_move p = None → drop ∈ pl_voters p → add ∉ pl_voters p → node_active m add →
  (is_data g = true → (cc_r c ≤ N.of_nat (length (filter (λ e, active_entry e = true) (map_to_list (ms_nodes m)).*2)))%N) →
  applicable log (MetaCommand_CreatePlan g 0 (pp_target_voters (replacement g (pl_voters p) drop add))).
Proof.
  intros Hc Hp Hm Hd Ha Hact Hel. destruct (mi_placements m Hi g p Hp) as (c' & _ & Hok).
  pose proof (replaced_intro g (pl_voters p) drop add (pk_sorted _ _ _ Hok) Hd Ha) as Hr. split.
  - split_and!; [by eapply placement_group_wf|apply N.le_0_l|by eapply replaced_wf].
  - by eapply create_plan_applies.
Qed.

Section tick.
Context (c : ClusterConfig) (Hc : ms_cluster m = Some c) (directory : list NodeDirectoryEntry).
Context (Hdir : ∀ e, e ∈ directory ↔ ms_nodes m !! nd_node_id e = Some e).
Context (Hel : length (eligible_nodes directory) = length (filter (λ e, active_entry e = true) (map_to_list (ms_nodes m)).*2)).
Context (placements : list (N * Placement)) (Hps : ∀ k p, (k, p) ∈ placements → ms_placements m !! GroupId_Data k = Some p).

Lemma data_plan_applicable cmd log : NoDup placements.*1 →
  data_plan directory placements (N.to_nat (cc_r c)) = Some cmd → applicable log cmd.
Proof.
  intros Hnd Hd. unfold data_plan in Hd. destruct (existsb _ _); [done|].
  apply fmap_Some in Hd as (pr & Hpr & ->). assert (N.to_nat (cc_r c) ≤ length (eligible_nodes directory)) as Hcap.
  { unfold propose in Hpr. destruct (_ <? _) eqn:E; [done|]. by apply Nat.ltb_ge in E. }
  apply propose_sound in Hpr as (k & p & drop & dest & [Hin Hq Hdrop Hdest Hnew ->] & _); [|done].
  cbn [pp_group replacement]. apply (replacement_applicable _ c); try done; [by apply Hps|by eapply eligible_active|].
  intros _. rewrite <-Hel. lia.
Qed.

Lemma meta_plan_applicable self p cmd log : ms_placements m !! GroupId_Meta = Some p →
  meta_plan directory self p = Some cmd → applicable log cmd.
Proof.
  intros Hp Hm. unfold meta_plan in Hm. destruct (pl_move p) eqn:Em; [by eapply abort_plan_applicable|].
  destruct (list_find _ (pl_voters p)) as [[i drained]|] eqn:E1; [|done].
  destruct (list_find _ _) as [[j add]|] eqn:E2 in Hm; [|done]. injection Hm as <-.
  apply list_find_Some in E1 as (Hdr%list_elem_of_lookup_2 & _). apply list_find_Some in E2 as (Hrep%list_elem_of_lookup_2 & Hn & _).
  apply list_elem_of_fmap in Hrep as (e & -> & [Ha Hin]%list_elem_of_filter).
  apply (replacement_applicable GroupId_Meta c p drained (nd_node_id e)); try done. exists e. split; [by apply Hdir|done].
Qed.

Lemma retirements_applicable p cmd log : ms_placements m !! GroupId_Meta = Some p →
  placements.*1 = N.of_nat <$> seq 0 (N.to_nat (cc_p c)) → cmd ∈ retirements directory p placements → applicable log cmd.
Proof.
  intros Hp Hk Hin. unfold retirements in Hin. apply list_elem_of_fmap in Hin as (e & -> & [(Hst & Hm & Hall) He]%list_elem_of_filter).
  apply Hdir in He. split.
  - destruct (mi_nodes m Hi _ e He) as [_ _ Hw _ _ _]. split; apply Hw.
  - apply (retire_node_applies e c); try done. intros g. unfold all_groups.
    rewrite elem_of_cons, list_elem_of_fmap. intros [->|(i & -> & Hi')]; [eauto|].
    assert (N.of_nat i ∈ placements.*1) as Hx by (rewrite Hk; by apply list_elem_of_fmap_2).
    apply list_elem_of_fmap in Hx as ([k q] & E & Hx). cbn in E. subst k. exists q. split; [by apply Hps|].
    rewrite Forall_forall in Hall. by apply (Hall (N.of_nat i, q)).
Qed.
End tick.
End state.

(** C24: the planner's commands are applied. On a store that represents a
    well-formed state of an initialized cluster, every command a meta leader's
    tick proposes — abort of a plan whose learner is Down or Draining,
    retirement of an evacuated node, the balancer's data move, the replacement
    of a meta voter — reports Applied when it is applied to that state: none
    of them is ever refused by the guards of the state machine. *)
Theorem planner_commands_apply s m c self leader transfer address genesis cmds cmd log :
  meta_store s m → meta_inv m → ms_cluster m = Some c → wf log →
  drive_meta_role s self leader transfer address genesis (cc_p c) (N.to_nat (cc_r c)) = MetaRole_Propose cmds → cmd ∈ cmds →
  ∃ s' m', meta_apply cmd log s = (s', Ok MetaApplyResult_Applied) ∧ meta_store s' m' ∧ meta_inv m' ∧ meta_step m log cmd m'.
Proof.
  intros Hs Hi Hc Hl Hd Hin. unfold drive_meta_role in Hd.
  destruct (automatic_meta_changes_allowed s) eqn:Ea; cbn [negb] in Hd; [|done].
  apply (changes_allowed_open s m Hs Hi) in Ea.
  destruct (directory_read s m Hs Hi) as (directory & Ed & Hnd & Hdir & Hel). rewrite Ed in Hd.
  destruct (if is_active_node directory self then _ else _) in Hd; [by repeat (case_match; try done)|].
  destruct (negb (bool_decide _)); [done|]. destruct (negb genesis); [done|].
  destruct (load_snapshot s _) as [ps complete] eqn:Els. injection Hd as <-.
  destruct (load_snapshot_read s m Hs Hi _ ps complete Els) as (Hpre & Hps & Hcomp).
  assert (applicable s log cmd) as [Hw [ms Hap]].
  2: { eapply meta_command_applies; [done..|]. rewrite (meta_evaluate_open s m Hs Hi) by done. exact Hap. }
  unfold leader_commands in Hin. apply elem_of_app in Hin as [Hin|Hin].
  { apply list_elem_of_omap in Hin as ([k p] & Hkp & Hab). by eapply (abort_plan_applicable s m Hs Hi); [apply Hps|]. }
  destruct complete; cbn [negb] in Hin; [|by apply not_elem_of_nil in Hin]. specialize (Hcomp eq_refl).
  rewrite (meta_placement_read s m Hs Hi) in Hin. repeat rewrite elem_of_app in Hin. destruct Hin as [Hin|[Hin|Hin]].
  - destruct (ms_placements m !! GroupId_Meta) as [p|] eqn:Ep; [|by apply not_elem_of_nil in Hin].
    by eapply (retirements_applicable s m Hs Hi c Hc directory Hdir ps Hps).
  - destruct (data_plan _ _ _) as [cmd'|] eqn:Edp; [|by apply not_elem_of_nil in Hin]. apply list_elem_of_singleton in Hin as ->.
    eapply (data_plan_applicable s m Hs Hi c Hc directory Hdir Hel ps Hps); [|done]. rewrite Hcomp. apply NoDup_fmap_2; [intros ? ?; lia|apply NoDup_seq].
  - destruct (ms_placements m !! GroupId_Meta) as [p|] eqn:Ep; [|by apply not_elem_of_nil in Hin].
    destruct (meta_plan _ _ _) as [cmd'|] eqn:Emp; [|by apply not_elem_of_nil in Hin]. apply list_elem_of_singleton in Hin as ->.
    by eapply (meta_plan_applicable s m Hs Hi c Hc directory Hdir).
Qed.
End planner.
