(* ===== verification/Bootstrap.v ===== *)
(** * Cluster creation (src/src/meta/bootstrap.rs)

    The descriptor an init file determines (src/src/runtime/config_file.rs),
    the durable markers that admit a group's state, the commands that seed the
    meta group, and the directory answer that says whether the cluster is
    complete (src/src/meta/node.rs). Reading and parsing the JSON file is left
    out: the model starts from the parsed [InitFile]. *)

From S2P Require Import Prelude SortBy BTree Types Config Codec SearchDef Security Keyspace Outbox MetaTypes ApplyDurability Rocks Storage MetaSM.

(** ** The descriptor *)

Record DirEntry := mkDirEntry { de_node_id : NodeId; de_control_addr : string; de_bulk_addr : string }.
#[global] Instance DirEntry_eq_dec : EqDecision DirEntry.
Proof. solve_decision. Defined.
Record BootstrapDescriptor := mkDescriptor {
  bd_cluster_id : N;
  bd_config : ClusterConfig;
  bd_meta_voters : list NodeId;
  bd_directory : list DirEntry;
  bd_data_placements : list (N * list NodeId);
}.

(** [InitFile]; its node entries have the fields of [DirEntry]. *)
Record InitFile := mkInitFile {
  if_cluster_id : string;
  if_p : N;
  if_r : N;
  if_hash_spec : option HashSpec;
  if_meta_voters : list NodeId;
  if_nodes : list DirEntry;
}.
(** What deserializing the file guarantees. *)
#[global] Instance InitFile_wf : Wf InitFile := λ f,
  (if_p f ≤ u64_max)%N ∧ (if_r f ≤ u8_max)%N ∧ from_option wf True (if_hash_spec f) ∧ node_ids_ok (if_meta_voters f) ∧
  Forall (λ d, (de_node_id d ≤ u64_max)%N ∧ str_ok (de_control_addr d) ∧ str_ok (de_bulk_addr d)) (if_nodes f).

(** [u128::from_str_radix(hex, 16)]: an optional plus sign, then digits. *)
Definition from_hex (hex : bytes) : option N :=
  let digits := match hex with x2b :: digits => digits | _ => hex end in
  match digits with
  | [] => None
  | _ => parse_hex 0 digits ≫= λ n, if (n <=? u128_max)%N then Some n else None
  end.
(** [parse_cluster_id]. *)
Definition parse_cluster_id (s : string) : Result N :=
  let hex := match as_bytes s with x30 :: x78 :: hex => hex | hex => hex end in
  ok_or (from_hex hex) (Error_Config "cluster_id must be a hex u128").

(** [initial_placements]; the index is in range when there are nodes. *)
Definition initial_placements (p r : N) (sorted_nodes : list NodeId) : list (N * list NodeId) :=
  let n := length sorted_nodes in
  (λ i, (N.of_nat i, (λ k, default 0%N (sorted_nodes !! ((i + k) mod n))) <$> seq 0 (N.to_nat r))) <$> seq 0 (N.to_nat p).

(** The address loop of [load_init_descriptor], over the map it fills. *)
Fixpoint check_init_addresses (l : list (NodeId * string)) (address_owner : gmap string NodeId) : Result unit :=
  match l with
  | [] => Ok tt
  | (node_id, address) :: l =>
      if bool_decide (address = "") || (MAX_ENDPOINT_BYTES <? String.length address)
      then Err (Error_Config "node addresses must be 1..=256 bytes")
      else match address_owner !! address with
      | Some _ => Err (Error_Config "nodes share an address")
      | None => check_init_addresses l (<[address := node_id]> address_owner)
      end
  end.

(** [load_init_descriptor], from the parsed file on. *)
Definition load_init_descriptor (file : InitFile) : Result BootstrapDescriptor :=
  let! cluster_id := parse_cluster_id (if_cluster_id file) in
  let! p := parse_partition_count (if_p file) in
  let hash_spec := default HashSpec_CANONICAL (if_hash_spec file) in
  let! _ := InitConfig_validate (mkInitConfig p (if_r file) (de_node_id <$> if_nodes file) (if_meta_voters file) hash_spec) in
  let directory := sort_by (λ a b, (de_node_id a ?= de_node_id b)%N) (if_nodes file) in
  let! _ := check_init_addresses (directory ≫= λ e, [(de_node_id e, de_control_addr e); (de_node_id e, de_bulk_addr e)]) ∅ in
  let data_placements := initial_placements p (if_r file) (de_node_id <$> directory) in
  Ok (mkDescriptor cluster_id (mkClusterConfig cluster_id PROTOCOL_VERSION p (if_r file) hash_spec)
        (sort_unstable (if_meta_voters file)) directory data_placements).

(** [designated]. *)
Definition designated (voters : list NodeId) : option NodeId := min_by N.compare voters.

(** ** Durable markers *)

Inductive BootstrapOutcome := BootstrapOutcome_Created | BootstrapOutcome_AlreadyPresent.

Section markers.
Context `{Rocks D} `{!Codec BootstrapGroup, !Codec LearnerAdmission}.

(** The shape [ensure_bootstrap_group] and [ensure_learner_admission] share. *)
Definition ensure_record {T} `{Codec T} `{!EqDecision T} (key : bytes) (record : T) (conflict : string) : io (Storage D) BootstrapOutcome :=
  let? existing := io_read (λ s, get_local T s key) in
  match existing with
  | Some existing => if bool_decide (existing = record) then io_ret BootstrapOutcome_AlreadyPresent else io_err (Error_Config conflict)
  | None => put_local key record ;;? io_ret BootstrapOutcome_Created
  end.
Definition ensure_bootstrap_group (record : BootstrapGroup) : io (Storage D) BootstrapOutcome :=
  ensure_record (bootstrap_key (bg_group record)) record "conflicting bootstrap record".
Definition ensure_learner_admission (record : LearnerAdmission) : io (Storage D) BootstrapOutcome :=
  ensure_record (admission_key (la_group record)) record "conflicting learner admission".

(** The loop over the stores of the nodes: the first failure ends it. *)
Fixpoint mark_voters (record : BootstrapGroup) (voters : list NodeId) (storages : list (NodeId * Storage D))
    : list (NodeId * Storage D) * Result unit :=
  match storages with
  | [] => ([], Ok tt)
  | (id, storage) :: rest =>
      if bool_decide (id ∈ voters) then
        match ensure_bootstrap_group record storage with
        | (storage, Ok _) => let '(rest, r) := mark_voters record voters rest in ((id, storage) :: rest, r)
        | (storage, Err e) => ((id, storage) :: rest, Err e)
        end
      else let '(rest, r) := mark_voters record voters rest in ((id, storage) :: rest, r)
  end.
(** [record_meta_bootstrap]. *)
Definition record_meta_bootstrap (desc : BootstrapDescriptor) (storages : list (NodeId * Storage D)) : list (NodeId * Storage D) * Result unit :=
  mark_voters (mkBootstrapGroup (bd_cluster_id desc) GroupId_Meta (bd_meta_voters desc)) (bd_meta_voters desc) storages.
(** [record_data_bootstrap]. *)
Fixpoint mark_groups (cluster_id : N) (placements : list (N * list NodeId)) (storages : list (NodeId * Storage D))
    : list (NodeId * Storage D) * Result unit :=
  match placements with
  | [] => (storages, Ok tt)
  | (partition, voters) :: placements =>
      match mark_voters (mkBootstrapGroup cluster_id (GroupId_Data partition) voters) voters storages with
      | (storages, Ok _) => mark_groups cluster_id placements storages
      | (storages, Err e) => (storages, Err e)
      end
  end.
Definition record_data_bootstrap (desc : BootstrapDescriptor) (storages : list (NodeId * Storage D)) : list (NodeId * Storage D) * Result unit :=
  mark_groups (bd_cluster_id desc) (bd_data_placements desc) storages.
End markers.

(** ** Seeding the meta group *)

(** The commands of [seed_cluster_if_leader], in order. *)
Definition bootstrap_commands (desc : BootstrapDescriptor) : list MetaCommand :=
  MetaCommand_ClusterInit (bd_config desc) (bd_meta_voters desc) ::
  ((λ d, MetaCommand_RegisterNode (de_node_id d) (de_control_addr d) (de_bulk_addr d)) <$> bd_directory desc) ++
  ((λ pv, MetaCommand_SeedPlacement (GroupId_Data pv.1) pv.2) <$> bd_data_placements desc).

(** [accept]. *)
Definition accept (result : MetaApplyResult) : Result unit :=
  match result with
  | MetaApplyResult_Applied | MetaApplyResult_NoOp => Ok tt
  | MetaApplyResult_Rejected _ => Err (Error_Config "bootstrap command rejected")
  end.

(** [ProposeOutcome]. *)
Inductive ProposeOutcome :=
| ProposeOutcome_Applied (result : MetaApplyResult)
| ProposeOutcome_NotLeader (leader : option NodeId).

(** [seed_cluster_if_leader] over [MetaNode::propose]. *)
Fixpoint seed_loop {S} (propose : MetaCommand → io S ProposeOutcome) (commands : list MetaCommand) : io S bool :=
  match commands with
  | [] => io_ret true
  | command :: commands =>
      let? outcome := propose command in
      match outcome with
      | ProposeOutcome_Applied result => io_read (λ _, accept result) ;;? seed_loop propose commands
      | ProposeOutcome_NotLeader _ => io_ret false
      end
  end.
Definition seed_cluster_if_leader {S} (propose : MetaCommand → io S ProposeOutcome) (desc : BootstrapDescriptor) : io S bool :=
  seed_loop propose (bootstrap_commands desc).

Section directory.
Context `{Rocks D} `{!Codec U64, !Codec U128, !Codec string, !Codec ClusterConfig, !Codec NodeDirectoryEntry}.

(** The scan of [MetaNode::read_directory_state]. *)
Fixpoint scan_directory (records : list (bytes * bytes)) (directory : list NodeDirectoryEntry) (recovery_epoch : N)
    (cluster : option ClusterConfig) : Result (list NodeDirectoryEntry * N * option ClusterConfig) :=
  match records with
  | [] => Ok (directory, recovery_epoch, cluster)
  | (key, value) :: records =>
      if has_node_prefix key then
        let! entry := decode (A:=NodeDirectoryEntry) value in scan_directory records (directory ++ [entry]) recovery_epoch cluster
      else if bool_decide (key = recovery_epoch_key) then
        let! epoch := decode (A:=U128) value in scan_directory records directory epoch cluster
      else if bool_decide (key = meta_cluster_key) then
        let! config := decode (A:=ClusterConfig) value in scan_directory records directory recovery_epoch (Some config)
      else scan_directory records directory recovery_epoch cluster
  end.
Definition bootstrap_complete (keys : list bytes) (cluster : option ClusterConfig) : bool :=
  match cluster with
  | Some config => forallb (λ i, bool_decide (meta_placement_key (GroupId_Data (N.of_nat i)) ∈ keys)) (seq 0 (N.to_nat (cc_p config)))
  | None => false
  end.
Definition read_directory_state (s : Storage D) : Result DirectoryState :=
  let! records := scan_state s GroupId_Meta in
  let! r := scan_directory records [] 0 None in
  let '(directory, recovery_epoch, cluster) := r in
  Ok (mkDirectoryState directory recovery_epoch (bootstrap_complete records.*1 cluster)).
End directory.

(** ** Genesis

    Any number of replicas run [seed_cluster_if_leader], interleaved in the
    order of the meta log. A loop may lose its leadership, crash, or miss the
    answer to a command that was committed. *)

Inductive SeedLoop := SeedLoop_Running (next : nat) | SeedLoop_Finished | SeedLoop_Failed.
Record Genesis (D : Type) := mkGenesis { gn_store : Storage D; gn_loops : list SeedLoop }.
Arguments mkGenesis {D} _ _.
Arguments gn_store {D} _.
Arguments gn_loops {D} _.

Section genesis.
Context `{Rocks D} `{Hashes} `{!Codec U64, !Codec U128, !Codec string, !Codec LogId, !Codec Identity}
  `{!Codec ClusterConfig, !Codec NodeDirectoryEntry, !Codec MaintenanceRecord, !Codec Placement}
  `{!Codec SearchIndexDefinition, !Codec SearchIndexRecord, !Codec SearchIndexReady}.

(** A proposal the meta group commits at the next index of a term. *)
Definition propose_committed (term : N) (command : MetaCommand) : io (Storage D * N) ProposeOutcome := λ '(s, index),
  match meta_apply command (mkLogId term (index + 1)) s with
  | (s, Ok result) => ((s, (index + 1)%N), Ok (ProposeOutcome_Applied result))
  | (s, Err e) => ((s, (index + 1)%N), Err e)
  end.

Inductive genesis_step (desc : BootstrapDescriptor) : Genesis D → Genesis D → Prop :=
| genesis_start s loops : genesis_step desc (mkGenesis s loops) (mkGenesis s (SeedLoop_Running 0 :: loops))
| genesis_propose s s' k command log result l1 l2 :
    bootstrap_commands desc !! k = Some command → wf log → meta_apply command log s = (s', Ok result) →
    genesis_step desc (mkGenesis s (l1 ++ SeedLoop_Running k :: l2))
      (mkGenesis s' (l1 ++ (if is_ok (accept result) then SeedLoop_Running (S k) else SeedLoop_Failed) :: l2))
| genesis_lost s s' k command log result l1 l2 :
    bootstrap_commands desc !! k = Some command → wf log → meta_apply command log s = (s', Ok result) →
    genesis_step desc (mkGenesis s (l1 ++ SeedLoop_Running k :: l2)) (mkGenesis s' (l1 ++ l2))
| genesis_abandon s k l1 l2 :
    genesis_step desc (mkGenesis s (l1 ++ SeedLoop_Running k :: l2)) (mkGenesis s (l1 ++ l2))
| genesis_finish s l1 l2 :
    genesis_step desc (mkGenesis s (l1 ++ SeedLoop_Running (length (bootstrap_commands desc)) :: l2))
      (mkGenesis s (l1 ++ SeedLoop_Finished :: l2)).
End genesis.
