(* ===== verification/BootstrapProofs.v ===== *)
(** * Cluster creation can be interrupted anywhere and resumed

    What an accepted init file guarantees, the effect of each seeding command
    on a partially seeded meta group, and the theorem over every interleaving
    of seeding loops with crashes and leadership changes. *)

From S2P Require Import Prelude SortBy BTree Types Config Codec SearchDef Security Keyspace Outbox MetaTypes ApplyDurability Rocks Storage MetaSM MetaSpec MetaReads MetaHandlers MetaInv Bincode Demo MetaProofs Bootstrap.

(** ** What an accepted init file guarantees *)

Definition addresses (dir : list DirEntry) : list string := dir ≫= λ d, [de_control_addr d; de_bulk_addr d].

Record descriptor_ok (desc : BootstrapDescriptor) : Prop := {
  dk_config : wf (bd_config desc);
  dk_cluster : cc_cluster_id (bd_config desc) = bd_cluster_id desc ∧ cc_protocol_version (bd_config desc) = PROTOCOL_VERSION;
  dk_shape : (MIN_REPLICATION ≤ cc_r (bd_config desc))%N ∧ (0 < cc_p (bd_config desc))%N ∧
             validate_routing_shape (cc_p (bd_config desc)) (cc_r (bd_config desc)) = Ok tt;
  dk_meta : bset_sorted (bd_meta_voters desc) ∧ MIN_META_VOTERS ≤ length (bd_meta_voters desc) ≤ MAX_CLUSTER_NODES ∧
            Nat.even (length (bd_meta_voters desc)) = false ∧ node_ids_ok (bd_meta_voters desc);
  dk_nodes : NoDup (de_node_id <$> bd_directory desc) ∧ length (bd_directory desc) ≤ MAX_CLUSTER_NODES;
  dk_ids : Forall (λ d, de_node_id d ≠ 0 ∧ de_node_id d ≤ u64_max)%N (bd_directory desc);
  dk_addresses : NoDup (addresses (bd_directory desc)) ∧ Forall endpoint_ok (addresses (bd_directory desc)) ∧
                 Forall str_ok (addresses (bd_directory desc));
  dk_placements : (bd_data_placements desc).*1 = N.of_nat <$> seq 0 (N.to_nat (cc_p (bd_config desc)));
  dk_voters : Forall (λ pv, NoDup pv.2 ∧ N.of_nat (length pv.2) = cc_r (bd_config desc) ∧
                            pv.2 ⊆ de_node_id <$> bd_directory desc) (bd_data_placements desc);
}.

Lemma check_init_addresses_ok l owner : check_init_addresses l owner = Ok tt →
  NoDup l.*2 ∧ Forall endpoint_ok l.*2 ∧ ∀ a, a ∈ l.*2 → owner !! a = None.
Proof.
  revert owner. induction l as [|[id a] l IH]; intros owner; cbn [check_init_addresses fmap list_fmap snd].
  { intros _. split_and!; [constructor|constructor|set_solver]. }
  destruct (bool_decide (a = "")) eqn:E1; [done|]. destruct (MAX_ENDPOINT_BYTES <? String.length a) eqn:E2; [done|].
  destruct (owner !! a) eqn:Ea; [done|]. intros (Hnd & Hok & Hfree)%IH.
  apply bool_decide_eq_false in E1. apply Nat.ltb_ge in E2. split_and!.
  - constructor; [|done]. intros Hin%Hfree. by rewrite lookup_insert_eq in Hin.
  - by constructor.
  - intros b [->|Hb]%elem_of_cons; [done|]. specialize (Hfree b Hb). by apply lookup_insert_None in Hfree as [? _].
Qed.

(** Consecutive positions modulo the length are distinct. *)
Lemma rotation_nodup (l : list N) i r : NoDup l → r ≤ length l →
  NoDup ((λ k, default 0%N (l !! ((i + k) mod length l))) <$> seq 0 r) ∧
  (λ k, default 0%N (l !! ((i + k) mod length l))) <$> seq 0 r ⊆ l.
Proof.
  intros Hnd Hr. assert (∀ k, k < r → l !! ((i + k) mod length l) = Some (default 0%N (l !! ((i + k) mod length l)))) as Hin.
  { intros k Hk. destruct (lookup_lt_is_Some_2 l ((i + k) mod length l)) as [x ->]; [|done]. apply Nat.mod_upper_bound. lia. }
  split.
  - apply NoDup_fmap_2_strong; [|apply NoDup_seq]. intros j k [_ Hj]%elem_of_seq [_ Hk]%elem_of_seq E. cbn in Hj, Hk.
    pose proof (NoDup_lookup l _ _ _ Hnd (Hin j Hj) ltac:(rewrite E; by apply Hin)) as Em.
    pose proof (Nat.div_mod_eq (i + j) (length l)). pose proof (Nat.div_mod_eq (i + k) (length l)).
    assert ((i + j) / length l = (i + k) / length l ∨ (i + j) / length l + 1 ≤ (i + k) / length l ∨ (i + k) / length l + 1 ≤ (i + j) / length l) as [|[|]] by lia; nia.
  - intros x (k & -> & [_ Hk]%elem_of_seq)%list_elem_of_fmap. eapply list_elem_of_lookup_2, Hin. done.
Qed.

Lemma InitConfig_validate_ok c : InitConfig_validate c = Ok tt →
  (0 < ic_p c)%N ∧ (MIN_REPLICATION ≤ ic_r c)%N ∧ validate_routing_shape (ic_p c) (ic_r c) = Ok tt ∧
  NoDup (ic_bootstrap_nodes c) ∧ length (ic_bootstrap_nodes c) ≤ MAX_CLUSTER_NODES ∧ 0%N ∉ ic_bootstrap_nodes c ∧
  (ic_r c ≤ N.of_nat (length (ic_bootstrap_nodes c)))%N ∧ NoDup (ic_meta_voters c) ∧
  MIN_META_VOTERS ≤ length (ic_meta_voters c) ∧ Nat.even (length (ic_meta_voters c)) = false ∧
  ic_meta_voters c ⊆ ic_bootstrap_nodes c.
Proof.
  unfold InitConfig_validate. repeat (case_match; [done|]).
  intros ([] & Hs & E)%rbind_ok. revert E. repeat (case_match; [done|]). intros _. bools.
  assert (NoDup (ic_bootstrap_nodes c)) as Hn by (by apply length_bset_nodup).
  assert (NoDup (ic_meta_voters c)) as Hm by (by apply length_bset_nodup).
  rewrite (proj2 (length_bset_nodup _) Hn) in *. rewrite (proj2 (length_bset_nodup _) Hm) in *.
  rewrite elem_of_bset in *. split_and!; try done; try lia.
  intros x Hx%elem_of_bset. match goal with H : bset_subset _ _ = true |- _ => unfold bset_subset in H; rewrite forallb_forall in H;
    specialize (H x (proj1 (list_elem_of_In _ _) Hx)) end.
  bools. by apply elem_of_bset.
Qed.

Lemma parse_cluster_id_bound x n : parse_cluster_id x = Ok n → (n ≤ u128_max)%N.
Proof.
  unfold parse_cluster_id. destruct (from_hex _) as [m|] eqn:E; [|done]. intros [= <-]. unfold from_hex in E.
  case_match; [done|]. apply bind_Some in E as (k & _ & E). case_match; [|done]. injection E as <-. bools. done.
Qed.

Lemma addresses_pairs dir :
  (dir ≫= λ e, [(de_node_id e, de_control_addr e); (de_node_id e, de_bulk_addr e)]).*2 = addresses dir.
Proof. induction dir as [|d dir IH]; [done|]. cbn. f_equal. f_equal. exact IH. Qed.

Lemma load_init_descriptor_ok file desc : wf file → load_init_descriptor file = Ok desc → descriptor_ok desc.
Proof.
  intros (Hp & Hr & Hh & Hmv & Hn). unfold load_init_descriptor.
  intros (cid & Hcid%parse_cluster_id_bound & (p & Hpp & ([] & Hv%InitConfig_validate_ok & ([] & Ha & [= <-])%rbind_ok)%rbind_ok)%rbind_ok)%rbind_ok.
  cbn in Hv. destruct Hv as (Hp0 & Hr3 & Hsh & Hnd & Hlen & H0 & Hrn & Hmnd & Hm3 & Hme & Hms).
  set (directory := sort_by _ _) in *. assert (directory ≡ₚ if_nodes file) as Hperm by apply sort_by_perm.
  apply check_init_addresses_ok in Ha as (Ha1 & Ha2 & _). rewrite addresses_pairs in Ha1, Ha2.
  assert (p ≤ u16_max)%N as Hp16.
  { revert Hpp. unfold parse_partition_count. case_match; [done|]. case_match; [done|]. intros [= <-]. bools. done. }
  assert (NoDup (de_node_id <$> directory)) as Hdn by (by rewrite Hperm).
  constructor; cbn.
  - unfold wf, ClusterConfig_wf. cbn. split_and!; [done|unfold PROTOCOL_VERSION, u32_max; lia|done|done|].
    by destruct (if_hash_spec file).
  - done.
  - done.
  - rewrite !(Permutation_length (sort_unstable_perm _)). split_and!; [by apply sort_unstable_sorted|done| |done|].
    + etransitivity; [|exact Hlen]. by apply submseteq_length, NoDup_submseteq.
    + destruct Hmv as [Hl Hm]. split; [unfold vec_len_ok in *; by rewrite (Permutation_length (sort_unstable_perm _))|by rewrite sort_unstable_perm].
  - split; [done|]. rewrite length_fmap in Hlen. by rewrite Hperm.
  - rewrite Hperm. rewrite Forall_forall in Hn. apply Forall_forall. intros d Hd. split; [|by apply Hn].
    intros E. apply H0. rewrite <-E. by apply list_elem_of_fmap_2.
  - split_and!; [done|done|]. unfold addresses. rewrite Forall_forall in Hn. apply Forall_forall.
    intros a (d & Hd & Hin)%list_elem_of_bind. rewrite Hperm in Hin. destruct (Hn d Hin) as (_ & ? & ?). set_solver.
  - unfold initial_placements. rewrite <-list_fmap_compose. done.
  - unfold initial_placements. apply Forall_fmap, Forall_forall. intros i _. cbn.
    rewrite length_fmap in Hrn. split_and!; [|rewrite length_fmap, length_seq; lia|].
    all: apply rotation_nodup; [done|]; rewrite length_fmap, (Permutation_length Hperm); lia.
Qed.

(** ** A partially seeded meta group *)

Definition boot_entry (d : DirEntry) : NodeDirectoryEntry :=
  mkNodeEntry (de_node_id d) (de_control_addr d) (de_bulk_addr d) NodeState_Active 1.
Definition boot_nodes (dir : list DirEntry) : gmap N NodeDirectoryEntry :=
  list_to_map ((λ d, (de_node_id d, boot_entry d)) <$> dir).

(** The first [k] commands of the descriptor have been applied. *)
Record seeded (desc : BootstrapDescriptor) (k : nat) (m : MetaState) : Prop := {
  sd_identity : ∃ id, ms_identity m = Some id ∧ id_cluster_id id = bd_cluster_id desc;
  sd_maintenance : ms_maintenance m = None;
  sd_retired : ms_retired m = ∅;
  sd_cluster : ms_cluster m = if decide (0 < k) then Some (bd_config desc) else None;
  sd_nodes : ms_nodes m = boot_nodes (take (k - 1) (bd_directory desc));
  sd_meta : 0 < k → ∃ log, ms_placements m !! GroupId_Meta = Some (mkPlacement (bd_meta_voters desc) log None);
  sd_data i voters : bd_data_placements desc !! i = Some (N.of_nat i, voters) →
    if decide (i < k - 1 - length (bd_directory desc))
    then ∃ log, ms_placements m !! GroupId_Data (N.of_nat i) = Some (mkPlacement (voter_set voters) log None)
    else ms_placements m !! GroupId_Data (N.of_nat i) = None;
}.

Section desc.
Context (desc : BootstrapDescriptor) (Hd : descriptor_ok desc).

Lemma nodup_ids_take n : NoDup ((λ d, (de_node_id d, boot_entry d)) <$> take n (bd_directory desc)).*1.
Proof.
  rewrite <-list_fmap_compose. destruct Hd as [_ _ _ _ [Hnd _] _ _ _ _].
  rewrite <-(take_drop n (bd_directory desc)), fmap_app in Hnd. by apply NoDup_app in Hnd as [? _].
Qed.
Lemma boot_nodes_lookup n id e : boot_nodes (take n (bd_directory desc)) !! id = Some e ↔
  ∃ t d, t < n ∧ bd_directory desc !! t = Some d ∧ id = de_node_id d ∧ e = boot_entry d.
Proof.
  unfold boot_nodes. rewrite <-elem_of_list_to_map by apply nodup_ids_take. rewrite list_elem_of_fmap. split.
  - intros (d & [= -> ->] & (t & Ht)%list_elem_of_lookup_1). apply lookup_take_Some in Ht as [Ht Hlt]. by exists t, d.
  - intros (t & d & Hlt & Ht & -> & ->). exists d. split; [done|]. eapply (list_elem_of_lookup_2 _ t). by apply lookup_take_Some.
Qed.
Lemma directory_id_inj t u d e : bd_directory desc !! t = Some d → bd_directory desc !! u = Some e →
  de_node_id d = de_node_id e → t = u.
Proof.
  intros Ht Hu E. destruct (dk_nodes _ Hd) as [Hnd _]. eapply (NoDup_lookup _ t u (de_node_id d) Hnd).
  - by rewrite list_lookup_fmap, Ht.
  - by rewrite list_lookup_fmap, Hu, E.
Qed.
Lemma boot_nodes_absent t d : bd_directory desc !! t = Some d → boot_nodes (take t (bd_directory desc)) !! de_node_id d = None.
Proof.
  intros Ht. apply eq_None_not_Some. intros [e (u & d' & Hu & Hd' & E & _)%boot_nodes_lookup].
  rewrite (directory_id_inj t u d d') in Hu by done. lia.
Qed.
Lemma boot_nodes_S t d : bd_directory desc !! t = Some d →
  boot_nodes (take (S t) (bd_directory desc)) = <[de_node_id d := boot_entry d]> (boot_nodes (take t (bd_directory desc))).
Proof.
  intros Ht. pose proof (nodup_ids_take (S t)) as Hnd. unfold boot_nodes. rewrite (take_S_r _ _ _ Ht), fmap_app in *. cbn in *.
  apply list_to_map_snoc. rewrite fmap_app in Hnd. apply NoDup_app in Hnd as (_ & Hnd & _). intros Hin. by eapply Hnd; [|left].
Qed.
Lemma boot_nodes_all n : length (bd_directory desc) ≤ n → boot_nodes (take n (bd_directory desc)) = boot_nodes (bd_directory desc).
Proof. intros Hn. by rewrite take_ge. Qed.

(** The endpoints of two entries never meet. *)
Lemma addresses_lookup t d a : bd_directory desc !! t = Some d → a ∈ [de_control_addr d; de_bulk_addr d] →
  ∃ c, addresses (bd_directory desc) !! (2 * t + c) = Some a ∧ c < 2.
Proof.
  unfold addresses. generalize (bd_directory desc) as dir. intros dir. revert t. induction dir as [|d' dir IH]; intros [|t] Ht Ha; try done; cbn in *.
  - injection Ht as ->. apply elem_of_cons in Ha as [->|Ha]; [by exists 0; split; [|lia]|].
    apply list_elem_of_singleton in Ha as ->. exists 1. split; [done|lia].
  - destruct (IH t Ht Ha) as (c & Hc & ?). exists c. split; [|done]. by replace (t + S (t + 0) + c) with (S (t + (t + 0) + c)) by lia.
Qed.
Lemma addresses_disjoint t u d e a : bd_directory desc !! t = Some d → bd_directory desc !! u = Some e →
  a ∈ [de_control_addr d; de_bulk_addr d] → a ∈ [de_control_addr e; de_bulk_addr e] → t = u.
Proof.
  intros Ht Hu Ha Hb. destruct (addresses_lookup t d a Ht Ha) as (c & Hc & ?), (addresses_lookup u e a Hu Hb) as (c' & Hc' & ?).
  destruct (dk_addresses _ Hd) as (Hnd & _). pose proof (NoDup_lookup _ _ _ _ Hnd Hc Hc'). lia.
Qed.
Lemma address_ok t d : bd_directory desc !! t = Some d →
  endpoint_ok (de_control_addr d) ∧ endpoint_ok (de_bulk_addr d) ∧ str_ok (de_control_addr d) ∧ str_ok (de_bulk_addr d) ∧
  de_control_addr d ≠ de_bulk_addr d ∧ (de_node_id d ≠ 0 ∧ de_node_id d ≤ u64_max)%N.
Proof.
  intros Ht. pose proof (list_elem_of_lookup_2 _ _ _ Ht) as Hin. destruct (dk_addresses _ Hd) as (Hnd & Hok & Hstr).
  assert (∀ a, a ∈ [de_control_addr d; de_bulk_addr d] → a ∈ addresses (bd_directory desc)) as Hsub.
  { intros a Ha. apply list_elem_of_bind. by exists d. }
  rewrite Forall_forall in Hok, Hstr. split_and!; [apply Hok, Hsub; set_solver|apply Hok, Hsub; set_solver|apply Hstr, Hsub; set_solver|apply Hstr, Hsub; set_solver| |by apply (Forall_lookup_1 _ _ _ _ (dk_ids _ Hd) Ht)..].
  intros E. clear -Hnd Ht E. revert t Ht Hnd. unfold addresses. induction (bd_directory desc) as [|d' dir IH]; intros [|t] Ht Hnd; try done; cbn in *.
  - injection Ht as ->. rewrite E in Hnd. apply NoDup_cons in Hnd as [Hn _]. destruct Hn. by left.
  - apply NoDup_cons in Hnd as [_ Hnd]. apply NoDup_cons in Hnd as [_ Hnd]. by eapply IH.
Qed.

(** ** The commands *)

Lemma command_at j cmd : bootstrap_commands desc !! j = Some cmd →
  (j = 0 ∧ cmd = MetaCommand_ClusterInit (bd_config desc) (bd_meta_voters desc)) ∨
  (∃ t d, j = S t ∧ bd_directory desc !! t = Some d ∧ cmd = MetaCommand_RegisterNode (de_node_id d) (de_control_addr d) (de_bulk_addr d)) ∨
  (∃ i voters, j = S (length (bd_directory desc) + i) ∧ bd_data_placements desc !! i = Some (N.of_nat i, voters) ∧
     cmd = MetaCommand_SeedPlacement (GroupId_Data (N.of_nat i)) voters).
Proof.
  destruct j as [|j]; [intros [= <-]; by left|]. cbn. intros [Hc|[Hlt Hc]]%lookup_app_Some; right.
  - left. apply list_lookup_fmap_Some in Hc as (d & -> & Ht). by exists j, d.
  - right. rewrite length_fmap in *. apply list_lookup_fmap_Some in Hc as ([p voters] & -> & Hi).
    assert (p = N.of_nat (j - length (bd_directory desc))) as ->.
    { pose proof (f_equal (λ l : list N, l !! (j - length (bd_directory desc))) (dk_placements _ Hd)) as E. cbn in E.
      rewrite list_lookup_fmap, Hi, list_lookup_fmap in E. cbn in E. destruct (seq _ _ !! _) as [q|] eqn:Eq; [|done].
      apply lookup_seq in Eq as [-> _]. cbn in E. congruence. }
    exists (j - length (bd_directory desc)), voters. split_and!; [lia|done..].
Qed.

Lemma seed_voters i voters : bd_data_placements desc !! i = Some (N.of_nat i, voters) →
  (N.of_nat i < cc_p (bd_config desc))%N ∧ NoDup voters ∧ N.of_nat (length voters) = cc_r (bd_config desc) ∧ node_ids_ok voters ∧
  ∀ v, v ∈ voters → ∃ t d, bd_directory desc !! t = Some d ∧ v = de_node_id d.
Proof.
  intros Hi. destruct (Forall_lookup_1 _ _ _ _ (dk_voters _ Hd) Hi) as (Hnd & Hlen & Hsub). cbn in *.
  assert (∀ v, v ∈ voters → ∃ t d, bd_directory desc !! t = Some d ∧ v = de_node_id d) as Hv.
  { intros v (d & -> & (t & Ht)%list_elem_of_lookup_1)%Hsub%list_elem_of_fmap. eauto. }
  pose proof (dk_config _ Hd) as (_ & _ & Hp & Hr & _). split_and!; [|done|done| |done].
  - pose proof (f_equal length (dk_placements _ Hd)) as E. rewrite !length_fmap, length_seq in E.
    apply lookup_lt_Some in Hi. lia.
  - split; [unfold vec_len_ok, u8_max, u64_max in *; lia|]. apply Forall_forall. intros v (t & d & Ht & ->)%Hv.
    by apply (address_ok t d Ht).
Qed.

Lemma command_wf j cmd : bootstrap_commands desc !! j = Some cmd → wf cmd.
Proof.
  intros [[_ ->]|[(t & d & _ & Ht & ->)|(i & voters & _ & Hi & ->)]]%command_at; cbn.
  - split; [apply Hd|]. apply (dk_meta _ Hd).
  - destruct (address_ok t d Ht) as (_ & _ & ? & ? & _ & _ & ?). by split_and!.
  - destruct (seed_voters i voters Hi) as (Hp & _ & _ & Hok & _). split; [|done]. cbn.
    pose proof (dk_config _ Hd) as (_ & _ & ? & _). lia.
Qed.
End desc.

Section seed.
Context `{RocksOk D} `{HashesOk} `{!Codec U64, !Codec U128, !Codec string, !Codec LogId, !Codec Identity}
  `{!Codec ClusterConfig, !Codec NodeDirectoryEntry, !Codec MaintenanceRecord, !Codec Placement}
  `{!Codec SearchIndexDefinition, !Codec SearchIndexRecord, !Codec SearchIndexReady} `{!CatalogCodec}.
Context (desc : BootstrapDescriptor) (Hd : descriptor_ok desc).
Implicit Types (s : Storage D) (m : MetaState).

Lemma voter_set_sorted l : bset_sorted l → voter_set l = l.
Proof. apply bset_of_list_id. Qed.

Lemma cluster_init_seeded s m k log : meta_store s m → meta_inv m → seeded desc k m →
  ∃ ms, cluster_init s (bd_config desc) (bd_meta_voters desc) log =
    Ok (if decide (0 < k) then MetaApplyResult_NoOp else MetaApplyResult_Applied, ms).
Proof.
  intros Hs Hi Hk. destruct (dk_meta _ Hd) as (Hsrt & Hlen & Hodd & Hids). destruct (dk_shape _ Hd) as (Hr & Hp & Hsh). destruct (dk_cluster _ Hd) as (Hc & Hpv).
  unfold cluster_init. rewrite (meta_cluster_read s m Hs Hi), (sd_cluster _ _ _ Hk). cbn [rbind]. case_decide as Hk0.
  - rewrite (meta_placement_read s m Hs Hi). destruct (sd_meta _ _ _ Hk Hk0) as [l ->]. cbn [rbind].
    rewrite !bool_decide_true by done. by eexists.
  - rewrite (mst_identity _ _ Hs). destruct (sd_identity _ _ _ Hk) as (id & -> & Eid). cbn [rbind]. rewrite Hc, Eid, N.eqb_refl, Hpv, N.eqb_refl. cbn [negb].
    rewrite (proj2 (N.ltb_ge _ _)) by done. rewrite (proj2 (N.eqb_neq _ _)) by lia. rewrite Hsh, (voter_set_sorted _ Hsrt), Nat.eqb_refl. cbn [negb].
    rewrite (proj2 (Nat.ltb_ge _ _)), Hodd by lia. cbn [orb]. rewrite (proj2 (Nat.ltb_ge _ _)) by lia. by eexists.
Qed.

Lemma register_node_seeded s m k t d : meta_store s m → meta_inv m → seeded desc k m → S t ≤ k → bd_directory desc !! t = Some d →
  ∃ ms, register_node s (de_node_id d) (de_control_addr d) (de_bulk_addr d) =
    Ok (if decide (S t < k) then MetaApplyResult_NoOp else MetaApplyResult_Applied, ms).
Proof.
  intros Hs Hi Hk Ht Hdt. destruct (address_ok desc Hd t d Hdt) as ([Hc1 Hc2] & [Hb1 Hb2] & _ & _ & Hcb & Hid0 & Hid).
  unfold register_node. rewrite (meta_cluster_read s m Hs Hi), (sd_cluster _ _ _ Hk), decide_True by lia. cbn [rbind].
  rewrite bool_decide_false by done. rewrite (proj2 (N.eqb_neq _ _)) by done. rewrite !bool_decide_false by done. cbn [orb].
  rewrite !(proj2 (Nat.ltb_ge _ _)) by done. cbn [orb].
  rewrite (meta_retired_read s m Hs Hi _ Hid), (sd_retired _ _ _ Hk), lookup_empty. cbn [rbind]. rewrite bool_decide_true by done. cbn [negb].
  destruct (meta_directory_read s m Hs Hi) as (l & -> & Hl). cbn [rbind].
  assert (∀ e, e ∈ l → ∃ u d', u < k - 1 ∧ bd_directory desc !! u = Some d' ∧ e = boot_entry d') as Hin.
  { intros e He. rewrite Hl in He. apply list_elem_of_fmap in He as ([j e'] & -> & He%elem_of_map_to_list).
    rewrite (sd_nodes _ _ _ Hk) in He. apply (boot_nodes_lookup desc Hd) in He as (u & d' & ? & ? & _ & ->). eauto. }
  assert (existsb (endpoint_taken (de_node_id d) (de_control_addr d) (de_bulk_addr d)) l = false) as ->.
  { apply not_true_iff_false. rewrite existsb_exists. intros (e & He%list_elem_of_In & Htk). apply Hin in He as (u & d' & _ & Hu & ->).
    unfold endpoint_taken in Htk. cbn in Htk. bools. assert (t = u) as <-; [|congruence].
    repeat match goal with H : (_ || _) = true |- _ => apply orb_true_iff in H as [H|H] end; bools.
    all: match goal with E : @eq string _ ?a |- _ => apply (addresses_disjoint desc Hd t u d d' a) end; set_solver. }
  rewrite (meta_node_read s m Hs Hi _ Hid), (sd_nodes _ _ _ Hk). case_decide as Hlt.
  - assert (boot_nodes (take (k - 1) (bd_directory desc)) !! de_node_id d = Some (boot_entry d)) as E.
    { apply (boot_nodes_lookup desc Hd). exists t, d. split_and!; [lia|done..]. }
    assert (existsb (λ e, (nd_node_id e =? de_node_id d)%N) l = true) as ->.
    { apply existsb_exists. exists (boot_entry d). split; [|by apply N.eqb_refl]. apply list_elem_of_In. rewrite Hl.
      apply list_elem_of_fmap. exists (de_node_id d, boot_entry d). split; [done|]. apply elem_of_map_to_list. by rewrite (sd_nodes _ _ _ Hk). }
    rewrite andb_false_r, E. cbn. rewrite !bool_decide_true by done. by eexists.
  - replace (k - 1) with t by lia. rewrite (boot_nodes_absent desc Hd t d Hdt).
    assert (length l < MAX_CLUSTER_NODES) as Hlen.
    { rewrite Hl, length_fmap, length_map_to_list, (sd_nodes _ _ _ Hk). unfold boot_nodes.
      rewrite map_size_list_to_map by apply (nodup_ids_take desc Hd). rewrite length_fmap, length_take.
      apply lookup_lt_Some in Hdt. destruct (dk_nodes _ Hd) as [_ ?]. lia. }
    rewrite (proj2 (Nat.leb_gt _ _)) by done. cbn. by eexists.
Qed.

Lemma seed_placement_seeded s m k i voters log : meta_store s m → meta_inv m → seeded desc k m → S (length (bd_directory desc) + i) ≤ k →
  bd_data_placements desc !! i = Some (N.of_nat i, voters) →
  ∃ ms, seed_placement s (GroupId_Data (N.of_nat i)) voters log =
    Ok (if decide (S (length (bd_directory desc) + i) < k) then MetaApplyResult_NoOp else MetaApplyResult_Applied, ms).
Proof.
  intros Hs Hi Hk Ht Hpi. destruct (seed_voters desc Hd i voters Hpi) as (Hp & Hnd & Hlen & [_ Hids] & Hv).
  unfold seed_placement. rewrite (meta_cluster_read s m Hs Hi), (sd_cluster _ _ _ Hk), decide_True by lia. cbn [rbind].
  rewrite (proj2 (N.leb_gt _ _)) by done. assert (length (voter_set voters) = length voters) as E by (by apply length_bset_nodup).
  rewrite E, Nat.eqb_refl, Hlen, N.eqb_refl. cbn [negb].
  destruct (all_active_read s m Hs Hi voters Hids) as (b & -> & Hb). cbn [rbind].
  assert (b = true) as ->.
  { apply Hb, Forall_forall. intros v (t & d & Hdt & ->)%Hv. exists (boot_entry d). split; [|done].
    rewrite (sd_nodes _ _ _ Hk). apply (boot_nodes_lookup desc Hd). exists t, d. apply lookup_lt_Some in Hdt as Hlt. split_and!; [lia|done..]. }
  cbn [negb]. rewrite (meta_placement_read s m Hs Hi). pose proof (sd_data _ _ _ Hk i voters Hpi) as Hpl. cbn [rbind].
  destruct (decide (S (length (bd_directory desc) + i) < k)).
  - rewrite decide_True in Hpl by lia. destruct Hpl as [lg ->]. rewrite !bool_decide_true; [by eexists| |done].
    apply voter_set_sorted, bset_of_list_sorted.
  - rewrite decide_False in Hpl by lia. rewrite Hpl. by eexists.
Qed.

Lemma seed_evaluate s m k j cmd log : meta_store s m → meta_inv m → seeded desc k m → j ≤ k → bootstrap_commands desc !! j = Some cmd →
  ∃ ms, meta_evaluate s cmd log = Ok (if decide (j < k) then MetaApplyResult_NoOp else MetaApplyResult_Applied, ms).
Proof.
  intros Hs Hi Hk Hj Hc. unfold meta_evaluate. rewrite (meta_maintenance_read s m Hs Hi), (sd_maintenance _ _ _ Hk). cbn [rbind andb].
  apply (command_at desc Hd) in Hc as [[-> ->]|[(t & d & -> & Ht & ->)|(i & voters & -> & Hv & ->)]]; cbn [meta_dispatch].
  - by apply (cluster_init_seeded s m).
  - by apply (register_node_seeded s m).
  - by apply (seed_placement_seeded s m).
Qed.

(** The effect of the next command. *)
Lemma seed_step m m' k cmd log : seeded desc k m → bootstrap_commands desc !! k = Some cmd → meta_rule m log cmd m' → seeded desc (S k) m'.
Proof.
  intros Hk Hc Hr. apply (command_at desc Hd) in Hc as [[-> ->]|[(t & d & -> & Ht & ->)|(i & voters & -> & Hv & ->)]].
  - inversion Hr; subst; try (match goal with Hx : _ ∨ _ ∧ _ |- _ => by destruct Hx as [?|[? ?]] end). destruct Hk as [Hid Hmt Hrt _ Hnd _ Hdt]. constructor; cbn -[firstn Nat.sub]; [done..| | |].
    + done.
    + intros _. exists log. rewrite lookup_insert_eq. by rewrite voter_set_sorted by apply (dk_meta _ Hd).
    + intros i voters Hiv. rewrite lookup_insert_ne by done. specialize (Hdt i voters Hiv). cbn in Hdt. by rewrite !decide_False in * by lia.
  - assert (ms_nodes m !! de_node_id d = None) as Hnone.
    { rewrite (sd_nodes _ _ _ Hk). replace (S t - 1) with t by lia. by apply (boot_nodes_absent desc Hd). }
    inversion Hr; subst; try congruence; try (match goal with Hx : _ ∨ _ ∧ _ |- _ => by destruct Hx as [?|[? ?]] end). destruct Hk as [Hid Hmt Hrt Hcl Hnd Hme Hdt]. constructor; cbn -[firstn Nat.sub]; [done..| | |].
    + rewrite Hnd. replace (S t - 1) with t by lia. replace (S (S t) - 1) with (S t) by lia. by rewrite (boot_nodes_S desc Hd t d Ht).
    + intros _. apply Hme. lia.
    + intros i voters Hiv. specialize (Hdt i voters Hiv). apply lookup_lt_Some in Ht. by rewrite !decide_False in * by lia.
  - inversion Hr; subst; try (match goal with Hx : _ ∨ _ ∧ _ |- _ => by destruct Hx as [?|[? ?]] end). destruct Hk as [Hid Hmt Hrt Hcl Hnd Hme Hdt]. constructor; cbn -[firstn Nat.sub]; [done..| | |].
    + rewrite Hnd, !take_ge by lia. done.
    + intros _. rewrite lookup_insert_ne by done. apply Hme. lia.
    + intros j voters' Hjv. specialize (Hdt j voters' Hjv). destruct (decide (j = i)) as [->|Hne].
      * rewrite decide_True by lia. exists log. rewrite lookup_insert_eq. congruence.
      * rewrite lookup_insert_ne by (intros E; injection E; lia). destruct (decide (j < i)).
        -- by rewrite !decide_True in * by lia.
        -- by rewrite !decide_False in * by lia.
Qed.

Lemma seed_apply s m k j cmd log : meta_store s m → meta_inv m → seeded desc k m → j ≤ k → bootstrap_commands desc !! j = Some cmd → wf log →
  ∃ s' r m', meta_apply cmd log s = (s', Ok r) ∧ accept r = Ok tt ∧ meta_store s' m' ∧ meta_inv m' ∧ seeded desc (k `max` S j) m'.
Proof.
  intros Hs Hi Hk Hj Hc Hl. destruct (meta_apply_exec s m cmd log Hs Hi (command_wf desc Hd j cmd Hc) Hl) as (s' & r & m' & E & Hs' & Hi' & Hst).
  destruct (seed_evaluate s m k j cmd log Hs Hi Hk Hj Hc) as [ms Hev].
  assert (r = if decide (j < k) then MetaApplyResult_NoOp else MetaApplyResult_Applied) as Er.
  { unfold meta_apply, io_bind, io_read in E. rewrite Hev in E. cbn in E. destruct (apply_state _ _ _ _) as [s1 [[]|]]; cbn in E; [|done]. by injection E. }
  exists s', r, m'. destruct (decide (j < k)); subst r.
  - destruct Hst as [[? _]|[_ ->]]; [done|]. rewrite Nat.max_l by lia. by split_and!.
  - replace j with k in * by lia. destruct Hst as [[_ Hst]|[Hn _]]; [|done]. rewrite Nat.max_r by lia. split_and!; try done.
    by eapply seed_step; [..|apply Hst].
Qed.

(** ** Every interleaving *)

(** The meta group holds exactly what the descriptor says. *)
Record bootstrapped s : Prop := {
  bo_complete : ∃ ds, read_directory_state s = Ok ds ∧ ds_bootstrap_complete ds = true;
  bo_cluster : meta_cluster s = Ok (Some (bd_config desc));
  bo_nodes id : (id ≤ u64_max)%N → meta_node s id = Ok (boot_nodes (bd_directory desc) !! id);
  bo_meta : ∃ log, meta_placement s GroupId_Meta = Ok (Some (mkPlacement (bd_meta_voters desc) log None));
  bo_data i : (i < cc_p (bd_config desc))%N →
    ∃ voters log, bd_data_placements desc !! N.to_nat i = Some (i, voters) ∧
      meta_placement s (GroupId_Data i) = Ok (Some (mkPlacement (voter_set voters) log None)) ∧
      N.of_nat (length (voter_set voters)) = cc_r (bd_config desc) ∧ voter_set voters ⊆ de_node_id <$> bd_directory desc;
}.

Lemma scan_directory_ok config (kvs : list (bytes * bytes)) :
  (∀ k v, (k, v) ∈ kvs → (has_node_prefix k = true → is_ok (decode (A:=NodeDirectoryEntry) v) = true) ∧
     (k = recovery_epoch_key → is_ok (decode (A:=U128) v) = true) ∧ (k = meta_cluster_key → decode (A:=ClusterConfig) v = Ok config)) →
  ∀ directory epoch cluster, ∃ directory' epoch', scan_directory kvs directory epoch cluster =
    Ok (directory', epoch', if decide (meta_cluster_key ∈ kvs.*1) then Some config else cluster).
Proof.
  induction kvs as [|[k v] kvs IH]; intros Hk directory epoch cluster; [by eexists _, _|]. cbn [scan_directory].
  destruct (Hk k v ltac:(by left)) as (Hn & He & Hc). specialize (IH (λ k v Hin, Hk k v ltac:(by right))). cbn [fmap list_fmap fst].
  destruct (has_node_prefix k) eqn:Ep.
  { specialize (Hn eq_refl). destruct (decode (A:=NodeDirectoryEntry) v) as [e|]; [|done]. cbn [rbind].
    destruct (IH (directory ++ [e]) epoch cluster) as (d & ep & ->). exists d, ep. do 2 f_equal. apply decide_ext.
    rewrite elem_of_cons. split; [by right|]. intros [<-|?]; [|done]. by vm_compute in Ep. }
  case_bool_decide as Ee.
  { specialize (He Ee). destruct (decode (A:=U128) v) as [e|]; [|done]. cbn [rbind].
    destruct (IH directory e cluster) as (d & ep & ->). exists d, ep. do 2 f_equal. apply decide_ext.
    rewrite elem_of_cons. split; [by right|]. intros [<-|?]; [|done]. by vm_compute in Ee. }
  case_bool_decide as Ec.
  { rewrite (Hc Ec). cbn [rbind]. destruct (IH directory epoch (Some config)) as (d & ep & ->). exists d, ep. do 2 f_equal.
    rewrite (decide_True (P:=meta_cluster_key ∈ k :: kvs.*1)) by (subst; by left). by case_decide. }
  destruct (IH directory epoch cluster) as (d & ep & ->). exists d, ep. do 2 f_equal. apply decide_ext.
  rewrite elem_of_cons. split; [by right|]. intros [E|?]; [by destruct Ec|done].
Qed.

Lemma directory_state_complete s m config : meta_store s m → meta_inv m → ms_cluster m = Some config →
  (∀ i, (i < cc_p config)%N → is_Some (ms_placements m !! GroupId_Data i)) →
  ∃ ds, read_directory_state s = Ok ds ∧ ds_bootstrap_complete ds = true.
Proof.
  intros Hs Hi Hc Hp. unfold read_directory_state. destruct (scan_read s m Hs) as (kvs & -> & Hkvs). cbn [rbind].
  assert (∀ k v, key_ok k → meta_lookup m k = Some v → (key_bytes k, v) ∈ kvs) as Hin.
  { intros k v Hk Hv. apply Hkvs. by rewrite (mrep_lookup _ _ (mst_rep _ _ Hs)). }
  destruct (scan_directory_ok config kvs) with (directory := @nil NodeDirectoryEntry) (epoch := 0%N) (cluster := @None ClusterConfig) as (d & ep & ->).
  - intros k v Hkv. split_and!.
    + intros Hn. assert ((k, v) ∈ filter (λ kv, has_node_prefix kv.1 = true) kvs) as Hf by (by apply list_elem_of_filter).
      rewrite (node_family s m Hs Hi kvs Hkvs) in Hf. apply list_elem_of_fmap in Hf as ([id e] & [= -> ->] & He%elem_of_map_to_list).
      rewrite decode_encode; [done|]. by eapply nk_wf, mi_nodes.
    + intros ->. apply Hkvs in Hkv. change recovery_epoch_key with (key_bytes MK_Epoch) in Hkv.
      rewrite (mrep_lookup _ _ (mst_rep _ _ Hs) MK_Epoch) in Hkv by done. cbn in Hkv.
      destruct (ms_epoch m) as [e|] eqn:Ee; [|done]. injection Hkv as <-. rewrite decode_encode; [done|]. by apply (mi_epoch m Hi).
    + intros ->. apply Hkvs in Hkv. change meta_cluster_key with (key_bytes MK_Cluster) in Hkv.
      rewrite (mrep_lookup _ _ (mst_rep _ _ Hs) MK_Cluster) in Hkv by done. cbn in Hkv.
      rewrite Hc in Hkv. injection Hkv as <-. rewrite decode_encode; [done|]. by apply (mi_cluster m Hi).
  - eexists. split; [done|]. cbn. rewrite decide_True.
    + cbn. apply forallb_forall. intros i Hi'%list_elem_of_In%elem_of_seq. apply bool_decide_eq_true, list_elem_of_fmap.
      destruct (Hp (N.of_nat i) ltac:(lia)) as [p Hpl]. exists (key_bytes (MK_Placement (GroupId_Data (N.of_nat i))), encode p). split; [done|].
      apply Hin; [done|]. cbn. by rewrite Hpl.
    + apply list_elem_of_fmap. exists (key_bytes MK_Cluster, encode config). split; [done|]. apply Hin; [done|]. cbn. by rewrite Hc.
Qed.

Lemma seeded_bootstrapped s m : meta_store s m → meta_inv m → seeded desc (length (bootstrap_commands desc)) m → bootstrapped s.
Proof.
  intros Hs Hi Hk. assert (length (bootstrap_commands desc) = S (length (bd_directory desc) + length (bd_data_placements desc))) as El.
  { cbn. by rewrite length_app, !length_fmap. }
  assert (∀ i voters, bd_data_placements desc !! i = Some (N.of_nat i, voters) →
    ∃ log, ms_placements m !! GroupId_Data (N.of_nat i) = Some (mkPlacement (voter_set voters) log None)) as Hdata.
  { intros i voters Hiv. pose proof (sd_data _ _ _ Hk i voters Hiv) as Hx. apply lookup_lt_Some in Hiv. by rewrite decide_True in Hx by lia. }
  assert (ms_cluster m = Some (bd_config desc)) as Hcl by (rewrite (sd_cluster _ _ _ Hk); by rewrite decide_True by lia).
  assert (∀ i, (i < cc_p (bd_config desc))%N → ∃ voters log, bd_data_placements desc !! N.to_nat i = Some (i, voters) ∧
    ms_placements m !! GroupId_Data i = Some (mkPlacement (voter_set voters) log None)) as Hpart.
  { intros i Hip. pose proof (f_equal (λ l : list N, l !! N.to_nat i) (dk_placements _ Hd)) as E. cbn in E.
    rewrite !list_lookup_fmap, lookup_seq_lt in E by lia. destruct (bd_data_placements desc !! N.to_nat i) as [[q voters]|] eqn:Eq; [|done].
    cbn in E. injection E as ->. destruct (Hdata _ _ Eq) as [log Hl]. rewrite N2Nat.id in *. by exists voters, log. }
  constructor.
  - apply (directory_state_complete s m (bd_config desc)); [done..|]. intros i (voters & log & _ & ->)%Hpart. done.
  - by rewrite (meta_cluster_read s m Hs Hi), Hcl.
  - intros id Hid. rewrite (meta_node_read s m Hs Hi id Hid), (sd_nodes _ _ _ Hk), boot_nodes_all by lia. done.
  - destruct (sd_meta _ _ _ Hk ltac:(lia)) as [log Hl]. exists log. by rewrite (meta_placement_read s m Hs Hi), Hl.
  - intros i (voters & log & Hiv & Hl)%Hpart. exists voters, log. rewrite (meta_placement_read s m Hs Hi), Hl.
    destruct (Forall_lookup_1 _ _ _ _ (dk_voters _ Hd) Hiv) as (Hnd & Hlen & Hsub). cbn in *. split_and!; [done..| |].
    + unfold voter_set. by rewrite (proj2 (length_bset_nodup _) Hnd).
    + intros v Hv. apply Hsub. by apply (elem_of_bset v voters).
Qed.

Definition genesis_inv (σ : Genesis D) : Prop :=
  ∃ m k, meta_store (gn_store σ) m ∧ meta_inv m ∧ seeded desc k m ∧ k ≤ length (bootstrap_commands desc) ∧
    Forall (λ l, match l with
                 | SeedLoop_Running next => next ≤ k
                 | SeedLoop_Finished => k = length (bootstrap_commands desc)
                 | SeedLoop_Failed => False
                 end) (gn_loops σ).

Lemma genesis_propose_inv m k j s s' cmd log r : meta_store s m → meta_inv m → seeded desc k m → k ≤ length (bootstrap_commands desc) → j ≤ k →
  bootstrap_commands desc !! j = Some cmd → wf log → meta_apply cmd log s = (s', Ok r) →
  ∃ m', meta_store s' m' ∧ meta_inv m' ∧ seeded desc (k `max` S j) m' ∧ k `max` S j ≤ length (bootstrap_commands desc) ∧ accept r = Ok tt.
Proof.
  intros Hs Hi Hk Hle Hj Hc Hl E. destruct (seed_apply s m k j cmd log Hs Hi Hk Hj Hc Hl) as (s1 & r1 & m' & E1 & Ha & Hs' & Hi' & Hk').
  rewrite E1 in E. injection E as -> ->. exists m'. apply lookup_lt_Some in Hc. split_and!; try done. lia.
Qed.

Lemma genesis_step_inv σ σ' : genesis_inv σ → genesis_step desc σ σ' → genesis_inv σ'.
Proof.
  intros (m & k & Hs & Hi & Hk & Hle & Hl) Hst. destruct Hst as [s loops|s s' j cmd log r l1 l2 Hc Hw E|s s' j cmd log r l1 l2 Hc Hw E|s j l1 l2|s l1 l2]; cbn in *.
  - exists m, k. split_and!; [done..|]. constructor; [lia|done].
  - apply Forall_app in Hl as [Hl1 [Hj Hl2]%Forall_cons].
    destruct (genesis_propose_inv m k j s s' cmd log r) as (m' & Hs' & Hi' & Hk' & Hle' & ->); [done..|]. cbn.
    exists m', (k `max` S j). split_and!; [done..|]. apply Forall_app. split; [|constructor; [lia|]].
    all: eapply Forall_impl; [done|]; intros [] Hx; cbn in *; [lia|lia|done].
  - apply Forall_app in Hl as [Hl1 [Hj Hl2]%Forall_cons].
    destruct (genesis_propose_inv m k j s s' cmd log r) as (m' & Hs' & Hi' & Hk' & Hle' & _); [done..|].
    exists m', (k `max` S j). split_and!; [done..|]. apply Forall_app. split.
    all: eapply Forall_impl; [done|]; intros [] Hx; cbn in *; [lia|lia|done].
  - exists m, k. apply Forall_app in Hl as [Hl1 [_ Hl2]%Forall_cons]. split_and!; [done..|]. by apply Forall_app.
  - exists m, k. apply Forall_app in Hl as [Hl1 [Hj Hl2]%Forall_cons]. split_and!; [done..|]. apply Forall_app. split; [done|]. constructor; [by apply Nat.le_antisymm|done].
Qed.

Lemma seed_loop_completes term j index s m k : meta_store s m → meta_inv m → seeded desc k m → j ≤ k → k ≤ length (bootstrap_commands desc) →
  (term ≤ u64_max)%N → (index + N.of_nat (length (bootstrap_commands desc) - j) ≤ u64_max)%N →
  ∃ s' index' m', seed_loop (propose_committed term) (drop j (bootstrap_commands desc)) (s, index) = ((s', index'), Ok true) ∧
    meta_store s' m' ∧ meta_inv m' ∧ seeded desc (length (bootstrap_commands desc)) m'.
Proof.
  intros Hs Hi Hk Hj Hle Ht. remember (length (bootstrap_commands desc) - j) as n eqn:En.
  revert j index s m k Hs Hi Hk Hj Hle En. induction n as [|n IH]; intros j index s m k Hs Hi Hk Hj Hle En Hx.
  { rewrite drop_ge by lia. cbn [seed_loop]. exists s, index, m. replace (length (bootstrap_commands desc)) with k by lia. done. }
  destruct (lookup_lt_is_Some_2 (bootstrap_commands desc) j ltac:(lia)) as [cmd Hc]. rewrite (drop_S _ cmd) by done. cbn [seed_loop].
  destruct (seed_apply s m k j cmd (mkLogId term (index + 1)) Hs Hi Hk Hj Hc) as (s1 & r & m1 & E & Ha & Hs1 & Hi1 & Hk1).
  { split; cbn; lia. }
  unfold io_bind at 1. unfold propose_committed at 1. rewrite E. unfold io_bind, io_read. rewrite Ha.
  destruct (IH (S j) (index + 1)%N s1 m1 (k `max` S j) Hs1 Hi1 Hk1) as (s' & index' & m' & E' & ?); [lia..|]. exists s', index', m'. by rewrite E'.
Qed.
End seed.

Section genesis.
Context `{RocksOk D} `{HashesOk} `{!Codec U64, !Codec U128, !Codec string, !Codec LogId, !Codec Identity}
  `{!Codec ClusterConfig, !Codec NodeDirectoryEntry, !Codec MaintenanceRecord, !Codec Placement}
  `{!Codec SearchIndexDefinition, !Codec SearchIndexRecord, !Codec SearchIndexReady} `{!CatalogCodec}.

(** C16: cluster creation is resumable. For every descriptor an init file
    determines, on a fresh meta group of that cluster, in every interleaving of
    seeding loops that crash, lose their leadership or miss an answer at any
    command: no loop is ever refused; when one finishes, the group records the
    configuration, every node of the file once as Active at its addresses, the
    meta voters, and for every partition its R genesis voters, and reports
    itself complete; and from any reached state one more loop that is not
    interrupted finishes the work. *)
Theorem bootstrap_resumable file desc (s : Storage D) id σ term index :
  wf file → load_init_descriptor file = Ok desc → meta_fresh s id → id_cluster_id id = bd_cluster_id desc →
  rtc (genesis_step desc) (mkGenesis s []) σ →
  (term ≤ u64_max)%N → (index + N.of_nat (length (bootstrap_commands desc)) ≤ u64_max)%N →
  SeedLoop_Failed ∉ gn_loops σ ∧ (SeedLoop_Finished ∈ gn_loops σ → bootstrapped desc (gn_store σ)) ∧
  ∃ s' index', seed_cluster_if_leader (propose_committed term) desc (gn_store σ, index) = ((s', index'), Ok true) ∧ bootstrapped desc s'.
Proof.
  intros Hw Hd%load_init_descriptor_ok Hf Hid Hr Ht Hx; [|done].
  assert (genesis_inv desc σ) as (m & k & Hs & Hi & Hk & Hle & Hl).
  { eapply (rtc_ind_r (genesis_inv desc) (mkGenesis s [])); [|intros σ1 σ2 _ Hst Hv; by eapply genesis_step_inv|exact Hr].
    apply meta_fresh_store in Hf as [Hs Hi]. exists (meta_init id), 0. split_and!; [done..| |apply Nat.le_0_l|by constructor].
    constructor; cbn; try done; [by exists id|intros Hz; lia]. }
  rewrite Forall_forall in Hl. split_and!.
  - intros Hin. by apply Hl in Hin.
  - intros Hin. apply Hl in Hin. subst k. by eapply seeded_bootstrapped.
  - destruct (seed_loop_completes desc Hd term 0 index (gn_store σ) m k) as (s' & index' & m' & E & ? & ? & ?); [done..|lia|done|done| |].
    { by rewrite Nat.sub_0_r. }
    exists s', index'. split; [exact E|]. by eapply seeded_bootstrapped.
Qed.
End genesis.
