(* ===== verification/Backup.v ===== *)
(** * Backup and restore (src/src/backup/mod.rs)

    Offline node artifacts, the cluster package made of them, the catalog, the
    recovery plan and the restored node; with the epoch a restore installs
    (src/src/storage/rocks.rs). A file system maps paths to trees. A path is its
    canonical parent and its name; paths are taken to be disjoint, so the checks
    against nesting one inside another are left out, as are the syncs of single
    files. What can fail once staging has begun is the [FsEnv]. JSON is the class
    [Json], the files of a database the class [DbFiles]. *)

From S2P Require Import Prelude SortBy BTree Types Config Codec SearchDef Keyspace Outbox MetaTypes ApplyDurability Aio Rocks Storage Startup DataSM SearchStore ApplyRaft LogStore MetaSM Bootstrap.

(** ** Records *)

(** A path: the canonical parent directory and the name in it. *)
Abbreviation FsPath := (string * string)%type.

Record FileDigest := mkFileDigest { fd_path : string; fd_bytes : N; fd_sha256 : string }.
#[global] Instance FileDigest_eq_dec : EqDecision FileDigest.
Proof. solve_decision. Defined.
Record GroupPosition := mkGroupPosition { gp_group : GroupId; gp_applied : LogId }.
#[global] Instance GroupPosition_eq_dec : EqDecision GroupPosition.
Proof. solve_decision. Defined.
Record MetaInventory := mkInventory {
  mv_cluster : ClusterConfig;
  mv_directory : list NodeDirectoryEntry;
  mv_placements : list (GroupId * Placement);
  mv_search_definitions : list SearchIndexRecord;
  mv_search_state_sha256 : string;
  mv_state_sha256 : string;
}.
#[global] Instance MetaInventory_eq_dec : EqDecision MetaInventory.
Proof. solve_decision. Defined.
Record NodeArtifact := mkArtifact {
  na_format : N;
  na_backup_id : N;
  na_cluster_id : N;
  na_node_id : NodeId;
  na_recovery_epoch : N;
  na_trust_generation : N;
  na_trust_policy_digest : string;
  na_maintenance : MaintenanceRecord;
  na_positions : list GroupPosition;
  na_meta : option MetaInventory;
  na_files : list FileDigest;
}.
#[global] Instance NodeArtifact_eq_dec : EqDecision NodeArtifact.
Proof. solve_decision. Defined.
Record PackageNode := mkPackageNode { pn_node_id : NodeId; pn_manifest_sha256 : string }.
#[global] Instance PackageNode_eq_dec : EqDecision PackageNode.
Proof. solve_decision. Defined.
Record PackageManifest := mkPackage {
  pm_format : N;
  pm_binary_version : string;
  pm_protocol_version : N;
  pm_storage_format_version : N;
  pm_durable_record_version : N;
  pm_snapshot_format_version : N;
  pm_search_engine_revision : N;
  pm_backup_id : N;
  pm_recovery_epoch : N;
  pm_descriptor : BootstrapDescriptor;
  pm_operation_id : N;
  pm_generation : N;
  pm_positions : list GroupPosition;
  pm_meta : MetaInventory;
  pm_trust_generation : N;
  pm_trust_policy_digest : string;
  pm_prior_key_fingerprints : list string;
  pm_nodes : list PackageNode;
}.
Record TrustSnapshot := mkTrust { ts_generation : N; ts_digest : bytes; ts_key_fingerprints : list string }.
Record FencingEvidence := mkEvidence {
  fv_cluster_id : string;
  fv_backup_id : string;
  fv_checked_by : string;
  fv_old_processes_stopped : bool;
  fv_automatic_restart_disabled : bool;
  fv_old_peer_and_client_routes_isolated : bool;
}.
Record RecoveryPlan := mkPlan {
  rv_format : N;
  rv_cluster_id : N;
  rv_backup_id : N;
  rv_recovery_epoch : N;
  rv_minimum_trust_generation : N;
  rv_prior_trust_policy_digest : string;
  rv_prior_key_fingerprints : list string;
  rv_package_manifest_sha256 : string;
  rv_fencing_evidence_sha256 : string;
  rv_nodes : list NodeId;
  rv_recovery_point : list GroupPosition;
}.
Record RestoreInventory := mkRestoreInventory { ri_node_id : NodeId; ri_files : nat; ri_bytes : N; ri_recovery_epoch : N }.

Record CatalogEntry := mkCatalogEntry {
  ce_backup_id : N;
  ce_package_path : FsPath;
  ce_manifest_sha256 : string;
  ce_verified_unix_seconds : N;
}.
Record BackupCatalog := mkCatalog { bc_format : N; bc_entries : list CatalogEntry }.

#[global] Instance FileDigest_wf : Wf FileDigest := λ f, str_ok (fd_path f) ∧ (fd_bytes f ≤ u64_max)%N ∧ str_ok (fd_sha256 f).
#[global] Instance GroupPosition_wf : Wf GroupPosition := λ p, wf (gp_group p) ∧ wf (gp_applied p).
#[global] Instance MetaInventory_wf : Wf MetaInventory := λ m,
  wf (mv_cluster m) ∧ wf (mv_directory m) ∧ wf (mv_placements m) ∧ wf (mv_search_definitions m) ∧
  str_ok (mv_search_state_sha256 m) ∧ str_ok (mv_state_sha256 m).
#[global] Instance NodeArtifact_wf : Wf NodeArtifact := λ a,
  (na_format a ≤ u32_max)%N ∧ (na_backup_id a ≤ u128_max)%N ∧ (na_cluster_id a ≤ u128_max)%N ∧ (na_node_id a ≤ u64_max)%N ∧
  (na_recovery_epoch a ≤ u128_max)%N ∧ (na_trust_generation a ≤ u64_max)%N ∧ str_ok (na_trust_policy_digest a) ∧
  wf (na_maintenance a) ∧ wf (na_positions a) ∧ wf (na_meta a) ∧ wf (na_files a).
#[global] Instance PackageNode_wf : Wf PackageNode := λ n, (pn_node_id n ≤ u64_max)%N ∧ str_ok (pn_manifest_sha256 n).
#[global] Instance DirEntry_wf : Wf DirEntry := λ e, (de_node_id e ≤ u64_max)%N ∧ str_ok (de_control_addr e) ∧ str_ok (de_bulk_addr e).
#[global] Instance BootstrapDescriptor_wf : Wf BootstrapDescriptor := λ d,
  (bd_cluster_id d ≤ u128_max)%N ∧ wf (bd_config d) ∧ node_ids_ok (bd_meta_voters d) ∧ wf (bd_directory d) ∧
  vec_len_ok (bd_data_placements d) ∧ Forall (λ p, (p.1 ≤ u16_max)%N ∧ node_ids_ok p.2) (bd_data_placements d).
#[global] Instance PackageManifest_wf : Wf PackageManifest := λ p,
  (pm_format p ≤ u32_max)%N ∧ str_ok (pm_binary_version p) ∧ (pm_protocol_version p ≤ u32_max)%N ∧ (pm_storage_format_version p ≤ u32_max)%N ∧
  (pm_durable_record_version p ≤ u32_max)%N ∧ (pm_snapshot_format_version p ≤ u32_max)%N ∧ (pm_search_engine_revision p ≤ u32_max)%N ∧
  (pm_backup_id p ≤ u128_max)%N ∧ (pm_recovery_epoch p ≤ u128_max)%N ∧ wf (pm_descriptor p) ∧ (pm_operation_id p ≤ u128_max)%N ∧
  (pm_generation p ≤ u64_max)%N ∧ wf (pm_positions p) ∧ wf (pm_meta p) ∧ (pm_trust_generation p ≤ u64_max)%N ∧
  str_ok (pm_trust_policy_digest p) ∧ wf (pm_prior_key_fingerprints p) ∧ wf (pm_nodes p).
#[global] Instance FencingEvidence_wf : Wf FencingEvidence := λ e, str_ok (fv_cluster_id e) ∧ str_ok (fv_backup_id e) ∧ str_ok (fv_checked_by e).
#[global] Instance RecoveryPlan_wf : Wf RecoveryPlan := λ p,
  (rv_format p ≤ u32_max)%N ∧ (rv_cluster_id p ≤ u128_max)%N ∧ (rv_backup_id p ≤ u128_max)%N ∧ (rv_recovery_epoch p ≤ u128_max)%N ∧
  (rv_minimum_trust_generation p ≤ u64_max)%N ∧ str_ok (rv_prior_trust_policy_digest p) ∧ wf (rv_prior_key_fingerprints p) ∧
  str_ok (rv_package_manifest_sha256 p) ∧ str_ok (rv_fencing_evidence_sha256 p) ∧ node_ids_ok (rv_nodes p) ∧ wf (rv_recovery_point p).
#[global] Instance CatalogEntry_wf : Wf CatalogEntry := λ e,
  (ce_backup_id e ≤ u128_max)%N ∧ str_ok (ce_package_path e).1 ∧ str_ok (ce_package_path e).2 ∧ str_ok (ce_manifest_sha256 e) ∧
  (ce_verified_unix_seconds e ≤ u64_max)%N.
#[global] Instance BackupCatalog_wf : Wf BackupCatalog := λ c, (bc_format c ≤ u32_max)%N ∧ wf (bc_entries c).

(** [FORMAT], the format versions of the parts, and the version of the crate. *)
Definition FORMAT : N := 1.
Definition CARGO_PKG_VERSION : string := "0.1.0".
Definition STORAGE_FORMAT_VERSION : N := 3.
Definition DURABLE_RECORD_FORMAT_VERSION : N := 3.
Definition FORMAT_VERSION : N := 2.
Definition NODE_MANIFEST : string := "node.json".
Definition STORAGE_MARKER : string := "DAL_FORMAT.json".
Definition RESTORE_MARKER : string := "DAL_RESTORE.json".

(** ** Trees of files *)

Inductive FsNode := Fs_File (contents : bytes) | Fs_Dir (entries : list (string * FsNode)) | Fs_Other.
Abbreviation Fs := (gmap FsPath FsNode).

(** serde_json on the documents of a backup. *)
Class Json (A : Type) `{Wf A} := {
  to_json : A → bytes;
  from_json : bytes → Result A;
  from_to_json x : wf x → from_json (to_json x) = Ok x;
}.

(** [File::create] in a directory. *)
Definition dir_put (entries : list (string * FsNode)) (name : string) (node : FsNode) : list (string * FsNode) :=
  filter (λ e, e.1 ≠ name) entries ++ [(name, node)].

(** The files of a database: what a checkpoint writes, what opening a
    directory finds, and the directory after writing to it and closing. *)
Class DbFiles (D : Type) := {
  db_checkpoint : D → list (string * FsNode);
  db_open_dir : list (string * FsNode) → option D;
  db_close : list (string * FsNode) → D → list (string * FsNode);
}.

(** A closed database opens again with its contents, whatever restore marker lies beside it. *)
Class DbFilesOk (D : Type) `{!DbFiles D} : Prop := {
  db_reopen l d d' : db_open_dir l = Some d → db_open_dir (db_close l d') = Some d';
  db_marker l node : db_open_dir (dir_put l RESTORE_MARKER node) = db_open_dir l;
}.

Definition ensure (b : bool) (msg : string) : Result unit := if b then Ok tt else Err (Error_Config msg).
Definition not_found : Error := Error_Io "entity not found".

Definition dir_lookup (entries : list (string * FsNode)) (name : string) : option FsNode :=
  snd ∘ snd <$> list_find (λ e, e.1 = name) entries.
(** [fs::symlink_metadata(..)?.file_type().is_dir()] and the like, with what they hold. *)
Definition entry_dir (node : option FsNode) (msg : string) : Result (list (string * FsNode)) :=
  match node with
  | None => Err not_found
  | Some (Fs_Dir entries) => Ok entries
  | Some _ => Err (Error_Config msg)
  end.
Definition entry_file (node : option FsNode) (msg : string) : Result bytes :=
  match node with
  | None => Err not_found
  | Some (Fs_File contents) => Ok contents
  | Some _ => Err (Error_Config msg)
  end.

(** The paths and contents of the regular files of a tree; [None] when it holds
    anything else. *)
Fixpoint walk (node : FsNode) : option (list (list string * bytes)) :=
  match node with
  | Fs_File contents => Some [([], contents)]
  | Fs_Other => None
  | Fs_Dir entries =>
      (fix go (entries : list (string * FsNode)) : option (list (list string * bytes)) :=
         match entries with
         | [] => Some []
         | (name, node) :: entries =>
             files ← walk node; rest ← go entries; Some (((λ f, (name :: f.1, f.2)) <$> files) ++ rest)
         end) entries
  end.

Definition string_compare (a b : string) : comparison := bytes_compare (as_bytes a) (as_bytes b).
(** [PathBuf] compares component by component. *)
Fixpoint path_compare (a b : list string) : comparison :=
  match a, b with
  | [], [] => Eq
  | [], _ => Lt
  | _, [] => Gt
  | x :: a, y :: b => ordering_then (string_compare x y) (path_compare a b)
  end.
(** [regular_files]. *)
Definition regular_files (entries : list (string * FsNode)) : Result (list (list string * bytes)) :=
  let! files := ok_or (walk (Fs_Dir entries)) (Error_Config "backup source contains a nonregular file") in
  Ok (sort_by (λ a b, path_compare a.1 b.1) files).

(** The bytes of a string in two lower-case digits each. *)
Definition hex_byte (b : byte) : string := hex_digit (Byte.to_N b / 16) +:+ hex_digit (Byte.to_N b mod 16).
Definition hex_bytes (b : bytes) : string := foldr (λ x s, hex_byte x +:+ s) "" b.
Definition is_ascii_hexdigit (b : byte) : bool :=
  let n := Byte.to_N b in
  ((48 <=? n) && (n <=? 57) || (65 <=? n) && (n <=? 70) || (97 <=? n) && (n <=? 102))%N.
Definition is_sha256_hex (s : string) : bool := (String.length s =? 64) && forallb is_ascii_hexdigit (as_bytes s).

Section files.
Context `{Hashes}.

(** [sha256_file]. *)
Definition sha256_file (contents : bytes) : Result (N * string) :=
  if (N.of_nat (length contents) <=? u64_max)%N then Ok (N.of_nat (length contents), hex_bytes (sha256 contents))
  else Err (Error_Config "backup file size overflow").
(** [relative_file_digest]. *)
Definition relative_file_digest (file : list string * bytes) : Result FileDigest :=
  let! name := ok_or (from_utf8 (as_bytes (String.concat "/" file.1))) (Error_Config "non-UTF8 backup path") in
  let! d := sha256_file file.2 in
  Ok (mkFileDigest name d.1 d.2).
(** The digests of the files of a directory, under a prefix of their paths. *)
Definition digest_tree (prefix : list string) (entries : list (string * FsNode)) : Result (list FileDigest) :=
  let! files := regular_files entries in
  mapR (λ f, relative_file_digest (prefix ++ f.1, f.2)) files.
Definition sort_digests : list FileDigest → list FileDigest := sort_by (λ a b, string_compare (fd_path a) (fd_path b)).

(** [digest_rows]. *)
Definition digest_rows (rows : list (bytes * bytes)) : string :=
  hex_bytes (sha256 (rows ≫= λ kv,
    be_bytes 8 (N.of_nat (length kv.1)) ++ kv.1 ++ be_bytes 8 (N.of_nat (length kv.2)) ++ kv.2)).
End files.

(** The components of a path in a manifest. *)
Fixpoint split_slash (s : string) : list string :=
  match s with
  | EmptyString => [""]
  | String c s =>
      match split_slash s with
      | [] => []
      | piece :: pieces => if bool_decide (String c "" = "/") then "" :: piece :: pieces else String c piece :: pieces
      end
  end.
(** [starts_with("db")] with normal components only. *)
Definition safe_path (path : string) : bool :=
  match split_slash path with
  | first :: pieces => bool_decide (first = "db") && forallb (λ p, negb (bool_decide (p = ".."))) pieces
  | [] => false
  end.

(** No pair of [windows(2)] out of order. *)
Fixpoint strictly_ascending_by {A} (cmp : A → A → comparison) (l : list A) : bool :=
  match l with
  | a :: (b :: _) as l' => match cmp a b with Lt => strictly_ascending_by cmp l' | _ => false end
  | _ => true
  end.

(** ** Staging *)

(** What becomes of the file system calls of a staged directory: the building
    stops with an error and leaves a partial tree, the publishing rename fails,
    the parent cannot be synced, the clean-up fails. *)
Record FsEnv := mkFsEnv {
  fe_build : option Error;
  fe_partial : FsNode;
  fe_publish : option Error;
  fe_sync : option Error;
  fe_cleanup : bool;
}.
Definition FsEnv_good : FsEnv := mkFsEnv None Fs_Other None None true.

(** [remove_dir_all] of the stage, which holds what the failed work left. *)
Definition remove_stage (env : FsEnv) (stage : FsPath) : Fs → Fs :=
  if fe_cleanup env then delete stage else <[stage := fe_partial env]>.

(** Building in a new stage and publishing it without replacing anything: the
    shape of [export_node], [assemble] and [with_restore_stage]. *)
Definition with_stage {A} (env : FsEnv) (stage destination : FsPath) (build : Fs → Result (FsNode * A)) : io Fs A := λ fs,
  match fs !! stage with
  | Some _ => (fs, Err (Error_Config "partial directory already exists"))
  | None =>
      match (match fe_build env with Some e => Err e | None => build fs end) with
      | Err e => (remove_stage env stage fs, Err e)
      | Ok (tree, value) =>
          match (match fe_publish env with
                 | Some e => Some e
                 | None => if bool_decide (fs !! destination = None) then None else Some (Error_Io "file exists")
                 end) with
          | Some e => (remove_stage env stage fs, Err e)
          | None =>
              let fs := <[destination := tree]> fs in
              match fe_sync env with
              | Some e => (fs, Err e)
              | None => (fs, Ok value)
              end
          end
      end
  end.

Definition hex32 (n : N) : string := hex_bytes (be_bytes 16 n).
Definition export_stage (parent : string) (backup_id : N) (node_id : NodeId) : FsPath :=
  (parent, ".dal-backup-" +:+ hex32 backup_id +:+ "-node-" +:+ pretty node_id +:+ ".partial").
Definition package_stage (parent : string) (backup_id : N) : FsPath := (parent, ".dal-package-" +:+ hex32 backup_id +:+ ".partial").
Definition restore_stage (parent : string) (epoch : N) (node_id : NodeId) : FsPath :=
  (parent, ".dal-restore-" +:+ hex32 epoch +:+ "-node-" +:+ pretty node_id +:+ ".partial").

(** ** Node artifacts *)

Section backup.
Context `{Rocks D} `{!DbFiles D} `{Hashes} `{!Codec U64, !Codec U128, !Codec string, !Codec LogId, !Codec Identity, !Codec ServingState}
  `{!Codec ClusterConfig, !Codec NodeDirectoryEntry, !Codec MaintenanceRecord, !Codec Placement, !Codec SearchIndexRecord}
  `{!Codec RaftApplied, !Codec RaftLogId, !Codec (option RaftLogId), !Codec SearchConsumerState}
  `{!Json NodeArtifact, !Json PackageManifest, !Json RecoveryPlan, !Json FencingEvidence, !Json BackupCatalog}.
Implicit Types s : Storage D.

(** [meta_inventory]. *)
Definition inventory_placement s (group : GroupId) : Result (GroupId * Placement) :=
  let! placement := meta_placement s group in
  let! placement := ok_or placement (Error_Config "backup placement missing") in
  let! _ := ensure (bool_decide (pl_move placement = None)) "backup cannot contain an in-flight placement move" in
  Ok (group, placement).
Definition meta_inventory s (desc : BootstrapDescriptor) (local_fence : MaintenanceRecord) : Result MetaInventory :=
  let! cluster := meta_cluster s in
  let! cluster := ok_or cluster (Error_Config "meta cluster record missing") in
  let! _ := ensure (bool_decide (cluster = bd_config desc) && (cc_cluster_id cluster =? bd_cluster_id desc)%N)
              "backup meta cluster differs from bootstrap descriptor" in
  let! fence := meta_maintenance s in
  let! fence := ok_or fence (Error_Config "replicated maintenance fence missing") in
  let! _ := ensure ((mr_operation_id fence =? mr_operation_id local_fence)%N && (mr_generation fence =? mr_generation local_fence)%N &&
                    bool_decide (mr_stage fence = MaintenanceStage_Quiesced) &&
                    bool_decide (mr_participants fence = mr_participants local_fence))
              "meta replica is not at the quiesced backup fence" in
  let! rows := scan_state s GroupId_Meta in
  let! directory := mapR (λ kv, decode (A:=NodeDirectoryEntry) kv.2) (filter (λ kv, has_node_prefix kv.1 = true) rows) in
  let! placements := mapR (inventory_placement s) (all_groups (cc_p cluster)) in
  let search := filter (λ kv, starts_with meta_search_index_prefix kv.1 = true) rows in
  let! search_definitions := mapR (λ kv, decode (A:=SearchIndexRecord) kv.2) search in
  Ok (mkInventory cluster directory placements search_definitions (digest_rows search) (digest_rows rows)).

(** The loop of [export_node] over the groups. *)
Fixpoint export_positions s (recovery_epoch : N) (groups : list GroupId) : Result (list GroupPosition) :=
  match groups with
  | [] => Ok []
  | group :: groups =>
      if group_exists s group then
        let! epoch := Storage.recovery_epoch s group in
        let! _ := ensure (epoch =? recovery_epoch)%N "recovery epoch differs from local epoch" in
        let! applied := raft_applied_position s group in
        let! applied := ok_or applied (Error_Config "group has no Raft applied position") in
        let! positions := export_positions s recovery_epoch groups in
        Ok (mkGroupPosition group applied :: positions)
      else export_positions s recovery_epoch groups
  end.

(** The tree of an artifact and its manifest. *)
Definition build_artifact s (marker : bytes) (manifest : list FileDigest → NodeArtifact) : Result (FsNode * NodeArtifact) :=
  let db := db_checkpoint (st_db s) ++ [(STORAGE_MARKER, Fs_File marker)] in
  let! files := digest_tree ["db"] db in
  let manifest := manifest files in
  Ok (Fs_Dir [("db", Fs_Dir db); (NODE_MANIFEST, Fs_File (to_json manifest))], manifest).

(** [export_node], on the opened store of the data directory and the contents
    of its format marker. *)
Definition export_node (env : FsEnv) s (marker : bytes) (desc : BootstrapDescriptor) (node_id : NodeId)
    (backup_id operation_id generation : N) (destination : FsPath) (trust : TrustSnapshot) : io Fs NodeArtifact :=
  io_read (λ fs,
    ensure (negb ((backup_id =? 0)%N || (operation_id =? 0)%N || (generation =? 0)%N || (ts_generation trust =? 0)%N ||
                  bool_decide (ts_digest trust = replicate 32 x00))) "backup IDs must be nonzero and destination must be new") ;;?
  io_read (λ fs, ensure (bool_decide (fs !! destination = None)) "destination already exists") ;;?
  let? id := io_read (λ _, identity s) in
  let? id := io_read (λ _, ok_or id (Error_Config "node identity missing")) in
  io_read (λ _, ensure ((id_cluster_id id =? bd_cluster_id desc)%N && (id_node_id id =? node_id)%N) "backup node identity mismatch") ;;?
  let? maintenance := io_read (λ _, get_local MaintenanceRecord s maintenance_fence_key) in
  let? maintenance := io_read (λ _, ok_or maintenance (Error_Config "durable maintenance fence missing")) in
  io_read (λ _, ensure ((mr_operation_id maintenance =? operation_id)%N && (mr_generation maintenance =? generation)%N &&
                        bool_decide (mr_stage maintenance = MaintenanceStage_Quiesced) &&
                        bool_decide (node_id ∈ mr_participants maintenance))
                  "node is not fenced for the quiesced backup operation") ;;?
  let? epoch := io_read (λ _, local_recovery_epoch s) in
  let? positions := io_read (λ _, export_positions s epoch (all_groups (cc_p (bd_config desc)))) in
  let? meta := io_read (λ _,
    if group_exists s GroupId_Meta then let! m := meta_inventory s desc maintenance in Ok (Some m) else Ok None) in
  with_stage env (export_stage destination.1 backup_id node_id) destination (λ _,
    build_artifact s marker (mkArtifact FORMAT backup_id (bd_cluster_id desc) node_id epoch (ts_generation trust)
      (hex_bytes (ts_digest trust)) maintenance positions meta)).

(** [verify_node]. *)
Definition verify_node (node : option FsNode) : Result NodeArtifact :=
  let! entries := entry_dir node "backup artifact contains an unsafe path" in
  let! db := entry_dir (dir_lookup entries "db") "backup artifact contains an unsafe path" in
  let! bytes := entry_file (dir_lookup entries NODE_MANIFEST) "backup artifact contains an unsafe path" in
  let! _ := ensure (bool_decide (sort_by string_compare entries.*1 = ["db"; NODE_MANIFEST]))
              "backup node inventory contains extra or missing paths" in
  let! manifest := from_json (A:=NodeArtifact) bytes in
  let! _ := ensure ((na_format manifest =? FORMAT)%N && negb (na_backup_id manifest =? 0)%N && negb (na_cluster_id manifest =? 0)%N)
              "unsupported or invalid node artifact" in
  let! _ := ensure (negb (na_trust_generation manifest =? 0)%N && is_sha256_hex (na_trust_policy_digest manifest))
              "invalid node artifact trust snapshot" in
  let! actual := digest_tree ["db"] db in
  let! _ := ensure (forallb (λ f, safe_path (fd_path f)) (na_files manifest)) "unsafe backup artifact path" in
  let! _ := ensure (bool_decide (sort_digests (na_files manifest) = sort_digests actual)) "backup artifact failed file verification" in
  Ok manifest.

(** ** The cluster package *)

Definition find_artifact (artifacts : list NodeArtifact) (node : NodeId) : option NodeArtifact :=
  snd <$> list_find (λ a, na_node_id a = node) artifacts.

(** The loop over the meta voters. *)
Fixpoint check_meta_voters (artifacts : list NodeArtifact) (meta : MetaInventory) (voters : list NodeId) : Result unit :=
  match voters with
  | [] => Ok tt
  | node :: voters =>
      let! artifact := ok_or (find_artifact artifacts node) (Error_Config "meta voter artifact missing") in
      let! _ := ensure (bool_decide (na_meta artifact = Some meta)) "meta replicas differ at backup barrier" in
      check_meta_voters artifacts meta voters
  end.
(** The loop over the voters of a group: the position they agree on. *)
Fixpoint agreed_position (artifacts : list NodeArtifact) (group : GroupId) (applied : option LogId) (voters : list NodeId)
    : Result (option LogId) :=
  match voters with
  | [] => Ok applied
  | voter :: voters =>
      let! artifact := ok_or (find_artifact artifacts voter) (Error_Config "voter artifact missing") in
      let! position := ok_or (snd <$> list_find (λ p, gp_group p = group) (na_positions artifact)) (Error_Config "voter position missing") in
      let! _ := ensure (match applied with Some prior => bool_decide (prior = gp_applied position) | None => true end)
                  "replicas have different applied barriers" in
      agreed_position artifacts group (Some (gp_applied position)) voters
  end.
Definition frozen_position (artifacts : list NodeArtifact) (gp : GroupId * Placement) : Result GroupPosition :=
  let! _ := ensure (bool_decide (pl_move gp.2 = None) && negb (bool_decide (pl_voters gp.2 = []))) "invalid frozen backup placement" in
  let! applied := agreed_position artifacts gp.1 None (pl_voters gp.2) in
  let! applied := ok_or applied (Error_Config "unreachable") in
  Ok (mkGroupPosition gp.1 applied).

(** The conditions every artifact shares with the first one. *)
Definition same_backup (desc : BootstrapDescriptor) (first artifact : NodeArtifact) : bool :=
  (na_format artifact =? FORMAT)%N && (na_backup_id artifact =? na_backup_id first)%N && (na_cluster_id artifact =? bd_cluster_id desc)%N &&
  (na_recovery_epoch artifact =? na_recovery_epoch first)%N && (na_trust_generation artifact =? na_trust_generation first)%N &&
  bool_decide (na_trust_policy_digest artifact = na_trust_policy_digest first) &&
  (mr_operation_id (na_maintenance artifact) =? mr_operation_id (na_maintenance first))%N &&
  (mr_generation (na_maintenance artifact) =? mr_generation (na_maintenance first))%N &&
  bool_decide (mr_participants (na_maintenance artifact) = mr_participants (na_maintenance first)) &&
  bool_decide (mr_stage (na_maintenance artifact) = MaintenanceStage_Quiesced).

(** [validate_cluster_artifacts]. *)
Definition validate_cluster_artifacts (desc : BootstrapDescriptor) (artifacts : list NodeArtifact)
    : Result (MetaInventory * list GroupPosition) :=
  let! first := ok_or (head artifacts) (Error_Config "backup has no node artifacts") in
  let fence := na_maintenance first in
  let! _ := ensure ((na_cluster_id first =? bd_cluster_id desc)%N && bool_decide (mr_stage fence = MaintenanceStage_Quiesced))
              "backup identity or quiesced fence mismatch" in
  let ids := sort_unstable (na_node_id <$> artifacts) in
  let! _ := ensure (bool_decide (NoDup ids) && bool_decide (ids = mr_participants fence)) "backup is missing a maintenance participant" in
  let! _ := ensure (forallb (same_backup desc first) artifacts) "backup contains mixed node artifacts" in
  let! meta := ok_or (head (omap na_meta artifacts)) (Error_Config "backup has no meta inventory") in
  let! _ := ensure (bool_decide (mv_cluster meta = bd_config desc)) "backup cluster config differs from descriptor" in
  let active := sort_unstable (nd_node_id <$> filter (λ e, nd_state e = NodeState_Active) (mv_directory meta)) in
  let! _ := ensure (bool_decide (active = ids)) "backup participants differ from frozen directory" in
  let! placement := ok_or (snd <$> list_find (λ gp, gp.1 = GroupId_Meta) (mv_placements meta)) (Error_Config "meta placement missing from backup") in
  let! _ := check_meta_voters artifacts meta (pl_voters placement.2) in
  let! positions := mapR (frozen_position artifacts) (mv_placements meta) in
  Ok (meta, positions).

Definition package_dir (node_id : NodeId) : string := "node-" +:+ pretty node_id.

(** The conditions on the manifest of a package alone. *)
Definition supported_package (package : PackageManifest) : bool :=
  (pm_format package =? FORMAT)%N && bool_decide (pm_binary_version package = CARGO_PKG_VERSION) &&
  (pm_protocol_version package =? PROTOCOL_VERSION)%N && (pm_storage_format_version package =? STORAGE_FORMAT_VERSION)%N &&
  (pm_durable_record_version package =? DURABLE_RECORD_FORMAT_VERSION)%N && (pm_snapshot_format_version package =? FORMAT_VERSION)%N &&
  (pm_search_engine_revision package =? SEARCH_ENGINE_REVISION)%N && negb (pm_backup_id package =? 0)%N &&
  negb (pm_trust_generation package =? 0)%N && is_sha256_hex (pm_trust_policy_digest package) &&
  negb (bool_decide (pm_prior_key_fingerprints package = [])) &&
  strictly_ascending_by string_compare (pm_prior_key_fingerprints package) &&
  forallb is_sha256_hex (pm_prior_key_fingerprints package).

(** The loop of [verify_package] over the nodes. *)
Definition verify_package_node (entries : list (string * FsNode)) (node : PackageNode) : Result NodeArtifact :=
  let tree := dir_lookup entries (package_dir (pn_node_id node)) in
  let! files := match tree with Some (Fs_Dir files) => Ok files | _ => Err not_found end in
  let! bytes := entry_file (dir_lookup files NODE_MANIFEST) "is a directory" in
  let! d := sha256_file bytes in
  let! _ := ensure (bool_decide (d.2 = pn_manifest_sha256 node)) "node manifest checksum mismatch" in
  let! artifact := verify_node tree in
  let! _ := ensure (na_node_id artifact =? pn_node_id node)%N "node artifact identity mismatch" in
  Ok artifact.

(** [verify_package]. *)
Definition verify_package (node : option FsNode) : Result PackageManifest :=
  let! entries := entry_dir node "unsafe backup package path" in
  let! bytes := entry_file (dir_lookup entries "manifest.json") "unsafe backup package path" in
  let! package := from_json (A:=PackageManifest) bytes in
  let! _ := ensure (supported_package package) "unsupported backup package format" in
  let expected := "manifest.json" :: (package_dir ∘ pn_node_id <$> pm_nodes package) in
  let! _ := ensure (bool_decide (sort_by string_compare expected = sort_by string_compare entries.*1))
              "backup package inventory differs from manifest" in
  let! artifacts := mapR (verify_package_node entries) (pm_nodes package) in
  let! mp := validate_cluster_artifacts (pm_descriptor package) artifacts in
  let! first := ok_or (head artifacts) (Error_Config "unreachable") in
  let! _ := ensure ((pm_backup_id package =? na_backup_id first)%N && (pm_recovery_epoch package =? na_recovery_epoch first)%N &&
                    (pm_trust_generation package =? na_trust_generation first)%N &&
                    bool_decide (pm_trust_policy_digest package = na_trust_policy_digest first) &&
                    (pm_operation_id package =? mr_operation_id (na_maintenance first))%N &&
                    (pm_generation package =? mr_generation (na_maintenance first))%N &&
                    bool_decide (pm_meta package = mp.1) && bool_decide (pm_positions package = mp.2))
              "backup manifest differs from node artifacts" in
  Ok package.

(** The copying loop of [assemble]: the copy of an artifact is checked again. *)
Definition copy_artifact (fs : Fs) (source : FsPath * NodeArtifact) : Result ((string * FsNode) * PackageNode) :=
  let! files := match fs !! source.1 with Some (Fs_Dir files) => Ok files | _ => Err not_found end in
  let! _ := ok_or (walk (Fs_Dir files)) (Error_Config "backup contains a nonregular file") in
  let! copied := verify_node (Some (Fs_Dir files)) in
  let! _ := ensure (bool_decide (copied = source.2)) "copied node artifact changed" in
  let! bytes := entry_file (dir_lookup files NODE_MANIFEST) "is a directory" in
  let! d := sha256_file bytes in
  Ok ((package_dir (na_node_id source.2), Fs_Dir files), mkPackageNode (na_node_id source.2) d.2).

(** [assemble]. *)
Definition assemble (env : FsEnv) (desc : BootstrapDescriptor) (sources : list FsPath) (destination : FsPath) (trust : TrustSnapshot)
    : io Fs PackageManifest :=
  io_read (λ _, ensure (negb ((ts_generation trust =? 0)%N || bool_decide (ts_digest trust = replicate 32 x00) ||
                              bool_decide (ts_key_fingerprints trust = []))) "backup requires a current trust-policy snapshot") ;;?
  io_read (λ fs, ensure (bool_decide (fs !! destination = None)) "backup package destination already exists") ;;?
  let? artifacts := io_read (λ fs, mapR (λ source, verify_node (fs !! source)) sources) in
  let? mp := io_read (λ _, validate_cluster_artifacts desc artifacts) in
  let? first := io_read (λ _, ok_or (head artifacts) (Error_Config "unreachable")) in
  io_read (λ _, ensure ((na_trust_generation first =? ts_generation trust)%N &&
                        bool_decide (na_trust_policy_digest first = hex_bytes (ts_digest trust)))
                  "operator and node backup trust snapshots differ") ;;?
  with_stage env (package_stage destination.1 (na_backup_id first)) destination (λ fs,
    let! copies := mapR (copy_artifact fs) (zip sources artifacts) in
    let package := mkPackage FORMAT CARGO_PKG_VERSION PROTOCOL_VERSION STORAGE_FORMAT_VERSION DURABLE_RECORD_FORMAT_VERSION
      FORMAT_VERSION SEARCH_ENGINE_REVISION (na_backup_id first) (na_recovery_epoch first) desc
      (mr_operation_id (na_maintenance first)) (mr_generation (na_maintenance first)) mp.2 mp.1
      (ts_generation trust) (hex_bytes (ts_digest trust)) (ts_key_fingerprints trust)
      (sort_by (λ a b, (pn_node_id a ?= pn_node_id b)%N) copies.*2) in
    let tree := Fs_Dir (copies.*1 ++ [("manifest.json", Fs_File (to_json package))]) in
    let! verified := verify_package (Some tree) in
    Ok (tree, verified)).

(** ** The catalog *)

Definition valid_catalog (catalog : BackupCatalog) : bool :=
  (bc_format catalog =? FORMAT)%N &&
  strictly_ascending_by (λ a b, (ce_backup_id a ?= ce_backup_id b)%N) (bc_entries catalog).
(** [read_catalog]. *)
Definition read_catalog (node : option FsNode) : Result BackupCatalog :=
  match node with
  | None => Ok (mkCatalog FORMAT [])
  | Some (Fs_File contents) =>
      let! catalog := from_json (A:=BackupCatalog) contents in
      let! _ := ensure (valid_catalog catalog) "invalid backup catalog" in
      Ok catalog
  | Some _ => Err (Error_Config "unsafe backup catalog path")
  end.

Definition manifest_checksum (node : option FsNode) : Result string :=
  match node with
  | Some (Fs_Dir entries) =>
      let! bytes := entry_file (dir_lookup entries "manifest.json") "is a directory" in
      let! d := sha256_file bytes in Ok d.2
  | _ => Err not_found
  end.
Definition temporary_catalog (catalog_path : FsPath) (pid : N) : FsPath :=
  (catalog_path.1, "." +:+ catalog_path.2 +:+ "." +:+ pretty pid +:+ ".partial").

Definition catalog_lock (catalog_path : FsPath) : FsPath := (catalog_path.1, "." +:+ catalog_path.2 +:+ ".lock").
(** [record_backup], under the catalog lock, at the given time. The temporary
    file is renamed over the catalog; the file of the lock stays. *)
Definition record_backup (env : FsEnv) (pid now : N) (package_path catalog_path : FsPath) : io Fs CatalogEntry :=
  let? package := io_read (λ fs, verify_package (fs !! package_path)) in
  io_read (λ fs, match fs !! catalog_lock catalog_path with
                 | None | Some (Fs_File _) => Ok tt
                 | Some _ => Err (Error_Io "cannot open the catalog lock") end) ;;?
  io_modify (λ fs, match fs !! catalog_lock catalog_path with
                   | None => <[catalog_lock catalog_path := Fs_File []]> fs
                   | Some _ => fs end) ;;?
  let? catalog := io_read (λ fs, read_catalog (fs !! catalog_path)) in
  let? checksum := io_read (λ fs, manifest_checksum (fs !! package_path)) in
  match list_find (λ e, ce_backup_id e = pm_backup_id package) (bc_entries catalog) with
  | Some (_, existing) =>
      if bool_decide (ce_package_path existing = package_path) && bool_decide (ce_manifest_sha256 existing = checksum)
      then io_ret existing
      else io_err (Error_Config "backup ID already has a different catalog entry")
  | None =>
      let entry := mkCatalogEntry (pm_backup_id package) package_path checksum now in
      let entries := sort_by (λ a b, (ce_backup_id a ?= ce_backup_id b)%N) (bc_entries catalog ++ [entry]) in
      let temporary := temporary_catalog catalog_path pid in
      io_read (λ fs, ensure (bool_decide (fs !! temporary = None)) "destination already exists") ;;?
      λ fs,
      match fe_build env with
      | Some e => (remove_stage env temporary fs, Err e)
      | None =>
          match fe_publish env with
          | Some e => (remove_stage env temporary fs, Err e)
          | None =>
              let fs := <[catalog_path := Fs_File (to_json (mkCatalog (bc_format catalog) entries))]> fs in
              match fe_sync env with Some e => (fs, Err e) | None => (fs, Ok entry) end
          end
      end
  end.

(** [require_cataloged_package]. *)
Definition require_cataloged_package (fs : Fs) (package_path catalog_path : FsPath) : Result PackageManifest :=
  let! package := verify_package (fs !! package_path) in
  let! checksum := manifest_checksum (fs !! package_path) in
  let! catalog := read_catalog (fs !! catalog_path) in
  let! _ := ensure (existsb (λ e, (ce_backup_id e =? pm_backup_id package)%N && bool_decide (ce_package_path e = package_path) &&
                                  bool_decide (ce_manifest_sha256 e = checksum)) (bc_entries catalog))
              "backup has no matching verified catalog entry" in
  Ok package.

(** ** The recovery plan *)

(** [char::is_whitespace], and [str::trim] leaving nothing. *)
Definition is_whitespace (c : N) : bool :=
  ((9 <=? c) && (c <=? 13) || (8192 <=? c) && (c <=? 8202))%N || bool_decide (c ∈ [32; 133; 160; 5760; 8232; 8233; 8239; 8287; 12288]%N).
Definition trim_empty (s : string) : bool :=
  match utf8_chars (as_bytes s) with Some chars => forallb is_whitespace chars | None => false end.
Definition node_ids (package : PackageManifest) : list NodeId := pn_node_id <$> pm_nodes package.

(** [initialize_restore]; [entropy] is what the random source yields. A failed
    write leaves what it wrote. *)
Definition initialize_restore (env : FsEnv) (package_path catalog_path evidence_path plan_path : FsPath) (entropy : list N) : io Fs RecoveryPlan :=
  let? package := io_read (λ fs, require_cataloged_package fs package_path catalog_path) in
  let? bytes := io_read (λ fs, entry_file (fs !! evidence_path) "is a directory") in
  let? evidence := io_read (λ _, from_json (A:=FencingEvidence) bytes) in
  io_read (λ _, ensure (bool_decide (fv_cluster_id evidence = hex_u128 (bd_cluster_id (pm_descriptor package))) &&
                        bool_decide (fv_backup_id evidence = hex_u128 (pm_backup_id package)) &&
                        negb (trim_empty (fv_checked_by evidence)) && fv_old_processes_stopped evidence &&
                        fv_automatic_restart_disabled evidence && fv_old_peer_and_client_routes_isolated evidence)
                  "old deployment fencing attestation is incomplete") ;;?
  let? epoch := io_read (λ _,
    ok_or (snd <$> list_find (λ candidate, candidate ≠ 0%N ∧ candidate ≠ pm_recovery_epoch package) entropy) not_found) in
  let? minimum := io_read (λ _, ok_or (checked_add u64_max (pm_trust_generation package) 1) (Error_Config "trust generation exhausted")) in
  let? checksum := io_read (λ fs, manifest_checksum (fs !! package_path)) in
  let plan := mkPlan FORMAT (bd_cluster_id (pm_descriptor package)) (pm_backup_id package) epoch minimum (pm_trust_policy_digest package)
    (pm_prior_key_fingerprints package) checksum (hex_bytes (sha256 bytes)) (node_ids package) (pm_positions package) in
  io_read (λ fs, if bool_decide (fs !! plan_path = None) then Ok tt else Err (Error_Io "file exists")) ;;?
  λ fs,
  match fe_build env with
  | Some e => (<[plan_path := fe_partial env]> fs, Err e)
  | None =>
      let fs := <[plan_path := Fs_File (to_json plan)]> fs in
      match fe_sync env with Some e => (fs, Err e) | None => (fs, Ok plan) end
  end.

(** [checked_recovery_plan]. *)
Definition checked_recovery_plan (fs : Fs) (package_path plan_path : FsPath) : Result (PackageManifest * RecoveryPlan) :=
  let! bytes := entry_file (fs !! plan_path) "unsafe recovery record path" in
  let! package := verify_package (fs !! package_path) in
  let! plan := from_json (A:=RecoveryPlan) bytes in
  let mismatch := "recovery record does not match backup package" in
  let! _ := ensure ((rv_format plan =? FORMAT)%N && (rv_cluster_id plan =? bd_cluster_id (pm_descriptor package))%N &&
                    (rv_backup_id plan =? pm_backup_id package)%N && negb (rv_recovery_epoch plan =? 0)%N) mismatch in
  let! minimum := ok_or (checked_add u64_max (pm_trust_generation package) 1) (Error_Config "trust generation exhausted") in
  let! _ := ensure ((rv_minimum_trust_generation plan =? minimum)%N &&
                    bool_decide (rv_prior_trust_policy_digest plan = pm_trust_policy_digest package) &&
                    bool_decide (rv_prior_key_fingerprints plan = pm_prior_key_fingerprints package)) mismatch in
  let! checksum := manifest_checksum (fs !! package_path) in
  let! _ := ensure (bool_decide (rv_package_manifest_sha256 plan = checksum) &&
                    bool_decide (rv_nodes plan = node_ids package) && bool_decide (rv_recovery_point plan = pm_positions package)) mismatch in
  Ok (package, plan).

(** ** Restoring a node *)

Definition reset_consumer (c : SearchConsumerState) : SearchConsumerState :=
  mkConsumer (cs_definition_hash c) (cs_engine_revision c) None None true.

(** The operations [install_restored_epoch_offline] adds for a hosted group. *)
Definition restore_group_ops s (epoch : N) (group : GroupId) : Result (list BatchOp) :=
  if negb (group_exists s group) then Ok [] else
  let! applied := recovered_raft_applied s group in
  let! applied := ok_or applied (Error_Config "restored group has no Raft applied position") in
  let! log := rebase_restored_log group s applied in
  let! cf := state_cf s group in
  let! consumers := if is_data group then search_consumers s group else Ok [] in
  Ok (log ++ BatchPut cf recovery_epoch_key (encode (A:=U128) epoch) ::
      ((λ kc, BatchPut DEFAULT_CF kc.1 (encode (reset_consumer kc.2))) <$> consumers)).
(** [Storage::install_restored_epoch_offline]. *)
Definition install_restored_epoch_offline (epoch partition_count : N) : io (Storage D) unit :=
  let? local := io_read (λ s, if (epoch =? 0)%N then Ok 0%N else local_recovery_epoch s) in
  if (epoch =? 0)%N || (epoch =? local)%N then io_err (Error_Config "restore requires a new nonzero recovery epoch") else
  let? ops := io_read (λ s, mapR (restore_group_ops s epoch) (all_groups partition_count)) in
  io_modify (λ s, set_db (write (st_db s)
    ([BatchPut DEFAULT_CF local_recovery_epoch_key (encode (A:=U128) epoch);
      BatchPut DEFAULT_CF local_restored_epoch_key (encode (A:=U128) epoch)] ++ concat ops)) s).

(** [check_restore_space]. *)
Definition check_restore_space (bytes available : N) : Result unit :=
  let! required := ok_or (checked_add u64_max bytes (bytes / 10)) (Error_Config "restore size overflow") in
  ensure (required <=? available)%N "insufficient free space for restored database".
(** The sum of the sizes of the files. *)
Fixpoint restore_bytes (sum : N) (files : list FileDigest) : Result N :=
  match files with
  | [] => Ok sum
  | file :: files => let! sum := ok_or (checked_add u64_max sum (fd_bytes file)) (Error_Config "restore size overflow") in restore_bytes sum files
  end.
Definition package_node (fs : Fs) (package_path : FsPath) (node_id : NodeId) : option FsNode :=
  match fs !! package_path with Some (Fs_Dir entries) => dir_lookup entries (package_dir node_id) | _ => None end.

(** [restore_inventory]. *)
Definition restore_inventory (fs : Fs) (available : N) (package_path plan_path : FsPath) (node_id : NodeId) (destination : FsPath)
    : Result RestoreInventory :=
  let! pp := checked_recovery_plan fs package_path plan_path in
  let! _ := ensure (bool_decide (node_id ∈ node_ids pp.1)) "node is absent from the recovery package" in
  let! _ := ensure (bool_decide (fs !! destination = None)) "restore destination already exists" in
  let! artifact := verify_node (package_node fs package_path node_id) in
  let! bytes := restore_bytes 0 (na_files artifact) in
  let! _ := check_restore_space bytes available in
  Ok (mkRestoreInventory node_id (length (na_files artifact)) bytes (rv_recovery_epoch pp.2)).

Definition strip_db (file : FileDigest) : Result FileDigest :=
  match fd_path file with
  | String c1 (String c2 (String c3 path)) =>
      if bool_decide (String c1 (String c2 (String c3 "")) = "db/") then Ok (mkFileDigest path (fd_bytes file) (fd_sha256 file))
      else Err (Error_Config "unsafe node artifact path")
  | _ => Err (Error_Config "unsafe node artifact path")
  end.

(** The store of a restored directory before its epoch is installed: the copy
    is compared with the manifest, opened and checked. *)
Definition open_restored (epoch now : N) (package : PackageManifest) (plan : RecoveryPlan) (node_id : NodeId) (tree : option FsNode)
    : Result (list (string * FsNode) * Storage D) :=
  let! entries := match tree with Some (Fs_Dir entries) => Ok entries | _ => Err not_found end in
  let! db := match dir_lookup entries "db" with Some (Fs_Dir db) => Ok db | _ => Err not_found end in
  let! expected := verify_node tree in
  let! copied := digest_tree [] db in
  let! files := mapR strip_db (na_files expected) in
  let! _ := ensure (bool_decide (sort_digests copied = sort_digests files)) "restored database copy failed checksum verification" in
  let! d := ok_or (db_open_dir db) (Error_Io "cannot open database") in
  let '(s, r) := open_with_limits epoch now ApplyDurabilityLimits_default d in
  let! _ := r in
  let! id := identity s in
  let! id := ok_or id (Error_Config "restored node identity missing") in
  let! _ := ensure ((id_cluster_id id =? rv_cluster_id plan)%N && (id_node_id id =? node_id)%N) "restored node identity mismatch" in
  let! fence := get_local MaintenanceRecord s maintenance_fence_key in
  let! fence := ok_or fence (Error_Config "restored maintenance fence missing") in
  let! _ := ensure ((mr_operation_id fence =? pm_operation_id package)%N && (mr_generation fence =? pm_generation package)%N &&
                    bool_decide (mr_stage fence = MaintenanceStage_Quiesced)) "restored maintenance fence mismatch" in
  Ok (db, s).

(** What [restore_node] builds: the closed database and the restore marker. *)
Definition build_restored (epoch now : N) (package : PackageManifest) (plan : RecoveryPlan) (node_id : NodeId) (tree : option FsNode)
    : Result FsNode :=
  let! ds := open_restored epoch now package plan node_id tree in
  match install_restored_epoch_offline (rv_recovery_epoch plan) (cc_p (bd_config (pm_descriptor package))) ds.2 with
  | (s, Ok _) => Ok (Fs_Dir (dir_put (db_close ds.1 (st_db s)) RESTORE_MARKER (Fs_File (to_json plan))))
  | (_, Err e) => Err e
  end.

(** [restore_node]; [epoch] and [now] are what opening the copy reads of its
    process, as in [open_with_limits]. *)
Definition restore_node (env : FsEnv) (epoch now available : N) (package_path plan_path : FsPath) (node_id : NodeId)
    (destination : FsPath) : io Fs RestoreInventory :=
  let? inventory := io_read (λ fs, restore_inventory fs available package_path plan_path node_id destination) in
  let? pp := io_read (λ fs, checked_recovery_plan fs package_path plan_path) in
  with_stage env (restore_stage destination.1 (rv_recovery_epoch pp.2) node_id) destination (λ fs,
    let! tree := build_restored epoch now pp.1 pp.2 node_id (package_node fs package_path node_id) in
    Ok (tree, inventory)).

(** The loop of [validate_restored_node] over the groups. *)
Fixpoint check_restored_epochs s (epoch : N) (groups : list GroupId) : Result unit :=
  match groups with
  | [] => Ok tt
  | group :: groups =>
      let! stale :=
        if group_exists s group then
          let! applied := raft_applied_position s group in
          match applied with
          | Some _ => let! e := Storage.recovery_epoch s group in Ok (negb (e =? epoch)%N)
          | None => Ok false
          end
        else Ok false in
      if (stale : bool) then Err (Error_Config "restored group recovery epoch mismatch") else check_restored_epochs s epoch groups
  end.
(** [validate_restored_node]; [marker] is what lies at the path of the restore marker. *)
Definition validate_restored_node s (marker : option FsNode) (cluster_id : N) (node_id : NodeId) (partition_count : N)
    (trust : option TrustSnapshot) : Result unit :=
  let! epoch := local_recovery_epoch s in
  let! restored := get_local U128 s local_restored_epoch_key in
  match restored with
  | None => ensure (match marker with None => true | Some _ => false end) "restore marker exists without offline restore provenance"
  | Some restored =>
      let! _ := ensure (negb (epoch =? 0)%N && (restored =? epoch)%N) "offline restore epoch mismatch" in
      let! bytes := entry_file marker "unsafe restore marker path" in
      let! plan := from_json (A:=RecoveryPlan) bytes in
      let! _ := ensure ((rv_format plan =? FORMAT)%N && (rv_cluster_id plan =? cluster_id)%N && bool_decide (node_id ∈ rv_nodes plan) &&
                        (rv_recovery_epoch plan =? epoch)%N) "restored node marker identity or epoch mismatch" in
      let! _ := check_restored_epochs s epoch (all_groups partition_count) in
      let! trust := ok_or trust (Error_Config "restored node requires secure startup") in
      ensure (negb ((ts_generation trust <? rv_minimum_trust_generation plan)%N ||
                    bool_decide (hex_bytes (ts_digest trust) = rv_prior_trust_policy_digest plan) ||
                    existsb (λ f, bool_decide (f ∈ rv_prior_key_fingerprints plan)) (ts_key_fingerprints trust)))
        "restored node requires a newer trust policy excluding old credentials"
  end.
End backup.
