(* ===== verification/BackupProofs.v ===== *)
(** * Correctness of backup and restore

    A package that verifies is one consistent recovery point of the whole
    cluster. Restoring a node publishes all of its database under the new
    recovery epoch or publishes nothing, and the node that starts on it holds the
    state of the package and accepts only credentials newer than the backup's. *)

From S2P Require Import Prelude SortBy BTree Types Config Codec SearchDef Keyspace Outbox MetaTypes ApplyDurability Aio Rocks Storage Startup DataSM SearchStore ApplyRaft LogStore MetaSM Bootstrap Backup.

Lemma ensure_ok b msg u : ensure b msg = Ok u ↔ b = true.
Proof. destruct b; cbn; destruct u; naive_solver. Qed.
Lemma entry_dir_ok node msg l : entry_dir node msg = Ok l ↔ node = Some (Fs_Dir l).
Proof. destruct node as [[]|]; cbn; naive_solver. Qed.
Lemma entry_file_ok node msg b : entry_file node msg = Ok b ↔ node = Some (Fs_File b).
Proof. destruct node as [[]|]; cbn; naive_solver. Qed.

Lemma mapR_succeeds {A B} (f : A → Result B) l : Forall (λ x, ∃ y, f x = Ok y) l → ∃ ys, mapR f l = Ok ys.
Proof. induction 1 as [|x l [y Hy] _ [ys IH]]; [by exists []|]. exists (y :: ys). cbn. rewrite Hy. cbn. by rewrite IH. Qed.

(** Take a successful chain of checks apart. *)
Ltac oks H :=
  repeat match type of H with
  | rbind _ _ = Ok _ => let x := fresh "x" in let Hx := fresh "Hx" in apply rbind_ok in H as (x & Hx & H)
  end.
Ltac ensured :=
  repeat match goal with
  | H : ensure _ _ = Ok _ |- _ => apply ensure_ok in H
  | H : ok_or _ _ = Ok _ |- _ => apply ok_or_ok in H
  | H : entry_dir _ _ = Ok _ |- _ => apply entry_dir_ok in H
  | H : entry_file _ _ = Ok _ |- _ => apply entry_file_ok in H
  end.

(** ** A verified package *)

Section package.
Context `{Hashes} `{!Json NodeArtifact, !Json PackageManifest}.

(** The artifacts of one backup of the whole cluster at its frozen placement. *)
Record recovery_point (desc : BootstrapDescriptor) (artifacts : list NodeArtifact) (first : NodeArtifact) (meta : MetaInventory)
    (positions : list GroupPosition) : Prop := {
  rc_nodup : NoDup (na_node_id <$> artifacts);
  rc_participants : na_node_id <$> artifacts ≡ₚ mr_participants (na_maintenance first);
  rc_active : na_node_id <$> artifacts ≡ₚ nd_node_id <$> filter (λ e, nd_state e = NodeState_Active) (mv_directory meta);
  rc_same a : a ∈ artifacts → na_backup_id a = na_backup_id first ∧ na_cluster_id a = bd_cluster_id desc ∧
    na_recovery_epoch a = na_recovery_epoch first ∧ mr_stage (na_maintenance a) = MaintenanceStage_Quiesced ∧
    mr_operation_id (na_maintenance a) = mr_operation_id (na_maintenance first) ∧
    mr_generation (na_maintenance a) = mr_generation (na_maintenance first);
  rc_config : mv_cluster meta = bd_config desc;
  rc_meta : ∃ p, (GroupId_Meta, p) ∈ mv_placements meta ∧
    ∀ v, v ∈ pl_voters p → ∃ a, a ∈ artifacts ∧ na_node_id a = v ∧ na_meta a = Some meta;
  rc_groups : Forall2 (λ gp pos, gp_group pos = gp.1 ∧ pl_move gp.2 = None ∧ pl_voters gp.2 ≠ [] ∧
    ∀ v, v ∈ pl_voters gp.2 → ∃ a, a ∈ artifacts ∧ na_node_id a = v ∧ pos ∈ na_positions a) (mv_placements meta) positions;
}.

Lemma find_artifact_ok artifacts v a : find_artifact artifacts v = Some a → a ∈ artifacts ∧ na_node_id a = v.
Proof.
  unfold find_artifact. destruct (list_find _ _) as [[i x]|] eqn:E; [|done]. intros [= <-].
  apply list_find_Some in E as (Hi & Hv & _). split; [by eapply list_elem_of_lookup_2|done].
Qed.

Lemma check_meta_voters_ok artifacts meta voters u : check_meta_voters artifacts meta voters = Ok u →
  ∀ v, v ∈ voters → ∃ a, a ∈ artifacts ∧ na_node_id a = v ∧ na_meta a = Some meta.
Proof.
  induction voters as [|n voters IH]; cbn [check_meta_voters]; intros E v; [by intros ?%elem_of_nil|].
  oks E. ensured. apply bool_decide_eq_true in Hx0. apply find_artifact_ok in Hx as [? ?].
  intros [->|Hv]%elem_of_cons; [by exists x|by apply IH].
Qed.

Lemma agreed_position_ok artifacts group voters : ∀ o r, agreed_position artifacts group o voters = Ok r →
  (∀ p, o = Some p → r = Some p) ∧ ∀ v, v ∈ voters → ∃ a p, a ∈ artifacts ∧ na_node_id a = v ∧ r = Some p ∧ mkGroupPosition group p ∈ na_positions a.
Proof.
  induction voters as [|n voters IH]; cbn [agreed_position]; intros o r E.
  { injection E as <-. split; [done|]. intros v Hv. by apply elem_of_nil in Hv. }
  oks E. ensured. apply find_artifact_ok in Hx as [Ha Hn].
  destruct (list_find _ _) as [[i q]|] eqn:Eq; [|done]. injection Hx0 as ->.
  apply list_find_Some in Eq as (Hi & Hg & _). destruct (IH _ _ E) as [Hsame Hall]. specialize (Hsame _ eq_refl). split.
  - intros p ->. apply bool_decide_eq_true in Hx1. congruence.
  - intros v [->|Hv]%elem_of_cons; [|by apply Hall]. exists x, (gp_applied x0). split_and!; [done..|].
    rewrite <-Hg. destruct x0; cbn in *. by eapply list_elem_of_lookup_2.
Qed.

Lemma validate_cluster_artifacts_ok desc artifacts meta positions : validate_cluster_artifacts desc artifacts = Ok (meta, positions) →
  ∃ first, head artifacts = Some first ∧ recovery_point desc artifacts first meta positions.
Proof.
  intros E. unfold validate_cluster_artifacts in E. oks E. injection E as -> ->. ensured. bools. exists x. split; [done|].
  repeat match goal with Hb : bool_decide _ = true |- _ => apply bool_decide_eq_true in Hb end.
  destruct (list_find _ (mv_placements meta)) as [[i [g p]]|] eqn:Ep; [|done]. injection Hx6 as <-.
  apply list_find_Some in Ep as (Hi & Hg & _). cbn in Hg. subst g.
  match goal with Hf : forallb _ artifacts = true |- _ => rename Hf into Hsame end.
  match goal with Hp : sort_unstable _ = mr_participants _ |- _ => rename Hp into Hpart end.
  match goal with Hp : sort_unstable (nd_node_id <$> _) = _ |- _ => rename Hp into Hact end.
  match goal with Hn : NoDup (sort_unstable _) |- _ => rename Hn into Hnd end.
  constructor.
  - by rewrite <-(sort_unstable_perm (na_node_id <$> artifacts)).
  - by rewrite <-Hpart, sort_unstable_perm.
  - by rewrite <-(sort_unstable_perm (nd_node_id <$> _)), Hact, sort_unstable_perm.
  - intros a Ha. rewrite forallb_forall in Hsame. specialize (Hsame a (proj1 (list_elem_of_In _ _) Ha)).
    unfold same_backup in Hsame. bools. repeat match goal with
      | Hb : bool_decide _ = true |- _ => apply bool_decide_eq_true in Hb | Hb : (_ =? _)%N = true |- _ => apply N.eqb_eq in Hb end.
    done.
  - done.
  - exists p. split; [by eapply list_elem_of_lookup_2|]. by eapply check_meta_voters_ok.
  - apply mapR_ok in Hx8. eapply Forall2_impl; [exact Hx8|]. intros gp pos Ef. unfold frozen_position in Ef. oks Ef. ensured. bools.
    injection Ef as <-. match goal with Hp : agreed_position _ _ _ _ = _ |- _ => apply agreed_position_ok in Hp as [_ Hall] end. split_and!; [done..|].
    intros v (a & q & ? & ? & Eq & ?)%Hall. exists a. split_and!; [done..|]. congruence.
Qed.

(** An artifact of the package as it lies in its directory: every file of the
    database is listed with its size and checksum, and nothing else is. *)
Definition stored_artifact (entries : list (string * FsNode)) (node : PackageNode) (a : NodeArtifact) : Prop :=
  na_node_id a = pn_node_id node ∧ ∃ files db digests,
    dir_lookup entries (package_dir (pn_node_id node)) = Some (Fs_Dir files) ∧ files.*1 ≡ₚ ["db"; NODE_MANIFEST] ∧
    dir_lookup files "db" = Some (Fs_Dir db) ∧ digest_tree ["db"] db = Ok digests ∧ na_files a ≡ₚ digests ∧
    Forall (λ f, safe_path (fd_path f) = true) (na_files a).

Lemma verify_node_ok node a : verify_node node = Ok a → ∃ files db digests,
  node = Some (Fs_Dir files) ∧ files.*1 ≡ₚ ["db"; NODE_MANIFEST] ∧ dir_lookup files "db" = Some (Fs_Dir db) ∧
  digest_tree ["db"] db = Ok digests ∧ na_files a ≡ₚ digests ∧ Forall (λ f, safe_path (fd_path f) = true) (na_files a).
Proof.
  intros E. unfold verify_node in E. oks E. injection E as ->. ensured. exists x, x0, x6.
  repeat match goal with Hb : bool_decide _ = true |- _ => apply bool_decide_eq_true in Hb end.
  split_and!; [done| |done|done| |].
  - rewrite <-Hx2. symmetry. apply sort_by_perm.
  - transitivity (sort_digests (na_files a)); [symmetry; apply sort_by_perm|rewrite Hx8; apply sort_by_perm].
  - apply Forall_forall. rewrite forallb_forall in Hx7. intros f Hf. by apply Hx7, list_elem_of_In.
Qed.

(** C18: a package that verifies is one recovery point of the whole cluster. Its
    directories are those of the listed nodes; each holds a database whose every
    file is listed with its size and checksum in the artifact of the node. The
    artifacts are of one backup of one cluster in one recovery epoch, taken while
    every participant was quiesced by the same operation, and the participants
    are exactly the active nodes of the frozen directory; no group is moving, all
    voters of a group stopped at the position the package records for it, and all
    meta voters hold the inventory the package records. *)
Theorem verified_package_consistent node package : verify_package node = Ok package →
  ∃ entries artifacts first, node = Some (Fs_Dir entries) ∧
    entries.*1 ≡ₚ "manifest.json" :: (package_dir ∘ pn_node_id <$> pm_nodes package) ∧
    Forall2 (stored_artifact entries) (pm_nodes package) artifacts ∧ head artifacts = Some first ∧
    na_backup_id first = pm_backup_id package ∧ na_recovery_epoch first = pm_recovery_epoch package ∧
    recovery_point (pm_descriptor package) artifacts first (pm_meta package) (pm_positions package).
Proof.
  intros E. unfold verify_package in E. oks E. injection E as ->. ensured. bools.
  repeat match goal with
    | Hb : bool_decide _ = true |- _ => apply bool_decide_eq_true in Hb | Hb : (_ =? _)%N = true |- _ => apply N.eqb_eq in Hb end.
  destruct x5 as [meta positions]. cbn [fst snd] in *. match goal with Hv : validate_cluster_artifacts _ _ = _ |- _ => apply validate_cluster_artifacts_ok in Hv as (first & Hf & Hrc) end.
  assert (x6 = first) as -> by congruence. exists x, x4, first. split_and!; [done| | |done|done|done|by subst].
  - transitivity (sort_by string_compare x.*1); [symmetry; apply sort_by_perm|rewrite <-Hx3; apply sort_by_perm].
  - apply mapR_ok in Hx4. eapply Forall2_impl; [exact Hx4|]. intros n a Ea. unfold verify_package_node in Ea. oks Ea. injection Ea as ->.
    ensured. split; [by apply N.eqb_eq|].
    match goal with Hv : verify_node _ = _ |- _ => apply verify_node_ok in Hv as (files & db & digests & ? & ?) end. by exists files, db, digests.
Qed.
End package.

(** ** A copied database *)

Lemma insert_by_fmap {A B} (f : A → B) cmp cmp' x l : (∀ a b, cmp' (f a) (f b) = cmp a b) →
  insert_by cmp' (f x) (f <$> l) = f <$> insert_by cmp x l.
Proof. intros Hf. induction l as [|y l IH]; cbn; [done|]. rewrite Hf. destruct (cmp x y); cbn; by rewrite ?IH. Qed.
Lemma sort_by_fmap {A B} (f : A → B) cmp cmp' l : (∀ a b, cmp' (f a) (f b) = cmp a b) → sort_by cmp' (f <$> l) = f <$> sort_by cmp l.
Proof. intros Hf. induction l as [|x l IH]; cbn; [done|]. fold (sort_by cmp' (f <$> l)). rewrite IH. by apply insert_by_fmap. Qed.

Lemma walk_cons name node entries : walk (Fs_Dir ((name, node) :: entries)) =
  files ← walk node; rest ← walk (Fs_Dir entries); Some (((λ f, (name :: f.1, f.2)) <$> files) ++ rest).
Proof. done. Qed.
Lemma walk_nonempty entries files : walk (Fs_Dir entries) = Some files → Forall (λ f, f.1 ≠ []) files.
Proof.
  revert files. induction entries as [|[name node] entries IH]; intros files; [intros [= <-]; constructor|]. rewrite walk_cons.
  destruct (walk node) as [l|]; [|done]. destruct (walk (Fs_Dir entries)) as [rest|]; [|done]. intros [= <-]. apply Forall_app. split; [|by apply IH].
  apply Forall_fmap, Forall_true. intros [? ?]. cbn. done.
Qed.

Section copied.
Context `{Hashes}.

(** The entry of a file of a copied database in the manifest of its artifact. *)
Definition under_db (f : FileDigest) : FileDigest := mkFileDigest ("db/" +:+ fd_path f) (fd_bytes f) (fd_sha256 f).

Lemma strip_under_db f : strip_db (under_db f) = Ok f.
Proof. by destruct f. Qed.

Lemma string_compare_db a b : string_compare ("db/" +:+ a) ("db/" +:+ b) = string_compare a b.
Proof. unfold string_compare. rewrite !as_bytes_app. done. Qed.

Lemma sort_under_db l : sort_digests (under_db <$> l) = under_db <$> sort_digests l.
Proof. apply sort_by_fmap. intros a b. apply string_compare_db. Qed.

Lemma relative_under_db f x : f.1 ≠ [] → relative_file_digest ("db" :: f.1, f.2) = Ok x →
  ∃ y, relative_file_digest f = Ok y ∧ x = under_db y.
Proof.
  intros Hf E. unfold relative_file_digest in *. oks E. injection E as <-. apply ok_or_ok in Hx. cbn [fst snd] in *.
  assert (String.concat "/" ("db" :: f.1) = "db/" +:+ String.concat "/" f.1) as Ec by (by destruct (f.1)). rewrite Ec in Hx.
  assert (from_utf8 (as_bytes (String.concat "/" f.1)) = Some (String.concat "/" f.1) ∧ x0 = "db/" +:+ String.concat "/" f.1) as [-> ->].
  { revert Hx. unfold from_utf8, utf8_valid. case_bool_decide as Hu; [|done]. intros [= <-].
    rewrite bool_decide_true.
    - split; [f_equal|]; apply String.string_of_list_byte_of_string.
    - revert Hu. rewrite as_bytes_app. cbn. destruct (utf8_chars (as_bytes (String.concat "/" f.1))); [by eexists|by intros [? [=]]]. }
  cbn. rewrite Hx0. cbn. by eexists.
Qed.

Lemma digest_tree_under_db db ds : digest_tree ["db"] db = Ok ds → ∃ ds', digest_tree [] db = Ok ds' ∧ ds = under_db <$> ds'.
Proof.
  unfold digest_tree. intros (files & Hf & E)%rbind_ok. rewrite Hf. cbn [rbind app].
  assert (Forall (λ f, f.1 ≠ []) files) as Hne.
  { unfold regular_files in Hf. oks Hf. injection Hf as <-. apply ok_or_ok in Hx as Hx%walk_nonempty. by rewrite sort_by_perm. }
  apply mapR_ok in E. clear Hf. induction E as [|f x files ds Hx _ IH]; [by exists []|]. apply Forall_cons in Hne as [Hf Hne].
  destruct (relative_under_db f x Hf Hx) as (y & Hy & ->). destruct (IH Hne) as (ds' & E & ->). exists (y :: ds').
  split; [|done]. cbn. rewrite <-surjective_pairing, Hy. cbn. by rewrite E.
Qed.

(** The checksums of a faithful copy are those its artifact lists. *)
Lemma copy_verifies db ds files : digest_tree ["db"] db = Ok ds → sort_digests files = sort_digests ds →
  ∃ copied files', digest_tree [] db = Ok copied ∧ mapR strip_db files = Ok files' ∧ sort_digests copied = sort_digests files'.
Proof.
  intros (copied & E & ->)%digest_tree_under_db Hs. assert (files ≡ₚ under_db <$> copied) as Hp.
  { transitivity (sort_digests files); [symmetry; apply sort_by_perm|rewrite Hs; apply sort_by_perm]. }
  assert (∃ files', files = under_db <$> files') as [files' ->].
  { assert (Forall (λ f, ∃ y, f = under_db y) files) as Hall.
    { rewrite Hp. apply Forall_fmap, Forall_true. intros y. by exists y. }
    clear -Hall. induction Hall as [|f l [y ->] _ [l' ->]]; [by exists []|by exists (y :: l')]. }
  exists copied, files'. split_and!; [done| |].
  - apply mapR_ok. rewrite Forall2_fmap_l. apply Forall_Forall2_diag, Forall_true. apply strip_under_db.
  - rewrite !sort_under_db in Hs. apply (list_fmap_eq_inj under_db) in Hs; [done|]. intros x y E'%(f_equal strip_db). rewrite !strip_under_db in E'. by injection E'.
Qed.
End copied.

(** ** The restored epoch *)

Section restored.
Context `{RocksOk D} `{!DbFiles D} `{Hashes} `{!Codec U64, !Codec U128, !Codec string, !Codec LogId, !Codec Identity, !Codec ServingState}
  `{!Codec ClusterConfig, !Codec NodeDirectoryEntry, !Codec MaintenanceRecord, !Codec Placement, !Codec SearchIndexRecord}
  `{!Codec RaftApplied, !Codec RaftLogId, !Codec (option RaftLogId), !Codec SearchConsumerState}
  `{!Json NodeArtifact, !Json PackageManifest, !Json RecoveryPlan, !Json FencingEvidence, !Json BackupCatalog}.
Implicit Types (s : Storage D) (d : D).

Lemma restore_group_ops_ok s epoch g ops : restore_group_ops s epoch g = Ok ops →
  group_exists s g = false ∧ ops = [] ∨
  group_exists s g = true ∧ ∃ applied cf consumers, recovered_raft_applied s g = Ok (Some applied) ∧ state_cf s g = Ok cf ∧
    (if is_data g then search_consumers s g else Ok []) = Ok consumers ∧
    ops = [BatchDeleteRange (cf_log g) [ENTRY_PREFIX] [ENTRY_PREFIX_END]; BatchPut (cf_log g) KEY_PURGED (encode applied);
           BatchPut (cf_log g) KEY_COMMITTED (encode (Some applied)); BatchPut cf recovery_epoch_key (encode (A:=U128) epoch)] ++
          ((λ kc, BatchPut DEFAULT_CF kc.1 (encode (reset_consumer kc.2))) <$> consumers).
Proof.
  unfold restore_group_ops. destruct (group_exists s g); cbn [negb]; [|intros [= <-]; by left]. intros E. right. split; [done|].
  oks E. injection E as <-. unfold rebase_restored_log, log_cf in Hx1. destruct (cf_exists (st_db s) (cf_log g)); [|done].
  injection Hx1 as <-. apply ok_or_ok in Hx0 as ->. by exists x0, x2, x3.
Qed.

(** What an operation of [restore_group_ops] may touch. *)
Definition restore_op s (g : GroupId) (op : BatchOp) : Prop :=
  op_cf op = cf_log g ∨ state_cf s g = Ok (op_cf op) ∨
  ∃ k v, op = BatchPut DEFAULT_CF k v ∧ starts_with (search_consumer_prefix g) k = true.

Lemma search_consumers_keys s g consumers k c : search_consumers s g = Ok consumers →
  (k, c) ∈ consumers ↔ ∃ v, starts_with (search_consumer_prefix g) k = true ∧ db_get (st_db s) k = Some v ∧ decode v = Ok c.
Proof.
  intros E%mapR_ok. setoid_rewrite starts_with_spec. split.
  - intros [i Hi]%list_elem_of_lookup. destruct (Forall2_lookup_r _ _ _ _ _ E Hi) as ([k' v] & Hk & E'). oks E'. injection E' as <- <-.
    apply list_elem_of_lookup_2, elem_of_scan_prefix in Hk as [? ?]. by exists v.
  - intros (v & Hp & Hv & Hd). assert ((k, v) ∈ scan_prefix (st_db s) DEFAULT_CF (search_consumer_prefix g)) as [i Hi]%list_elem_of_lookup
      by (by apply elem_of_scan_prefix).
    destruct (Forall2_lookup_l _ _ _ _ _ E Hi) as ([k' c'] & Hk & E'). cbn in E'. rewrite Hd in E'. injection E' as <- <-.
    by eapply list_elem_of_lookup_2.
Qed.

Lemma restore_group_ops_own s epoch g ops : restore_group_ops s epoch g = Ok ops → Forall (restore_op s g) ops.
Proof.
  intros [[_ ->]|(_ & applied & cf & consumers & _ & Hcf & Hc & ->)]%restore_group_ops_ok; [constructor|].
  cbn [app]. repeat (apply Forall_cons; split; [first [by left|by right; left]|]). apply Forall_fmap, Forall_forall. intros [k c] Hin. right; right.
  eexists _, _. split; [done|]. destruct (is_data g); [|injection Hc as <-; by apply elem_of_nil in Hin].
  by apply (search_consumers_keys _ _ _ _ _ Hc) in Hin as (v & ? & _).
Qed.

(** In a batch of one part per group, a key that only one group can touch is decided by its part. *)
Lemma batch_get_parts {A} (P : A → BatchOp → Prop) (gs : list A) parts cf k g ops o : NoDup gs → Forall2 (λ g ops, Forall (P g) ops) gs parts →
  (∀ h op, h ≠ g → P h op → ¬ op_touches op cf k) → (g, ops) ∈ zip gs parts → batch_get cf k (concat parts) o = batch_get cf k ops o.
Proof.
  intros Hnd Hf Hne. revert o. induction Hf as [|h part gs parts Hp Hf IH]; intros o Hin; [by apply elem_of_nil in Hin|]; cbn [concat zip_with] in *.
  apply NoDup_cons in Hnd as [Hh Hnd]. rewrite batch_get_app. apply elem_of_cons in Hin as [[= <- <-]|Hin].
  - apply batch_get_untouched. apply Forall_concat. apply Forall_forall. intros part' [j Hj]%list_elem_of_lookup.
    destruct (Forall2_lookup_r _ _ _ _ _ Hf Hj) as (h' & Hh' & Hp'). eapply Forall_impl; [exact Hp'|]. intros op Hop. apply (Hne h'); [|done].
    intros ->. by apply Hh, list_elem_of_lookup_2 with j.
  - rewrite (batch_get_untouched _ _ part); [by apply IH|]. eapply Forall_impl; [exact Hp|]. intros op Hop. apply (Hne h); [|done].
    intros ->. apply Hh. apply list_elem_of_lookup in Hin as [j Hj]. apply lookup_zip_with_Some in Hj as (x & y & [= <- <-] & Hx & _).
    by eapply list_elem_of_lookup_2.
Qed.

Lemma batch_get_puts {A} cf (f : A → bytes) (l : list (bytes * A)) k c o : (∀ c', (k, c') ∈ l → c' = c) → (k, c) ∈ l →
  batch_get cf k ((λ kc, BatchPut cf kc.1 (f kc.2)) <$> l) o = Some (f c).
Proof.
  revert o. induction l as [|[k' c'] l IH] using rev_ind; intros o Hu Hin; [by apply elem_of_nil in Hin|].
  rewrite fmap_app, batch_get_app. cbn. case_decide as E.
  - destruct E as [_ ->]. f_equal. f_equal. apply Hu. apply elem_of_app. right. by left.
  - apply IH; [intros ? ?; apply Hu, elem_of_app; by left|]. apply elem_of_app in Hin as [|Hin%list_elem_of_singleton]; [done|]. naive_solver.
Qed.

Lemma all_groups_nodup p : NoDup (all_groups p).
Proof.
  constructor; [intros (i & [=] & _)%list_elem_of_fmap|]. apply NoDup_fmap_2; [|apply NoDup_seq]. intros i j [= E]. lia.
Qed.

Lemma own_state s g h cf k op : cache_ok s → state_cf s g = Ok cf → h ≠ g → restore_op s h op → ¬ op_touches op cf k.
Proof.
  intros Hc Hcf Hne Hop Ht%op_touches_cf. destruct (state_cf_valid s g cf Hc Hcf) as [Hv _].
  destruct Hop as [E|[E|(k' & v & -> & _)]].
  - eapply valid_cf_name_log; [exact Hv|]. by rewrite <-E, Ht.
  - rewrite Ht in E. destruct (state_cf_valid s h cf Hc E) as [Hv' _]. apply Hne. by eapply valid_cf_name_inj.
  - eapply valid_cf_name_default; [exact Hv|]. by rewrite <-Ht.
Qed.

Lemma own_log s g h k op : cache_ok s → h ≠ g → restore_op s h op → ¬ op_touches op (cf_log g) k.
Proof.
  intros Hc Hne Hop Ht%op_touches_cf. destruct Hop as [E|[E|(k' & v & -> & _)]].
  - apply Hne. apply (belongs_inj h g (cf_log g)); apply belongs_cases; left; congruence.
  - rewrite Ht in E. destruct (state_cf_valid s h _ Hc E) as [Hv _]. by eapply valid_cf_name_log.
  - done.
Qed.

Lemma consumer_search g k : starts_with (search_consumer_prefix g) k = true → starts_with (search_prefix g) k = true.
Proof. rewrite !starts_with_spec. unfold search_consumer_prefix. intros [q ->]. eexists. by rewrite <-(assoc_L (++)). Qed.

Lemma own_search s g h k op : cache_ok s → starts_with (search_prefix g) k = true → h ≠ g → restore_op s h op →
  ¬ op_touches op DEFAULT_CF k.
Proof.
  intros Hc Hk Hne Hop Ht. destruct Hop as [E|[E|(k' & v & -> & Hs)]].
  - apply op_touches_cf in Ht. rewrite E in Ht. done.
  - apply op_touches_cf in Ht. rewrite Ht in E. destruct (state_cf_valid s h _ Hc E) as [Hv _]. by eapply valid_cf_name_default.
  - destruct Ht as [_ ->]. apply Hne. by eapply search_prefix_inj; [apply consumer_search|].
Qed.

(** No operation of a restore touches a default key outside the consumer records. *)
Lemma own_local s h k op : cache_ok s → (∀ g, starts_with (search_consumer_prefix g) k = false) → restore_op s h op →
  ¬ op_touches op DEFAULT_CF k.
Proof.
  intros Hc Hk Hop Ht. destruct Hop as [E|[E|(k' & v & -> & Hs)]].
  - apply op_touches_cf in Ht. rewrite E in Ht. done.
  - apply op_touches_cf in Ht. rewrite Ht in E. destruct (state_cf_valid s h _ Hc E) as [Hv _]. by eapply valid_cf_name_default.
  - destruct Ht as [_ ->]. by rewrite Hk in Hs.
Qed.

(** ** Opening *)

(** A key of the default column family that goes with no group. *)
Definition plain_key (k : bytes) : Prop :=
  starts_with serving_prefix k = false ∧ ∀ g, starts_with (search_prefix g) k = false ∧ k ≠ state_cf_pointer_key g.
Lemma plain_other k : take 7 k ≠ as_bytes "local/s" → plain_key k.
Proof.
  intros Hk. split; [|intros g; split; [|intros ->; by apply Hk]]; apply not_true_iff_false; intros [q ->]%starts_with_spec; apply Hk; [done|].
  unfold search_prefix. by rewrite as_bytes_app, <-(assoc_L (++)).
Qed.
Lemma plain_group_key k g : plain_key k → group_key g k = false.
Proof. intros [_ Hk]. destruct (Hk g) as [Hs Hp]. unfold group_key. by rewrite Hs, andb_false_r, bool_decide_false. Qed.

Lemma opened epoch now limits d s r : layout_ok d → open_with_limits epoch now limits d = (s, r) →
  r = Ok tt ∧ layout_ok (st_db s) ∧ st_active_state_cfs s = ∅ ∧ (∀ k, plain_key k → db_get (st_db s) k = db_get d k) ∧
  ∀ g, (nonserving (st_db s) g → nonserving d g) ∧ (nonserving d g ∨ dangling d g → no_trace g (st_db s)) ∧ (¬ (nonserving d g ∨ dangling d g) → kept g d (st_db s)).
Proof.
  intros Hl E. destruct (open_erases epoch now limits d Hl) as (s' & p & l & E' & Ha & Hs & Hr & Hn & He).
  rewrite E' in E. injection E as <- <-. split_and!; [done|by eapply layout_erased|done| |].
  - intros k Hk. rewrite (er_local _ _ _ _ He) by apply Hk. destruct (open_keys p l k) eqn:Ek; [|done]. exfalso. revert Ek.
    unfold open_keys. rewrite orb_true_iff, !existsb_exists. intros [(g & _ & Eg)|(g & _ & Eg)]; by rewrite plain_group_key in Eg.
  - intros g. split_and!; [|by eapply recovered_gone|by eapply recovered_kept].
    unfold nonserving. by rewrite (er_serving _ _ _ _ He) by apply serving_key_prefix.
Qed.

Lemma active_name_ok s g : layout_ok (st_db s) → st_active_state_cfs s = ∅ → active_state_cf_name s g = Ok (active_name (st_db s) g).
Proof.
  intros Hl Ha. unfold active_state_cf_name. rewrite Ha, lookup_empty. unfold pointer_name, active_name, pointer_of, get_local.
  destruct (db_get (st_db s) (state_cf_pointer_key g)) as [v|] eqn:E; cbn; [|by rewrite bool_decide_true].
  destruct (lo_pointer _ Hl _ _ (proj2 (starts_with_spec _ _) (ex_intro _ _ eq_refl)) E) as (h & n & _ & Hh%pointer_key_inj & -> & Hv). subst h. cbn.
  apply valid_cf_name_cases in Hv as [->| ->]; [by rewrite bool_decide_true|]. by rewrite andb_false_r.
Qed.

(** A group the database hosts. *)
Record hosted d g : Prop := {
  ho_kept : ¬ (nonserving d g ∨ dangling d g);
  ho_state : cf_exists d (active_name d g) = true;
  ho_log : cf_exists d (cf_log g) = true;
}.

Lemma hosted_opened d s g : layout_ok d → layout_ok (st_db s) → st_active_state_cfs s = ∅ → hosted d g → kept g d (st_db s) →
  group_exists s g = true ∧ state_cf s g = Ok (active_name d g) ∧ active_name (st_db s) g = active_name d g ∧
  cf_exists (st_db s) (active_name d g) = true ∧ cf_exists (st_db s) (cf_log g) = true.
Proof.
  intros Hd Hl Ha [Hg Hx Hlog] Hk. assert (cf_exists (st_db s) (active_name d g) = true ∧ cf_exists (st_db s) (cf_log g) = true) as [E1 E2].
  { split; rewrite (kp_families _ _ _ Hk).
    - by rewrite Hx, (bool_decide_true (active_name d g = active_name d g)), orb_true_r.
    - by apply active_belongs.
    - by rewrite Hlog, (bool_decide_true (cf_log g = cf_log g)).
    - apply belongs_cases. by left. }
  unfold group_exists, state_cf. rewrite (active_name_ok s g Hl Ha), (kp_active _ _ _ Hk). cbn. by rewrite E1, E2.
Qed.

(** A key whose eighth byte is not the [e] of "local/search/" is no consumer record. *)
Lemma not_consumer k : take 7 k ≠ as_bytes "local/s" ∨ k !! 7 ≠ Some x65 → ∀ g, starts_with (search_consumer_prefix g) k = false.
Proof.
  intros Hk g. apply not_true_iff_false. intros [q ->]%consumer_search%starts_with_spec. revert Hk.
  unfold search_prefix. rewrite as_bytes_app, <-(assoc_L (++)). cbn. naive_solver.
Qed.
Lemma pointer_not_consumer k : starts_with state_cf_pointer_prefix k = true → ∀ g, starts_with (search_consumer_prefix g) k = false.
Proof. intros [q ->]%starts_with_spec. apply not_consumer. cbn. by right. Qed.
Lemma serving_not_consumer k : starts_with serving_prefix k = true → ∀ g, starts_with (search_consumer_prefix g) k = false.
Proof. intros [q ->]%starts_with_spec g. apply not_true_iff_false. intros Hs%consumer_search%search_not_serving. revert Hs. by vm_compute. Qed.

(** What restoring does to a group of the database. *)
Record restored_group d d' (epoch : N) (applied : RaftLogId) g : Prop := {
  rg_active : active_name d' g = active_name d g;
  rg_epoch : get_cf d' (active_name d g) recovery_epoch_key = Some (encode (A:=U128) epoch);
  rg_state k : k ≠ recovery_epoch_key → get_cf d' (active_name d g) k = get_cf d (active_name d g) k;
  rg_purged : get_cf d' (cf_log g) KEY_PURGED = Some (encode applied);
  rg_committed : get_cf d' (cf_log g) KEY_COMMITTED = Some (encode (Some applied));
  rg_entries i : get_cf d' (cf_log g) (entry_key i) = None;
  rg_vote : get_cf d' (cf_log g) KEY_VOTE = get_cf d (cf_log g) KEY_VOTE;
  rg_consumers k v c : is_data g = true → starts_with (search_consumer_prefix g) k = true → db_get d k = Some v → decode v = Ok c →
    db_get d' k = Some (encode (reset_consumer c));
}.

Lemma install_ok epoch p s s' u : install_restored_epoch_offline epoch p s = (s', Ok u) → epoch ≠ 0%N ∧ ∃ ops,
  mapR (restore_group_ops s epoch) (all_groups p) = Ok ops ∧
  s' = set_db (write (st_db s) ([BatchPut DEFAULT_CF local_recovery_epoch_key (encode (A:=U128) epoch);
      BatchPut DEFAULT_CF local_restored_epoch_key (encode (A:=U128) epoch)] ++ concat ops)) s.
Proof.
  unfold install_restored_epoch_offline. intros (s1 & local & [= <- Hl] & E)%io_bind_ok. destruct (_ || _) eqn:Eb; [done|]. bools.
  split; [lia|]. apply io_bind_ok in E as (s1 & ops & [= <- Ho] & [= <- _]). by exists ops.
Qed.

Definition restore_head (epoch : N) : list BatchOp :=
  [BatchPut DEFAULT_CF local_recovery_epoch_key (encode (A:=U128) epoch); BatchPut DEFAULT_CF local_restored_epoch_key (encode (A:=U128) epoch)].
Definition restore_ops (epoch : N) g (applied : RaftLogId) (cf : string) (consumers : list (bytes * SearchConsumerState)) : list BatchOp :=
  [BatchDeleteRange (cf_log g) [ENTRY_PREFIX] [ENTRY_PREFIX_END]; BatchPut (cf_log g) KEY_PURGED (encode applied);
   BatchPut (cf_log g) KEY_COMMITTED (encode (Some applied)); BatchPut cf recovery_epoch_key (encode (A:=U128) epoch)] ++
  ((λ kc, BatchPut DEFAULT_CF kc.1 (encode (reset_consumer kc.2))) <$> consumers).

Lemma active_state_cf s g cf : layout_ok (st_db s) → st_active_state_cfs s = ∅ → state_cf s g = Ok cf → cf = active_name (st_db s) g.
Proof.
  intros Hl Ha Hcf. unfold state_cf in Hcf. rewrite (active_name_ok s g Hl Ha) in Hcf. cbn in Hcf.
  destruct (cf_exists _ _); [by injection Hcf|done].
Qed.

(** After the batch, a key that only one hosted group can touch. *)
Lemma install_reads epoch p s s' u g : layout_ok (st_db s) → st_active_state_cfs s = ∅ → install_restored_epoch_offline epoch p s = (s', Ok u) →
  g ∈ all_groups p → group_exists s g = true → ∃ applied consumers,
  recovered_raft_applied s g = Ok (Some applied) ∧ state_cf s g = Ok (active_name (st_db s) g) ∧
  (if is_data g then search_consumers s g else Ok []) = Ok consumers ∧
  ∀ cf k, cf_exists (st_db s) cf = true → (∀ h op, h ≠ g → restore_op s h op → ¬ op_touches op cf k) →
    get_cf (st_db s') cf k = batch_get cf k (restore_ops epoch g applied (active_name (st_db s) g) consumers)
      (batch_get cf k (restore_head epoch) (get_cf (st_db s) cf k)).
Proof.
  intros Hl Ha (_ & parts & Hp & ->)%install_ok Hg Hx.
  apply mapR_ok in Hp. apply list_elem_of_lookup in Hg as [i Hi]. destruct (Forall2_lookup_l _ _ _ _ _ Hp Hi) as (ops & Hops & E).
  destruct (restore_group_ops_ok _ _ _ _ E) as [[Hx' _]|(_ & applied & cf & consumers & Happ & Hcf & Hcons & ->)]; [congruence|].
  apply (active_state_cf s g cf Hl Ha) in Hcf as E'. subst cf. exists applied, consumers. split_and!; [done..|].
  intros cf k Hex Hown. cbn [st_db set_db]. rewrite get_write by done. fold (restore_head epoch). rewrite batch_get_app.
  apply (batch_get_parts (restore_op s) (all_groups p) parts cf k g); [apply all_groups_nodup| |done|].
  - eapply Forall2_impl; [exact Hp|]. intros h part. apply restore_group_ops_own.
  - apply list_elem_of_lookup. exists i. apply lookup_zip_with_Some. by eexists _, _.
Qed.

Lemma restore_ops_state epoch g applied cf consumers k o : cf ≠ DEFAULT_CF → (∀ h, cf ≠ cf_log h) →
  batch_get cf k (restore_ops epoch g applied cf consumers) (batch_get cf k (restore_head epoch) o) =
    if decide (k = recovery_epoch_key) then Some (encode (A:=U128) epoch) else o.
Proof.
  intros Hd Hg. rewrite (batch_get_other_cf cf k (restore_head epoch)) by (repeat constructor; cbn; congruence).
  unfold restore_ops. rewrite batch_get_app, (batch_get_other_cf cf k (_ <$> _)).
  - cbn. specialize (Hg g). rewrite !(decide_False (P:=cf_log g = cf ∧ _)) by naive_solver.
    destruct (decide (k = recovery_epoch_key)) as [->|]; [by rewrite decide_True|rewrite decide_False; naive_solver].
  - apply Forall_fmap, Forall_true. intros [? ?]. cbn. congruence.
Qed.

Lemma restore_ops_log epoch g applied cf consumers k o : cf ≠ cf_log g →
  batch_get (cf_log g) k (restore_ops epoch g applied cf consumers) (batch_get (cf_log g) k (restore_head epoch) o) =
    if decide (k = KEY_COMMITTED) then Some (encode (Some applied)) else if decide (k = KEY_PURGED) then Some (encode applied) else
    if decide (bytes_le [ENTRY_PREFIX] k ∧ bytes_lt k [ENTRY_PREFIX_END]) then None else o.
Proof.
  intros Hg. rewrite (batch_get_other_cf (cf_log g) k (restore_head epoch)) by (repeat constructor; cbn; done).
  unfold restore_ops. rewrite batch_get_app, (batch_get_other_cf (cf_log g) k (_ <$> _)).
  - cbn. rewrite (decide_False (P:=cf = cf_log g ∧ _)) by naive_solver. repeat case_decide; naive_solver.
  - apply Forall_fmap, Forall_true. intros [? ?]. cbn. done.
Qed.

Lemma restore_ops_local epoch g applied cf consumers k o : cf ≠ DEFAULT_CF →
  batch_get DEFAULT_CF k (restore_ops epoch g applied cf consumers) o =
    batch_get DEFAULT_CF k ((λ kc, BatchPut DEFAULT_CF kc.1 (encode (reset_consumer kc.2))) <$> consumers) o.
Proof.
  intros Hd. unfold restore_ops. rewrite batch_get_app. f_equal. apply batch_get_other_cf. repeat constructor; cbn; done.
Qed.

Lemma entry_key_range i : bytes_le [ENTRY_PREFIX] (entry_key i) ∧ bytes_lt (entry_key i) [ENTRY_PREFIX_END].
Proof. split; [done|]. split; [done|]. intros [=]. Qed.

Lemma install_group epoch p s s' u g : layout_ok (st_db s) → st_active_state_cfs s = ∅ → install_restored_epoch_offline epoch p s = (s', Ok u) →
  g ∈ all_groups p → group_exists s g = true →
  ∃ applied, recovered_raft_applied s g = Ok (Some applied) ∧ restored_group (st_db s) (st_db s') epoch applied g.
Proof.
  intros Hl Ha Hi Hg Hx. assert (cache_ok s) as Hc by (intros h n; by rewrite Ha, lookup_empty).
  destruct (install_reads epoch p s s' u g Hl Ha Hi Hg Hx) as (applied & consumers & Happ & Hcf & Hcons & Hget). exists applied. split; [done|].
  destruct (state_cf_valid s g _ Hc Hcf) as [Hv Hx1]. assert (cf_exists (st_db s) (cf_log g) = true) as Hx2 by (unfold group_exists in Hx; by bools).
  assert (active_name (st_db s) g ≠ DEFAULT_CF) as Hd1 by (by eapply valid_cf_name_default).
  assert (∀ h, active_name (st_db s) g ≠ cf_log h) as Hd2 by (intros h; by eapply valid_cf_name_log).
  pose proof (λ k, Hget _ k Hx1 (λ h op, own_state s g h _ k op Hc Hcf)) as Hst. setoid_rewrite restore_ops_state in Hst; [|done..].
  pose proof (λ k, Hget _ k Hx2 (λ h op, own_log s g h k op Hc)) as Hlog. setoid_rewrite restore_ops_log in Hlog; [|done].
  assert (∀ k, starts_with (search_prefix g) k = true → get_cf (st_db s') DEFAULT_CF k =
    batch_get DEFAULT_CF k ((λ kc, BatchPut DEFAULT_CF kc.1 (encode (reset_consumer kc.2))) <$> consumers)
      (batch_get DEFAULT_CF k (restore_head epoch) (get_cf (st_db s) DEFAULT_CF k))) as Hloc.
  { intros k Hk. rewrite (Hget DEFAULT_CF k (default_exists _)), restore_ops_local; [done|done|]. intros h op. by apply own_search. }
  constructor.
  - unfold active_name, pointer_of, db_get. rewrite (Hget DEFAULT_CF _ (default_exists _)).
    + rewrite restore_ops_local by done. rewrite batch_get_untouched; [by rewrite batch_get_untouched; [|repeat constructor; cbn; naive_solver]|].
      apply Forall_fmap, Forall_forall. intros [k c] Hin [_ Hk]. cbn in Hk. subst k. destruct (is_data g); [|injection Hcons as <-; by apply elem_of_nil in Hin].
      apply (search_consumers_keys _ _ _ _ _ Hcons) in Hin as (v & Hp & _). by rewrite pointer_not_consumer in Hp by (apply starts_with_spec; by eexists).
    + intros h op _. apply own_local; [done|]. apply pointer_not_consumer, starts_with_spec. by eexists.
  - by rewrite Hst, decide_True.
  - intros k Hk. by rewrite Hst, decide_False.
  - by rewrite Hlog.
  - by rewrite Hlog.
  - intros i. rewrite Hlog, !decide_False, decide_True by (apply entry_key_range || done). done.
  - by rewrite Hlog.
  - intros k v c Hdata Hp Hv' Hdec. rewrite Hdata in Hcons. unfold db_get. rewrite Hloc by (by apply consumer_search).
    apply (batch_get_puts DEFAULT_CF (λ c, encode (reset_consumer c))).
    + intros c' Hin. apply (search_consumers_keys _ _ _ _ _ Hcons) in Hin as (v' & _ & Hv2 & Hd'). congruence.
    + apply (search_consumers_keys _ _ _ _ _ Hcons). by exists v.
Qed.

Lemma install_local epoch p s s' u : cache_ok s → install_restored_epoch_offline epoch p s = (s', Ok u) →
  st_active_state_cfs s' = st_active_state_cfs s ∧ (∀ n, cf_exists (st_db s') n = cf_exists (st_db s) n) ∧
  db_get (st_db s') local_recovery_epoch_key = Some (encode (A:=U128) epoch) ∧
  db_get (st_db s') local_restored_epoch_key = Some (encode (A:=U128) epoch) ∧
  ∀ k, (∀ g, starts_with (search_consumer_prefix g) k = false) → k ≠ local_recovery_epoch_key → k ≠ local_restored_epoch_key →
    db_get (st_db s') k = db_get (st_db s) k.
Proof.
  intros Hc (_ & parts & Hp & ->)%install_ok. cbn [st_db set_db st_active_state_cfs].
  assert (∀ k o, (∀ g, starts_with (search_consumer_prefix g) k = false) → batch_get DEFAULT_CF k (concat parts) o = o) as Hparts.
  { intros k o Hk. apply batch_get_untouched, Forall_concat, Forall_forall. intros part [j Hj]%list_elem_of_lookup. apply mapR_ok in Hp.
    destruct (Forall2_lookup_r _ _ _ _ _ Hp Hj) as (h & _ & Hh%restore_group_ops_own). eapply Forall_impl; [exact Hh|]. intros op. by apply own_local. }
  split_and!; [done|intros n; apply exists_write|..].
  - rewrite db_get_write, batch_get_app, Hparts; [done|]. apply not_consumer. left. vm_compute. intros [=].
  - rewrite db_get_write, batch_get_app, Hparts; [done|]. apply not_consumer. left. vm_compute. intros [=].
  - intros k Hk Hk1 Hk2. rewrite db_get_write, batch_get_app, Hparts by done. cbn. rewrite !decide_False by naive_solver. done.
Qed.

Lemma install_layout epoch p s s' u : cache_ok s → layout_ok (st_db s) → install_restored_epoch_offline epoch p s = (s', Ok u) →
  layout_ok (st_db s') ∧ ∀ g, hosted (st_db s') g ↔ hosted (st_db s) g.
Proof.
  intros Hc Hl Hi. destruct (install_local _ _ _ _ _ Hc Hi) as (_ & Hx & _ & _ & Hk).
  assert (∀ k, starts_with state_cf_pointer_prefix k = true → db_get (st_db s') k = db_get (st_db s) k) as Hp.
  { intros k Hs. apply Hk; [by apply pointer_not_consumer|intros ->; by vm_compute in Hs..]. }
  assert (∀ k, starts_with serving_prefix k = true → db_get (st_db s') k = db_get (st_db s) k) as Hsv.
  { intros k Hs. apply Hk; [by apply serving_not_consumer|intros ->; by vm_compute in Hs..]. }
  split.
  - constructor; intros k v Hs; [rewrite Hp by done; by apply lo_pointer|rewrite Hsv by done; by apply lo_serving].
  - intros g. assert (pointer_of (st_db s') g = pointer_of (st_db s) g) as Ep.
    { unfold pointer_of. rewrite Hp; [done|]. apply starts_with_spec. by eexists. }
    assert (active_name (st_db s') g = active_name (st_db s) g) as Ea by (unfold active_name; by rewrite Ep).
    assert (nonserving (st_db s') g ↔ nonserving (st_db s) g) as En by (unfold nonserving; by rewrite Hsv by apply serving_key_prefix).
    assert (dangling (st_db s') g ↔ dangling (st_db s) g) as Ed by (unfold dangling; rewrite Ep; by setoid_rewrite Hx).
    split; intros [Hh1 Hh2 Hh3]; constructor; rewrite ?Ea, ?Hx in *; naive_solver.
Qed.

(** The groups of an opened store are those its directory hosts. *)
Lemma group_exists_hosted epoch now limits d s r g : layout_ok d → open_with_limits epoch now limits d = (s, r) →
  (group_exists s g = true → hosted d g) ∧ (hosted d g → hosted (st_db s) g).
Proof.
  intros Hd Ho. destruct (opened _ _ _ _ _ _ Hd Ho) as (-> & Hl & Ha & _ & Hg). destruct (Hg g) as (Hns & Hgone & Hkept). split.
  - intros Hx. unfold group_exists in Hx. rewrite (active_name_ok s g Hl Ha) in Hx. apply andb_true_iff in Hx as [Hx1 Hx2].
    assert (¬ (nonserving d g ∨ dangling d g)) as Hn.
    { intros Hn%Hgone. rewrite (nt_families _ _ Hn) in Hx2; [done|]. apply belongs_cases. by left. }
    specialize (Hkept Hn). rewrite (kp_active _ _ _ Hkept) in Hx1. constructor; [done|..].
    + rewrite (kp_families _ _ _ Hkept) in Hx1 by (by apply active_belongs). by apply andb_true_iff in Hx1 as [? _].
    + rewrite (kp_families _ _ _ Hkept) in Hx2 by (apply belongs_cases; by left). by apply andb_true_iff in Hx2 as [? _].
  - intros Hh. destruct (hosted_opened d s g Hd Hl Ha Hh (Hkept (ho_kept _ _ Hh))) as (_ & _ & Ea & Hx1 & Hx2).
    constructor; rewrite ?Ea; [|done..]. intros [Hn|(n & Hp & Hx)].
    + apply (ho_kept _ _ Hh). left. by apply Hns.
    + unfold active_name in Ea, Hx1. rewrite Hp in Ea. cbn in Ea. congruence.
Qed.

(** What a node that starts on a restored directory finds. *)
Record restarted d (epoch p : N) s : Prop := {
  rs_epoch : local_recovery_epoch s = Ok epoch;
  rs_restored : get_local U128 s local_restored_epoch_key = Ok (Some epoch);
  rs_plain k : plain_key k → k ≠ local_recovery_epoch_key → k ≠ local_restored_epoch_key → db_get (st_db s) k = db_get d k;
  rs_hosts g : g ∈ all_groups p → group_exists s g = true ↔ hosted d g;
  rs_groups g : g ∈ all_groups p → hosted d g → ∃ b record applied,
    get_cf d (active_name d g) raft_applied_key = Some b ∧ decode (A:=RaftApplied) b = Ok record ∧ ra_applied record = Some applied ∧
    restored_group d (st_db s) epoch applied g;
}.

Lemma restored_group_kept d d0 d1 d2 epoch applied g : layout_ok d → layout_ok d1 → hosted d g → hosted d1 g → kept g d d0 → kept g d1 d2 →
  restored_group d0 d1 epoch applied g → restored_group d d2 epoch applied g.
Proof.
  intros Hl Hl1 Hh Hh1 Hk Hk1 Hr. pose proof (kp_active _ _ _ Hk) as Ea. pose proof (kp_active _ _ _ Hk1) as Ea1.
  pose proof (rg_active _ _ _ _ _ Hr) as Er. rewrite Ea in Er.
  assert (∀ k, get_cf d2 (active_name d g) k = get_cf d1 (active_name d g) k) as Hst.
  { intros k. rewrite <-Er. apply (kp_contents _ _ _ Hk1); [by right|apply Hh1]. }
  assert (∀ k, get_cf d2 (cf_log g) k = get_cf d1 (cf_log g) k) as Hlog.
  { intros k. apply (kp_contents _ _ _ Hk1); [by left|apply Hh1]. }
  assert (∀ k, get_cf d0 (active_name d g) k = get_cf d (active_name d g) k) as Hst0.
  { intros k. apply (kp_contents _ _ _ Hk); [by right|apply Hh]. }
  assert (∀ k, get_cf d0 (cf_log g) k = get_cf d (cf_log g) k) as Hlog0.
  { intros k. apply (kp_contents _ _ _ Hk); [by left|apply Hh]. }
  destruct Hr as [? H1' H2' H3' H4' H5' H6' H7']. rewrite Ea in *. constructor.
  - by rewrite Ea1.
  - by rewrite Hst.
  - intros k Hne. by rewrite Hst, H2', Hst0.
  - by rewrite Hlog.
  - by rewrite Hlog.
  - intros i. by rewrite Hlog.
  - by rewrite Hlog, H6', Hlog0.
  - intros k v c Hd Hp Hv Hc. rewrite (kp_search _ _ _ Hk1) by (by apply consumer_search). eapply H7'; [done..| |done].
    by rewrite (kp_search _ _ _ Hk) by (by apply consumer_search).
Qed.

Lemma restored_restarts epoch p e n limits d s0 s1 u e' n' limits' s2 r : (epoch ≤ u128_max)%N → layout_ok d → open_with_limits e n limits d = (s0, Ok tt) →
  install_restored_epoch_offline epoch p s0 = (s1, Ok u) → open_with_limits e' n' limits' (st_db s1) = (s2, r) →
  r = Ok tt ∧ restarted d epoch p s2.
Proof.
  intros Hw Hd Ho Hi Ho2. destruct (opened _ _ _ _ _ _ Hd Ho) as (_ & Hl0 & Ha0 & Hp0 & Hg0).
  assert (cache_ok s0) as Hc0 by (intros h m; by rewrite Ha0, lookup_empty).
  destruct (install_local _ _ _ _ _ Hc0 Hi) as (Ha1 & _ & He1 & He2 & Hk1). destruct (install_layout _ _ _ _ _ Hc0 Hl0 Hi) as [Hl1 Hh1].
  destruct (opened _ _ _ _ _ _ Hl1 Ho2) as (-> & Hl2 & Ha2 & Hp2 & Hg2). split; [done|].
  assert (∀ g, hosted d g → hosted (st_db s1) g) as Hfwd by (intros g Hh; by apply Hh1, (group_exists_hosted _ _ _ _ _ _ g Hd Ho)).
  assert (∀ g, hosted d g → group_exists s0 g = true ∧ kept g d (st_db s0)) as Hx0.
  { intros g Hh. destruct (Hg0 g) as (_ & _ & Hk). specialize (Hk (ho_kept _ _ Hh)). split; [by apply (hosted_opened d s0 g)|done]. }
  constructor.
  - unfold local_recovery_epoch, get_local. rewrite Hp2, He1 by (apply plain_other; vm_compute; intros [=]). cbn. by rewrite decode_encode.
  - unfold get_local. rewrite Hp2, He2 by (apply plain_other; vm_compute; intros [=]). cbn. by rewrite decode_encode.
  - intros k Hk ? ?. rewrite Hp2 by done. rewrite Hk1; [by apply Hp0| |done..]. intros g. apply not_true_iff_false.
    intros Hs%consumer_search. destruct Hk as [_ Hk]. destruct (Hk g). congruence.
  - intros g Hg. split.
    + intros Hx%(group_exists_hosted _ _ _ _ _ _ g Hl1 Ho2)%Hh1. apply (group_exists_hosted _ _ _ _ _ _ g Hd Ho).
      unfold group_exists. rewrite (active_name_ok s0 g Hl0 Ha0). apply andb_true_iff. split; apply Hx.
    + intros Hh. destruct (Hg2 g) as (_ & _ & Hk). specialize (Hfwd g Hh). apply (hosted_opened (st_db s1) s2 g Hl1 Hl2 Ha2 Hfwd), Hk, Hfwd.
  - intros g Hg Hh. destruct (Hx0 g Hh) as [Hx Hk]. destruct (install_group _ _ _ _ _ _ Hl0 Ha0 Hi Hg Hx) as (applied & Happ & Hr).
    destruct (Hg2 g) as (_ & _ & Hk2). specialize (Hfwd g Hh). specialize (Hk2 (ho_kept _ _ Hfwd)).
    unfold recovered_raft_applied, raft_applied, get_state in Happ. destruct (hosted_opened _ _ _ Hd Hl0 Ha0 Hh Hk) as (_ & Hcf & _ & Hex & _).
    rewrite Hcf in Happ. cbn [rbind] in Happ. rewrite (kp_contents _ _ _ Hk) in Happ by (by right || apply Hh).
    destruct (get_cf d (active_name d g) raft_applied_key) as [b|] eqn:Eb; [|done]. oks Happ. injection Happ as Happ.
    exists b, x, applied. split_and!; [done..|]. apply (restored_group_kept d (st_db s0) (st_db s1) (st_db s2)); done.
Qed.

(** ** Starting a restored node *)

(** Credentials that a restored node accepts. *)
Definition trust_accepted (plan : RecoveryPlan) (trust : TrustSnapshot) : Prop :=
  (rv_minimum_trust_generation plan ≤ ts_generation trust)%N ∧ hex_bytes (ts_digest trust) ≠ rv_prior_trust_policy_digest plan ∧
  ∀ f, f ∈ ts_key_fingerprints trust → f ∉ rv_prior_key_fingerprints plan.

Lemma restarted_state d epoch p s g : restarted d epoch p s → st_active_state_cfs s = ∅ → layout_ok (st_db s) → g ∈ all_groups p →
  group_exists s g = true → (epoch ≤ u128_max)%N → Storage.recovery_epoch s g = Ok epoch ∧ ∃ a, raft_applied_position s g = Ok (Some a).
Proof.
  intros Hr Ha Hl Hg Hx Hw. assert (hosted d g) as Hh by (by apply (rs_hosts _ _ _ _ Hr)).
  destruct (rs_groups _ _ _ _ Hr g Hg Hh) as (b & record & applied & Hb & Hdec & Happ & Hrg).
  assert (state_cf s g = Ok (active_name d g)) as Hcf.
  { unfold state_cf. unfold group_exists in Hx. rewrite (active_name_ok s g Hl Ha), (rg_active _ _ _ _ _ Hrg) in *. cbn.
    apply andb_true_iff in Hx as [-> _]. done. }
  unfold Storage.recovery_epoch, raft_applied_position, recovered_raft_applied, raft_applied, get_state_record, get_state. rewrite Hcf. cbn [rbind].
  rewrite (rg_epoch _ _ _ _ _ Hrg), (rg_state _ _ _ _ _ Hrg) by done. rewrite Hb. cbn. rewrite decode_encode by done. rewrite Hdec. cbn. rewrite Happ.
  split; [done|by eexists].
Qed.

Lemma validate_restarted d p s plan node_id trust : restarted d (rv_recovery_epoch plan) p s → st_active_state_cfs s = ∅ → layout_ok (st_db s) →
  wf plan → rv_format plan = FORMAT → rv_recovery_epoch plan ≠ 0%N → node_id ∈ rv_nodes plan →
  validate_restored_node s (Some (Fs_File (to_json plan))) (rv_cluster_id plan) node_id p trust = Ok tt ↔
  ∃ t, trust = Some t ∧ trust_accepted plan t.
Proof.
  intros Hr Ha Hl Hw Hf Hz Hn. assert (rv_recovery_epoch plan ≤ u128_max)%N as Hu by apply Hw.
  unfold validate_restored_node. rewrite (rs_epoch _ _ _ _ Hr), (rs_restored _ _ _ _ Hr). cbn [rbind].
  rewrite (proj2 (N.eqb_neq _ _) Hz), N.eqb_refl. cbn [negb andb ensure rbind entry_file]. rewrite from_to_json by done. cbn [rbind].
  rewrite Hf, !N.eqb_refl, bool_decide_true by done. cbn [andb ensure rbind].
  assert (∀ gs, (∀ g, g ∈ gs → g ∈ all_groups p) → check_restored_epochs s (rv_recovery_epoch plan) gs = Ok tt) as Hall.
  { intros gs. induction gs as [|g gs IH]; intros Hin; cbn [check_restored_epochs]; [done|].
    assert (check_restored_epochs s (rv_recovery_epoch plan) gs = Ok tt) as IH' by (apply IH; intros; apply Hin; by right).
    destruct (group_exists s g) eqn:Hx; cbn [rbind]; [|done].
    destruct (restarted_state d _ p s g Hr Ha Hl (Hin g (list_elem_of_here _ _)) Hx Hu) as (-> & a & ->). cbn [rbind]. by rewrite N.eqb_refl. }
  rewrite Hall by done. cbn [rbind]. destruct trust as [t|]; cbn [ok_or rbind]; [|naive_solver]. rewrite ensure_ok. unfold trust_accepted.
  rewrite negb_true_iff, !orb_false_iff, N.ltb_ge, bool_decide_eq_false, <-not_true_iff_false, existsb_exists.
  split.
  - intros [[H1' H2'] H3']. exists t. split_and!; [done..|]. intros f Hf1 Hf2. apply H3'. exists f. rewrite <-list_elem_of_In. by rewrite bool_decide_eq_true.
  - intros (t' & [= <-] & H1' & H2' & H3'). split_and!; [done..|]. intros (f & Hf1%list_elem_of_In & Hf2%bool_decide_eq_true). by eapply H3'.
Qed.

(** ** Staged directories *)

Lemma restore_stage_ne (destination : FsPath) epoch node_id : String.prefix ".dal-restore-" destination.2 = false →
  restore_stage destination.1 epoch node_id ≠ destination.
Proof.
  intros Hp E. rewrite <-E in Hp. unfold restore_stage in Hp. cbn [snd] in Hp.
  generalize dependent (hex32 epoch +:+ "-node-" +:+ pretty node_id +:+ ".partial"). clear. intros []; by vm_compute.
Qed.

Lemma with_stage_exact {A} (env : FsEnv) (stage destination : FsPath) (build : Fs → Result (FsNode * A)) (fs fs' : Fs) (r : Result A) : stage ≠ destination →
  with_stage env stage destination build fs = (fs', r) →
  (∀ path, path ≠ stage → path ≠ destination → fs' !! path = fs !! path) ∧
  (fe_cleanup env = true → fs !! stage = None → fs' !! stage = None) ∧
  ((∃ e, r = Err e) ∧ fs' !! destination = fs !! destination ∨
   ∃ tree v, fs !! destination = None ∧ build fs = Ok (tree, v) ∧ fs' !! destination = Some tree ∧
     r = match fe_sync env with Some e => Err e | None => Ok v end) ∧
  (fs !! stage = None → fs !! destination = None → fe_build env = None → fe_publish env = None → fe_sync env = None →
    ∀ tree v, build fs = Ok (tree, v) → r = Ok v).
Proof.
  intros Hne. unfold with_stage. destruct (fs !! stage) eqn:Es; [intros [= <- <-]; split_and!; naive_solver|].
  assert (∀ e, (remove_stage env stage fs, Err e) = (fs', r) → (∀ path, path ≠ stage → path ≠ destination → fs' !! path = fs !! path) ∧
    (fe_cleanup env = true → fs !! stage = None → fs' !! stage = None) ∧ (∃ e, r = Err e) ∧ fs' !! destination = fs !! destination) as Hrm.
  { intros e [= <- <-]. unfold remove_stage. destruct (fe_cleanup env); split_and!; intros; rewrite ?lookup_delete_ne, ?lookup_insert_ne, ?lookup_delete_eq by done; eauto; done. }
  destruct (fe_build env) as [e|]; [intros (? & ? & ? & ?)%Hrm; split_and!; naive_solver|].
  destruct (build fs) as [[tree v]|e]; [|intros (? & ? & ? & ?)%Hrm; split_and!; naive_solver].
  destruct (fe_publish env) as [e|]; [intros (? & ? & ? & ?)%Hrm; split_and!; naive_solver|].
  case_bool_decide as Hd; [|intros (? & ? & ? & ?)%Hrm; split_and!; naive_solver].
  intros E. assert (fs' = <[destination:=tree]> fs ∧ r = match fe_sync env with Some e => Err e | None => Ok v end) as [-> ->]
    by (destruct (fe_sync env); by injection E as <- <-).
  split_and!; [intros; by rewrite lookup_insert_ne|intros; by rewrite lookup_insert_ne| |].
  - right. exists tree, v. split_and!; [done..|apply lookup_insert_eq|done].
  - intros _ _ _ _ -> ? ? [= -> ->]. done.
Qed.

(** ** Restoring a node *)

(** The database directory of a node in a package. *)
Definition package_db (fs : Fs) (package_path : FsPath) (node_id : NodeId) : option (list (string * FsNode)) :=
  match package_node fs package_path node_id with
  | Some (Fs_Dir files) => match dir_lookup files "db" with Some (Fs_Dir db) => Some db | _ => None end
  | _ => None
  end.

(** What [restore_node] asks of the database of a node: its identity, the fence
    of the backup, an older epoch, and a position for every group it hosts. *)
Record restorable d (package : PackageManifest) (plan : RecoveryPlan) (node_id : NodeId) : Prop := {
  ra_identity : ∃ b id, db_get d identity_key = Some b ∧ decode b = Ok id ∧ id_cluster_id id = rv_cluster_id plan ∧ id_node_id id = node_id;
  ra_fence : ∃ b fence, db_get d maintenance_fence_key = Some b ∧ decode b = Ok fence ∧ mr_operation_id fence = pm_operation_id package ∧
    mr_generation fence = pm_generation package ∧ mr_stage fence = MaintenanceStage_Quiesced;
  ra_epoch : ∃ e, decode_opt (T:=U128) (db_get d local_recovery_epoch_key) = Ok e ∧ default 0%N e ≠ rv_recovery_epoch plan;
  ra_position g : g ∈ all_groups (cc_p (bd_config (pm_descriptor package))) → hosted d g → ∃ b record a,
    get_cf d (active_name d g) raft_applied_key = Some b ∧ decode (A:=RaftApplied) b = Ok record ∧ ra_applied record = Some a;
  ra_consumers g k v : g ∈ all_groups (cc_p (bd_config (pm_descriptor package))) → hosted d g →
    starts_with (search_consumer_prefix g) k = true → db_get d k = Some v → ∃ c, decode (A:=SearchConsumerState) v = Ok c;
}.

Lemma restore_ops_succeed epoch d s g : layout_ok d → layout_ok (st_db s) → st_active_state_cfs s = ∅ → (group_exists s g = true → hosted d g ∧ kept g d (st_db s)) →
  (hosted d g → ∃ b record a, get_cf d (active_name d g) raft_applied_key = Some b ∧ decode (A:=RaftApplied) b = Ok record ∧ ra_applied record = Some a) →
  (∀ k v, hosted d g → starts_with (search_consumer_prefix g) k = true → db_get d k = Some v → ∃ c, decode (A:=SearchConsumerState) v = Ok c) →
  ∃ ops, restore_group_ops s epoch g = Ok ops.
Proof.
  intros Hd Hl Ha Hx Hpos Hcons. unfold restore_group_ops. destruct (group_exists s g); cbn [negb]; [|by eexists].
  destruct (Hx eq_refl) as [Hh Hk]. destruct (hosted_opened d s g Hd Hl Ha Hh Hk) as (_ & Hcf & _ & _ & Hlog).
  destruct (Hpos Hh) as (b & record & a & Hb & Hdec & Happ).
  unfold recovered_raft_applied, raft_applied, get_state, rebase_restored_log, log_cf. rewrite Hcf, Hlog. cbn [rbind].
  rewrite (kp_contents _ _ _ Hk) by (by right || apply Hh). rewrite Hb. cbn [rbind]. rewrite Hdec. cbn [rbind]. rewrite Happ. cbn [ok_or rbind].
  assert (∃ consumers, (if is_data g then search_consumers s g else Ok []) = Ok consumers) as [consumers ->]; [|by eexists].
  destruct (is_data g); [|by eexists]. unfold search_consumers.
  assert (Forall (λ kv, starts_with (search_consumer_prefix g) kv.1 = true ∧ db_get (st_db s) kv.1 = Some kv.2)
    (scan_prefix (st_db s) DEFAULT_CF (search_consumer_prefix g))) as Hall.
  { apply Forall_forall. intros [k v] [Hp Hv]%elem_of_scan_prefix. cbn. by rewrite starts_with_spec. }
  induction Hall as [|[k v] l [Hp Hv] _ [cs IH]]; [by eexists|]. cbn in Hp, Hv. rewrite (kp_search _ _ _ Hk) in Hv by (by apply consumer_search).
  destruct (Hcons k v Hh Hp Hv) as [c Hc]. cbn. rewrite Hc. cbn. rewrite IH. cbn. by eexists.
Qed.

Lemma dir_lookup_put entries name node : dir_lookup (dir_put entries name node) name = Some node.
Proof.
  unfold dir_lookup, dir_put. destruct (list_find _ _) as [[j [m x]]|] eqn:E.
  - apply list_find_Some in E as (Hj & Hm & _). cbn in *. subst m. f_equal. apply list_elem_of_lookup_2, elem_of_app in Hj as [Hj|Hj].
    + by apply list_elem_of_filter in Hj as [[] _].
    + apply list_elem_of_singleton in Hj. congruence.
  - apply list_find_None in E. rewrite Forall_app, Forall_singleton in E. by destruct E as [_ []].
Qed.

Lemma build_restored_ok e n package plan node_id tree t : build_restored e n package plan node_id tree = Ok t → ∃ files db d s0 s1,
  tree = Some (Fs_Dir files) ∧ dir_lookup files "db" = Some (Fs_Dir db) ∧ db_open_dir db = Some d ∧
  open_with_limits e n ApplyDurabilityLimits_default d = (s0, Ok tt) ∧
  install_restored_epoch_offline (rv_recovery_epoch plan) (cc_p (bd_config (pm_descriptor package))) s0 = (s1, Ok tt) ∧
  t = Fs_Dir (dir_put (db_close db (st_db s1)) RESTORE_MARKER (Fs_File (to_json plan))).
Proof.
  unfold build_restored. intros ([db s0] & Ho & E)%rbind_ok. cbn [fst snd] in E.
  destruct (install_restored_epoch_offline _ _ s0) as [s1 [[]|]] eqn:Ei; [|done]. injection E as <-.
  unfold open_restored in Ho. destruct tree as [[|files|]|]; try done. cbn [rbind] in Ho.
  destruct (dir_lookup files "db") as [[|db'|]|] eqn:Edb; try done. cbn [rbind] in Ho. oks Ho. apply ok_or_ok in Hx3.
  destruct (open_with_limits e n ApplyDurabilityLimits_default x3) as [s [[]|]] eqn:Eo; [|done]. cbn [rbind] in Ho. oks Ho. injection Ho as -> ->.
  by exists files, db, x3, s0, s1.
Qed.

Lemma build_restored_succeeds e n package plan node_id files db d a : verify_node (Some (Fs_Dir files)) = Ok a → dir_lookup files "db" = Some (Fs_Dir db) →
  db_open_dir db = Some d → layout_ok d → restorable d package plan node_id → rv_recovery_epoch plan ≠ 0%N →
  ∃ t, build_restored e n package plan node_id (Some (Fs_Dir files)) = Ok t.
Proof.
  intros Hv Hdb Hd Hl Hr Hz. destruct (open_with_limits e n ApplyDurabilityLimits_default d) as [s r] eqn:Eo.
  destruct (opened _ _ _ _ _ _ Hl Eo) as (-> & Hl0 & Ha0 & Hp & Hg).
  assert (open_restored e n package plan node_id (Some (Fs_Dir files)) = Ok (db, s)) as Eopen.
  { unfold open_restored. cbn [rbind]. rewrite Hdb. cbn [rbind]. rewrite Hv. cbn [rbind].
    unfold verify_node in Hv. oks Hv. injection Hv as ->. ensured. assert (x0 = db) as -> by congruence. assert (x = files) as -> by congruence.
    match goal with Hs : bool_decide (sort_digests _ = sort_digests _) = true |- _ => apply bool_decide_eq_true in Hs end.
    match goal with Hs : sort_digests _ = sort_digests _, Ht : digest_tree ["db"] db = _ |- _ =>
      destruct (copy_verifies _ _ _ Ht Hs) as (copied & files' & -> & E2 & E3) end.
    cbn [rbind]. rewrite E2. cbn [rbind]. rewrite bool_decide_true by done. cbn [ensure rbind]. rewrite Hd. cbn [ok_or rbind]. rewrite Eo. cbn [rbind].
    destruct (ra_identity _ _ _ _ Hr) as (bi & id & Hbi & Hdi & Hid1 & Hid2). destruct (ra_fence _ _ _ _ Hr) as (bf & fence & Hbf & Hdf & Hf1 & Hf2 & Hf3).
    assert (identity s = Ok (Some id)) as ->.
    { unfold identity, get_local. rewrite Hp, Hbi by (apply plain_other; vm_compute; intros [=]). cbn. by rewrite Hdi. }
    assert (get_local MaintenanceRecord s maintenance_fence_key = Ok (Some fence)) as ->.
    { unfold get_local. rewrite Hp, Hbf by (apply plain_other; vm_compute; intros [=]). cbn. by rewrite Hdf. }
    cbn [rbind ok_or]. rewrite Hid1, Hid2, Hf1, Hf2, Hf3, !N.eqb_refl, bool_decide_true by done. done. }
  unfold build_restored. rewrite Eopen. cbn [rbind fst snd].
  assert (∃ s1, install_restored_epoch_offline (rv_recovery_epoch plan) (cc_p (bd_config (pm_descriptor package))) s = (s1, Ok tt)) as [s1 ->]; [|by eexists].
  unfold install_restored_epoch_offline, io_bind, io_read. destruct (ra_epoch _ _ _ _ Hr) as (eo & He & Hne). unfold local_recovery_epoch, get_local.
  rewrite Hp, He by (apply plain_other; vm_compute; intros [=]).
  assert (or_zero (Ok eo) = Ok (default 0%N eo)) as -> by (by destruct eo).
  rewrite (proj2 (N.eqb_neq _ _) Hz), (proj2 (N.eqb_neq _ _)) by congruence. cbn [orb].
  assert (∃ ops, mapR (restore_group_ops s (rv_recovery_epoch plan)) (all_groups (cc_p (bd_config (pm_descriptor package)))) = Ok ops) as [ops ->]; [|by eexists].
  apply mapR_succeeds. apply Forall_forall. intros g Hin. apply (restore_ops_succeed _ d); [done..| | |].
  - intros Hx. assert (hosted d g) as Hh by (by apply (group_exists_hosted _ _ _ _ _ _ g Hl Eo)). split; [done|]. by apply Hg, Hh.
  - by apply (ra_position _ _ _ _ Hr).
  - intros k v. by apply (ra_consumers _ _ _ _ Hr).
Qed.

Context `{!DbFilesOk D}.

(** A trust policy newer than the one the package was taken under, with none of
    its digests and keys. *)
Definition newer_trust (package : PackageManifest) (trust : TrustSnapshot) : Prop :=
  (pm_trust_generation package < ts_generation trust)%N ∧ hex_bytes (ts_digest trust) ≠ pm_trust_policy_digest package ∧
  ∀ f, f ∈ ts_key_fingerprints trust → f ∉ pm_prior_key_fingerprints package.

(** The trust fields of a checked plan are those of its package. *)
Record plan_trust (package : PackageManifest) (plan : RecoveryPlan) : Prop := {
  pt_generation : rv_minimum_trust_generation plan = (pm_trust_generation package + 1)%N;
  pt_digest : rv_prior_trust_policy_digest plan = pm_trust_policy_digest package;
  pt_keys : rv_prior_key_fingerprints plan = pm_prior_key_fingerprints package;
}.

Lemma plan_trust_newer package plan t : plan_trust package plan → trust_accepted plan t ↔ newer_trust package t.
Proof. intros [E1 E2 E3]. unfold trust_accepted, newer_trust. rewrite E1, E2, E3, N.add_1_r, N.le_succ_l. done. Qed.

Lemma checked_plan_ok (fs : Fs) (package_path plan_path : FsPath) (plan : RecoveryPlan) package plan' : fs !! plan_path = Some (Fs_File (to_json plan)) → wf plan →
  checked_recovery_plan fs package_path plan_path = Ok (package, plan') →
  plan' = plan ∧ verify_package (fs !! package_path) = Ok package ∧ rv_format plan = FORMAT ∧ rv_recovery_epoch plan ≠ 0%N ∧ rv_nodes plan = node_ids package ∧
  rv_cluster_id plan = bd_cluster_id (pm_descriptor package) ∧ plan_trust package plan.
Proof.
  intros Hf Hw E. unfold checked_recovery_plan in E. rewrite Hf in E. cbn [entry_file rbind] in E. oks E. injection E as -> ->.
  rewrite from_to_json in Hx0 by done. injection Hx0 as <-. ensured. bools.
  repeat match goal with Hb : bool_decide _ = true |- _ => apply bool_decide_eq_true in Hb | Hb : (_ =? _)%N = true |- _ => apply N.eqb_eq in Hb end.
  match goal with Hm : checked_add _ _ _ = Some _ |- _ => apply checked_add_Some in Hm as [Hm _]; subst end.
  split_and!; done.
Qed.

(** What a restored directory starts as. *)
Definition starts_restored d (package : PackageManifest) (epoch : N) (node_id : NodeId) (node : option FsNode) : Prop :=
  let p := cc_p (bd_config (pm_descriptor package)) in
  ∃ db d', node = Some (Fs_Dir db) ∧ db_open_dir db = Some d' ∧ ∀ e n limits s r, open_with_limits e n limits d' = (s, r) →
    r = Ok tt ∧ restarted d epoch p s ∧
    ∀ trust, validate_restored_node s (dir_lookup db RESTORE_MARKER) (bd_cluster_id (pm_descriptor package)) node_id p trust = Ok tt ↔
      ∃ t, trust = Some t ∧ newer_trust package t.

Lemma built_starts (e n : N) (package : PackageManifest) (plan : RecoveryPlan) (node_id : NodeId) (fs : Fs) (package_path : FsPath) d t : wf plan → rv_format plan = FORMAT → rv_recovery_epoch plan ≠ 0%N →
  node_id ∈ rv_nodes plan → package_db fs package_path node_id ≫= db_open_dir = Some d → layout_ok d →
  rv_cluster_id plan = bd_cluster_id (pm_descriptor package) → plan_trust package plan →
  build_restored e n package plan node_id (package_node fs package_path node_id) = Ok t →
  starts_restored d package (rv_recovery_epoch plan) node_id (Some t).
Proof.
  intros Hw Hf Hz Hn Hd Hl Hcid Htr (files & db & d0 & s0 & s1 & Et & Edb & Ed & Eo & Ei & ->)%build_restored_ok.
  unfold package_db in Hd. rewrite Et, Edb in Hd. cbn in Hd. assert (d0 = d) as -> by congruence. assert (rv_recovery_epoch plan ≤ u128_max)%N as Hu by apply Hw.
  destruct (opened _ _ _ _ _ _ Hl Eo) as (_ & Hl0 & Ha0 & _). assert (cache_ok s0) as Hc0 by (intros h m; by rewrite Ha0, lookup_empty).
  destruct (install_layout _ _ _ _ _ Hc0 Hl0 Ei) as [Hl1 _]. eexists _, (st_db s1). split; [done|]. rewrite db_marker, (db_reopen _ d) by done. split; [done|].
  intros e' n' limits s r Eo2. destruct (restored_restarts _ _ _ _ _ _ _ _ _ _ _ _ _ _ Hu Hl Eo Ei Eo2) as [-> Hr]. split; [done|]. split; [done|]. intros trust.
  destruct (opened _ _ _ _ _ _ Hl1 Eo2) as (_ & Hl2 & Ha2 & _). rewrite dir_lookup_put, <-Hcid.
  setoid_rewrite <-(plan_trust_newer package plan _ Htr). by apply (validate_restarted d).
Qed.

(** C17: restoring a node is all or nothing. It writes only the destination and
    its partial directory, which it removes; it publishes nothing when it fails,
    except that the last directory sync may fail after the publication. What it
    publishes comes from a package that verifies, at a destination that did not
    exist, and starts as the restored node: opened again, the database has the new
    epoch everywhere, every hosted group has the packaged state at the applied
    position of the package, and the node passes the startup check exactly with
    a trust policy of a later generation than the one the package was taken
    under, with another digest and none of its keys. Without I/O failures, a node whose packaged database is restorable is restored. *)
Theorem restore_node_exact (env : FsEnv) (e n available : N) (package_path plan_path : FsPath) (node_id : NodeId) (destination : FsPath) (fs fs' : Fs) (r : Result RestoreInventory) (plan : RecoveryPlan) d :
  fs !! plan_path = Some (Fs_File (to_json plan)) → wf plan → String.prefix ".dal-restore-" destination.2 = false →
  package_db fs package_path node_id ≫= db_open_dir = Some d → layout_ok d →
  restore_node env e n available package_path plan_path node_id destination fs = (fs', r) →
  let stage := restore_stage destination.1 (rv_recovery_epoch plan) node_id in
  (∀ path, path ≠ stage → path ≠ destination → fs' !! path = fs !! path) ∧
  (fe_cleanup env = true → fs !! stage = None → fs' !! stage = None) ∧
  ((∃ err, r = Err err) ∧ fs' !! destination = fs !! destination ∨
   fs !! destination = None ∧ ∃ package inventory, verify_package (fs !! package_path) = Ok package ∧
     starts_restored d package (rv_recovery_epoch plan) node_id (fs' !! destination) ∧
     r = match fe_sync env with Some err => Err err | None => Ok inventory end) ∧
  (∀ package inventory, restore_inventory fs available package_path plan_path node_id destination = Ok inventory →
    verify_package (fs !! package_path) = Ok package → restorable d package plan node_id → fs !! stage = None →
    fe_build env = None → fe_publish env = None → fe_sync env = None → r = Ok inventory).
Proof.
  intros Hplan Hw Hpre Hd Hl E stage. unfold restore_node, io_bind, io_read in E.
  destruct (restore_inventory fs available package_path plan_path node_id destination) as [inventory|err] eqn:Ei; cycle 1.
  { injection E as <- <-. split_and!; naive_solver. }
  unfold restore_inventory in Ei. oks Ei. destruct x as [package plan']. cbn [fst snd] in *. rewrite Hx in E.
  destruct (checked_plan_ok _ _ _ _ _ _ Hplan Hw Hx) as (-> & Hv & Hf & Hz & Hnodes & Hcid & Htr). cbn [fst snd] in E. ensured.
  apply bool_decide_eq_true in Hx0, Hx1. rewrite <-Hnodes in Hx0.
  destruct (with_stage_exact _ _ _ _ _ _ _ (restore_stage_ne _ _ _ Hpre) E) as (H1' & H2' & H3' & H4'). split_and!; [done..| |].
  - destruct H3' as [?|(tree & v & Hnone & Hb & Hpub & ->)]; [by left|right]. split; [done|]. oks Hb. injection Hb as -> ->.
    exists package, v. split_and!; [done| |done]. rewrite Hpub. by apply (built_starts e n package plan node_id fs package_path).
  - intros package' inventory' [= <-] Hv' Hr Hs Hb Hp Hsy. assert (package' = package) as -> by congruence.
    unfold package_db in Hd. destruct (package_node fs package_path node_id) as [[|files|]|] eqn:En; try done.
    destruct (dir_lookup files "db") as [[|db|]|] eqn:Edb; try done. cbn in Hd.
    destruct (build_restored_succeeds e n package plan node_id files db d x2) as [t Ht]; [done..|].
    apply (H4' Hs Hx1 Hb Hp Hsy t). by rewrite Ht.
Qed.
End restored.
