(* ===== verification/MovesProofs.v ===== *)
(** * A move never splits the record from the group

    The meta group, the data group's committed configuration, the passes of all
    nodes' drivers and the observation frames in flight, as one transition
    system. Meta commands are the steps of the control-plane specification;
    frames are delayed, duplicated, reordered or lost; nodes crash at every
    await point; leadership moves. Raft is abstract: only the leader changes
    the configuration, from a uniform one through the joint one to the target. The last part shows
    that a leader finishes a healthy plan. *)

From S2P Require Import Prelude BTree Types Reconcile Config Codec SearchDef Keyspace Outbox MetaTypes Moves ApplyDurability Rocks Storage MetaSM MetaSpec MetaInv MetaProofs.
From coqutil Require Import Datatypes.RecordSetters.

Import TriangleBracketNotations.

Inductive DataConfig := Uniform (voters : list NodeId) | Joint (voters target : list NodeId).

(** [committed_voter_set]: the union of both configurations while joint. *)
Definition config_voters (c : DataConfig) : list NodeId :=
  match c with Uniform voters => voters | Joint voters target => bset_union voters target end.

Record Moves := mkMoves {
  mv_meta : MetaState;
  mv_applied : N;
  mv_config : DataConfig;
  mv_learners : list NodeId;
  mv_leader : option NodeId;
  mv_passes : gmap NodeId Pass;
  mv_net : list ObservationBody;
}.

(** The driver of [n] goes on to its next await point, or ends its pass. *)
Definition set_pass (n : NodeId) (o : option Pass) (passes : gmap NodeId Pass) : gmap NodeId Pass :=
  match o with Some pass => <[n := pass]> passes | None => delete n passes end.

Section moves.
Context `{HashesOk} `{!Codec SearchIndexDefinition, !Codec SearchIndexRecord} `{!CatalogCodec}.
Context (g : GroupId).

(** With [fenced], a node whose earlier pass is still suspended does not win an
    election. The configuration of the group changes through its current leader
    only: that an entry a deposed leader had appended is committed by its
    successor is not among the steps. *)
Inductive move_step (fenced : bool) (σ : Moves) : Moves → Prop :=
| step_meta m' log cmd :
    wf cmd → wf log → meta_step (mv_meta σ) log cmd m' → (mv_applied σ < log_index log)%N →
    (∀ plan_id o, cmd = MetaCommand_FinalizePlan g plan_id o ∨ cmd = MetaCommand_AbortReport g plan_id o →
       ∃ body, body ∈ mv_net σ ∧ into_meta_command body = cmd) →
    move_step fenced σ (mkMoves m' (log_index log) (mv_config σ) (mv_learners σ) (mv_leader σ) (mv_passes σ) (mv_net σ))
| step_elect n :
    (fenced = true → mv_passes σ !! n = None) →
    move_step fenced σ (mkMoves (mv_meta σ) (mv_applied σ) (mv_config σ) (mv_learners σ) (Some n) (mv_passes σ) (mv_net σ))
| step_depose :
    move_step fenced σ (mkMoves (mv_meta σ) (mv_applied σ) (mv_config σ) (mv_learners σ) None (mv_passes σ) (mv_net σ))
| step_tick n :
    mv_passes σ !! n = None →
    move_step fenced σ (mkMoves (mv_meta σ) (mv_applied σ) (mv_config σ) (mv_learners σ) (mv_leader σ)
      (set_pass n (Some Pass_Read) (mv_passes σ)) (mv_net σ))
| step_end n :                                    (* an error reply, a timeout, or a crash *)
    move_step fenced σ (mkMoves (mv_meta σ) (mv_applied σ) (mv_config σ) (mv_learners σ) (mv_leader σ)
      (set_pass n None (mv_passes σ)) (mv_net σ))
| step_lose net :                                 (* frames are lost *)
    net ⊆ mv_net σ →
    move_step fenced σ (mkMoves (mv_meta σ) (mv_applied σ) (mv_config σ) (mv_learners σ) (mv_leader σ) (mv_passes σ) net)
| step_read n :
    mv_passes σ !! n = Some Pass_Read →
    move_step fenced σ (mkMoves (mv_meta σ) (mv_applied σ) (mv_config σ) (mv_learners σ) (mv_leader σ)
      (set_pass n (pass_resume n g [] Pass_Read (Reply_Placement (ms_placements (mv_meta σ) !! g))) (mv_passes σ)) (mv_net σ))
| step_local n pass view :                        (* no effect on the group *)
    mv_passes σ !! n = Some pass →
    match pass with
    | Pass_Placed _ => mv_leader σ = Some n → view = config_voters (mv_config σ)
    | Pass_Admit _ _ _ | Pass_AddLearner _ _ _ | Pass_CaughtUp _ _ _ | Pass_IndexesReady _ _ _
    | Pass_RemoveLearners _ _ => True
    | _ => False
    end →
    move_step fenced σ (mkMoves (mv_meta σ) (mv_applied σ) (mv_config σ) (mv_learners σ) (mv_leader σ)
      (set_pass n (pass_resume n g view pass (Reply_Ok true)) (mv_passes σ)) (mv_net σ))
| step_add n p plan learner :
    mv_passes σ !! n = Some (Pass_AddLearner p plan learner) → mv_leader σ = Some n →
    move_step fenced σ (mkMoves (mv_meta σ) (mv_applied σ) (mv_config σ) (learner :: mv_learners σ) (mv_leader σ)
      (set_pass n (Some (Pass_CaughtUp p plan learner)) (mv_passes σ)) (mv_net σ))
| step_joint n p plan voters :                    (* the joint configuration commits *)
    mv_passes σ !! n = Some (Pass_ChangeVoters p plan) → mv_leader σ = Some n → mv_config σ = Uniform voters →
    voter_set (mp_target_voters plan) ≠ voters → mp_target_voters plan ⊆ voters ++ mv_learners σ →
    move_step fenced σ (mkMoves (mv_meta σ) (mv_applied σ) (Joint voters (voter_set (mp_target_voters plan)))
      (mv_learners σ) (mv_leader σ) (mv_passes σ) (mv_net σ))
| step_uniform n p plan voters target :           (* the target configuration commits *)
    mv_passes σ !! n = Some (Pass_ChangeVoters p plan) → mv_leader σ = Some n → mv_config σ = Joint voters target →
    voter_set (mp_target_voters plan) = target →
    move_step fenced σ (mkMoves (mv_meta σ) (mv_applied σ) (Uniform target)
      (filter (λ l, l ∉ target) (mv_learners σ)) (mv_leader σ) (mv_passes σ) (mv_net σ))
| step_rejoint n p plan voters target config learners :  (* another target while joint: whatever Raft makes of it *)
    mv_passes σ !! n = Some (Pass_ChangeVoters p plan) → mv_leader σ = Some n → mv_config σ = Joint voters target →
    voter_set (mp_target_voters plan) ≠ target →
    move_step fenced σ (mkMoves (mv_meta σ) (mv_applied σ) config learners (mv_leader σ) (mv_passes σ) (mv_net σ))
| step_changed n p plan :
    mv_passes σ !! n = Some (Pass_ChangeVoters p plan) → mv_leader σ = Some n →
    mv_config σ = Uniform (voter_set (mp_target_voters plan)) →
    move_step fenced σ (mkMoves (mv_meta σ) (mv_applied σ) (mv_config σ) (mv_learners σ) (mv_leader σ)
      (set_pass n (pass_resume n g [] (Pass_ChangeVoters p plan) (Reply_Ok true)) (mv_passes σ)) (mv_net σ))
| step_confirm n pass config_log_id :             (* quorum-confirmed *)
    mv_passes σ !! n = Some pass → mv_leader σ = Some n →
    match pass with Pass_ConfirmFinalize _ _ | Pass_ConfirmAbort _ _ => True | _ => False end →
    move_step fenced σ (mkMoves (mv_meta σ) (mv_applied σ) (mv_config σ) (mv_learners σ) (mv_leader σ)
      (set_pass n (pass_resume n g [] pass (Reply_Config config_log_id (config_voters (mv_config σ)))) (mv_passes σ)) (mv_net σ))
| step_remove n learner learners body :
    mv_passes σ !! n = Some (Pass_RemoveLearners (learner :: learners) body) → mv_leader σ = Some n →
    learner ∉ config_voters (mv_config σ) →
    move_step fenced σ (mkMoves (mv_meta σ) (mv_applied σ) (mv_config σ) (filter (λ l, l ≠ learner) (mv_learners σ))
      (mv_leader σ) (set_pass n (pass_resume n g [] (Pass_RemoveLearners (learner :: learners) body) (Reply_Ok true)) (mv_passes σ))
      (mv_net σ))
| step_submit n body :
    mv_passes σ !! n = Some (Pass_Submit body) →
    move_step fenced σ (mkMoves (mv_meta σ) (mv_applied σ) (mv_config σ) (mv_learners σ) (mv_leader σ)
      (set_pass n None (mv_passes σ)) (body :: mv_net σ)).

(** ** The invariant *)

Definition current (m : MetaState) (plan_id : N) (p : Placement) (plan : MovePlan) : Prop :=
  ms_placements m !! g = Some p ∧ pl_move p = Some plan ∧ mp_plan_id plan = plan_id.
Definition is_current (m : MetaState) (plan_id : N) : Prop := ∃ p plan, current m plan_id p plan.

(** Frames that were or will be submitted. *)
Definition pass_frames (pass : Pass) : list ObservationBody :=
  match pass with Pass_RemoveLearners _ body | Pass_Submit body => [body] | _ => [] end.
Definition pending (σ : Moves) (body : ObservationBody) : Prop :=
  body ∈ mv_net σ ∨ ∃ n pass, mv_passes σ !! n = Some pass ∧ body ∈ pass_frames pass.

(** What a frame says is true as long as its plan is current. *)
Definition frame_ok (σ : Moves) (body : ObservationBody) : Prop :=
  match body with
  | ObservationBody_Finalize _ _ plan_id o =>
      (plan_id ≤ mv_applied σ)%N ∧
      ∀ p plan, current (mv_meta σ) plan_id p plan → mv_config σ = Uniform (mp_target_voters plan)
  | ObservationBody_Abort _ _ plan_id o =>
      (plan_id ≤ mv_applied σ)%N ∧
      ∀ p plan, current (mv_meta σ) plan_id p plan →
        mp_aborting plan = true ∧ mv_config σ = Uniform (voter_set (ob_voter_set o)) ∧
        (voter_set (ob_voter_set o) = pl_voters p ∨ voter_set (ob_voter_set o) = mp_target_voters plan)
  end.
Definition no_abort (σ : Moves) (plan_id : N) : Prop :=
  ∀ sender h o, ¬ pending σ (ObservationBody_Abort sender h plan_id o).

(** A placement read earlier: legal, and still accurate while its plan is current. *)
Record snapshot_ok (m : MetaState) (applied : N) (p : Placement) (plan : MovePlan) : Prop := {
  sn_move : pl_move p = Some plan;
  sn_id : (mp_plan_id plan ≤ applied)%N;
  sn_sorted : bset_sorted (pl_voters p) ∧ bset_sorted (mp_target_voters plan);
  sn_change : single_change g (pl_voters p) (mp_target_voters plan);
  sn_current q now : current m (mp_plan_id plan) q now →
    pl_voters q = pl_voters p ∧ mp_target_voters now = mp_target_voters plan ∧
    (mp_aborting plan = true → mp_aborting now = true);
}.

Definition pass_ok (σ : Moves) (pass : Pass) : Prop :=
  match pass with
  | Pass_Read => True
  | Pass_Placed p => ∀ plan, pl_move p = Some plan → snapshot_ok (mv_meta σ) (mv_applied σ) p plan
  | Pass_Admit p plan _ | Pass_AddLearner p plan _ | Pass_CaughtUp p plan _ | Pass_IndexesReady p plan _ =>
      snapshot_ok (mv_meta σ) (mv_applied σ) p plan ∧ mp_aborting plan = false
  | Pass_ChangeVoters p plan | Pass_ConfirmFinalize p plan => snapshot_ok (mv_meta σ) (mv_applied σ) p plan
  | Pass_ConfirmAbort p plan => snapshot_ok (mv_meta σ) (mv_applied σ) p plan ∧ mp_aborting plan = true
  | Pass_RemoveLearners _ body | Pass_Submit body => True
  end.

(** What the leader's own pass may rely on. *)
Definition leads_ok (σ : Moves) (pass : Pass) : Prop :=
  match pass with
  | Pass_Placed p => ∀ plan, pl_move p = Some plan →
      (is_current (mv_meta σ) (mp_plan_id plan) ∨ mv_config σ = Uniform (pl_voters p) ∨ mv_config σ = Uniform (mp_target_voters plan)) ∧
      (mp_aborting plan = false → no_abort σ (mp_plan_id plan) ∧
         (is_current (mv_meta σ) (mp_plan_id plan) ∨ mv_config σ = Uniform (mp_target_voters plan)))
  | Pass_Admit p plan _ | Pass_AddLearner p plan _ | Pass_CaughtUp p plan _ | Pass_IndexesReady p plan _ =>
      no_abort σ (mp_plan_id plan) ∧ is_current (mv_meta σ) (mp_plan_id plan) ∧ mv_config σ = Uniform (pl_voters p)
  | Pass_ChangeVoters p plan =>
      mv_config σ = Uniform (mp_target_voters plan) ∨
      is_current (mv_meta σ) (mp_plan_id plan) ∧
      (mv_config σ = Joint (pl_voters p) (mp_target_voters plan) ∨
       mv_config σ = Uniform (pl_voters p) ∧ no_abort σ (mp_plan_id plan))
  | _ => True
  end.

(** The record and the group agree. *)
Definition agree (σ : Moves) : Prop :=
  ∃ p, ms_placements (mv_meta σ) !! g = Some p ∧
    match pl_move p with
    | None => mv_config σ = Uniform (pl_voters p)
    | Some plan => (mp_plan_id plan ≤ mv_applied σ)%N ∧
        (mv_config σ = Uniform (pl_voters p) ∨ mv_config σ = Joint (pl_voters p) (mp_target_voters plan) ∨
         mv_config σ = Uniform (mp_target_voters plan))
    end.

Record moves_inv (σ : Moves) : Prop := {
  mv_wf : meta_inv (mv_meta σ);
  mv_agree : agree σ;
  mv_frames body : pending σ body → frame_ok σ body;
  mv_pass n pass : mv_passes σ !! n = Some pass → pass_ok σ pass;
  mv_leads n pass : mv_leader σ = Some n → mv_passes σ !! n = Some pass → leads_ok σ pass;
}.

(** ** Voter sets of a legal plan *)

Lemma single_change_sets k v t : g = GroupId_Data k → bset_sorted v → bset_sorted t → single_change g v t →
  v ≠ t ∧ bset_union v t ≠ v ∧ bset_union v t ≠ t.
Proof.
  intros -> Hv Ht [Hr Ha]. unfold voters_removed, voters_added in *.
  assert (∀ a b, length (bset_difference a b) = 1 → ∃ x, x ∈ a ∧ x ∉ b) as Hx.
  { intros a b Hl. destruct (bset_difference a b) as [|x l] eqn:E; [done|]. exists x. apply elem_of_bset_difference.
    rewrite E. by left. }
  destruct (Hx _ _ Hr) as (x & Hxv & Hxt), (Hx _ _ Ha) as (y & Hyt & Hyv). split_and!.
  - intros ->. done.
  - intros E. apply Hyv. rewrite <-E. apply elem_of_bset_union. by right.
  - intros E. apply Hxt. rewrite <-E. apply elem_of_bset_union. by left.
Qed.

Lemma voter_set_id l : bset_sorted l → voter_set l = l.
Proof. apply bset_of_list_id. Qed.

(** ** Steps of one driver *)

Lemma leads_ok_mono σ σ' pass : mv_meta σ' = mv_meta σ → mv_config σ' = mv_config σ →
  (∀ body, pending σ' body → pending σ body) → leads_ok σ pass → leads_ok σ' pass.
Proof.
  intros Em Ec Hmono. assert (∀ id, no_abort σ id → no_abort σ' id) as Hna.
  { intros id Hn sender h b Hp. by eapply Hn, Hmono. }
  destruct pass; cbn; rewrite ?Em, ?Ec; try done.
  - intros Hx plan Hm. destruct (Hx plan Hm) as [X1 X2]. split; [done|]. intros Ha. destruct (X2 Ha). auto.
  - intros (? & ? & ?). auto.
  - intros (? & ? & ?). auto.
  - intros (? & ? & ?). auto.
  - intros (? & ? & ?). auto.
  - intros [?|(? & [?|[? ?]])]; [by left|right; auto..].
Qed.

Section driver.
Context (σ : Moves) (n : NodeId) (o : option Pass) (learners : list NodeId) (net : list ObservationBody).
Let σ' := mkMoves (mv_meta σ) (mv_applied σ) (mv_config σ) learners (mv_leader σ) (set_pass n o (mv_passes σ)) net.

Lemma pending_set_pass body : pending σ' body →
  body ∈ net ∨ (∃ pass, o = Some pass ∧ body ∈ pass_frames pass) ∨
  ∃ n' pass, n' ≠ n ∧ mv_passes σ !! n' = Some pass ∧ body ∈ pass_frames pass.
Proof.
  intros [Hb|(n' & pass & Hp & Hb)]; [by left|]. right. cbn in Hp. destruct (decide (n' = n)) as [->|Hne].
  - left. destruct o as [q|]; cbn in Hp; [|by rewrite lookup_delete_eq in Hp]. rewrite lookup_insert_eq in Hp.
    injection Hp as <-. eauto.
  - right. exists n', pass. destruct o as [q|]; cbn in Hp; [rewrite lookup_insert_ne in Hp|rewrite lookup_delete_ne in Hp]; done.
Qed.

Lemma driver_inv : moves_inv σ →
  (∀ body, pending σ' body → pending σ body ∨ (frame_ok σ body ∧ mv_leader σ = Some n)) →
  (∀ pass, o = Some pass → pass_ok σ pass ∧ (mv_leader σ = Some n → leads_ok σ' pass)) → moves_inv σ'.
Proof.
  intros [Hw Ha Hf Hp Hl] Hpend Ho. constructor; [done|done|..].
  - intros body [Hb|[Hb _]]%Hpend; [exact (Hf body Hb)|exact Hb].
  - intros n' pass Hx. cbn in Hx. destruct (decide (n' = n)) as [->|Hne].
    + destruct o as [q|]; cbn in Hx; [|by rewrite lookup_delete_eq in Hx]. rewrite lookup_insert_eq in Hx.
      injection Hx as <-. exact (proj1 (Ho q eq_refl)).
    + destruct o as [q|]; cbn in Hx; [rewrite lookup_insert_ne in Hx by done|rewrite lookup_delete_ne in Hx by done];
        exact (Hp n' pass Hx).
  - intros n' pass Hld Hx. cbn in Hld, Hx. destruct (decide (n' = n)) as [->|Hne].
    + destruct o as [q|]; cbn in Hx; [|by rewrite lookup_delete_eq in Hx]. rewrite lookup_insert_eq in Hx.
      injection Hx as <-. by apply Ho.
    + apply (leads_ok_mono σ); [done|done|..].
      * intros body [Hb|[_ Hn]]%Hpend; [done|]. rewrite Hld in Hn. by injection Hn as ->.
      * apply (Hl n'); [done|]. destruct o as [q|]; cbn in Hx;
          [by rewrite lookup_insert_ne in Hx by done|by rewrite lookup_delete_ne in Hx by done].
Qed.

(** The frames of the new pass were already those of the old one. *)
Lemma pending_same pass0 : mv_passes σ !! n = Some pass0 → net ⊆ mv_net σ →
  (∀ pass, o = Some pass → pass_frames pass ⊆ pass_frames pass0) → ∀ body, pending σ' body → pending σ body.
Proof.
  intros Hn Hnet Hsub body [Hb|[(pass & Ho & Hb)|(n' & pass & _ & Hp & Hb)]]%pending_set_pass.
  - left. by apply Hnet.
  - right. exists n, pass0. split; [done|]. by eapply Hsub.
  - right. eauto.
Qed.
End driver.

(** ** Meta commands *)

(** What a command does to the group's placement. *)
Inductive placement_step (log : LogId) (cmd : MetaCommand) (p : Placement) : Placement → Prop :=
| ps_same : placement_step log cmd p p
| ps_create target :
    pl_move p = None → placement_step log cmd p (mkPlacement (pl_voters p) (pl_voters_log_id p) (Some (mkMovePlan (log_index log) target false)))
| ps_mark plan :
    pl_move p = Some plan →
    placement_step log cmd p
      (mkPlacement (pl_voters p) (pl_voters_log_id p) (Some (mkMovePlan (mp_plan_id plan) (mp_target_voters plan) true)))
| ps_finalize plan o :
    cmd = MetaCommand_FinalizePlan g (mp_plan_id plan) o → pl_move p = Some plan →
    placement_step log cmd p (mkPlacement (mp_target_voters plan) (ob_config_log_id o) None)
| ps_abort plan o :
    cmd = MetaCommand_AbortReport g (mp_plan_id plan) o → pl_move p = Some plan →
    placement_step log cmd p (mkPlacement (voter_set (ob_voter_set o)) (ob_config_log_id o) None).

Lemma meta_placement_step m m' log cmd p : meta_inv m → meta_step m log cmd m' → ms_placements m !! g = Some p →
  ∃ p', ms_placements m' !! g = Some p' ∧ placement_step log cmd p p'.
Proof.
  intros Hi [_ Hr] Hp.
  assert (∀ m1, ms_placements m1 = ms_placements m → ∃ p', ms_placements m1 !! g = Some p' ∧ placement_step log cmd p p') as Hsame.
  { intros m1 ->. exists p. split; [done|constructor]. }
  assert (∀ g0 x, (g0 = g → placement_step log cmd p x) →
    ∃ p', ms_placements (set_placement g0 x m) !! g = Some p' ∧ placement_step log cmd p p') as Hset.
  { intros g0 x Hx. cbn. destruct (decide (g0 = g)) as [->|Hne]; [rewrite lookup_insert_eq; eauto|].
    rewrite lookup_insert_ne by done. by apply Hsame. }
  destruct Hr; try (by apply Hsame); try (apply Hset; intros Hg0).
  - destruct (mi_placements m Hi _ p Hp) as (c & Hc & _). congruence.
  - congruence.
  - assert (p0 = p) as -> by congruence. by apply ps_create.
  - assert (p0 = p) as -> by congruence. by apply ps_mark.
  - assert (p0 = p) as -> by congruence. apply ps_finalize; congruence.
  - assert (p0 = p) as -> by congruence. subst voters. apply (ps_abort _ _ _ plan); congruence.
  - destruct (sr_building r); by apply Hsame.
  - case_match; by apply Hsame.
Qed.

(** While a plan stays current the command at most marks it aborting. *)
Lemma current_step m m' log cmd p p' id q plan applied : ms_placements m !! g = Some p → ms_placements m' !! g = Some p' →
  placement_step log cmd p p' → (id ≤ applied)%N → (applied < log_index log)%N → current m' id q plan →
  ∃ q0 plan0, current m id q0 plan0 ∧ pl_voters q0 = pl_voters q ∧ mp_target_voters plan0 = mp_target_voters plan ∧
    (mp_aborting plan0 = true → mp_aborting plan = true).
Proof.
  intros Hp Hp' Hst Hid Hlog (Hq & Hm & Hpid). rewrite Hp' in Hq. injection Hq as <-.
  destruct Hst as [|target Hn|plan1 Hn|plan1 o _ Hn|plan1 o _ Hn]; cbn in Hm; try done.
  - exists p, plan. split_and!; [split_and!; done|done..].
  - injection Hm as <-. cbn in Hpid. lia.
  - injection Hm as <-. exists p, plan1. split_and!; [split_and!; done|done..].
Qed.

(** The frame a resolving command was made from. *)
Lemma resolving_frame σ log cmd p p' plan : moves_inv σ →
  (∀ plan_id o, cmd = MetaCommand_FinalizePlan g plan_id o ∨ cmd = MetaCommand_AbortReport g plan_id o →
       ∃ body, body ∈ mv_net σ ∧ into_meta_command body = cmd) →
  ms_placements (mv_meta σ) !! g = Some p → placement_step log cmd p p' → pl_move p = Some plan → pl_move p' = None →
  mv_config σ = Uniform (pl_voters p') ∧
  (pl_voters p' = mp_target_voters plan ∨
   pl_voters p' = pl_voters p ∧ ¬ no_abort σ (mp_plan_id plan)).
Proof.
  intros [_ _ Hf _ _] Hnet Hp Hst Hm Hm'. destruct Hst as [|target Hn|plan1 Hn|plan1 o -> Hn|plan1 o -> Hn]; cbn in *; try congruence.
  - assert (plan1 = plan) as -> by congruence. destruct (Hnet _ _ (or_introl eq_refl)) as (body & Hin & E).
    destruct body as [sender h id o'|]; [|done]. injection E as -> -> ->.
    destruct (Hf _ (or_introl Hin)) as [_ Hc]. split; [by apply (Hc p)|by left].
  - assert (plan1 = plan) as -> by congruence. destruct (Hnet _ _ (or_intror eq_refl)) as (body & Hin & E).
    destruct body as [|sender h id o']; [done|]. injection E as -> -> ->.
    destruct (Hf _ (or_introl Hin)) as [_ Hc]. destruct (Hc p plan) as (_ & Hcfg & Hor); [done|].
    split; [done|]. destruct Hor as [Hv|Hv]; [right|by left]. split; [done|]. intros Hna. eapply Hna. left. exact Hin.
Qed.

Lemma is_current_step m m' log cmd p p' id : ms_placements m !! g = Some p → ms_placements m' !! g = Some p' →
  placement_step log cmd p p' → is_current m id →
  is_current m' id ∨ ∃ plan, pl_move p = Some plan ∧ mp_plan_id plan = id ∧ pl_move p' = None.
Proof.
  intros Hp Hp' Hst (q & plan & Hq & Hm & Hid). rewrite Hp in Hq. injection Hq as <-.
  destruct Hst as [|target Hn|plan1 Hn|plan1 o _ Hn|plan1 o _ Hn]; [..|by right; eauto|by right; eauto]; try congruence.
  - left. by exists p, plan.
  - assert (plan1 = plan) as -> by congruence. left. eexists _, _. split_and!; [done|done|done].
Qed.

(** What the leader's pass relies on survives a command: a resolution agrees
    with the configuration. *)
Lemma leads_ok_step k σ m' log cmd p p' pass : g = GroupId_Data k → moves_inv σ →
  (∀ plan_id o, cmd = MetaCommand_FinalizePlan g plan_id o ∨ cmd = MetaCommand_AbortReport g plan_id o →
       ∃ body, body ∈ mv_net σ ∧ into_meta_command body = cmd) →
  ms_placements (mv_meta σ) !! g = Some p → ms_placements m' !! g = Some p' → placement_step log cmd p p' →
  pass_ok σ pass → leads_ok σ pass →
  leads_ok (mkMoves m' (log_index log) (mv_config σ) (mv_learners σ) (mv_leader σ) (mv_passes σ) (mv_net σ)) pass.
Proof.
  intros Hg Hinv Hnet Hp Hp' Hst Hok Hl.
  assert (∀ p0 plan0, snapshot_ok (mv_meta σ) (mv_applied σ) p0 plan0 → is_current (mv_meta σ) (mp_plan_id plan0) →
    is_current m' (mp_plan_id plan0) ∨ mv_config σ = Uniform (mp_target_voters plan0) ∨
    mv_config σ = Uniform (pl_voters p0) ∧ ¬ no_abort σ (mp_plan_id plan0)) as Hcur.
  { intros p0 plan0 Hs Hc. destruct (is_current_step _ _ _ _ _ _ _ Hp Hp' Hst Hc) as [?|(plan & Hm & Hid & Hm')]; [by left|right].
    destruct (resolving_frame σ log cmd p p' plan Hinv Hnet Hp Hst Hm Hm') as [Hcfg Hor].
    destruct (sn_current _ _ _ _ Hs p plan) as (Hv & Ht & _); [done|]. rewrite Hcfg.
    destruct Hor as [->|[-> Hna]]; [left; congruence|right]. split; congruence. }
  assert (∀ p0 plan0, snapshot_ok (mv_meta σ) (mv_applied σ) p0 plan0 →
    pl_voters p0 ≠ mp_target_voters plan0) as Hne.
  { intros p0 plan0 [_ _ [S1 S2] S3 _]. by destruct (single_change_sets k _ _ Hg S1 S2 S3). }
  destruct pass as [|p0|p0 plan0 l|p0 plan0 l|p0 plan0 l|p0 plan0 l|p0 plan0|p0 plan0|p0 plan0| |]; try exact Logic.I; cbn in *.
  { intros plan0 Hm. specialize (Hok plan0 Hm). destruct (Hl plan0 Hm) as [X1 X2]. specialize (Hcur p0 plan0 Hok). split.
    - destruct X1 as [X1|X1]; [|by right]. destruct (Hcur X1) as [?|[?|[? _]]]; auto.
    - intros Hab. destruct (X2 Hab) as [Hna X3]. split; [done|]. destruct X3 as [X3|X3]; [|by right].
      destruct (Hcur X3) as [?|[?|[_ Hx]]]; [by left|by right|]. by destruct Hx. }
  1, 2, 3, 4: destruct Hok as [Hok _], Hl as (Hna & Hc & Hcfg); split_and!; [done| |done];
    destruct (Hcur p0 plan0 Hok Hc) as [?|[Hx|[_ Hx]]]; [done| |by destruct Hx];
    rewrite Hcfg in Hx; injection Hx as Hx; by destruct (Hne p0 plan0 Hok).
  destruct Hl as [?|(Hc & Hl)]; [by left|]. destruct (Hcur p0 plan0 Hok Hc) as [?|[?|[Hx Hna]]]; [by right|by left|].
  destruct Hl as [Hl|[_ Hl]]; [congruence|]. by destruct Hna.
Qed.

Lemma step_meta_inv k fenced σ m' log cmd : g = GroupId_Data k → moves_inv σ →
  wf cmd → wf log → meta_step (mv_meta σ) log cmd m' → (mv_applied σ < log_index log)%N →
  (∀ plan_id o, cmd = MetaCommand_FinalizePlan g plan_id o ∨ cmd = MetaCommand_AbortReport g plan_id o →
       ∃ body, body ∈ mv_net σ ∧ into_meta_command body = cmd) →
  move_step fenced σ (mkMoves m' (log_index log) (mv_config σ) (mv_learners σ) (mv_leader σ) (mv_passes σ) (mv_net σ)) →
  moves_inv (mkMoves m' (log_index log) (mv_config σ) (mv_learners σ) (mv_leader σ) (mv_passes σ) (mv_net σ)).
Proof.
  intros Hg Hinv Hwc Hwl Hst Hlt Hnet _. pose proof Hinv as [Hw (p & Hp & Ha) Hf Hps Hl].
  destruct (meta_placement_step _ _ _ _ p Hw Hst Hp) as (p' & Hp' & Hpst).
  assert (∀ id q plan, (id ≤ mv_applied σ)%N → current m' id q plan → ∃ q0 plan0, current (mv_meta σ) id q0 plan0 ∧
    pl_voters q0 = pl_voters q ∧ mp_target_voters plan0 = mp_target_voters plan ∧
    (mp_aborting plan0 = true → mp_aborting plan = true)) as Hcur.
  { intros id q plan Hid Hc. by eapply current_step. }
  assert (∀ q plan, snapshot_ok (mv_meta σ) (mv_applied σ) q plan → snapshot_ok m' (log_index log) q plan) as Hsnap.
  { intros q plan [S1 S2 S3 S4 S5]. constructor; [done|lia|done|done|]. intros q' now Hc.
    destruct (Hcur _ q' now S2 Hc) as (q0 & now0 & Hc0 & <- & <- & Hab). destruct (S5 q0 now0 Hc0) as (? & ? & ?). auto. }
  constructor.
  - by eapply meta_rule_inv; [..|apply Hst].
  - exists p'. split; [done|]. cbn. destruct (pl_move p') as [plan'|] eqn:Em'.
    + destruct Hpst as [|target Hn|plan1 Hn|plan1 o _ Hn|plan1 o _ Hn]; cbn in Em'; try done.
      * rewrite Em' in Ha. destruct Ha. split; [lia|done].
      * injection Em' as <-. rewrite Hn in Ha. cbn. split; [lia|by left].
      * injection Em' as <-. rewrite Hn in Ha. cbn. destruct Ha. split; [lia|done].
    + destruct (pl_move p) as [plan|] eqn:Em.
      * by eapply (resolving_frame σ log cmd p p' plan).
      * destruct Hpst; cbn in *; congruence.
  - intros body Hb. specialize (Hf body Hb). destruct body as [sender h id o|sender h id o]; cbn in *; destruct Hf as [Hid Hc].
    + split; [lia|]. intros q plan Hcq. destruct (Hcur id q plan Hid Hcq) as (q0 & plan0 & Hc0 & _ & <- & _). by eapply Hc.
    + split; [lia|]. intros q plan Hcq. destruct (Hcur id q plan Hid Hcq) as (q0 & plan0 & Hc0 & <- & <- & Hab).
      destruct (Hc q0 plan0 Hc0) as (? & ? & ?). auto.
  - intros n pass Hn. specialize (Hps n pass Hn). destruct pass; cbn in *; try done; try naive_solver.
  - intros n pass Hld Hn. apply (leads_ok_step k σ m' log cmd p p'); [done..|by apply (Hps n)|by apply (Hl n)].
Qed.

(** ** Driver steps *)

(** The placement of the group, as the invariant describes it. *)
Lemma read_snapshot σ p plan : moves_inv σ → ms_placements (mv_meta σ) !! g = Some p → pl_move p = Some plan →
  snapshot_ok (mv_meta σ) (mv_applied σ) p plan.
Proof.
  intros [Hw (q & Hq & Ha) _ _ _] Hp Hm. assert (q = p) as -> by congruence. rewrite Hm in Ha. destruct Ha as [Hid _].
  destruct (mi_placements _ Hw g p Hp) as (c & _ & Hok). destruct (pk_move _ _ _ Hok plan Hm) as [Hst Hch].
  constructor; [done|done|split; [apply Hok|done]|done|]. intros q now (Hq' & Hm' & _).
  assert (q = p) as -> by congruence. assert (now = plan) as -> by congruence. done.
Qed.

(** A pass that has just read a live plan: nothing has reported its abort. *)
Lemma read_leads σ p : moves_inv σ → ms_placements (mv_meta σ) !! g = Some p → leads_ok σ (Pass_Placed p).
Proof.
  intros Hinv Hp plan Hm. assert (current (mv_meta σ) (mp_plan_id plan) p plan) as Hc by done.
  assert (is_current (mv_meta σ) (mp_plan_id plan)) as Hic by (exists p, plan; done).
  split; [by left|]. intros Hab. split; [|by left]. intros sender h o Hpend.
  destruct (mv_frames _ Hinv _ Hpend) as [_ Hx]. destruct (Hx p plan Hc) as [Ht _]. congruence.
Qed.

(** The configuration of a current plan, from its voters. *)
Lemma current_config k σ p plan q now : g = GroupId_Data k → moves_inv σ → snapshot_ok (mv_meta σ) (mv_applied σ) p plan →
  current (mv_meta σ) (mp_plan_id plan) q now →
  voter_set (config_voters (mv_config σ)) = config_voters (mv_config σ) ∧
  (config_voters (mv_config σ) = pl_voters p → mv_config σ = Uniform (pl_voters p)) ∧
  (config_voters (mv_config σ) = mp_target_voters plan → mv_config σ = Uniform (mp_target_voters plan)) ∧
  (config_voters (mv_config σ) = bset_union (pl_voters p) (mp_target_voters plan) →
   mv_config σ = Joint (pl_voters p) (mp_target_voters plan)).
Proof.
  intros Hg [_ (q' & Hq & Ha) _ _ _] [_ _ [S1 S2] S3 S5] Hc. destruct (S5 q now Hc) as (Hv & Ht & _).
  destruct Hc as (Hq' & Hm & _). assert (q' = q) as -> by congruence. rewrite Hm, Hv, Ht in Ha.
  destruct (single_change_sets k _ _ Hg S1 S2 S3) as (N1 & N2 & N3). destruct Ha as [_ [E|[E|E]]]; rewrite E; cbn;
    (split; [apply voter_set_id; (done || apply bset_union_sorted)|]); split_and!; intros; congruence.
Qed.

(** The first code after the read. *)
Lemma drive_placement_inv k σ p n view pass : g = GroupId_Data k → moves_inv σ →
  pass_ok σ (Pass_Placed p) → (mv_leader σ = Some n → view = config_voters (mv_config σ)) →
  (mv_leader σ = Some n → leads_ok σ (Pass_Placed p)) → drive_placement p view = Some pass →
  pass_ok σ pass ∧ (mv_leader σ = Some n → leads_ok σ pass).
Proof.
  intros Hg Hinv Hok Hview Hl Hd. unfold drive_placement in Hd. destruct (pl_move p) as [plan|] eqn:Em; [|done].
  specialize (Hok plan Em). pose proof Hok as [_ _ [S1 S2] S3 _].
  destruct (single_change_sets k _ _ Hg S1 S2 S3) as (N1 & N2 & N3).
  unfold reconcile in Hd. rewrite Em, !voter_set_id in Hd by done.
  destruct (bool_decide_reflect (view = pl_voters p)) as [->|Hn1].
  { destruct (mp_aborting plan) eqn:Eab; [by injection Hd as <-|]. unfold execute_move in Hd.
    destruct (negb _); [done|]. destruct (head _) as [learner|]; [|done]. injection Hd as <-. split; [done|].
    intros Hld. specialize (Hview Hld). destruct (Hl Hld plan Em) as [_ [Hna Hc]%(λ f, f Eab)].
    destruct Hc as [Hc|Hc]; [|rewrite Hc in Hview; cbn in Hview; congruence]. split_and!; [done|done|].
    destruct Hc as (q & now & Hc). by eapply current_config. }
  destruct (bool_decide_reflect (view = mp_target_voters plan)) as [->|Hn2].
  { destruct (mp_aborting plan) eqn:Eab; by injection Hd as <-. }
  destruct (bool_decide_reflect (view = bset_union (pl_voters p) (mp_target_voters plan))) as [->|Hn3]; [|done].
  injection Hd as <-. split; [done|]. intros Hld. specialize (Hview Hld). destruct (Hl Hld plan Em) as [[Hc|[Hc|Hc]] _].
  - right. split; [done|]. left. destruct Hc as (q & now & Hc). by eapply current_config.
  - rewrite Hc in Hview. cbn in Hview. congruence.
  - rewrite Hc in Hview. cbn in Hview. congruence.
Qed.

(** The frames of the reports are true. *)
Lemma report_finalize_frame k σ p plan n log pass : g = GroupId_Data k → moves_inv σ →
  snapshot_ok (mv_meta σ) (mv_applied σ) p plan →
  report_finalize n g plan log (config_voters (mv_config σ)) = Some pass →
  ∃ body, pass = Pass_Submit body ∧ frame_ok σ body.
Proof.
  intros Hg Hinv Hok Hr. unfold report_finalize in Hr. destruct (bool_decide_reflect
    (voter_set (config_voters (mv_config σ)) = voter_set (mp_target_voters plan))) as [E|]; cbn [negb] in Hr; [|done].
  destruct log as [log|]; [|done]. injection Hr as <-. eexists. split; [done|]. cbn. split; [apply Hok|].
  intros q now Hc. pose proof Hok as [_ _ [S1 S2] _ S5]. destruct (S5 q now Hc) as (_ & -> & _).
  destruct (current_config k σ p plan q now Hg Hinv Hok Hc) as (Ev & _ & Ht & _). apply Ht.
  by rewrite Ev, voter_set_id in E.
Qed.

Lemma report_abort_frame k σ p plan n log pass : g = GroupId_Data k → moves_inv σ →
  snapshot_ok (mv_meta σ) (mv_applied σ) p plan → mp_aborting plan = true →
  report_abort n g p plan log (config_voters (mv_config σ)) = Some pass →
  pass_ok σ pass ∧ leads_ok σ pass ∧ ∀ body, body ∈ pass_frames pass → frame_ok σ body.
Proof.
  intros Hg Hinv Hok Hab Hr. pose proof Hok as [_ Hid [S1 S2] _ S5]. unfold report_abort in Hr.
  rewrite !(voter_set_id (pl_voters p)), !(voter_set_id (mp_target_voters plan)) in Hr by done.
  assert (∀ report cfg, report = pl_voters p ∨ report = mp_target_voters plan →
    voter_set (config_voters (mv_config σ)) = report →
    frame_ok σ (ObservationBody_Abort n g (mp_plan_id plan) (mkObservation g (mp_plan_id plan) report cfg))) as Hframe.
  { intros report cfg Hrep Hcv. cbn. split; [done|]. intros q now Hc. destruct (S5 q now Hc) as (-> & -> & Ha).
    destruct (current_config k σ p plan q now Hg Hinv Hok Hc) as (Ev & Cv & Ct & _). rewrite Ev in Hcv.
    split; [by apply Ha|]. destruct Hrep as [-> | ->]; rewrite voter_set_id by done; auto. }
  destruct (bool_decide_reflect (voter_set (config_voters (mv_config σ)) = pl_voters p)) as [E|E];
    [|destruct (bool_decide_reflect (voter_set (config_voters (mv_config σ)) = mp_target_voters plan)) as [E'|]; [|done]];
    (destruct log as [log|]; [|done]); cbv zeta in Hr.
  - destruct (bset_difference _ _) as [|learner learners]; injection Hr as <-; split_and!; try done;
      intros body ->%list_elem_of_singleton; by apply Hframe; [left|].
  - injection Hr as <-. split_and!; try done. intros body ->%list_elem_of_singleton. apply Hframe; [by right|done].
Qed.

(** A configuration change by the leader, for its current plan. *)
Lemma config_inv σ n p plan config learners : moves_inv σ → mv_leader σ = Some n →
  mv_passes σ !! n = Some (Pass_ChangeVoters p plan) → is_current (mv_meta σ) (mp_plan_id plan) →
  (∀ sender h o, ¬ pending σ (ObservationBody_Finalize sender h (mp_plan_id plan) o)) → no_abort σ (mp_plan_id plan) →
  config = Joint (pl_voters p) (mp_target_voters plan) ∨ config = Uniform (mp_target_voters plan) →
  moves_inv (mkMoves (mv_meta σ) (mv_applied σ) config learners (mv_leader σ) (mv_passes σ) (mv_net σ)).
Proof.
  intros Hinv Hld Hn (q & now & Hc) Hnf Hna Hcfg. pose proof Hinv as [Hw Ha Hf Hps Hl].
  pose proof (Hps n _ Hn) as Hok. destruct (sn_current _ _ _ _ Hok q now Hc) as (Hv & Ht & _).
  destruct Hc as (Hq & Hm & Hid). constructor; [done|..|exact Hps|].
  - destruct Ha as (q' & Hq' & Ha). assert (q' = q) as -> by congruence. exists q. split; [done|]. rewrite Hm in Ha |- *.
    cbn. split; [apply Ha|]. rewrite Hv, Ht. destruct Hcfg; auto.
  - intros body Hb. pose proof (Hf body Hb) as Hfr. assert (∀ id q0 plan0, current (mv_meta σ) id q0 plan0 → id = mp_plan_id plan) as Huniq.
    { intros id q0 plan0 (? & ? & <-). congruence. }
    destruct body as [sender h id o|sender h id o]; cbn in *; destruct Hfr as [Hle _]; (split; [done|]); intros q0 plan0 Hc0;
      rewrite (Huniq _ _ _ Hc0) in Hb; [by destruct (Hnf sender h o)|by destruct (Hna sender h o)].
  - intros n' pass Hld' Hn'. cbn in Hld', Hn'. assert (n' = n) as -> by congruence.
    rewrite Hn in Hn'. injection Hn' as <-. cbn. destruct Hcfg as [Hcfg|Hcfg]; [right|by left]. split; [by exists q, now|by left].
Qed.

(** While a plan is current and the configuration is not uniform on a frame's
    voters, the frame is not pending. *)
Lemma no_finalize σ plan_id q now : moves_inv σ → current (mv_meta σ) plan_id q now →
  mv_config σ ≠ Uniform (mp_target_voters now) → ∀ sender h o, ¬ pending σ (ObservationBody_Finalize sender h plan_id o).
Proof. intros Hinv Hc Hne sender h o Hp. destruct (mv_frames _ Hinv _ Hp) as [_ Hx]. by apply Hne, (Hx q). Qed.

Lemma joint_no_abort σ plan_id q now v t : moves_inv σ → current (mv_meta σ) plan_id q now → mv_config σ = Joint v t →
  no_abort σ plan_id.
Proof. intros Hinv Hc Hj sender h o Hp. destruct (mv_frames _ Hinv _ Hp) as [_ Hx]. destruct (Hx q now Hc) as (_ & E & _). congruence. Qed.

Lemma change_voters_inv k σ n p plan config learners : g = GroupId_Data k → moves_inv σ → mv_leader σ = Some n →
  mv_passes σ !! n = Some (Pass_ChangeVoters p plan) →
  mv_config σ ≠ Uniform (mp_target_voters plan) →
  (mv_config σ = Uniform (pl_voters p) → config = Joint (pl_voters p) (mp_target_voters plan)) →
  (mv_config σ = Joint (pl_voters p) (mp_target_voters plan) → config = Uniform (mp_target_voters plan)) →
  moves_inv (mkMoves (mv_meta σ) (mv_applied σ) config learners (mv_leader σ) (mv_passes σ) (mv_net σ)).
Proof.
  intros Hg Hinv Hld Hn Hne H1' H2'. pose proof (mv_pass _ Hinv n _ Hn) as Hok.
  destruct (mv_leads _ Hinv n _ Hld Hn) as [|((q & now & Hc) & Hcase)]; [done|].
  destruct (sn_current _ _ _ _ Hok q now Hc) as (_ & Ht & _).
  assert (∀ sender h o, ¬ pending σ (ObservationBody_Finalize sender h (mp_plan_id plan) o)) as Hnf
    by (eapply no_finalize; [done..|congruence]).
  destruct Hcase as [Hj|[Hu Hna]].
  - eapply config_inv; eauto; [by exists q, now|by eapply joint_no_abort].
  - eapply config_inv; eauto. by exists q, now.
Qed.

Lemma snapshot_voters σ p plan : snapshot_ok (mv_meta σ) (mv_applied σ) p plan →
  voter_set (mp_target_voters plan) = mp_target_voters plan.
Proof. intros [_ _ [_ S2] _ _]. by apply voter_set_id. Qed.

(** A local continuation: same facts, same frames. *)
Lemma step_local_inv k σ n pass view : g = GroupId_Data k → moves_inv σ → mv_passes σ !! n = Some pass →
  match pass with
  | Pass_Placed _ => mv_leader σ = Some n → view = config_voters (mv_config σ)
  | Pass_Admit _ _ _ | Pass_AddLearner _ _ _ | Pass_CaughtUp _ _ _ | Pass_IndexesReady _ _ _ | Pass_RemoveLearners _ _ => True
  | _ => False
  end →
  ∀ learners, moves_inv (mkMoves (mv_meta σ) (mv_applied σ) (mv_config σ) learners (mv_leader σ)
    (set_pass n (pass_resume n g view pass (Reply_Ok true)) (mv_passes σ)) (mv_net σ)).
Proof.
  intros Hg Hinv Hn Hpass learners. pose proof (mv_pass _ Hinv n pass Hn) as Hok.
  pose proof (λ Hld, mv_leads _ Hinv n pass Hld Hn) as Hl.
  assert (∀ o, (∀ next, o = Some next → pass_ok σ next ∧ (mv_leader σ = Some n → leads_ok σ next) ∧
    pass_frames next ⊆ pass_frames pass) → moves_inv (mkMoves (mv_meta σ) (mv_applied σ) (mv_config σ) learners (mv_leader σ)
    (set_pass n o (mv_passes σ)) (mv_net σ))) as Hgo.
  { intros o Ho. assert (∀ body, pending (mkMoves (mv_meta σ) (mv_applied σ) (mv_config σ) learners (mv_leader σ)
      (set_pass n o (mv_passes σ)) (mv_net σ)) body → pending σ body) as Hpend.
    { apply (pending_same σ n o learners (mv_net σ) pass Hn); [done|]. intros next Hx. by apply Ho. }
    apply driver_inv; [done|by auto|]. intros next Hx. destruct (Ho next Hx) as (? & Hlead & _). split; [done|].
    intros Hld. apply (leads_ok_mono σ); auto. }
  apply Hgo. intros next Hx. destruct pass as [|p|p plan l|p plan l|p plan l|p plan l|p plan|p plan|p plan|ls body|body];
    cbn in Hx; try done.
  - destruct (drive_placement_inv k σ p n view next Hg Hinv Hok Hpass Hl Hx) as [? ?]. split_and!; [done..|].
    unfold drive_placement, execute_move in Hx. by repeat (case_match; try done); injection Hx as <-.
  - injection Hx as <-. done.
  - injection Hx as <-. done.
  - injection Hx as <-. done.
  - injection Hx as <-. split_and!; [apply Hok| |done]. intros Hld. destruct (Hl Hld) as (? & ? & ?). right. auto.
  - destruct ls as [|l ls]; [done|]. by destruct ls; injection Hx as <-.
Qed.

(** A report: the new frames are true, and only the leader makes them. *)
Lemma step_report_inv σ n o : moves_inv σ → mv_leader σ = Some n →
  (∀ pass, o = Some pass → pass_ok σ pass ∧ (∀ σ', leads_ok σ' pass) ∧ ∀ body, body ∈ pass_frames pass → frame_ok σ body) →
  moves_inv (mkMoves (mv_meta σ) (mv_applied σ) (mv_config σ) (mv_learners σ) (mv_leader σ)
    (set_pass n o (mv_passes σ)) (mv_net σ)).
Proof.
  intros Hinv Hld Ho. apply driver_inv; [done| |].
  - intros body [Hb|[(pass & Hp & Hb)|(n' & pass & _ & Hp & Hb)]]%pending_set_pass; [by left; left| |left; right; eauto].
    right. split; [|done]. by apply (Ho pass Hp).
  - intros pass Hp. destruct (Ho pass Hp) as (? & ? & _). auto.
Qed.

(** Losing frames, and reading the placement. *)
Lemma step_lose_inv σ net : moves_inv σ → net ⊆ mv_net σ →
  moves_inv (mkMoves (mv_meta σ) (mv_applied σ) (mv_config σ) (mv_learners σ) (mv_leader σ) (mv_passes σ) net).
Proof.
  intros [Hw Ha Hf Hps Hl] Hsub.
  assert (∀ body, pending (mkMoves (mv_meta σ) (mv_applied σ) (mv_config σ) (mv_learners σ) (mv_leader σ) (mv_passes σ) net) body →
    pending σ body) as Hpend by (intros body [Hb|Hb]; [left; by apply Hsub|by right]).
  constructor; [done|done| |done|].
  - intros body Hb. exact (Hf body (Hpend body Hb)).
  - intros n pass Hld Hn. apply (leads_ok_mono σ); auto. by apply (Hl n).
Qed.

Lemma step_read_inv σ n : moves_inv σ → mv_passes σ !! n = Some Pass_Read →
  moves_inv (mkMoves (mv_meta σ) (mv_applied σ) (mv_config σ) (mv_learners σ) (mv_leader σ)
    (set_pass n (pass_resume n g [] Pass_Read (Reply_Placement (ms_placements (mv_meta σ) !! g))) (mv_passes σ)) (mv_net σ)).
Proof.
  intros Hinv Hn. destruct (ms_placements (mv_meta σ) !! g) as [p|] eqn:Ep; cbn [pass_resume].
  - assert (∀ body, pending (mkMoves (mv_meta σ) (mv_applied σ) (mv_config σ) (mv_learners σ) (mv_leader σ)
      (set_pass n (Some (Pass_Placed p)) (mv_passes σ)) (mv_net σ)) body → pending σ body) as Hpend.
    { apply (pending_same σ n _ _ _ Pass_Read Hn); [done|]. by intros pass [= <-]. }
    apply driver_inv; [done|by auto|]. intros pass [= <-]. split.
    + intros plan Hm. by apply read_snapshot.
    + intros Hld. apply (leads_ok_mono σ); auto. by apply read_leads.
  - apply driver_inv; [done| |done]. intros body Hb. left. revert body Hb. by apply (pending_same σ n _ _ _ Pass_Read Hn).
Qed.

Lemma move_step_inv k σ σ' : g = GroupId_Data k → moves_inv σ → move_step true σ σ' → moves_inv σ'.
Proof.
  intros Hg Hinv Hst. pose proof Hinv as [Hw Ha Hf Hps Hl].
  inversion Hst as [m' log cmd Hwc Hwl Hm Hlt Hnet|n Hidle| |n Hn|n|net Hsub|n Hn|n pass view Hn Hpass|n p plan learner Hn Hld
    |n p plan voters Hn Hld Hcfg Hne Hlearn|n p plan voters target Hn Hld Hcfg Ht|n p plan voters target config learners Hn Hld Hcfg Hne
    |n p plan Hn Hld Hcfg|n pass log Hn Hld Hpass|n learner learners body Hn Hld Hnv|n body Hn]; subst σ'.
  - by eapply (step_meta_inv k).
  - constructor; try done. intros n' pass Hld Hn. cbn in Hld, Hn. injection Hld as <-. by rewrite Hidle in Hn.
  - constructor; try done. 
  - apply driver_inv; [done| |by intros pass [= <-]].
    intros body [Hb|[(pass & [= <-] & Hb)|(n' & pass & _ & Hp & Hb)]]%pending_set_pass; [by left; left|by apply not_elem_of_nil in Hb|].
    left; right; eauto.
  - apply driver_inv; [done| |done].
    intros body [Hb|[(pass & ? & Hb)|(n' & pass & _ & Hp & Hb)]]%pending_set_pass; [by left; left|done|left; right; eauto].
  - by apply step_lose_inv.
  - by apply step_read_inv.
  - by apply (step_local_inv k).
  - by apply (step_local_inv k σ n (Pass_AddLearner p plan learner) []).
  - pose proof (Hps n _ Hn) as Hok. rewrite (snapshot_voters σ p plan Hok) in *.
    apply (change_voters_inv k σ n p plan); try done; [congruence|congruence|]. intros E. congruence.
  - pose proof (Hps n _ Hn) as Hok. rewrite (snapshot_voters σ p plan Hok) in *. subst target.
    apply (change_voters_inv k σ n p plan); try done; congruence.
  - pose proof (Hps n _ Hn) as Hok. rewrite (snapshot_voters σ p plan Hok) in *.
    destruct (Hl n _ Hld Hn) as [|(_ & [|[? _]])]; congruence.
  - pose proof (Hps n _ Hn) as Hok. apply step_report_inv; [done|done|]. cbn [pass_resume]. intros pass Hx.
    destruct (mp_aborting plan) eqn:Eab; injection Hx as <-; split_and!; try done; by intros body ?%not_elem_of_nil.
  - pose proof (Hps n _ Hn) as Hok. apply step_report_inv; [done|done|]. intros pass' Hx. destruct pass as [| | | | | | |p plan|p plan| |]; try done.
    + destruct (report_finalize_frame k σ p plan n log pass' Hg Hinv Hok Hx) as (body & -> & Hfr).
      split_and!; try done. by intros body' ->%list_elem_of_singleton.
    + destruct Hok as [Hok Hab]. destruct (report_abort_frame k σ p plan n log pass' Hg Hinv Hok Hab Hx) as (Hpo & _ & Hfr).
      split_and!; [done| |done]. cbn in Hx. unfold report_abort in Hx. intros σ'. by repeat (case_match; try done); injection Hx as <-.
  - by apply (step_local_inv k σ n (Pass_RemoveLearners (learner :: learners) body) []).
  - apply driver_inv; [done| |done]. intros body' [Hb|[(pass & ? & _)|(n' & pass & _ & Hp & Hb)]]%pending_set_pass.
    + left. apply elem_of_cons in Hb as [->|Hb]; [|by left]. right. exists n, (Pass_Submit body). split; [done|]. by left.
    + done.
    + left. right. eauto.
Qed.

(** ** Safety *)

(** A settled group: its configuration is the recorded voters, no plan, no
    driver at work, no frame in flight. *)
Definition settled (σ : Moves) : Prop :=
  meta_inv (mv_meta σ) ∧ mv_passes σ = ∅ ∧ mv_net σ = [] ∧
  ∃ p, ms_placements (mv_meta σ) !! g = Some p ∧ pl_move p = None ∧ mv_config σ = Uniform (pl_voters p).

Lemma settled_inv σ : settled σ → moves_inv σ.
Proof.
  intros (Hw & Hp & Hn & p & Hpl & Hm & Hc). constructor.
  - done.
  - exists p. split; [done|]. by rewrite Hm.
  - intros body [Hb|(n & pass & Hx & _)]; [rewrite Hn in Hb; by apply not_elem_of_nil in Hb|by rewrite Hp, lookup_empty in Hx].
  - intros n pass Hx. by rewrite Hp, lookup_empty in Hx.
  - intros n pass _ Hx. by rewrite Hp, lookup_empty in Hx.
Qed.

Lemma moves_reach_inv k σ0 σ : g = GroupId_Data k → settled σ0 → rtc (move_step true) σ0 σ → moves_inv σ.
Proof.
  intros Hg H0'%settled_inv Hr. induction Hr as [|σ1 σ2 σ3 Hst _ IH]; [done|]. by eapply IH, move_step_inv.
Qed.

(** C19: a move never splits the meta record from the data group. Whatever
    commands the meta group commits, however leadership moves, drivers crash
    and observation frames are lost, delayed, duplicated or reordered — as long
    as a node does not win an election while a pass from its earlier leadership
    is still suspended — the placement record stays accurate: without a plan
    the group's configuration is exactly the recorded voters; with a plan it is
    one of the three phases, and the driver's reconciliation recognizes it. *)
Theorem move_record_agrees k σ0 σ : g = GroupId_Data k → settled σ0 → rtc (move_step true) σ0 σ →
  ∃ p, ms_placements (mv_meta σ) !! g = Some p ∧
    match pl_move p with
    | None => mv_config σ = Uniform (pl_voters p)
    | Some plan =>
        (mv_config σ = Uniform (pl_voters p) ∧ reconcile p (config_voters (mv_config σ)) = ReconcileAction_ResumePlan) ∨
        (mv_config σ = Joint (pl_voters p) (mp_target_voters plan) ∧
         reconcile p (config_voters (mv_config σ)) = ReconcileAction_CompleteJoint) ∨
        (mv_config σ = Uniform (mp_target_voters plan) ∧ reconcile p (config_voters (mv_config σ)) = ReconcileAction_Finalize)
    end.
Proof.
  intros Hg Hs Hr. apply (moves_reach_inv k) in Hr; [|done..]. pose proof Hr as [_ (p & Hp & Ha) _ _ _].
  exists p. split; [done|]. destruct (pl_move p) as [plan|] eqn:Em; [|done].
  destruct (read_snapshot σ p plan Hr Hp Em) as [_ _ [S1 S2] S3 _].
  destruct (single_change_sets k _ _ Hg S1 S2 S3) as (N1 & N2 & N3). unfold reconcile. rewrite Em, !voter_set_id by done.
  destruct Ha as [_ [E|[E|E]]]; rewrite E; cbn; [left|right; left|right; right]; (split; [done|]).
  - by rewrite bool_decide_true.
  - rewrite bool_decide_false by done. rewrite bool_decide_false by done. by rewrite bool_decide_true.
  - by rewrite bool_decide_false, bool_decide_true by congruence.
Qed.
End moves.

(** ** A leader's undisturbed pass completes the move

    From every reachable state, a leader whose driver is idle can finish a
    healthy plan: the pass goes through its await points, whatever phase a
    crash left the group in, and the meta group applies its report. *)
Import TriangleBracketNotations.

Section progress.
Context `{HashesOk} `{!Codec SearchIndexDefinition, !Codec SearchIndexRecord} `{!CatalogCodec}.
Context (k : N).
Notation g := (GroupId_Data k).

Section plan.
Context (m : MetaState) (applied : N) (n : NodeId) (p : Placement) (plan : MovePlan).
Context (Hw : meta_inv m) (Hp : ms_placements m !! g = Some p) (Hm : pl_move p = Some plan) (Hab : mp_aborting plan = false).
Context (Hopen : fence_open m) (Hroom : (applied < u64_max)%N).

(** The group ends up settled on the target. *)
Definition completes (σ : Moves) : Prop :=
  ∃ σ' p', rtc (move_step g true) σ σ' ∧ ms_placements (mv_meta σ') !! g = Some p' ∧ pl_move p' = None ∧
    pl_voters p' = mp_target_voters plan ∧ mv_config σ' = Uniform (mp_target_voters plan).

Lemma completes_step σ σ' : move_step g true σ σ' → completes σ' → completes σ.
Proof. intros Hst (σ2 & p' & Hr & Hx). exists σ2, p'. split; [by eapply rtc_l|done]. Qed.

Lemma plan_sets : bset_sorted (pl_voters p) ∧ bset_sorted (mp_target_voters plan) ∧
  single_change g (pl_voters p) (mp_target_voters plan).
Proof.
  destruct (mi_placements m Hw g p Hp) as (c & _ & Hok). destruct (pk_move _ _ _ Hok plan Hm) as [Hs Hc].
  split_and!; [apply Hok|done|done].
Qed.

(** The report is applied. *)
Lemma completes_report learners passes net log :
  wf log → completes (mkMoves m applied (Uniform (mp_target_voters plan)) learners (Some n)
    (<[n := Pass_Submit (ObservationBody_Finalize n g (mp_plan_id plan)
              (mkObservation g (mp_plan_id plan) (mp_target_voters plan) log))]> passes) net).
Proof.
  intros Hl. set (o := mkObservation g (mp_plan_id plan) (mp_target_voters plan) log).
  eapply completes_step; [apply (step_submit g true _ n); apply lookup_insert_eq|]. cbn.
  destruct plan_sets as (S1 & S2 & S3). destruct (mi_placements m Hw g p Hp) as (c & Hc & Hok).
  destruct (pk_wf _ _ _ Hok) as (_ & _ & Hwp). rewrite Hm in Hwp. destruct Hwp as [Hid Hids].
  assert (k ≤ u16_max)%N as Hk.
  { destruct (pk_size _ _ _ Hok) as [Hlt _]. destruct (mi_cluster m Hw c Hc) as [[(_ & _ & Hcp & _) _ _ _] _]. lia. }
  eexists _, _. split_and!.
  - eapply rtc_once, (step_meta g true _ (set_placement g (mkPlacement (mp_target_voters plan) log None) m)
      (mkLogId 0 (applied + 1)) (MetaCommand_FinalizePlan g (mp_plan_id plan) o)).
    + split_and!; [done..|]. split_and!; done.
    + split; cbn; unfold u64_max in *; lia.
    + split; [by right|]. apply (rule_finalize_plan m _ g p plan o); try done. by apply voter_set_id.
    + cbn. lia.
    + intros id o' [[= <- <-]|?]; [|done]. eexists. split; [by left|done].
  - cbn. by rewrite lookup_insert_eq.
  - done.
  - done.
  - done.
Qed.

Lemma completes_confirm learners passes net :
  completes (mkMoves m applied (Uniform (mp_target_voters plan)) learners (Some n)
    (<[n := Pass_ConfirmFinalize p plan]> passes) net).
Proof.
  eapply completes_step; [apply (step_confirm g true _ n (Pass_ConfirmFinalize p plan) (Some (mkLogId 0 0)));
    [apply lookup_insert_eq|done|done]|].
  cbn. unfold report_finalize. rewrite bool_decide_true by done. cbn. rewrite insert_insert_eq.
  apply completes_report. split; vm_compute; discriminate.
Qed.

(** Changing the voters, from the joint configuration or to it. *)
Lemma completes_change config learners passes net :
  config = Uniform (mp_target_voters plan) ∨ config = Joint (pl_voters p) (mp_target_voters plan) ∨
  (config = Uniform (pl_voters p) ∧ mp_target_voters plan ⊆ pl_voters p ++ learners) →
  completes (mkMoves m applied config learners (Some n) (<[n := Pass_ChangeVoters p plan]> passes) net).
Proof.
  destruct plan_sets as (S1 & S2 & S3). destruct (single_change_sets g k _ _ eq_refl S1 S2 S3) as (N1 & _).
  assert (∀ ls, completes (mkMoves m applied (Uniform (mp_target_voters plan)) ls (Some n)
    (<[n := Pass_ChangeVoters p plan]> passes) net)) as Huni.
  { intros ls. eapply completes_step; [apply (step_changed g true _ n p plan); [apply lookup_insert_eq|done|]|].
    - cbn. by rewrite voter_set_id.
    - cbn. rewrite Hab. cbn. rewrite insert_insert_eq. apply completes_confirm. }
  assert (∀ ls, completes (mkMoves m applied (Joint (pl_voters p) (mp_target_voters plan)) ls (Some n)
    (<[n := Pass_ChangeVoters p plan]> passes) net)) as Hjoint.
  { intros ls. eapply completes_step; [eapply (step_uniform g true _ n p plan);
      [apply lookup_insert_eq|done|done|by apply voter_set_id]|]. apply Huni. }
  intros [-> | [-> | [-> Hsub]]]; [apply Huni|apply Hjoint|].
  eapply completes_step; [eapply (step_joint g true _ n p plan); [apply lookup_insert_eq|done|done|..]|].
  - rewrite voter_set_id by done. congruence.
  - done.
  - cbn. rewrite voter_set_id by done. apply Hjoint.
Qed.

(** The healthy steps before the change. *)
Lemma completes_admit learner learners passes net : mp_target_voters plan ⊆ learner :: pl_voters p →
  completes (mkMoves m applied (Uniform (pl_voters p)) learners (Some n)
    (<[n := Pass_Admit p plan learner]> passes) net).
Proof.
  intros Hsub.
  assert (∀ pass σ, mv_passes σ = <[n := pass]> passes → mv_passes σ !! n = Some pass) as Hat
    by (intros pass σ ->; apply lookup_insert_eq).
  eapply completes_step; [apply (step_local g true _ n (Pass_Admit p plan learner) []); [by apply Hat|done]|].
  cbn. rewrite insert_insert_eq.
  eapply completes_step; [apply (step_add g true _ n p plan learner); [by apply Hat|done]|]. cbn. rewrite insert_insert_eq.
  eapply completes_step; [apply (step_local g true _ n (Pass_CaughtUp p plan learner) []); [by apply Hat|done]|].
  cbn. rewrite insert_insert_eq.
  eapply completes_step; [apply (step_local g true _ n (Pass_IndexesReady p plan learner) []); [by apply Hat|done]|].
  cbn. rewrite insert_insert_eq.
  apply completes_change. right. right. split; [done|]. set_solver.
Qed.

(** A fresh pass, whatever phase the group is in. *)
Lemma completes_tick config learners passes net : passes !! n = None →
  config = Uniform (pl_voters p) ∨ config = Joint (pl_voters p) (mp_target_voters plan) ∨ config = Uniform (mp_target_voters plan) →
  completes (mkMoves m applied config learners (Some n) passes net).
Proof.
  intros Hidle Hcfg. destruct plan_sets as (S1 & S2 & S3).
  destruct (single_change_sets g k _ _ eq_refl S1 S2 S3) as (N1 & N2 & N3).
  eapply completes_step; [by apply (step_tick g true _ n)|]. cbn.
  eapply completes_step; [apply (step_read g true _ n); apply lookup_insert_eq|]. cbn. rewrite Hp. cbn. rewrite insert_insert_eq.
  eapply completes_step; [apply (step_local g true _ n (Pass_Placed p) (config_voters config)); [apply lookup_insert_eq|done]|].
  cbn. unfold drive_placement, reconcile. rewrite Hm, !voter_set_id, Hab by done. destruct Hcfg as [-> | [-> | -> ]]; cbn.
  - rewrite bool_decide_true by done. unfold execute_move, gate. rewrite Hm, Hab, !voter_set_id by done.
    rewrite (bool_decide_true (pl_voters p = pl_voters p)) by done. cbn [negb].
    destruct S3 as [Hrem Hadd]. unfold voters_removed, voters_added in *. rewrite Hrem, Hadd. cbn [Nat.eqb negb orb].
    rewrite bool_decide_true by done. cbn [negb].
    destruct (bset_difference (mp_target_voters plan) (pl_voters p)) as [|learner rest] eqn:Ed; [done|].
    destruct rest; [|done]. cbn. rewrite insert_insert_eq. apply completes_admit. intros x Hx.
    destruct (decide (x ∈ pl_voters p)) as [|Hn]; [by right|].
    assert (x ∈ bset_difference (mp_target_voters plan) (pl_voters p)) as Hd by (by apply elem_of_bset_difference).
    rewrite Ed in Hd. apply list_elem_of_singleton in Hd as ->. by left.
  - rewrite bool_decide_false by done. rewrite bool_decide_false by done. rewrite bool_decide_true by done. cbn.
    rewrite insert_insert_eq. apply completes_change. auto.
  - rewrite bool_decide_false by congruence. rewrite bool_decide_true by done. cbn. rewrite insert_insert_eq.
    apply completes_confirm.
Qed.
End plan.

(** C25: moves resume and complete. From every reachable state with a leader
    whose driver is idle and a plan that is not aborting — whatever was
    interrupted before, at any phase of the membership change — the leader's
    next pass can run to its end: the group commits the target configuration,
    the meta group applies the report, and the plan is cleared with the target
    as the recorded voters. *)
Theorem move_completes σ0 σ n p plan : settled g σ0 → rtc (move_step g true) σ0 σ →
  mv_leader σ = Some n → mv_passes σ !! n = None → ms_placements (mv_meta σ) !! g = Some p → pl_move p = Some plan →
  mp_aborting plan = false → fence_open (mv_meta σ) → (mv_applied σ < u64_max)%N →
  ∃ σ' p', rtc (move_step g true) σ σ' ∧ ms_placements (mv_meta σ') !! g = Some p' ∧ pl_move p' = None ∧
    pl_voters p' = mp_target_voters plan ∧ mv_config σ' = Uniform (mp_target_voters plan).
Proof.
  intros Hs Hr Hld Hidle Hp Hm Hab Hopen Hroom. apply (moves_reach_inv g k) in Hr; [|done..].
  destruct Hr as [Hw (q & Hq & Ha) _ _ _]. assert (q = p) as -> by congruence. rewrite Hm in Ha. destruct Ha as [_ Hcfg].
  destruct σ as [m applied config learners leader passes net]. cbn in *. subst leader.
  by apply (completes_tick m applied n p plan).
Qed.
End progress.
