(* ===== verification/MetaRaft.v ===== *)
(** * The meta group's Raft state machine (src/src/meta/sm.rs)

    [MetaRaftStateMachine] decides committed entries one by one against the
    store and writes each with [apply_raft], which for the meta group waits for
    the batch to be durable. Its snapshot half is that of the data groups
    ([Install]) with its own wording. *)

From S2P Require Import Prelude BTree Types Codec Config SearchDef Keyspace Outbox MetaTypes ApplyDurability Aio Rocks Storage DataSM SearchStore ApplyRaft Snapshot Install MetaSM MetaSpec MetaReads MetaHandlers MetaInv MetaProofs DataSpec DataProofs ApplyRaftProofs.

(** [to_crate_log_id] of src/src/meta/raft_types.rs. *)
Definition to_crate_log_id (id : RaftLogId) : LogId := mkLogId (rl_term id) (rl_index id).

(** [Entry] of the meta group. *)
Abbreviation MetaEntry := (RaftEntry MetaCommand).

Section adapter.
Context `{Rocks D} `{Hashes} `{!Codec U64, !Codec U128, !Codec string, !Codec LogId, !Codec Identity}
  `{!Codec ClusterConfig, !Codec NodeDirectoryEntry, !Codec MaintenanceRecord, !Codec Placement}
  `{!Codec SearchIndexDefinition, !Codec SearchIndexRecord, !Codec SearchIndexReady} `{!CatalogCodec}
  `{!Codec RaftApplied, !Codec SearchConsumerState, !Codec (option RaftLogId)}.
Implicit Types (s : Storage D) (entries : list MetaEntry).

(** [MetaRaftStateMachine::read_applied]. *)
Definition meta_read_applied (now : N) : aio (Storage D) RaftApplied :=
  or_poison "meta state-machine health check failed" (aio_io (require_healthy now)) ;;~
  let~ b := or_poison "meta applied record read failed" (aio_io (io_read (λ s, raft_applied s GroupId_Meta))) in
  match b with
  | Some b => or_poison "meta applied record decode failed" (aio_io (io_read (λ _, decode (A:=RaftApplied) b)))
  | None => aio_ret (mkRaftApplied None default_membership)
  end.

(** The decision of one entry. *)
Definition meta_decide s (e : MetaEntry) : Result (MetaApplyResult * list StateMutation) :=
  match en_payload e with
  | EntryPayload_Normal cmd => meta_evaluate s cmd (to_crate_log_id (en_log_id e))
  | EntryPayload_Blank | EntryPayload_Membership _ => Ok (MetaApplyResult_NoOp, [])
  end.

Section apply.
Context (env : RaftLogId → WriteEnv).

(** The write of one entry. *)
Definition meta_write (muts : list StateMutation) (log_id : RaftLogId) (membership : StoredMembership)
    : aio (Storage D) unit :=
  or_poison "meta state-machine apply write failed"
    (apply_raft (env log_id) GroupId_Meta muts log_id (encode (mkRaftApplied (Some log_id) membership))
       (encode (Some log_id)) 1).

(** The loop of [apply]. *)
Fixpoint meta_loop (membership : StoredMembership) (results : list MetaApplyResult) entries
    : aio (Storage D) (list MetaApplyResult) :=
  match entries with
  | [] => aio_ret results
  | e :: entries =>
      let~ d := or_poison "meta state-machine evaluation failed" (aio_io (io_read (λ s, meta_decide s e))) in
      let membership := next_membership membership e in
      meta_write d.2 (en_log_id e) membership ;;~
      meta_loop membership (results ++ [d.1]) entries
  end.

(** [RaftStateMachine::apply] of the meta group. *)
Definition meta_sm_apply (now : N) entries : aio (Storage D) (list MetaApplyResult) :=
  let~ applied := meta_read_applied now in
  meta_loop (ra_membership applied) [] entries.
End apply.

(** The snapshot half. *)
Definition meta_build_snapshot_now (display_log_id : RaftLogId → string) (now started : N)
    (waited : list registry_op) : aio (Storage D) (SnapshotMeta * bytes) :=
  build_snapshot_now "meta " (meta_read_applied now) display_log_id now started waited GroupId_Meta.
Definition meta_install_snapshot (env : InstallEnv) (meta : SnapshotMeta) (file : bytes) : aio (Storage D) unit :=
  install_snapshot "meta " env GroupId_Meta meta file.
Definition meta_get_current_snapshot (display_log_id : RaftLogId → string) (now started : N)
    (waited : list registry_op) : aio (Storage D) (option (SnapshotMeta * bytes)) :=
  get_current_snapshot "meta " (meta_read_applied now) display_log_id now started waited GroupId_Meta.
End adapter.

(** ** Clean prefixes *)

Section proofs.
Context `{RocksOk D} `{HashesOk} `{!Codec U64, !Codec U128, !Codec string, !Codec LogId, !Codec Identity}
  `{!Codec ClusterConfig, !Codec NodeDirectoryEntry, !Codec MaintenanceRecord, !Codec Placement}
  `{!Codec SearchIndexDefinition, !Codec SearchIndexRecord, !Codec SearchIndexReady} `{!CatalogCodec}
  `{!Codec RaftApplied, !Codec SearchConsumerState, !Codec (option RaftLogId)}.
Context (env : RaftLogId → WriteEnv).
Implicit Types (s : Storage D) (m : MetaState) (entries : list MetaEntry).

(** What the specification allows an entry to do. *)
Definition meta_decided m (e : MetaEntry) (r : MetaApplyResult) m' : Prop :=
  match en_payload e with
  | EntryPayload_Normal cmd =>
      (r = MetaApplyResult_Applied ∧ meta_step m (to_crate_log_id (en_log_id e)) cmd m') ∨
      (r ≠ MetaApplyResult_Applied ∧ m' = m)
  | EntryPayload_Blank | EntryPayload_Membership _ => r = MetaApplyResult_NoOp ∧ m' = m
  end.

Inductive meta_trace : MetaState → list MetaEntry → list MetaApplyResult → MetaState → Prop :=
| meta_trace_nil m : meta_trace m [] [] m
| meta_trace_cons m e r m1 entries rs m2 :
    meta_decided m e r m1 → meta_trace m1 entries rs m2 → meta_trace m (e :: entries) (r :: rs) m2.

Lemma meta_read_applied_spec now s mem s' r : is_ok (state_cf s GroupId_Meta) = true →
  recorded_membership GroupId_Meta s mem → meta_read_applied now s = (s', r) →
  (∃ reg, s' = set_apply reg s) ∧ ∀ a, r = Ready (Ok a) → ra_membership a = mem.
Proof.
  intros Ho Hrec. unfold meta_read_applied.
  intros [(s1 & [] & Hh & E)|[[E ->]|(e & E & ->)]]%aio_bind_ready.
  2,3: apply or_poison_health in E as [Hreg _]; by split.
  apply or_poison_health in Hh as [[reg ->] _].
  apply aio_bind_ready in E as [(s1 & b & Hb & E)|[[E ->]|(e & E & ->)]].
  2,3: apply or_poison_read in E as [[reg' ->] _]; split; [by eexists|done].
  apply or_poison_read in Hb as [[reg' ->] Hb].
  assert (b = state_map s GroupId_Meta raft_applied_key) as ->.
  { unfold raft_applied, get_state in Hb. unfold state_map.
    change (state_cf (set_apply reg s) GroupId_Meta) with (state_cf s GroupId_Meta) in Hb.
    destruct (state_cf s GroupId_Meta); [|done]. simpl in Hb. congruence. }
  unfold recorded_membership in Hrec. destruct (state_map s GroupId_Meta raft_applied_key) as [b|].
  - apply or_poison_read in E as [[reg'' ->] ->]. split; [by eexists|]. intros a [= Ea].
    destruct Hrec as [ap Hrec]. rewrite Hrec in Ea. by injection Ea as <-.
  - injection E as <- <-. split; [by eexists|]. intros a [= <-]. by subst mem.
Qed.

Lemma meta_store_apply s m reg : meta_store s m → meta_store (set_apply reg s) m.
Proof. intros []. by constructor. Qed.

(** The meta group's writes stay out of the default column family. *)
Lemma apply_raft_meta_local we ms l ar cr n s s' r k : cache_ok s →
  apply_raft we GroupId_Meta ms l ar cr n s = (s', r) → db_get (st_db s') k = db_get (st_db s) k.
Proof.
  intros Hc. unfold apply_raft. intros [(s1 & batch & Hb & E)|[[E ->]|(e & E & ->)]]%aio_bind_ready.
  2,3: unfold aio_io, io_read in E; destruct (raft_batch _ _ _ _ _ _); try done; by injection E as <- _.
  unfold aio_io, io_read in Hb. destruct (raft_batch _ _ _ _ _ _) as [b|] eqn:Hrb; [|done]. injection Hb as <- ->.
  assert (db_get (st_db (write_db batch s)) k = db_get (st_db s) k) as Hk.
  { apply rbind_ok in Hrb as (cf & Hcf & Hrb). apply rbind_ok in Hrb as (lcf & Hl & Hrb). injection Hrb as <-.
    destruct (state_cf_valid s GroupId_Meta cf Hc Hcf) as [Hv _]. apply valid_cf_name_default in Hv.
    unfold log_cf in Hl. destruct (cf_exists _ _); [|done]. injection Hl as <-.
    cbn [st_db write_db set_db]. rewrite db_get_write. apply batch_get_other_cf.
    apply Forall_app. split; [|by repeat constructor].
    apply Forall_fmap, Forall_true. by intros []. }
  apply aio_bind_ready in E as [(s1 & [] & Hwr & E)|[[E ->]|(e & E & ->)]].
  2,3: by apply write_state_batch_cases in E as [(reg & -> & _)|(reg & ->)].
  simpl in E. injection E as <- _. by apply write_state_batch_cases in Hwr as [(reg & -> & _)|(reg & ->)].
Qed.

(** One decided entry, written. *)
Lemma meta_written s s' m e r ms ar cr : meta_store s m → meta_inv m → wf e → meta_decide s e = Ok (r, ms) →
  raft_written s s' GroupId_Meta ms ar cr → (∀ k, db_get (st_db s') k = db_get (st_db s) k) →
  ∃ m', meta_decided m e r m' ∧ meta_store s' m' ∧ meta_inv m'.
Proof.
  intros Hs Hi [Hl Hw] Hd Hwr Hloc. assert (wf (to_crate_log_id (en_log_id e))) as Hl' by (by destruct Hl as (? & ? & ?)).
  assert (∃ m' es, meta_decided m e r m' ∧ meta_inv m' ∧ edits m es m' ∧ ms = edit_mutation <$> es) as (m' & es & Hdec & Hi' & He & ->).
  { assert (edits m [] m) as H0' by by constructor.
    unfold meta_decide, meta_decided in *. destruct (en_payload e) as [|cmd|].
    1,3: injection Hd as <- <-; by exists m, [].
    destruct (meta_evaluate_outcome s m cmd (to_crate_log_id (en_log_id e)) Hs Hi Hw) as (r' & ms' & E & Hout).
    rewrite E in Hd. injection Hd as -> ->. destruct Hout as [[Hr ->]|(-> & m' & es & Hst & He & ->)].
    - exists m, []. split_and!; [by right|done..].
    - exists m', es. split_and!; [by left|by eapply meta_rule_inv; [..|apply Hst]|done..]. }
  exists m'. split_and!; [done| |done]. destruct Hs as [Hc Ho Hr Hid]. constructor.
  - apply Hwr.
  - by rewrite (rw_cf _ _ _ _ _ _ Hwr).
  - eapply meta_rep_ext; [|eapply (meta_rep_edits _ m m' es); [exact Hr|apply He|apply He]].
    intros b _ Hb. by rewrite (rw_state _ _ _ _ _ _ Hwr), decide_False.
  - unfold identity, get_local in *. rewrite Hloc, Hid. f_equal. symmetry. apply He.
Qed.

(** One round of the loop: nothing happens to the state, or the entry is applied. *)
Lemma meta_round s m mem e d s1 s2 r : meta_store s m → meta_inv m → wf e →
  meta_decide s e = Ok d → meta_write env d.2 (en_log_id e) mem s1 = (s2, r) → (∃ reg, s1 = set_apply reg s) →
  (∃ reg, s2 = set_apply reg s ∧ r ≠ Ready (Ok tt)) ∨
  ∃ m', meta_decided m e d.1 m' ∧ meta_store s2 m' ∧ meta_inv m' ∧
    state_map s2 GroupId_Meta raft_applied_key = Some (encode (mkRaftApplied (Some (en_log_id e)) mem)) ∧
    ∀ h k, h ≠ GroupId_Meta → get_state s2 h k = get_state s h k.
Proof.
  intros Hs Hi Hw Hd (s3 & Hap & reg2 & ->)%or_poison_inv [reg ->].
  pose proof (λ k, apply_raft_meta_local _ _ _ _ _ _ _ _ _ k (mst_cache _ _ Hs : cache_ok (set_apply reg s)) Hap) as Hloc.
  apply apply_raft_cases in Hap as [(reg' & -> & Hne)|Hwr]; [left; by eexists|right|exact (mst_cache _ _ Hs)].
  apply (raft_written_apply _ _ _ _ _ _ reg2) in Hwr. destruct d as [x ms]. cbn [fst snd] in *.
  assert (raft_written s (set_apply reg2 s3) GroupId_Meta ms (encode (mkRaftApplied (Some (en_log_id e)) mem))
    (encode (Some (en_log_id e)))) as Hwr' by (destruct Hwr; by constructor). clear Hwr. rename Hwr' into Hwr.
  destruct (meta_written s _ m e x ms _ _ Hs Hi Hw Hd Hwr Hloc) as (m' & Hdec & Hs' & Hi').
  exists m'. split_and!; [done..| |].
  - by rewrite (rw_state _ _ _ _ _ _ Hwr), decide_True.
  - intros h k Hne. by rewrite (rw_other _ _ _ _ _ _ Hwr).
Qed.

Lemma meta_trace_snoc m entries rs m1 e r m2 :
  meta_trace m entries rs m1 → meta_decided m1 e r m2 → meta_trace m (entries ++ [e]) (rs ++ [r]) m2.
Proof.
  induction 1 as [m|m e' r' m' entries rs m1 Hd _ IH]; intros Hx; cbn [app].
  - econstructor; [exact Hx|constructor].
  - econstructor; [exact Hd|by apply IH].
Qed.

(** The store after a prefix of entries, from the store [s0]. *)
Record meta_done s0 m0 (mem0 : StoredMembership) (done : list MetaEntry) (rs : list MetaApplyResult) s : Prop := {
  md_run : ∃ m, meta_trace m0 done rs m ∧ meta_store s m ∧ meta_inv m;
  md_applied : state_map s GroupId_Meta raft_applied_key =
    match last done with
    | None => state_map s0 GroupId_Meta raft_applied_key
    | Some e => Some (encode (mkRaftApplied (Some (en_log_id e)) (foldl next_membership mem0 done)))
    end;
  md_other h k : h ≠ GroupId_Meta → get_state s h k = get_state s0 h k;
}.

Lemma meta_done_apply s0 m0 mem0 done rs s reg : meta_done s0 m0 mem0 done rs s → meta_done s0 m0 mem0 done rs (set_apply reg s).
Proof. intros [(m & ? & ? & ?) ? ?]. constructor; [|done..]. exists m. split_and!; [done|by apply meta_store_apply|done]. Qed.

Lemma meta_write_done s0 m0 mem0 done rs s e d s1 s2 r : meta_done s0 m0 mem0 done rs s → wf e →
  meta_decide s e = Ok d → (∃ reg, s1 = set_apply reg s) →
  meta_write env d.2 (en_log_id e) (next_membership (foldl next_membership mem0 done) e) s1 = (s2, r) →
  (meta_done s0 m0 mem0 done rs s2 ∧ r ≠ Ready (Ok tt)) ∨ meta_done s0 m0 mem0 (done ++ [e]) (rs ++ [d.1]) s2.
Proof.
  intros Hd He Hdec Hreg Hwr. destruct (md_run _ _ _ _ _ _ Hd) as (m & Htr & Hs & Hi).
  destruct (meta_round _ _ _ _ _ _ _ _ Hs Hi He Hdec Hwr Hreg) as [(reg & -> & Hne)|(m' & Hx & Hs' & Hi' & Ha & Hot)].
  - left. split; [by apply meta_done_apply|done].
  - right. constructor.
    + exists m'. split_and!; [by eapply meta_trace_snoc|done..].
    + by rewrite last_snoc, foldl_snoc.
    + intros h k Hne. rewrite Hot by done. by apply Hd.
Qed.

Lemma meta_loop_done s0 m0 mem0 entries : Forall wf entries → ∀ done rs s s' r, meta_done s0 m0 mem0 done rs s →
  meta_loop env (foldl next_membership mem0 done) rs entries s = (s', r) →
  ∃ more rest rs', entries = more ++ rest ∧ meta_done s0 m0 mem0 (done ++ more) rs' s' ∧
    ∀ all, r = Ready (Ok all) → rest = [] ∧ all = rs'.
Proof.
  intros Hw. induction Hw as [|e entries He Hw IH]; intros pre rs s s' r Hd.
  { intros [= <- <-]. exists [], [], rs. rewrite (app_nil_r pre). split_and!; [done..|]. by intros all [= <-]. }
  assert (meta_done s0 m0 mem0 pre rs s' → (∀ all, r ≠ Ready (Ok all)) → ∃ more rest rs',
    e :: entries = more ++ rest ∧ meta_done s0 m0 mem0 (pre ++ more) rs' s' ∧
    ∀ all, r = Ready (Ok all) → rest = [] ∧ all = rs') as Hstop.
  { intros Hd' Hx. exists [], (e :: entries), rs. rewrite (app_nil_r pre). split_and!; [done..|].
    intros all E. by destruct (Hx all). }
  assert (∀ rs', meta_done s0 m0 mem0 (pre ++ [e]) rs' s' → (∀ all, r ≠ Ready (Ok all)) → ∃ more rest rs',
    e :: entries = more ++ rest ∧ meta_done s0 m0 mem0 (pre ++ more) rs' s' ∧
    ∀ all, r = Ready (Ok all) → rest = [] ∧ all = rs') as Hstop1.
  { intros rs' Hd' Hx. exists [e], entries, rs'. split_and!; [done..|]. intros all E. by destruct (Hx all). }
  cbn [meta_loop]. intros [(s1 & d & Hr & E)|[[E ->]|(x & E & ->)]]%aio_bind_ready.
  2,3: apply or_poison_read in E as [[reg ->] _]; apply Hstop; [by apply meta_done_apply|done].
  apply or_poison_read in Hr as [Hreg [= Hdec]]. symmetry in Hdec.
  apply aio_bind_ready in E as [(s2 & [] & Hwr & E)|[[Hwr ->]|(x & Hwr & ->)]];
    destruct (meta_write_done _ _ _ _ _ _ _ _ _ _ _ Hd He Hdec Hreg Hwr) as [[Hd' Hne]|Hd'];
    [done| |by apply Hstop|by eapply Hstop1|by apply Hstop|by eapply Hstop1].
  rewrite <-(foldl_snoc next_membership) in E.
  destruct (IH _ _ _ _ _ Hd' E) as (more & rest & rs' & -> & Hd2 & Hr2).
  exists (e :: more), rest, rs'. rewrite <-(assoc_L (++)) in Hd2. by split_and!.
Qed.

(** C30: whatever becomes of the writes of a meta apply call (refused, failed,
    lost, unanswered or not flushed), the store afterwards represents the state
    some prefix of the entries leads to under the specification's rules,
    satisfies the control-plane invariant and records exactly that prefix as
    applied, and no other group changes; a call that succeeds has applied every
    entry and returns their results. *)
Theorem meta_clean_prefix now entries s m mem s' r : meta_store s m → meta_inv m →
  recorded_membership GroupId_Meta s mem → wf mem → Forall wf entries →
  meta_sm_apply env now entries s = (s', r) →
  ∃ done rest rs m', entries = done ++ rest ∧ meta_trace m done rs m' ∧ meta_store s' m' ∧ meta_inv m' ∧
    recovered_raft_applied s' GroupId_Meta =
      match last done with Some e => Ok (Some (en_log_id e)) | None => recovered_raft_applied s GroupId_Meta end ∧
    (∀ h k, h ≠ GroupId_Meta → get_state s' h k = get_state s h k) ∧
    ∀ all, r = Ready (Ok all) → rest = [] ∧ all = rs.
Proof.
  intros Hs Hi Hrec Hm Hw. assert (meta_done s m mem [] [] s) as Hd.
  { constructor; [|done..]. exists m. split_and!; [constructor|done..]. }
  intros E. assert (∃ more rest rs, entries = more ++ rest ∧ meta_done s m mem more rs s' ∧
    ∀ all, r = Ready (Ok all) → rest = [] ∧ all = rs) as (pre & rest & rs & -> & Hd' & Hr).
  { unfold meta_sm_apply in E. apply aio_bind_ready in E as [(s1 & a & Ha & E)|[[E ->]|(x & E & ->)]].
    2,3: eapply meta_read_applied_spec in E as [[reg ->] _]; [|apply Hs|exact Hrec];
      exists [], entries, []; split_and!; [done|by apply meta_done_apply|done].
    eapply meta_read_applied_spec in Ha as [[reg ->] Ha]; [|apply Hs|exact Hrec]. rewrite (Ha a) in E by done.
    by apply (meta_loop_done s m mem entries Hw [] [] (set_apply reg s)); [apply meta_done_apply|]. }
  destruct Hd' as [(m' & Htr & Hs' & Hi') Hap Hot]. exists pre, rest, rs, m'. split_and!; [done..| |done|done].
  apply Forall_app in Hw as [Hw _]. pose proof (mst_open _ _ Hs') as Ho'. pose proof (mst_open _ _ Hs) as Ho.
  unfold recovered_raft_applied, raft_applied, get_state. unfold state_map in Hap.
  destruct (state_cf s' GroupId_Meta) as [cf'|]; [|done]. destruct (state_cf s GroupId_Meta) as [cf|]; [|done]. cbn [rbind].
  rewrite Hap. destruct (last pre) as [e|] eqn:El; [|done]. rewrite decode_encode; [done|]. split; [|by apply memberships_wf].
  apply last_Some_elem_of in El. rewrite Forall_forall in Hw. by destruct (Hw e El).
Qed.
End proofs.
