(* ===== verification/MetaDemo.v ===== *)
(** * Concrete runs of the meta state machine

    A three-voter cluster bootstrapped on the in-memory store with the bincode
    encoding: nodes registered, a partition seeded, a voter moved, a node
    drained and retired, a maintenance operation taken through its stages, and
    a search index built and activated; a creation that is interrupted, a
    planner tick, a detector run, and the entries of a meta log. *)

From S2P Require Import Prelude SortBy BTree Types Placement Config Codec SearchDef Security Keyspace Outbox MetaTypes ApplyDurability Aio Rocks Storage DataSM SearchStore ApplyRaft DataSpec Bincode Demo DataProofs ApplyRaftProofs RaftStorageDemo MetaSM Failure Planner MetaSpec MetaReads MetaHandlers MetaInv MetaProofs Bootstrap BootstrapProofs MetaRaft.
From coqutil Require Import Datatypes.RecordSetters.

Import TriangleBracketNotations.

(** bincode writes eight bytes per retiring generation. *)
Lemma length_put_u64s (l : list U64) : length (put (A:=list U64) l) = 8 + 8 * length l.
Proof.
  change (length (put (A:=U64) (N.of_nat (length l)) ++ concat (put (A:=U64) <$> l)) = 8 + 8 * length l).
  rewrite length_app. change (length (put (A:=U64) (N.of_nat (length l)))) with (length (le_bytes 8 (N.of_nat (length l)))).
  rewrite length_le_bytes. f_equal. induction l as [|x l IH]; [done|].
  cbn [fmap list_fmap concat length]. rewrite length_app, IH.
  change (length (put (A:=U64) x)) with (length (le_bytes 8 x)). rewrite length_le_bytes. lia.
Qed.

#[global] Instance catalog_codec : CatalogCodec.
Proof.
  intros r l Hl. unfold encoded_len. destruct r as [name act bld ret]. cbn in Hl.
  change (N.of_nat (length (put name ++ put act ++ put bld ++ put (A:=list U64) l)) ≤
          N.of_nat (length (put name ++ put act ++ put bld ++ put (A:=list U64) ret)))%N.
  rewrite !length_app, !length_put_u64s. unfold U64. lia.
Qed.

Definition demo_identity : Identity := mkIdentity 77 1.
Definition demo_meta : Storage MemDb :=
  (set_identity demo_identity (set_db (create_cf (∅ : MemDb) (cf_state GroupId_Meta)) empty_storage)).1.

Lemma demo_meta_fresh : meta_fresh demo_meta demo_identity.
Proof.
  constructor; [intros g n; simpl; by rewrite lookup_empty|vm_compute; reflexivity| |vm_compute; reflexivity].
  intros k. unfold state_map.
  assert (state_cf demo_meta GroupId_Meta = Ok (cf_state GroupId_Meta)) as -> by (vm_compute; reflexivity).
  unfold demo_meta, set_identity, put_local, io_modify. cbn [fst].
  change (get_cf (write (create_cf (∅ : MemDb) (cf_state GroupId_Meta))
    [BatchPut DEFAULT_CF identity_key (encode demo_identity)]) (cf_state GroupId_Meta) k = None).
  rewrite get_write by (vm_compute; reflexivity). rewrite get_create by (vm_compute; reflexivity).
  by rewrite batch_get_other_cf by (by repeat constructor).
Qed.

Definition demo_config : ClusterConfig := mkClusterConfig 77 7 1 3 HashSpec_CANONICAL.
Definition at_index (cmds : list MetaCommand) : list (MetaCommand * LogId) :=
  imap (λ i cmd, (cmd, mkLogId 1 (N.of_nat (S i)))) cmds.

Definition bootstrap_cmds : list MetaCommand :=
  [MetaCommand_ClusterInit demo_config [1; 2; 3]%N;
   MetaCommand_RegisterNode 1 "a:1" "a:2"; MetaCommand_RegisterNode 2 "b:1" "b:2";
   MetaCommand_RegisterNode 3 "c:1" "c:2"; MetaCommand_RegisterNode 4 "d:1" "d:2";
   MetaCommand_SeedPlacement (GroupId_Data 0) [3; 1; 2]%N].

Definition plan_cmd : MetaCommand := MetaCommand_CreatePlan (GroupId_Data 0) 0 [1; 2; 4]%N.
Definition finalize_cmd : MetaCommand :=
  MetaCommand_FinalizePlan (GroupId_Data 0) 7 (mkObservation (GroupId_Data 0) 7 [4; 1; 2]%N (mkLogId 2 9)).

(** Everything moved off node 3, which is drained and retired. *)
Definition retire_cmds : list MetaCommand :=
  bootstrap_cmds ++
  [plan_cmd; finalize_cmd;
   MetaCommand_CreatePlan GroupId_Meta 0 [1; 2; 4]%N;
   MetaCommand_FinalizePlan GroupId_Meta 9 (mkObservation GroupId_Meta 9 [1; 2; 4]%N (mkLogId 2 10));
   MetaCommand_SetNodeState 3 NodeState_Draining 1; MetaCommand_RetireNode 3 1].

(** The meta group after a log of commands. *)
Definition demo_after (cmds : list MetaCommand) : Storage MemDb := (meta_run (at_index cmds) demo_meta).1.

Lemma demo_reached cmds : Forall meta_entry_ok (at_index cmds) →
  ∃ m, meta_store (demo_after cmds) m ∧ meta_inv m.
Proof.
  intros Hok. destruct (meta_fresh_store _ _ demo_meta_fresh) as [Hs Hi].
  destruct (meta_run_exec (at_index cmds) demo_meta _ Hs Hi Hok) as (s' & rs & m & E & Hs' & Hi' & _).
  exists m. unfold demo_after. by rewrite E.
Qed.

Lemma demo_after_eq cmds s' rs : meta_run (at_index cmds) demo_meta = (s', rs) → s' = demo_after cmds.
Proof. intros E. unfold demo_after. by rewrite E. Qed.

Lemma run_result {A} (p : Storage MemDb * Result A) rs : p.2 = Ok rs → p = (p.1, Ok rs).
Proof. destruct p. by intros [= ->]. Qed.

Lemma demo_after_result cmds rs :
  (meta_run (at_index cmds) demo_meta).2 = Ok rs → meta_run (at_index cmds) demo_meta = (demo_after cmds, Ok rs).
Proof. apply run_result. Qed.

Ltac entries_ok := repeat constructor; vm_compute; (discriminate || done).

Lemma bootstrap_ok : Forall meta_entry_ok (at_index bootstrap_cmds).
Proof. entries_ok. Qed.

Lemma bootstrap_results : (meta_run (at_index bootstrap_cmds) demo_meta).2 = Ok (replicate 6 MetaApplyResult_Applied).
Proof. vm_compute. reflexivity. Qed.

Lemma retire_ok : Forall meta_entry_ok (at_index retire_cmds).
Proof. entries_ok. Qed.

Lemma retire_results : (meta_run (at_index retire_cmds) demo_meta).2 = Ok (replicate 12 MetaApplyResult_Applied).
Proof. vm_compute. reflexivity. Qed.

Lemma meta_apply_refines_witness : ∃ s' r,
  meta_apply plan_cmd (mkLogId 1 7) (demo_after bootstrap_cmds) = (s', Ok r) ∧
  last_applied s' GroupId_Meta = Ok (Some (mkLogId 1 7)).
Proof.
  destruct (demo_reached bootstrap_cmds bootstrap_ok) as (m & Hs & Hi).
  destruct (meta_apply_refines (demo_after bootstrap_cmds) m plan_cmd (mkLogId 1 7) Hs Hi)
    as (s' & r & m' & E & _ & _ & _ & Hla & _).
  - repeat constructor; vm_compute; discriminate.
  - split; vm_compute; discriminate.
  - eauto.
Defined.

Lemma meta_run_invariant_witness :
  ∃ m, meta_store (demo_after retire_cmds) m ∧ meta_inv m.
Proof.
  destruct (meta_run_invariant (at_index retire_cmds) demo_meta demo_identity demo_meta_fresh retire_ok)
    as (s' & rs & m & E & Hs & Hi).
  apply demo_after_eq in E. subst s'. exists m. exact (conj Hs Hi).
Defined.

(** Node 2 is declared down and re-registers. *)
Definition rejoin_cmds : list MetaCommand :=
  [MetaCommand_SetNodeState 2 NodeState_Down 1; MetaCommand_SetNodeState 2 NodeState_Active 1;
   MetaCommand_RegisterNode 2 "b:1" "b:2"].

Lemma rejoin_results : (meta_run (at_index rejoin_cmds) (demo_after bootstrap_cmds)).2 =
  Ok [MetaApplyResult_Applied; reject MetaReject_StaleIncarnation; MetaApplyResult_Applied].
Proof. vm_compute. reflexivity. Qed.

Lemma meta_incarnation_fence_witness :
  node_le (mkNodeEntry 2 "b:1" "b:2" NodeState_Active 1) (mkNodeEntry 2 "b:1" "b:2" NodeState_Active 2).
Proof.
  destruct (demo_reached bootstrap_cmds bootstrap_ok) as (m & Hs & Hi).
  eapply (meta_incarnation_fence (at_index rejoin_cmds) (demo_after bootstrap_cmds) m
    (meta_run (at_index rejoin_cmds) (demo_after bootstrap_cmds)).1 _ 2 _ _ Hs Hi).
  - entries_ok.
  - vm_compute. discriminate.
  - exact (run_result _ _ rejoin_results).
  - vm_compute. reflexivity.
  - vm_compute. reflexivity.
Defined.

(** A retired node tries to come back. *)
Definition return_cmds : list MetaCommand :=
  [MetaCommand_RegisterNode 3 "c:1" "c:2"; MetaCommand_CreatePlan (GroupId_Data 0) 0 [1; 2; 3]%N].

Lemma return_results : (meta_run (at_index return_cmds) (demo_after retire_cmds)).2 =
  Ok [invalid "retired node ids cannot be reused"; reject MetaReject_IneligibleTarget].
Proof. vm_compute. reflexivity. Qed.

Lemma meta_retired_final_witness :
  meta_node (meta_run (at_index return_cmds) (demo_after retire_cmds)).1 3 = Ok None.
Proof.
  destruct (demo_reached retire_cmds retire_ok) as (m & Hs & Hi).
  apply (meta_retired_final (at_index return_cmds) (demo_after retire_cmds) m
    (meta_run (at_index return_cmds) (demo_after retire_cmds)).1
    [invalid "retired node ids cannot be reused"; reject MetaReject_IneligibleTarget] 3 1 Hs Hi).
  - entries_ok.
  - vm_compute. discriminate.
  - exact (run_result _ _ return_results).
  - vm_compute. reflexivity.
Defined.

Lemma plan_ok_demo : Forall meta_entry_ok (at_index (bootstrap_cmds ++ [plan_cmd])).
Proof. entries_ok. Qed.

Lemma meta_plan_lifecycle_witness :
  ∃ p', plan_evolves (directory_active (demo_after (bootstrap_cmds ++ [plan_cmd]))) (mkLogId 1 8) finalize_cmd (GroupId_Data 0) (mkPlacement [1; 2; 3]%N (mkLogId 1 6) (Some (mkMovePlan 7 [1; 2; 4]%N false))) p' ∧
    pl_move p' = None.
Proof.
  destruct (demo_reached (bootstrap_cmds ++ [plan_cmd]) plan_ok_demo) as (m & Hs & Hi).
  destruct (meta_plan_lifecycle (demo_after (bootstrap_cmds ++ [plan_cmd])) m finalize_cmd (mkLogId 1 8)
    (meta_apply finalize_cmd (mkLogId 1 8) (demo_after (bootstrap_cmds ++ [plan_cmd]))).1
    MetaApplyResult_Applied (GroupId_Data 0)
    (mkPlacement [1; 2; 3]%N (mkLogId 1 6) (Some (mkMovePlan 7 [1; 2; 4]%N false))) Hs Hi) as (p' & Hp & Hev).
  - repeat constructor; vm_compute; discriminate.
  - split; vm_compute; discriminate.
  - apply run_result. vm_compute. reflexivity.
  - vm_compute. reflexivity.
  - exists p'. split; [done|].
    assert (meta_placement (meta_apply finalize_cmd (mkLogId 1 8) (demo_after (bootstrap_cmds ++ [plan_cmd]))).1
      (GroupId_Data 0) = Ok (Some (mkPlacement [1; 2; 4]%N (mkLogId 2 9) None))) as E by (vm_compute; reflexivity).
    assert (Some (mkPlacement [1; 2; 4]%N (mkLogId 2 9) None) = Some p') as [= <-]; [|done].
    pose proof (eq_trans (eq_sym E) Hp) as [= <-]. done.
Defined.

(** A maintenance operation over the remaining nodes. *)
Definition demo_topology : bytes :=
  maintenance_topology_digest [(GroupId_Meta, [1; 2; 4]%N); (GroupId_Data 0, [1; 2; 4]%N)].
Definition demo_policy : bytes := replicate 32 x07.
Definition fence_cmds : list MetaCommand :=
  retire_cmds ++
  [MetaCommand_BeginMaintenance 5 1 [1; 2; 4]%N;
   MetaCommand_AcknowledgeMaintenance 5 1 1 1; MetaCommand_AcknowledgeMaintenance 5 1 2 1;
   MetaCommand_AcknowledgeMaintenance 5 1 4 1].
Definition quiesce_cmds : list MetaCommand := fence_cmds ++ [MetaCommand_QuiesceMaintenance 5 1].
Definition verify_cmds : list MetaCommand :=
  quiesce_cmds ++
  [MetaCommand_EnterMaintenanceVerification 5 1;
   MetaCommand_AcknowledgeMaintenanceRecovery 5 1 1 1 101 demo_topology demo_policy 0;
   MetaCommand_AcknowledgeMaintenanceRecovery 5 1 2 1 102 demo_topology demo_policy 0;
   MetaCommand_AcknowledgeMaintenanceRecovery 5 1 4 1 104 demo_topology demo_policy 0].
Definition release_cmd : MetaCommand :=
  MetaCommand_ReleaseMaintenance 5 1 [(1, 101); (2, 102); (4, 104)]%N [(1, 1); (2, 1); (4, 1)]%N demo_policy.

Lemma verify_ok : Forall meta_entry_ok (at_index (verify_cmds ++ [release_cmd])).
Proof. entries_ok. Qed.
Lemma quiesce_ok : Forall meta_entry_ok (at_index quiesce_cmds).
Proof. entries_ok. Qed.
Lemma fence_ok : Forall meta_entry_ok (at_index fence_cmds).
Proof. entries_ok. Qed.

Lemma verify_results : (meta_run (at_index (verify_cmds ++ [release_cmd])) demo_meta).2 =
  Ok (replicate 22 MetaApplyResult_Applied).
Proof. vm_compute. reflexivity. Qed.

Definition demo_maintenance (stage : MaintenanceStage) : MaintenanceRecord :=
  mkMaintenance 5 1 [1; 2; 4]%N [1; 2; 4]%N [] [] [] None None stage.

Definition released_maintenance (stage : MaintenanceStage) : MaintenanceRecord :=
  mkMaintenance 5 1 [1; 2; 4]%N [1; 2; 4]%N [1; 2; 4]%N [(1, 101); (2, 102); (4, 104)]%N
    [(1%N, demo_policy); (2%N, demo_policy); (4%N, demo_policy)] (Some demo_policy) (Some 0%N) stage.

Lemma meta_maintenance_fence_witness : ∃ m r, meta_store (demo_after fence_cmds) m ∧
  meta_store (meta_apply (MetaCommand_SetNodeState 2 NodeState_Down 1) (mkLogId 1 17) (demo_after fence_cmds)).1
    (set_maintenance r m).
Proof.
  destruct (demo_reached fence_cmds fence_ok) as (m & Hs & Hi).
  destruct (meta_maintenance_fence (demo_after fence_cmds) m (MetaCommand_SetNodeState 2 NodeState_Down 1)
    (mkLogId 1 17) (meta_apply (MetaCommand_SetNodeState 2 NodeState_Down 1) (mkLogId 1 17) (demo_after fence_cmds)).1
    (reject MetaReject_MaintenanceActive)
    (demo_maintenance MaintenanceStage_Preparing)
    Hs Hi) as (r' & Hs' & _).
  - repeat constructor; vm_compute; discriminate.
  - split; vm_compute; discriminate.
  - apply run_result. vm_compute. reflexivity.
  - vm_compute. reflexivity.
  - discriminate.
  - exists m, r'. exact (conj Hs Hs').
Defined.

Lemma meta_quiesced_capture_witness : ∃ p, meta_placement (demo_after quiesce_cmds) (GroupId_Data 0) = Ok (Some p) ∧
  pl_voters p = [1; 2; 4]%N ∧ pl_move p = None.
Proof.
  exists (mkPlacement [1; 2; 4]%N (mkLogId 2 9) None).
  split; [vm_compute; reflexivity|]. split; [reflexivity|].
  refine (proj1 (meta_quiesced_capture (at_index quiesce_cmds) demo_meta demo_identity (demo_after quiesce_cmds)
    (replicate 17 MetaApplyResult_Applied)
    (demo_maintenance MaintenanceStage_Quiesced)
    (GroupId_Data 0) _ demo_meta_fresh quiesce_ok _ _ _ _)).
  - apply demo_after_result. vm_compute. reflexivity.
  - vm_compute. reflexivity.
  - reflexivity.
  - vm_compute. reflexivity.
Defined.

Lemma recovering_ok : Forall meta_entry_ok (at_index verify_cmds).
Proof. entries_ok. Qed.

Lemma meta_release_verified_witness :
  recovery_epoch (demo_after verify_cmds) GroupId_Meta = Ok 0%N.
Proof.
  destruct (demo_reached verify_cmds recovering_ok) as (m & Hs & Hi).
  refine (proj1 (proj2 (proj2 (meta_release_verified (demo_after verify_cmds) m 5 1
    [(1, 101); (2, 102); (4, 104)]%N [(1, 1); (2, 1); (4, 1)]%N demo_policy (mkLogId 1 22)
    [put_mutation meta_maintenance_key (released_maintenance MaintenanceStage_Released)]
    (released_maintenance MaintenanceStage_Verifying) Hs Hi _ _ _ _)))).
  - change (wf release_cmd). repeat constructor; vm_compute; discriminate.
  - vm_compute. reflexivity.
  - vm_compute. reflexivity.
  - reflexivity.
Defined.

(** An index over one keyword field, built by every voter of the partition. *)
Definition demo_definition : SearchIndexDefinition :=
  mkSearchDefinition "doc" [mkSearchField "tag" [PathSegment_Key "tag"] FieldKind_Keyword false false true false false]
    ["tag"].
Definition demo_definition_hash : bytes := sha256 (encode demo_definition).
Definition ready_cmd (node : N) : MetaCommand :=
  MetaCommand_ReportSearchIndexReady "idx"
    (mkSearchReady 7 demo_definition_hash 2 (GroupId_Data 0) node (mkLogId 1 6) 1 (mkLogId 3 40)).
Definition index_cmds : list MetaCommand :=
  bootstrap_cmds ++
  [MetaCommand_CreateSearchIndexWithRevision "idx" demo_definition 2; ready_cmd 1; ready_cmd 2; ready_cmd 3].
Definition activate_cmd : MetaCommand := MetaCommand_ActivateSearchIndexGeneration "idx" 7.

Lemma index_results : (meta_run (at_index (index_cmds ++ [activate_cmd])) demo_meta).2 =
  Ok (replicate 11 MetaApplyResult_Applied).
Proof. vm_compute. reflexivity. Qed.
Lemma index_cmds_ok : Forall meta_entry_ok (at_index index_cmds).
Proof. entries_ok. Qed.

Definition demo_generation : SearchIndexGeneration := mkSearchGeneration 7 demo_definition_hash 2 demo_definition.

Lemma meta_activation_ready_witness : ∃ m, meta_store (demo_after index_cmds) m ∧
  ∃ o, ms_ready m !! ("idx", 7%N, GroupId_Data 0, 2%N) = Some o ∧ ry_voters_log_id o = mkLogId 1 6.
Proof.
  destruct (demo_reached index_cmds index_cmds_ok) as (m & Hs & Hi). exists m. split; [exact Hs|].
  destruct (meta_activation_ready (demo_after index_cmds) m "idx" 7 (mkLogId 1 11)
    (put_mutation (meta_search_index_key "idx") (mkSearchRecord "idx" (Some demo_generation) None []) ::
     ((λ v, StateMutation_Delete (meta_search_ready_key "idx" 7 (GroupId_Data 0) v)) <$> [1; 2; 3]%N))
    demo_config (mkSearchRecord "idx" None (Some demo_generation) []) demo_generation Hs Hi) as [_ Hall].
  - repeat constructor; vm_compute; discriminate.
  - vm_compute. reflexivity.
  - vm_compute. reflexivity.
  - vm_compute. reflexivity.
  - reflexivity.
  - destruct (Hall 0%N) as (p & Hp & _ & Hv); [vm_compute; reflexivity|].
    assert (meta_placement (demo_after index_cmds) (GroupId_Data 0) =
      Ok (Some (mkPlacement [1; 2; 3]%N (mkLogId 1 6) None))) as E by (vm_compute; reflexivity).
    pose proof (eq_trans (eq_sym E) Hp) as [= <-].
    destruct (Hv 2%N (list_elem_of_further _ _ _ (list_elem_of_here _ _))) as (o & Ho & Hl & _). exists o. exact (conj Ho Hl).
Defined.

(** ** A concrete cluster creation

    An init file for four nodes, a seeding loop that loses its answer in the
    middle, and the loop that finishes its work. *)
Definition init_file : InitFile :=
  mkInitFile "0x4d" 2 3 None [3; 1; 2]%N
    [mkDirEntry 4 "d:1" "d:2"; mkDirEntry 1 "a:1" "a:2"; mkDirEntry 3 "c:1" "c:2"; mkDirEntry 2 "b:1" "b:2"].
Definition init_descriptor : BootstrapDescriptor :=
  mkDescriptor 77 (mkClusterConfig 77 7 2 3 HashSpec_CANONICAL) [1; 2; 3]%N
    [mkDirEntry 1 "a:1" "a:2"; mkDirEntry 2 "b:1" "b:2"; mkDirEntry 3 "c:1" "c:2"; mkDirEntry 4 "d:1" "d:2"]
    [(0%N, [1; 2; 3]%N); (1%N, [2; 3; 4]%N)].
Lemma init_file_loads : load_init_descriptor init_file = Ok init_descriptor.
Proof. vm_compute. reflexivity. Qed.
Lemma init_file_ok : wf init_file.
Proof. repeat split; repeat constructor; vm_compute; first [reflexivity|discriminate]. Qed.

(** The first loop registers the cluster and loses the answer of its second command. *)
Definition genesis_1 : Storage MemDb * Result MetaApplyResult :=
  meta_apply (MetaCommand_ClusterInit (bd_config init_descriptor) (bd_meta_voters init_descriptor)) (mkLogId 1 1) demo_meta.
Definition genesis_2 : Storage MemDb * Result MetaApplyResult :=
  meta_apply (MetaCommand_RegisterNode 1 "a:1" "a:2") (mkLogId 1 2) genesis_1.1.
#[local] Strategy expand [genesis_1 genesis_2].
Lemma genesis_run : rtc (genesis_step init_descriptor) (mkGenesis demo_meta []) (mkGenesis genesis_2.1 []).
Proof.
  eapply rtc_l; [apply genesis_start|].
  eapply rtc_l; [apply (genesis_propose _ _ genesis_1.1 0 (MetaCommand_ClusterInit (bd_config init_descriptor) (bd_meta_voters init_descriptor)) (mkLogId 1 1) MetaApplyResult_Applied [] []); [reflexivity|split; vm_compute; discriminate|]|].
  { apply (pair_snd genesis_1). vm_compute. reflexivity. }
  eapply rtc_l; [apply (genesis_lost _ _ genesis_2.1 1 (MetaCommand_RegisterNode 1 "a:1" "a:2") (mkLogId 1 2) MetaApplyResult_Applied [] []); [reflexivity|split; vm_compute; discriminate|]|].
  { apply (pair_snd genesis_2). vm_compute. reflexivity. }
  apply rtc_refl.
Qed.

Lemma bootstrap_resumable_witness :
  ∃ s' index', seed_cluster_if_leader (propose_committed 2) init_descriptor (genesis_2.1, 2%N) = ((s', index'), Ok true) ∧
    ∃ voters log, meta_placement s' (GroupId_Data 1) = Ok (Some (mkPlacement voters log None)) ∧ voters = [2; 3; 4]%N.
Proof.
  destruct (bootstrap_resumable init_file init_descriptor demo_meta demo_identity (mkGenesis genesis_2.1 []) 2 2
    init_file_ok init_file_loads demo_meta_fresh eq_refl genesis_run ltac:(vm_compute; discriminate) ltac:(vm_compute; discriminate))
    as (_ & _ & s' & index' & E & Hb).
  exists s', index'. split; [exact E|]. destruct (bo_data _ _ Hb 1%N eq_refl) as (voters & log & Hv & Hp & _).
  injection Hv as <-. exists (voter_set [2; 3; 4]%N), log. split; [exact Hp|vm_compute; reflexivity].
Defined.

(** ** A planner tick and a detector run on a concrete cluster *)
(** Node 3 is Down: its data and meta replicas are to be replaced by node 4. *)
Definition down_cmds : list MetaCommand := bootstrap_cmds ++ [MetaCommand_SetNodeState 3 NodeState_Down 1].

Lemma down_ok : Forall meta_entry_ok (at_index down_cmds).
Proof. entries_ok. Qed.

Definition tick (s : Storage MemDb) : MetaRoleAction :=
  drive_meta_role s 1 (Some 1%N) (λ _, None) (λ _, true) true (cc_p demo_config) (N.to_nat (cc_r demo_config)).

Definition tick_commands : list MetaCommand :=
  [MetaCommand_CreatePlan (GroupId_Data 0) 0 [1; 2; 4]%N; MetaCommand_CreatePlan GroupId_Meta 0 [1; 2; 4]%N].
Lemma tick_down : tick (demo_after down_cmds) = MetaRole_Propose tick_commands.
Proof. vm_compute. reflexivity. Qed.

Lemma planner_commands_apply_witness : ∃ s' m',
  meta_apply (MetaCommand_CreatePlan (GroupId_Data 0) 0 [1; 2; 4]%N) (mkLogId 1 8) (demo_after down_cmds) =
    (s', Ok MetaApplyResult_Applied) ∧ meta_store s' m' ∧ meta_inv m'.
Proof.
  destruct (demo_reached down_cmds down_ok) as (m & Hs & Hi).
  assert (ms_cluster m = Some demo_config) as Hc.
  { assert (meta_cluster (demo_after down_cmds) = Ok (Some demo_config)) as E by (vm_compute; reflexivity).
    rewrite (meta_cluster_read _ m Hs Hi) in E. by injection E. }
  destruct (planner_commands_apply (demo_after down_cmds) m demo_config 1 (Some 1%N) (λ _, None) (λ _, true) true tick_commands
    (MetaCommand_CreatePlan (GroupId_Data 0) 0 [1; 2; 4]%N) (mkLogId 1 8) Hs Hi Hc) as (s' & m' & E & Hs' & Hi' & _).
  - split; vm_compute; discriminate.
  - exact tick_down.
  - by left.
  - exists s', m'. exact (conj E (conj Hs' Hi')).
Defined.

(** A detector round at 1 s, a heartbeat of node 2 at 8 s, a round at 20 s. *)
Definition demo_store : Storage MemDb := demo_after bootstrap_cmds.
Definition round_at (now : N) (σ : DetSys) : HeartbeatTracker * N * list MetaCommand :=
  failure_detector_round (ds_store σ) true now Timeouts_default (ds_generation σ) (ds_tracker σ).
Definition after_round (now : N) (σ : DetSys) : DetSys :=
  mkDetSys (ds_store σ) (round_at now σ).1.1 (round_at now σ).1.2 now (ds_heard σ)
    (if round_suspends (ds_store σ) (ds_generation σ)
     then date_rows now (round_rows (ds_store σ)) ++ ds_suspended σ else ds_suspended σ)
    (date_rows now (round_rows (ds_store σ)) ++ ds_listed σ).
Definition after_heartbeat (σ : DetSys) : DetSys :=
  mkDetSys (ds_store σ) (serve_heartbeat (ds_store σ) true 2 1 5 1 8000 (ds_tracker σ)) (ds_generation σ) 8000
    (if heartbeat_accepted (ds_store σ) true 2 1 5 1 8000 (ds_tracker σ) then (2, 1, 8000)%N :: ds_heard σ else ds_heard σ)
    (ds_suspended σ) (ds_listed σ).
Definition det_two : DetSys := after_heartbeat (after_round 1000 (det_start demo_store)).

Lemma after_round_step now σ : (ds_clock σ ≤ now)%N → det_step Timeouts_default σ (round_at now σ).2 (after_round now σ).
Proof. intros Hle. apply (det_round Timeouts_default σ true now); [done|]. unfold round_at. by destruct (failure_detector_round _ _ _ _ _ _) as [[? ?] ?]. Qed.

Lemma det_two_reached : rtc (det_next Timeouts_default) (det_start demo_store) det_two.
Proof.
  eapply rtc_l; [eexists; apply (after_round_step 1000); vm_compute; discriminate|].
  eapply rtc_l; [|apply rtc_refl]. exists []. apply (det_heartbeat Timeouts_default _ true 2 1 5 1 8000); vm_compute; discriminate.
Qed.

Lemma det_third_round : (round_at 20000 det_two).2 =
  [MetaCommand_SetNodeState 1 NodeState_Down 1; MetaCommand_SetNodeState 2 NodeState_Suspect 1;
   MetaCommand_SetNodeState 3 NodeState_Down 1; MetaCommand_SetNodeState 4 NodeState_Down 1].
Proof. vm_compute. reflexivity. Qed.

Lemma detector_no_false_alarm_witness : ∃ e, meta_node (ds_store det_two) 3 = Ok (Some e) ∧ nd_incarnation e = 1%N ∧
  justified Timeouts_default 20000 (ds_heard (after_round 20000 det_two)) (ds_suspended (after_round 20000 det_two))
    (ds_listed (after_round 20000 det_two)) 3 (nd_state e) 1 NodeState_Down.
Proof.
  destruct (demo_reached bootstrap_cmds bootstrap_ok) as (m & Hs & Hi).
  apply (detector_no_false_alarm Timeouts_default demo_store m det_two (after_round 20000 det_two)
    (round_at 20000 det_two).2 3 NodeState_Down 1 Hs Hi det_two_reached).
  - apply after_round_step. vm_compute. discriminate.
  - vm_compute. discriminate.
  - rewrite det_third_round. do 2 right. by left.
Defined.

(** ** A concrete apply of meta entries

    The bootstrap commands as Raft entries, with a blank and a membership entry,
    on a fresh meta group whose third write fails. *)
Definition meta_raft_store : Storage MemDb :=
  (set_identity demo_identity
     (set_db (create_cf (create_cf (∅ : MemDb) (cf_state GroupId_Meta)) (cf_log GroupId_Meta)) empty_storage)).1.

Lemma meta_raft_store_fresh : meta_fresh meta_raft_store demo_identity.
Proof.
  constructor; [intros g n; simpl; by rewrite lookup_empty|vm_compute; reflexivity| |vm_compute; reflexivity].
  intros k. unfold state_map.
  assert (state_cf meta_raft_store GroupId_Meta = Ok (cf_state GroupId_Meta)) as -> by (vm_compute; reflexivity).
  unfold meta_raft_store, set_identity, put_local, io_modify. cbn [fst].
  change (get_cf (write (create_cf (create_cf (∅ : MemDb) (cf_state GroupId_Meta)) (cf_log GroupId_Meta))
    [BatchPut DEFAULT_CF identity_key (encode demo_identity)]) (cf_state GroupId_Meta) k = None).
  rewrite get_write by (vm_compute; reflexivity). rewrite get_create_ne by done. rewrite get_create by (vm_compute; reflexivity).
  by rewrite batch_get_other_cf by (by repeat constructor).
Qed.

Definition meta_raft_entries : list MetaEntry :=
  [mkEntry (raft_id 1) EntryPayload_Blank;
   mkEntry (raft_id 2) (EntryPayload_Membership (mkMembershipConfig [[1; 2; 3]%N] [(1%N, "a")]));
   mkEntry (raft_id 3) (EntryPayload_Normal (MetaCommand_ClusterInit demo_config [1; 2; 3]%N));
   mkEntry (raft_id 4) (EntryPayload_Normal (MetaCommand_RegisterNode 1 "a:1" "a:2"))].

(** The first three batches are flushed; the fourth is lost. *)
Definition meta_env (l : RaftLogId) : WriteEnv :=
  mkWriteEnv 0 [] (if (rl_index l <? 4)%N then Fate_Written (Some None) else Fate_Stopped false).

Lemma meta_clean_prefix_witness :
  ∃ m, meta_store (meta_sm_apply meta_env 0 meta_raft_entries meta_raft_store).1 m ∧
    recovered_raft_applied (meta_sm_apply meta_env 0 meta_raft_entries meta_raft_store).1 GroupId_Meta = Ok (Some (raft_id 3)).
Proof.
  destruct (meta_fresh_store _ _ meta_raft_store_fresh) as [Hs Hi].
  assert (Forall wf meta_raft_entries) as Hw by (repeat constructor; vm_compute; (discriminate || done)).
  assert (recorded_membership GroupId_Meta meta_raft_store default_membership) as Hrec by (vm_compute; reflexivity).
  destruct (meta_clean_prefix meta_env 0 meta_raft_entries meta_raft_store _ default_membership _ _ Hs Hi Hrec
    default_membership_wf Hw (surjective_pairing _)) as (pre & rest & rs & m' & _ & _ & Hs' & _).
  exists m'. split; [exact Hs'|vm_compute; reflexivity].
Defined.
