(* ===== verification/BackupDemo.v ===== *)
(** * A concrete backup and restore

    Documents in the tuple encoding of bincode stand for their JSON, and the
    in-memory store is kept in one file. Three nodes quiesced by a maintenance
    operation are exported, assembled into a package, cataloged, and one of them
    is restored from a recovery plan. *)

From S2P Require Import Prelude SortBy BTree Types Config Codec SearchDef Keyspace Outbox MetaTypes ApplyDurability Aio Rocks Storage Startup DataSM SearchStore ApplyRaft LogStore Bincode Demo MetaSM Bootstrap MetaDemo Backup BackupProofs.

(** ** Documents *)

#[global] Instance bin_FileDigest : Bin FileDigest.
Proof.
  refine (bin_iso (B := string * (U64 * string))
    (λ r, (fd_path r, (fd_bytes r, fd_sha256 r)))
    (λ '(y0, (y1, y2)), mkFileDigest y0 y1 y2) _ _); abstract solve_struct.
Defined.
#[global] Instance bin_GroupPosition : Bin GroupPosition.
Proof.
  refine (bin_iso (B := GroupId * LogId)
    (λ r, (gp_group r, gp_applied r))
    (λ '(y0, y1), mkGroupPosition y0 y1) _ _); abstract solve_struct.
Defined.
#[global] Instance bin_MetaInventory : Bin MetaInventory.
Proof.
  refine (bin_iso (B := ClusterConfig * ((list NodeDirectoryEntry) * ((list (GroupId * Placement)) * ((list SearchIndexRecord) * (string * string)))))
    (λ r, (mv_cluster r, (mv_directory r, (mv_placements r, (mv_search_definitions r, (mv_search_state_sha256 r, mv_state_sha256 r))))))
    (λ '(y0, (y1, (y2, (y3, (y4, y5))))), mkInventory y0 y1 y2 y3 y4 y5) _ _); abstract solve_struct.
Defined.
#[global] Instance bin_NodeArtifact : Bin NodeArtifact.
Proof.
  refine (bin_iso (B := U32 * (U128 * (U128 * (U64 * (U128 * (U64 * (string * (MaintenanceRecord * ((list GroupPosition) * ((option MetaInventory) * (list FileDigest)))))))))))
    (λ r, (na_format r, (na_backup_id r, (na_cluster_id r, (na_node_id r, (na_recovery_epoch r, (na_trust_generation r, (na_trust_policy_digest r, (na_maintenance r, (na_positions r, (na_meta r, na_files r)))))))))))
    (λ '(y0, (y1, (y2, (y3, (y4, (y5, (y6, (y7, (y8, (y9, y10)))))))))), mkArtifact y0 y1 y2 y3 y4 y5 y6 y7 y8 y9 y10) _ _); abstract solve_struct.
Defined.
#[global] Instance bin_PackageNode : Bin PackageNode.
Proof.
  refine (bin_iso (B := U64 * string)
    (λ r, (pn_node_id r, pn_manifest_sha256 r))
    (λ '(y0, y1), mkPackageNode y0 y1) _ _); abstract solve_struct.
Defined.
#[global] Instance bin_DirEntry : Bin DirEntry.
Proof.
  refine (bin_iso (B := U64 * (string * string))
    (λ r, (de_node_id r, (de_control_addr r, de_bulk_addr r)))
    (λ '(y0, (y1, y2)), mkDirEntry y0 y1 y2) _ _); abstract solve_struct.
Defined.
#[global] Instance bin_BootstrapDescriptor : Bin BootstrapDescriptor.
Proof.
  refine (bin_iso (B := U128 * (ClusterConfig * ((list U64) * ((list DirEntry) * (list (U16 * list U64))))))
    (λ r, (bd_cluster_id r, (bd_config r, (bd_meta_voters r, (bd_directory r, bd_data_placements r)))))
    (λ '(y0, (y1, (y2, (y3, y4)))), mkDescriptor y0 y1 y2 y3 y4) _ _); abstract solve_struct.
Defined.
#[global] Instance bin_PackageManifest : Bin PackageManifest.
Proof.
  refine (bin_iso (B := U32 * (string * (U32 * (U32 * (U32 * (U32 * (U32 * (U128 * (U128 * (BootstrapDescriptor * (U128 * (U64 * ((list GroupPosition) * (MetaInventory * (U64 * (string * ((list string) * (list PackageNode))))))))))))))))))
    (λ r, (pm_format r, (pm_binary_version r, (pm_protocol_version r, (pm_storage_format_version r, (pm_durable_record_version r, (pm_snapshot_format_version r, (pm_search_engine_revision r, (pm_backup_id r, (pm_recovery_epoch r, (pm_descriptor r, (pm_operation_id r, (pm_generation r, (pm_positions r, (pm_meta r, (pm_trust_generation r, (pm_trust_policy_digest r, (pm_prior_key_fingerprints r, pm_nodes r))))))))))))))))))
    (λ '(y0, (y1, (y2, (y3, (y4, (y5, (y6, (y7, (y8, (y9, (y10, (y11, (y12, (y13, (y14, (y15, (y16, y17))))))))))))))))), mkPackage y0 y1 y2 y3 y4 y5 y6 y7 y8 y9 y10 y11 y12 y13 y14 y15 y16 y17) _ _); abstract solve_struct.
Defined.
#[global] Instance bin_FencingEvidence : Bin FencingEvidence.
Proof.
  refine (bin_iso (B := string * (string * (string * (bool * (bool * bool)))))
    (λ r, (fv_cluster_id r, (fv_backup_id r, (fv_checked_by r, (fv_old_processes_stopped r, (fv_automatic_restart_disabled r, fv_old_peer_and_client_routes_isolated r))))))
    (λ '(y0, (y1, (y2, (y3, (y4, y5))))), mkEvidence y0 y1 y2 y3 y4 y5) _ _); abstract solve_struct.
Defined.
#[global] Instance bin_RecoveryPlan : Bin RecoveryPlan.
Proof.
  refine (bin_iso (B := U32 * (U128 * (U128 * (U128 * (U64 * (string * ((list string) * (string * (string * ((list U64) * (list GroupPosition)))))))))))
    (λ r, (rv_format r, (rv_cluster_id r, (rv_backup_id r, (rv_recovery_epoch r, (rv_minimum_trust_generation r, (rv_prior_trust_policy_digest r, (rv_prior_key_fingerprints r, (rv_package_manifest_sha256 r, (rv_fencing_evidence_sha256 r, (rv_nodes r, rv_recovery_point r)))))))))))
    (λ '(y0, (y1, (y2, (y3, (y4, (y5, (y6, (y7, (y8, (y9, y10)))))))))), mkPlan y0 y1 y2 y3 y4 y5 y6 y7 y8 y9 y10) _ _); abstract solve_struct.
Defined.
#[global] Instance bin_CatalogEntry : Bin CatalogEntry.
Proof.
  refine (bin_iso (B := U128 * ((string * string) * (string * U64)))
    (λ r, (ce_backup_id r, (ce_package_path r, (ce_manifest_sha256 r, ce_verified_unix_seconds r))))
    (λ '(y0, (y1, (y2, y3))), mkCatalogEntry y0 y1 y2 y3) _ _); abstract solve_struct.
Defined.
#[global] Instance bin_BackupCatalog : Bin BackupCatalog.
Proof.
  refine (bin_iso (B := U32 * (list CatalogEntry))
    (λ r, (bc_format r, bc_entries r))
    (λ '(y0, y1), mkCatalog y0 y1) _ _); abstract solve_struct.
Defined.

(** The encoding of a document is the document. *)
#[global] Program Instance bin_json `{Bin A} : Json A := {| to_json := encode; from_json := decode |}.
Next Obligation. intros A ? ? x Hx. by apply decode_encode. Qed.

(** ** The files of the in-memory store

    A list is its elements, each after a byte 1, and a byte 0. *)
Definition seal_list {A} (e : A → bytes) (l : list A) : bytes := foldr (λ x r, x01 :: e x ++ r) [x00] l.
Fixpoint unseal_list {A} (d : bytes → option (A * bytes)) (fuel : nat) (b : bytes) : option (list A * bytes) :=
  match fuel, b with
  | S fuel, x01 :: b => '(x, b) ← d b; '(l, b) ← unseal_list d fuel b; Some (x :: l, b)
  | S _, _ :: b => Some ([], b)
  | _, _ => None
  end.
Definition unseal {A} (d : bytes → option (A * bytes)) (b : bytes) : option (list A * bytes) := unseal_list d (length b) b.

Lemma unseal_seal {A} (e : A → bytes) (d : bytes → option (A * bytes)) l rest : (∀ x r, d (e x ++ r) = Some (x, r)) →
  unseal d (seal_list e l ++ rest) = Some (l, rest).
Proof.
  intros Hd. assert (∀ fuel, (length l < fuel)%nat → unseal_list d fuel (seal_list e l ++ rest) = Some (l, rest)) as Hf.
  { induction l as [|x l IH]; intros [|fuel] Hl; cbn in *; [lia|done|lia|]. rewrite <-(assoc_L (++)), Hd. cbn. by rewrite IH by lia. }
  apply Hf. rewrite length_app. assert (length l < length (seal_list e l))%nat; [|lia]. clear. unfold seal_list. induction l; cbn [foldr length]; rewrite ?length_app; lia.
Qed.

Definition seal_bytes : bytes → bytes := seal_list (λ x, [x]).
Definition unseal_bytes : bytes → option (bytes * bytes) := unseal (λ b, match b with x :: b => Some (x, b) | [] => None end).
Definition seal_row (kv : bytes * bytes) : bytes := seal_bytes kv.1 ++ seal_bytes kv.2.
Definition unseal_row (b : bytes) : option ((bytes * bytes) * bytes) :=
  '(k, b) ← unseal_bytes b; '(v, b) ← unseal_bytes b; Some ((k, v), b).
Definition seal_family (f : string * gmap bytes bytes) : bytes := seal_bytes (String.list_byte_of_string f.1) ++ seal_list seal_row (map_to_list f.2).
Definition unseal_family (b : bytes) : option ((string * gmap bytes bytes) * bytes) :=
  '(n, b) ← unseal_bytes b; '(rows, b) ← unseal unseal_row b; Some ((String.string_of_list_byte n, list_to_map rows), b).

Lemma unseal_seal_bytes b rest : unseal_bytes (seal_bytes b ++ rest) = Some (b, rest).
Proof. by apply unseal_seal. Qed.
Lemma unseal_seal_row kv rest : unseal_row (seal_row kv ++ rest) = Some (kv, rest).
Proof. unfold unseal_row, seal_row. rewrite <-(assoc_L (++)), unseal_seal_bytes. cbn. rewrite unseal_seal_bytes. by destruct kv. Qed.
Lemma unseal_seal_family f rest : unseal_family (seal_family f ++ rest) = Some (f, rest).
Proof.
  unfold unseal_family, seal_family. rewrite <-(assoc_L (++)), unseal_seal_bytes. cbn. rewrite unseal_seal by apply unseal_seal_row. cbn.
  rewrite list_to_map_to_list, String.string_of_list_byte_of_string. by destruct f.
Qed.

Definition database_file (d : MemDb) : bytes := seal_list seal_family (map_to_list d).
#[global] Instance mem_files : DbFiles MemDb := {|
  db_checkpoint d := [("CURRENT", Fs_File (database_file d))];
  db_open_dir l := match dir_lookup l "CURRENT" with Some (Fs_File b) => list_to_map ∘ fst <$> unseal unseal_family b | _ => None end;
  db_close _ d := [("CURRENT", Fs_File (database_file d))];
|}.

Lemma dir_lookup_cons n x l other : dir_lookup ((n, x) :: l) other = if decide (n = other) then Some x else dir_lookup l other.
Proof. unfold dir_lookup. cbn. destruct (decide (n = other)); [done|]. by destruct (list_find _ l) as [[]|]. Qed.
Lemma dir_lookup_put_ne l name other node : name ≠ other → dir_lookup (dir_put l name node) other = dir_lookup l other.
Proof.
  intros Hne. unfold dir_put. induction l as [|[n x] l IH]; cbn [app].
  { rewrite filter_nil. cbn [app]. by rewrite dir_lookup_cons, decide_False. }
  rewrite filter_cons, (dir_lookup_cons n x l). cbn [fst]. case_decide as Hn; cbn [app]; [rewrite dir_lookup_cons; by case_decide|].
  by rewrite decide_False by congruence.
Qed.

#[global] Instance mem_files_ok : DbFilesOk MemDb.
Proof.
  constructor.
  - intros l d d' _. cbn [db_open_dir db_close mem_files]. change (dir_lookup [("CURRENT", Fs_File (database_file d'))] "CURRENT") with (Some (Fs_File (database_file d'))).
    unfold database_file. pose proof (unseal_seal seal_family unseal_family (map_to_list d') [] unseal_seal_family) as E.
    rewrite app_nil_r in E. rewrite E. cbn. by rewrite list_to_map_to_list.
  - intros l node. cbn [db_open_dir mem_files]. by rewrite dir_lookup_put_ne.
Qed.

(** A checksum cheap enough for whole databases. *)
#[local] Instance file_hashes : Hashes := {|
  xxh64 l seed := 0%N; xxh3_128 l := 0%N; sha256 l := le_bytes 32 (foldr (λ b n, Byte.to_N b + n)%N 0%N l) |}.

(** ** A quiesced cluster

    The meta group has run its commands up to the quiesced fence; the data group
    has applied one write, under an index consumer. *)
Definition demo_position (index : N) : RaftApplied := mkRaftApplied (Some (mkRaftLogId 2 1 index)) (mkMembership None [[1; 2; 4]%N] []).
Definition demo_cfs (d : MemDb) : MemDb := foldl create_cf d [cf_log GroupId_Meta; cf_log (GroupId_Data 0); cf_state (GroupId_Data 0)].
Definition demo_consumer_key : bytes := search_consumer_key (GroupId_Data 0) "idx" 1.
Definition quiesced_node (node_id : NodeId) : Storage MemDb :=
  set_db (write (demo_cfs (st_db (demo_after quiesce_cmds)))
    [BatchPut DEFAULT_CF identity_key (encode (mkIdentity 77 node_id));
     BatchPut DEFAULT_CF maintenance_fence_key (encode (demo_maintenance MaintenanceStage_Quiesced));
     BatchPut DEFAULT_CF demo_consumer_key (encode (mkConsumer (replicate 32 x01) 1 None None false));
     BatchPut (cf_state GroupId_Meta) raft_applied_key (encode (demo_position 17));
     BatchPut (cf_state (GroupId_Data 0)) raft_applied_key (encode (demo_position 4));
     BatchPut (cf_state (GroupId_Data 0)) (user_key [x61]) [x62];
     BatchPut (cf_log (GroupId_Data 0)) (ENTRY_PREFIX :: be_bytes 8 4) [x03]]) empty_storage.
Definition demo_descriptor : BootstrapDescriptor := mkDescriptor 77 demo_config [1; 2; 3]%N [] [(0%N, [3; 1; 2]%N)].
Definition demo_trust : TrustSnapshot := mkTrust 6 (replicate 32 x05) [hex_bytes (replicate 32 x0a)].

Definition artifact_path (node_id : NodeId) : FsPath := ("/backup", "artifact-" +:+ pretty node_id).
Definition package_path : FsPath := ("/backup", "package").
Definition catalog_path : FsPath := ("/backup", "catalog.json").
Definition evidence_path : FsPath := ("/backup", "evidence.json").
Definition plan_path : FsPath := ("/backup", "plan.json").
Definition restored_path : FsPath := ("/data", "node-2").

Definition export (node_id : NodeId) : io Fs NodeArtifact :=
  export_node FsEnv_good (quiesced_node node_id) [x7b; x7d] demo_descriptor node_id 9 5 1 (artifact_path node_id) demo_trust.
Definition back_up : io Fs RecoveryPlan :=
  export 1 ;;? export 2 ;;? export 4 ;;?
  assemble FsEnv_good demo_descriptor [artifact_path 1; artifact_path 2; artifact_path 4] package_path demo_trust ;;?
  record_backup FsEnv_good 100 1700000000 package_path catalog_path ;;?
  io_modify <[evidence_path := Fs_File (to_json (mkEvidence (hex_u128 77) (hex_u128 9) "operator" true true true))]> ;;?
  initialize_restore FsEnv_good package_path catalog_path evidence_path plan_path [0; 12]%N.

(** The file system after the backup, and the plan of its restore. *)
Definition backed_up : Fs := (back_up ∅).1.
Definition demo_plan : RecoveryPlan :=
  mkPlan FORMAT 77 9 12 7 (hex_bytes (replicate 32 x05)) [hex_bytes (replicate 32 x0a)]
    (default "" match manifest_checksum (backed_up !! package_path) with Ok c => Some c | Err _ => None end)
    (hex_bytes (sha256 (to_json (mkEvidence (hex_u128 77) (hex_u128 9) "operator" true true true))))
    [1; 2; 4]%N [mkGroupPosition GroupId_Meta (mkLogId 2 17); mkGroupPosition (GroupId_Data 0) (mkLogId 2 4)].

#[local] Instance BootstrapDescriptor_eq_dec : EqDecision BootstrapDescriptor.
Proof. solve_decision. Defined.
Lemma demo_package_ok : ∃ package, verify_package (backed_up !! package_path) = Ok package ∧
  pm_operation_id package = 5%N ∧ pm_generation package = 1%N ∧ pm_descriptor package = demo_descriptor.
Proof.
  assert (match verify_package (backed_up !! package_path) with
    | Ok p => (pm_operation_id p =? 5)%N && (pm_generation p =? 1)%N && bool_decide (pm_descriptor p = demo_descriptor)
    | Err _ => false end = true) as E by (vm_compute; reflexivity).
  destruct (verify_package _) as [package|]; [|done]. bools. exists package.
  by split_and!.
Qed.

Lemma verified_package_consistent_witness : ∃ package artifacts first, verify_package (backed_up !! package_path) = Ok package ∧
  recovery_point demo_descriptor artifacts first (pm_meta package) (pm_positions package).
Proof.
  destruct demo_package_ok as (package & E & _ & _ & Hd).
  destruct (verified_package_consistent (backed_up !! package_path) package E) as (_ & artifacts & first & _ & _ & _ & _ & _ & _ & Hr).
  exists package, artifacts, first. rewrite <-Hd. exact (conj E Hr).
Defined.

(** ** Restoring node 2 *)

Definition restored : Fs * Result RestoreInventory := restore_node FsEnv_good 1 0 1000000 package_path plan_path 2 restored_path backed_up.
Definition packaged_db : MemDb := st_db (quiesced_node 2).

Lemma scan_row (d : MemDb) p k v : starts_with p k = true → db_get d k = Some v → (k, v) ∈ scan_prefix d DEFAULT_CF p.
Proof. intros Hk Hv. apply elem_of_scan_prefix. split; [by apply starts_with_spec|exact Hv]. Qed.

Lemma quiesced_layout : layout_ok packaged_db.
Proof.
  assert (scan_prefix packaged_db DEFAULT_CF state_cf_pointer_prefix = []) as E1 by (vm_compute; reflexivity).
  assert (scan_prefix packaged_db DEFAULT_CF serving_prefix = []) as E2 by (vm_compute; reflexivity).
  constructor; intros k v Hk Hv; pose proof (scan_row _ _ _ _ Hk Hv) as Hin;
    [rewrite E1 in Hin|rewrite E2 in Hin]; destruct (proj1 (elem_of_nil _) Hin).
Qed.

Lemma quiesced_restorable package : pm_operation_id package = 5%N → pm_generation package = 1%N → pm_descriptor package = demo_descriptor →
  restorable packaged_db package demo_plan 2.
Proof.
  intros Ho Hg Hd. assert (∀ g, g ∈ all_groups (cc_p (bd_config (pm_descriptor package))) → g = GroupId_Meta ∨ g = GroupId_Data 0) as Hgs.
  { rewrite Hd. intros g Hin. change (g ∈ [GroupId_Meta; GroupId_Data 0]) in Hin. set_solver. }
  constructor.
  - exists (encode (mkIdentity 77 2)), (mkIdentity 77 2). split_and!; vm_compute; reflexivity.
  - exists (encode (demo_maintenance MaintenanceStage_Quiesced)), (demo_maintenance MaintenanceStage_Quiesced).
    split_and!; [vm_compute; reflexivity..|by rewrite Ho|by rewrite Hg|reflexivity].
  - exists None. split; [vm_compute; reflexivity|vm_compute; discriminate].
  - intros g Hin _. destruct (Hgs g Hin) as [-> | ->].
    + eexists (encode (demo_position 17)), (demo_position 17), _. split_and!; vm_compute; reflexivity.
    + eexists (encode (demo_position 4)), (demo_position 4), _. split_and!; vm_compute; reflexivity.
  - intros g k v Hin _ Hk Hv. pose proof (scan_row _ _ _ _ Hk Hv) as Hr. destruct (Hgs g Hin) as [-> | ->].
    + assert (scan_prefix packaged_db DEFAULT_CF (search_consumer_prefix GroupId_Meta) = []) as E by (vm_compute; reflexivity).
      rewrite E in Hr. destruct (proj1 (elem_of_nil _) Hr).
    + assert (scan_prefix packaged_db DEFAULT_CF (search_consumer_prefix (GroupId_Data 0)) =
        [(demo_consumer_key, encode (mkConsumer (replicate 32 x01) 1 None None false))]) as E by (vm_compute; reflexivity).
      rewrite E in Hr. apply list_elem_of_singleton in Hr. injection Hr as -> ->. eexists. vm_compute. reflexivity.
Qed.

Lemma plan_stored : backed_up !! plan_path = Some (Fs_File (to_json demo_plan)).
Proof.
  assert (match backed_up !! plan_path with Some (Fs_File b) => bool_decide (b = to_json demo_plan) | _ => false end = true) as E by (vm_compute; reflexivity).
  destruct (backed_up !! plan_path) as [[b| |]|]; try discriminate E. apply bool_decide_eq_true in E. by rewrite E.
Qed.
Lemma package_holds : package_db backed_up package_path 2 ≫= db_open_dir = Some packaged_db.
Proof.
  assert (match package_db backed_up package_path 2 ≫= db_open_dir with Some d => bool_decide (d = packaged_db) | None => false end = true) as E
    by (vm_compute; reflexivity).
  destruct (package_db backed_up package_path 2 ≫= db_open_dir) as [d|]; [|discriminate E]. apply bool_decide_eq_true in E. by rewrite E.
Qed.
Lemma demo_plan_wf : wf demo_plan.
Proof. repeat split; repeat constructor; vm_compute; (discriminate || done). Qed.
Lemma demo_inventory : restore_inventory backed_up 1000000 package_path plan_path 2 restored_path = Ok (mkRestoreInventory 2 2 1960 12).
Proof. vm_compute. reflexivity. Qed.

Lemma restore_node_exact_witness : restored.2 = Ok (mkRestoreInventory 2 2 1960 12) ∧ ∃ package,
  verify_package (backed_up !! package_path) = Ok package ∧ starts_restored packaged_db package 12 2 (restored.1 !! restored_path).
Proof.
  destruct demo_package_ok as (package & E & Ho & Hg & Hd).
  destruct (restore_node_exact FsEnv_good 1 0 1000000 package_path plan_path 2 restored_path backed_up restored.1 restored.2 demo_plan packaged_db
    plan_stored demo_plan_wf eq_refl package_holds quiesced_layout (surjective_pairing _)) as (_ & _ & Hp & Hs).
  pose proof (Hs package _ demo_inventory E (quiesced_restorable package Ho Hg Hd) ltac:(vm_compute; reflexivity) eq_refl eq_refl eq_refl) as Hr.
  split; [exact Hr|]. destruct Hp as [[[err He] _]|(_ & package' & inventory & E' & Hstart & _)]; [rewrite Hr in He; discriminate He|].
  exists package'. exact (conj E' Hstart).
Defined.
