(* ===== verification/MovesDemo.v ===== *)
(** * Concrete moves, and the schedule the fence excludes

    On the bootstrapped cluster of [MetaDemo], partition 0 moves from voters
    1, 2, 3 to 1, 2, 4. Without the fence on elections a pass that was gated
    before the plan was aborted resumes after the rollback has been recorded
    and leaves the record and the group apart. *)

From S2P Require Import Prelude BTree Types Codec Config SearchDef Keyspace Outbox MetaTypes ApplyDurability Rocks Storage Bincode Demo MetaSM MetaSpec MetaReads MetaHandlers MetaInv MetaProofs MetaDemo Reconcile Moves MovesProofs.
From coqutil Require Import Datatypes.RecordSetters.
Import TriangleBracketNotations.

Notation d0 := (GroupId_Data 0).
Definition placed (voters : list NodeId) (move : option MovePlan) : Placement := mkPlacement voters (mkLogId 1 6) move.

(** What the bootstrapped state holds. *)
Record booted (m : MetaState) : Prop := {
  bt_inv : meta_inv m;
  bt_cluster : ms_cluster m = Some demo_config;
  bt_placement : ms_placements m !! d0 = Some (placed [1; 2; 3]%N None);
  bt_active : node_active m 4;
  bt_eligible : (3 ≤ length (filter (λ e, active_entry e = true) (map_to_list (ms_nodes m)).*2));
  bt_open : fence_open m;
}.

Lemma booted_exists : ∃ m, booted m.
Proof.
  destruct (demo_reached bootstrap_cmds bootstrap_ok) as (m & Hs & Hi). exists m. constructor.
  - done.
  - assert (meta_cluster (demo_after bootstrap_cmds) = Ok (Some demo_config)) as E by (vm_compute; reflexivity).
    rewrite (meta_cluster_read _ m Hs Hi) in E. by injection E.
  - assert (meta_placement (demo_after bootstrap_cmds) d0 = Ok (Some (placed [1; 2; 3]%N None))) as E by (vm_compute; reflexivity).
    rewrite (meta_placement_read _ m Hs Hi) in E. by injection E.
  - assert (meta_node (demo_after bootstrap_cmds) 4 = Ok (Some (mkNodeEntry 4 "d:1" "d:2" NodeState_Active 1))) as E
      by (vm_compute; reflexivity).
    rewrite (meta_node_read _ m Hs Hi) in E by (vm_compute; discriminate). injection E as E. eexists. split; [exact E|done].
  - assert (eligible_count (demo_after bootstrap_cmds) = Ok 4) as E by (vm_compute; reflexivity).
    rewrite (eligible_count_read _ m Hs Hi) in E. injection E as E. rewrite E. lia.
  - assert (meta_maintenance (demo_after bootstrap_cmds) = Ok None) as E by (vm_compute; reflexivity).
    rewrite (meta_maintenance_read _ m Hs Hi) in E. injection E as E. intros r Hr. congruence.
Qed.

Section run.
Context (m : MetaState) (Hb : booted m).

Definition the_plan (aborting : bool) : MovePlan := mkMovePlan 7 [1; 2; 4]%N aborting.
Definition planned (aborting : bool) : MetaState := set_placement d0 (placed [1; 2; 3]%N (Some (the_plan aborting))) m.
Definition world (m : MetaState) (applied : N) (config : DataConfig) (learners : list NodeId) (leader : NodeId)
    (passes : gmap NodeId Pass) (net : list ObservationBody) : Moves :=
  mkMoves m applied config learners (Some leader) passes net.
Definition start : Moves := world m 6 (Uniform [1; 2; 3]%N) [] 1 ∅ [].

Lemma start_settled : settled d0 start.
Proof. split_and!; [apply Hb|done|done|]. eexists. split_and!; [apply Hb|done|done]. Qed.

Lemma planned_placement aborting : ms_placements (planned aborting) !! d0 = Some (placed [1; 2; 3]%N (Some (the_plan aborting))).
Proof. apply lookup_insert_eq. Qed.

Lemma create_step : meta_step m (mkLogId 1 7) (MetaCommand_CreatePlan d0 0 [1; 2; 4]%N) (planned false).
Proof.
  split; [right; apply Hb|].
  apply (rule_create_plan m (mkLogId 1 7) d0 0 [1; 2; 4]%N (placed [1; 2; 3]%N None) demo_config);
    try apply Hb; try done.
  - intros _. pose proof (bt_eligible m Hb). cbn. lia.
  - apply (bool_decide_unpack _). vm_compute. exact Logic.I.
  - apply Forall_singleton. apply Hb.
Qed.

(** The plan is created and the leader starts a pass. *)
Definition moving : Moves := world (planned false) 7 (Uniform [1; 2; 3]%N) [] 1 (<[1%N := Pass_Read]> ∅) [].

Lemma created_reached fenced : rtc (move_step d0 fenced) start (world (planned false) 7 (Uniform [1; 2; 3]%N) [] 1 ∅ []).
Proof.
  eapply rtc_l; [apply (step_meta d0 fenced start (planned false) (mkLogId 1 7) (MetaCommand_CreatePlan d0 0 [1; 2; 4]%N))|].
  - split_and!; [vm_compute; discriminate..|]. split; [vm_compute; discriminate|]. repeat constructor; vm_compute; discriminate.
  - split; vm_compute; discriminate.
  - apply create_step.
  - vm_compute. reflexivity.
  - by intros id o [?|?].
  - apply rtc_refl.
Qed.

Lemma moving_reached fenced : rtc (move_step d0 fenced) start moving.
Proof.
  eapply rtc_r; [apply created_reached|]. by apply (step_tick d0 fenced (world (planned false) 7 (Uniform [1; 2; 3]%N) [] 1 ∅ []) 1).
Qed.

(** ** The excluded schedule *)

Definition stalled : Pass := Pass_Admit (placed [1; 2; 3]%N (Some (the_plan false))) (the_plan false) 4.
Definition report : ObservationBody :=
  ObservationBody_Abort 2 d0 7 (mkObservation d0 7 [1; 2; 3]%N (mkLogId 1 6)).
Definition rolled_back : MetaState := set_placement d0 (placed [1; 2; 3]%N None) (planned true).

Lemma then_step fenced σ σ1 σ2 : rtc (move_step d0 fenced) start σ → move_step d0 fenced σ σ1 → σ1 = σ2 →
  rtc (move_step d0 fenced) start σ2.
Proof. intros Hr Hst <-. by eapply rtc_r. Qed.

Ltac same_world := cbn -[planned rolled_back]; rewrite ?planned_placement; reflexivity.

(** Node 1 passes the gate and is suspended while its learner is admitted. *)
Lemma stalled_reached : rtc (move_step d0 false) start (world (planned false) 7 (Uniform [1; 2; 3]%N) [] 1 (<[1%N := stalled]> ∅) []).
Proof.
  assert (rtc (move_step d0 false) start (world (planned false) 7 (Uniform [1; 2; 3]%N) [] 1
    (<[1%N := Pass_Placed (placed [1; 2; 3]%N (Some (the_plan false)))]> ∅) [])) as Hr.
  { eapply then_step; [apply moving_reached|by apply (step_read d0 false moving 1)|]. same_world. }
  eapply then_step; [exact Hr| |].
  - apply (step_local d0 false _ 1 (Pass_Placed (placed [1; 2; 3]%N (Some (the_plan false)))) [1; 2; 3]%N); done.
  - same_world.
Qed.

(** The plan is marked aborting. *)
Lemma aborting_reached :
  rtc (move_step d0 false) start (world (planned true) 8 (Uniform [1; 2; 3]%N) [] 1 (<[1%N := stalled]> ∅) []).
Proof.
  eapply then_step; [apply stalled_reached| |].
  - apply (step_meta d0 false _ (set_placement d0 (placed [1; 2; 3]%N (Some (the_plan true))) (planned false))
      (mkLogId 1 8) (MetaCommand_MarkAborting d0 7)).
    + split; vm_compute; discriminate.
    + split; vm_compute; discriminate.
    + split; [right; apply Hb|].
      apply (rule_mark_aborting (planned false) _ d0 (placed [1; 2; 3]%N (Some (the_plan false))) (the_plan false)); try done.
      apply planned_placement.
    + vm_compute. reflexivity.
    + by intros id o [?|?].
  - unfold world. f_equal. unfold planned, set_placement. cbn. by rewrite insert_insert_eq.
Qed.

(** Node 2 takes over; its driver reads the aborting plan and reports the rollback. *)
Definition two (pass : Pass) : gmap NodeId Pass := <[2%N := pass]> (<[1%N := stalled]> ∅).
Lemma reported_reached :
  rtc (move_step d0 false) start (world (planned true) 8 (Uniform [1; 2; 3]%N) [] 2 (<[1%N := stalled]> ∅) [report]).
Proof.
  set (at_pass pass := world (planned true) 8 (Uniform [1; 2; 3]%N) [] 2 (two pass) []).
  set (p := placed [1; 2; 3]%N (Some (the_plan true))).
  assert (rtc (move_step d0 false) start (at_pass Pass_Read)) as R1.
  { eapply then_step; [eapply then_step; [apply aborting_reached|by apply (step_elect d0 false _ 2)|done]|by apply (step_tick d0 false _ 2)|done]. }
  assert (rtc (move_step d0 false) start (at_pass (Pass_Placed p))) as R2.
  { eapply then_step; [apply R1|by apply (step_read d0 false _ 2)|]. unfold at_pass. same_world. }
  assert (rtc (move_step d0 false) start (at_pass (Pass_ConfirmAbort p (the_plan true)))) as R3.
  { eapply then_step; [apply R2|by apply (step_local d0 false _ 2 (Pass_Placed p) [1; 2; 3]%N)|]. unfold at_pass. same_world. }
  assert (rtc (move_step d0 false) start (at_pass (Pass_RemoveLearners [4%N] report))) as R4.
  { eapply then_step; [apply R3|by apply (step_confirm d0 false _ 2 (Pass_ConfirmAbort p (the_plan true)) (Some (mkLogId 1 6)))|].
    unfold at_pass. same_world. }
  assert (rtc (move_step d0 false) start (at_pass (Pass_Submit report))) as R5.
  { eapply then_step; [apply R4|by apply (step_local d0 false _ 2 (Pass_RemoveLearners [4%N] report) [])|]. unfold at_pass. same_world. }
  eapply then_step; [apply R5|by apply (step_submit d0 false _ 2 report)|]. unfold at_pass. same_world.
Qed.

(** The meta group clears the plan. *)
Lemma rolled_back_reached :
  rtc (move_step d0 false) start (world rolled_back 9 (Uniform [1; 2; 3]%N) [] 2 (<[1%N := stalled]> ∅) [report]).
Proof.
  eapply then_step; [apply reported_reached| |].
  - apply (step_meta d0 false _ rolled_back (mkLogId 1 9) (into_meta_command report)).
    + split_and!; [vm_compute; discriminate..|]. split_and!; [vm_compute; discriminate..| |split; vm_compute; discriminate].
      split; [vm_compute; discriminate|]. repeat constructor; vm_compute; discriminate.
    + split; vm_compute; discriminate.
    + split; [right; apply Hb|].
      apply (rule_abort_report (planned true) _ d0 (placed [1; 2; 3]%N (Some (the_plan true))) (the_plan true)
        (mkObservation d0 7 [1; 2; 3]%N (mkLogId 1 6)) [1; 2; 3]%N); try done; [apply planned_placement|by left].
    + vm_compute. reflexivity.
    + intros id o _. exists report. split; [by left|done].
  - reflexivity.
Qed.

(** Node 1 leads again and its suspended pass goes on. *)
Lemma split_reached : rtc (move_step d0 false) start
  (world rolled_back 9 (Uniform [1; 2; 4]%N) [] 1
     (<[1%N := Pass_ChangeVoters (placed [1; 2; 3]%N (Some (the_plan false))) (the_plan false)]> ∅) [report]).
Proof.
  set (at_pass config learners pass := world rolled_back 9 config learners 1 (<[1%N := pass]> ∅) [report]).
  set (p := placed [1; 2; 3]%N (Some (the_plan false))). set (plan := the_plan false).
  assert (rtc (move_step d0 false) start (at_pass (Uniform [1; 2; 3]%N) [] stalled)) as R1.
  { eapply then_step; [apply rolled_back_reached|by apply (step_elect d0 false _ 1)|done]. }
  assert (rtc (move_step d0 false) start (at_pass (Uniform [1; 2; 3]%N) [] (Pass_AddLearner p plan 4))) as R2.
  { eapply then_step; [apply R1|by apply (step_local d0 false _ 1 stalled [])|done]. }
  assert (rtc (move_step d0 false) start (at_pass (Uniform [1; 2; 3]%N) [4%N] (Pass_CaughtUp p plan 4))) as R3.
  { eapply then_step; [apply R2|by apply (step_add d0 false _ 1 p plan 4)|done]. }
  assert (rtc (move_step d0 false) start (at_pass (Uniform [1; 2; 3]%N) [4%N] (Pass_ChangeVoters p plan))) as R4.
  { eapply then_step; [eapply then_step; [apply R3|by apply (step_local d0 false _ 1 (Pass_CaughtUp p plan 4) [])|done]|
      by apply (step_local d0 false _ 1 (Pass_IndexesReady p plan 4) [])|done]. }
  assert (rtc (move_step d0 false) start (at_pass (Joint [1; 2; 3]%N [1; 2; 4]%N) [4%N] (Pass_ChangeVoters p plan))) as R5.
  { eapply then_step; [apply R4|apply (step_joint d0 false _ 1 p plan [1; 2; 3]%N); try done|done]. set_solver. }
  eapply then_step; [apply R5|by apply (step_uniform d0 false _ 1 p plan [1; 2; 3]%N [1; 2; 4]%N)|done].
Qed.
End run.

Lemma move_record_agrees_witness : ∃ σ p, ms_placements (mv_meta σ) !! d0 = Some p ∧ is_Some (pl_move p) ∧
  mv_config σ = Uniform (pl_voters p).
Proof.
  destruct booted_exists as [m Hb].
  destruct (move_record_agrees d0 0 (start m) (moving m) eq_refl (start_settled m Hb) (moving_reached m Hb true)) as (p & Hp & _).
  exists (moving m), p. cbn in Hp. rewrite lookup_insert_eq in Hp. injection Hp as <-. split_and!; [apply lookup_insert_eq|by eexists|done].
Defined.

Lemma move_completes_witness : ∃ m σ' p', rtc (move_step d0 true) (world (planned m false) 7 (Uniform [1; 2; 3]%N) [] 1 ∅ []) σ' ∧
  ms_placements (mv_meta σ') !! d0 = Some p' ∧ pl_move p' = None ∧ pl_voters p' = [1; 2; 4]%N ∧ mv_config σ' = Uniform [1; 2; 4]%N.
Proof.
  destruct booted_exists as [m Hb]. exists m.
  apply (move_completes 0 (start m) (world (planned m false) 7 (Uniform [1; 2; 3]%N) [] 1 ∅ []) 1
    (placed [1; 2; 3]%N (Some (the_plan false))) (the_plan false) (start_settled m Hb)).
  - apply created_reached. exact Hb.
  - done.
  - done.
  - apply planned_placement.
  - done.
  - done.
  - exact (bt_open m Hb).
  - vm_compute. reflexivity.
Defined.

(** C40: without the fence a stale pass splits the record from the group. There
    is a schedule in which a pass is gated, the plan is marked aborting, another
    leader reports the rollback and the meta group clears the plan, and the
    first node, elected again, resumes its pass: the group commits the target
    configuration while the record, without any plan, names the old voters. *)
Theorem stale_pass_splits_record : ∃ σ0 σ p, settled d0 σ0 ∧ rtc (move_step d0 false) σ0 σ ∧
  ms_placements (mv_meta σ) !! d0 = Some p ∧ pl_move p = None ∧ pl_voters p = [1; 2; 3]%N ∧ mv_config σ = Uniform [1; 2; 4]%N.
Proof.
  destruct booted_exists as [m Hb]. eexists (start m), _, (placed [1; 2; 3]%N None). split; [by apply start_settled|].
  split; [by apply split_reached|]. split_and!; [apply lookup_insert_eq|done..].
Qed.
